(* ===== verification/_CoqProject ===== *)
-Q . S2P
Prelude.v
GoTime.v
Trace.v
Types.v
HealthTypes.v
DeployTypes.v
World.v
Helpers.v
TaskUtils.v
Demo.v
CleanupJob.v
Executor.v
ExecutorFacts.v
ExecutorPass.v
Removal.v
SpecHandler.v
Processer.v
Controller.v
SpecFacts.v
SpecDemo.v
Lifecycle.v
TaskTheorems.v
TaskDemo.v
Operations.v
DiskDaemon.v
DiskFacts.v
DiskDemo.v
Config.v
ConfigFacts.v
HealthWorld.v
DaemonsStatus.v
SpecAnalysis.v
NodeAnalysis.v
AnalysisThreads.v
SpecAnalysisFacts.v
RookObjects.v
ClusterDetails.v
HealthController.v
HealthFacts.v
ReplicasFacts.v
HealthDemo.v
Extensions.v
Validate.v
ValidateFacts.v
DeployWorld.v
Resources.v
Pools.v
Clients.v
StorageClasses.v
CastSpec.v
NodeLabels.v
CsiEvict.v
SharedFilesystem.v
Versions.v
NetworkPolicies.v
CephConfig.v
CephConfigFacts.v
External.v
StoreWorld.v
Multisite.v
Rgw.v
ObjectStorage.v
CsiOperator.v
RbdMirror.v
Openstack.v
IngressProxy.v
ObjectStorageFacts.v
DeployController.v
DeployFacts.v
Cluster.v
ClusterState.v
Infra.v
Secrets.v
ServiceFacts.v
DeployEvents.v
ClusterFacts.v
DeployCompose.v
DeployDemo.v
ResourceDemo.v
ClusterDemo.v
