(* ===== verification/Prelude.v ===== *)
(** * Pelagia: controllers of Ceph clusters and the disk daemon

    Pelagia drives a Ceph cluster deployed by Rook on Kubernetes.  This library
    models its controllers and its disk daemon function by function and proves
    what makes them correct: first what decides about the destruction of data,
    then what the cluster is turned into and what is reported of it.

    ** The program

    - A [CephDeployment] object describes a cluster.  The deployment controller
      (pkg/controller/deployment) validates it, decides about versions, holds back
      while an OSD removal or a maintenance is going on, and then makes the objects
      of Rook and of Kubernetes follow the spec, one operation per kind of object;
      when the deployment is deleted it removes them, the CephCluster last.
    - A [CephDeploymentHealth] object is kept beside it.  The health controller
      (pkg/controller/health) writes the state of daemons, pools and Rook objects
      into it, and compares the OSDs that run with the spec of the nodes.
    - A [CephOsdRemoveTask] object asks for the removal of OSDs.  The task
      controller (pkg/controller/osdremove-task) reconciles one task per
      namespace at a time, the oldest active one: it validates the task (which
      OSDs and devices are meant; hosts whose spec analysis failed are left alone),
      waits for the approval of a user and for the Rook operator to be stopped, and
      then makes one pass per round over the selected OSDs: out of CRUSH one by one,
      rebalancing, purge, device cleanup job, removal of the deployment, and last of
      the host.
    - The disk daemon (pkg/disk-daemon) runs on every node.  Every 30 seconds it
      scans block devices and Ceph volumes and publishes a report, which the task
      and the health controller read through the diskdaemon pods.
    - The infra controller (pkg/controller/infra) keeps the toolbox and the disk daemon
      running and stops the operator of Rook while a maintenance or a removal needs it.
    - The secret controller (pkg/controller/secret) lists the secrets of clients and
      users in a [CephDeploymentSecret].  The connector (pkg/connector) is a command that
      prints what another deployment needs to use this cluster as an external one.
    - The config controller (pkg/controller/config) reads the parameters of all
      controllers from a config map.
    - pkg/common holds what they share: running commands in pods, retries, node and
      deployment helpers, versions, the types of reports and of Ceph's answers.

    ** Files and sources

    Shared
    - Prelude (this file): errors, strings, Go maps with their unspecified visiting
      order ([MapRange]), the effect monad [M] and its proof rules ([spec]).  Trace:
      proof rules that know what was done before ([traced], [ran]).
    - GoTime: RFC 3339 time stamps of package [time].
    - Types, HealthTypes, DeployTypes: the structs of pkg/apis/.../v1alpha1, of
      pkg/common and of the controllers, and the parts of Kubernetes and Rook objects
      that are read.
    - World, HealthWorld, DeployWorld, StoreWorld: the interactions ([event]), the
      environments that answer them, and the wrappers of pkg/common around them.

    Task controller (pkg/controller/osdremove-task)
    - Helpers: helpers.go and the pure functions at the end of spec_handler.go.
      TaskUtils: task_types.go and utils.go.  CleanupJob: cleanup_job.go.  Executor:
      executor.go.  SpecHandler: spec_handler.go.  Processer: phase.go and
      processer.go.  Controller: controller.go and register.go of the API.
    - ExecutorFacts, ExecutorPass, Removal: a pass of the executor.  SpecFacts:
      validation.  Lifecycle, TaskTheorems: the life of a task.  Operations: single
      operations of the executor.

    Disk daemon (pkg/disk-daemon)
    - DiskDaemon: daemon.go, disk_reporter.go, osds_reporter.go, utils.go and
      api_server.go.  DiskFacts: its theorems.

    Config controller (pkg/controller/config)
    - Config: config.go and controller.go.  ConfigFacts: their theorems.

    Health controller (pkg/controller/health)
    - DaemonsStatus: daemons_status.go.  RookObjects: rook_objects_status.go.
      ClusterDetails: cluster_details.go.  SpecAnalysis, NodeAnalysis:
      spec_osd_verification.go, and AnalysisThreads: its goroutines.
      HealthController: deployment_verification.go and controller.go.
    - SpecAnalysisFacts, HealthFacts, ReplicasFacts: theorems.

    Deployment controller (pkg/controller/deployment)
    - Extensions: extension.go of the API.  CastSpec: deprecation.go, extension.go
      and the expansion of nodes in pkg/common.  Validate: validate.go.  Versions:
      version.go, maintenance.go and the versions of pkg/common.  NodeLabels: label.go.
    - DeployController: controller.go, against the interface [ResourceOps] of
      DeployWorld: the operations on resources and what they promise not to touch.
    - The operations: Resources (what they share), Pools (pool.go), Clients
      (client.go), StorageClasses (storageclass.go), SharedFilesystem
      (shared_filesystem.go), CsiEvict (csi_evict.go), NetworkPolicies (netpol.go),
      CephConfig (ceph_config.go), External (external.go), Cluster (cluster.go),
      ClusterState (cluster_state.go), Multisite (multisite.go), Rgw (rgw.go),
      ObjectStorage (object_storage.go and gateway.go), CsiOperator (csi_operator.go
      and vsclass.go), RbdMirror (rbd_mirror.go), Openstack (openstack.go),
      IngressProxy (ingress.go).
    - DeployEvents, DeployCompose: the operations keep the promises of the interface
      ([pelagia_ops]), and the controller with them.
    - ValidateFacts, CephConfigFacts, ObjectStorageFacts, DeployFacts, ServiceFacts,
      ClusterFacts: theorems; those of Resources, Pools, Clients, StorageClasses,
      SharedFilesystem, CsiEvict, NodeLabels and Versions are in the same file.

    Infra controller (pkg/controller/infra), secret controller (pkg/controller/secret)
    and connector (pkg/connector)
    - Infra: controller.go, operator.go, disk_daemon.go and tools-box.go, with theorems.
      Secrets: controller.go and secrets_info.go of the secret controller, connector.go
      and utils.go of the connector, with theorems.

    Demo, SpecDemo, TaskDemo, DiskDemo, HealthDemo, DeployDemo, ResourceDemo,
    ClusterDemo: concrete clusters, objects and nodes, on which the definitions are run
    and the theorems are instantiated.

    ** How the code is represented

    A function that talks to the outside is of type [M Ev A]: it reads the history
    of all interactions so far and returns its value and the interactions it adds.
    An answer of the environment is any function of that history, so that theorems
    hold for every behaviour of Ceph, Kubernetes, the nodes and the clock between
    and during rounds.  A Go [error] result is an [option err]; a panic is the
    [None] of an option result.  A loop over a Go map goes through
    [range site m], with any visiting order for each such loop; where the code
    updates in place a map that it is ranging over, or two objects share a map or a
    slice, the model threads the shared value.  The goroutines of the spec analysis
    are a transition system.  Integers are [Z]: where their width matters (rotation
    numbers, bytes of pools, numbers of the config map) the wrap-around or the range
    check is written out; elsewhere they are counts, identifiers and nanoseconds, far
    from the limits of 64 bits.

    What the theorems rely on of code outside the repository is in the classes
    [World], [DaemonWorld], [HealthWorld], [DeployWorld], [ResourceWorld], [StoreWorld],
    [ServiceWorld], [InfraWorld], [SecretWorld], [ConfigLib], [SpecDecoder], [RookLib] and
    [MapRange]: the Kubernetes API, shell commands, JSON decoders, label selectors, certificates and regular
    expressions are arbitrary functions.

    ** What is proved

    - The task (TaskTheorems, over any sequence of rounds and user edits,
      [lifecycle]): nothing is destroyed without approval; rounds follow the phase
      machine [task_move]; conditions are the record of a run; which phases have
      which remove info; closed tasks stay closed; active tasks come back; the
      oldest active task is served.
    - The removal (Removal, over any number of passes, [reach]): a pass refines the
      abstract steps [osd_step] and asks of the cluster only what [pass_event]
      allows; one OSD rebalances at a time; one cleanup job per host; deployments
      after cleanup; a finished removal without issues is complete.
    - Validation of a task (SpecFacts): it yields a starting point of the removal;
      hosts of the spec are never dropped; devices are zapped exactly when that is
      safe; OSDs on devices of the spec are not selected; when lookups can panic.
    - Operations: sharing of devices, contents and replacement of cleanup jobs,
      retries, time limits, time stamps.
    - The daemon (DiskFacts): the search for disks is exact and ends, the scan is
      exact, the OSD report is always made, what a tick publishes.
    - The configuration (ConfigFacts): numbers that fit are read back, and a process
      sees the parameters of its own controller in every configuration.
    - The health controller: a round only looks (HealthFacts); what a clean spec
      analysis means for the OSDs of a node, and that without one the task controller
      leaves the host alone while it is available and labelled (SpecAnalysisFacts,
      HealthFacts); the goroutines are
      bounded, end, and what does not depend on their schedule (AnalysisThreads);
      failure domains are counted as on the tree (ReplicasFacts).
    - The deployment (DeployFacts, for any operations that keep the promises): when
      nothing of the configuration is applied; which phases are written and why;
      the cluster goes last; the finalizer stays until all is gone.  With the operations
      (DeployCompose): what a ready deployment has, what was left when its cluster was
      destroyed, and the places in which a round may panic instead of having a result.
    - The parts of a deployment: the validation accepts exactly the described specs
      (ValidateFacts); major releases never step back or jump (Versions); labels of nodes
      are exact and given back (NodeLabels); what pools, storage classes, clients and
      file systems are created, updated or removed and when (Pools, StorageClasses,
      Clients, SharedFilesystem); volumes are gone before a node is marked as ready to
      be drained (CsiEvict); the configuration of Ceph has exactly the options of the
      spec and no passwords (CephConfigFacts); what the CephCluster is generated to be
      and when it is written (ClusterFacts); stores, users, realms and zones of object
      storage are removed only when nothing uses them (ObjectStorageFacts); drivers of
      others are kept, the keys for OpenStack are those in use, and the check of the
      cluster's state overrides only pools of Ceph itself (ServiceFacts).
    - Infra: the operator of Rook is scaled exactly when, and to what, maintenance and
      tasks ask for; when a workload that exists is left alone.  Secrets: what the
      connector prints is read back by External of another deployment, with the users and
      keys of this cluster; every client is in the status or is an issue; the time of the
      last update of the status changes with its content only.
    - Where the code does not do what it means to, a theorem or an [Example] states
      what it does: [approval_hides_changes], [empty_nodes_never_processed],
      [metadata_lookup], [ok_to_stop_limit_not_enforced],
      [unchanged_tick_drops_issues], [extra_issue_lost],
      [missing_ceph_status_panics], [no_pools_always_updated],
      [csi_default_not_applied], [deletion_needs_gateway] and examples of the Demo files.

    ** Bounds

    Loops over lists and maps are structural.  [RunFuncWithRetry] recurses on the
    number of tries, which is 5 in all its uses.  [findDisks], [FindDiskName] and
    the walk through the tree of OSDs recurse through data that may have cycles:
    [depth] is the depth the Go stack allows, its exhaustion is the crash of the
    process, and [findDisks_terminates] and [osds_report_made] show that it does not
    happen when parent links have no cycle.  Polling until a time limit is bounded
    by [w_poll_attempts], the number of attempts the world grants before the limit;
    it is arbitrary.

    ** What is abstracted

    Log messages.  The nil and the empty slice or map, except where the difference
    matters (the nodes section of a task, optional maps of the health report, maps that
    are written to); elsewhere the only effect is a status written once more.  Time
    limits are compared in nanoseconds, where the code compares minutes as
    floating-point numbers: the two may differ within a microsecond of the limit.
    Percentages and ratios are rational numbers, their printed form is a parameter.
    The panic of [regexp.MustCompile] on an invalid filter of the spec.  A command that
    answers with the JSON literal [null] where an object is expected.  Case
    folding is that of ASCII, and strings are quoted byte by byte above 127.
    Loads and stores of a slice by the goroutines are atomic.  [strings.TrimSpace] is
    that of ASCII.  Bytes of secrets are strings, and a key with nil bytes is one with
    the empty string.  The times at which sections of the Ceph configuration were
    changed live in the memory of the process: they are the last ones stored in the
    history ([EvStamps]), and nothing in a new process.

    ** Not modelled

    alignSpecForAES256k, which rewrites raw JSON (an interaction with an arbitrary
    answer); making certificates; the commands under cmd/, registration with
    controller-runtime, the HTTP plumbing of the daemon and generated clients, which hold
    no logic of their own. *)

From Stdlib Require Import Ascii String.
From stdpp Require Export base gmap strings list fin_maps sorting pretty.

Declare Scope go_scope.
Delimit Scope go_scope with go.
#[global] Open Scope go_scope.

(** ** Errors

    A Go [error] is its message together with what the Kubernetes helpers
    ([apierrors.IsNotFound], [meta.IsNoMatchError], [runtime.IsNotRegisteredError])
    can tell about it; wrapping an error keeps its kind. *)

Inductive errkind := ErrOther | ErrNotFound | ErrNoMatch | ErrNotRegistered.

Record err := Err { err_kind : errkind; err_msg : string }.

Definition new_err (msg : string) : err := Err ErrOther msg.

(** [errors.Wrap] and [errors.Wrapf] of github.com/pkg/errors. *)
Definition wrap_err (msg : string) (e : err) : err :=
  Err (err_kind e) (msg +:+ ": " +:+ err_msg e).

Definition is_not_found (e : err) : bool :=
  match err_kind e with ErrNotFound => true | _ => false end.

#[global] Instance errkind_eq_dec : EqDecision errkind.
Proof. solve_decision. Defined.

#[global] Instance err_eq_dec : EqDecision err.
Proof. solve_decision. Defined.

(** ** Strings: the functions of Go's package [strings] the sources use *)

Definition bool_str (b : bool) : string := if b then "true" else "false".

Definition newline : string := String (ascii_of_nat 10) EmptyString.

Definition HasPrefix (s p : string) : bool := String.prefix p s.

Fixpoint drop_str (n : nat) (s : string) : string :=
  match n, s with
  | O, _ => s
  | S n', String _ s' => drop_str n' s'
  | S _, EmptyString => EmptyString
  end.

Fixpoint take_str (n : nat) (s : string) : string :=
  match n, s with
  | S n', String a s' => String a (take_str n' s')
  | _, _ => EmptyString
  end.

Definition HasSuffix (s suf : string) : bool :=
  (String.length suf <=? String.length s)%nat &&
  bool_decide (drop_str (String.length s - String.length suf) s = suf).

Definition TrimSuffix (s suf : string) : string :=
  if HasSuffix s suf then take_str (String.length s - String.length suf) s else s.

(** The first result of [strings.CutPrefix]. *)
Definition CutPrefix (s p : string) : string :=
  if HasPrefix s p then drop_str (String.length p) s else s.

Fixpoint StrContains (s sub : string) : bool :=
  HasPrefix s sub ||
  match s with
  | EmptyString => false
  | String _ s' => StrContains s' sub
  end.

(** [strings.Split] with a one-character separator (the only use in the
    sources); the result is never empty. *)
Fixpoint Split (s : string) (sep : ascii) : list string :=
  match s with
  | EmptyString => [EmptyString]
  | String a s' =>
      if decide (a = sep) then EmptyString :: Split s' sep
      else match Split s' sep with
           | [] => [String a EmptyString]
           | w :: ws => String a w :: ws
           end
  end.

(** [strings.ReplaceAll] with a non-empty [old]: occurrences are replaced from
    left to right without overlap; [skip] counts the characters of the
    occurrence still to be dropped. *)
Fixpoint replace_go (old new : string) (skip : nat) (s : string) : string :=
  match s with
  | EmptyString => EmptyString
  | String a s' =>
      match skip with
      | S k => replace_go old new k s'
      | O => if HasPrefix s old
             then new +:+ replace_go old new (String.length old - 1) s'
             else String a (replace_go old new 0 s')
      end
  end.

Definition ReplaceAll (s old new : string) : string := replace_go old new 0 s.

Fixpoint Join (l : list string) (sep : string) : string :=
  match l with
  | [] => EmptyString
  | [x] => x
  | x :: l' => x +:+ sep +:+ Join l' sep
  end.

(** [strings.TrimSpace], for white space of ASCII. *)
Definition is_space (a : ascii) : bool := bool_decide (nat_of_ascii a ∈ [9; 10; 11; 12; 13; 32]%nat).
Fixpoint trim_left (l : list ascii) : list ascii :=
  match l with
  | a :: l' => if is_space a then trim_left l' else l
  | [] => []
  end.
Definition TrimSpace (s : string) : string :=
  String.string_of_list_ascii (reverse (trim_left (reverse (trim_left (String.list_ascii_of_string s))))).

(** [sort.Strings]: byte-wise lexicographic order. *)
Definition SortStrings (l : list string) : list string := merge_sort String.le l.

Lemma SortStrings_perm l : SortStrings l ≡ₚ l.
Proof. apply merge_sort_Permutation. Qed.

Lemma SortStrings_nil l : SortStrings l = [] ↔ l = [].
Proof.
  split; [|by intros ->]. intros Hs. pose proof (SortStrings_perm l) as Hp. rewrite Hs in Hp.
  by apply Permutation_nil_l in Hp.
Qed.

(** [Contains] of pkg/common/general_utils.go, at strings and integers. *)
Fixpoint Contains {A} `{EqDecision A} (l : list A) (s : A) : bool :=
  match l with
  | [] => false
  | v :: l' => if decide (v = s) then true else Contains l' s
  end.

Lemma Contains_spec {A} `{EqDecision A} (l : list A) x : Contains l x = true ↔ x ∈ l.
Proof.
  induction l as [|y l IH]; simpl; [by rewrite elem_of_nil|]. rewrite elem_of_cons, <-IH.
  case_decide; [by subst; tauto|]. intuition congruence.
Qed.

(** Membership in a list given by its elements. *)
Ltac mem :=
  solve [assumption | repeat first [apply list_elem_of_here | apply list_elem_of_further]].
Ltac mem_inv H :=
  repeat (apply elem_of_cons in H as [H|H]; [|try (apply elem_of_nil in H; contradiction)]).

(** ** Go maps

    A map with string keys is a [gmap string]; [m[k]] of a missing key is the
    zero value, written with [default].  The order in which [for k, v := range m]
    visits the entries is unspecified by the language, so it is a parameter of
    the model: [range site m] is the visiting order at the occurrence [site] of
    a [range] clause, and every theorem holds for each choice of it. *)

Class MapRange := {
  range : ∀ {A : Type}, nat → gmap string A → list (string * A);
  range_perm : ∀ {A : Type} site (m : gmap string A), range site m ≡ₚ map_to_list m;
}.

Definition default_range : MapRange :=
  {| range := λ A _ m, map_to_list m; range_perm := λ A _ m, reflexivity _ |}.

(** The opposite visiting order, for the witnesses that compare two orders. *)
Definition reverse_range : MapRange :=
  {| range := λ A _ m, reverse (map_to_list m);
     range_perm := λ A _ m, reverse_Permutation _ |}.

Section map_range.
Context `{MapRange} {A : Type}.
Implicit Types m : gmap string A.

Lemma elem_of_range site m k v : (k, v) ∈ range site m ↔ m !! k = Some v.
Proof. by rewrite range_perm, elem_of_map_to_list. Qed.

Lemma NoDup_range site m : NoDup (range site m).
Proof. rewrite range_perm. apply NoDup_map_to_list. Qed.

Lemma NoDup_range_keys site m : NoDup (range site m).*1.
Proof. rewrite range_perm. apply NoDup_fst_map_to_list. Qed.

Lemma length_range site m : length (range site m) = size m.
Proof. by rewrite range_perm, length_map_to_list. Qed.
End map_range.

(** ** Effects

    [M Ev A] is a computation that talks to the world: it reads the history of
    the interactions so far (which is what the world's answers may depend on)
    and returns its value with the events it has added. *)

Definition M (Ev A : Type) : Type := list Ev → A * list Ev.

Definition mret' {Ev A} (a : A) : M Ev A := λ _, (a, []).

Definition mbind' {Ev A B} (m : M Ev A) (f : A → M Ev B) : M Ev B := λ h,
  let r1 := m h in
  let r2 := f r1.1 (h ++ r1.2) in
  (r2.1, r1.2 ++ r2.2).

Notation "'ret' a" := (mret' a) (at level 10, a at next level) : go_scope.
Notation "'let*' x ':=' m 'in' k" := (mbind' m (λ x, k))
  (at level 10, x pattern, m at level 100, k at level 200) : go_scope.
Notation "m1 ';;;' m2" := (mbind' m1 (λ _, m2))
  (at level 100, right associativity) : go_scope.

Lemma and_iff_both (P P' Q Q' : Prop) : (P ↔ P') → (Q ↔ Q') → P ∧ Q ↔ P' ∧ Q'.
Proof. tauto. Qed.

Lemma or_iff_both (P P' Q Q' R : Prop) : (P ↔ P' ∨ Q') → (Q ↔ R) → P ∨ Q ↔ P' ∨ Q' ∨ R.
Proof. tauto. Qed.

Lemma bind_fst {Ev A B} (m : M Ev A) (f : A → M Ev B) h a :
  (m h).1 = a → (mbind' m f h).1 = (f a (h ++ (m h).2)).1.
Proof. by intros <-. Qed.

Lemma bind_snd {Ev A B} (m : M Ev A) (f : A → M Ev B) h :
  (mbind' m f h).2 = (m h).2 ++ (f (m h).1 (h ++ (m h).2)).2.
Proof. done. Qed.

(** [call e f] performs the interaction [e]; the world answers with [f] of the
    history before it. *)
Definition call {Ev A} (e : Ev) (f : list Ev → A) : M Ev A := λ h, (f h, [e]).

Definition when' {Ev} (b : bool) (m : M Ev unit) : M Ev unit := if b then m else ret tt.

(** A loop [for _, x := range l] over a slice, threading a loop state. *)
Fixpoint foldM {Ev A S} (f : S → A → M Ev S) (l : list A) (s : S) : M Ev S :=
  match l with
  | [] => ret s
  | a :: l' => let* s' := f s a in foldM f l' s'
  end.

(** The same loop where a round may panic ([None]). *)
Fixpoint foldMo {Ev A S} (f : S → A → M Ev (option S)) (l : list A) (s : S) : M Ev (option S) :=
  match l with
  | [] => ret (Some s)
  | a :: l' =>
      let* r := f s a in
      match r with
      | Some s' => foldMo f l' s'
      | None => ret None
      end
  end.

Lemma foldM_fmap {Ev A B S} (f : S → B → M Ev S) (g : A → B) l s h :
  foldM f (g <$> l) s h = foldM (λ s a, f s (g a)) l s h.
Proof. revert s h. induction l as [|a l IH]; intros s h; [done|]. simpl. unfold mbind'. by rewrite IH. Qed.

(** ** Specifications of effectful code

    [spec P m Q]: every run of [m], from every history, returns a value with
    [Q] and performs only interactions with [P]. *)
Definition spec {Ev A} (P : Ev → Prop) (m : M Ev A) (Q : A → Prop) : Prop :=
  ∀ h, Q (m h).1 ∧ Forall P (m h).2.

Section spec.
Context {Ev : Type}.
Implicit Types P : Ev → Prop.

Lemma spec_ret {A} P (a : A) (Q : A → Prop) : Q a → spec P (ret a) Q.
Proof. intros ??. by split; [|constructor]. Qed.

Lemma spec_call {A} P (e : Ev) (f : list Ev → A) (Q : A → Prop) :
  P e → (∀ a, Q a) → spec P (call e f) Q.
Proof. intros ???. split; [done|]. by repeat constructor. Qed.

Lemma spec_call_eq {A} P (e : Ev) (f : list Ev → A) :
  P e → spec P (call e f) (λ a, ∃ h, a = f h).
Proof. intros ? h. split; [by exists h|]. by repeat constructor. Qed.

Lemma spec_bind {A B} P (m : M Ev A) (f : A → M Ev B) (R : A → Prop) (Q : B → Prop) :
  spec P m R → (∀ a, R a → spec P (f a) Q) → spec P (mbind' m f) Q.
Proof.
  intros Hm Hf h. destruct (Hm h) as [HR HP].
  destruct (Hf _ HR (h ++ (m h).2)) as [HQ HP']. split; [done|]. by apply Forall_app.
Qed.

Lemma spec_bind_any {A B} P (m : M Ev A) (f : A → M Ev B) (Q : B → Prop) :
  spec P m (λ _, True) → (∀ a, spec P (f a) Q) → spec P (mbind' m f) Q.
Proof. intros Hm Hf. eapply spec_bind; eauto. Qed.

Lemma spec_bind_ret {A B} P (a : A) (f : A → M Ev B) (Q : B → Prop) :
  spec P (f a) Q → spec P (mbind' (ret a) f) Q.
Proof. intros Hf h. apply Hf. Qed.

Lemma spec_weaken {A} P P' (m : M Ev A) (Q Q' : A → Prop) :
  spec P m Q → (∀ e, P e → P' e) → (∀ a, Q a → Q' a) → spec P' m Q'.
Proof.
  intros Hm HP HQ h. destruct (Hm h) as [??]. split; [auto|].
  by eapply Forall_impl.
Qed.

Lemma spec_post {A} P (m : M Ev A) (Q Q' : A → Prop) :
  spec P m Q → (∀ a, Q a → Q' a) → spec P m Q'.
Proof. intros ??. by eapply spec_weaken. Qed.

Lemma spec_any {A} P (m : M Ev A) (Q : A → Prop) : spec P m Q → spec P m (λ _, True).
Proof. intros ?. by eapply spec_post. Qed.

Lemma spec_triv {A} (m : M Ev A) : spec (λ _, True) m (λ _, True).
Proof. intros h. split; [done|]. by apply Forall_true. Qed.

(** The loop rule: [I l s] holds before the rounds for [l] that remain. *)
Lemma spec_foldM {A S} P (f : S → A → M Ev S) (I : list A → S → Prop) l s :
  I l s →
  (∀ a l' s, I (a :: l') s → spec P (f s a) (I l')) →
  spec P (foldM f l s) (I []).
Proof.
  intros HI Hf. revert s HI. induction l as [|a l IH]; intros s HI; simpl.
  - by apply spec_ret.
  - eapply spec_bind; [by apply Hf|auto].
Qed.

(** A loop whose rounds all keep an invariant. *)
Lemma spec_foldM_inv {A S} P (f : S → A → M Ev S) (I : S → Prop) l s :
  I s → (∀ a s, a ∈ l → I s → spec P (f s a) I) → spec P (foldM f l s) I.
Proof.
  intros HI Hf. eapply spec_post.
  - apply (spec_foldM P f (λ l' s, I s ∧ ∀ a, a ∈ l' → a ∈ l)); [done|].
    intros a l' s' [Hs Hl]. eapply spec_post; [apply Hf; [apply Hl; left|done]|].
    intros s1 Hs1. split; [done|]. intros a' ?. apply Hl. by right.
  - by intros ? [??].
Qed.
End spec.

(** [runs m R]: the result and the interactions of every run of [m] are related
    by [R]. *)
Definition runs {Ev A} (m : M Ev A) (R : A → list Ev → Prop) : Prop := ∀ h, R (m h).1 (m h).2.

Section runs.
Context {Ev : Type}.

Lemma runs_ret {A} (a : A) (R : A → list Ev → Prop) : R a [] → runs (ret a) R.
Proof. by intros ??. Qed.

Lemma runs_call {A} (e : Ev) (f : list Ev → A) (R : A → list Ev → Prop) : (∀ a, R a [e]) → runs (call e f) R.
Proof. by intros ??. Qed.

Lemma runs_bind {A B} (m : M Ev A) (f : A → M Ev B) (R1 : A → list Ev → Prop) (R : B → list Ev → Prop) :
  runs m R1 → (∀ a ev, R1 a ev → runs (f a) (λ b ev', R b (ev ++ ev'))) → runs (mbind' m f) R.
Proof. intros Hm Hf h. apply (Hf _ _ (Hm h)). Qed.

Lemma runs_any {A} (m : M Ev A) : runs m (λ _ _, True).
Proof. done. Qed.
End runs.

(** Runs a specification proof forward through [ret], bind and case analysis;
    what the called operations do is looked up in the database [spec]. *)
Create HintDb spec discriminated.

Ltac spec_step :=
  match goal with
  | |- spec _ (mret' _) _ => apply spec_ret
  | |- spec _ (mbind' _ _) _ => apply spec_bind_any; [solve [eauto 6 with spec]|intros ?; simpl]
  | |- spec _ (mbind' _ _) _ => eapply spec_bind; [solve [eauto 6 with spec]|intros ? ?; simpl in *]
  | |- spec _ (match ?x with _ => _ end) _ => destruct x eqn:?; simpl in *
  end.
Ltac spec_run := repeat spec_step; try solve [eauto 6 with spec].

(** ** Loops that may fail

    [foldl (λ acc a, st ← acc; f st a) (Some s) l]: a loop over a slice that stops at
    a panic. *)
Section foldl_bind.
Context {A S : Type} (f : S → A → option S).

(** An invariant over the elements done so far. *)
Lemma foldl_bind_inv (I : list A → S → Prop) l s s' :
  I [] s →
  (∀ done a st st', a ∈ l → I done st → f st a = Some st' → I (done ++ [a]) st') →
  foldl (λ acc a, st ← acc; f st a) (Some s) l = Some s' → I l s'.
Proof.
  intros H0 Hf. revert s'. induction l as [|a l IH] using rev_ind; intros s' Hl; simpl in *; [by simplify_eq|].
  rewrite foldl_app in Hl. simpl in Hl. apply bind_Some in Hl as (st & Hst & Hs').
  eapply Hf; [|apply IH|exact Hs']; [apply elem_of_app; right; by apply list_elem_of_singleton| |done].
  intros done b st1 st2 Hb. apply Hf. apply elem_of_app. by left.
Qed.

Lemma foldl_bind_some l s : (∀ st a, a ∈ l → is_Some (f st a)) → is_Some (foldl (λ acc a, st ← acc; f st a) (Some s) l).
Proof.
  intros Hf. induction l as [|a l IH] using rev_ind; [by eexists|]. rewrite foldl_app. simpl.
  destruct IH as [st ->]; [intros ???; apply Hf, elem_of_app; by left|].
  apply Hf, elem_of_app. right. by apply list_elem_of_singleton.
Qed.
End foldl_bind.
