(* ===== verification/GoTime.v ===== *)
(** * Time stamps

    The calendar part of Go's package [time] the controllers use: instants are
    nanoseconds since the Unix epoch, [FormatRFC3339] is
    [t.UTC().Format(time.RFC3339)] (the controllers run in UTC) and
    [ParseRFC3339] is the strict RFC 3339 reader behind
    [time.Parse(time.RFC3339, s)]: date and time of day with range checks, an
    optional fraction of a second, and [Z] or a numeric zone offset.  The
    main fact is that a formatted time stamp is read back as the same instant,
    truncated to the second. *)

From S2P Require Import Prelude.
From Stdlib Require Import Ascii String.
Open Scope Z_scope.

Definition second : Z := 1000000000.
Definition minute : Z := 60 * second.

(** ** Days and civil dates (proleptic Gregorian calendar)

    Years are counted from the first of March, so that a leap day is the last
    day of its year; [doe] is the day of a 400-year era. *)

Definition doe_year (doe : Z) : Z * Z :=
  let c := Z.min 3 (doe / 36524) in
  let r := doe - 36524 * c in
  let q := Z.min 24 (r / 1461) in
  let r2 := r - 1461 * q in
  let y := Z.min 3 (r2 / 365) in
  (100 * c + 4 * q + y, r2 - 365 * y).

Definition doy_month_day (doy : Z) : Z * Z :=
  let mp := (5 * doy + 2) / 153 in
  (if mp <? 10 then mp + 3 else mp - 9, doy - (153 * mp + 2) / 5 + 1).

Definition civil_of_days (days : Z) : Z * Z * Z :=
  let z := days + 719468 in
  let era := z / 146097 in
  let '(yoe, doy) := doe_year (z mod 146097) in
  let '(m, d) := doy_month_day doy in
  ((yoe + era * 400) + (if m <=? 2 then 1 else 0), m, d).

Definition days_of_civil (y m d : Z) : Z :=
  let y' := y - (if m <=? 2 then 1 else 0) in
  let era := y' / 400 in
  let yoe := y' mod 400 in
  let doy := (153 * (if 2 <? m then m - 3 else m + 9) + 2) / 5 + d - 1 in
  era * 146097 + (yoe * 365 + yoe / 4 - yoe / 100 + doy) - 719468.

Definition is_leap (y : Z) : bool :=
  (y mod 4 =? 0) && (negb (y mod 100 =? 0) || (y mod 400 =? 0)).

Definition days_in (m y : Z) : Z :=
  if m =? 2 then (if is_leap y then 29 else 28)
  else if (m =? 4) || (m =? 6) || (m =? 9) || (m =? 11) then 30 else 31.

(** ** Formatting and parsing *)

Definition digit (k : Z) : ascii := ascii_of_N (Z.to_N (48 + k)).

Definition undigit (a : ascii) : option Z :=
  let n := Z.of_N (N_of_ascii a) - 48 in
  if (0 <=? n) && (n <=? 9) then Some n else None.

Definition put2 (k : Z) (s : string) : string :=
  String (digit (k / 10)) (String (digit (k mod 10)) s).

Definition put4 (k : Z) (s : string) : string := put2 (k / 100) (put2 (k mod 100) s).

Definition FormatRFC3339 (t : Z) : string :=
  let secs := t / second in
  let sod := secs mod 86400 in
  let '(y, m, d) := civil_of_days (secs / 86400) in
  put4 y ("-" +:+ put2 m ("-" +:+ put2 d ("T" +:+ put2 (sod / 3600)
    (":" +:+ put2 (sod / 60 mod 60) (":" +:+ put2 (sod mod 60) "Z"))))).

Definition get2 (s : string) (lo hi : Z) : option (Z * string) :=
  match s with
  | String a (String b s') =>
      x ← undigit a; y ← undigit b;
      let n := 10 * x + y in
      if (lo <=? n) && (n <=? hi) then Some (n, s') else None
  | _ => None
  end.

Definition get4 (s : string) : option (Z * string) :=
  '(c, s1) ← get2 s 0 99; '(r, s2) ← get2 s1 0 99; Some (100 * c + r, s2).

Definition get_char (c : ascii) (s : string) : option string :=
  match s with
  | String a s' => if decide (a = c) then Some s' else None
  | EmptyString => None
  end.

(** Digits after the decimal point; [scale] is the weight of the next one in
    nanoseconds, digits beyond the ninth weigh nothing. *)
Fixpoint get_fraction (s : string) (scale acc : Z) : Z * string :=
  match s with
  | String a s' =>
      match undigit a with
      | Some k => get_fraction s' (scale / 10) (acc + k * scale)
      | None => (acc, s)
      end
  | EmptyString => (acc, s)
  end.

Definition get_nanos (s : string) : Z * string :=
  match s with
  | String "." (String a _ as s') =>
      match undigit a with
      | Some _ => get_fraction s' 100000000 0
      | None => (0, s)
      end
  | _ => (0, s)
  end.

(** The zone: seconds east of UTC. *)
Definition get_zone (s : string) : option Z :=
  match s with
  | String "Z" EmptyString => Some 0
  | String sign s1 =>
      '(hh, s2) ← get2 s1 0 23; s3 ← get_char ":" s2; '(mm, s4) ← get2 s3 0 59;
      match s4 with
      | EmptyString =>
          if decide (sign = "+"%char) then Some ((hh * 60 + mm) * 60)
          else if decide (sign = "-"%char) then Some (- ((hh * 60 + mm) * 60))
          else None
      | _ => None
      end
  | EmptyString => None
  end.

Definition ParseRFC3339 (s : string) : option Z :=
  '(y, s) ← get4 s; s ← get_char "-" s;
  '(m, s) ← get2 s 1 12; s ← get_char "-" s;
  '(d, s) ← get2 s 1 (days_in m y); s ← get_char "T" s;
  '(hh, s) ← get2 s 0 23; s ← get_char ":" s;
  '(mi, s) ← get2 s 0 59; s ← get_char ":" s;
  '(ss, s) ← get2 s 0 59;
  let '(ns, s) := get_nanos s in
  off ← get_zone s;
  Some ((days_of_civil y m d * 86400 + hh * 3600 + mi * 60 + ss - off) * second + ns).

Arguments get2 : simpl never.
Arguments put2 : simpl never.
Arguments get4 : simpl never.
Arguments put4 : simpl never.

(** The instants whose year has four digits. *)
Definition in_range (t : Z) : Prop :=
  -62167219200 <= t / second < 253402300800.
#[global] Instance in_range_dec t : Decision (in_range t).
Proof. apply _. Defined.

(** ** Facts *)

Lemma undigit_digit k : 0 <= k < 10 → undigit (digit k) = Some k.
Proof.
  intros Hk.
  assert (k = 0 ∨ k = 1 ∨ k = 2 ∨ k = 3 ∨ k = 4 ∨ k = 5 ∨ k = 6 ∨ k = 7 ∨ k = 8 ∨ k = 9)
    as Hc by lia.
  by repeat destruct Hc as [->|Hc]; [reflexivity..|subst].
Qed.

Lemma get2_put2 k s lo hi :
  0 <= k < 100 → lo <= k <= hi → get2 (put2 k s) lo hi = Some (k, s).
Proof.
  intros Hk Hb. unfold get2, put2.
  rewrite !undigit_digit by (Z.to_euclidean_division_equations; lia). simpl.
  replace (10 * (k / 10) + k mod 10) with k by (Z.to_euclidean_division_equations; lia).
  by rewrite (proj2 (Z.leb_le _ _) (proj1 Hb)), (proj2 (Z.leb_le _ _) (proj2 Hb)).
Qed.

Lemma get4_put4 k s : 0 <= k < 10000 → get4 (put4 k s) = Some (k, s).
Proof.
  intros Hk. unfold get4, put4.
  rewrite get2_put2 by (Z.to_euclidean_division_equations; lia). simpl.
  rewrite get2_put2 by (Z.to_euclidean_division_equations; lia). simpl.
  do 2 f_equal. Z.to_euclidean_division_equations; lia.
Qed.

Lemma get_char_app c s : get_char c (String c EmptyString +:+ s) = Some s.
Proof. unfold get_char. simpl. by rewrite decide_True. Qed.

Lemma doe_year_spec doe :
  0 <= doe < 146097 →
  let '(yoe, doy) := doe_year doe in
  0 <= yoe < 400 ∧ 0 <= doy < 366 ∧
  doe = yoe * 365 + yoe / 4 - yoe / 100 + doy ∧
  (doy = 365 → is_leap (yoe + 1) = true).
Proof.
  intros H. unfold doe_year.
  set (c := Z.min 3 (doe / 36524)). set (r := doe - 36524 * c).
  set (q := Z.min 24 (r / 1461)). set (r2 := r - 1461 * q).
  set (y := Z.min 3 (r2 / 365)).
  assert (0 <= c <= 3) by (subst c; Z.to_euclidean_division_equations; lia).
  assert (0 <= r <= 36524 ∧ (c < 3 → r < 36524))
    by (subst r c; Z.to_euclidean_division_equations; lia).
  assert (0 <= q <= 24) by (subst q; Z.to_euclidean_division_equations; lia).
  assert (0 <= r2 <= 1460 ∧ (q = 24 → c < 3 → r2 < 1460))
    by (subst r2 q; Z.to_euclidean_division_equations; lia).
  assert (0 <= y <= 3) by (subst y; Z.to_euclidean_division_equations; lia).
  assert (Hdoy : 0 <= r2 - 365 * y <= 365 ∧ (y < 3 → r2 - 365 * y < 365))
    by (subst y; Z.to_euclidean_division_equations; lia).
  assert ((100 * c + 4 * q + y) / 4 = 25 * c + q) as E4
    by (Z.to_euclidean_division_equations; lia).
  assert ((100 * c + 4 * q + y) / 100 = c) as E100
    by (Z.to_euclidean_division_equations; lia).
  rewrite E4, E100. split_and!; try lia.
  intros E. assert (y = 3 ∧ (q < 24 ∨ c = 3)) as [Ey Hq] by lia.
  unfold is_leap. rewrite Ey.
  replace (100 * c + 4 * q + 3 + 1) with (100 * c + 4 * q + 4) by lia.
  destruct Hq as [Hq|Hc].
  - rewrite (proj2 (Z.eqb_eq ((100 * c + 4 * q + 4) mod 4) 0))
      by (Z.to_euclidean_division_equations; lia).
    rewrite (proj2 (Z.eqb_neq ((100 * c + 4 * q + 4) mod 100) 0))
      by (Z.to_euclidean_division_equations; lia). done.
  - assert (q = 24 ∨ q < 24) as [->|Hq'] by lia; [by subst c; rewrite Hc|].
    rewrite (proj2 (Z.eqb_eq ((100 * c + 4 * q + 4) mod 4) 0))
      by (Z.to_euclidean_division_equations; lia).
    rewrite (proj2 (Z.eqb_neq ((100 * c + 4 * q + 4) mod 100) 0))
      by (Z.to_euclidean_division_equations; lia). done.
Qed.

Lemma is_leap_period y k : is_leap (y + 400 * k) = is_leap y.
Proof.
  unfold is_leap.
  replace ((y + 400 * k) mod 4) with (y mod 4) by (Z.to_euclidean_division_equations; lia).
  replace ((y + 400 * k) mod 100) with (y mod 100) by (Z.to_euclidean_division_equations; lia).
  by replace ((y + 400 * k) mod 400) with (y mod 400) by (Z.to_euclidean_division_equations; lia).
Qed.

(** Evaluate sums, differences and products of integer literals. *)
Ltac zfold a b op :=
  let a' := eval vm_compute in a in
  let b' := eval vm_compute in b in
  constr_eq a a'; constr_eq b b';
  first [is_var a; fail 1 | is_var b; fail 1 | idtac];
  let c := eval vm_compute in (op a b) in change (op a b) with c.
Ltac zconst :=
  repeat match goal with
         | |- context [Z.add ?a ?b] => zfold a b Z.add
         | |- context [Z.sub ?a ?b] => zfold a b Z.sub
         | |- context [Z.mul ?a ?b] => zfold a b Z.mul
         | |- context [Z.div ?a ?b] => zfold a b Z.div
         end; simpl.

Lemma doy_month_day_spec doy :
  0 <= doy < 366 →
  let '(m, d) := doy_month_day doy in
  1 <= m <= 12 ∧ 1 <= d ∧
  (153 * (if 2 <? m then m - 3 else m + 9) + 2) / 5 + d - 1 = doy ∧
  (∀ y, (doy = 365 → is_leap y = true) → d <= days_in m y).
Proof.
  intros H. unfold doy_month_day, days_in.
  set (mp := (5 * doy + 2) / 153).
  assert (0 <= mp <= 11 ∧ 153 * mp <= 5 * doy + 2 < 153 * mp + 153)
    as [Hmp ?] by (subst mp; Z.to_euclidean_division_equations; lia).
  clearbody mp.
  assert (mp = 0 ∨ mp = 1 ∨ mp = 2 ∨ mp = 3 ∨ mp = 4 ∨ mp = 5 ∨ mp = 6 ∨ mp = 7 ∨
          mp = 8 ∨ mp = 9 ∨ mp = 10 ∨ mp = 11) as Hc by lia.
  repeat destruct Hc as [->|Hc]; try subst mp; zconst;
    (split_and!; try (Z.to_euclidean_division_equations; lia)).
  all: intros y Hy; try (Z.to_euclidean_division_equations; lia).
  destruct (is_leap y) eqn:El; [Z.to_euclidean_division_equations; lia|].
  assert (doy ≠ 365) by (intros ->; discriminate (Hy eq_refl)).
  Z.to_euclidean_division_equations; lia.
Qed.

Lemma civil_of_days_spec days :
  let '(y, m, d) := civil_of_days days in
  1 <= m <= 12 ∧ 1 <= d <= days_in m y ∧ days_of_civil y m d = days.
Proof.
  unfold civil_of_days.
  set (z := days + 719468).
  assert (0 <= z mod 146097 < 146097) as Hz by (apply Z.mod_pos_bound; lia).
  pose proof (Z_div_mod_eq_full z 146097) as Hdm.
  pose proof (doe_year_spec _ Hz) as Hy. destruct (doe_year _) as [yoe doy].
  destruct Hy as (Hyoe & Hdoy & Hdoe & Hleap).
  pose proof (doy_month_day_spec _ Hdoy) as Hm. destruct (doy_month_day doy) as [m d].
  destruct Hm as (Hm & Hd & Hback & Hdin).
  assert (yoe + z / 146097 * 400 + (if m <=? 2 then 1 else 0) - (if m <=? 2 then 1 else 0)
          = yoe + 400 * (z / 146097)) as E by lia.
  split_and!; try lia.
  - apply Hdin. intros Hlast. destruct (Z.leb_spec m 2).
    + replace (yoe + z / 146097 * 400 + 1) with (yoe + 1 + 400 * (z / 146097)) by lia.
      rewrite is_leap_period. auto.
    + exfalso. destruct (Z.ltb_spec 2 m); [|lia].
      assert (m = 3 ∨ m = 4 ∨ m = 5 ∨ m = 6 ∨ m = 7 ∨ m = 8 ∨ m = 9 ∨ m = 10 ∨ m = 11 ∨ m = 12)
        as Hc by lia.
      pose proof (Hdin 4 (λ _, eq_refl)) as Hd1. unfold days_in in Hd1.
      repeat destruct Hc as [->|Hc]; try subst m; simpl in *; Z.to_euclidean_division_equations; lia.
  - unfold days_of_civil. rewrite E, Hback.
    replace ((yoe + 400 * (z / 146097)) / 400) with (z / 146097)
      by (Z.to_euclidean_division_equations; lia).
    replace ((yoe + 400 * (z / 146097)) mod 400) with yoe
      by (Z.to_euclidean_division_equations; lia).
    unfold z in *. lia.
Qed.

Lemma doy_month_year doy :
  0 <= doy < 366 → ((doy_month_day doy).1 <=? 2) = (306 <=? doy).
Proof.
  intros H. unfold doy_month_day. simpl.
  set (mp := (5 * doy + 2) / 153).
  assert (153 * mp <= 5 * doy + 2 < 153 * mp + 153)
    by (subst mp; Z.to_euclidean_division_equations; lia).
  clearbody mp. destruct (Z.ltb_spec mp 10);
    match goal with |- (?a <=? 2) = _ => destruct (Z.leb_spec a 2) end;
    destruct (Z.leb_spec 306 doy); lia.
Qed.

Lemma civil_year_range days :
  -719528 <= days < 2932897 → 0 <= (civil_of_days days).1.1 < 10000.
Proof.
  intros Hd. unfold civil_of_days.
  set (z := days + 719468).
  assert (0 <= z mod 146097 < 146097) as Hz by (apply Z.mod_pos_bound; lia).
  pose proof (Z_div_mod_eq_full z 146097) as Hdm.
  pose proof (doe_year_spec _ Hz) as Hy. destruct (doe_year _) as [yoe doy].
  destruct Hy as (Hyoe & Hdoy & Hdoe & _).
  pose proof (doy_month_year _ Hdoy) as Hm. destruct (doy_month_day doy) as [m d].
  simpl in *. rewrite Hm.
  assert (0 <= yoe / 4 <= 99 ∧ 0 <= yoe / 100 <= 3 ∧ (yoe = 399 → yoe / 4 = 99 ∧ yoe / 100 = 3))
    as (? & ? & ?) by (Z.to_euclidean_division_equations; lia).
  assert (-1 <= z / 146097 <= 24) by (Z.to_euclidean_division_equations; lia).
  assert (z / 146097 = -1 → 146037 <= z mod 146097) by lia.
  assert (z / 146097 = 24 → z mod 146097 < 146037) by lia.
  assert (146037 <= z mod 146097 → yoe = 399 ∧ 306 <= doy).
  { intros. assert (yoe = 399 ∨ yoe <= 398) as [->|] by lia; lia. }
  assert (z mod 146097 < 146037 → yoe <= 398 ∨ doy < 306) by lia.
  destruct (Z.leb_spec 306 doy); lia.
Qed.

Lemma parse_format t :
  in_range t → ParseRFC3339 (FormatRFC3339 t) = Some (t / second * second).
Proof.
  unfold in_range. intros Ht. unfold FormatRFC3339, ParseRFC3339.
  set (secs := t / second) in *. set (sod := secs mod 86400).
  assert (0 <= sod < 86400) as Hsod by (apply Z.mod_pos_bound; lia).
  pose proof (civil_of_days_spec (secs / 86400)) as Hspec.
  pose proof (civil_year_range (secs / 86400)
    ltac:(Z.to_euclidean_division_equations; lia)) as Hyr.
  destruct (civil_of_days (secs / 86400)) as [[y m] d]. simpl in Hyr.
  destruct Hspec as (Hm & Hd & Hdays).
  assert (days_in m y <= 31) by (unfold days_in; repeat case_match; lia).
  assert (0 <= sod / 3600 <= 23) by (Z.to_euclidean_division_equations; lia).
  assert (0 <= sod / 60 mod 60 <= 59) by (Z.to_euclidean_division_equations; lia).
  assert (0 <= sod mod 60 <= 59) by (Z.to_euclidean_division_equations; lia).
  rewrite get4_put4 by lia. cbn [mbind option_bind]. rewrite get_char_app. cbn [mbind option_bind].
  rewrite get2_put2 by lia. cbn [mbind option_bind]. rewrite get_char_app. cbn [mbind option_bind].
  rewrite get2_put2 by lia. cbn [mbind option_bind]. rewrite get_char_app. cbn [mbind option_bind].
  rewrite get2_put2 by lia. cbn [mbind option_bind]. rewrite get_char_app. cbn [mbind option_bind].
  rewrite get2_put2 by lia. cbn [mbind option_bind]. rewrite get_char_app. cbn [mbind option_bind].
  rewrite get2_put2 by lia. cbn -[Z.mul Z.add Z.div Z.modulo Z.sub second].
  f_equal. rewrite Hdays.
  enough (secs / 86400 * 86400 + sod / 3600 * 3600 + sod / 60 mod 60 * 60 + sod mod 60 = secs) by lia.
  unfold sod. Z.to_euclidean_division_equations; lia.
Qed.
