(* ===== verification/Trace.v ===== *)
(** * Specifications about the order of interactions

    [spec] speaks of the interactions of a run one by one.  [traced] also knows what was
    done before each of them: an interaction may be allowed because an earlier one was
    answered in a certain way ([asked]). *)

From S2P Require Import Prelude.

Section trace.
Context {Ev : Type}.
Implicit Types P : list Ev → Ev → Prop.
Implicit Types Pre : list Ev → Prop.

(** From a history with [Pre], the result and the history at the end satisfy [Q], and every
    interaction satisfies [P] with the history before it. *)
Definition traced {A} P Pre (m : M Ev A) (Q : A → list Ev → Prop) : Prop :=
  ∀ h, Pre h →
    Q (m h).1 (h ++ (m h).2) ∧ ∀ evs1 e evs2, (m h).2 = evs1 ++ e :: evs2 → P (h ++ evs1) e.

Lemma traced_ret {A} P Pre (a : A) (Q : A → list Ev → Prop) :
  (∀ h, Pre h → Q a h) → traced P Pre (ret a) Q.
Proof. intros HQ h Hh. split; [simpl; rewrite app_nil_r; auto|]. by intros [|e1 evs1] e evs2 He. Qed.

Lemma traced_call {A} P Pre (e : Ev) (f : list Ev → A) (Q : A → list Ev → Prop) :
  (∀ h, Pre h → P h e ∧ Q (f h) (h ++ [e])) → traced P Pre (call e f) Q.
Proof.
  intros HQ h Hh. destruct (HQ h Hh) as [HP HQ']. split; [done|].
  intros [|e1 evs1] e' evs2 He; simplify_eq/=; [by rewrite app_nil_r|by destruct evs1].
Qed.

Lemma traced_bind {A B} P Pre (m : M Ev A) (f : A → M Ev B) (R : A → list Ev → Prop) (Q : B → list Ev → Prop) :
  traced P Pre m R → (∀ a, traced P (R a) (f a) Q) → traced P Pre (mbind' m f) Q.
Proof.
  intros Hm Hf h Hh. destruct (Hm h Hh) as [HR HP]. destruct (Hf _ _ HR) as [HQ HP']. unfold mbind'. simpl.
  split; [by rewrite (assoc_L (++))|]. intros evs1 e evs2 He.
  apply app_eq_app in He as (l & [[Hm1 Hf1]|[Hm1 Hf1]]).
  - destruct l as [|e' l]; simplify_eq/=.
    + rewrite app_nil_r in Hm1. subst. specialize (HP' [] e evs2 (eq_sym Hf1)). by rewrite app_nil_r in HP'.
    + by apply (HP evs1 e' l).
  - subst evs1. rewrite (assoc_L (++)). by apply (HP' l e evs2).
Qed.

Lemma traced_weaken {A} P Pre Pre' (m : M Ev A) (Q Q' : A → list Ev → Prop) :
  traced P Pre m Q → (∀ h, Pre' h → Pre h) → (∀ a h, Q a h → Q' a h) → traced P Pre' m Q'.
Proof. intros Hm Hpre HQ h Hh. destruct (Hm h (Hpre h Hh)) as [HQa HP]. auto. Qed.

Lemma traced_pure {A} P Pre (Φ : Prop) (m : M Ev A) (Q : A → list Ev → Prop) :
  (Φ → traced P Pre m Q) → traced P (λ h, Φ ∧ Pre h) m Q.
Proof. intros Hm h [HΦ Hh]. by apply Hm. Qed.

Lemma traced_bind_ret {A B} P Pre (a : A) (f : A → M Ev B) (Q : B → list Ev → Prop) :
  traced P Pre (f a) Q → traced P Pre (mbind' (ret a) f) Q.
Proof.
  intros Hf. apply (traced_bind _ _ _ _ (λ r h, r = a ∧ Pre h)); [by apply traced_ret|].
  intros r. apply traced_pure. by intros ->.
Qed.

(** Facts about the past stay true. *)
Definition lasting Pre : Prop := ∀ h evs, Pre h → Pre (h ++ evs).

(** A fact about the past is framed around code that does not speak of it. *)
Lemma traced_frame {A} P (F Pre : list Ev → Prop) (m : M Ev A) (Q : A → list Ev → Prop) :
  lasting F → traced P Pre m Q → traced P (λ h, F h ∧ Pre h) m (λ a h, F h ∧ Q a h).
Proof. intros HF Hm h [Hh1 Hh2]. destruct (Hm h Hh2) as [HQ HP]. split; [|done]. split; [by apply HF|done]. Qed.

Lemma impl_lasting (Φ : Prop) Pre : lasting Pre → lasting (λ h, Φ → Pre h).
Proof. intros Hl h evs Hh HΦ. by apply Hl, Hh. Qed.

Lemma forall_lasting {B} (Pre : B → list Ev → Prop) : (∀ b, lasting (Pre b)) → lasting (λ h, ∀ b, Pre b h).
Proof. intros HP h evs Hh b. by apply HP. Qed.

(** Code whose interactions are harmless keeps what is known. *)
Lemma traced_spec {A} P Pre (P' : Ev → Prop) (m : M Ev A) (Q : A → Prop) :
  lasting Pre → spec P' m Q → (∀ h e, Pre h → P' e → P h e) → traced P Pre m (λ a h, Q a ∧ Pre h).
Proof.
  intros Hl Hm HP h Hh. destruct (Hm h) as [HQ HF]. split; [split; [done|by apply Hl]|].
  intros evs1 e evs2 He. rewrite He in HF. apply Forall_app in HF as [_ HF]. apply Forall_cons in HF as [HF _].
  apply HP; [by apply Hl|done].
Qed.

Lemma traced_any {A} Pre (m : M Ev A) : lasting Pre → traced (λ _ _, True) Pre m (λ _ h, Pre h).
Proof. intros Hl. eapply traced_weaken; [by apply (traced_spec _ _ _ m (λ _, True) Hl (spec_triv m))|done|by intros a h []]. Qed.

Lemma traced_and_spec {A} P Pre (P' : Ev → Prop) (m : M Ev A) (Q : A → list Ev → Prop) (Q' : A → Prop) :
  spec P' m Q' → traced P Pre m Q → traced P Pre m (λ a h, Q' a ∧ Q a h).
Proof. intros Hs Hm h Hh. destruct (Hm h Hh) as [HQ HP]. split; [split; [apply Hs|done]|done]. Qed.

(** [asked h0 e f a h]: after the history [h0] and within [h], the interaction [e] was
    answered with [a], [f] being the answers of the environment. *)
Definition asked {A} (h0 : list Ev) (e : Ev) (f : list Ev → A) (a : A) (h : list Ev) : Prop :=
  ∃ h1, h0 `prefix_of` h1 ∧ h1 ++ [e] `prefix_of` h ∧ f h1 = a.

Lemma asked_lasting {A} h0 e (f : list Ev → A) a : lasting (asked h0 e f a).
Proof. intros h evs (h1 & H0 & H1 & Ha). exists h1. split_and!; [done|by apply prefix_app_r|done]. Qed.

Lemma prefix_lasting h0 : lasting (λ h, h0 `prefix_of` h).
Proof. intros h evs Hh. by apply prefix_app_r. Qed.

Lemma and_lasting Pre1 Pre2 : lasting Pre1 → lasting Pre2 → lasting (λ h, Pre1 h ∧ Pre2 h).
Proof. intros H1 H2 h evs [??]. split; auto. Qed.

Lemma or_lasting Pre1 Pre2 : lasting Pre1 → lasting Pre2 → lasting (λ h, Pre1 h ∨ Pre2 h).
Proof. intros H1 H2 h evs [?|?]; [left|right]; auto. Qed.

Lemma exists_lasting {B} (Pre : B → list Ev → Prop) : (∀ b, lasting (Pre b)) → lasting (λ h, ∃ b, Pre b h).
Proof. intros HP h evs [b Hb]. exists b. by apply HP. Qed.

Lemma pure_lasting (Φ : Prop) : lasting (λ _, Φ).
Proof. by intros h evs. Qed.

(** An interaction, remembered by its answer. *)
Lemma traced_ask {A} P Pre h0 (e : Ev) (f : list Ev → A) :
  lasting Pre → (∀ h, Pre h → h0 `prefix_of` h) → (∀ h, Pre h → P h e) →
  traced P Pre (call e f) (λ a h, asked h0 e f a h ∧ Pre h).
Proof.
  intros Hl Hpre HP. apply traced_call. intros h Hh. split; [by apply HP|]. split; [|by apply Hl].
  exists h. split_and!; [by apply Hpre|done|done].
Qed.

Lemma traced_foldM_inv {A S} P (f : S → A → M Ev S) (I : S → list Ev → Prop) l s :
  (∀ a s, a ∈ l → traced P (I s) (f s a) I) → traced P (I s) (foldM f l s) I.
Proof.
  revert s. induction l as [|a l IH]; intros s Hf; simpl.
  - by apply traced_ret.
  - eapply traced_bind; [apply Hf; left|]. intros s'. apply IH. intros a' s1 Ha'. apply Hf. by right.
Qed.

(** A loop with an invariant about what it has done so far. *)
Lemma traced_foldM {A S} P (f : S → A → M Ev S) (I : list A → S → list Ev → Prop) l s :
  (∀ done a s, a ∈ l → traced P (I done s) (f s a) (I (done ++ [a]))) → traced P (I [] s) (foldM f l s) (I l).
Proof.
  intros Hf. change l with ([] ++ l) at 2. generalize (@nil A) as don. revert s.
  induction l as [|a l IH]; intros s don; simpl; [apply traced_ret; by rewrite app_nil_r|].
  eapply traced_bind; [apply Hf; left|]. intros s'.
  replace (don ++ a :: l) with ((don ++ [a]) ++ l) by by rewrite <-(assoc_L (++)). apply IH.
  intros d a' s1 Ha'. apply Hf. by right.
Qed.

(** [ran h0 e m a h]: after [h0] and within [h], the step [m], announced by [e], was run to its
    end with the result [a]. *)
Definition ran {A} (h0 : list Ev) (e : Ev) (m : M Ev A) (a : A) (h : list Ev) : Prop :=
  ∃ h1, h0 `prefix_of` h1 ∧ h1 ++ e :: (m (h1 ++ [e])).2 `prefix_of` h ∧ (m (h1 ++ [e])).1 = a.

Lemma ran_lasting {A} h0 e (m : M Ev A) a : lasting (ran h0 e m a).
Proof. intros h evs (h1 & H0 & H1 & Ha). exists h1. split_and!; [done|by apply prefix_app_r|done]. Qed.

(** A step that is announced, with what may be done within it. *)
Lemma traced_run {A} P Pre (P' : Ev → Prop) h0 (e : Ev) (m : M Ev A) :
  lasting Pre → (∀ h, Pre h → h0 `prefix_of` h) → spec P' m (λ _, True) →
  (∀ h, Pre h → P h e) → (∀ h evs e', Pre h → Forall P' evs → P' e' → P (h ++ e :: evs) e') →
  traced P Pre (mbind' (call e (λ _, tt)) (λ _, m)) (λ a h, ran h0 e m a h ∧ Pre h).
Proof.
  intros Hl Hpre Hm He Hin h Hh. destruct (Hm (h ++ [e])) as [_ Hall]. unfold mbind', call. simpl. split.
  - split; [|by apply Hl]. exists h. split_and!; [by apply Hpre|done|done].
  - intros [|e1 evs1] e' evs2 Hev; injection Hev as <- Hev; [rewrite app_nil_r; by apply He|].
    rewrite Hev in Hall. apply Forall_app in Hall as [Hall He']. apply Forall_cons in He' as [He' _]. by apply Hin.
Qed.

(** [passed h0 m a h]: after [h0] and within [h], [m] was run to its end with the result [a]. *)
Definition passed {A} (h0 : list Ev) (m : M Ev A) (a : A) (h : list Ev) : Prop :=
  ∃ h1, h0 `prefix_of` h1 ∧ h1 ++ (m h1).2 `prefix_of` h ∧ (m h1).1 = a.

Lemma passed_lasting {A} h0 (m : M Ev A) a : lasting (passed h0 m a).
Proof. intros h evs (h1 & H0 & H1 & Ha). exists h1. split_and!; [done|by apply prefix_app_r|done]. Qed.

Lemma traced_passed {A} P Pre (P' : Ev → Prop) h0 (m : M Ev A) :
  lasting Pre → (∀ h, Pre h → h0 `prefix_of` h) → spec P' m (λ _, True) → (∀ h e, Pre h → P' e → P h e) →
  traced P Pre m (λ a h, passed h0 m a h ∧ Pre h).
Proof.
  intros Hl Hpre Hm HP h Hh. destruct (traced_spec P Pre P' m (λ _, True) Hl Hm HP h Hh) as [[_ Hend] Hev].
  split; [|done]. split; [|done]. exists h. auto.
Qed.
End trace.

Create HintDb lasting.
#[export] Hint Resolve ran_lasting passed_lasting asked_lasting prefix_lasting and_lasting or_lasting exists_lasting pure_lasting impl_lasting forall_lasting : lasting.
