(* ===== verification/Types.v ===== *)
(** * Data types

    The structs of the API (pkg/apis/ceph.pelagia.lcm/v1alpha1/task_types.go,
    health_types.go), of the command outputs (pkg/common/ceph_types.go) and of the
    disk-daemon reports (pkg/common/disk_daemon_types.go), plus the fields of Rook
    and Kubernetes objects the controllers read.  Field names carry a short prefix
    for their struct.  A pointer is an [option]; a slice is a [list], the nil and
    the empty slice being identified; a map is a [gmap string]. *)

From Stdlib Require Import QArith.
From S2P Require Import Prelude.
Open Scope Z_scope.

#[global] Instance Q_eq_dec : EqDecision Q.
Proof. solve_decision. Defined.

(** ** pkg/common/vars.go *)

Definition PelagiaToolBox : string := "pelagia-ceph-toolbox".
Definition PelagiaDiskDaemon : string := "pelagia-disk-daemon".
Definition RookCephOperatorName : string := "rook-ceph-operator".
Definition DefaultDataDirHostPath : string := "/var/lib/rook".
Definition StrayOsdNodeMarker : string := "__stray".
Definition RookLVMarker : string := "osd-".
Definition DiskCleanupTimeout : Z := 3600.

(** ** Task specification (task_types.go) *)

Record DeviceCleanupSpec := mkDeviceCleanupSpec {
  dcs_Device : string;
  dcs_SkipDeviceCleanup : bool;
}.
#[global] Instance DeviceCleanupSpec_eq_dec : EqDecision DeviceCleanupSpec.
Proof. solve_decision. Defined.

Record OsdCleanupSpec := mkOsdCleanupSpec {
  ocs_ID : Z;
  ocs_SkipDeviceCleanup : bool;
}.
#[global] Instance OsdCleanupSpec_eq_dec : EqDecision OsdCleanupSpec.
Proof. solve_decision. Defined.

Record NodeCleanUpSpec := mkNodeCleanUpSpec {
  ncs_CompleteCleanup : bool;
  ncs_DropFromCrush : bool;
  ncs_CleanupStrayPartitions : bool;
  ncs_CleanupByDevice : list DeviceCleanupSpec;
  ncs_CleanupByOsd : list OsdCleanupSpec;
}.
#[global] Instance NodeCleanUpSpec_eq_dec : EqDecision NodeCleanUpSpec.
Proof. solve_decision. Defined.

(** [ts_Nodes] is [None] for the nil map: [reflect.DeepEqual] tells it from an empty one. *)
Record CephOsdRemoveTaskSpec := mkTaskSpec {
  ts_Nodes : option (gmap string NodeCleanUpSpec);
  ts_Approve : bool;
  ts_Resolved : bool;
}.
#[global] Instance CephOsdRemoveTaskSpec_eq_dec : EqDecision CephOsdRemoveTaskSpec.
Proof. solve_decision. Defined.

(** Task phases. *)
Inductive TaskPhase :=
| TaskPhaseApproveWaiting
| TaskPhaseAborted
| TaskPhaseCompleted
| TaskPhaseCompletedWithWarnings
| TaskPhaseFailed
| TaskPhasePending
| TaskPhaseWaitingOperator
| TaskPhaseProcessing
| TaskPhaseValidating
| TaskPhaseValidationFailed.
#[global] Instance TaskPhase_eq_dec : EqDecision TaskPhase.
Proof. solve_decision. Defined.
Definition TaskPhase_str (p : TaskPhase) : string :=
  match p with
  | TaskPhaseApproveWaiting => "ApproveWaiting"
  | TaskPhaseAborted => "Aborted"
  | TaskPhaseCompleted => "Completed"
  | TaskPhaseCompletedWithWarnings => "CompletedWithWarnings"
  | TaskPhaseFailed => "Failed"
  | TaskPhasePending => "Pending"
  | TaskPhaseWaitingOperator => "WaitingOperator"
  | TaskPhaseProcessing => "Processing"
  | TaskPhaseValidating => "Validating"
  | TaskPhaseValidationFailed => "ValidationFailed"
  end.

(** Phases of one removal action; [RemoveUnset] is the zero value, the empty string. *)
Inductive RemovePhase :=
| RemoveUnset
| RemovePending
| RemoveWaitingRebalance
| RemoveInProgress
| RemoveStray
| RemoveCompleted
| RemoveFinished
| RemoveFailed
| RemoveSkipped.
#[global] Instance RemovePhase_eq_dec : EqDecision RemovePhase.
Proof. solve_decision. Defined.
Definition RemovePhase_str (p : RemovePhase) : string :=
  match p with
  | RemoveUnset => EmptyString
  | RemovePending => "Pending"
  | RemoveWaitingRebalance => "Rebalancing"
  | RemoveInProgress => "Removing"
  | RemoveStray => "RemovingStray"
  | RemoveCompleted => "Completed"
  | RemoveFinished => "Removed"
  | RemoveFailed => "Failed"
  | RemoveSkipped => "Skipped"
  end.

Record RemoveStatus := mkRemoveStatus {
  rs_Status : RemovePhase;
  rs_Name : string;
  rs_Error : string;
  rs_StartedAt : string;
  rs_FinishedAt : string;
}.
#[global] Instance RemoveStatus_eq_dec : EqDecision RemoveStatus.
Proof. solve_decision. Defined.
Definition set_rs_Status (v : RemovePhase) (x : RemoveStatus) : RemoveStatus := mkRemoveStatus v (rs_Name x) (rs_Error x) (rs_StartedAt x) (rs_FinishedAt x).
Definition set_rs_Error (v : string) (x : RemoveStatus) : RemoveStatus := mkRemoveStatus (rs_Status x) (rs_Name x) v (rs_StartedAt x) (rs_FinishedAt x).
Definition set_rs_StartedAt (v : string) (x : RemoveStatus) : RemoveStatus := mkRemoveStatus (rs_Status x) (rs_Name x) (rs_Error x) v (rs_FinishedAt x).
Definition set_rs_FinishedAt (v : string) (x : RemoveStatus) : RemoveStatus := mkRemoveStatus (rs_Status x) (rs_Name x) (rs_Error x) (rs_StartedAt x) v.

Definition zero_RemoveStatus : RemoveStatus := mkRemoveStatus RemoveUnset "" "" "" "".
(** [&RemoveStatus{Status: p}] *)
Definition status_of (p : RemovePhase) : RemoveStatus := mkRemoveStatus p "" "" "" "".

Record RemoveResult := mkRemoveResult {
  rr_OsdRemoveStatus : option RemoveStatus;
  rr_DeployRemoveStatus : option RemoveStatus;
  rr_DeviceCleanUpJob : option RemoveStatus;
}.
#[global] Instance RemoveResult_eq_dec : EqDecision RemoveResult.
Proof. solve_decision. Defined.
Definition set_rr_OsdRemoveStatus (v : option RemoveStatus) (x : RemoveResult) : RemoveResult := mkRemoveResult v (rr_DeployRemoveStatus x) (rr_DeviceCleanUpJob x).
Definition set_rr_DeployRemoveStatus (v : option RemoveStatus) (x : RemoveResult) : RemoveResult := mkRemoveResult (rr_OsdRemoveStatus x) v (rr_DeviceCleanUpJob x).
Definition set_rr_DeviceCleanUpJob (v : option RemoveStatus) (x : RemoveResult) : RemoveResult := mkRemoveResult (rr_OsdRemoveStatus x) (rr_DeployRemoveStatus x) v.

Record DeviceInfo := mkDeviceInfo {
  di_Rotational : bool;
  di_Path : string;
  di_ID : string;
  di_Partition : string;
  di_PartedBy : string;
  di_Type : string;
  di_Zap : bool;
  di_Alive : bool;
  di_Raw : bool;
}.
#[global] Instance DeviceInfo_eq_dec : EqDecision DeviceInfo.
Proof. solve_decision. Defined.
Definition set_di_Path (v : string) (x : DeviceInfo) : DeviceInfo := mkDeviceInfo (di_Rotational x) v (di_ID x) (di_Partition x) (di_PartedBy x) (di_Type x) (di_Zap x) (di_Alive x) (di_Raw x).
Definition set_di_ID (v : string) (x : DeviceInfo) : DeviceInfo := mkDeviceInfo (di_Rotational x) (di_Path x) v (di_Partition x) (di_PartedBy x) (di_Type x) (di_Zap x) (di_Alive x) (di_Raw x).
Definition set_di_Partition (v : string) (x : DeviceInfo) : DeviceInfo := mkDeviceInfo (di_Rotational x) (di_Path x) (di_ID x) v (di_PartedBy x) (di_Type x) (di_Zap x) (di_Alive x) (di_Raw x).
Definition set_di_Type (v : string) (x : DeviceInfo) : DeviceInfo := mkDeviceInfo (di_Rotational x) (di_Path x) (di_ID x) (di_Partition x) (di_PartedBy x) v (di_Zap x) (di_Alive x) (di_Raw x).
Definition set_di_Zap (v : bool) (x : DeviceInfo) : DeviceInfo := mkDeviceInfo (di_Rotational x) (di_Path x) (di_ID x) (di_Partition x) (di_PartedBy x) (di_Type x) v (di_Alive x) (di_Raw x).
Definition set_di_Alive (v : bool) (x : DeviceInfo) : DeviceInfo := mkDeviceInfo (di_Rotational x) (di_Path x) (di_ID x) (di_Partition x) (di_PartedBy x) (di_Type x) (di_Zap x) v (di_Raw x).

Definition zero_DeviceInfo : DeviceInfo :=
  mkDeviceInfo false "" "" "" "" "" false false false.

Record OsdMapping := mkOsdMapping {
  om_UUID : string;
  om_ClusterFSID : string;
  om_HostDirectory : string;
  om_InCrushMap : bool;
  om_DeviceMapping : gmap string DeviceInfo;
  om_SkipDeviceCleanupJob : bool;
  om_RemoveStatus : option RemoveResult;
}.
#[global] Instance OsdMapping_eq_dec : EqDecision OsdMapping.
Proof. solve_decision. Defined.
Definition set_om_DeviceMapping (v : gmap string DeviceInfo) (x : OsdMapping) : OsdMapping := mkOsdMapping (om_UUID x) (om_ClusterFSID x) (om_HostDirectory x) (om_InCrushMap x) v (om_SkipDeviceCleanupJob x) (om_RemoveStatus x).
Definition set_om_RemoveStatus (v : option RemoveResult) (x : OsdMapping) : OsdMapping := mkOsdMapping (om_UUID x) (om_ClusterFSID x) (om_HostDirectory x) (om_InCrushMap x) (om_DeviceMapping x) (om_SkipDeviceCleanupJob x) v.

Definition zero_OsdMapping : OsdMapping := mkOsdMapping "" "" "" false ∅ false None.

Record HostMapping := mkHostMapping {
  hm_CompleteCleanup : bool;
  hm_DropFromCrush : bool;
  hm_OsdMapping : gmap string OsdMapping;
  hm_NodeIsDown : bool;
  hm_VolumesInfoMissed : bool;
  hm_HostRemoveStatus : option RemoveStatus;
}.
#[global] Instance HostMapping_eq_dec : EqDecision HostMapping.
Proof. solve_decision. Defined.
Definition set_hm_OsdMapping (v : gmap string OsdMapping) (x : HostMapping) : HostMapping := mkHostMapping (hm_CompleteCleanup x) (hm_DropFromCrush x) v (hm_NodeIsDown x) (hm_VolumesInfoMissed x) (hm_HostRemoveStatus x).
Definition set_hm_VolumesInfoMissed (v : bool) (x : HostMapping) : HostMapping := mkHostMapping (hm_CompleteCleanup x) (hm_DropFromCrush x) (hm_OsdMapping x) (hm_NodeIsDown x) v (hm_HostRemoveStatus x).
Definition set_hm_HostRemoveStatus (v : option RemoveStatus) (x : HostMapping) : HostMapping := mkHostMapping (hm_CompleteCleanup x) (hm_DropFromCrush x) (hm_OsdMapping x) (hm_NodeIsDown x) (hm_VolumesInfoMissed x) v.

Definition zero_HostMapping : HostMapping := mkHostMapping false false ∅ false false None.

Record TaskRemoveInfo := mkTaskRemoveInfo {
  ri_CleanupMap : gmap string HostMapping;
  ri_Issues : list string;
  ri_Warnings : list string;
}.
#[global] Instance TaskRemoveInfo_eq_dec : EqDecision TaskRemoveInfo.
Proof. solve_decision. Defined.
Definition set_ri_CleanupMap (v : gmap string HostMapping) (x : TaskRemoveInfo) : TaskRemoveInfo := mkTaskRemoveInfo v (ri_Issues x) (ri_Warnings x).
Definition set_ri_Issues (v : list string) (x : TaskRemoveInfo) : TaskRemoveInfo := mkTaskRemoveInfo (ri_CleanupMap x) v (ri_Warnings x).
Definition set_ri_Warnings (v : list string) (x : TaskRemoveInfo) : TaskRemoveInfo := mkTaskRemoveInfo (ri_CleanupMap x) (ri_Issues x) v.

Record CephClusterSpecVersion := mkSpecVersion {
  sv_ResourceVersion : string;
  sv_Generation : Z;
}.
#[global] Instance CephClusterSpecVersion_eq_dec : EqDecision CephClusterSpecVersion.
Proof. solve_decision. Defined.

Record CephOsdRemoveTaskCondition := mkCondition {
  cond_Timestamp : string;
  cond_Phase : TaskPhase;
  cond_Nodes : option (gmap string NodeCleanUpSpec);
  cond_CephClusterSpecVersion : option CephClusterSpecVersion;
}.
#[global] Instance CephOsdRemoveTaskCondition_eq_dec : EqDecision CephOsdRemoveTaskCondition.
Proof. solve_decision. Defined.

Record CephOsdRemoveTaskStatus := mkTaskStatus {
  st_Phase : TaskPhase;
  st_PhaseInfo : string;
  st_RemoveInfo : option TaskRemoveInfo;
  st_Messages : list string;
  st_Conditions : list CephOsdRemoveTaskCondition;
}.
#[global] Instance CephOsdRemoveTaskStatus_eq_dec : EqDecision CephOsdRemoveTaskStatus.
Proof. solve_decision. Defined.
Definition set_st_PhaseInfo (v : string) (x : CephOsdRemoveTaskStatus) : CephOsdRemoveTaskStatus := mkTaskStatus (st_Phase x) v (st_RemoveInfo x) (st_Messages x) (st_Conditions x).
Definition set_st_RemoveInfo (v : option TaskRemoveInfo) (x : CephOsdRemoveTaskStatus) : CephOsdRemoveTaskStatus := mkTaskStatus (st_Phase x) (st_PhaseInfo x) v (st_Messages x) (st_Conditions x).

Record OwnerReference := mkOwnerReference {
  or_APIVersion : string;
  or_Kind : string;
  or_Name : string;
  or_UID : string;
}.
#[global] Instance OwnerReference_eq_dec : EqDecision OwnerReference.
Proof. solve_decision. Defined.

(** A task object: the metadata the controller reads, spec and status; the creation time stamp is in seconds. *)
Record CephOsdRemoveTask := mkTask {
  task_Name : string;
  task_Namespace : string;
  task_UID : string;
  task_CreationTimestamp : Z;
  task_OwnerReferences : list OwnerReference;
  task_Spec : option CephOsdRemoveTaskSpec;
  task_Status : option CephOsdRemoveTaskStatus;
}.
#[global] Instance CephOsdRemoveTask_eq_dec : EqDecision CephOsdRemoveTask.
Proof. solve_decision. Defined.
Definition set_task_OwnerReferences (v : list OwnerReference) (x : CephOsdRemoveTask) : CephOsdRemoveTask := mkTask (task_Name x) (task_Namespace x) (task_UID x) (task_CreationTimestamp x) v (task_Spec x) (task_Status x).
Definition set_task_Status (v : option CephOsdRemoveTaskStatus) (x : CephOsdRemoveTask) : CephOsdRemoveTask := mkTask (task_Name x) (task_Namespace x) (task_UID x) (task_CreationTimestamp x) (task_OwnerReferences x) (task_Spec x) v.

(** ** Ceph command outputs (ceph_types.go) *)

Record OsdMetadataInfo := mkOsdMetadataInfo {
  md_Devices : string;
  md_DevicePathes : string;
  md_DeviceIDs : string;
  md_Hostname : string;
  md_BluestoreDevices : string;
  md_BluestoreDeviceType : string;
  md_BluestorePartition : string;
  md_MetadataDiskUsed : string;
  md_MetadataDevices : string;
  md_MetadataDeviceType : string;
  md_MetadataPartition : string;
  md_OsdID : Z;
}.
#[global] Instance OsdMetadataInfo_eq_dec : EqDecision OsdMetadataInfo.
Proof. solve_decision. Defined.
Definition set_md_Hostname (v : string) (x : OsdMetadataInfo) : OsdMetadataInfo := mkOsdMetadataInfo (md_Devices x) (md_DevicePathes x) (md_DeviceIDs x) v (md_BluestoreDevices x) (md_BluestoreDeviceType x) (md_BluestorePartition x) (md_MetadataDiskUsed x) (md_MetadataDevices x) (md_MetadataDeviceType x) (md_MetadataPartition x) (md_OsdID x).

Record OsdInfo := mkOsdInfo {
  oi_OsdID : Z;
  oi_UUID : string;
  oi_Up : Z;
  oi_In : Z;
}.
#[global] Instance OsdInfo_eq_dec : EqDecision OsdInfo.
Proof. solve_decision. Defined.

(** A node of [ceph osd tree]; a JSON number is a rational. *)
Record OsdTreeNode := mkOsdTreeNode {
  tn_ID : Z;
  tn_Name : string;
  tn_Type : string;
  tn_Children : list Z;
  tn_DeviceClass : string;
  tn_Status : string;
  tn_Weight : Q;
  tn_Reweight : Q;
}.
#[global] Instance OsdTreeNode_eq_dec : EqDecision OsdTreeNode.
Proof. solve_decision. Defined.

(** ** Disk-daemon reports (disk_daemon_types.go) *)

Record OsdDevice := mkOsdDevice {
  od_Name : string;
  od_DeviceID : string;
  od_DeviceSymlinks : list string;
  od_Rotational : bool;
  od_RelatedPartition : string;
  od_PartedBy : string;
  od_Raw : bool;
}.
#[global] Instance OsdDevice_eq_dec : EqDecision OsdDevice.
Proof. solve_decision. Defined.
Definition set_od_PartedBy (v : string) (x : OsdDevice) : OsdDevice := mkOsdDevice (od_Name x) (od_DeviceID x) (od_DeviceSymlinks x) (od_Rotational x) (od_RelatedPartition x) v (od_Raw x).

Record OsdPartition := mkOsdPartition {
  op_Partition : string;
  op_PartitionSymlinks : list string;
  op_Type : string;
  op_Exists : bool;
  op_Lvm : bool;
}.
#[global] Instance OsdPartition_eq_dec : EqDecision OsdPartition.
Proof. solve_decision. Defined.

Record OsdDaemonInfo := mkOsdDaemonInfo {
  odi_OsdUUID : string;
  odi_ClusterFSID : string;
  odi_Devices : list OsdDevice;
  odi_Partitions : list OsdPartition;
}.
#[global] Instance OsdDaemonInfo_eq_dec : EqDecision OsdDaemonInfo.
Proof. solve_decision. Defined.
Definition set_odi_OsdUUID (v : string) (x : OsdDaemonInfo) : OsdDaemonInfo := mkOsdDaemonInfo v (odi_ClusterFSID x) (odi_Devices x) (odi_Partitions x).
Definition set_odi_ClusterFSID (v : string) (x : OsdDaemonInfo) : OsdDaemonInfo := mkOsdDaemonInfo (odi_OsdUUID x) v (odi_Devices x) (odi_Partitions x).
Definition set_odi_Devices (v : list OsdDevice) (x : OsdDaemonInfo) : OsdDaemonInfo := mkOsdDaemonInfo (odi_OsdUUID x) (odi_ClusterFSID x) v (odi_Partitions x).
Definition set_odi_Partitions (v : list OsdPartition) (x : OsdDaemonInfo) : OsdDaemonInfo := mkOsdDaemonInfo (odi_OsdUUID x) (odi_ClusterFSID x) (odi_Devices x) v.

Record DiskDaemonOsdsReport := mkOsdsReport {
  osr_Warnings : list string;
  osr_Osds : gmap string (list OsdDaemonInfo);
}.
#[global] Instance DiskDaemonOsdsReport_eq_dec : EqDecision DiskDaemonOsdsReport.
Proof. solve_decision. Defined.

Record BlockDeviceInfo := mkBlockDeviceInfo {
  bdi_Kname : string;
  bdi_Serial : string;
  bdi_Type : string;
  bdi_Fstype : string;
  bdi_Rotational : bool;
  bdi_MajMin : string;
  bdi_Symlinks : list string;
  bdi_Parent : list string;
  bdi_Childrens : list string;
}.
#[global] Instance BlockDeviceInfo_eq_dec : EqDecision BlockDeviceInfo.
Proof. solve_decision. Defined.
Definition set_bdi_Parent (v : list string) (x : BlockDeviceInfo) : BlockDeviceInfo := mkBlockDeviceInfo (bdi_Kname x) (bdi_Serial x) (bdi_Type x) (bdi_Fstype x) (bdi_Rotational x) (bdi_MajMin x) (bdi_Symlinks x) v (bdi_Childrens x).

Definition zero_BlockDeviceInfo : BlockDeviceInfo :=
  mkBlockDeviceInfo "" "" "" "" false "" [] [] [].

Record DiskDaemonDisksReport := mkDisksReport {
  dr_BlockInfo : gmap string BlockDeviceInfo;
  dr_Aliases : gmap string string;
  dr_DiskToOsd : gmap string (list string);
}.
#[global] Instance DiskDaemonDisksReport_eq_dec : EqDecision DiskDaemonDisksReport.
Proof. solve_decision. Defined.
Definition set_dr_BlockInfo (v : gmap string BlockDeviceInfo) (x : DiskDaemonDisksReport) : DiskDaemonDisksReport := mkDisksReport v (dr_Aliases x) (dr_DiskToOsd x).
Definition set_dr_Aliases (v : gmap string string) (x : DiskDaemonDisksReport) : DiskDaemonDisksReport := mkDisksReport (dr_BlockInfo x) v (dr_DiskToOsd x).
Definition set_dr_DiskToOsd (v : gmap string (list string)) (x : DiskDaemonDisksReport) : DiskDaemonDisksReport := mkDisksReport (dr_BlockInfo x) (dr_Aliases x) v.

Inductive DiskDaemonState :=
| DiskDaemonStateOk
| DiskDaemonStateFailed
| DiskDaemonStateInProgress
| DiskDaemonStateSkipped.
#[global] Instance DiskDaemonState_eq_dec : EqDecision DiskDaemonState.
Proof. solve_decision. Defined.

Record DiskDaemonReport := mkDiskDaemonReport {
  ddr_State : DiskDaemonState;
  ddr_LastRun : string;
  ddr_Issues : list string;
  ddr_DisksReport : option DiskDaemonDisksReport;
  ddr_OsdsReport : option DiskDaemonOsdsReport;
}.
#[global] Instance DiskDaemonReport_eq_dec : EqDecision DiskDaemonReport.
Proof. solve_decision. Defined.

(** ** Health report (health_types.go) *)

Inductive DaemonState :=
| DaemonStateOk
| DaemonStateFailed
| DaemonStateSkipped.
#[global] Instance DaemonState_eq_dec : EqDecision DaemonState.
Proof. solve_decision. Defined.

Record DaemonStatus := mkDaemonStatus {
  ds_Status : DaemonState;
  ds_Issues : list string;
  ds_Messages : list string;
}.
#[global] Instance DaemonStatus_eq_dec : EqDecision DaemonStatus.
Proof. solve_decision. Defined.

Record OsdSpecAnalysisState := mkSpecAnalysisState {
  osa_DiskDaemon : DaemonStatus;
  osa_CephClusterSpecGeneration : option Z;
  osa_SpecAnalysis : gmap string DaemonStatus;
}.
#[global] Instance OsdSpecAnalysisState_eq_dec : EqDecision OsdSpecAnalysisState.
Proof. solve_decision. Defined.

(** ** Rook and Kubernetes objects: the fields the controllers read *)

(** [cephv1.Device] *)
Record CephDevice := mkCephDevice {
  cd_Name : string;
  cd_FullPath : string;
  cd_Config : gmap string string;
}.
#[global] Instance CephDevice_eq_dec : EqDecision CephDevice.
Proof. solve_decision. Defined.

(** [cephv1.Node]; [cn_UseAllDevices] is false for the nil pointer, the claim templates are given by their names. *)
Record CephNode := mkCephNode {
  cn_Name : string;
  cn_Config : gmap string string;
  cn_Devices : list CephDevice;
  cn_DeviceFilter : string;
  cn_DevicePathFilter : string;
  cn_UseAllDevices : bool;
  cn_VolumeClaimTemplates : list string;
}.
#[global] Instance CephNode_eq_dec : EqDecision CephNode.
Proof. solve_decision. Defined.

(** The status of a [cephv1.CephCluster].  [cst_Details] maps a health check to its message; a field [Other] stands for the rest of a status, which is only copied and compared. *)
Record CephVersionStatus := mkCephVersion {
  cv_Image : string;
  cv_Version : string;
}.
#[global] Instance CephVersionStatus_eq_dec : EqDecision CephVersionStatus.
Proof. solve_decision. Defined.

Record CephHealthStatus := mkCephHealth {
  cst_Health : string;
  cst_Details : gmap string string;
  cst_LastChecked : string;
  cst_FSID : string;
  cst_Other : string;
}.
#[global] Instance CephHealthStatus_eq_dec : EqDecision CephHealthStatus.
Proof. solve_decision. Defined.

Record ClusterStatus := mkClusterStatus {
  cls_Phase : string;
  cls_CephVersion : option CephVersionStatus;
  cls_CephStatus : option CephHealthStatus;
  cls_Other : string;
}.
#[global] Instance ClusterStatus_eq_dec : EqDecision ClusterStatus.
Proof. solve_decision. Defined.

(** [cephv1.CephCluster]; [cc_MuteHealthWarning] maps a health check to its policy. *)
Record CephCluster := mkCephCluster {
  cc_Name : string;
  cc_Namespace : string;
  cc_Generation : Z;
  cc_ResourceVersion : string;
  cc_External : bool;
  cc_StorageNodes : list CephNode;
  cc_DataDirHostPath : string;
  cc_MonCount : Z;
  cc_MgrCount : Z;
  cc_MuteHealthWarning : gmap string string;
  cc_Status : ClusterStatus;
}.
#[global] Instance CephCluster_eq_dec : EqDecision CephCluster.
Proof. solve_decision. Defined.

Definition cc_CephStatusFSID (cluster : CephCluster) : option string := cst_FSID <$> cls_CephStatus (cc_Status cluster).
Definition cc_CephVersionImage (cluster : CephCluster) : option string := cv_Image <$> cls_CephVersion (cc_Status cluster).

(** [corev1.Node]: name, labels, annotations and the keys of the taints. *)
Record K8sNode := mkK8sNode {
  kn_Name : string;
  kn_Labels : gmap string string;
  kn_Annotations : gmap string string;
  kn_Taints : list string;
}.
#[global] Instance K8sNode_eq_dec : EqDecision K8sNode.
Proof. solve_decision. Defined.
Definition set_kn_Labels (v : gmap string string) (x : K8sNode) : K8sNode := mkK8sNode (kn_Name x) v (kn_Annotations x) (kn_Taints x).
Definition set_kn_Annotations (v : gmap string string) (x : K8sNode) : K8sNode := mkK8sNode (kn_Name x) (kn_Labels x) v (kn_Taints x).

Record DeploymentStatus := mkDeploymentStatus {
  dep_Replicas : Z;
  dep_ReadyReplicas : Z;
  dep_AvailableReplicas : Z;
}.
#[global] Instance DeploymentStatus_eq_dec : EqDecision DeploymentStatus.
Proof. solve_decision. Defined.

(** [batch.JobStatus]: counters and the types of the conditions. *)
Record JobStatus := mkJobStatus {
  js_Active : Z;
  js_Failed : Z;
  js_Succeeded : Z;
  js_Conditions : list string;
}.
#[global] Instance JobStatus_eq_dec : EqDecision JobStatus.
Proof. solve_decision. Defined.

(** A host-path volume; [vol_Type] is empty for the nil type. *)
Record Volume := mkVolume {
  vol_Name : string;
  vol_HostPath : string;
  vol_Type : string;
}.
#[global] Instance Volume_eq_dec : EqDecision Volume.
Proof. solve_decision. Defined.

Record VolumeMount := mkVolumeMount {
  vm_Name : string;
  vm_MountPath : string;
  vm_ReadOnly : bool;
}.
#[global] Instance VolumeMount_eq_dec : EqDecision VolumeMount.
Proof. solve_decision. Defined.

Record Container := mkContainer {
  ct_Name : string;
  ct_Image : string;
  ct_Privileged : bool;
  ct_DropCapabilities : list string;
  ct_VolumeMounts : list VolumeMount;
  ct_Command : list string;
  ct_Env : list (string * string);
}.
#[global] Instance Container_eq_dec : EqDecision Container.
Proof. solve_decision. Defined.

(** [batch.Job] with its pod template: the fields [runCleanupJob] sets. *)
Record Job := mkJob {
  job_Name : string;
  job_Namespace : string;
  job_Labels : gmap string string;
  job_OwnerReferences : list OwnerReference;
  job_BackoffLimit : Z;
  job_ActiveDeadlineSeconds : Z;
  job_TemplateName : string;
  job_RunAsUser : Z;
  job_NodeSelector : gmap string string;
  job_RestartPolicy : string;
  job_Volumes : list Volume;
  job_Containers : list Container;
}.
#[global] Instance Job_eq_dec : EqDecision Job.
Proof. solve_decision. Defined.

(** ** Controller configuration (pkg/controller/config) *)

Record CommonParams := mkCommonParams {
  cp_BaseGatewayName : string;
  cp_BaseGatewayNamespace : string;
  cp_DiskDaemonPlacementLabel : string;
  cp_DiskDaemonPort : Z;
  cp_RgwPublicAccessLabel : string;
  cp_GatewayAPIEnabled : bool;
  cp_KeepIngress : bool;
  cp_LcmFullMode : bool;
}.
#[global] Instance CommonParams_eq_dec : EqDecision CommonParams.
Proof. solve_decision. Defined.
Definition set_cp_BaseGatewayName (v : string) (x : CommonParams) : CommonParams := mkCommonParams v (cp_BaseGatewayNamespace x) (cp_DiskDaemonPlacementLabel x) (cp_DiskDaemonPort x) (cp_RgwPublicAccessLabel x) (cp_GatewayAPIEnabled x) (cp_KeepIngress x) (cp_LcmFullMode x).
Definition set_cp_BaseGatewayNamespace (v : string) (x : CommonParams) : CommonParams := mkCommonParams (cp_BaseGatewayName x) v (cp_DiskDaemonPlacementLabel x) (cp_DiskDaemonPort x) (cp_RgwPublicAccessLabel x) (cp_GatewayAPIEnabled x) (cp_KeepIngress x) (cp_LcmFullMode x).
Definition set_cp_DiskDaemonPlacementLabel (v : string) (x : CommonParams) : CommonParams := mkCommonParams (cp_BaseGatewayName x) (cp_BaseGatewayNamespace x) v (cp_DiskDaemonPort x) (cp_RgwPublicAccessLabel x) (cp_GatewayAPIEnabled x) (cp_KeepIngress x) (cp_LcmFullMode x).
Definition set_cp_DiskDaemonPort (v : Z) (x : CommonParams) : CommonParams := mkCommonParams (cp_BaseGatewayName x) (cp_BaseGatewayNamespace x) (cp_DiskDaemonPlacementLabel x) v (cp_RgwPublicAccessLabel x) (cp_GatewayAPIEnabled x) (cp_KeepIngress x) (cp_LcmFullMode x).
Definition set_cp_RgwPublicAccessLabel (v : string) (x : CommonParams) : CommonParams := mkCommonParams (cp_BaseGatewayName x) (cp_BaseGatewayNamespace x) (cp_DiskDaemonPlacementLabel x) (cp_DiskDaemonPort x) v (cp_GatewayAPIEnabled x) (cp_KeepIngress x) (cp_LcmFullMode x).
Definition set_cp_GatewayAPIEnabled (v : bool) (x : CommonParams) : CommonParams := mkCommonParams (cp_BaseGatewayName x) (cp_BaseGatewayNamespace x) (cp_DiskDaemonPlacementLabel x) (cp_DiskDaemonPort x) (cp_RgwPublicAccessLabel x) v (cp_KeepIngress x) (cp_LcmFullMode x).
Definition set_cp_KeepIngress (v : bool) (x : CommonParams) : CommonParams := mkCommonParams (cp_BaseGatewayName x) (cp_BaseGatewayNamespace x) (cp_DiskDaemonPlacementLabel x) (cp_DiskDaemonPort x) (cp_RgwPublicAccessLabel x) (cp_GatewayAPIEnabled x) v (cp_LcmFullMode x).
Definition set_cp_LcmFullMode (v : bool) (x : CommonParams) : CommonParams := mkCommonParams (cp_BaseGatewayName x) (cp_BaseGatewayNamespace x) (cp_DiskDaemonPlacementLabel x) (cp_DiskDaemonPort x) (cp_RgwPublicAccessLabel x) (cp_GatewayAPIEnabled x) (cp_KeepIngress x) v.

(** A log level is the number zerolog gives it. *)
Record HealthParams := mkHealthParams {
  hp_LogLevel : Z;
  hp_ChecksSkip : list string;
  hp_CephIssuesToIgnore : list string;
  hp_UsageDetailsClassesFilter : string;
  hp_UsageDetailsPoolsFilter : string;
}.
#[global] Instance HealthParams_eq_dec : EqDecision HealthParams.
Proof. solve_decision. Defined.
Definition set_hp_LogLevel (v : Z) (x : HealthParams) : HealthParams := mkHealthParams v (hp_ChecksSkip x) (hp_CephIssuesToIgnore x) (hp_UsageDetailsClassesFilter x) (hp_UsageDetailsPoolsFilter x).
Definition set_hp_ChecksSkip (v : list string) (x : HealthParams) : HealthParams := mkHealthParams (hp_LogLevel x) v (hp_CephIssuesToIgnore x) (hp_UsageDetailsClassesFilter x) (hp_UsageDetailsPoolsFilter x).
Definition set_hp_CephIssuesToIgnore (v : list string) (x : HealthParams) : HealthParams := mkHealthParams (hp_LogLevel x) (hp_ChecksSkip x) v (hp_UsageDetailsClassesFilter x) (hp_UsageDetailsPoolsFilter x).
Definition set_hp_UsageDetailsClassesFilter (v : string) (x : HealthParams) : HealthParams := mkHealthParams (hp_LogLevel x) (hp_ChecksSkip x) (hp_CephIssuesToIgnore x) v (hp_UsageDetailsPoolsFilter x).
Definition set_hp_UsageDetailsPoolsFilter (v : string) (x : HealthParams) : HealthParams := mkHealthParams (hp_LogLevel x) (hp_ChecksSkip x) (hp_CephIssuesToIgnore x) (hp_UsageDetailsClassesFilter x) v.

(** The timeout is in nanoseconds. *)
Record TaskParams := mkTaskParams {
  tp_LogLevel : Z;
  tp_OsdPgRebalanceTimeout : Z;
  tp_AllowToRemoveManuallyCreatedLVM : bool;
}.
#[global] Instance TaskParams_eq_dec : EqDecision TaskParams.
Proof. solve_decision. Defined.
Definition set_tp_LogLevel (v : Z) (x : TaskParams) : TaskParams := mkTaskParams v (tp_OsdPgRebalanceTimeout x) (tp_AllowToRemoveManuallyCreatedLVM x).
Definition set_tp_OsdPgRebalanceTimeout (v : Z) (x : TaskParams) : TaskParams := mkTaskParams (tp_LogLevel x) v (tp_AllowToRemoveManuallyCreatedLVM x).
Definition set_tp_AllowToRemoveManuallyCreatedLVM (v : bool) (x : TaskParams) : TaskParams := mkTaskParams (tp_LogLevel x) (tp_OsdPgRebalanceTimeout x) v.

(** Node affinity and tolerations of [corev1]. *)
Record NodeSelectorRequirement := mkRequirement {
  nsr_Key : string;
  nsr_Operator : string;
  nsr_Values : list string;
}.
#[global] Instance NodeSelectorRequirement_eq_dec : EqDecision NodeSelectorRequirement.
Proof. solve_decision. Defined.

Record NodeAffinity := mkNodeAffinity {
  na_RequiredTerms : list (list NodeSelectorRequirement);
}.
#[global] Instance NodeAffinity_eq_dec : EqDecision NodeAffinity.
Proof. solve_decision. Defined.

Record Toleration := mkToleration {
  tol_Key : string;
  tol_Operator : string;
  tol_Value : string;
  tol_Effect : string;
  tol_TolerationSeconds : option Z;
}.
#[global] Instance Toleration_eq_dec : EqDecision Toleration.
Proof. solve_decision. Defined.

Record CSIDeployParams := mkCSIParams {
  csi_Manage : bool;
  csi_KubeletPath : string;
  csi_CreateDefaultRBDDriver : bool;
  csi_CreateDefaultCephFSDriver : bool;
  csi_CreateDefaultNFSDriver : bool;
  csi_KeepExisting : bool;
  csi_DeployCSIAddons : bool;
  csi_ControllerPluginNodeAffinity : option NodeAffinity;
  csi_ControllerPluginToleration : list Toleration;
  csi_NodePluginNodeAffinity : option NodeAffinity;
  csi_NodePluginToleration : list Toleration;
}.
#[global] Instance CSIDeployParams_eq_dec : EqDecision CSIDeployParams.
Proof. solve_decision. Defined.
Definition set_csi_Manage (v : bool) (x : CSIDeployParams) : CSIDeployParams := mkCSIParams v (csi_KubeletPath x) (csi_CreateDefaultRBDDriver x) (csi_CreateDefaultCephFSDriver x) (csi_CreateDefaultNFSDriver x) (csi_KeepExisting x) (csi_DeployCSIAddons x) (csi_ControllerPluginNodeAffinity x) (csi_ControllerPluginToleration x) (csi_NodePluginNodeAffinity x) (csi_NodePluginToleration x).
Definition set_csi_KubeletPath (v : string) (x : CSIDeployParams) : CSIDeployParams := mkCSIParams (csi_Manage x) v (csi_CreateDefaultRBDDriver x) (csi_CreateDefaultCephFSDriver x) (csi_CreateDefaultNFSDriver x) (csi_KeepExisting x) (csi_DeployCSIAddons x) (csi_ControllerPluginNodeAffinity x) (csi_ControllerPluginToleration x) (csi_NodePluginNodeAffinity x) (csi_NodePluginToleration x).
Definition set_csi_CreateDefaultRBDDriver (v : bool) (x : CSIDeployParams) : CSIDeployParams := mkCSIParams (csi_Manage x) (csi_KubeletPath x) v (csi_CreateDefaultCephFSDriver x) (csi_CreateDefaultNFSDriver x) (csi_KeepExisting x) (csi_DeployCSIAddons x) (csi_ControllerPluginNodeAffinity x) (csi_ControllerPluginToleration x) (csi_NodePluginNodeAffinity x) (csi_NodePluginToleration x).
Definition set_csi_CreateDefaultCephFSDriver (v : bool) (x : CSIDeployParams) : CSIDeployParams := mkCSIParams (csi_Manage x) (csi_KubeletPath x) (csi_CreateDefaultRBDDriver x) v (csi_CreateDefaultNFSDriver x) (csi_KeepExisting x) (csi_DeployCSIAddons x) (csi_ControllerPluginNodeAffinity x) (csi_ControllerPluginToleration x) (csi_NodePluginNodeAffinity x) (csi_NodePluginToleration x).
Definition set_csi_CreateDefaultNFSDriver (v : bool) (x : CSIDeployParams) : CSIDeployParams := mkCSIParams (csi_Manage x) (csi_KubeletPath x) (csi_CreateDefaultRBDDriver x) (csi_CreateDefaultCephFSDriver x) v (csi_KeepExisting x) (csi_DeployCSIAddons x) (csi_ControllerPluginNodeAffinity x) (csi_ControllerPluginToleration x) (csi_NodePluginNodeAffinity x) (csi_NodePluginToleration x).
Definition set_csi_KeepExisting (v : bool) (x : CSIDeployParams) : CSIDeployParams := mkCSIParams (csi_Manage x) (csi_KubeletPath x) (csi_CreateDefaultRBDDriver x) (csi_CreateDefaultCephFSDriver x) (csi_CreateDefaultNFSDriver x) v (csi_DeployCSIAddons x) (csi_ControllerPluginNodeAffinity x) (csi_ControllerPluginToleration x) (csi_NodePluginNodeAffinity x) (csi_NodePluginToleration x).
Definition set_csi_DeployCSIAddons (v : bool) (x : CSIDeployParams) : CSIDeployParams := mkCSIParams (csi_Manage x) (csi_KubeletPath x) (csi_CreateDefaultRBDDriver x) (csi_CreateDefaultCephFSDriver x) (csi_CreateDefaultNFSDriver x) (csi_KeepExisting x) v (csi_ControllerPluginNodeAffinity x) (csi_ControllerPluginToleration x) (csi_NodePluginNodeAffinity x) (csi_NodePluginToleration x).
Definition set_csi_ControllerPluginNodeAffinity (v : option NodeAffinity) (x : CSIDeployParams) : CSIDeployParams := mkCSIParams (csi_Manage x) (csi_KubeletPath x) (csi_CreateDefaultRBDDriver x) (csi_CreateDefaultCephFSDriver x) (csi_CreateDefaultNFSDriver x) (csi_KeepExisting x) (csi_DeployCSIAddons x) v (csi_ControllerPluginToleration x) (csi_NodePluginNodeAffinity x) (csi_NodePluginToleration x).
Definition set_csi_ControllerPluginToleration (v : list Toleration) (x : CSIDeployParams) : CSIDeployParams := mkCSIParams (csi_Manage x) (csi_KubeletPath x) (csi_CreateDefaultRBDDriver x) (csi_CreateDefaultCephFSDriver x) (csi_CreateDefaultNFSDriver x) (csi_KeepExisting x) (csi_DeployCSIAddons x) (csi_ControllerPluginNodeAffinity x) v (csi_NodePluginNodeAffinity x) (csi_NodePluginToleration x).
Definition set_csi_NodePluginNodeAffinity (v : option NodeAffinity) (x : CSIDeployParams) : CSIDeployParams := mkCSIParams (csi_Manage x) (csi_KubeletPath x) (csi_CreateDefaultRBDDriver x) (csi_CreateDefaultCephFSDriver x) (csi_CreateDefaultNFSDriver x) (csi_KeepExisting x) (csi_DeployCSIAddons x) (csi_ControllerPluginNodeAffinity x) (csi_ControllerPluginToleration x) v (csi_NodePluginToleration x).
Definition set_csi_NodePluginToleration (v : list Toleration) (x : CSIDeployParams) : CSIDeployParams := mkCSIParams (csi_Manage x) (csi_KubeletPath x) (csi_CreateDefaultRBDDriver x) (csi_CreateDefaultCephFSDriver x) (csi_CreateDefaultNFSDriver x) (csi_KeepExisting x) (csi_DeployCSIAddons x) (csi_ControllerPluginNodeAffinity x) (csi_ControllerPluginToleration x) (csi_NodePluginNodeAffinity x) v.

Record DeployParams := mkDeployParams {
  dp_LogLevel : Z;
  dp_CephImage : string;
  dp_CephRelease : string;
  dp_RookImage : string;
  dp_NetPolEnabled : bool;
  dp_OpenstackCephSharedNamespace : string;
  dp_CephDaemonsetPlacementLabelExclude : string;
  dp_DrainRequestLabelKey : string;
  dp_DrainReadyLabelKey : string;
  dp_CSIParams : CSIDeployParams;
  dp_ManageVolumeSnapshotClasses : bool;
}.
#[global] Instance DeployParams_eq_dec : EqDecision DeployParams.
Proof. solve_decision. Defined.
Definition set_dp_LogLevel (v : Z) (x : DeployParams) : DeployParams := mkDeployParams v (dp_CephImage x) (dp_CephRelease x) (dp_RookImage x) (dp_NetPolEnabled x) (dp_OpenstackCephSharedNamespace x) (dp_CephDaemonsetPlacementLabelExclude x) (dp_DrainRequestLabelKey x) (dp_DrainReadyLabelKey x) (dp_CSIParams x) (dp_ManageVolumeSnapshotClasses x).
Definition set_dp_CephImage (v : string) (x : DeployParams) : DeployParams := mkDeployParams (dp_LogLevel x) v (dp_CephRelease x) (dp_RookImage x) (dp_NetPolEnabled x) (dp_OpenstackCephSharedNamespace x) (dp_CephDaemonsetPlacementLabelExclude x) (dp_DrainRequestLabelKey x) (dp_DrainReadyLabelKey x) (dp_CSIParams x) (dp_ManageVolumeSnapshotClasses x).
Definition set_dp_CephRelease (v : string) (x : DeployParams) : DeployParams := mkDeployParams (dp_LogLevel x) (dp_CephImage x) v (dp_RookImage x) (dp_NetPolEnabled x) (dp_OpenstackCephSharedNamespace x) (dp_CephDaemonsetPlacementLabelExclude x) (dp_DrainRequestLabelKey x) (dp_DrainReadyLabelKey x) (dp_CSIParams x) (dp_ManageVolumeSnapshotClasses x).
Definition set_dp_RookImage (v : string) (x : DeployParams) : DeployParams := mkDeployParams (dp_LogLevel x) (dp_CephImage x) (dp_CephRelease x) v (dp_NetPolEnabled x) (dp_OpenstackCephSharedNamespace x) (dp_CephDaemonsetPlacementLabelExclude x) (dp_DrainRequestLabelKey x) (dp_DrainReadyLabelKey x) (dp_CSIParams x) (dp_ManageVolumeSnapshotClasses x).
Definition set_dp_NetPolEnabled (v : bool) (x : DeployParams) : DeployParams := mkDeployParams (dp_LogLevel x) (dp_CephImage x) (dp_CephRelease x) (dp_RookImage x) v (dp_OpenstackCephSharedNamespace x) (dp_CephDaemonsetPlacementLabelExclude x) (dp_DrainRequestLabelKey x) (dp_DrainReadyLabelKey x) (dp_CSIParams x) (dp_ManageVolumeSnapshotClasses x).
Definition set_dp_OpenstackCephSharedNamespace (v : string) (x : DeployParams) : DeployParams := mkDeployParams (dp_LogLevel x) (dp_CephImage x) (dp_CephRelease x) (dp_RookImage x) (dp_NetPolEnabled x) v (dp_CephDaemonsetPlacementLabelExclude x) (dp_DrainRequestLabelKey x) (dp_DrainReadyLabelKey x) (dp_CSIParams x) (dp_ManageVolumeSnapshotClasses x).
Definition set_dp_CephDaemonsetPlacementLabelExclude (v : string) (x : DeployParams) : DeployParams := mkDeployParams (dp_LogLevel x) (dp_CephImage x) (dp_CephRelease x) (dp_RookImage x) (dp_NetPolEnabled x) (dp_OpenstackCephSharedNamespace x) v (dp_DrainRequestLabelKey x) (dp_DrainReadyLabelKey x) (dp_CSIParams x) (dp_ManageVolumeSnapshotClasses x).
Definition set_dp_DrainRequestLabelKey (v : string) (x : DeployParams) : DeployParams := mkDeployParams (dp_LogLevel x) (dp_CephImage x) (dp_CephRelease x) (dp_RookImage x) (dp_NetPolEnabled x) (dp_OpenstackCephSharedNamespace x) (dp_CephDaemonsetPlacementLabelExclude x) v (dp_DrainReadyLabelKey x) (dp_CSIParams x) (dp_ManageVolumeSnapshotClasses x).
Definition set_dp_DrainReadyLabelKey (v : string) (x : DeployParams) : DeployParams := mkDeployParams (dp_LogLevel x) (dp_CephImage x) (dp_CephRelease x) (dp_RookImage x) (dp_NetPolEnabled x) (dp_OpenstackCephSharedNamespace x) (dp_CephDaemonsetPlacementLabelExclude x) (dp_DrainRequestLabelKey x) v (dp_CSIParams x) (dp_ManageVolumeSnapshotClasses x).
Definition set_dp_CSIParams (v : CSIDeployParams) (x : DeployParams) : DeployParams := mkDeployParams (dp_LogLevel x) (dp_CephImage x) (dp_CephRelease x) (dp_RookImage x) (dp_NetPolEnabled x) (dp_OpenstackCephSharedNamespace x) (dp_CephDaemonsetPlacementLabelExclude x) (dp_DrainRequestLabelKey x) (dp_DrainReadyLabelKey x) v (dp_ManageVolumeSnapshotClasses x).
Definition set_dp_ManageVolumeSnapshotClasses (v : bool) (x : DeployParams) : DeployParams := mkDeployParams (dp_LogLevel x) (dp_CephImage x) (dp_CephRelease x) (dp_RookImage x) (dp_NetPolEnabled x) (dp_OpenstackCephSharedNamespace x) (dp_CephDaemonsetPlacementLabelExclude x) (dp_DrainRequestLabelKey x) (dp_DrainReadyLabelKey x) (dp_CSIParams x) v.

Record LcmConfig := mkLcmConfig {
  lc_RookNamespace : string;
  lc_CommonParams : CommonParams;
  lc_HealthParams : option HealthParams;
  lc_TaskParams : option TaskParams;
  lc_DeployParams : option DeployParams;
}.
#[global] Instance LcmConfig_eq_dec : EqDecision LcmConfig.
Proof. solve_decision. Defined.
Definition set_lc_RookNamespace (v : string) (x : LcmConfig) : LcmConfig := mkLcmConfig v (lc_CommonParams x) (lc_HealthParams x) (lc_TaskParams x) (lc_DeployParams x).
Definition set_lc_CommonParams (v : CommonParams) (x : LcmConfig) : LcmConfig := mkLcmConfig (lc_RookNamespace x) v (lc_HealthParams x) (lc_TaskParams x) (lc_DeployParams x).
Definition set_lc_HealthParams (v : option HealthParams) (x : LcmConfig) : LcmConfig := mkLcmConfig (lc_RookNamespace x) (lc_CommonParams x) v (lc_TaskParams x) (lc_DeployParams x).
Definition set_lc_TaskParams (v : option TaskParams) (x : LcmConfig) : LcmConfig := mkLcmConfig (lc_RookNamespace x) (lc_CommonParams x) (lc_HealthParams x) v (lc_DeployParams x).
Definition set_lc_DeployParams (v : option DeployParams) (x : LcmConfig) : LcmConfig := mkLcmConfig (lc_RookNamespace x) (lc_CommonParams x) (lc_HealthParams x) (lc_TaskParams x) v.

(** The parameters the task controller reads.  [TaskParams] is a pointer; the
    process of the task controller always loads it (ConfigFacts.v,
    [own_params_present]). *)
Definition lc_DiskDaemonPort (c : LcmConfig) : Z := cp_DiskDaemonPort (lc_CommonParams c).
Definition lc_DiskDaemonPlacementLabel (c : LcmConfig) : string := cp_DiskDaemonPlacementLabel (lc_CommonParams c).
Definition lc_OsdPgRebalanceTimeout (c : LcmConfig) : Z := default 0 (tp_OsdPgRebalanceTimeout <$> lc_TaskParams c).
Definition lc_AllowToRemoveManuallyCreatedLVM (c : LcmConfig) : bool :=
  default false (tp_AllowToRemoveManuallyCreatedLVM <$> lc_TaskParams c).
