(* ===== verification/HealthTypes.v ===== *)
(** * Data types of the health controller

    The health report (pkg/apis/ceph.pelagia.lcm/v1alpha1/health_types.go), the
    outputs of Ceph commands it is made from (pkg/common/ceph_types.go,
    pkg/controller/health/ceph_cli_types.go), the options it collects on the way
    (pkg/controller/health/health_types.go) and the fields of Rook and Kubernetes
    objects it reads.  Optional maps of the report are [option]s where the code or
    the comparison of statuses tells the nil map from the empty one. *)

From Stdlib Require Import QArith.
From S2P Require Import Prelude Types.
Open Scope Z_scope.

(** ** The report *)

(** [HealthStateUnset] is the empty string of a new object. *)
Inductive CephDeploymentHealthState :=
| HealthStateUnset
| HealthStateOk
| HealthStateFailed.
#[global] Instance CephDeploymentHealthState_eq_dec : EqDecision CephDeploymentHealthState.
Proof. solve_decision. Defined.

Record CephDaemonsStatus := mkCephDaemonsStatus {
  cds_CephDaemons : option (gmap string DaemonStatus);
  cds_CephCSIDaemons : option (gmap string DaemonStatus);
}.
#[global] Instance CephDaemonsStatus_eq_dec : EqDecision CephDaemonsStatus.
Proof. solve_decision. Defined.

(** The status of a Rook object: the phase, the endpoints of an object store, and the rest, which is only copied and compared. *)
Record RookStatus := mkRookStatus {
  rk_Phase : string;
  rk_Info : gmap string string;
  rk_Other : string;
}.
#[global] Instance RookStatus_eq_dec : EqDecision RookStatus.
Proof. solve_decision. Defined.

Abbreviation rook_statuses := (option (gmap string (option RookStatus))).

Record ObjectStorageStatus := mkObjectStorageStatus {
  oss_CephObjectStores : rook_statuses;
  oss_CephObjectStoreUsers : rook_statuses;
  oss_CephObjectRealms : rook_statuses;
  oss_CephObjectZoneGroups : rook_statuses;
  oss_CephObjectZones : rook_statuses;
}.
#[global] Instance ObjectStorageStatus_eq_dec : EqDecision ObjectStorageStatus.
Proof. solve_decision. Defined.

(** [BlockStorage] and [SharedFilesystem] hold one map each and are given by it. *)
Record RookCephObjectsStatus := mkRookObjects {
  rco_CephCluster : option ClusterStatus;
  rco_BlockStorage : rook_statuses;
  rco_CephClients : rook_statuses;
  rco_ObjectStorage : option ObjectStorageStatus;
  rco_SharedFilesystem : rook_statuses;
}.
#[global] Instance RookCephObjectsStatus_eq_dec : EqDecision RookCephObjectsStatus.
Proof. solve_decision. Defined.

Record ClassUsageStats := mkClassUsage {
  cus_UsedBytes : string;
  cus_AvailableBytes : string;
  cus_TotalBytes : string;
}.
#[global] Instance ClassUsageStats_eq_dec : EqDecision ClassUsageStats.
Proof. solve_decision. Defined.

Record PoolUsageStats := mkPoolUsage {
  pus_UsedBytes : string;
  pus_UsedBytesPercentage : string;
  pus_AvailableBytes : string;
  pus_TotalBytes : string;
}.
#[global] Instance PoolUsageStats_eq_dec : EqDecision PoolUsageStats.
Proof. solve_decision. Defined.

Record UsageDetails := mkUsageDetails {
  ud_ClassesDetail : option (gmap string ClassUsageStats);
  ud_PoolsDetail : option (gmap string PoolUsageStats);
}.
#[global] Instance UsageDetails_eq_dec : EqDecision UsageDetails.
Proof. solve_decision. Defined.

Inductive CephEventState :=
| CephEventIdle
| CephEventProgressing.
#[global] Instance CephEventState_eq_dec : EqDecision CephEventState.
Proof. solve_decision. Defined.

Record CephEventMessage := mkEventMessage {
  cem_Message : string;
  cem_Progress : string;
}.
#[global] Instance CephEventMessage_eq_dec : EqDecision CephEventMessage.
Proof. solve_decision. Defined.

Record CephEventDetails := mkEventDetails {
  ced_State : CephEventState;
  ced_Messages : list CephEventMessage;
  ced_Progress : string;
}.
#[global] Instance CephEventDetails_eq_dec : EqDecision CephEventDetails.
Proof. solve_decision. Defined.

Record CephEvents := mkCephEvents {
  ce_RebalanceDetails : CephEventDetails;
  ce_PgAutoscalerDetails : CephEventDetails;
}.
#[global] Instance CephEvents_eq_dec : EqDecision CephEvents.
Proof. solve_decision. Defined.

Inductive MultiSiteState :=
| MultiSiteSyncing
| MultiSiteOutOfSync
| MultiSiteFailed.
#[global] Instance MultiSiteState_eq_dec : EqDecision MultiSiteState.
Proof. solve_decision. Defined.

Record MultisiteState := mkMultisiteState {
  ms_MetadataSyncState : MultiSiteState;
  ms_DataSyncState : MultiSiteState;
  ms_Messages : list string;
}.
#[global] Instance MultisiteState_eq_dec : EqDecision MultisiteState.
Proof. solve_decision. Defined.

Record RgwInfo := mkRgwInfo {
  ri_PublicEndpoints : option (gmap string (list string));
  ri_MultisiteDetails : option (gmap string MultisiteState);
}.
#[global] Instance RgwInfo_eq_dec : EqDecision RgwInfo.
Proof. solve_decision. Defined.

Record ClusterDetails := mkClusterDetails {
  cld_UsageDetails : option UsageDetails;
  cld_CephEvents : option CephEvents;
  cld_RgwInfo : option RgwInfo;
}.
#[global] Instance ClusterDetails_eq_dec : EqDecision ClusterDetails.
Proof. solve_decision. Defined.

Record CephDeploymentHealthReport := mkHealthReport {
  hr_RookOperator : DaemonStatus;
  hr_CephDaemons : option CephDaemonsStatus;
  hr_RookCephObjects : option RookCephObjectsStatus;
  hr_ClusterDetails : option ClusterDetails;
  hr_OsdAnalysis : option OsdSpecAnalysisState;
}.
#[global] Instance CephDeploymentHealthReport_eq_dec : EqDecision CephDeploymentHealthReport.
Proof. solve_decision. Defined.

Record CephDeploymentHealthStatus := mkHealthStatus {
  hs_State : CephDeploymentHealthState;
  hs_HealthReport : option CephDeploymentHealthReport;
  hs_LastHealthCheck : string;
  hs_LastHealthUpdate : string;
  hs_Issues : list string;
}.
#[global] Instance CephDeploymentHealthStatus_eq_dec : EqDecision CephDeploymentHealthStatus.
Proof. solve_decision. Defined.

Record CephDeploymentHealth := mkHealth {
  chd_Name : string;
  chd_UID : string;
  chd_Status : CephDeploymentHealthStatus;
}.
#[global] Instance CephDeploymentHealth_eq_dec : EqDecision CephDeploymentHealth.
Proof. solve_decision. Defined.

(** What the task controller reads of it: whether the report and its CephCluster
    status are present, and the analysis of the OSD spec. *)
Definition chd_HasCephCluster (health : CephDeploymentHealth) : bool :=
  match (hs_HealthReport (chd_Status health) ≫= hr_RookCephObjects) ≫= rco_CephCluster with
  | Some _ => true
  | None => false
  end.
Definition chd_OsdAnalysis (health : CephDeploymentHealth) : option OsdSpecAnalysisState :=
  hs_HealthReport (chd_Status health) ≫= hr_OsdAnalysis.

(** ** Outputs of Ceph commands *)

(** An entry of [FsMap.ByRank]. *)
Record MdsRank := mkMdsRank {
  mr_Name : string;
  mr_Status : string;
}.
#[global] Instance MdsRank_eq_dec : EqDecision MdsRank.
Proof. solve_decision. Defined.

(** A JSON number is a rational. *)
Record ProgressEvent := mkProgressEvent {
  pe_Message : string;
  pe_Progress : Q;
}.
#[global] Instance ProgressEvent_eq_dec : EqDecision ProgressEvent.
Proof. solve_decision. Defined.

(** [ceph status]; [cs_RgwDaemons] are the entries of the service map of RGW as JSON texts. *)
Record CephStatus := mkCephStatus {
  cs_QuorumNames : list string;
  cs_NumOsd : Z;
  cs_NumUpOsd : Z;
  cs_NumInOsd : Z;
  cs_NumMons : Z;
  cs_RgwDaemons : gmap string string;
  cs_ByRank : list MdsRank;
  cs_ProgressEvents : gmap string ProgressEvent;
}.

Record mgrDump := mkMgrDump {
  mgr_Available : bool;
  mgr_ActiveName : string;
  mgr_Standbys : list string;
}.

Record ClassStats := mkClassStats {
  cla_TotalBytes : Z;
  cla_UsedBytes : Z;
  cla_AvailableBytes : Z;
}.

(** Byte counts are of 64 bits without a sign. *)
Record PoolDetails := mkPoolDetails {
  pd_Name : string;
  pd_TotalBytes : Z;
  pd_UsedBytes : Z;
  pd_PercentUsed : Q;
}.

Record CephDetails := mkCephDetails {
  cd_StatsByClass : gmap string ClassStats;
  cd_Pools : list PoolDetails;
}.

(** [ceph osd pool ls detail] and [ceph osd crush rule dump]; a value of a step is a string or something else. *)
Record PoolLs := mkPoolLs {
  pl_Name : string;
  pl_Size : Z;
  pl_CrushRuleID : Z;
}.

Inductive json_value := JString (s : string) | JOther.

Record CrushRule := mkCrushRule {
  cr_Name : string;
  cr_ID : Z;
  cr_Steps : list (gmap string json_value);
}.

(** ** Collected options (health_types.go) *)

Record rgwOpts := mkRgwOpts {
  ro_desiredRgwDaemons : Z;
  ro_external : bool;
  ro_externalEndpoint : string;
}.
#[global] Instance rgwOpts_eq_dec : EqDecision rgwOpts.
Proof. solve_decision. Defined.

Record healthConfig := mkHealthConfig {
  hc_name : string;
  hc_namespace : string;
  hc_cephCluster : option CephCluster;
  hc_rgwOpts : gmap string rgwOpts;
  hc_realms : gmap string bool;
  hc_zonegroups : gmap string string;
  hc_zones : gmap string string;
  hc_mdsDaemonsDesired : gmap string (gmap string Z);
}.
Definition set_hc_cephCluster (v : option CephCluster) (x : healthConfig) : healthConfig := mkHealthConfig (hc_name x) (hc_namespace x) v (hc_rgwOpts x) (hc_realms x) (hc_zonegroups x) (hc_zones x) (hc_mdsDaemonsDesired x).
Definition set_hc_rgwOpts (v : gmap string rgwOpts) (x : healthConfig) : healthConfig := mkHealthConfig (hc_name x) (hc_namespace x) (hc_cephCluster x) v (hc_realms x) (hc_zonegroups x) (hc_zones x) (hc_mdsDaemonsDesired x).
Definition set_hc_realms (v : gmap string bool) (x : healthConfig) : healthConfig := mkHealthConfig (hc_name x) (hc_namespace x) (hc_cephCluster x) (hc_rgwOpts x) v (hc_zonegroups x) (hc_zones x) (hc_mdsDaemonsDesired x).
Definition set_hc_zonegroups (v : gmap string string) (x : healthConfig) : healthConfig := mkHealthConfig (hc_name x) (hc_namespace x) (hc_cephCluster x) (hc_rgwOpts x) (hc_realms x) v (hc_zones x) (hc_mdsDaemonsDesired x).
Definition set_hc_zones (v : gmap string string) (x : healthConfig) : healthConfig := mkHealthConfig (hc_name x) (hc_namespace x) (hc_cephCluster x) (hc_rgwOpts x) (hc_realms x) (hc_zonegroups x) v (hc_mdsDaemonsDesired x).
Definition set_hc_mdsDaemonsDesired (v : gmap string (gmap string Z)) (x : healthConfig) : healthConfig := mkHealthConfig (hc_name x) (hc_namespace x) (hc_cephCluster x) (hc_rgwOpts x) (hc_realms x) (hc_zonegroups x) (hc_zones x) v.

(** Details of an OSD (spec_osd_verification.go). *)
Record osdDetails := mkOsdDetails {
  odt_ClusterFSID : string;
  odt_DeviceName : string;
  odt_DeviceByID : string;
  odt_DeviceByPath : string;
  odt_BlockPartition : string;
  odt_MetaDeviceName : string;
  odt_MetaDeviceByID : string;
  odt_MetaDeviceByPath : string;
  odt_MetaPartition : string;
  odt_UUID : string;
  odt_Up : bool;
  odt_In : bool;
}.
#[global] Instance osdDetails_eq_dec : EqDecision osdDetails.
Proof. solve_decision. Defined.

Abbreviation nodeDetails := (gmap string osdDetails).

(** ** Rook and Kubernetes objects *)

(** A block pool, a client or an object user: name and status. *)
Record RookObject := mkRookObject {
  rob_Name : string;
  rob_Status : option RookStatus;
}.

Record CephFilesystem := mkFilesystem {
  fs_Object : RookObject;
  fs_ActiveCount : Z;
  fs_ActiveStandby : bool;
}.

(** [os_ExternalRgwEndpoints] is the number of external endpoints. *)
Record CephObjectStore := mkObjectStore {
  os_Object : RookObject;
  os_Instances : Z;
  os_ExternalRgwEndpoints : nat;
}.

Record CephObjectRealm := mkRealm {
  rl_Object : RookObject;
  rl_PullEndpoint : string;
}.

Record CephObjectZoneGroup := mkZoneGroup {
  zg_Object : RookObject;
  zg_Realm : string;
}.

Record CephObjectZone := mkZone {
  zn_Object : RookObject;
  zn_ZoneGroup : string;
}.

Record Deployment := mkDeployment {
  dpl_SpecReplicas : option Z;
  dpl_Replicas : Z;
  dpl_UpdatedReplicas : Z;
  dpl_ReadyReplicas : Z;
  dpl_AvailableReplicas : Z;
  dpl_Generation : Z;
  dpl_ObservedGeneration : Z;
}.

Record DaemonSet := mkDaemonSet {
  dms_NumberReady : Z;
  dms_CurrentNumberScheduled : Z;
  dms_DesiredNumberScheduled : Z;
  dms_NumberAvailable : Z;
  dms_UpdatedNumberScheduled : Z;
}.

(** The name of a service; the name and the kind of a resource. *)
Record IngressBackend := mkBackend {
  ib_Service : option string;
  ib_Resource : option (string * string);
}.

(** A rule is its host and the backends of its HTTP paths; [ig_LoadBalancer] is the number of addresses. *)
Record Ingress := mkIngress {
  ig_Name : string;
  ig_Rules : list (string * option (list IngressBackend));
  ig_LoadBalancer : nat;
}.

(** A rule is its backend references (name and kind), a parent the reasons of its conditions. *)
Record HTTPRoute := mkRoute {
  rt_Namespace : string;
  rt_Name : string;
  rt_Rules : list (list (string * option string));
  rt_Hostnames : list string;
  rt_Parents : list (list string);
}.

Record Service := mkService {
  svc_Namespace : string;
  svc_Name : string;
  svc_Type : string;
  svc_Ports : list (string * Z);
  svc_LoadBalancer : list string;
}.
