(* ===== verification/DeployTypes.v ===== *)
(** * Data types of the deployment controller

    The CephDeployment object (pkg/apis/ceph.pelagia.lcm/v1alpha1/deployment_types.go),
    the versions of Ceph (pkg/common/version.go), the state of a round
    (pkg/controller/deployment/opts.go) and the fields of Rook, CephCSI and Gateway
    specifications that are read.  Rook and Pelagia use the same names for some
    structs; those of the API of Pelagia have the prefix [Dpl] here. *)

From Stdlib Require Import QArith.
From S2P Require Import Prelude Types.
Open Scope Z_scope.

(** ** Specifications of Rook, CephCSI and the Gateway API

    Sizes and counts of chunks are unsigned; a spec that is not read by the controller is
    given by its text. *)

(** [cephv1.PoolSpec]: failure domain, device class, size of a replicated pool, chunks of an erasure-coded one; [ps_Rest] is the part nothing looks into. *)
Record PoolSpec := mkPoolSpec {
  ps_FailureDomain : string;
  ps_DeviceClass : string;
  ps_ReplicatedSize : N;
  ps_DataChunks : N;
  ps_CodingChunks : N;
  ps_TargetSizeRatio : Q;
  ps_EnableCrushUpdates : option bool;
  ps_Rest : string;
}.
#[global] Instance PoolSpec_eq_dec : EqDecision PoolSpec.
Proof. solve_decision. Defined.
Definition set_ps_TargetSizeRatio (v : Q) (x : PoolSpec) : PoolSpec := mkPoolSpec (ps_FailureDomain x) (ps_DeviceClass x) (ps_ReplicatedSize x) (ps_DataChunks x) (ps_CodingChunks x) v (ps_EnableCrushUpdates x) (ps_Rest x).
Definition set_ps_EnableCrushUpdates (v : option bool) (x : PoolSpec) : PoolSpec := mkPoolSpec (ps_FailureDomain x) (ps_DeviceClass x) (ps_ReplicatedSize x) (ps_DataChunks x) (ps_CodingChunks x) (ps_TargetSizeRatio x) v (ps_Rest x).

Definition zero_PoolSpec : PoolSpec := mkPoolSpec "" "" 0%N 0%N 0%N 0%Q None "".

Record PlacementStorageClass := mkPlacementClass {
  psc_Name : string;
  psc_DataPoolName : string;
}.
#[global] Instance PlacementStorageClass_eq_dec : EqDecision PlacementStorageClass.
Proof. solve_decision. Defined.

Record PoolPlacement := mkPlacement {
  pp_Name : string;
  pp_Default : bool;
  pp_MetadataPoolName : string;
  pp_DataPoolName : string;
  pp_DataNonECPoolName : string;
  pp_StorageClasses : list PlacementStorageClass;
}.
#[global] Instance PoolPlacement_eq_dec : EqDecision PoolPlacement.
Proof. solve_decision. Defined.

(** [cephv1.ObjectSharedPoolsSpec] *)
Record SharedPoolsSpec := mkSharedPools {
  sp_MetadataPoolName : string;
  sp_DataPoolName : string;
  sp_PoolPlacements : list PoolPlacement;
}.
#[global] Instance SharedPoolsSpec_eq_dec : EqDecision SharedPoolsSpec.
Proof. solve_decision. Defined.

(** Placement of daemons: the affinities and tolerations the controller makes, by the label
    they are about, and others by their text. *)
Inductive affinity :=
| AffinityLabel (key : string)
| AffinityFilesystem (name : string)
| AffinityOther (text : string).
#[global] Instance affinity_eq_dec : EqDecision affinity.
Proof. solve_decision. Defined.

Inductive toleration :=
| TolerationExists (key : string)
| TolerationOther (text : string).
#[global] Instance toleration_eq_dec : EqDecision toleration.
Proof. solve_decision. Defined.

(** Probes: [lcmcommon.DefaultCephProbe] or another one. *)
Inductive probe :=
| DefaultCephProbe
| ProbeOther (text : string).
#[global] Instance probe_eq_dec : EqDecision probe.
Proof. solve_decision. Defined.

(** [cephv1.MetadataServerSpec] *)
Record MetadataServerSpec := mkMetadataServer {
  mss_ActiveCount : Z;
  mss_NodeAffinity : option affinity;
  mss_PodAntiAffinity : option affinity;
  mss_Tolerations : list toleration;
  mss_LivenessProbe : option probe;
  mss_Annotations : gmap string string;
  mss_Rest : string;
}.
#[global] Instance MetadataServerSpec_eq_dec : EqDecision MetadataServerSpec.
Proof. solve_decision. Defined.

(** [cephv1.FilesystemSpec]; a data pool has a name. *)
Record FilesystemSpec := mkFilesystemSpec {
  fss_MetadataPool : PoolSpec;
  fss_DataPools : list (string * PoolSpec);
  fss_MetadataServer : MetadataServerSpec;
  fss_PreserveFilesystemOnDelete : bool;
  fss_Rest : string;
}.
#[global] Instance FilesystemSpec_eq_dec : EqDecision FilesystemSpec.
Proof. solve_decision. Defined.

(** [cephv1.ClientSpec] *)
Record ClientSpec := mkClientSpec {
  cls_Name : string;
  cls_Caps : gmap string string;
  cls_Rest : string;
}.
#[global] Instance ClientSpec_eq_dec : EqDecision ClientSpec.
Proof. solve_decision. Defined.
Definition set_cls_Name (v : string) (x : ClientSpec) : ClientSpec := mkClientSpec v (cls_Caps x) (cls_Rest x).

(** [cephv1.ObjectZoneSpec] *)
Record ObjectZoneSpec := mkZoneSpec {
  ozs_ZoneGroup : string;
  ozs_SharedPools : SharedPoolsSpec;
  ozs_MetadataPool : PoolSpec;
  ozs_DataPool : PoolSpec;
  ozs_Rest : string;
}.
#[global] Instance ObjectZoneSpec_eq_dec : EqDecision ObjectZoneSpec.
Proof. solve_decision. Defined.

(** [cephv1.ObjectRealmSpec] *)
Record ObjectRealmSpec := mkRealmSpec {
  rls_PullEndpoint : string;
  rls_DefaultRealm : bool;
}.
#[global] Instance ObjectRealmSpec_eq_dec : EqDecision ObjectRealmSpec.
Proof. solve_decision. Defined.
Definition set_rls_PullEndpoint (v : string) (x : ObjectRealmSpec) : ObjectRealmSpec := mkRealmSpec v (rls_DefaultRealm x).
Definition set_rls_DefaultRealm (v : bool) (x : ObjectRealmSpec) : ObjectRealmSpec := mkRealmSpec (rls_PullEndpoint x) v.

(** [cephv1.ObjectStoreSpec], the fields of its gateway beside its own; [ost_Hosting]: a hosting section is given. *)
Record ObjectStoreSpec := mkStoreSpec {
  ost_Port : Z;
  ost_SecurePort : Z;
  ost_Instances : Z;
  ost_ExternalRgwEndpoints : list (string * string);
  ost_ZoneName : string;
  ost_SharedPools : SharedPoolsSpec;
  ost_MetadataPool : PoolSpec;
  ost_DataPool : PoolSpec;
  ost_Hosting : bool;
  ost_Annotations : gmap string string;
  ost_SSLCertificateRef : string;
  ost_CaBundleRef : string;
  ost_NodeAffinity : option affinity;
  ost_Tolerations : list toleration;
  ost_DisableMultisiteSyncTraffic : bool;
  ost_DefaultRealm : bool;
  ost_Rest : string;
}.
#[global] Instance ObjectStoreSpec_eq_dec : EqDecision ObjectStoreSpec.
Proof. solve_decision. Defined.
Definition set_ost_Annotations (v : gmap string string) (x : ObjectStoreSpec) : ObjectStoreSpec := mkStoreSpec (ost_Port x) (ost_SecurePort x) (ost_Instances x) (ost_ExternalRgwEndpoints x) (ost_ZoneName x) (ost_SharedPools x) (ost_MetadataPool x) (ost_DataPool x) (ost_Hosting x) v (ost_SSLCertificateRef x) (ost_CaBundleRef x) (ost_NodeAffinity x) (ost_Tolerations x) (ost_DisableMultisiteSyncTraffic x) (ost_DefaultRealm x) (ost_Rest x).
Definition set_ost_SSLCertificateRef (v : string) (x : ObjectStoreSpec) : ObjectStoreSpec := mkStoreSpec (ost_Port x) (ost_SecurePort x) (ost_Instances x) (ost_ExternalRgwEndpoints x) (ost_ZoneName x) (ost_SharedPools x) (ost_MetadataPool x) (ost_DataPool x) (ost_Hosting x) (ost_Annotations x) v (ost_CaBundleRef x) (ost_NodeAffinity x) (ost_Tolerations x) (ost_DisableMultisiteSyncTraffic x) (ost_DefaultRealm x) (ost_Rest x).
Definition set_ost_CaBundleRef (v : string) (x : ObjectStoreSpec) : ObjectStoreSpec := mkStoreSpec (ost_Port x) (ost_SecurePort x) (ost_Instances x) (ost_ExternalRgwEndpoints x) (ost_ZoneName x) (ost_SharedPools x) (ost_MetadataPool x) (ost_DataPool x) (ost_Hosting x) (ost_Annotations x) (ost_SSLCertificateRef x) v (ost_NodeAffinity x) (ost_Tolerations x) (ost_DisableMultisiteSyncTraffic x) (ost_DefaultRealm x) (ost_Rest x).
Definition set_ost_NodeAffinity (v : option affinity) (x : ObjectStoreSpec) : ObjectStoreSpec := mkStoreSpec (ost_Port x) (ost_SecurePort x) (ost_Instances x) (ost_ExternalRgwEndpoints x) (ost_ZoneName x) (ost_SharedPools x) (ost_MetadataPool x) (ost_DataPool x) (ost_Hosting x) (ost_Annotations x) (ost_SSLCertificateRef x) (ost_CaBundleRef x) v (ost_Tolerations x) (ost_DisableMultisiteSyncTraffic x) (ost_DefaultRealm x) (ost_Rest x).
Definition set_ost_Tolerations (v : list toleration) (x : ObjectStoreSpec) : ObjectStoreSpec := mkStoreSpec (ost_Port x) (ost_SecurePort x) (ost_Instances x) (ost_ExternalRgwEndpoints x) (ost_ZoneName x) (ost_SharedPools x) (ost_MetadataPool x) (ost_DataPool x) (ost_Hosting x) (ost_Annotations x) (ost_SSLCertificateRef x) (ost_CaBundleRef x) (ost_NodeAffinity x) v (ost_DisableMultisiteSyncTraffic x) (ost_DefaultRealm x) (ost_Rest x).
Definition set_ost_DefaultRealm (v : bool) (x : ObjectStoreSpec) : ObjectStoreSpec := mkStoreSpec (ost_Port x) (ost_SecurePort x) (ost_Instances x) (ost_ExternalRgwEndpoints x) (ost_ZoneName x) (ost_SharedPools x) (ost_MetadataPool x) (ost_DataPool x) (ost_Hosting x) (ost_Annotations x) (ost_SSLCertificateRef x) (ost_CaBundleRef x) (ost_NodeAffinity x) (ost_Tolerations x) (ost_DisableMultisiteSyncTraffic x) v (ost_Rest x).

(** [cephv1.ObjectStoreUserSpec]; capabilities by their names in the API, and what is left of them in [sus_Rest]. *)
Record ObjectStoreUserSpec := mkStoreUserSpec {
  sus_Store : string;
  sus_DisplayName : string;
  sus_Capabilities : gmap string string;
  sus_Rest : string;
}.
#[global] Instance ObjectStoreUserSpec_eq_dec : EqDecision ObjectStoreUserSpec.
Proof. solve_decision. Defined.
Definition set_sus_DisplayName (v : string) (x : ObjectStoreUserSpec) : ObjectStoreUserSpec := mkStoreUserSpec (sus_Store x) v (sus_Capabilities x) (sus_Rest x).

(** Routes of the Gateway API: the references, matches and backends the controller makes, and
    others by their text. *)
Inductive parent_ref :=
| ParentGateway (name ns : string)
| ParentOther (text : string).
#[global] Instance parent_ref_eq_dec : EqDecision parent_ref.
Proof. solve_decision. Defined.

Inductive route_match :=
| MatchPathPrefix (path : string)
| MatchOther (text : string).
#[global] Instance route_match_eq_dec : EqDecision route_match.
Proof. solve_decision. Defined.

Inductive backend_ref :=
| BackendService (name : string) (port weight : Z)
| BackendOther (text : string).
#[global] Instance backend_ref_eq_dec : EqDecision backend_ref.
Proof. solve_decision. Defined.

Record HTTPRouteRule := mkRouteRule {
  hrr_Name : option string;
  hrr_Matches : list route_match;
  hrr_BackendRefs : list backend_ref;
  hrr_Rest : string;
}.
#[global] Instance HTTPRouteRule_eq_dec : EqDecision HTTPRouteRule.
Proof. solve_decision. Defined.
Definition set_hrr_Matches (v : list route_match) (x : HTTPRouteRule) : HTTPRouteRule := mkRouteRule (hrr_Name x) v (hrr_BackendRefs x) (hrr_Rest x).
Definition set_hrr_BackendRefs (v : list backend_ref) (x : HTTPRouteRule) : HTTPRouteRule := mkRouteRule (hrr_Name x) (hrr_Matches x) v (hrr_Rest x).

(** [gatewayapi.HTTPRouteSpec] *)
Record HTTPRouteSpec := mkRouteSpec {
  hrs_ParentRefs : list parent_ref;
  hrs_Hostnames : list string;
  hrs_Rules : list HTTPRouteRule;
}.
#[global] Instance HTTPRouteSpec_eq_dec : EqDecision HTTPRouteSpec.
Proof. solve_decision. Defined.
Definition set_hrs_ParentRefs (v : list parent_ref) (x : HTTPRouteSpec) : HTTPRouteSpec := mkRouteSpec v (hrs_Hostnames x) (hrs_Rules x).
Definition set_hrs_Rules (v : list HTTPRouteRule) (x : HTTPRouteSpec) : HTTPRouteSpec := mkRouteSpec (hrs_ParentRefs x) (hrs_Hostnames x) v.

(** [cephv1.NetworkSpec]: the address ranges are the public and the cluster ones. *)
Record NetworkSpec := mkNetworkSpec {
  ns_Provider : string;
  ns_AddressRanges : option (list string * list string);
  ns_Selectors : gmap string string;
  ns_HostNetwork : bool;
}.
#[global] Instance NetworkSpec_eq_dec : EqDecision NetworkSpec.
Proof. solve_decision. Defined.
Definition set_ns_Provider (v : string) (x : NetworkSpec) : NetworkSpec := mkNetworkSpec v (ns_AddressRanges x) (ns_Selectors x) (ns_HostNetwork x).
Definition set_ns_HostNetwork (v : bool) (x : NetworkSpec) : NetworkSpec := mkNetworkSpec (ns_Provider x) (ns_AddressRanges x) (ns_Selectors x) v.

(** [cephv1.ClusterCephxConfig] *)
Record CephxConfig := mkCephx {
  cx_DaemonKeyGeneration : Z;
  cx_DaemonKeyRotationPolicy : string;
  cx_DaemonKeyType : string;
  cx_AllowedCiphers : list string;
  cx_CSIKeyType : string;
  cx_CSIKeepPriorKeyCountMax : Z;
}.
#[global] Instance CephxConfig_eq_dec : EqDecision CephxConfig.
Proof. solve_decision. Defined.
Definition set_cx_DaemonKeyGeneration (v : Z) (x : CephxConfig) : CephxConfig := mkCephx v (cx_DaemonKeyRotationPolicy x) (cx_DaemonKeyType x) (cx_AllowedCiphers x) (cx_CSIKeyType x) (cx_CSIKeepPriorKeyCountMax x).

(** [cephv1.Placement]; an empty affinity is [AffinityOther] of the empty text. *)
Record Placement := mkPlacementOf {
  plc_NodeAffinity : option affinity;
  plc_PodAffinity : option affinity;
  plc_PodAntiAffinity : option affinity;
  plc_Tolerations : list toleration;
  plc_Rest : string;
}.
#[global] Instance Placement_eq_dec : EqDecision Placement.
Proof. solve_decision. Defined.

(** [cephv1.StorageScopeSpec] *)
Record StorageScope := mkStorageScope {
  sts_UseAllNodes : bool;
  sts_UseAllDevices : option bool;
  sts_Nodes : list CephNode;
  sts_Rest : string;
}.
#[global] Instance StorageScope_eq_dec : EqDecision StorageScope.
Proof. solve_decision. Defined.

(** [cephv1.ClusterSpec]: the fields the controller reads or writes; [csp_ContinueUpgrade] is [ContinueUpgradeAfterChecksEvenIfNotHealthy], [csp_Modules] are names and flags, [csp_Rest] is what is left alone. *)
Record ClusterSpec := mkClusterSpec {
  csp_External : bool;
  csp_Network : NetworkSpec;
  csp_Image : string;
  csp_DataDirHostPath : string;
  csp_SkipUpgradeChecks : bool;
  csp_ContinueUpgrade : bool;
  csp_Annotations : gmap string (gmap string string);
  csp_MonCount : Z;
  csp_MgrCount : Z;
  csp_Modules : list (string * bool);
  csp_Storage : StorageScope;
  csp_Placement : gmap string Placement;
  csp_LivenessProbe : gmap string probe;
  csp_CephX : CephxConfig;
  csp_CleanupConfirmation : string;
  csp_AllowUninstallWithVolumes : bool;
  csp_Rest : string;
}.
#[global] Instance ClusterSpec_eq_dec : EqDecision ClusterSpec.
Proof. solve_decision. Defined.
Definition set_csp_Network (v : NetworkSpec) (x : ClusterSpec) : ClusterSpec := mkClusterSpec (csp_External x) v (csp_Image x) (csp_DataDirHostPath x) (csp_SkipUpgradeChecks x) (csp_ContinueUpgrade x) (csp_Annotations x) (csp_MonCount x) (csp_MgrCount x) (csp_Modules x) (csp_Storage x) (csp_Placement x) (csp_LivenessProbe x) (csp_CephX x) (csp_CleanupConfirmation x) (csp_AllowUninstallWithVolumes x) (csp_Rest x).
Definition set_csp_Image (v : string) (x : ClusterSpec) : ClusterSpec := mkClusterSpec (csp_External x) (csp_Network x) v (csp_DataDirHostPath x) (csp_SkipUpgradeChecks x) (csp_ContinueUpgrade x) (csp_Annotations x) (csp_MonCount x) (csp_MgrCount x) (csp_Modules x) (csp_Storage x) (csp_Placement x) (csp_LivenessProbe x) (csp_CephX x) (csp_CleanupConfirmation x) (csp_AllowUninstallWithVolumes x) (csp_Rest x).
Definition set_csp_DataDirHostPath (v : string) (x : ClusterSpec) : ClusterSpec := mkClusterSpec (csp_External x) (csp_Network x) (csp_Image x) v (csp_SkipUpgradeChecks x) (csp_ContinueUpgrade x) (csp_Annotations x) (csp_MonCount x) (csp_MgrCount x) (csp_Modules x) (csp_Storage x) (csp_Placement x) (csp_LivenessProbe x) (csp_CephX x) (csp_CleanupConfirmation x) (csp_AllowUninstallWithVolumes x) (csp_Rest x).
Definition set_csp_SkipUpgradeChecks (v : bool) (x : ClusterSpec) : ClusterSpec := mkClusterSpec (csp_External x) (csp_Network x) (csp_Image x) (csp_DataDirHostPath x) v (csp_ContinueUpgrade x) (csp_Annotations x) (csp_MonCount x) (csp_MgrCount x) (csp_Modules x) (csp_Storage x) (csp_Placement x) (csp_LivenessProbe x) (csp_CephX x) (csp_CleanupConfirmation x) (csp_AllowUninstallWithVolumes x) (csp_Rest x).
Definition set_csp_ContinueUpgrade (v : bool) (x : ClusterSpec) : ClusterSpec := mkClusterSpec (csp_External x) (csp_Network x) (csp_Image x) (csp_DataDirHostPath x) (csp_SkipUpgradeChecks x) v (csp_Annotations x) (csp_MonCount x) (csp_MgrCount x) (csp_Modules x) (csp_Storage x) (csp_Placement x) (csp_LivenessProbe x) (csp_CephX x) (csp_CleanupConfirmation x) (csp_AllowUninstallWithVolumes x) (csp_Rest x).
Definition set_csp_Annotations (v : gmap string (gmap string string)) (x : ClusterSpec) : ClusterSpec := mkClusterSpec (csp_External x) (csp_Network x) (csp_Image x) (csp_DataDirHostPath x) (csp_SkipUpgradeChecks x) (csp_ContinueUpgrade x) v (csp_MonCount x) (csp_MgrCount x) (csp_Modules x) (csp_Storage x) (csp_Placement x) (csp_LivenessProbe x) (csp_CephX x) (csp_CleanupConfirmation x) (csp_AllowUninstallWithVolumes x) (csp_Rest x).
Definition set_csp_MonCount (v : Z) (x : ClusterSpec) : ClusterSpec := mkClusterSpec (csp_External x) (csp_Network x) (csp_Image x) (csp_DataDirHostPath x) (csp_SkipUpgradeChecks x) (csp_ContinueUpgrade x) (csp_Annotations x) v (csp_MgrCount x) (csp_Modules x) (csp_Storage x) (csp_Placement x) (csp_LivenessProbe x) (csp_CephX x) (csp_CleanupConfirmation x) (csp_AllowUninstallWithVolumes x) (csp_Rest x).
Definition set_csp_MgrCount (v : Z) (x : ClusterSpec) : ClusterSpec := mkClusterSpec (csp_External x) (csp_Network x) (csp_Image x) (csp_DataDirHostPath x) (csp_SkipUpgradeChecks x) (csp_ContinueUpgrade x) (csp_Annotations x) (csp_MonCount x) v (csp_Modules x) (csp_Storage x) (csp_Placement x) (csp_LivenessProbe x) (csp_CephX x) (csp_CleanupConfirmation x) (csp_AllowUninstallWithVolumes x) (csp_Rest x).
Definition set_csp_Modules (v : list (string * bool)) (x : ClusterSpec) : ClusterSpec := mkClusterSpec (csp_External x) (csp_Network x) (csp_Image x) (csp_DataDirHostPath x) (csp_SkipUpgradeChecks x) (csp_ContinueUpgrade x) (csp_Annotations x) (csp_MonCount x) (csp_MgrCount x) v (csp_Storage x) (csp_Placement x) (csp_LivenessProbe x) (csp_CephX x) (csp_CleanupConfirmation x) (csp_AllowUninstallWithVolumes x) (csp_Rest x).
Definition set_csp_Storage (v : StorageScope) (x : ClusterSpec) : ClusterSpec := mkClusterSpec (csp_External x) (csp_Network x) (csp_Image x) (csp_DataDirHostPath x) (csp_SkipUpgradeChecks x) (csp_ContinueUpgrade x) (csp_Annotations x) (csp_MonCount x) (csp_MgrCount x) (csp_Modules x) v (csp_Placement x) (csp_LivenessProbe x) (csp_CephX x) (csp_CleanupConfirmation x) (csp_AllowUninstallWithVolumes x) (csp_Rest x).
Definition set_csp_Placement (v : gmap string Placement) (x : ClusterSpec) : ClusterSpec := mkClusterSpec (csp_External x) (csp_Network x) (csp_Image x) (csp_DataDirHostPath x) (csp_SkipUpgradeChecks x) (csp_ContinueUpgrade x) (csp_Annotations x) (csp_MonCount x) (csp_MgrCount x) (csp_Modules x) (csp_Storage x) v (csp_LivenessProbe x) (csp_CephX x) (csp_CleanupConfirmation x) (csp_AllowUninstallWithVolumes x) (csp_Rest x).
Definition set_csp_LivenessProbe (v : gmap string probe) (x : ClusterSpec) : ClusterSpec := mkClusterSpec (csp_External x) (csp_Network x) (csp_Image x) (csp_DataDirHostPath x) (csp_SkipUpgradeChecks x) (csp_ContinueUpgrade x) (csp_Annotations x) (csp_MonCount x) (csp_MgrCount x) (csp_Modules x) (csp_Storage x) (csp_Placement x) v (csp_CephX x) (csp_CleanupConfirmation x) (csp_AllowUninstallWithVolumes x) (csp_Rest x).
Definition set_csp_CephX (v : CephxConfig) (x : ClusterSpec) : ClusterSpec := mkClusterSpec (csp_External x) (csp_Network x) (csp_Image x) (csp_DataDirHostPath x) (csp_SkipUpgradeChecks x) (csp_ContinueUpgrade x) (csp_Annotations x) (csp_MonCount x) (csp_MgrCount x) (csp_Modules x) (csp_Storage x) (csp_Placement x) (csp_LivenessProbe x) v (csp_CleanupConfirmation x) (csp_AllowUninstallWithVolumes x) (csp_Rest x).
Definition set_csp_CleanupConfirmation (v : string) (x : ClusterSpec) : ClusterSpec := mkClusterSpec (csp_External x) (csp_Network x) (csp_Image x) (csp_DataDirHostPath x) (csp_SkipUpgradeChecks x) (csp_ContinueUpgrade x) (csp_Annotations x) (csp_MonCount x) (csp_MgrCount x) (csp_Modules x) (csp_Storage x) (csp_Placement x) (csp_LivenessProbe x) (csp_CephX x) v (csp_AllowUninstallWithVolumes x) (csp_Rest x).
Definition set_csp_AllowUninstallWithVolumes (v : bool) (x : ClusterSpec) : ClusterSpec := mkClusterSpec (csp_External x) (csp_Network x) (csp_Image x) (csp_DataDirHostPath x) (csp_SkipUpgradeChecks x) (csp_ContinueUpgrade x) (csp_Annotations x) (csp_MonCount x) (csp_MgrCount x) (csp_Modules x) (csp_Storage x) (csp_Placement x) (csp_LivenessProbe x) (csp_CephX x) (csp_CleanupConfirmation x) v (csp_Rest x).

(** ** Fields the API keeps raw

    [runtime.RawExtension]: raw bytes, or an object, which may be of the expected
    type or not. *)
Record RawExtension (T : Type) := mkRaw { raw_Raw : option string; raw_Object : option (option T) }.
Arguments mkRaw {T} _ _.
Arguments raw_Raw {T} _.
Arguments raw_Object {T} _.
#[global] Instance RawExtension_eq_dec `{EqDecision T} : EqDecision (RawExtension T).
Proof. solve_decision. Defined.

(** ** CephDeployment *)

Record CephStorageClassSpec := mkStorageClassSpec {
  scs_Default : bool;
  scs_SkipCreate : bool;
  scs_MapOptions : string;
  scs_UnmapOptions : string;
  scs_ImageFeatures : string;
  scs_ReclaimPolicy : string;
  scs_AllowVolumeExpansion : bool;
}.
#[global] Instance CephStorageClassSpec_eq_dec : EqDecision CephStorageClassSpec.
Proof. solve_decision. Defined.

Record CephPool := mkCephPool {
  pl_Name : string;
  pl_UseAsFullName : bool;
  pl_Role : string;
  pl_PreserveOnDelete : bool;
  pl_StorageClassOpts : CephStorageClassSpec;
  pl_PoolSpec : RawExtension PoolSpec;
}.
#[global] Instance CephPool_eq_dec : EqDecision CephPool.
Proof. solve_decision. Defined.

Record CephClient := mkCephClient {
  cl_Role : string;
  cl_ClientSpec : RawExtension ClientSpec;
}.
#[global] Instance CephClient_eq_dec : EqDecision CephClient.
Proof. solve_decision. Defined.
Definition set_cl_Role (v : string) (x : CephClient) : CephClient := mkCephClient v (cl_ClientSpec x).

(** [RotateOsClients] is the rotation and the number of keyrings to keep. *)
Record CephDeploymentExtraOpts := mkExtraOpts {
  eo_DeviceLabels : option (gmap string (gmap string string));
  eo_EnableProgressEvents : bool;
  eo_PreventClusterDestroy : bool;
  eo_OsdRestartReason : string;
  eo_DisableOsKeys : bool;
  eo_RotateOsClients : option (Z * Z);
}.
#[global] Instance CephDeploymentExtraOpts_eq_dec : EqDecision CephDeploymentExtraOpts.
Proof. solve_decision. Defined.

Record CephDeploymentNode := mkDplNode {
  dn_Node : CephNode;
  dn_Roles : list string;
  dn_Crush : gmap string string;
  dn_NodeGroup : list string;
  dn_NodesByLabel : string;
  dn_MonitorIP : string;
}.
#[global] Instance CephDeploymentNode_eq_dec : EqDecision CephDeploymentNode.
Proof. solve_decision. Defined.

Record DplObjectStore := mkDplObjectStore {
  dos_Name : string;
  dos_ServedByIngress : bool;
  dos_UsedForOpenstack : bool;
  dos_AuxiliaryService : bool;
  dos_Spec : RawExtension ObjectStoreSpec;
}.
#[global] Instance DplObjectStore_eq_dec : EqDecision DplObjectStore.
Proof. solve_decision. Defined.

Record CephObjectStoreUser := mkStoreUser {
  osu_Name : string;
  osu_Spec : RawExtension ObjectStoreUserSpec;
}.
#[global] Instance CephObjectStoreUser_eq_dec : EqDecision CephObjectStoreUser.
Proof. solve_decision. Defined.

Record CephDeploymentHTTPRoute := mkDplRoute {
  dhr_Name : string;
  dhr_ObjectStoreName : string;
  dhr_Spec : RawExtension HTTPRouteSpec;
}.
#[global] Instance CephDeploymentHTTPRoute_eq_dec : EqDecision CephDeploymentHTTPRoute.
Proof. solve_decision. Defined.

Record DplObjectRealm := mkDplRealm {
  dor_Name : string;
  dor_Spec : RawExtension ObjectRealmSpec;
}.
#[global] Instance DplObjectRealm_eq_dec : EqDecision DplObjectRealm.
Proof. solve_decision. Defined.

(** The specification of a zone group is given by its realm. *)
Record CephObjectZonegroup := mkDplZonegroup {
  dzg_Name : string;
  dzg_Spec : RawExtension string;
}.
#[global] Instance CephObjectZonegroup_eq_dec : EqDecision CephObjectZonegroup.
Proof. solve_decision. Defined.

Record DplObjectZone := mkDplZone {
  doz_Name : string;
  doz_Spec : RawExtension ObjectZoneSpec;
}.
#[global] Instance DplObjectZone_eq_dec : EqDecision DplObjectZone.
Proof. solve_decision. Defined.

Record CephObjectStorage := mkObjectStorage {
  cos_Rgws : list DplObjectStore;
  cos_Users : list CephObjectStoreUser;
  cos_GatewayHTTPRoutes : list CephDeploymentHTTPRoute;
  cos_Realms : list DplObjectRealm;
  cos_Zonegroups : list CephObjectZonegroup;
  cos_Zones : list DplObjectZone;
}.
#[global] Instance CephObjectStorage_eq_dec : EqDecision CephObjectStorage.
Proof. solve_decision. Defined.
Definition set_cos_Users (v : list CephObjectStoreUser) (x : CephObjectStorage) : CephObjectStorage := mkObjectStorage (cos_Rgws x) v (cos_GatewayHTTPRoutes x) (cos_Realms x) (cos_Zonegroups x) (cos_Zones x).

Record CephRBDMirrorSecret := mkMirrorSecret {
  rms_Site : string;
  rms_Token : string;
  rms_Pools : list string;
}.
#[global] Instance CephRBDMirrorSecret_eq_dec : EqDecision CephRBDMirrorSecret.
Proof. solve_decision. Defined.

Record CephRBDMirrorSpec := mkRBDMirror {
  rbm_Count : Z;
  rbm_Peers : list CephRBDMirrorSecret;
}.
#[global] Instance CephRBDMirrorSpec_eq_dec : EqDecision CephRBDMirrorSpec.
Proof. solve_decision. Defined.

Record DplFilesystem := mkDplFilesystem {
  dfs_Name : string;
  dfs_FsSpec : RawExtension FilesystemSpec;
}.
#[global] Instance DplFilesystem_eq_dec : EqDecision DplFilesystem.
Proof. solve_decision. Defined.

Inductive CSIDriverType :=
| RBDCSIDriver
| CephFSCSIDriver
| NFSCSIDriver
| NVMEoFCSIDriver.
#[global] Instance CSIDriverType_eq_dec : EqDecision CSIDriverType.
Proof. solve_decision. Defined.
Definition CSIDriverType_str (p : CSIDriverType) : string :=
  match p with
  | RBDCSIDriver => "rbd"
  | CephFSCSIDriver => "cephfs"
  | NFSCSIDriver => "nfs"
  | NVMEoFCSIDriver => "nvmeof"
  end.

(** What a field of a CephCSI spec holds: a text, a number or a flag by its text, and the
    placement that the configuration of the controller gives. *)
Inductive driver_value :=
| FieldText (text : string)
| FieldAffinity (affinity : option NodeAffinity)
| FieldTolerations (tolerations : list Toleration).
#[global] Instance driver_value_eq_dec : EqDecision driver_value.
Proof. solve_decision. Defined.

(** [csiopapi.DriverSpec]: the fields that are set, by name, of the spec itself and of its plugins; fields of their resources have the prefix [Resources]. *)
Record DriverSpec := mkDriverSpec {
  drs_Fields : gmap string driver_value;
  drs_NodePlugin : option (gmap string driver_value);
  drs_ControllerPlugin : option (gmap string driver_value);
}.
#[global] Instance DriverSpec_eq_dec : EqDecision DriverSpec.
Proof. solve_decision. Defined.
Definition set_drs_Fields (v : gmap string driver_value) (x : DriverSpec) : DriverSpec := mkDriverSpec v (drs_NodePlugin x) (drs_ControllerPlugin x).

(** [csiopapi.OperatorConfigSpec] *)
Record OperatorConfigSpec := mkOperatorConfigSpec {
  ocs_DriverSpecDefaults : option DriverSpec;
  ocs_Rest : string;
}.
#[global] Instance OperatorConfigSpec_eq_dec : EqDecision OperatorConfigSpec.
Proof. solve_decision. Defined.

Record CephCSIDriver := mkCSIDriver {
  cdr_Type : CSIDriverType;
  cdr_FullOverride : bool;
  cdr_Spec : RawExtension DriverSpec;
}.
#[global] Instance CephCSIDriver_eq_dec : EqDecision CephCSIDriver.
Proof. solve_decision. Defined.

Record CephCSIOperatorConfig := mkCSIOperatorConfig {
  coc_FullOverride : bool;
  coc_Spec : RawExtension OperatorConfigSpec;
}.
#[global] Instance CephCSIOperatorConfig_eq_dec : EqDecision CephCSIOperatorConfig.
Proof. solve_decision. Defined.

Record CephCSI := mkCephCSI {
  csr_OperatorConfig : option CephCSIOperatorConfig;
  csr_Drivers : list CephCSIDriver;
}.
#[global] Instance CephCSI_eq_dec : EqDecision CephCSI.
Proof. solve_decision. Defined.

(** The certificates of [TLSCerts] are the CA certificate, the certificate and its key. *)
Record CephDeploymentIngressTLSConfig := mkIngressTLS {
  itc_TLSSecretRefName : string;
  itc_Domain : string;
  itc_TLSCerts : option (string * string * string);
  itc_Hostname : string;
}.
#[global] Instance CephDeploymentIngressTLSConfig_eq_dec : EqDecision CephDeploymentIngressTLSConfig.
Proof. solve_decision. Defined.
Definition set_itc_TLSCerts (v : option (string * string * string)) (x : CephDeploymentIngressTLSConfig) : CephDeploymentIngressTLSConfig := mkIngressTLS (itc_TLSSecretRefName x) (itc_Domain x) v (itc_Hostname x).

Record CephDeploymentIngressConfig := mkIngressConfig {
  icf_ControllerClassName : string;
  icf_Annotations : gmap string string;
  icf_TLSConfig : option CephDeploymentIngressTLSConfig;
}.
#[global] Instance CephDeploymentIngressConfig_eq_dec : EqDecision CephDeploymentIngressConfig.
Proof. solve_decision. Defined.
Definition set_icf_ControllerClassName (v : string) (x : CephDeploymentIngressConfig) : CephDeploymentIngressConfig := mkIngressConfig v (icf_Annotations x) (icf_TLSConfig x).
Definition set_icf_Annotations (v : gmap string string) (x : CephDeploymentIngressConfig) : CephDeploymentIngressConfig := mkIngressConfig (icf_ControllerClassName x) v (icf_TLSConfig x).
Definition set_icf_TLSConfig (v : option CephDeploymentIngressTLSConfig) (x : CephDeploymentIngressConfig) : CephDeploymentIngressConfig := mkIngressConfig (icf_ControllerClassName x) (icf_Annotations x) v.

(** [BlockStorage] and [SharedFilesystem] hold one list each and are given by it. *)
Record CephDeploymentSpec := mkDplSpec {
  dsp_Cluster : option (RawExtension ClusterSpec);
  dsp_BlockStorage : option (list CephPool);
  dsp_Clients : list CephClient;
  dsp_ExtraOpts : option CephDeploymentExtraOpts;
  dsp_Nodes : list CephDeploymentNode;
  dsp_ObjectStorage : option CephObjectStorage;
  dsp_RBDMirror : option CephRBDMirrorSpec;
  dsp_RookConfig : gmap string string;
  dsp_SharedFilesystem : option (list DplFilesystem);
  dsp_CSIResources : option CephCSI;
  dsp_OldClients : list (RawExtension ClientSpec);
  dsp_IngressConfig : option CephDeploymentIngressConfig;
}.
#[global] Instance CephDeploymentSpec_eq_dec : EqDecision CephDeploymentSpec.
Proof. solve_decision. Defined.
Definition set_dsp_Clients (v : list CephClient) (x : CephDeploymentSpec) : CephDeploymentSpec := mkDplSpec (dsp_Cluster x) (dsp_BlockStorage x) v (dsp_ExtraOpts x) (dsp_Nodes x) (dsp_ObjectStorage x) (dsp_RBDMirror x) (dsp_RookConfig x) (dsp_SharedFilesystem x) (dsp_CSIResources x) (dsp_OldClients x) (dsp_IngressConfig x).
Definition set_dsp_OldClients (v : list (RawExtension ClientSpec)) (x : CephDeploymentSpec) : CephDeploymentSpec := mkDplSpec (dsp_Cluster x) (dsp_BlockStorage x) (dsp_Clients x) (dsp_ExtraOpts x) (dsp_Nodes x) (dsp_ObjectStorage x) (dsp_RBDMirror x) (dsp_RookConfig x) (dsp_SharedFilesystem x) (dsp_CSIResources x) v (dsp_IngressConfig x).
Definition set_dsp_Nodes (v : list CephDeploymentNode) (x : CephDeploymentSpec) : CephDeploymentSpec := mkDplSpec (dsp_Cluster x) (dsp_BlockStorage x) (dsp_Clients x) (dsp_ExtraOpts x) v (dsp_ObjectStorage x) (dsp_RBDMirror x) (dsp_RookConfig x) (dsp_SharedFilesystem x) (dsp_CSIResources x) (dsp_OldClients x) (dsp_IngressConfig x).
Definition set_dsp_Cluster (v : option (RawExtension ClusterSpec)) (x : CephDeploymentSpec) : CephDeploymentSpec := mkDplSpec v (dsp_BlockStorage x) (dsp_Clients x) (dsp_ExtraOpts x) (dsp_Nodes x) (dsp_ObjectStorage x) (dsp_RBDMirror x) (dsp_RookConfig x) (dsp_SharedFilesystem x) (dsp_CSIResources x) (dsp_OldClients x) (dsp_IngressConfig x).
Definition set_dsp_ObjectStorage (v : option CephObjectStorage) (x : CephDeploymentSpec) : CephDeploymentSpec := mkDplSpec (dsp_Cluster x) (dsp_BlockStorage x) (dsp_Clients x) (dsp_ExtraOpts x) (dsp_Nodes x) v (dsp_RBDMirror x) (dsp_RookConfig x) (dsp_SharedFilesystem x) (dsp_CSIResources x) (dsp_OldClients x) (dsp_IngressConfig x).

(** [PhaseUnset] is the empty string. *)
Inductive CephDeploymentPhase :=
| PhaseUnset
| PhaseCreating
| PhaseDeploying
| PhaseValidation
| PhaseReady
| PhaseOnHold
| PhaseMaintenance
| PhaseDeleting
| PhaseFailed.
#[global] Instance CephDeploymentPhase_eq_dec : EqDecision CephDeploymentPhase.
Proof. solve_decision. Defined.

Inductive ValidationResult :=
| ValidationUnset
| ValidationFailed
| ValidationSucceed.
#[global] Instance ValidationResult_eq_dec : EqDecision ValidationResult.
Proof. solve_decision. Defined.

Record CephDeploymentValidation := mkValidation {
  val_Result : ValidationResult;
  val_LastValidatedGeneration : Z;
  val_Messages : list string;
}.
#[global] Instance CephDeploymentValidation_eq_dec : EqDecision CephDeploymentValidation.
Proof. solve_decision. Defined.

(** A reference to an object of the API group of Pelagia. *)
Record ObjectReference := mkObjectReference {
  orf_Kind : string;
  orf_Name : string;
  orf_Namespace : string;
}.
#[global] Instance ObjectReference_eq_dec : EqDecision ObjectReference.
Proof. solve_decision. Defined.

Record CephDeploymentStatus := mkDplStatus {
  dst_Phase : CephDeploymentPhase;
  dst_Message : string;
  dst_Validation : CephDeploymentValidation;
  dst_ClusterVersion : string;
  dst_LastRun : string;
  dst_ObjectsRefs : list ObjectReference;
}.
#[global] Instance CephDeploymentStatus_eq_dec : EqDecision CephDeploymentStatus.
Proof. solve_decision. Defined.
Definition set_dst_Phase (v : CephDeploymentPhase) (x : CephDeploymentStatus) : CephDeploymentStatus := mkDplStatus v (dst_Message x) (dst_Validation x) (dst_ClusterVersion x) (dst_LastRun x) (dst_ObjectsRefs x).
Definition set_dst_Message (v : string) (x : CephDeploymentStatus) : CephDeploymentStatus := mkDplStatus (dst_Phase x) v (dst_Validation x) (dst_ClusterVersion x) (dst_LastRun x) (dst_ObjectsRefs x).
Definition set_dst_Validation (v : CephDeploymentValidation) (x : CephDeploymentStatus) : CephDeploymentStatus := mkDplStatus (dst_Phase x) (dst_Message x) v (dst_ClusterVersion x) (dst_LastRun x) (dst_ObjectsRefs x).
Definition set_dst_ClusterVersion (v : string) (x : CephDeploymentStatus) : CephDeploymentStatus := mkDplStatus (dst_Phase x) (dst_Message x) (dst_Validation x) v (dst_LastRun x) (dst_ObjectsRefs x).
Definition set_dst_LastRun (v : string) (x : CephDeploymentStatus) : CephDeploymentStatus := mkDplStatus (dst_Phase x) (dst_Message x) (dst_Validation x) (dst_ClusterVersion x) v (dst_ObjectsRefs x).
Definition set_dst_ObjectsRefs (v : list ObjectReference) (x : CephDeploymentStatus) : CephDeploymentStatus := mkDplStatus (dst_Phase x) (dst_Message x) (dst_Validation x) (dst_ClusterVersion x) (dst_LastRun x) v.

Record CephDeployment := mkDpl {
  cdp_Name : string;
  cdp_Namespace : string;
  cdp_Generation : Z;
  cdp_Labels : gmap string string;
  cdp_Finalizers : list string;
  cdp_DeletionTimestamp : option Z;
  cdp_Spec : CephDeploymentSpec;
  cdp_Status : CephDeploymentStatus;
  cdp_UID : string;
}.
#[global] Instance CephDeployment_eq_dec : EqDecision CephDeployment.
Proof. solve_decision. Defined.
Definition set_cdp_Finalizers (v : list string) (x : CephDeployment) : CephDeployment := mkDpl (cdp_Name x) (cdp_Namespace x) (cdp_Generation x) (cdp_Labels x) v (cdp_DeletionTimestamp x) (cdp_Spec x) (cdp_Status x) (cdp_UID x).
Definition set_cdp_Spec (v : CephDeploymentSpec) (x : CephDeployment) : CephDeployment := mkDpl (cdp_Name x) (cdp_Namespace x) (cdp_Generation x) (cdp_Labels x) (cdp_Finalizers x) (cdp_DeletionTimestamp x) v (cdp_Status x) (cdp_UID x).
Definition set_cdp_Status (v : CephDeploymentStatus) (x : CephDeployment) : CephDeployment := mkDpl (cdp_Name x) (cdp_Namespace x) (cdp_Generation x) (cdp_Labels x) (cdp_Finalizers x) (cdp_DeletionTimestamp x) (cdp_Spec x) v (cdp_UID x).
Definition set_cdp_Labels (v : gmap string string) (x : CephDeployment) : CephDeployment := mkDpl (cdp_Name x) (cdp_Namespace x) (cdp_Generation x) v (cdp_Finalizers x) (cdp_DeletionTimestamp x) (cdp_Spec x) (cdp_Status x) (cdp_UID x).

(** ** Versions of Ceph *)

Record CephVersion := mkVersion {
  ver_Name : string;
  ver_MajorVersion : string;
  ver_MinorVersion : Z;
  ver_Order : Z;
  ver_SupportedMinors : list Z;
}.
#[global] Instance CephVersion_eq_dec : EqDecision CephVersion.
Proof. solve_decision. Defined.

(** ** CephCluster, as the deployment controller changes it *)

(** [cephv1.CephCluster]: metadata, spec, and of its status image and version of Ceph ([status.version]), the version the keys of monitors were made by, the health, which is missing before the first check, state and phase. *)
Record RookCluster := mkRookCluster {
  rkc_Name : string;
  rkc_Namespace : string;
  rkc_UID : string;
  rkc_Labels : gmap string string;
  rkc_Annotations : gmap string string;
  rkc_Spec : ClusterSpec;
  rkc_StatusVersion : option (string * string);
  rkc_MonKeyVersion : string;
  rkc_Health : option string;
  rkc_State : string;
  rkc_Phase : string;
}.
#[global] Instance RookCluster_eq_dec : EqDecision RookCluster.
Proof. solve_decision. Defined.
Definition set_rkc_Labels (v : gmap string string) (x : RookCluster) : RookCluster := mkRookCluster (rkc_Name x) (rkc_Namespace x) (rkc_UID x) v (rkc_Annotations x) (rkc_Spec x) (rkc_StatusVersion x) (rkc_MonKeyVersion x) (rkc_Health x) (rkc_State x) (rkc_Phase x).
Definition set_rkc_Annotations (v : gmap string string) (x : RookCluster) : RookCluster := mkRookCluster (rkc_Name x) (rkc_Namespace x) (rkc_UID x) (rkc_Labels x) v (rkc_Spec x) (rkc_StatusVersion x) (rkc_MonKeyVersion x) (rkc_Health x) (rkc_State x) (rkc_Phase x).
Definition set_rkc_Spec (v : ClusterSpec) (x : RookCluster) : RookCluster := mkRookCluster (rkc_Name x) (rkc_Namespace x) (rkc_UID x) (rkc_Labels x) (rkc_Annotations x) v (rkc_StatusVersion x) (rkc_MonKeyVersion x) (rkc_Health x) (rkc_State x) (rkc_Phase x).

Definition rkc_Image (x : RookCluster) : string := csp_Image (rkc_Spec x).
Definition rkc_SpecAnnotations (x : RookCluster) : gmap string (gmap string string) := csp_Annotations (rkc_Spec x).
Definition rkc_CephX (x : RookCluster) : CephxConfig := csp_CephX (rkc_Spec x).
Definition rkc_StorageNodes (x : RookCluster) : list CephNode := sts_Nodes (csp_Storage (rkc_Spec x)).
Definition set_rkc_Image (v : string) (x : RookCluster) : RookCluster := set_rkc_Spec (set_csp_Image v (rkc_Spec x)) x.
Definition set_rkc_HostNetwork (v : bool) (x : RookCluster) : RookCluster :=
  set_rkc_Spec (set_csp_Network (set_ns_HostNetwork v (csp_Network (rkc_Spec x))) (rkc_Spec x)) x.
Definition set_rkc_SpecAnnotations (v : gmap string (gmap string string)) (x : RookCluster) : RookCluster :=
  set_rkc_Spec (set_csp_Annotations v (rkc_Spec x)) x.
Definition set_rkc_CephX (v : CephxConfig) (x : RookCluster) : RookCluster := set_rkc_Spec (set_csp_CephX v (rkc_Spec x)) x.
Definition set_rkc_CleanupConfirmation (v : string) (x : RookCluster) : RookCluster :=
  set_rkc_Spec (set_csp_CleanupConfirmation v (rkc_Spec x)) x.
Definition set_rkc_AllowUninstallWithVolumes (v : bool) (x : RookCluster) : RookCluster :=
  set_rkc_Spec (set_csp_AllowUninstallWithVolumes v (rkc_Spec x)) x.

(** ** Objects of Rook and Kubernetes that are created, changed and removed

    A status is given by its phase, and missing ones are [None].  Labels of [None] are the
    nil map. *)

(** [cephv1.CephBlockPool]; [bpo_SpecName] is the name a builtin pool has in Ceph. *)
Record BlockPool := mkBlockPool {
  bpo_Name : string;
  bpo_Namespace : string;
  bpo_Labels : option (gmap string string);
  bpo_Annotations : gmap string string;
  bpo_SpecName : string;
  bpo_Spec : PoolSpec;
  bpo_Phase : option string;
}.
#[global] Instance BlockPool_eq_dec : EqDecision BlockPool.
Proof. solve_decision. Defined.
Definition set_bpo_Labels (v : option (gmap string string)) (x : BlockPool) : BlockPool := mkBlockPool (bpo_Name x) (bpo_Namespace x) v (bpo_Annotations x) (bpo_SpecName x) (bpo_Spec x) (bpo_Phase x).

(** [storagev1.StorageClass] *)
Record StorageClass := mkStorageClass {
  sto_Name : string;
  sto_Labels : option (gmap string string);
  sto_Annotations : option (gmap string string);
  sto_Provisioner : string;
  sto_Parameters : gmap string string;
  sto_ReclaimPolicy : option string;
  sto_AllowVolumeExpansion : option bool;
}.
#[global] Instance StorageClass_eq_dec : EqDecision StorageClass.
Proof. solve_decision. Defined.
Definition set_sto_Labels (v : option (gmap string string)) (x : StorageClass) : StorageClass := mkStorageClass (sto_Name x) v (sto_Annotations x) (sto_Provisioner x) (sto_Parameters x) (sto_ReclaimPolicy x) (sto_AllowVolumeExpansion x).
Definition set_sto_Annotations (v : option (gmap string string)) (x : StorageClass) : StorageClass := mkStorageClass (sto_Name x) (sto_Labels x) v (sto_Provisioner x) (sto_Parameters x) (sto_ReclaimPolicy x) (sto_AllowVolumeExpansion x).

(** [cephv1.CephFilesystem] *)
Record Filesystem := mkFilesystem {
  fso_Name : string;
  fso_Namespace : string;
  fso_Labels : option (gmap string string);
  fso_Spec : FilesystemSpec;
  fso_Phase : option string;
}.
#[global] Instance Filesystem_eq_dec : EqDecision Filesystem.
Proof. solve_decision. Defined.

(** [cephv1.CephClient] *)
Record RookClient := mkRookClient {
  rcl_Name : string;
  rcl_Namespace : string;
  rcl_Labels : option (gmap string string);
  rcl_Spec : ClientSpec;
  rcl_Phase : option string;
}.
#[global] Instance RookClient_eq_dec : EqDecision RookClient.
Proof. solve_decision. Defined.
Definition set_rcl_Labels (v : option (gmap string string)) (x : RookClient) : RookClient := mkRookClient (rcl_Name x) (rcl_Namespace x) v (rcl_Spec x) (rcl_Phase x).

(** A [v1.ConfigMap] or a [v1.Secret]. *)
Record DataObject := mkDataObject {
  dob_Name : string;
  dob_Namespace : string;
  dob_Labels : option (gmap string string);
  dob_Annotations : gmap string string;
  dob_OwnerReferences : list OwnerReference;
  dob_Data : gmap string string;
}.
#[global] Instance DataObject_eq_dec : EqDecision DataObject.
Proof. solve_decision. Defined.
Definition set_dob_Labels (v : option (gmap string string)) (x : DataObject) : DataObject := mkDataObject (dob_Name x) (dob_Namespace x) v (dob_Annotations x) (dob_OwnerReferences x) (dob_Data x).
Definition set_dob_Annotations (v : gmap string string) (x : DataObject) : DataObject := mkDataObject (dob_Name x) (dob_Namespace x) (dob_Labels x) v (dob_OwnerReferences x) (dob_Data x).
Definition set_dob_OwnerReferences (v : list OwnerReference) (x : DataObject) : DataObject := mkDataObject (dob_Name x) (dob_Namespace x) (dob_Labels x) (dob_Annotations x) v (dob_Data x).
Definition set_dob_Data (v : gmap string string) (x : DataObject) : DataObject := mkDataObject (dob_Name x) (dob_Namespace x) (dob_Labels x) (dob_Annotations x) (dob_OwnerReferences x) v.

Record RgwUserKeys := mkRgwUserKeys {
  ruk_AccessKey : string;
  ruk_SecretKey : string;
}.
#[global] Instance RgwUserKeys_eq_dec : EqDecision RgwUserKeys.
Proof. solve_decision. Defined.

Record CSIKeyring := mkCSIKeyring {
  ckr_NodeUser : string;
  ckr_NodeKey : string;
  ckr_ProvisionerUser : string;
  ckr_ProvisionerKey : string;
}.
#[global] Instance CSIKeyring_eq_dec : EqDecision CSIKeyring.
Proof. solve_decision. Defined.

(** What a client needs to know of a cluster. *)
Record CephConnection := mkConnection {
  cco_ClientName : string;
  cco_ClientKeyring : string;
  cco_FSID : string;
  cco_MonEndpoints : string;
  cco_RBDKeyring : option CSIKeyring;
  cco_CephFSKeyring : option CSIKeyring;
  cco_RgwAdminUserKeys : option RgwUserKeys;
}.
#[global] Instance CephConnection_eq_dec : EqDecision CephConnection.
Proof. solve_decision. Defined.

(** [networkingv1.NetworkPolicySpec] with one rule for incoming TCP connections: ports, or first and last port of a range, and the application of the selected pods; [nps_Rest] is what another spec has beyond that. *)
Record NetworkPolicySpec := mkNetworkPolicySpec {
  nps_Ports : list (Z * option Z);
  nps_App : string;
  nps_Rest : string;
}.
#[global] Instance NetworkPolicySpec_eq_dec : EqDecision NetworkPolicySpec.
Proof. solve_decision. Defined.

(** [networkingv1.NetworkPolicy] *)
Record NetworkPolicy := mkNetworkPolicy {
  npo_Name : string;
  npo_Namespace : string;
  npo_Labels : option (gmap string string);
  npo_Spec : NetworkPolicySpec;
}.
#[global] Instance NetworkPolicy_eq_dec : EqDecision NetworkPolicy.
Proof. solve_decision. Defined.
Definition set_npo_Labels (v : option (gmap string string)) (x : NetworkPolicy) : NetworkPolicy := mkNetworkPolicy (npo_Name x) (npo_Namespace x) v (npo_Spec x).
Definition set_npo_Spec (v : NetworkPolicySpec) (x : NetworkPolicy) : NetworkPolicy := mkNetworkPolicy (npo_Name x) (npo_Namespace x) (npo_Labels x) v.

(** [cephv1.CephObjectRealm] *)
Record RookRealm := mkRookRealm {
  rrm_Name : string;
  rrm_Namespace : string;
  rrm_Labels : option (gmap string string);
  rrm_Spec : ObjectRealmSpec;
}.
#[global] Instance RookRealm_eq_dec : EqDecision RookRealm.
Proof. solve_decision. Defined.
Definition set_rrm_Labels (v : option (gmap string string)) (x : RookRealm) : RookRealm := mkRookRealm (rrm_Name x) (rrm_Namespace x) v (rrm_Spec x).
Definition set_rrm_Spec (v : ObjectRealmSpec) (x : RookRealm) : RookRealm := mkRookRealm (rrm_Name x) (rrm_Namespace x) (rrm_Labels x) v.

(** [cephv1.CephObjectZoneGroup]; its spec is its realm. *)
Record RookZoneGroup := mkRookZoneGroup {
  rzg_Name : string;
  rzg_Namespace : string;
  rzg_Labels : option (gmap string string);
  rzg_Realm : string;
}.
#[global] Instance RookZoneGroup_eq_dec : EqDecision RookZoneGroup.
Proof. solve_decision. Defined.
Definition set_rzg_Labels (v : option (gmap string string)) (x : RookZoneGroup) : RookZoneGroup := mkRookZoneGroup (rzg_Name x) (rzg_Namespace x) v (rzg_Realm x).

(** [cephv1.CephObjectZone] *)
Record RookZone := mkRookZone {
  rzo_Name : string;
  rzo_Namespace : string;
  rzo_Labels : option (gmap string string);
  rzo_Spec : ObjectZoneSpec;
}.
#[global] Instance RookZone_eq_dec : EqDecision RookZone.
Proof. solve_decision. Defined.
Definition set_rzo_Labels (v : option (gmap string string)) (x : RookZone) : RookZone := mkRookZone (rzo_Name x) (rzo_Namespace x) v (rzo_Spec x).
Definition set_rzo_Spec (v : ObjectZoneSpec) (x : RookZone) : RookZone := mkRookZone (rzo_Name x) (rzo_Namespace x) (rzo_Labels x) v.

(** [cephv1.CephObjectStore] *)
Record RookStore := mkRookStore {
  rst_Name : string;
  rst_Namespace : string;
  rst_Labels : option (gmap string string);
  rst_Spec : ObjectStoreSpec;
  rst_Phase : option string;
}.
#[global] Instance RookStore_eq_dec : EqDecision RookStore.
Proof. solve_decision. Defined.
Definition set_rst_Labels (v : option (gmap string string)) (x : RookStore) : RookStore := mkRookStore (rst_Name x) (rst_Namespace x) v (rst_Spec x) (rst_Phase x).
Definition set_rst_Spec (v : ObjectStoreSpec) (x : RookStore) : RookStore := mkRookStore (rst_Name x) (rst_Namespace x) (rst_Labels x) v (rst_Phase x).

(** [cephv1.CephObjectStoreUser] with the information of its status *)
Record RookUser := mkRookUser {
  rus_Name : string;
  rus_Namespace : string;
  rus_Labels : option (gmap string string);
  rus_Spec : ObjectStoreUserSpec;
  rus_Phase : option string;
  rus_Info : gmap string string;
}.
#[global] Instance RookUser_eq_dec : EqDecision RookUser.
Proof. solve_decision. Defined.
Definition set_rus_Labels (v : option (gmap string string)) (x : RookUser) : RookUser := mkRookUser (rus_Name x) (rus_Namespace x) v (rus_Spec x) (rus_Phase x) (rus_Info x).
Definition set_rus_Spec (v : ObjectStoreUserSpec) (x : RookUser) : RookUser := mkRookUser (rus_Name x) (rus_Namespace x) (rus_Labels x) v (rus_Phase x) (rus_Info x).

(** [v1.ServicePort] with a number as the target. *)
Record ServicePort := mkServicePort {
  svp_Name : string;
  svp_Port : Z;
  svp_Protocol : string;
  svp_TargetPort : Z;
}.
#[global] Instance ServicePort_eq_dec : EqDecision ServicePort.
Proof. solve_decision. Defined.
Definition set_svp_Name (v : string) (x : ServicePort) : ServicePort := mkServicePort v (svp_Port x) (svp_Protocol x) (svp_TargetPort x).
Definition set_svp_TargetPort (v : Z) (x : ServicePort) : ServicePort := mkServicePort (svp_Name x) (svp_Port x) (svp_Protocol x) v.

(** [v1.Service] *)
Record Service := mkService {
  svc_Name : string;
  svc_Namespace : string;
  svc_Labels : option (gmap string string);
  svc_Ports : list ServicePort;
  svc_Selector : gmap string string;
  svc_Type : string;
  svc_SessionAffinity : string;
}.
#[global] Instance Service_eq_dec : EqDecision Service.
Proof. solve_decision. Defined.
Definition set_svc_Labels (v : option (gmap string string)) (x : Service) : Service := mkService (svc_Name x) (svc_Namespace x) v (svc_Ports x) (svc_Selector x) (svc_Type x) (svc_SessionAffinity x).
Definition set_svc_Ports (v : list ServicePort) (x : Service) : Service := mkService (svc_Name x) (svc_Namespace x) (svc_Labels x) v (svc_Selector x) (svc_Type x) (svc_SessionAffinity x).

(** [gatewayapi.HTTPRoute] *)
Record HTTPRoute := mkHTTPRoute {
  htr_Name : string;
  htr_Namespace : string;
  htr_Labels : option (gmap string string);
  htr_Spec : HTTPRouteSpec;
}.
#[global] Instance HTTPRoute_eq_dec : EqDecision HTTPRoute.
Proof. solve_decision. Defined.
Definition set_htr_Labels (v : option (gmap string string)) (x : HTTPRoute) : HTTPRoute := mkHTTPRoute (htr_Name x) (htr_Namespace x) v (htr_Spec x).
Definition set_htr_Spec (v : HTTPRouteSpec) (x : HTTPRoute) : HTTPRoute := mkHTTPRoute (htr_Name x) (htr_Namespace x) (htr_Labels x) v.

(** [cephv1.CephRBDMirror] *)
Record RookMirror := mkRookMirror {
  rmi_Name : string;
  rmi_Namespace : string;
  rmi_Labels : option (gmap string string);
  rmi_Count : Z;
  rmi_SecretNames : list string;
  rmi_Rest : string;
  rmi_Phase : option string;
}.
#[global] Instance RookMirror_eq_dec : EqDecision RookMirror.
Proof. solve_decision. Defined.
Definition set_rmi_Labels (v : option (gmap string string)) (x : RookMirror) : RookMirror := mkRookMirror (rmi_Name x) (rmi_Namespace x) v (rmi_Count x) (rmi_SecretNames x) (rmi_Rest x) (rmi_Phase x).

(** [vsapi.VolumeSnapshotClass] *)
Record SnapshotClass := mkSnapshotClass {
  vsc_Name : string;
  vsc_Labels : option (gmap string string);
  vsc_Driver : string;
  vsc_Parameters : gmap string string;
  vsc_DeletionPolicy : string;
}.
#[global] Instance SnapshotClass_eq_dec : EqDecision SnapshotClass.
Proof. solve_decision. Defined.
Definition set_vsc_Labels (v : option (gmap string string)) (x : SnapshotClass) : SnapshotClass := mkSnapshotClass (vsc_Name x) v (vsc_Driver x) (vsc_Parameters x) (vsc_DeletionPolicy x).

(** [csiopapi.Driver] *)
Record CsiDriver := mkCsiDriver {
  cdv_Name : string;
  cdv_Namespace : string;
  cdv_Labels : option (gmap string string);
  cdv_Spec : DriverSpec;
}.
#[global] Instance CsiDriver_eq_dec : EqDecision CsiDriver.
Proof. solve_decision. Defined.
Definition set_cdv_Labels (v : option (gmap string string)) (x : CsiDriver) : CsiDriver := mkCsiDriver (cdv_Name x) (cdv_Namespace x) v (cdv_Spec x).
Definition set_cdv_Spec (v : DriverSpec) (x : CsiDriver) : CsiDriver := mkCsiDriver (cdv_Name x) (cdv_Namespace x) (cdv_Labels x) v.

(** [csiopapi.OperatorConfig] *)
Record CsiOperatorConfig := mkCsiOperatorConfig {
  cof_Name : string;
  cof_Namespace : string;
  cof_Labels : option (gmap string string);
  cof_Spec : OperatorConfigSpec;
}.
#[global] Instance CsiOperatorConfig_eq_dec : EqDecision CsiOperatorConfig.
Proof. solve_decision. Defined.
Definition set_cof_Labels (v : option (gmap string string)) (x : CsiOperatorConfig) : CsiOperatorConfig := mkCsiOperatorConfig (cof_Name x) (cof_Namespace x) v (cof_Spec x).
Definition set_cof_Spec (v : OperatorConfigSpec) (x : CsiOperatorConfig) : CsiOperatorConfig := mkCsiOperatorConfig (cof_Name x) (cof_Namespace x) (cof_Labels x) v.

(** [networkingv1.IngressRule] with one path. *)
Record IngressRule := mkIngressRule {
  inr_Host : string;
  inr_Path : string;
  inr_PathType : string;
  inr_Service : string;
  inr_PortName : string;
}.
#[global] Instance IngressRule_eq_dec : EqDecision IngressRule.
Proof. solve_decision. Defined.

(** [networkingv1.IngressSpec]; hosts and secrets of TLS. *)
Record IngressSpec := mkIngressSpec {
  ins_Rules : list IngressRule;
  ins_TLS : list (list string * string);
  ins_Rest : string;
}.
#[global] Instance IngressSpec_eq_dec : EqDecision IngressSpec.
Proof. solve_decision. Defined.

(** [networkingv1.Ingress] *)
Record Ingress := mkIngress {
  ing_Name : string;
  ing_Namespace : string;
  ing_Labels : option (gmap string string);
  ing_Annotations : gmap string string;
  ing_Spec : IngressSpec;
}.
#[global] Instance Ingress_eq_dec : EqDecision Ingress.
Proof. solve_decision. Defined.
Definition set_ing_Labels (v : option (gmap string string)) (x : Ingress) : Ingress := mkIngress (ing_Name x) (ing_Namespace x) v (ing_Annotations x) (ing_Spec x).
Definition set_ing_Annotations (v : gmap string string) (x : Ingress) : Ingress := mkIngress (ing_Name x) (ing_Namespace x) (ing_Labels x) v (ing_Spec x).
Definition set_ing_Spec (v : IngressSpec) (x : Ingress) : Ingress := mkIngress (ing_Name x) (ing_Namespace x) (ing_Labels x) (ing_Annotations x) v.

(** ** Pods and what runs them *)

Inductive env_source :=
| EnvField (apiVersion path : string)
| EnvSecretKey (secret key : string)
| EnvOther (text : string).
#[global] Instance env_source_eq_dec : EqDecision env_source.
Proof. solve_decision. Defined.

Record EnvVar := mkEnvVar {
  env_Name : string;
  env_Value : string;
  env_ValueFrom : option env_source;
}.
#[global] Instance EnvVar_eq_dec : EqDecision EnvVar.
Proof. solve_decision. Defined.

Record VolumeMount := mkVolumeMount {
  vmt_Name : string;
  vmt_MountPath : string;
  vmt_ReadOnly : bool;
}.
#[global] Instance VolumeMount_eq_dec : EqDecision VolumeMount.
Proof. solve_decision. Defined.

Record SecurityContext := mkSecurityContext {
  sec_Drop : list string;
  sec_Privileged : option bool;
  sec_RunAsUser : option Z;
  sec_RunAsGroup : option Z;
  sec_RunAsNonRoot : option bool;
  sec_AllowPrivilegeEscalation : option bool;
}.
#[global] Instance SecurityContext_eq_dec : EqDecision SecurityContext.
Proof. solve_decision. Defined.

Record ExecProbe := mkExecProbe {
  xpr_Command : list string;
  xpr_InitialDelaySeconds : Z;
  xpr_PeriodSeconds : Z;
  xpr_TimeoutSeconds : Z;
  xpr_SuccessThreshold : Z;
  xpr_FailureThreshold : Z;
}.
#[global] Instance ExecProbe_eq_dec : EqDecision ExecProbe.
Proof. solve_decision. Defined.

(** [v1.Container] *)
Record Container := mkContainer {
  ctr_Name : string;
  ctr_Image : string;
  ctr_Command : list string;
  ctr_Args : list string;
  ctr_SecurityContext : option SecurityContext;
  ctr_VolumeMounts : list VolumeMount;
  ctr_Env : list EnvVar;
  ctr_LivenessProbe : option ExecProbe;
  ctr_ReadinessProbe : option ExecProbe;
  ctr_TerminationMessagePath : string;
  ctr_TerminationMessagePolicy : string;
  ctr_ImagePullPolicy : string;
  ctr_Rest : string;
}.
#[global] Instance Container_eq_dec : EqDecision Container.
Proof. solve_decision. Defined.
Definition set_ctr_VolumeMounts (v : list VolumeMount) (x : Container) : Container := mkContainer (ctr_Name x) (ctr_Image x) (ctr_Command x) (ctr_Args x) (ctr_SecurityContext x) v (ctr_Env x) (ctr_LivenessProbe x) (ctr_ReadinessProbe x) (ctr_TerminationMessagePath x) (ctr_TerminationMessagePolicy x) (ctr_ImagePullPolicy x) (ctr_Rest x).
Definition set_ctr_Env (v : list EnvVar) (x : Container) : Container := mkContainer (ctr_Name x) (ctr_Image x) (ctr_Command x) (ctr_Args x) (ctr_SecurityContext x) (ctr_VolumeMounts x) v (ctr_LivenessProbe x) (ctr_ReadinessProbe x) (ctr_TerminationMessagePath x) (ctr_TerminationMessagePolicy x) (ctr_ImagePullPolicy x) (ctr_Rest x).

Record KeyToPath := mkKeyToPath {
  ktp_Key : string;
  ktp_Path : string;
  ktp_Mode : option Z;
}.
#[global] Instance KeyToPath_eq_dec : EqDecision KeyToPath.
Proof. solve_decision. Defined.

(** [v1.VolumeSource] *)
Inductive volume_source :=
| EmptyDirVolume
| HostPathVolume (path type : string)
| SecretVolume (name : string) (mode : option Z) (items : list KeyToPath)
| ConfigMapVolume (name : string) (mode : option Z) (items : list KeyToPath)
| ProjectedSecrets (sources : list (string * list KeyToPath))
| OtherVolume (text : string).
#[global] Instance volume_source_eq_dec : EqDecision volume_source.
Proof. solve_decision. Defined.

(** [v1.PodSpec]; [pod_RunAs] is user and group of the security context, volumes have names. *)
Record PodSpec := mkPodSpec {
  pod_DNSPolicy : string;
  pod_ServiceAccountName : string;
  pod_DeprecatedServiceAccount : string;
  pod_RunAs : option (Z * Z);
  pod_RestartPolicy : string;
  pod_TerminationGracePeriodSeconds : option Z;
  pod_InitContainers : list Container;
  pod_Containers : list Container;
  pod_NodeSelector : gmap string string;
  pod_Volumes : list (string * volume_source);
  pod_Tolerations : list toleration;
  pod_SchedulerName : string;
  pod_Rest : string;
}.
#[global] Instance PodSpec_eq_dec : EqDecision PodSpec.
Proof. solve_decision. Defined.
Definition set_pod_DNSPolicy (v : string) (x : PodSpec) : PodSpec := mkPodSpec v (pod_ServiceAccountName x) (pod_DeprecatedServiceAccount x) (pod_RunAs x) (pod_RestartPolicy x) (pod_TerminationGracePeriodSeconds x) (pod_InitContainers x) (pod_Containers x) (pod_NodeSelector x) (pod_Volumes x) (pod_Tolerations x) (pod_SchedulerName x) (pod_Rest x).
Definition set_pod_ServiceAccountName (v : string) (x : PodSpec) : PodSpec := mkPodSpec (pod_DNSPolicy x) v (pod_DeprecatedServiceAccount x) (pod_RunAs x) (pod_RestartPolicy x) (pod_TerminationGracePeriodSeconds x) (pod_InitContainers x) (pod_Containers x) (pod_NodeSelector x) (pod_Volumes x) (pod_Tolerations x) (pod_SchedulerName x) (pod_Rest x).
Definition set_pod_DeprecatedServiceAccount (v : string) (x : PodSpec) : PodSpec := mkPodSpec (pod_DNSPolicy x) (pod_ServiceAccountName x) v (pod_RunAs x) (pod_RestartPolicy x) (pod_TerminationGracePeriodSeconds x) (pod_InitContainers x) (pod_Containers x) (pod_NodeSelector x) (pod_Volumes x) (pod_Tolerations x) (pod_SchedulerName x) (pod_Rest x).
Definition set_pod_InitContainers (v : list Container) (x : PodSpec) : PodSpec := mkPodSpec (pod_DNSPolicy x) (pod_ServiceAccountName x) (pod_DeprecatedServiceAccount x) (pod_RunAs x) (pod_RestartPolicy x) (pod_TerminationGracePeriodSeconds x) v (pod_Containers x) (pod_NodeSelector x) (pod_Volumes x) (pod_Tolerations x) (pod_SchedulerName x) (pod_Rest x).
Definition set_pod_Containers (v : list Container) (x : PodSpec) : PodSpec := mkPodSpec (pod_DNSPolicy x) (pod_ServiceAccountName x) (pod_DeprecatedServiceAccount x) (pod_RunAs x) (pod_RestartPolicy x) (pod_TerminationGracePeriodSeconds x) (pod_InitContainers x) v (pod_NodeSelector x) (pod_Volumes x) (pod_Tolerations x) (pod_SchedulerName x) (pod_Rest x).
Definition set_pod_Volumes (v : list (string * volume_source)) (x : PodSpec) : PodSpec := mkPodSpec (pod_DNSPolicy x) (pod_ServiceAccountName x) (pod_DeprecatedServiceAccount x) (pod_RunAs x) (pod_RestartPolicy x) (pod_TerminationGracePeriodSeconds x) (pod_InitContainers x) (pod_Containers x) (pod_NodeSelector x) v (pod_Tolerations x) (pod_SchedulerName x) (pod_Rest x).
Definition set_pod_Tolerations (v : list toleration) (x : PodSpec) : PodSpec := mkPodSpec (pod_DNSPolicy x) (pod_ServiceAccountName x) (pod_DeprecatedServiceAccount x) (pod_RunAs x) (pod_RestartPolicy x) (pod_TerminationGracePeriodSeconds x) (pod_InitContainers x) (pod_Containers x) (pod_NodeSelector x) (pod_Volumes x) v (pod_SchedulerName x) (pod_Rest x).
Definition set_pod_SchedulerName (v : string) (x : PodSpec) : PodSpec := mkPodSpec (pod_DNSPolicy x) (pod_ServiceAccountName x) (pod_DeprecatedServiceAccount x) (pod_RunAs x) (pod_RestartPolicy x) (pod_TerminationGracePeriodSeconds x) (pod_InitContainers x) (pod_Containers x) (pod_NodeSelector x) (pod_Volumes x) (pod_Tolerations x) v (pod_Rest x).

(** The specs of a Deployment and of a DaemonSet, with the template of their pods; the strategy by its text. *)
Record WorkloadSpec := mkWorkloadSpec {
  wls_Selector : gmap string string;
  wls_Replicas : option Z;
  wls_RevisionHistoryLimit : option Z;
  wls_MinReadySeconds : Z;
  wls_ProgressDeadlineSeconds : option Z;
  wls_Strategy : string;
  wls_PodLabels : gmap string string;
  wls_PodAnnotations : gmap string string;
  wls_Pod : PodSpec;
  wls_Rest : string;
}.
#[global] Instance WorkloadSpec_eq_dec : EqDecision WorkloadSpec.
Proof. solve_decision. Defined.
Definition set_wls_PodAnnotations (v : gmap string string) (x : WorkloadSpec) : WorkloadSpec := mkWorkloadSpec (wls_Selector x) (wls_Replicas x) (wls_RevisionHistoryLimit x) (wls_MinReadySeconds x) (wls_ProgressDeadlineSeconds x) (wls_Strategy x) (wls_PodLabels x) v (wls_Pod x) (wls_Rest x).
Definition set_wls_Pod (v : PodSpec) (x : WorkloadSpec) : WorkloadSpec := mkWorkloadSpec (wls_Selector x) (wls_Replicas x) (wls_RevisionHistoryLimit x) (wls_MinReadySeconds x) (wls_ProgressDeadlineSeconds x) (wls_Strategy x) (wls_PodLabels x) (wls_PodAnnotations x) v (wls_Rest x).

(** [apps.Deployment] or [apps.DaemonSet] *)
Record Workload := mkWorkload {
  wkl_Name : string;
  wkl_Namespace : string;
  wkl_Labels : option (gmap string string);
  wkl_OwnerReferences : list OwnerReference;
  wkl_Spec : WorkloadSpec;
}.
#[global] Instance Workload_eq_dec : EqDecision Workload.
Proof. solve_decision. Defined.
Definition set_wkl_Labels (v : option (gmap string string)) (x : Workload) : Workload := mkWorkload (wkl_Name x) (wkl_Namespace x) v (wkl_OwnerReferences x) (wkl_Spec x).
Definition set_wkl_OwnerReferences (v : list OwnerReference) (x : Workload) : Workload := mkWorkload (wkl_Name x) (wkl_Namespace x) (wkl_Labels x) v (wkl_Spec x).
Definition set_wkl_Spec (v : WorkloadSpec) (x : Workload) : Workload := mkWorkload (wkl_Name x) (wkl_Namespace x) (wkl_Labels x) (wkl_OwnerReferences x) v.

(** ** CephDeploymentSecret *)

Record CephDeploymentSecretInfo := mkSecretInfo {
  csn_ObjectName : string;
  csn_SecretName : string;
  csn_SecretNamespace : string;
}.
#[global] Instance CephDeploymentSecretInfo_eq_dec : EqDecision CephDeploymentSecretInfo.
Proof. solve_decision. Defined.

Record CephDeploymentSecretsInfo := mkSecretsInfo {
  csi_ClientSecrets : list CephDeploymentSecretInfo;
  csi_RgwUserSecrets : list CephDeploymentSecretInfo;
}.
#[global] Instance CephDeploymentSecretsInfo_eq_dec : EqDecision CephDeploymentSecretsInfo.
Proof. solve_decision. Defined.
Definition set_csi_ClientSecrets (v : list CephDeploymentSecretInfo) (x : CephDeploymentSecretsInfo) : CephDeploymentSecretsInfo := mkSecretsInfo v (csi_RgwUserSecrets x).
Definition set_csi_RgwUserSecrets (v : list CephDeploymentSecretInfo) (x : CephDeploymentSecretsInfo) : CephDeploymentSecretsInfo := mkSecretsInfo (csi_ClientSecrets x) v.

(** The state by its text. *)
Record CephDeploymentSecretStatus := mkSecretStatus {
  css_State : string;
  css_LastSecretUpdate : string;
  css_LastSecretCheck : string;
  css_SecretsInfo : option CephDeploymentSecretsInfo;
  css_Messages : list string;
}.
#[global] Instance CephDeploymentSecretStatus_eq_dec : EqDecision CephDeploymentSecretStatus.
Proof. solve_decision. Defined.
Definition set_css_LastSecretUpdate (v : string) (x : CephDeploymentSecretStatus) : CephDeploymentSecretStatus := mkSecretStatus (css_State x) v (css_LastSecretCheck x) (css_SecretsInfo x) (css_Messages x).
Definition set_css_LastSecretCheck (v : string) (x : CephDeploymentSecretStatus) : CephDeploymentSecretStatus := mkSecretStatus (css_State x) (css_LastSecretUpdate x) v (css_SecretsInfo x) (css_Messages x).

Record CephDeploymentSecret := mkDplSecret {
  cdx_Name : string;
  cdx_Namespace : string;
  cdx_OwnerReferences : list OwnerReference;
  cdx_Status : option CephDeploymentSecretStatus;
}.
#[global] Instance CephDeploymentSecret_eq_dec : EqDecision CephDeploymentSecret.
Proof. solve_decision. Defined.
Definition set_cdx_OwnerReferences (v : list OwnerReference) (x : CephDeploymentSecret) : CephDeploymentSecret := mkDplSecret (cdx_Name x) (cdx_Namespace x) v (cdx_Status x).
Definition set_cdx_Status (v : option CephDeploymentSecretStatus) (x : CephDeploymentSecret) : CephDeploymentSecret := mkDplSecret (cdx_Name x) (cdx_Namespace x) (cdx_OwnerReferences x) v.

Record OpenstackClientInfo := mkClientInfo {
  oci_Name : string;
  oci_ID : string;
  oci_Keyring : string;
  oci_Pools : list string;
}.
#[global] Instance OpenstackClientInfo_eq_dec : EqDecision OpenstackClientInfo.
Proof. solve_decision. Defined.
Definition set_oci_Pools (v : list string) (x : OpenstackClientInfo) : OpenstackClientInfo := mkClientInfo (oci_Name x) (oci_ID x) (oci_Keyring x) v.

Inductive resource :=
| RBlockPool (pool : BlockPool)
| RStorageClass (class : StorageClass)
| RFilesystem (fs : Filesystem)
| RClient (client : RookClient)
| RCluster (cluster : RookCluster)
| RConfigMap (cm : DataObject)
| RSecret (secret : DataObject)
| RNetworkPolicy (policy : NetworkPolicy)
| RRealm (realm : RookRealm)
| RZoneGroup (zoneGroup : RookZoneGroup)
| RZone (zone : RookZone)
| RStore (store : RookStore)
| RUser (user : RookUser)
| RService (service : Service)
| RHTTPRoute (route : HTTPRoute)
| RMirror (mirror : RookMirror)
(** a secret of type [RBDPeer] *)
| RPeerSecret (secret : DataObject)
| RSnapshotClass (class : SnapshotClass)
| RCsiDriver (driver : CsiDriver)
| RCsiConfig (config : CsiOperatorConfig)
| RIngress (ingress : Ingress)
| RWorkload (kind : string) (workload : Workload)
| RDplSecret (secret : CephDeploymentSecret)
(** its status *)
| RDplSecretStatus (secret : CephDeploymentSecret).
#[global] Instance resource_eq_dec : EqDecision resource.
Proof. solve_decision. Defined.

(** What is done with an object. *)
Inductive objectProcess := objectCreate | objectUpdate | objectDelete.
#[global] Instance objectProcess_eq_dec : EqDecision objectProcess.
Proof. solve_decision. Defined.
Definition objectProcess_str (p : objectProcess) : string :=
  match p with objectCreate => "create" | objectUpdate => "update" | objectDelete => "delete" end.

(** ** The state of the process and of a round *)

(** [resourceUpdateTimestamps] *)
Record updateTimestamps := mkStamps {
  ut_cephConfigMap : gmap string string;
  ut_rgwSSLCert : gmap string string;
  ut_rgwRuntimeParams : string;
  ut_osdRuntimeParams : string;
}.
#[global] Instance updateTimestamps_eq_dec : EqDecision updateTimestamps.
Proof. solve_decision. Defined.
Definition set_ut_cephConfigMap (v : gmap string string) (x : updateTimestamps) : updateTimestamps := mkStamps v (ut_rgwSSLCert x) (ut_rgwRuntimeParams x) (ut_osdRuntimeParams x).
Definition set_ut_rgwSSLCert (v : gmap string string) (x : updateTimestamps) : updateTimestamps := mkStamps (ut_cephConfigMap x) v (ut_rgwRuntimeParams x) (ut_osdRuntimeParams x).
Definition set_ut_rgwRuntimeParams (v : string) (x : updateTimestamps) : updateTimestamps := mkStamps (ut_cephConfigMap x) (ut_rgwSSLCert x) v (ut_osdRuntimeParams x).
Definition set_ut_osdRuntimeParams (v : string) (x : updateTimestamps) : updateTimestamps := mkStamps (ut_cephConfigMap x) (ut_rgwSSLCert x) (ut_rgwRuntimeParams x) v.

Definition zero_stamps : updateTimestamps := mkStamps ∅ ∅ "" "".

(** [cephDeploymentConfig.cdConfig], and of its [lcmConfig] the common parameters. *)
Record deployConfig := mkDeployConfig {
  dc_cephDpl : CephDeployment;
  dc_clusterSpec : option ClusterSpec;
  dc_openstackSetup : bool;
  dc_pools : list string;
  dc_nodesListExpanded : list CephDeploymentNode;
  dc_currentCephVersion : option CephVersion;
  dc_currentCephImage : string;
  dc_aes256kUpgrade : bool;
  dc_cephxConfigWithAes256k : option CephxConfig;
  dc_commonParams : CommonParams;
}.
#[global] Instance deployConfig_eq_dec : EqDecision deployConfig.
Proof. solve_decision. Defined.
Definition set_dc_cephDpl (v : CephDeployment) (x : deployConfig) : deployConfig := mkDeployConfig v (dc_clusterSpec x) (dc_openstackSetup x) (dc_pools x) (dc_nodesListExpanded x) (dc_currentCephVersion x) (dc_currentCephImage x) (dc_aes256kUpgrade x) (dc_cephxConfigWithAes256k x) (dc_commonParams x).
Definition set_dc_clusterSpec (v : option ClusterSpec) (x : deployConfig) : deployConfig := mkDeployConfig (dc_cephDpl x) v (dc_openstackSetup x) (dc_pools x) (dc_nodesListExpanded x) (dc_currentCephVersion x) (dc_currentCephImage x) (dc_aes256kUpgrade x) (dc_cephxConfigWithAes256k x) (dc_commonParams x).
Definition set_dc_openstackSetup (v : bool) (x : deployConfig) : deployConfig := mkDeployConfig (dc_cephDpl x) (dc_clusterSpec x) v (dc_pools x) (dc_nodesListExpanded x) (dc_currentCephVersion x) (dc_currentCephImage x) (dc_aes256kUpgrade x) (dc_cephxConfigWithAes256k x) (dc_commonParams x).
Definition set_dc_pools (v : list string) (x : deployConfig) : deployConfig := mkDeployConfig (dc_cephDpl x) (dc_clusterSpec x) (dc_openstackSetup x) v (dc_nodesListExpanded x) (dc_currentCephVersion x) (dc_currentCephImage x) (dc_aes256kUpgrade x) (dc_cephxConfigWithAes256k x) (dc_commonParams x).
Definition set_dc_nodesListExpanded (v : list CephDeploymentNode) (x : deployConfig) : deployConfig := mkDeployConfig (dc_cephDpl x) (dc_clusterSpec x) (dc_openstackSetup x) (dc_pools x) v (dc_currentCephVersion x) (dc_currentCephImage x) (dc_aes256kUpgrade x) (dc_cephxConfigWithAes256k x) (dc_commonParams x).
Definition set_dc_currentCephVersion (v : option CephVersion) (x : deployConfig) : deployConfig := mkDeployConfig (dc_cephDpl x) (dc_clusterSpec x) (dc_openstackSetup x) (dc_pools x) (dc_nodesListExpanded x) v (dc_currentCephImage x) (dc_aes256kUpgrade x) (dc_cephxConfigWithAes256k x) (dc_commonParams x).
Definition set_dc_currentCephImage (v : string) (x : deployConfig) : deployConfig := mkDeployConfig (dc_cephDpl x) (dc_clusterSpec x) (dc_openstackSetup x) (dc_pools x) (dc_nodesListExpanded x) (dc_currentCephVersion x) v (dc_aes256kUpgrade x) (dc_cephxConfigWithAes256k x) (dc_commonParams x).
Definition set_dc_aes256kUpgrade (v : bool) (x : deployConfig) : deployConfig := mkDeployConfig (dc_cephDpl x) (dc_clusterSpec x) (dc_openstackSetup x) (dc_pools x) (dc_nodesListExpanded x) (dc_currentCephVersion x) (dc_currentCephImage x) v (dc_cephxConfigWithAes256k x) (dc_commonParams x).
Definition set_dc_cephxConfigWithAes256k (v : option CephxConfig) (x : deployConfig) : deployConfig := mkDeployConfig (dc_cephDpl x) (dc_clusterSpec x) (dc_openstackSetup x) (dc_pools x) (dc_nodesListExpanded x) (dc_currentCephVersion x) (dc_currentCephImage x) (dc_aes256kUpgrade x) v (dc_commonParams x).
