(* ===== verification/World.v ===== *)
(** * The world of the OSD removal controller

    What the controller does outside its own memory: Ceph commands run in the
    toolbox pod, reports asked from the disk daemons, Kubernetes objects read,
    written and deleted, the clock and sleeping.  [event] records each
    interaction, [World] holds the answers (any function of the interactions so
    far), and the helpers of pkg/common that wrap such calls are translated on
    top of it: cli_utils.go, pod_exec.go ([RunPodCmdAndCheckError]),
    k8s_utils.go, and [RunFuncWithRetry] of general_utils.go.

    Not under src/ and hence parameters: the Kubernetes API and what runs behind
    it, the JSON decoder (one field per decoded type), the label-selector parser
    and the regular-expression engine. *)

From S2P Require Import Prelude GoTime Types HealthTypes DeployTypes.
Open Scope Z_scope.

(** ** Interactions *)

Inductive event :=
| EvCeph (ns cmd : string)
| EvDiskDaemon (ns node cmd : string)
| EvDeployGet (ns name : string)
| EvDeployScale (ns name : string) (replicas : Z)
| EvDeployDelete (ns name : string)
| EvJobGet (ns name : string)
| EvJobDelete (ns name : string)
| EvJobCreate (job : Job)
| EvNodeList
| EvClock
| EvSleep (d : Z)
| EvTaskGet (ns name : string)
| EvTaskList (ns : string)
| EvTaskUpdate (task : CephOsdRemoveTask)
| EvTaskDelete (ns name : string)
| EvTaskStatusUpdate (ns name : string) (status : CephOsdRemoveTaskStatus)
| EvHealthList (ns : string)
| EvHealthStatusUpdate (ns name : string) (status : CephDeploymentHealthStatus)
| EvRead (kind ns name : string)
| EvClusterGet (ns name : string)
| EvCreate (kind ns name : string)
| EvDelete (kind ns name : string)
| EvLabelsUpdate (kind ns name : string) (labels : gmap string string)
| EvImageUpdate (kind ns name image : string)
| EvNodeUpdate (node : K8sNode)
| EvClusterUpdate (cluster : RookCluster)
| EvDplList (ns : string)
| EvDplUpdate (dpl : CephDeployment)
| EvDplStatusUpdate (ns name : string) (status : CephDeploymentStatus)
| EvApply (process : objectProcess) (r : resource)
| EvPodExec (ns pod cmd : string)
| EvStamps (stamps : updateTimestamps)
| EvEnsure (what : string)
| EvRemove (what : string)
| EvDeploymentGet (ns name : string).

Abbreviation history := (list event).
Abbreviation IO := (M event).

(** What the API server keeps of a condition: the field [nodes] is written with
    [omitempty], so an empty map is read back as the nil map. *)
Definition stored_condition (cond : CephOsdRemoveTaskCondition) : CephOsdRemoveTaskCondition :=
  mkCondition (cond_Timestamp cond) (cond_Phase cond)
    (nodes ← cond_Nodes cond; if decide (nodes = ∅) then None else Some nodes)
    (cond_CephClusterSpecVersion cond).

Definition stored_status (s : CephOsdRemoveTaskStatus) : CephOsdRemoveTaskStatus :=
  mkTaskStatus (st_Phase s) (st_PhaseInfo s) (st_RemoveInfo s) (st_Messages s)
    (stored_condition <$> st_Conditions s).

Class World := {
  (** pod exec: standard output, standard error, error *)
  w_exec_ceph : history → string → string → string * string * option err;
  w_exec_daemon : history → string → string → string → string * string * option err;
  w_deploy_get : history → string → string → DeploymentStatus * option err;
  w_deploy_scale : history → string → string → Z → option err;
  w_deploy_delete : history → string → string → option err;
  w_job_get : history → string → string → JobStatus * option err;
  w_job_delete : history → string → string → option err;
  w_job_create : history → Job → option err;
  w_node_list : history → list K8sNode * option err;
  w_clock : history → Z;
  w_task_get : history → string → string → CephOsdRemoveTask * option err;
  w_task_list : history → string → list CephOsdRemoveTask * option err;
  w_task_update : history → CephOsdRemoveTask → option err;
  w_task_delete : history → string → string → option err;
  w_status_update : history → string → string → CephOsdRemoveTaskStatus → option err;
  w_health_list : history → string → list CephDeploymentHealth * option err;
  w_cluster_get : history → string → string → CephCluster * option err;
  w_deployment_get : history → string → string → CephDeploymentPhase * option err;
  (** encoding/json *)
  json_OsdInfo : string → OsdInfo * option err;
  json_OsdInfos : string → list OsdInfo * option err;
  json_OsdMetadata : string → list OsdMetadataInfo * option err;
  json_OsdTree : string → list OsdTreeNode * option err;
  json_PgStats : string → nat * option err;
  json_DaemonReport : string → DiskDaemonReport * option err;
  (** k8s.io/apimachinery/pkg/labels, package regexp *)
  labels_match : string → gmap string string → bool;
  regexp_match : string → string → bool;
  (** apiutil.GVKForObject: group/version, kind, error *)
  w_gvk_task : string * string * option err;
  w_gvk_health : string * string * option err;
  (** k8sutil.TruncateNodeName of Rook *)
  truncate_node_name : string → string → string;
}.

Section common.
Context `{World}.

(** ** general_utils.go *)

Definition GetCurrentTimeString : IO string :=
  call EvClock (λ h, FormatRFC3339 (w_clock h)).

(** [time.Since(start)] *)
Definition time_since (start : Z) : IO Z :=
  call EvClock (λ h, w_clock h - start).

Definition sleep (d : Z) : IO unit := call (EvSleep d) (λ _, tt).

(** The loop of [RunFuncWithRetry]: [tries] attempts are done, [left] remain,
    [output] and [e] are the results of the last one. *)
Fixpoint retry_loop {A} (times interval : Z) (f : IO (A * option err))
    (left : nat) (tries : Z) (output : A) (e : option err) : IO (A * option err) :=
  match left with
  | O => ret (output,
      (λ e, wrap_err ("Retries (" +:+ pretty tries +:+ "/" +:+ pretty times +:+ ") exceeded") e) <$> e)
  | S left' =>
      let* r := f in
      match r with
      | (output', None) => ret (output', None)
      | (output', Some e') =>
          match left' with
          | O => retry_loop times interval f left' (tries + 1) output' (Some e')
          | S _ => sleep interval ;;; retry_loop times interval f left' (tries + 1) output' (Some e')
          end
      end
  end.

(** [RunFuncWithRetry(times, interval, funcToRun)]; [zero] is the nil result. *)
Definition RunFuncWithRetry {A} (zero : A) (times : nat) (interval : Z)
    (funcToRun : IO (A * option err)) : IO (A * option err) :=
  retry_loop (Z.of_nat times) interval funcToRun times 0 zero None.

(** ** pod_exec.go, cli_utils.go *)

(** [RunPodCmdAndCheckError]: the error names the command, the node and the
    standard error; [exec] is [RunPodCommandWithValidation]. *)
Definition RunPodCmdAndCheckError (command nodename : string)
    (exec : IO (string * string * option err)) : IO (string * string * option err) :=
  let* r := exec in
  let '(stdOut, stdErr, e) := r in
  match e with
  | Some e' =>
      let msg := "failed to run command '" +:+ command +:+ "'" in
      let msg := if decide (nodename = "") then msg
                 else msg +:+ " on node '" +:+ nodename +:+ "'" in
      let msg := if decide (stdErr = "") then msg
                 else msg +:+ " (stdErr: " +:+ stdErr +:+ ")" in
      ret (stdOut, stdErr, Some (wrap_err msg e'))
  | None => ret (stdOut, stdErr, None)
  end.

Definition RunCephToolboxCLI (namespace command : string) : IO (string * option err) :=
  let* r := RunPodCmdAndCheckError command ""
              (call (EvCeph namespace command) (λ h, w_exec_ceph h namespace command)) in
  let '(output, _, e) := r in
  match e with
  | Some e' => ret (output, Some e')
  | None => ret (output, None)
  end.

Definition RunAndParseCephToolboxCLI {A} (zero : A) (decode : string → A * option err)
    (namespace command : string) : IO (A * option err) :=
  let* r := RunCephToolboxCLI namespace command in
  match r with
  | (_, Some e) => ret (zero, Some e)
  | (output, None) =>
      match decode output with
      | (data, Some e) =>
          ret (data, Some (wrap_err ("failed to parse output for command '" +:+ command +:+ "'") e))
      | (data, None) => ret (data, None)
      end
  end.

Definition RunAndParseDiskDaemonCLI {A} (zero : A) (decode : string → A * option err)
    (namespace nodeName command : string) : IO (A * option err) :=
  let* r := RunPodCmdAndCheckError command nodeName
              (call (EvDiskDaemon namespace nodeName command)
                 (λ h, w_exec_daemon h namespace nodeName command)) in
  match r with
  | (_, _, Some e) => ret (zero, Some e)
  | (output, _, None) =>
      match decode output with
      | (data, Some e) =>
          ret (data, Some (wrap_err ("failed to parse output for command '" +:+ command +:+ "'") e))
      | (data, None) => ret (data, None)
      end
  end.

(** ** k8s_utils.go *)

Definition ScaleDeployment (deployName namespace : string) (replicas : Z) : IO (option err) :=
  call (EvDeployScale namespace deployName replicas)
       (λ h, w_deploy_scale h namespace deployName replicas).

Definition GetNodeList : IO (list K8sNode * option err) := call EvNodeList w_node_list.

Definition GetObjectOwnerRef (gvk : string * string * option err) (name uid : string)
    : list OwnerReference * option err :=
  match gvk with
  | (_, _, Some e) => ([], Some (wrap_err "failed to get GVK for object" e))
  | (groupVersion, kind, None) => ([mkOwnerReference groupVersion kind name uid], None)
  end.

Definition JobConditionsFailed (jobStatus : JobStatus) : bool :=
  existsb (λ c, bool_decide (c = "Failed")) (js_Conditions jobStatus).

Definition TaintNodeUnreachable : string := "node.kubernetes.io/unreachable".
Definition TaintNodeUnschedulable : string := "node.kubernetes.io/unschedulable".
Definition TaintNodeNotReady : string := "node.kubernetes.io/not-ready".
Definition TaintNodeOutOfService : string := "node.kubernetes.io/out-of-service".

(** The loop of [IsNodeAvailable] over the taint keys. *)
Fixpoint check_taints (name : string) (taints : list string) : bool * string :=
  match taints with
  | [] => (true, EmptyString)
  | key :: taints' =>
      if decide (key ∈ [TaintNodeUnreachable; TaintNodeUnschedulable;
                        TaintNodeNotReady; TaintNodeOutOfService])
      then (false, "node '" +:+ name +:+ "' has '" +:+ key +:+ "' taint, assuming node is not available")
      else check_taints name taints'
  end.

Definition IsNodeAvailable (node : K8sNode) : bool * string :=
  check_taints (kn_Name node) (kn_Taints node).

(** ** lcm_utils.go *)

Definition IsNodeWithDiskDaemon (node : K8sNode) (lcmDiskDaemonLabel : string) : bool :=
  if decide (kn_Labels node = ∅) then false
  else labels_match lcmDiskDaemonLabel (kn_Labels node).
End common.

Definition PathDevPrepended (name : string) : string :=
  if HasPrefix name "/dev/" then name else "/dev/" +:+ name.

(** ** Facts about retrying *)

Section retry_facts.
Context {A : Type}.
Implicit Types f : IO (A * option err).

(** What an attempt promises of a success, retrying promises of a success; and
    it performs the attempts' interactions and sleeps. *)
Lemma retry_loop_spec (P : event → Prop) (Q : A → Prop) times interval f left tries out e :
  (∀ d, P (EvSleep d)) →
  spec P f (λ r, r.2 = None → Q r.1) →
  (e = None → Q out) →
  spec P (retry_loop times interval f left tries out e) (λ r, r.2 = None → Q r.1).
Proof.
  intros Hsleep Hf. revert tries out e.
  induction left as [|left IH]; intros tries out e He; simpl.
  { apply spec_ret. simpl. destruct e; simpl; [done|auto]. }
  eapply spec_bind; [apply Hf|]. intros [out' [e'|]] Hr; simpl in *; [|by apply spec_ret].
  destruct left; [by apply IH|].
  apply spec_bind_any; [by apply spec_call|]. intros _. by apply IH.
Qed.

Lemma RunFuncWithRetry_spec (P : event → Prop) (Q : A → Prop) zero times interval f :
  (times ≠ 0)%nat →
  (∀ d, P (EvSleep d)) →
  spec P f (λ r, r.2 = None → Q r.1) →
  spec P (RunFuncWithRetry zero times interval f) (λ r, r.2 = None → Q r.1).
Proof.
  intros Ht Hs Hf. unfold RunFuncWithRetry. destruct times as [|times]; [done|]. simpl.
  eapply spec_bind; [apply Hf|]. intros [out' [e'|]] Hr; simpl in *; [|by apply spec_ret].
  destruct times; [by apply retry_loop_spec|].
  apply spec_bind_any; [by apply spec_call|]. intros _. by apply retry_loop_spec.
Qed.

Lemma RunFuncWithRetry_emits (P : event → Prop) zero times interval f :
  (∀ d, P (EvSleep d)) →
  spec P f (λ _, True) →
  spec P (RunFuncWithRetry zero times interval f) (λ _, True).
Proof.
  intros Hs Hf. unfold RunFuncWithRetry. eapply spec_any, (retry_loop_spec P (λ _, True)); [done| |done].
  eapply spec_post; [apply Hf|done].
Qed.
End retry_facts.
