(* ===== verification/Helpers.v ===== *)
(** * Helpers of the OSD removal controller

    pkg/controller/osdremove-task/helpers.go and the pure helpers at the end of
    spec_handler.go: device information from OSD metadata and from the disk
    daemon, the devices a node's spec uses, the test whether an OSD lies on such
    a device, and the decision which disks may be zapped.  A function that can
    panic in Go (an index out of range) returns an [option], [None] standing for
    the panic. *)

From Stdlib Require Import Ascii.
From S2P Require Import Prelude GoTime Types World.
Open Scope Z_scope.

(** ** helpers.go *)

Definition isStrayOsdID (osdID : string) : bool := HasSuffix osdID StrayOsdNodeMarker.

(** [strings.Split(s, sep)[0]]: the result of [Split] is never empty. *)
Definition split_first (s : string) (sep : Ascii.ascii) : string :=
  match Split s sep with [] => EmptyString | w :: _ => w end.

Definition checkDisksOrPartition (osdDaemonInfo : OsdDaemonInfo) (lookForDev : string) : bool :=
  existsb (λ dev, bool_decide (PathDevPrepended lookForDev = od_Name dev) ||
                  Contains (od_DeviceSymlinks dev) lookForDev)
          (odi_Devices osdDaemonInfo) ||
  existsb (λ part, bool_decide (lookForDev = op_Partition part) ||
                   Contains (op_PartitionSymlinks part) lookForDev)
          (odi_Partitions osdDaemonInfo).

(** The closure [fillDevicePathOrID] of [fillDevicesInfoFromMetadata]. *)
Definition fillDevicePathOrID (byId : bool) (devices : gmap string DeviceInfo)
    (devArray : list string) : gmap string DeviceInfo :=
  foldl (λ devices dev,
    match Split dev "=" with
    | [name; value] =>
        let devName := PathDevPrepended name in
        match devices !! devName with
        | Some info =>
            <[devName := if byId then set_di_ID value info else set_di_Path value info]> devices
        | None => devices
        end
    | _ => devices
    end) devices devArray.

Definition fillDevicesInfoFromMetadata (osdMetadataInfo : OsdMetadataInfo)
    : gmap string DeviceInfo :=
  let blockDevice := PathDevPrepended (split_first (md_BluestoreDevices osdMetadataInfo) ",") in
  let devices : gmap string DeviceInfo :=
    {[ blockDevice :=
        mkDeviceInfo (bool_decide (md_BluestoreDeviceType osdMetadataInfo = "hdd"))
          "" "" (md_BluestorePartition osdMetadataInfo) "" "block" false false false ]} in
  let devices :=
    if decide (md_MetadataDiskUsed osdMetadataInfo = "1") then
      let dbDevice := PathDevPrepended (split_first (md_MetadataDevices osdMetadataInfo) ",") in
      <[dbDevice :=
          mkDeviceInfo (bool_decide (md_MetadataDeviceType osdMetadataInfo = "hdd"))
            "" "" (md_MetadataPartition osdMetadataInfo) "" "db" false false false]> devices
    else devices in
  let devices := fillDevicePathOrID false devices (Split (md_DevicePathes osdMetadataInfo) ",") in
  fillDevicePathOrID true devices (Split (md_DeviceIDs osdMetadataInfo) ",").

Record mappingConfig := mkMappingConfig {
  mc_nodeInSpec : bool;
  mc_nodeAvailable : bool;
  mc_host : string;
  mc_osdsToClean : list Z;
  mc_osdsMetadataFromCluster : list OsdMetadataInfo;
  mc_osdMetadataMap : gmap Z nat;
  mc_osdUUIDMap : gmap string string;
  mc_clusterFSID : string;
  mc_clusterNamespace : string;
  mc_clusterHostDir : string;
}.

(** [fmt.Sprintf("%s/%s/%s_%s", hostDir, namespace, fsid, uuid)] *)
Definition host_directory (hostDir namespace fsid uuid : string) : string :=
  hostDir +:+ "/" +:+ namespace +:+ "/" +:+ fsid +:+ "_" +:+ uuid.

(** [m[k]] on a map of strings: the empty string when [k] is missing. *)
Definition map_str (m : gmap string string) (k : string) : string := default EmptyString (m !! k).

(** One round of the loop of [fillOsdMappingFromOsdMeta]. *)
Definition fillOsdMapping_step (c : mappingConfig)
    (st : gmap string OsdMapping * list string) (osd : Z)
    : option (gmap string OsdMapping * list string) :=
  let '(osdMapping, warnings) := st in
  match mc_osdMetadataMap c !! osd with
  | Some osdMetaIdx =>
      meta ← mc_osdsMetadataFromCluster c !! osdMetaIdx;
      let deviceMapping := fillDevicesInfoFromMetadata meta in
      let deviceMapping :=
        if mc_nodeAvailable c then deviceMapping
        else set_di_Alive false <$> deviceMapping in
      let uuid := map_str (mc_osdUUIDMap c) (pretty osd) in
      Some (<[pretty osd :=
               mkOsdMapping uuid (mc_clusterFSID c)
                 (host_directory (mc_clusterHostDir c) (mc_clusterNamespace c) (mc_clusterFSID c) uuid)
                 true deviceMapping false None]> osdMapping, warnings)
  | None =>
      Some (osdMapping,
            warnings ++ ["[node '" +:+ mc_host c +:+ "'] node has no osd id '" +:+ pretty osd +:+ "', skipping"])
  end.

(** A loop over a slice whose body may panic. *)
Fixpoint foldo {A S} (f : S → A → option S) (s : S) (l : list A) : option S :=
  match l with
  | [] => Some s
  | a :: l' => s' ← f s a; foldo f s' l'
  end.

Definition fillOsdMappingFromOsdMeta (c : mappingConfig)
    : option (gmap string OsdMapping * list string) :=
  let warnings :=
    if mc_nodeAvailable c then
      ["[node '" +:+ mc_host c +:+ "'] node is available, but has no disk daemon running, device cleanup jobs will be skipped"]
    else if mc_nodeInSpec c then
      ["[node '" +:+ mc_host c +:+ "'] node is not available, but present in spec, device cleanup jobs will be skipped"]
    else
      ["[node '" +:+ mc_host c +:+ "'] node is not available, device cleanup jobs will be skipped"] in
  foldo (fillOsdMapping_step c) (∅, warnings) (mc_osdsToClean c).

Section with_range.
Context `{MapRange}.

Definition getReportWarningsInNodeFormat (hostMapping : HostMapping) (host : string)
    (reportWarnings : list string) : list string :=
  if hm_CompleteCleanup hostMapping || hm_DropFromCrush hostMapping then
    (λ warning, "[node '" +:+ host +:+ "'] " +:+ warning) <$> reportWarnings
  else
    '(osd, _) ← range 1 (hm_OsdMapping hostMapping);
    let osdID := if isStrayOsdID osd then split_first osd "." else osd in
    warning ← reportWarnings;
    if StrContains warning ("osd '" +:+ osdID +:+ "'")
    then ["[node '" +:+ host +:+ "'] " +:+ warning] else [].
End with_range.

(** ** spec_handler.go: devices *)

(** The symlink loop of [getDevsInfoFromDaemonInfo]: the first by-path link
    wins, otherwise the last link that is not an LVM one. *)
Fixpoint pick_dev_path (devPath : string) (symlinks : list string) : string :=
  match symlinks with
  | [] => devPath
  | symlink :: rest =>
      if HasPrefix symlink "/dev/disk/by-path/" then symlink
      else if HasPrefix symlink "/dev/disk/by-id/lvm" then pick_dev_path devPath rest
      else pick_dev_path symlink rest
  end.

Definition usage_type (parts : list OsdPartition) (related : string) : string :=
  match list_find (λ part, op_Partition part = related) parts with
  | Some (_, part) => op_Type part
  | None => EmptyString
  end.

Definition dev_info (osdDaemonInfo : OsdDaemonInfo) (dev : OsdDevice) : DeviceInfo :=
  let devPath := pick_dev_path (od_Name dev) (od_DeviceSymlinks dev) in
  let usageType := usage_type (odi_Partitions osdDaemonInfo) (od_RelatedPartition dev) in
  let deviceInfo :=
    mkDeviceInfo (od_Rotational dev) devPath (od_DeviceID dev) (od_RelatedPartition dev)
      (od_PartedBy dev) usageType false true (od_Raw dev) in
  if di_Raw deviceInfo
  then set_di_Partition (od_Name dev) (set_di_Type "block" deviceInfo)
  else deviceInfo.

Definition getDevsInfoFromDaemonInfo (osdDaemonInfo : OsdDaemonInfo) : gmap string DeviceInfo :=
  foldl (λ newInfo dev, <[od_Name dev := dev_info osdDaemonInfo dev]> newInfo) ∅
        (odi_Devices osdDaemonInfo).

Record usedDevices := mkUsedDevices {
  ud_DeviceFilter : string;
  ud_DevicePathFilter : string;
  ud_Devices : gmap string string;
}.
Definition zero_usedDevices : usedDevices := mkUsedDevices "" "" ∅.

Definition getListUsedDevices (node : CephNode) : usedDevices :=
  let devices : gmap string string :=
    match cn_Config node !! "metadataDevice" with
    | Some dev => {[ PathDevPrepended dev := "db" ]}
    | None => ∅
    end in
  match cn_Devices node with
  | [] => mkUsedDevices (cn_DeviceFilter node) (cn_DevicePathFilter node) devices
  | specDevices =>
      mkUsedDevices "" ""
        (foldl (λ devices device,
           let devices :=
             if decide (cd_Name device ≠ "") then <[PathDevPrepended (cd_Name device) := "block"]> devices
             else if decide (cd_FullPath device ≠ "") then <[cd_FullPath device := "block"]> devices
             else devices in
           let meta := map_str (cd_Config device) "metadataDevice" in
           if decide (meta ≠ "") then <[PathDevPrepended meta := "db"]> devices else devices)
         devices specDevices)
  end.

(** The two maps [inSpec] collects for the OSD's devices: usage type to device
    names and to partition names. *)
Definition inSpec_collect (osdDaemonInfo : OsdDaemonInfo) (lookForDev : string)
    : gmap string (list string) * gmap string (list string) :=
  foldl (λ '(devMapping, partMapping) dev,
    let devNames := [od_Name dev; PathDevPrepended (od_Name dev)] ++ od_DeviceSymlinks dev in
    let wanted names := Contains names (PathDevPrepended lookForDev) in
    if od_Raw dev then
      if bool_decide (lookForDev = "") || wanted devNames
      then (<["block" := devNames]> devMapping, partMapping)
      else (devMapping, partMapping)
    else
      match list_find (λ part, op_Partition part = od_RelatedPartition dev)
              (odi_Partitions osdDaemonInfo) with
      | Some (_, part) =>
          let partNames := op_Partition part :: op_PartitionSymlinks part in
          if bool_decide (lookForDev = "") || wanted devNames || wanted partNames
          then (<[op_Type part := devNames]> devMapping, <[op_Type part := partNames]> partMapping)
          else (devMapping, partMapping)
      | None => (devMapping, partMapping)
      end) (∅, ∅) (odi_Devices osdDaemonInfo).

Section with_world.
Context `{World}.

(** The first name of the list the spec mentions; for partitions the spec must
    use the name with the same type. *)
Definition find_in_spec (specDevs : usedDevices) (devNames partNames : list string)
    (devType : string) : string :=
  let found := match list_find (λ dev, is_Some (ud_Devices specDevs !! dev)) devNames with
               | Some (_, dev) => dev
               | None => EmptyString
               end in
  match list_find (λ partition, ud_Devices specDevs !! partition = Some devType) partNames with
  | Some (_, partition) => partition
  | None => found
  end.

(** The loop over [devsTypeToCheck]; [foundInSpec] survives the rounds. *)
Fixpoint inSpec_types (specDevs : usedDevices) (devMapping partMapping : gmap string (list string))
    (types : list string) : string * string * bool :=
  match types with
  | [] => (EmptyString, EmptyString, false)
  | devType :: types' =>
      let foundInSpec :=
        find_in_spec specDevs (default [] (devMapping !! devType))
          (default [] (partMapping !! devType)) devType in
      if decide (foundInSpec ≠ "") then (foundInSpec, devType, true)
      else inSpec_types specDevs devMapping partMapping types'
  end.

Definition inSpec (osdDaemonInfo : OsdDaemonInfo) (specDevs : usedDevices) (lookForDev : string)
    : string * string * bool :=
  let '(devMapping, partMapping) := inSpec_collect osdDaemonInfo lookForDev in
  match devMapping !! "block" with
  | Some devNames =>
      if decide (ud_DeviceFilter specDevs ≠ "" ∨ ud_DevicePathFilter specDevs ≠ "") then
        let byName := bool_decide (ud_DeviceFilter specDevs ≠ "") in
        let filter := if byName then ud_DeviceFilter specDevs else ud_DevicePathFilter specDevs in
        if existsb (λ name, regexp_match filter (if byName then CutPrefix name "/dev/" else name)) devNames
        then (filter, "block", true)
        else if existsb (regexp_match filter) (default [] (partMapping !! "block"))
        then (filter, "block", true)
        else inSpec_types specDevs devMapping partMapping ["db"]
      else inSpec_types specDevs devMapping partMapping ["block"; "db"]
  | None => inSpec_types specDevs devMapping partMapping ["block"; "db"]
  end.
End with_world.

Definition isLvmRookMade (lvmPartition : string) : bool :=
  HasPrefix (default EmptyString (last (Split lvmPartition "/"))) RookLVMarker.

(** ** spec_handler.go: zapping *)

Section zapping.
Context `{MapRange}.

(** One device of [checkDeviceZapping]: its new entry and the warning, if any. *)
Definition zap_device (host osd : string) (lockedDevices : gset string) (allowToRemoveAllLvms : bool)
    (device : string) (devMapping : DeviceInfo) : DeviceInfo * list string :=
  if negb (di_Alive devMapping) then (devMapping, [])
  else if di_Raw devMapping then (set_di_Zap true devMapping, [])
  else if decide (di_PartedBy devMapping ≠ "") then
    (set_di_Zap false devMapping,
     ["[node '" +:+ host +:+ "'] found osd " +:+ di_Type devMapping +:+ " partition '" +:+
      di_Partition devMapping +:+ "' for osd '" +:+ osd +:+
      "', which is placed on top of another partition '" +:+ di_PartedBy devMapping +:+
      "', skipping disk zap"])
  else
    let allowLvmDrop := isLvmRookMade (di_Partition devMapping) || allowToRemoveAllLvms in
    let warn :=
      if allowLvmDrop then []
      else ["[node '" +:+ host +:+ "'] found osd " +:+ di_Type devMapping +:+ " partition '" +:+
            di_Partition devMapping +:+ "' for osd '" +:+ osd +:+
            "', which is created not by rook, skipping disk/partition zap"] in
    (set_di_Zap (if decide (device ∈ lockedDevices) then false else allowLvmDrop) devMapping, warn).

(** The loops of [checkDeviceZapping] over the devices of an OSD and over the
    OSDs of a host. *)
Definition zap_step (host osd : string) (lockedDevices : gset string) (allowToRemoveAllLvms : bool)
    (st : gmap string DeviceInfo * list string) (entry : string * DeviceInfo)
    : gmap string DeviceInfo * list string :=
  let '(device, devMapping) := entry in
  let '(d, w) := zap_device host osd lockedDevices allowToRemoveAllLvms device devMapping in
  (<[device := d]> st.1, st.2 ++ w).

Definition zap_osd (host : string) (lockedDevices : gset string) (allowToRemoveAllLvms : bool)
    (st : gmap string OsdMapping * list string) (entry : string * OsdMapping)
    : gmap string OsdMapping * list string :=
  let '(osd, mapping) := entry in
  if om_SkipDeviceCleanupJob mapping then st
  else
    let '(devs, warn) :=
      foldl (zap_step host osd lockedDevices allowToRemoveAllLvms) (om_DeviceMapping mapping, st.2)
        (range 3 (om_DeviceMapping mapping)) in
    (<[osd := set_om_DeviceMapping devs mapping]> st.1, warn).

(** [checkDeviceZapping]: the map is updated in place, the warnings are
    returned; [lockedDevices] holds the devices marked [true]. *)
Definition checkDeviceZapping (host : string) (osdMapping : gmap string OsdMapping)
    (lockedDevices : gset string) (allowToRemoveAllLvms : bool)
    : gmap string OsdMapping * list string :=
  foldl (zap_osd host lockedDevices allowToRemoveAllLvms) (osdMapping, []) (range 2 osdMapping).
End zapping.
