(* ===== verification/TaskUtils.v ===== *)
(** * Queries of the OSD removal controller

    pkg/controller/osdremove-task/task_types.go and utils.go: the configuration
    of one reconcile round and the queries to the disk daemons, to Ceph and to
    Kubernetes the other parts are built on. *)

From S2P Require Import Prelude GoTime Types DeployTypes World Helpers.
Open Scope Z_scope.

(** [cephOsdRemoveConfig] with its [taskConfig]; [requeueNow] is threaded
    through the functions that set it. *)
Record cephOsdRemoveConfig := mkConfig {
  c_lcmConfig : LcmConfig;
  c_task : CephOsdRemoveTask;
  c_cephCluster : CephCluster;
  c_cephHealthOsdAnalysis : OsdSpecAnalysisState;
  c_cephDeploymentPhase : option CephDeploymentPhase;
}.

Definition requeueAfterInterval : Z := 60 * second.
Definition DefaultImmediateRequeueInterval : Z := 1 * second.
Definition diskDaemonRetryTimeout : Z := 10 * second.
Definition retriesForFailedCommand : nat := 5.
Definition commandRetryRunTimeout : Z := 30 * second.

Section utils.
Context `{World}.
Variable c : cephOsdRemoveConfig.

Definition zero_DiskDaemonReport : DiskDaemonReport :=
  mkDiskDaemonReport DiskDaemonStateInProgress "" [] None None.

Definition getNodeReport (hostName : string) : IO (DiskDaemonReport * option err) :=
  let cmd := PelagiaDiskDaemon +:+ " --osd-report --port " +:+
             pretty (lc_DiskDaemonPort (c_lcmConfig c)) in
  RunFuncWithRetry zero_DiskDaemonReport retriesForFailedCommand diskDaemonRetryTimeout
    (let* r := RunAndParseDiskDaemonCLI zero_DiskDaemonReport json_DaemonReport
                 (task_Namespace (c_task c)) hostName cmd in
     match r with
     | (_, Some daemonErr) => ret (zero_DiskDaemonReport, Some daemonErr)
     | (report, None) =>
         match ddr_State report with
         | DiskDaemonStateInProgress =>
             ret (zero_DiskDaemonReport, Some (new_err "node report is not prepared yet"))
         | _ => ret (report, None)
         end
     end).

(** The report, or the issues that prevent using it. *)
Definition tryToGetNodeOsdsReportOrIssues (host : string)
    : IO (option DiskDaemonOsdsReport * list string) :=
  let* r := getNodeReport host in
  match r with
  | (_, Some e) =>
      ret (None, ["[node '" +:+ host +:+ "'] failed to get node osds report: " +:+ err_msg e])
  | (nodeReport, None) =>
      match ddr_Issues nodeReport with
      | [] =>
          match ddr_OsdsReport nodeReport with
          | None =>
              ret (None, ["[node '" +:+ host +:+
                "'] node osds report is not available, check daemon logs on related node"])
          | Some report => ret (Some report, [])
          end
      | reportIssues => ret (None, (λ issue, "[node '" +:+ host +:+ "'] " +:+ issue) <$> reportIssues)
      end
  end.

Definition getOsdHostsFromCluster : IO (gmap string (list Z) * option err) :=
  let* r := RunAndParseCephToolboxCLI [] json_OsdTree
              (cc_Namespace (c_cephCluster c)) "ceph osd tree -f json" in
  match r with
  | (_, Some e) => ret (∅, Some e)
  | (nodes, None) =>
      ret (foldl (λ hosts node,
             if decide (tn_Type node = "host") then <[tn_Name node := tn_Children node]> hosts else hosts)
           ∅ nodes, None)
  end.

Definition zero_OsdInfo : OsdInfo := mkOsdInfo 0 "" 0 0.

Definition getOsdInfo (osdID : string) : IO (OsdInfo * option err) :=
  RunAndParseCephToolboxCLI zero_OsdInfo json_OsdInfo (cc_Namespace (c_cephCluster c))
    ("ceph osd info " +:+ osdID +:+ " --format json").

Definition checkPgsForOsd (osdID : string) : IO (bool * option err) :=
  let* r := RunAndParseCephToolboxCLI O json_PgStats (cc_Namespace (c_cephCluster c))
              ("ceph pg ls-by-osd " +:+ osdID +:+ " --format json") in
  match r with
  | (_, Some e) =>
      if StrContains (err_msg e) ("osd " +:+ osdID +:+ " is not up") then ret (false, None)
      else ret (false, Some e)
  | (pgStats, None) => if (0 <? pgStats)%nat then ret (true, None) else ret (false, None)
  end.

Definition checkOperatorStopped : IO bool :=
  let ns := cc_Namespace (c_cephCluster c) in
  let* r := call (EvDeployGet ns RookCephOperatorName) (λ h, w_deploy_get h ns RookCephOperatorName) in
  match r with
  | (_, Some _) => ret false
  | (deploy, None) =>
      ret ((dep_Replicas deploy =? 0) && (dep_ReadyReplicas deploy =? 0) &&
           (dep_AvailableReplicas deploy =? 0))
  end.

Definition removeOsdDeployment (deployName : string) : IO (option err) :=
  let ns := cc_Namespace (c_cephCluster c) in
  let* e := call (EvDeployDelete ns deployName) (λ h, w_deploy_delete h ns deployName) in
  match e with
  | Some e' =>
      if is_not_found e' then ret None
      else ret (Some (wrap_err ("failed to delete osd deployment '" +:+ deployName +:+ "'") e'))
  | None => ret None
  end.
End utils.
