(* ===== verification/Demo.v ===== *)
(** * A small cluster

    A concrete world for the witnesses: every interaction succeeds, except that
    [ceph osd ok-to-stop] may be refused and placement groups may stay on an
    OSD.  What the cluster consists of is given by [demo_cluster]. *)

From S2P Require Import Prelude GoTime Types HealthTypes DeployTypes World TaskUtils.
Open Scope Z_scope.

Record demo_cluster := mkDemo {
  demo_refuse_stop : bool;
  demo_pgs : nat;
  demo_osd_info : list OsdInfo;
  demo_metadata : list OsdMetadataInfo;
  demo_tree : list OsdTreeNode;
  demo_nodes : list K8sNode;
  demo_report : DiskDaemonReport;
  demo_tasks : list CephOsdRemoveTask;
  demo_job : JobStatus;
}.

Definition demo_ok : DaemonStatus := mkDaemonStatus DaemonStateOk [] [].

Definition demo_cluster_status : ClusterStatus :=
  mkClusterStatus "Ready" (Some (mkCephVersion "image" "19.2.3-0"))
    (Some (mkCephHealth "HEALTH_OK" ∅ "2023-11-14T22:13:20Z" "fsid" "")) "".

Definition demo_health : CephDeploymentHealth :=
  mkHealth "cephcluster" "uid"
    (mkHealthStatus HealthStateOk
       (Some (mkHealthReport demo_ok None (Some (mkRookObjects (Some demo_cluster_status) None None None None)) None
                (Some (mkSpecAnalysisState demo_ok (Some 1) ∅)))) "" "" []).

Definition demo_lcm : LcmConfig :=
  mkLcmConfig "rook-ceph" (mkCommonParams "" "" "label" 9999 "" false false true) None
    (Some (mkTaskParams 1 (30 * 60 * second) false)) None.

Definition demo_start : Z := 1700000000 * second.

(** The status of a task is the one last written. *)
Definition demo_status (h : history) (t : CephOsdRemoveTask) : CephOsdRemoveTask :=
  set_task_Status
    (foldl (λ o e,
       match e with
       | EvTaskStatusUpdate _ name s => if decide (name = task_Name t) then Some (stored_status s) else o
       | _ => o
       end) (task_Status t) h) t.

(** One second passes with every interaction. *)
Definition demo_world (d : demo_cluster) : World := {|
  w_exec_ceph := λ _ _ cmd,
    if HasPrefix cmd "ceph osd ok-to-stop" && demo_refuse_stop d
    then (EmptyString, EmptyString, Some (new_err "unsafe to stop"))
    else (cmd, EmptyString, None);
  w_exec_daemon := λ _ _ _ cmd, (cmd, EmptyString, None);
  w_deploy_get := λ _ _ _, (mkDeploymentStatus 0 0 0, None);
  w_deploy_scale := λ _ _ _ _, None;
  w_deploy_delete := λ _ _ _, None;
  w_job_get := λ _ _ _, (demo_job d, None);
  w_job_delete := λ _ _ _, None;
  w_job_create := λ _ _, None;
  w_node_list := λ _, (demo_nodes d, None);
  w_clock := λ h, demo_start + Z.of_nat (length h) * second;
  w_task_get := λ h _ name,
    match filter (λ t, task_Name t = name) (demo_tasks d) with
    | t :: _ => (demo_status h t, None)
    | [] => (mkTask "" "" "" 0 [] None None, Some (Err ErrNotFound "not found"))
    end;
  w_task_list := λ h _, (demo_status h <$> demo_tasks d, None);
  w_task_update := λ _ _, None;
  w_task_delete := λ _ _ _, None;
  w_status_update := λ _ _ _ _, None;
  w_health_list := λ _ _,
    ([demo_health], None);
  w_cluster_get := λ _ _ _,
    (mkCephCluster "cephcluster" "rook-ceph" 1 "1" false [] "" 3 2 ∅ demo_cluster_status, None);
  w_deployment_get := λ _ _ _, (PhaseOnHold, None);
  json_OsdInfo := λ _, (match demo_osd_info d with i :: _ => i | [] => mkOsdInfo 0 "" 1 1 end, None);
  json_OsdInfos := λ _, (demo_osd_info d, None);
  json_OsdMetadata := λ _, (demo_metadata d, None);
  json_OsdTree := λ _, (demo_tree d, None);
  json_PgStats := λ _, (demo_pgs d, None);
  json_DaemonReport := λ _, (demo_report d, None);
  labels_match := λ _ _, true;
  regexp_match := λ _ _, true;
  w_gvk_task := ("lcm.mirantis.com/v1alpha1", "CephOsdRemoveTask", None);
  w_gvk_health := ("lcm.mirantis.com/v1alpha1", "CephDeploymentHealth", None);
  truncate_node_name := λ format name, format +:+ name;
|}.

(** No placement groups, and every OSD may be stopped. *)
Definition calm : demo_cluster :=
  mkDemo false 0 [] [] [] [] (mkDiskDaemonReport DiskDaemonStateOk "" [] None (Some (mkOsdsReport [] ∅))) [] (mkJobStatus 0 0 1 []).

(** [ok-to-stop] is always refused, and cleanup jobs run for ever. *)
Definition busy_cluster : demo_cluster :=
  mkDemo true 1 [] [] [] [] (mkDiskDaemonReport DiskDaemonStateOk "" [] None None) [] (mkJobStatus 1 0 0 []).

Definition demo_task : CephOsdRemoveTask := mkTask "task" "pelagia" "uid" 0 [] None None.

Definition demo_config : cephOsdRemoveConfig :=
  mkConfig (demo_lcm) demo_task
    (mkCephCluster "cephcluster" "rook-ceph" 1 "1" false [] "" 3 2 ∅ demo_cluster_status)
    (mkSpecAnalysisState demo_ok None ∅) None.

(** ** A cleanup map: two OSDs of one host, sharing a device *)

Definition demo_device (zap : bool) : DeviceInfo :=
  mkDeviceInfo false "/dev/disk/by-path/a" "id" "/dev/vg/lv" "" "db" zap true false.

Definition demo_osd (rr : option RemoveResult) : OsdMapping :=
  mkOsdMapping "uuid" "fsid" "" true {[ "/dev/sdb" := demo_device true ]} false rr.

Definition demo_host (rr0 rr1 : option RemoveResult) : HostMapping :=
  mkHostMapping true false {[ "0" := demo_osd rr0; "1" := demo_osd rr1 ]} false false None.

Definition demo_info (rr0 rr1 : option RemoveResult) : TaskRemoveInfo :=
  mkTaskRemoveInfo {[ "node-1" := demo_host rr0 rr1 ]} [] [].
