(* ===== verification/CleanupJob.v ===== *)
(** * Device cleanup jobs

    pkg/controller/osdremove-task/cleanup_job.go: the scripts that wipe a
    device, a partition or the host directory of a removed OSD, and the
    Kubernetes job that runs them, one container per device. *)

From Stdlib Require Import Ascii.
From S2P Require Import Prelude GoTime Types World Helpers TaskUtils.
Open Scope Z_scope.

(** ** Script templates

    Literals cannot hold a double quote, so the texts below write [~] for it and
    [tq] puts the quotes back. *)

Definition dquote : ascii := ascii_of_nat 34.

Fixpoint tq (s : string) : string :=
  match s with
  | EmptyString => EmptyString
  | String a s' => String (if decide (a = "~"%char) then dquote else a) (tq s')
  end.

Definition lines (l : list string) : string :=
  foldr (λ line s, line +:+ newline +:+ s) EmptyString l.

Definition cleanupScriptTmpl (script : string) : string :=
  lines ["set -xe"] +:+ script +:+ newline.

Definition diskRawCleanupScriptTmpl (devicePath : string) (rotational : bool) (next : string) : string :=
  lines ["# running raw disk cleanup script";
         "DEVICE_PATH=" +:+ devicePath;
         "ROTATIONAL=" +:+ bool_str rotational;
         ": ${DEVICE_PATH?:Device var \$DEVICE_PATH is not set}";
         tq "echo ~cleaning disk '${DEVICE_NAME}'...~";
         "# use ceph-bluestore-tool for zapping bluestore label directly on raw device";
         "ceph-bluestore-tool zap-device --dev ${DEVICE_PATH} --yes-i-really-really-mean-it";
         "sgdisk --zap-all ${DEVICE_PATH}";
         tq "if [[ ~${ROTATIONAL}~ == ~true~ ]]; then";
         tq "    dd if=/dev/zero of=~${DEVICE_PATH}~ bs=1M count=100 oflag=direct,dsync";
         "else";
         tq "    blkdiscard ~${DEVICE_PATH}~";
         "fi";
         "partprobe ${DEVICE_PATH}";
         tq "echo ~disk '${DEVICE_NAME}' is cleaned up!~"] +:+
  next +:+ newline.

Definition diskCleanupScriptTmpl (devicePath : string) (rotational : bool) (next : string) : string :=
  lines ["# running disk cleanup script part";
         "DEVICE_PATH=" +:+ devicePath;
         "ROTATIONAL=" +:+ bool_str rotational;
         ": ${DEVICE_PATH?:Device var \$DEVICE_PATH is not set}";
         tq "echo ~cleaning disk '${DEVICE_NAME}'...~";
         "DEVICE_CHILDRENS=$(lsblk ${DEVICE_PATH} -o TYPE,NAME --noheadings -J | jq -r '.blockdevices[].children[]?|.name')";
         "for children in ${DEVICE_CHILDRENS}; do";
         "    dmsetup remove ${children}";
         "    lvDir=/dev/$(echo ${children//-/\/} | sed 's_//_-_g')";
         "    rm -rf ${lvDir} /dev/mapper/${children}";
         "    lvremove ${lvDir}";
         "    [ -d $(dirname ${lvDir}) ] && rmdir --ignore-fail-on-non-empty $(dirname ${lvDir})";
         "done"] +:+
  next +:+ newline +:+
  lines ["sgdisk --zap-all ${DEVICE_PATH}";
         tq "if [[ ~${ROTATIONAL}~ == ~true~ ]]; then";
         tq "    dd if=/dev/zero of=~${DEVICE_PATH}~ bs=1M count=100 oflag=direct,dsync";
         "else";
         tq "    blkdiscard ~${DEVICE_PATH}~";
         "fi";
         "partprobe ${DEVICE_PATH}";
         tq "echo ~disk '${DEVICE_NAME}' is cleaned up!~"].

Definition partitionCleanupScriptTmpl (partition : string) (destroy : bool) (next : string) : string :=
  lines ["# running partition cleanup script part";
         "PARTITION=" +:+ partition;
         "DESTROY=" +:+ bool_str destroy;
         ": ${PARTITION?:Partition var \$PARTITION is not set}";
         tq "if ! test -h ~${PARTITION}~; then";
         tq "    echo ~Partition ${PARTITION} is not found, skipping cleanup~";
         "    exit 0";
         "fi";
         tq "echo ~cleaning partition '${PARTITION}' on disk '${DEVICE_NAME}'...~";
         "PARTITION_TYPE=$(lsblk ${PARTITION} -o type -J -p | jq -r '.blockdevices[] | .type')";
         tq "if [[ ~${PARTITION_TYPE}~ != ~lvm~ || ~${DESTROY}~ != ~true~ ]]; then";
         "    ceph-volume lvm zap ${PARTITION}";
         "    exit 0";
         "fi";
         "";
         "mapper=$(readlink -f ${PARTITION})";
         "dmsetup remove ${mapper}";
         "rm -rf ${PARTITION} ${mapper}";
         "lvremove ${PARTITION}";
         "[ -d $(dirname ${PARTITION}) ] && rmdir --ignore-fail-on-non-empty $(dirname ${PARTITION})";
         tq "echo ~partition '${PARTITION}' on disk '${DEVICE_NAME}' is cleaned up!~"] +:+
  next +:+ newline.

Definition dmSetupTableClean (dmName next : string) : string :=
  lines ["# running dm table cleanup script part";
         "DM_NAME=" +:+ dmName;
         ": ${DM_NAME?:Mapper name var \$DM_NAME is not set}";
         tq "echo ~cleaning mapper '${DM_NAME}' from table if possible...~";
         tq "if ! test -b ~${DM_NAME}~; then";
         "    exit 0";
         "fi";
         "MAPPER_NAME=$(dmsetup info -c -o name --noheadings ${DM_NAME})";
         "OPEN_COUNT=$(dmsetup info -c -o open --noheadings ${MAPPER_NAME})";
         tq "if [[ ~${OPEN_COUNT}~ == ~0~ ]]; then";
         "    dmsetup remove ${MAPPER_NAME}";
         "    lvDir=/dev/$(echo ${MAPPER_NAME//-/\/} | sed 's_//_-_g')";
         "    rm -rf ${lvDir} /dev/mapper/${MAPPER_NAME}";
         "    [ -d $(dirname ${lvDir}) ] && rmdir --ignore-fail-on-non-empty $(dirname ${lvDir})";
         tq "    echo ~mapper '${DM_NAME}' from table is cleaned up!~";
         "fi"] +:+
  next +:+ newline.

Definition hostDirectoryCleanupScriptTmpl (hostDirectory : string) (raw : bool) : string :=
  lines ["# running host rook dir cleanup script part";
         "HOST_DIRECTORY=" +:+ hostDirectory;
         tq "RAW=~" +:+ bool_str raw +:+ tq "~";
         tq "if ! test -d ~${HOST_DIRECTORY}~; then";
         tq "    echo ~host directory '${HOST_DIRECTORY}' does not exist, skipping remove~";
         tq "elif [[ ~${RAW}~ != ~true~ ]] && (test -b ~${HOST_DIRECTORY}/block~ || test -b ~${HOST_DIRECTORY}/block.db~); then";
         tq "    echo ~could not clean up directory ${HOST_DIRECTORY}, which still is in use, skipping~";
         "else";
         "    rm -rf ${HOST_DIRECTORY}";
         "fi"].

(** ** The job *)

Definition diskCleanupJobLabel : string := "pelagia-lcm-cleanup-disks".
Definition ControllerName : string := "pelagia-osdremove-task-controller".
Definition LabelHostname : string := "kubernetes.io/hostname".

(** [PelagiaResourceLabels(ControllerName)] *)
Definition baseResourceLabels : gmap string string :=
  {[ "app.kubernetes.io/part-of" := "ceph.pelagia.lcm";
     "app.kubernetes.io/created-by" := ControllerName;
     "app.kubernetes.io/managed-by" := ControllerName ]}.

Definition ExtendLabels (resourceLabels extraLabels : gmap string string) : gmap string string :=
  extraLabels ∪ resourceLabels.

Section job.
Context `{World} `{MapRange}.
Variable c : cephOsdRemoveConfig.

(** The script of one device: what is wiped depends on whether the device is
    still there, used raw, to be zapped and whether its LVM may be destroyed. *)
Definition cleanup_script (hostOsdDirectory device : string) (deviceInfo : DeviceInfo) : string :=
  let hostDirCleanUpMacros :=
    if decide (hostOsdDirectory ≠ "")
    then hostDirectoryCleanupScriptTmpl hostOsdDirectory (di_Raw deviceInfo) else EmptyString in
  if negb (di_Alive deviceInfo) then
    if decide (device = di_Partition deviceInfo)
    then cleanupScriptTmpl hostDirCleanUpMacros
    else cleanupScriptTmpl (dmSetupTableClean (di_Partition deviceInfo) hostDirCleanUpMacros)
  else
    let destroyLVM := isLvmRookMade (di_Partition deviceInfo) ||
                      lc_AllowToRemoveManuallyCreatedLVM (c_lcmConfig c) in
    if di_Raw deviceInfo then
      cleanupScriptTmpl
        (diskRawCleanupScriptTmpl (di_Path deviceInfo) (di_Rotational deviceInfo) hostDirCleanUpMacros)
    else if di_Zap deviceInfo && destroyLVM then
      let diskZapPart :=
        diskCleanupScriptTmpl (di_Path deviceInfo) (di_Rotational deviceInfo) hostDirCleanUpMacros in
      cleanupScriptTmpl (partitionCleanupScriptTmpl (di_Partition deviceInfo) destroyLVM diskZapPart)
    else
      cleanupScriptTmpl
        (partitionCleanupScriptTmpl (di_Partition deviceInfo) destroyLVM hostDirCleanUpMacros).

Definition cleanup_container (podImage hostOsdDirectory : string) (mounts : list VolumeMount)
    (idx : Z) (device : string) (deviceInfo : DeviceInfo) : Container :=
  mkContainer ("cleanup-run-" +:+ pretty idx) podImage true ["NET_RAW"] mounts
    ["/bin/bash"; "-c"; cleanup_script hostOsdDirectory device deviceInfo]
    [("DEVICE_NAME", device); ("DM_DISABLE_UDEV", "1")].

(** The loop over the devices: whether some entry lacks its partition or path,
    the job labels, the devices to clean. *)
Definition collect_device (st : bool * gmap string string * list string) (entry : string * DeviceInfo)
    : bool * gmap string string * list string :=
  let '(brokenData, labels, devicesList) := st in
  let '(device, deviceInfo) := entry in
  if decide (di_Partition deviceInfo = "" ∨ di_Path deviceInfo = "") then (true, labels, devicesList)
  else
    let devName := if HasPrefix device "/dev/" then ReplaceAll device "/dev/" "" else device in
    (brokenData, <[devName := "true"]> labels, devicesList ++ [device]).

Definition collect_devices (labels : gmap string string) (devices : gmap string DeviceInfo)
    : bool * gmap string string * list string :=
  foldl collect_device (false, labels, []) (range 4 devices).

Definition createCleanupJob (job : Job) : IO (option err) :=
  let* r := RunFuncWithRetry tt retriesForFailedCommand commandRetryRunTimeout
    (let* g := call (EvJobGet (job_Namespace job) (job_Name job))
                    (λ h, w_job_get h (job_Namespace job) (job_Name job)) in
     let create :=
       let* e := call (EvJobCreate job) (λ h, w_job_create h job) in
       match e with
       | Some e' => ret (tt, Some e')
       | None => ret (tt, None)
       end in
     match g with
     | (_, Some e) => if is_not_found e then create else ret (tt, Some e)
     | (presentJob, None) =>
         if 0 <? js_Active presentJob then ret (tt, Some (new_err "waiting old job"))
         else
           let* e := call (EvJobDelete (job_Namespace job) (job_Name job))
                          (λ h, w_job_delete h (job_Namespace job) (job_Name job)) in
           match e with
           | Some e' => ret (tt, Some e')
           | None => create
           end
     end) in
  ret r.2.

Definition getCleanupJob (jobName : string) : IO (JobStatus * option err) :=
  RunFuncWithRetry (mkJobStatus 0 0 0 []) retriesForFailedCommand commandRetryRunTimeout
    (call (EvJobGet (task_Namespace (c_task c)) jobName)
          (λ h, w_job_get h (task_Namespace (c_task c)) jobName)).

(** The containers, numbered from 1. *)
Fixpoint cleanup_containers (podImage hostOsdDirectory : string) (mounts : list VolumeMount)
    (devices : gmap string DeviceInfo) (idx : Z) (devicesList : list string) : list Container :=
  match devicesList with
  | [] => []
  | device :: rest =>
      cleanup_container podImage hostOsdDirectory mounts idx device
        (default zero_DeviceInfo (devices !! device))
      :: cleanup_containers podImage hostOsdDirectory mounts devices (idx + 1) rest
  end.

Definition runCleanupJob (host osdID hostOsdDirectory : string) (devices : gmap string DeviceInfo)
    : IO (string * option err) :=
  match GetObjectOwnerRef w_gvk_task (task_Name (c_task c)) (task_UID (c_task c)) with
  | (_, Some e) => ret (EmptyString, Some (wrap_err "failed to get CephOsdRemoveTask owner refs" e))
  | (ownerRefs, None) =>
  let podImage := default EmptyString (cc_CephVersionImage (c_cephCluster c)) in
  if decide (podImage = "") then
    ret (EmptyString, Some (new_err "failed to determine ceph cluster image, no current used image in status"))
  else
  let hostDataPath :=
    if decide (cc_DataDirHostPath (c_cephCluster c) ≠ "")
    then cc_DataDirHostPath (c_cephCluster c) else DefaultDataDirHostPath in
  let volumes := [mkVolume "host-dev" "/dev" ""; mkVolume "run-udev" "/run/udev" "Directory"] in
  let volumeMounts := [mkVolumeMount "host-dev" "/dev" false; mkVolumeMount "run-udev" "/run/udev" true] in
  let withHostDir := bool_decide (hostOsdDirectory ≠ "") && bool_decide (hostDataPath ≠ "") &&
                     HasPrefix hostOsdDirectory hostDataPath in
  let volumes := if withHostDir then volumes ++ [mkVolume "host-rook" hostDataPath ""] else volumes in
  let volumeMounts :=
    if withHostDir then volumeMounts ++ [mkVolumeMount "host-rook" hostDataPath false] else volumeMounts in
  let osdIDToUse := if isStrayOsdID osdID then ReplaceAll osdID "__" "" else osdID in
  let jobName := truncate_node_name "device-cleanup-job-%s" (host +:+ "-" +:+ osdIDToUse) in
  let labels :=
    ExtendLabels {[ "app" := diskCleanupJobLabel;
                    "rook-cluster" := cc_Name (c_cephCluster c);
                    "host" := host;
                    "osd" := osdIDToUse;
                    "task" := task_Name (c_task c) ]} baseResourceLabels in
  let '(brokenData, labels, devicesList) := collect_devices labels devices in
  if (brokenData : bool) then
    ret (jobName, Some (new_err "partition or device path missed in provided info"))
  else
  let devicesList := SortStrings devicesList in
  let job := mkJob jobName (task_Namespace (c_task c)) labels ownerRefs 0 DiskCleanupTimeout
               diskCleanupJobLabel 0 {[ LabelHostname := host ]} "Never" volumes
               (cleanup_containers podImage hostOsdDirectory volumeMounts devices 1 devicesList) in
  let* e := createCleanupJob job in
  ret (jobName, e)
  end.
End job.
