(* ===== verification/Executor.v ===== *)
(** * Executing an OSD removal task

    pkg/controller/osdremove-task/executor.go: one pass over the cleanup map.
    Every OSD has a removal status; a pass collects the OSDs by status, removes
    finished hosts from the CRUSH map, runs device cleanup jobs and deletes
    deployments of removed OSDs, purges the OSDs whose data has moved, checks
    rebalancing, and moves at most one pending OSD out. *)

From Stdlib Require Import Ascii.
From S2P Require Import Prelude GoTime Types World Helpers TaskUtils CleanupJob.
Open Scope Z_scope.

Record hostOsdPair := mkPair { hp_Host : string; hp_OsdID : string }.
#[global] Instance hostOsdPair_eq_dec : EqDecision hostOsdPair.
Proof. solve_decision. Defined.

(** ** Updating the copied remove info in place *)

(** [newRemoveInfo.CleanupMap[host].OsdMapping[osdID]] *)
Definition get_osd (ri : TaskRemoveInfo) (host osdID : string) : option OsdMapping :=
  hm ← ri_CleanupMap ri !! host; hm_OsdMapping hm !! osdID.

(** [newRemoveInfo.CleanupMap[host].OsdMapping[osdID].RemoveStatus] *)
Definition get_result (ri : TaskRemoveInfo) (host osdID : string) : option RemoveResult :=
  om ← get_osd ri host osdID; om_RemoveStatus om.

Definition get_osd_status (ri : TaskRemoveInfo) (host osdID : string) : option RemoveStatus :=
  rr ← get_result ri host osdID; rr_OsdRemoveStatus rr.

Definition upd_osd (host osdID : string) (f : OsdMapping → OsdMapping) (ri : TaskRemoveInfo)
    : TaskRemoveInfo :=
  set_ri_CleanupMap
    (alter (λ hm, set_hm_OsdMapping (alter f osdID (hm_OsdMapping hm)) hm) host (ri_CleanupMap ri)) ri.

Definition upd_result (host osdID : string) (f : RemoveResult → RemoveResult) (ri : TaskRemoveInfo)
    : TaskRemoveInfo :=
  upd_osd host osdID (λ om, set_om_RemoveStatus (f <$> om_RemoveStatus om) om) ri.

(** ** Durations as printed by [fmt]: the limits are configured in whole minutes. *)
Definition duration_str (d : Z) : string :=
  let s := d / second in
  let h := s / 3600 in let m := s / 60 mod 60 in let r := s mod 60 in
  if 0 <? h then pretty h +:+ "h" +:+ pretty m +:+ "m" +:+ pretty r +:+ "s"
  else if 0 <? m then pretty m +:+ "m" +:+ pretty r +:+ "s"
  else pretty r +:+ "s".

Section executor.
Context `{World} `{MapRange}.
Variable c : cephOsdRemoveConfig.

Let ns : string := cc_Namespace (c_cephCluster c).
Let timeout : Z := lc_OsdPgRebalanceTimeout (c_lcmConfig c).

(** A Ceph command run with retries, its output ignored. *)
Definition ceph_retry (cmd : string) : IO (option err) :=
  let* r := RunFuncWithRetry false retriesForFailedCommand commandRetryRunTimeout
    (let* r := RunCephToolboxCLI ns cmd in ret (false, r.2)) in
  ret r.2.

(** Scaling an OSD deployment to zero with retries; a missing one is fine. *)
Definition scale_retry (deployName : string) : IO (option err) :=
  let* r := RunFuncWithRetry tt retriesForFailedCommand commandRetryRunTimeout
    (let* scaleErr := ScaleDeployment deployName ns 0 in
     match scaleErr with
     | Some e => if is_not_found e then ret (tt, None) else ret (tt, Some e)
     | None => ret (tt, None)
     end) in
  ret r.2.

Definition fail_status (st : RemoveStatus) (e : err) : RemoveStatus :=
  set_rs_Error (err_msg e) (set_rs_Status RemoveFailed st).

Definition finish_status (st : RemoveStatus) : IO RemoveStatus :=
  let* now := GetCurrentTimeString in
  ret (set_rs_FinishedAt now (set_rs_Status RemoveFinished st)).

Definition removeHostFromCrush (host : string) : IO RemoveStatus :=
  let* now := GetCurrentTimeString in
  let hostRemoveStatus := set_rs_StartedAt now zero_RemoveStatus in
  let* e := ceph_retry ("ceph osd crush remove " +:+ host) in
  match e with
  | Some e' => ret (fail_status hostRemoveStatus e')
  | None => finish_status hostRemoveStatus
  end.

Definition removeDeployment (osdID : string) : IO RemoveStatus :=
  let osdIDForDeploy := if isStrayOsdID osdID then split_first osdID "." else osdID in
  let deployName := "rook-ceph-osd-" +:+ osdIDForDeploy in
  let* now := GetCurrentTimeString in
  let deployRemoveStatus := mkRemoveStatus RemoveFinished deployName "" now "" in
  let* r := RunFuncWithRetry tt retriesForFailedCommand commandRetryRunTimeout
    (let* apiErr := removeOsdDeployment c deployName in ret (tt, apiErr)) in
  match r.2 with
  | Some e => ret (fail_status deployRemoveStatus e)
  | None => finish_status deployRemoveStatus
  end.

Definition removeStray (osdID0 : string) (curRemoveStatus : RemoveStatus) : IO RemoveStatus :=
  let osdID := split_first osdID0 "." in
  let* r := RunFuncWithRetry false retriesForFailedCommand commandRetryRunTimeout
    (let* r := RunCephToolboxCLI ns "ceph osd ls" in
     match r with
     | (_, Some cmdErr) => ret (false, Some cmdErr)
     | (osdLsOutput, None) =>
         ret (negb (Contains (Split osdLsOutput (ascii_of_nat 10)) osdID), None)
     end) in
  match r with
  | (_, Some e) => ret (fail_status curRemoveStatus e)
  | (dropOsdEntriesAllowed, None) =>
      if (dropOsdEntriesAllowed : bool) then
        let* now := GetCurrentTimeString in
        let curRemoveStatus := set_rs_StartedAt now curRemoveStatus in
        let* e := scale_retry ("rook-ceph-osd-" +:+ osdID) in
        match e with
        | Some e' => ret (fail_status curRemoveStatus e')
        | None =>
            let* e := ceph_retry ("ceph auth del osd." +:+ osdID) in
            match e with
            | Some e' => ret (fail_status curRemoveStatus e')
            | None => finish_status curRemoveStatus
            end
        end
      else ret (set_rs_Status RemoveSkipped curRemoveStatus)
  end.

Definition removeFromCrush (osdID0 : string) (curRemoveStatus : RemoveStatus) : IO RemoveStatus :=
  let osdID := if isStrayOsdID osdID0 then split_first osdID0 "." else osdID0 in
  let* e := scale_retry ("rook-ceph-osd-" +:+ osdID) in
  match e with
  | Some e' => ret (fail_status curRemoveStatus e')
  | None =>
      let* e := ceph_retry ("ceph osd purge " +:+ osdID +:+ " --force --yes-i-really-mean-it") in
      match e with
      | Some e' => ret (fail_status curRemoveStatus e')
      | None =>
          let* e := ceph_retry ("ceph auth del osd." +:+ osdID) in
          match e with
          | Some e' => ret (fail_status curRemoveStatus e')
          | None => finish_status curRemoveStatus
          end
      end
  end.

Definition checkRebalance (osdID : string) (curRemoveStatus : RemoveStatus) : IO RemoveStatus :=
  let* r := RunFuncWithRetry false retriesForFailedCommand commandRetryRunTimeout
              (checkPgsForOsd c osdID) in
  match r with
  | (_, Some e) => ret (fail_status curRemoveStatus e)
  | (pgsForOsdPresent, None) =>
      if (pgsForOsdPresent : bool) then
        match ParseRFC3339 (rs_StartedAt curRemoveStatus) with
        | None => ret curRemoveStatus
        | Some timeStart =>
            let* since := time_since timeStart in
            if 0 <? timeout - since then ret curRemoveStatus
            else
              ret (set_rs_Error ("timeout (" +:+ duration_str timeout +:+ ") reached for waiting pg rebalance")
                     (set_rs_Status RemoveFailed curRemoveStatus))
        end
      else ret (set_rs_Status RemoveInProgress curRemoveStatus)
  end.

(** The [ok-to-stop] refusal branch of [tryToMoveOsdOut]: how long the OSD may
    still wait; [None] for a time stamp that does not parse.  Here and in
    [checkRebalance] the code subtracts minutes as floating-point numbers; the
    model subtracts nanoseconds. *)
Definition stop_wait_left (curRemoveStatus : option RemoveStatus) : IO (option Z) :=
  match curRemoveStatus with
  | Some cur =>
      if decide (rs_StartedAt cur ≠ "") then
        match ParseRFC3339 (rs_StartedAt cur) with
        | None => ret None
        | Some timeStart => let* since := time_since timeStart in ret (Some (timeout - since))
        end
      else ret (Some timeout)
  | None => ret (Some timeout)
  end.

(** [curRemoveStatus == nil || curRemoveStatus.StartedAt == ""] *)
Definition not_started (curRemoveStatus : option RemoveStatus) : bool :=
  match curRemoveStatus with
  | Some cur => bool_decide (rs_StartedAt cur = "")
  | None => true
  end.

Definition stop_refused (osdID : string) (curRemoveStatus : option RemoveStatus) : IO RemoveStatus :=
  let* w := stop_wait_left curRemoveStatus in
  match w with
  | None => ret (default zero_RemoveStatus curRemoveStatus)
  | Some waitLeft =>
      if 0 <? waitLeft then
        let status := status_of RemovePending in
        if not_started curRemoveStatus then
          let* now := GetCurrentTimeString in ret (set_rs_StartedAt now status)
        else ret status
      else
        ret (set_rs_Error ("timeout (" +:+ duration_str timeout +:+
               ") reached for waiting ok-to-stop on osd '" +:+ osdID +:+ "'")
              (status_of RemoveFailed))
  end.

(** Reweighting the OSD to zero; [status] is the status to take on success. *)
Definition reweight_out (osdID : string) (status : RemoveStatus) : IO RemoveStatus :=
  let* e := ceph_retry ("ceph osd crush reweight osd." +:+ osdID +:+ " 0.0") in
  match e with
  | Some e' => ret (fail_status status e')
  | None => let* now := GetCurrentTimeString in ret (set_rs_StartedAt now status)
  end.

Definition tryToMoveOsdOut (osdID : string) (curRemoveStatus : option RemoveStatus) : IO RemoveStatus :=
  let* r := RunFuncWithRetry zero_OsdInfo retriesForFailedCommand commandRetryRunTimeout
              (getOsdInfo c osdID) in
  match r with
  | (_, Some e) => ret (mkRemoveStatus RemoveFailed "" (err_msg e) "" "")
  | (osdInfo, None) =>
      let status := status_of RemoveInProgress in
      if oi_In osdInfo =? 1 then
        if oi_Up osdInfo =? 1 then
          let status := set_rs_Status RemoveWaitingRebalance status in
          let* r := RunCephToolboxCLI ns ("ceph osd ok-to-stop " +:+ osdID) in
          match r.2 with
          | Some _ => stop_refused osdID curRemoveStatus
          | None => reweight_out osdID status
          end
        else reweight_out osdID status
      else
        let status :=
          if oi_Up osdInfo =? 1 then set_rs_Status RemoveWaitingRebalance status else status in
        let* now := GetCurrentTimeString in ret (set_rs_StartedAt now status)
  end.

(** ** Device cleanup jobs *)

Definition job_status (om : OsdMapping) : option RemoveStatus :=
  rr ← om_RemoveStatus om; rr_DeviceCleanUpJob rr.

Definition job_in_phase (om : OsdMapping) (p : RemovePhase) : bool :=
  match job_status om with
  | Some j => bool_decide (rs_Status j = p)
  | None => false
  end.

(** Whether another OSD of the host no longer needs the device: its cleanup has
    completed or was skipped, and was not skipped by the spec. *)
Definition device_released (other : OsdMapping) : bool :=
  negb (om_SkipDeviceCleanupJob other) &&
  (job_in_phase other RemoveCompleted || job_in_phase other RemoveSkipped).

Definition disable_zap (other : OsdMapping) (devs : gmap string DeviceInfo) (device : string)
    : gmap string DeviceInfo :=
  match devs !! device with
  | Some v =>
      if di_Zap v && negb (device_released other) then <[device := set_di_Zap false v]> devs else devs
  | None => devs
  end.

(** The loop of [getJobData] over the OSDs of the host; it stops at the first
    running job. *)
Fixpoint job_data_loop (curOsdID : string) (devs : gmap string DeviceInfo)
    (osds : list (string * OsdMapping)) : bool * gmap string DeviceInfo :=
  match osds with
  | [] => (false, devs)
  | (osdID, osdMapping) :: rest =>
      if decide (osdID = curOsdID) then job_data_loop curOsdID devs rest
      else if job_in_phase osdMapping RemoveInProgress then (true, devs)
      else
        job_data_loop curOsdID
          (foldl (disable_zap osdMapping) devs (range 6 (om_DeviceMapping osdMapping)).*1) rest
  end.

Definition getJobData (curOsdID : string) (hostOsdMapping : gmap string OsdMapping)
    : bool * gmap string DeviceInfo :=
  job_data_loop curOsdID
    (om_DeviceMapping (default zero_OsdMapping (hostOsdMapping !! curOsdID)))
    (range 5 hostOsdMapping).

(** The branch of [handleJobRun] for an OSD whose job has not started. *)
Definition start_job (osdID host : string) (hostOsdMapping : gmap string OsdMapping)
    : IO RemoveStatus :=
  let '(parallelJobDetected, jobData) := getJobData osdID hostOsdMapping in
  if (parallelJobDetected : bool) then ret (status_of RemovePending)
  else if decide (jobData = ∅) then ret (status_of RemoveSkipped)
  else
    let* r := runCleanupJob c host osdID
                (om_HostDirectory (default zero_OsdMapping (hostOsdMapping !! osdID))) jobData in
    match r with
    | (jobName, Some e) =>
        ret (mkRemoveStatus RemoveFailed jobName ("failed to run job: " +:+ err_msg e) "" "")
    | (jobName, None) =>
        let* now := GetCurrentTimeString in
        ret (mkRemoveStatus RemoveInProgress jobName "" now "")
    end.

Definition handleJobRun (osdID host : string) (hostOsdMapping : gmap string OsdMapping)
    : IO RemoveStatus :=
  let cur := default zero_OsdMapping (hostOsdMapping !! osdID) in
  match job_status cur with
  | None => start_job osdID host hostOsdMapping
  | Some curStatus =>
      if decide (rs_Status curStatus = RemovePending) then start_job osdID host hostOsdMapping
      else
        let* r := getCleanupJob c (rs_Name curStatus) in
        match r with
        | (_, Some e) =>
            ret (set_rs_Status RemoveFailed
                  (set_rs_Error ("failed to get job info: " +:+ err_msg e) curStatus))
        | (job, None) =>
            if 0 <? js_Active job then ret curStatus
            else if (0 <? js_Failed job) || JobConditionsFailed job then
              ret (set_rs_Status RemoveFailed (set_rs_Error "job failed, check logs" curStatus))
            else if 0 <? js_Succeeded job then
              let* now := GetCurrentTimeString in
              ret (set_rs_FinishedAt now (set_rs_Status RemoveCompleted curStatus))
            else ret curStatus
        end
  end.

(** ** Collecting the OSDs by status *)

(** [reqMap]: the pairs collected so far for each phase. *)
Definition reqmap : Type := RemovePhase → list hostOsdPair.

Definition req_add (p : RemovePhase) (pair : hostOsdPair) (req : reqmap) : reqmap := λ q,
  if decide (q = p) then req q ++ [pair] else req q.

(** The status an OSD gets on the first run: a stray one needs no waiting. *)
Definition initial_phase (host osdID : string) (osdMap : OsdMapping) : RemovePhase :=
  if isStrayOsdID osdID || bool_decide (host = StrayOsdNodeMarker) then
    if om_InCrushMap osdMap then RemoveInProgress else RemoveStray
  else RemovePending.

Definition init_osd (host osdID : string) (osdMap : OsdMapping) : OsdMapping :=
  match om_RemoveStatus osdMap with
  | None =>
      set_om_RemoveStatus
        (Some (mkRemoveResult (Some (status_of (initial_phase host osdID osdMap))) None None)) osdMap
  | Some _ => osdMap
  end.

(** One OSD of the collecting loop: new remove info, [reqMap],
    [osdsNotCompleted]. *)
Definition collect_osd (host : string) (st : TaskRemoveInfo * reqmap * Z)
    (entry : string * OsdMapping) : TaskRemoveInfo * reqmap * Z :=
  let '(ri, req, osdsNotCompleted) := st in
  let '(osdID, osdMap) := entry in
  let hostPair := mkPair host osdID in
  match om_RemoveStatus osdMap with
  | None =>
      (upd_osd host osdID (λ _, init_osd host osdID osdMap) ri,
       req_add (initial_phase host osdID osdMap) hostPair req, osdsNotCompleted)
  | Some rr =>
      match rr_OsdRemoveStatus rr with
      | None => (ri, req, osdsNotCompleted)
      | Some s =>
          (ri,
           req_add (if decide (rs_Status s = RemoveSkipped) then RemoveFinished else rs_Status s)
                   hostPair req,
           if decide (rs_Status s = RemoveFinished ∨ rs_Status s = RemoveSkipped)
           then osdsNotCompleted - 1 else osdsNotCompleted)
      end
  end.

Definition collect_host (st : TaskRemoveInfo * reqmap * list string)
    (entry : string * HostMapping) : TaskRemoveInfo * reqmap * list string :=
  let '(ri, req, hostsToRemove) := st in
  let '(host, hostMap) := entry in
  let '(ri, req, osdsNotCompleted) :=
    foldl (collect_osd host) (ri, req, Z.of_nat (size (hm_OsdMapping hostMap)))
          (range 8 (hm_OsdMapping hostMap)) in
  if (hm_CompleteCleanup hostMap || hm_DropFromCrush hostMap) && (osdsNotCompleted =? 0) &&
     bool_decide (hm_HostRemoveStatus hostMap = None)
  then (ri, req, hostsToRemove ++ [host])
  else (ri, req, hostsToRemove).

Definition collect (ri : TaskRemoveInfo) : TaskRemoveInfo * reqmap * list string :=
  foldl collect_host (ri, λ _, [], []) (range 7 (ri_CleanupMap ri)).

(** ** The loops of one pass *)

Definition remove_host (ri : TaskRemoveInfo) (host : string) : IO TaskRemoveInfo :=
  let* newStatus := removeHostFromCrush host in
  let ri :=
    if decide (rs_Error newStatus ≠ "") then
      set_ri_Warnings (ri_Warnings ri ++
        ["[node '" +:+ host +:+ "'] failed to remove node from crush map: " +:+ rs_Error newStatus]) ri
    else ri in
  ret (set_ri_CleanupMap
        (<[host := set_hm_HostRemoveStatus (Some newStatus)
                     (default zero_HostMapping (ri_CleanupMap ri !! host))]> (ri_CleanupMap ri)) ri).

(** The state of the loop over the finished OSDs. *)
Record fin_state := mkFin {
  fs_ri : TaskRemoveInfo;
  fs_issues : list string;
  fs_notCompleted : Z;
  fs_requeue : bool;
}.

(** [newRemoveInfo.CleanupMap[pair.Host].OsdMapping[pair.OsdID].RemoveStatus.DeviceCleanUpJob = j],
    and the same for [DeployRemoveStatus]. *)
Definition set_job (pair : hostOsdPair) (j : RemoveStatus) (ri : TaskRemoveInfo) : TaskRemoveInfo :=
  upd_result (hp_Host pair) (hp_OsdID pair) (set_rr_DeviceCleanUpJob (Some j)) ri.
Definition set_deploy (pair : hostOsdPair) (d : RemoveStatus) (ri : TaskRemoveInfo) : TaskRemoveInfo :=
  upd_result (hp_Host pair) (hp_OsdID pair) (set_rr_DeployRemoveStatus (Some d)) ri.

(** The branch of a round for a job that is missing, pending or in progress;
    the boolean tells whether to go on with the deployment ([continue]
    otherwise). *)
Definition skip_or_run_job (nothingElse : bool) (st : fin_state) (pair : hostOsdPair)
    (hostMapping : HostMapping) (osdMapping : OsdMapping) : IO (bool * fin_state) :=
  if bool_decide (job_status osdMapping = None) &&
     (hm_NodeIsDown hostMapping || hm_VolumesInfoMissed hostMapping ||
      hm_DropFromCrush hostMapping || bool_decide (om_DeviceMapping osdMapping = ∅)) ||
     om_SkipDeviceCleanupJob osdMapping
  then
    ret (true, mkFin (set_job pair (status_of RemoveSkipped) (fs_ri st)) (fs_issues st)
                 (fs_notCompleted st) (fs_requeue st))
  else
    let* j := handleJobRun (hp_OsdID pair) (hp_Host pair) (hm_OsdMapping hostMapping) in
    if decide (rs_Status j = RemoveCompleted) then
      ret (true, mkFin (set_job pair j (fs_ri st)) (fs_issues st) (fs_notCompleted st) (fs_requeue st))
    else
      ret (false, mkFin (set_job pair j (fs_ri st)) (fs_issues st) (fs_notCompleted st + 1)
                    (if nothingElse then false else fs_requeue st)).

(** The job part of a round. *)
Definition job_part (nothingElse : bool) (st : fin_state) (pair : hostOsdPair)
    (hostMapping : HostMapping) (osdMapping : OsdMapping) : IO (bool * fin_state) :=
  let host := hp_Host pair in
  let osdID := hp_OsdID pair in
  match job_status osdMapping with
  | None => skip_or_run_job nothingElse st pair hostMapping osdMapping
  | Some j =>
      match rs_Status j with
      | RemoveInProgress | RemovePending => skip_or_run_job nothingElse st pair hostMapping osdMapping
      | RemoveFailed =>
          ret (false, mkFin (fs_ri st)
            (fs_issues st ++
              ["[node '" +:+ host +:+ "'] disk cleanup job '" +:+ rs_Name j +:+
               "' has failed, clean up disk/partitions manually";
               "[node '" +:+ host +:+ "'] deployment 'rook-ceph-osd-" +:+ osdID +:+
               "' is not removed, because job '" +:+ rs_Name j +:+ "' is failed"])
            (fs_notCompleted st) (fs_requeue st))
      | RemoveCompleted | RemoveSkipped => ret (true, st)
      | other =>
          ret (false, mkFin
            (set_ri_Warnings (ri_Warnings (fs_ri st) ++
              ["unexpected remove status '" +:+ RemovePhase_str other +:+ "' for device cleanup job '" +:+
               rs_Name j +:+ "', deployment remove for osd '" +:+ osdID +:+ "' on node '" +:+ host +:+
               "' skipped"]) (fs_ri st))
            (fs_issues st) (fs_notCompleted st) (fs_requeue st))
      end
  end.

(** The deployment part of a round. *)
Definition deploy_part (st : fin_state) (pair : hostOsdPair) (osdMapping : OsdMapping)
    : IO fin_state :=
  match om_RemoveStatus osdMapping ≫= rr_DeployRemoveStatus with
  | None =>
      if bool_decide ((rs_Status <$> (om_RemoveStatus osdMapping ≫= rr_OsdRemoveStatus)) = Some RemoveFinished)
         && negb (om_SkipDeviceCleanupJob osdMapping)
      then
        let* d := removeDeployment (hp_OsdID pair) in
        ret (mkFin (set_deploy pair d (fs_ri st)) (fs_issues st) (fs_notCompleted st + 1) (fs_requeue st))
      else
        ret (mkFin (set_deploy pair (status_of RemoveSkipped) (fs_ri st)) (fs_issues st)
               (fs_notCompleted st) (fs_requeue st))
  | Some d =>
      if decide (rs_Status d = RemoveFailed) then
        ret (mkFin (fs_ri st)
              (fs_issues st ++ ["[node '" +:+ hp_Host pair +:+
                                "'] failed to remove deployment 'rook-ceph-osd-" +:+ hp_OsdID pair +:+ "'"])
              (fs_notCompleted st) (fs_requeue st))
      else ret st
  end.

Definition finished_step (nothingElse : bool) (st : fin_state) (pair : hostOsdPair) : IO fin_state :=
  let hostMapping := default zero_HostMapping (ri_CleanupMap (fs_ri st) !! hp_Host pair) in
  let osdMapping := default zero_OsdMapping (hm_OsdMapping hostMapping !! hp_OsdID pair) in
  let* r := job_part nothingElse st pair hostMapping osdMapping in
  let '(go_on, st) := r in
  if (go_on : bool) then deploy_part st pair osdMapping else ret st.

(** The loops that replace the status of each OSD of a phase. *)
Definition set_status (pair : hostOsdPair) (s : RemoveStatus) (ri : TaskRemoveInfo) : TaskRemoveInfo :=
  upd_result (hp_Host pair) (hp_OsdID pair) (set_rr_OsdRemoveStatus (Some s)) ri.

Definition cur_status (ri : TaskRemoveInfo) (pair : hostOsdPair) : RemoveStatus :=
  default zero_RemoveStatus (get_osd_status ri (hp_Host pair) (hp_OsdID pair)).

Definition status_step (f : string → RemoveStatus → IO RemoveStatus)
    (ri : TaskRemoveInfo) (pair : hostOsdPair) : IO TaskRemoveInfo :=
  let* newStatus := f (hp_OsdID pair) (cur_status ri pair) in
  ret (set_status pair newStatus ri).

Definition rebalance_step (st : TaskRemoveInfo * bool) (pair : hostOsdPair)
    : IO (TaskRemoveInfo * bool) :=
  let '(ri, requeue) := st in
  let* newStatus := checkRebalance (hp_OsdID pair) (cur_status ri pair) in
  ret (set_status pair newStatus ri,
       if decide (rs_Status newStatus = RemoveInProgress) then requeue else false).

Definition reset_started (ri : TaskRemoveInfo) (entry : string * string) : TaskRemoveInfo :=
  let '(osd, host) := entry in
  upd_result host osd
    (λ rr, set_rr_OsdRemoveStatus (set_rs_StartedAt EmptyString <$> rr_OsdRemoveStatus rr) rr) ri.

(** The loop over the pending OSDs; it breaks at the first one that leaves the
    pending phase. *)
Fixpoint pending_loop (pairs : list hostOsdPair) (ri : TaskRemoveInfo) (notCompleted : Z)
    (waitingOsd : gmap string string) : IO (TaskRemoveInfo * Z * gmap string string) :=
  match pairs with
  | [] => ret (ri, notCompleted, waitingOsd)
  | p :: rest =>
      let* newStatus := tryToMoveOsdOut (hp_OsdID p)
                          (get_osd_status ri (hp_Host p) (hp_OsdID p)) in
      let ri := set_status p newStatus ri in
      if decide (rs_Status newStatus = RemovePending) then
        pending_loop rest ri (notCompleted + 1) (<[hp_OsdID p := hp_Host p]> waitingOsd)
      else
        ret (foldl reset_started ri (range 9 waitingOsd), notCompleted + 1, ∅)
  end.

Definition is_nil {A} (l : list A) : bool := match l with [] => true | _ => false end.

(** [reqMap[RemovePending]] after the fail check. *)
Definition pending_pairs (req : reqmap) : list hostOsdPair :=
  if negb (is_nil (req RemoveFailed)) && negb (is_nil (req RemovePending))
  then [] else req RemovePending.

Definition failed_issues (pairs : list hostOsdPair) : list string :=
  (λ pair, "[node '" +:+ hp_Host pair +:+ "'] failed to remove osd '" +:+ hp_OsdID pair +:+ "'") <$> pairs.

(** The loops over the stray OSDs, the ones to purge and the rebalancing ones. *)
Definition active_loops (req : reqmap) (ri : TaskRemoveInfo) (requeueNow : bool)
    : IO (TaskRemoveInfo * bool) :=
  let* ri := foldM (status_step removeStray) (req RemoveStray) ri in
  let* ri := foldM (status_step removeFromCrush) (req RemoveInProgress) ri in
  foldM rebalance_step (req RemoveWaitingRebalance) (ri, requeueNow).

(** The part of a pass after the hosts: result, new remove info, requeueNow. *)
Definition process_osds (ri : TaskRemoveInfo) (req : reqmap) : IO (bool * TaskRemoveInfo * bool) :=
  let pending := pending_pairs req in
  let waitingRebalance := req RemoveWaitingRebalance in
  let curIssues := failed_issues (req RemoveFailed) in
  let* fs := foldM (finished_step (is_nil waitingRebalance && is_nil pending))
               (req RemoveFinished) (mkFin ri curIssues 0 true) in
  let ri := set_ri_Issues (SortStrings (fs_issues fs)) (fs_ri fs) in
  let* r := active_loops req ri (fs_requeue fs) in
  let '(ri, requeueNow) := r in
  let notCompleted := fs_notCompleted fs + Z.of_nat (length (req RemoveStray)) +
    Z.of_nat (length (req RemoveInProgress)) + Z.of_nat (length waitingRebalance) in
  if negb (is_nil waitingRebalance) then ret (false, ri, requeueNow)
  else
    let* r := pending_loop pending ri notCompleted ∅ in
    let '(ri, notCompleted, waitingOsd) := r in
    if notCompleted =? 0 then ret (true, ri, requeueNow)
    else ret (false, ri, requeueNow && bool_decide (waitingOsd = ∅)).

(** [processOsdRemoveTask] on the task's remove info: whether the removal is
    finished, the new remove info and the new value of [requeueNow]. *)
Definition processOsdRemoveTask (removeInfo : TaskRemoveInfo) (requeueNow : bool)
    : IO (bool * TaskRemoveInfo * bool) :=
  let '(newRemoveInfo, req, hostsToRemove) := collect removeInfo in
  let* newRemoveInfo := foldM remove_host hostsToRemove newRemoveInfo in
  if requeueNow || negb (is_nil hostsToRemove) then ret (false, newRemoveInfo, true)
  else process_osds newRemoveInfo req.
End executor.
