(* ===== verification/ExecutorFacts.v ===== *)
(** * One pass of the removal: which OSD moves, and how

    The theorems about Executor.v.  The abstract view of a pass is the removal
    phase of every OSD of the cleanup map ([phase_at]); the detailed code is
    shown to move each OSD along [osd_step], to touch nothing but statuses
    ([static]), and to let a single OSD out of the pending phase at a time. *)

From Stdlib Require Import Ascii.
From S2P Require Import Prelude GoTime Types World Helpers TaskUtils CleanupJob Executor.
Open Scope Z_scope.

(** ** Reading the cleanup map *)

Implicit Types (ri : TaskRemoveInfo) (p : hostOsdPair).

Definition phase_at ri p : option RemovePhase :=
  rs_Status <$> get_osd_status ri (hp_Host p) (hp_OsdID p).

Definition result_at ri p : option RemoveResult := get_result ri (hp_Host p) (hp_OsdID p).

(** What no pass changes: a host without its removal statuses. *)
Definition static_host (hm : HostMapping) : HostMapping :=
  set_hm_HostRemoveStatus None
    (set_hm_OsdMapping (set_om_RemoveStatus None <$> hm_OsdMapping hm) hm).
Definition static ri : gmap string HostMapping := static_host <$> ri_CleanupMap ri.

(** The moves a pass may make with an OSD. *)
Inductive osd_step : RemovePhase → RemovePhase → Prop :=
| step_stay ph : osd_step ph ph
| step_out ph : ph ∈ [RemoveWaitingRebalance; RemoveInProgress; RemoveFailed] → osd_step RemovePending ph
| step_rebalanced ph : ph ∈ [RemoveInProgress; RemoveFailed] → osd_step RemoveWaitingRebalance ph
| step_purged ph : ph ∈ [RemoveFinished; RemoveFailed] → osd_step RemoveInProgress ph
| step_stray ph : ph ∈ [RemoveFinished; RemoveSkipped; RemoveFailed] → osd_step RemoveStray ph.
Create HintDb executor discriminated.
#[export] Hint Constructors osd_step : executor.

Definition osd_at ri p : option OsdMapping := get_osd ri (hp_Host p) (hp_OsdID p).

Lemma osd_at_upd p f ri q :
  osd_at (upd_osd (hp_Host p) (hp_OsdID p) f ri) q =
    if decide (q = p) then f <$> osd_at ri p else osd_at ri q.
Proof.
  unfold osd_at, get_osd, upd_osd; simpl. destruct p as [h o], q as [h' o']; simpl.
  rewrite lookup_alter. destruct (decide (h = h')) as [<-|].
  - destruct (ri_CleanupMap ri !! h) as [hm|]; simpl; [|by case_decide].
    rewrite lookup_alter. repeat case_decide; simplify_eq/=; done.
  - by rewrite decide_False by congruence.
Qed.

Lemma result_at_osd ri p : result_at ri p = osd_at ri p ≫= om_RemoveStatus.
Proof. done. Qed.

Lemma phase_at_result ri p :
  phase_at ri p = rs_Status <$> (result_at ri p ≫= rr_OsdRemoveStatus).
Proof. done. Qed.

Lemma result_at_upd p f ri q :
  result_at (upd_result (hp_Host p) (hp_OsdID p) f ri) q =
    if decide (q = p) then f <$> result_at ri p else result_at ri q.
Proof.
  unfold upd_result. rewrite !result_at_osd, osd_at_upd.
  case_decide; [|done]. by destruct (osd_at ri p).
Qed.

Lemma phase_at_set_status p s ri q :
  phase_at (set_status p s ri) q =
    if decide (q = p) then (λ _, rs_Status s) <$> result_at ri p else phase_at ri q.
Proof.
  unfold set_status. rewrite !phase_at_result, result_at_upd.
  case_decide; [|done]. by destruct (result_at ri p).
Qed.

(** An update of the other two statuses of a result. *)
Lemma phase_at_upd p f ri q :
  (∀ rr, rs_Status <$> rr_OsdRemoveStatus (f rr) = rs_Status <$> rr_OsdRemoveStatus rr) →
  phase_at (upd_result (hp_Host p) (hp_OsdID p) f ri) q = phase_at ri q.
Proof.
  intros Hf. rewrite !phase_at_result, result_at_upd. case_decide as Hq; [subst q|done].
  destruct (result_at ri p) as [rr|]; simpl; [apply Hf|done].
Qed.

Lemma phase_at_is_result ri p ph : phase_at ri p = Some ph → is_Some (result_at ri p).
Proof. rewrite phase_at_result. destruct (result_at ri p); [eauto|done]. Qed.

Lemma static_upd_osd h o f ri :
  (∀ om, get_osd ri h o = Some om → set_om_RemoveStatus None (f om) = set_om_RemoveStatus None om) →
  static (upd_osd h o f ri) = static ri.
Proof.
  unfold get_osd. intros Hf. unfold static. apply map_eq; intros i. rewrite !lookup_fmap. unfold upd_osd; simpl.
  rewrite lookup_alter. case_decide; [subst i|done].
  destruct (ri_CleanupMap ri !! h) as [hm|]; simpl in *; [|done]. apply (f_equal Some).
  unfold static_host, set_hm_HostRemoveStatus, set_hm_OsdMapping; simpl. f_equal.
  apply map_eq; intros j. rewrite !lookup_fmap, lookup_alter. case_decide; [subst j|done].
  destruct (hm_OsdMapping hm !! o); simpl; by rewrite ?Hf.
Qed.

Lemma static_upd_result h o f ri : static (upd_result h o f ri) = static ri.
Proof. by apply static_upd_osd. Qed.

Lemma static_osd_at ri ri' p :
  static ri = static ri' →
  set_om_RemoveStatus None <$> osd_at ri p = set_om_RemoveStatus None <$> osd_at ri' p.
Proof.
  intros Hst. unfold osd_at, get_osd.
  assert (static ri !! hp_Host p = static ri' !! hp_Host p) as Hh by by rewrite Hst.
  unfold static in Hh. rewrite !lookup_fmap in Hh.
  destruct (ri_CleanupMap ri !! hp_Host p) as [hm|], (ri_CleanupMap ri' !! hp_Host p) as [hm'|];
    simplify_eq/=; [|done].
  assert (hm_OsdMapping (static_host hm) !! hp_OsdID p = hm_OsdMapping (static_host hm') !! hp_OsdID p) as Ho
    by (unfold static_host; simpl; congruence).
  unfold static_host in Ho; simpl in Ho. by rewrite !lookup_fmap in Ho.
Qed.

(** ** Collecting *)

(** The list of [reqMap] an OSD is put in. *)
Definition osd_class p (om : OsdMapping) : option RemovePhase :=
  match om_RemoveStatus om with
  | None => Some (initial_phase (hp_Host p) (hp_OsdID p) om)
  | Some rr =>
      s ← rr_OsdRemoveStatus rr;
      Some (if decide (rs_Status s = RemoveSkipped) then RemoveFinished else rs_Status s)
  end.

Section collect.
Context `{MapRange}.

(** The two nested loops as one loop over the OSDs of all hosts. *)
Definition entries ri : list (hostOsdPair * OsdMapping) :=
  range 7 (ri_CleanupMap ri) ≫= λ e, (λ e', (mkPair e.1 e'.1, e'.2)) <$> range 8 (hm_OsdMapping e.2).

Definition collect_entry (st : TaskRemoveInfo * reqmap) (e : hostOsdPair * OsdMapping)
    : TaskRemoveInfo * reqmap :=
  (match om_RemoveStatus e.2 with
   | None => upd_osd (hp_Host e.1) (hp_OsdID e.1) (λ _, init_osd (hp_Host e.1) (hp_OsdID e.1) e.2) st.1
   | Some _ => st.1
   end,
   match osd_class e.1 e.2 with
   | Some ph => req_add ph e.1 st.2
   | None => st.2
   end).

Lemma collect_osd_entry host st n e :
  (collect_osd host (st, n) e).1 = collect_entry st (mkPair host e.1, e.2).
Proof.
  destruct st as [ri req], e as [o om]. unfold collect_osd, collect_entry, osd_class; simpl.
  destruct (om_RemoveStatus om) as [rr|]; [|done]. by destruct (rr_OsdRemoveStatus rr).
Qed.

Lemma collect_osds_entries host l st n :
  (foldl (collect_osd host) (st, n) l).1 =
    foldl collect_entry st ((λ e, (mkPair host e.1, e.2)) <$> l).
Proof.
  revert st n. induction l as [|e l IH]; intros st n; [done|].
  rewrite fmap_cons; cbn [foldl]. rewrite <-(collect_osd_entry host st n e).
  destruct (collect_osd host (st, n) e) as [st' n']. apply IH.
Qed.

Lemma collect_host_entries st hosts e :
  (collect_host (st, hosts) e).1 =
    foldl collect_entry st ((λ e', (mkPair e.1 e'.1, e'.2)) <$> range 8 (hm_OsdMapping e.2)).
Proof.
  destruct st as [ri req], e as [h hm]. unfold collect_host.
  rewrite <-(collect_osds_entries h _ _ (Z.of_nat (size (hm_OsdMapping hm)))). cbn [fst snd].
  destruct (foldl _ _ _) as [[ri' req'] n']. by case_match.
Qed.

Lemma collect_hosts_entries l st hosts :
  (foldl collect_host (st, hosts) l).1 =
    foldl collect_entry st
      (l ≫= λ e, (λ e', (mkPair e.1 e'.1, e'.2)) <$> range 8 (hm_OsdMapping e.2)).
Proof.
  revert st hosts. induction l as [|e l IH]; intros st hosts; [done|].
  rewrite bind_cons; cbn [foldl]. rewrite foldl_app, <-(collect_host_entries st hosts e).
  destruct (collect_host (st, hosts) e) as [st' hosts']. apply IH.
Qed.

Lemma collect_entries ri : (collect ri).1 = foldl collect_entry (ri, λ _, []) (entries ri).
Proof. apply collect_hosts_entries. Qed.

Lemma elem_of_entries ri p om : (p, om) ∈ entries ri ↔ osd_at ri p = Some om.
Proof.
  unfold entries, osd_at, get_osd. rewrite list_elem_of_bind. split.
  - intros ([h hm] & ([o om'] & Heq & Ho)%list_elem_of_fmap & Hh). simplify_eq/=.
    apply elem_of_range in Hh, Ho. by rewrite Hh.
  - intros (hm & Hh & Ho)%bind_Some. exists (hp_Host p, hm). rewrite list_elem_of_fmap. split.
    + exists (hp_OsdID p, om). rewrite elem_of_range. by destruct p.
    + by apply elem_of_range.
Qed.

Lemma NoDup_entries ri : NoDup (entries ri).*1.
Proof.
  apply NoDup_fmap_fst.
  { intros p om1 om2. rewrite !elem_of_entries. congruence. }
  apply NoDup_bind.
  - intros [h1 hm1] [h2 hm2] [p om] H1 H2 (?&?&?)%list_elem_of_fmap (?&?&?)%list_elem_of_fmap.
    simplify_eq/=. apply elem_of_range in H1, H2. by simplify_eq.
  - intros [h hm] _. apply NoDup_fmap_2; [|apply NoDup_range]. intros [??] [??] ?. by simplify_eq/=.
  - apply NoDup_range.
Qed.

(** What the loop leaves: every OSD has a status, and each phase lists exactly
    the OSDs of its class. *)
Lemma foldl_collect_entry l ri req :
  NoDup l.*1 → (∀ e, e ∈ l → osd_at ri e.1 = Some e.2) →
  let st := foldl collect_entry (ri, req) l in
  static st.1 = static ri ∧
  (∀ p, osd_at st.1 p =
     if decide (p ∈ l.*1) then init_osd (hp_Host p) (hp_OsdID p) <$> osd_at ri p else osd_at ri p) ∧
  (∀ ph, st.2 ph = req ph ++ (filter (λ e, osd_class e.1 e.2 = Some ph) l).*1).
Proof.
  revert ri req. induction l as [|[p om] l IH]; intros ri req Hnd Hl; csimpl in *.
  { split_and!; [done|done|]. intros ph. by rewrite app_nil_r. }
  apply NoDup_cons in Hnd as [Hp Hnd]. pose proof (Hl (p, om) (list_elem_of_here _ _)) as Hom; simpl in Hom.
  set (ri' := (collect_entry (ri, req) (p, om)).1).
  assert (static ri' = static ri ∧
          ∀ q, osd_at ri' q = if decide (q = p) then Some (init_osd (hp_Host p) (hp_OsdID p) om)
                              else osd_at ri q) as [Hst Hri'].
  { subst ri'. unfold collect_entry, init_osd; simpl. destruct (om_RemoveStatus om) as [rr|] eqn:Hrr.
    - split; [done|]. intros q. by case_decide; subst.
    - split.
      + apply static_upd_osd. intros om' Hom'. unfold osd_at in Hom. rewrite Hom in Hom'.
        by simplify_eq/=.
      + intros q. rewrite osd_at_upd, Hom. by case_decide. }
  destruct (IH ri' (collect_entry (ri, req) (p, om)).2 Hnd) as (IHst & IHat & IHreq).
  { intros e He. rewrite Hri', decide_False; [apply Hl; by right|].
    intros Heq. apply Hp. subst p. by apply (list_elem_of_fmap_2 fst l e). }
  change (collect_entry (ri, req) (p, om)) with (ri', (collect_entry (ri, req) (p, om)).2).
  split_and!; [congruence| |].
  - intros q. rewrite IHat, Hri'. destruct (decide (q = p)) as [->|Hq].
    + rewrite decide_False by done. rewrite decide_True by left. by rewrite Hom.
    + destruct (decide (q ∈ l.*1)).
      * by rewrite decide_True by (by right).
      * rewrite decide_False; [done|]. by rewrite elem_of_cons; intros [].
  - intros ph. rewrite IHreq, filter_cons. unfold collect_entry; simpl. clear.
    destruct (osd_class p om) as [ph'|]; [|by rewrite decide_False].
    unfold req_add. destruct (decide (ph = ph')) as [->|].
    + rewrite decide_True by done. by rewrite <-app_assoc.
    + by rewrite decide_False by congruence.
Qed.

Definition collected ri : TaskRemoveInfo := (collect ri).1.1.
Definition requests ri : reqmap := (collect ri).1.2.

Lemma collected_static ri : static (collected ri) = static ri.
Proof.
  unfold collected. rewrite collect_entries. apply foldl_collect_entry; [apply NoDup_entries|].
  intros [p om] ?. by apply elem_of_entries.
Qed.

Lemma osd_at_collected ri p :
  osd_at (collected ri) p = init_osd (hp_Host p) (hp_OsdID p) <$> osd_at ri p.
Proof.
  unfold collected. rewrite collect_entries.
  destruct (foldl_collect_entry (entries ri) ri (λ _, [])) as (_ & -> & _); [apply NoDup_entries| |].
  { intros [q om] ?. by apply elem_of_entries. }
  case_decide as Hp; [done|]. destruct (osd_at ri p) as [om|] eqn:Hom; [|done].
  destruct Hp. apply (list_elem_of_fmap_2 fst _ (p, om)). by apply elem_of_entries.
Qed.

Lemma requests_eq ri ph : requests ri ph = (filter (λ e, osd_class e.1 e.2 = Some ph) (entries ri)).*1.
Proof.
  unfold requests. rewrite collect_entries.
  destruct (foldl_collect_entry (entries ri) ri (λ _, [])) as (_ & _ & ->); [apply NoDup_entries| |done].
  intros [p om] ?. by apply elem_of_entries.
Qed.

Lemma elem_of_requests ri ph p :
  p ∈ requests ri ph ↔ osd_at ri p ≫= osd_class p = Some ph.
Proof.
  rewrite requests_eq, list_elem_of_fmap. split.
  - intros ([q om] & -> & [Hc He]%list_elem_of_filter). simpl in *.
    apply elem_of_entries in He. by rewrite He.
  - intros (om & Hom & Hc)%bind_Some. exists (p, om). split; [done|].
    apply list_elem_of_filter. split; [done|]. by apply elem_of_entries.
Qed.

Lemma NoDup_requests ri ph : NoDup (requests ri ph).
Proof.
  rewrite requests_eq. eapply sublist_NoDup; [apply NoDup_entries|apply fmap_sublist, sublist_filter].
Qed.
End collect.

(** ** Phases after collecting *)

Section collected_phases.
Context `{MapRange}.

Lemma phase_at_collected ri p :
  phase_at (collected ri) p =
    om ← osd_at ri p;
    match om_RemoveStatus om with
    | None => Some (initial_phase (hp_Host p) (hp_OsdID p) om)
    | Some rr => rs_Status <$> rr_OsdRemoveStatus rr
    end.
Proof.
  rewrite phase_at_result, result_at_osd, osd_at_collected.
  destruct (osd_at ri p) as [om|]; [|done]. simpl. unfold init_osd.
  destruct (om_RemoveStatus om) as [rr|] eqn:Hrr; simpl; by rewrite ?Hrr.
Qed.

Lemma requests_phase ri ph p :
  p ∈ requests ri ph ↔
  ∃ q, phase_at (collected ri) p = Some q ∧
       ph = if decide (q = RemoveSkipped) then RemoveFinished else q.
Proof.
  rewrite elem_of_requests, phase_at_collected. unfold osd_class.
  destruct (osd_at ri p) as [om|]; simpl; [|naive_solver].
  destruct (om_RemoveStatus om) as [rr|]; simpl.
  - destruct (rr_OsdRemoveStatus rr) as [s|]; simpl; naive_solver.
  - assert (initial_phase (hp_Host p) (hp_OsdID p) om ≠ RemoveSkipped) as Hs
      by (unfold initial_phase; repeat case_match; done).
    split.
    + intros [= <-]. eexists; split; [done|]. by rewrite decide_False.
    + intros (q & [= <-] & ->). by rewrite decide_False.
Qed.

Lemma requests_active ri ph p :
  ph ∈ [RemovePending; RemoveWaitingRebalance; RemoveInProgress; RemoveStray; RemoveFailed] →
  p ∈ requests ri ph ↔ phase_at (collected ri) p = Some ph.
Proof.
  intros Hph. rewrite requests_phase. split.
  - intros (q & Hq & ->). rewrite Hq. case_decide; [|done]. by set_unfold in Hph; intuition congruence.
  - intros Hq. exists ph. split; [done|]. rewrite decide_False; [done|]. by intros ->; set_unfold in Hph; intuition congruence.
Qed.

Lemma requests_finished ri p :
  p ∈ requests ri RemoveFinished ↔
  phase_at (collected ri) p = Some RemoveFinished ∨ phase_at (collected ri) p = Some RemoveSkipped.
Proof.
  rewrite requests_phase. split.
  - intros (q & -> & Hq). case_decide; subst; auto.
  - intros [->| ->]; eexists; (split; [done|]); by case_decide.
Qed.

Lemma requests_result ri ph p : p ∈ requests ri ph → is_Some (result_at (collected ri) p).
Proof. rewrite requests_phase. intros (q & Hq & _). by eapply phase_at_is_result. Qed.
End collected_phases.

(** ** What each operation does *)

Section operations.
Context `{World} (c : cephOsdRemoveConfig) (P : event → Prop).
Context (Psleep : ∀ d, P (EvSleep d)) (Pclock : P EvClock).

Let ns : string := cc_Namespace (c_cephCluster c).

Lemma GetCurrentTimeString_spec : spec P GetCurrentTimeString (λ _, True).
Proof using Pclock. by apply spec_call. Qed.

Lemma time_since_spec t : spec P (time_since t) (λ _, True).
Proof using Pclock. by apply spec_call. Qed.

Lemma RunPodCmdAndCheckError_spec cmd node exec :
  spec P exec (λ _, True) → spec P (RunPodCmdAndCheckError cmd node exec) (λ _, True).
Proof. intros Hexec. unfold RunPodCmdAndCheckError. apply spec_bind_any; [done|]. intros a. spec_run. Qed.

Lemma RunCephToolboxCLI_spec namespace cmd :
  P (EvCeph namespace cmd) → spec P (RunCephToolboxCLI namespace cmd) (λ _, True).
Proof.
  intros HP. unfold RunCephToolboxCLI. apply spec_bind_any; [|intros a; spec_run].
  by apply RunPodCmdAndCheckError_spec, spec_call.
Qed.

Lemma RunAndParseCephToolboxCLI_spec {A} (zero : A) decode namespace cmd :
  P (EvCeph namespace cmd) →
  spec P (RunAndParseCephToolboxCLI zero decode namespace cmd) (λ _, True).
Proof.
  intros HP. unfold RunAndParseCephToolboxCLI.
  apply spec_bind_any; [by apply RunCephToolboxCLI_spec|]. intros a. spec_run.
Qed.

Lemma ceph_retry_spec cmd : P (EvCeph ns cmd) → spec P (ceph_retry c cmd) (λ _, True).
Proof using Psleep.
  intros HP. unfold ceph_retry. apply spec_bind_any; [|intros a; by apply spec_ret].
  apply RunFuncWithRetry_emits; [done|]. apply spec_bind_any; [by apply RunCephToolboxCLI_spec|].
  intros a. by apply spec_ret.
Qed.

Lemma scale_retry_spec name : P (EvDeployScale ns name 0) → spec P (scale_retry c name) (λ _, True).
Proof using Psleep.
  intros HP. unfold scale_retry. apply spec_bind_any; [|intros a; by apply spec_ret].
  apply RunFuncWithRetry_emits; [done|]. apply spec_bind_any; [by apply spec_call|]. intros a. spec_run.
Qed.

Hint Resolve GetCurrentTimeString_spec time_since_spec RunCephToolboxCLI_spec
  RunAndParseCephToolboxCLI_spec ceph_retry_spec scale_retry_spec : spec.

Lemma finish_status_spec s : spec P (finish_status s) (λ s', rs_Status s' = RemoveFinished).
Proof using Psleep Pclock. unfold finish_status. by spec_run. Qed.

Lemma removeHostFromCrush_spec host :
  P (EvCeph ns ("ceph osd crush remove " +:+ host)) →
  spec P (removeHostFromCrush c host) (λ s, rs_Status s ∈ [RemoveFinished; RemoveFailed]).
Proof using Psleep Pclock.
  intros HP. unfold removeHostFromCrush, finish_status. spec_run; simpl; mem.
Qed.

(** The id of a deployment and of the Ceph commands: the marker and the UUID of
    a stray OSD are cut off. *)
Definition bare_id (osdID : string) : string :=
  if isStrayOsdID osdID then split_first osdID "." else osdID.

Lemma removeDeployment_spec osdID :
  P (EvDeployDelete ns ("rook-ceph-osd-" +:+ bare_id osdID)) →
  spec P (removeDeployment c osdID) (λ s, rs_Status s ∈ [RemoveFinished; RemoveFailed]).
Proof using Psleep Pclock.
  intros HP. unfold removeDeployment, finish_status, bare_id in *.
  apply spec_bind_any; [eauto with spec|]. intros now. apply spec_bind_any.
  - apply RunFuncWithRetry_emits; [done|]. unfold removeOsdDeployment.
    repeat (apply spec_bind_any; [|intros ?; spec_run]). by apply spec_call.
  - intros [? [e|]]; spec_run; simpl; mem.
Qed.

Lemma removeStray_spec osdID s :
  P (EvCeph ns "ceph osd ls") →
  P (EvDeployScale ns ("rook-ceph-osd-" +:+ split_first osdID ".") 0) →
  P (EvCeph ns ("ceph auth del osd." +:+ split_first osdID ".")) →
  spec P (removeStray c osdID s)
    (λ s', rs_Status s' ∈ [RemoveFinished; RemoveSkipped; RemoveFailed]).
Proof using Psleep Pclock.
  intros Hls Hscale Hauth. unfold removeStray, finish_status.
  apply spec_bind_any; [|intros r; spec_run; simpl; mem].
  apply RunFuncWithRetry_emits; [done|]. spec_run.
Qed.

Lemma removeFromCrush_spec osdID s :
  P (EvDeployScale ns ("rook-ceph-osd-" +:+ bare_id osdID) 0) →
  P (EvCeph ns ("ceph osd purge " +:+ bare_id osdID +:+ " --force --yes-i-really-mean-it")) →
  P (EvCeph ns ("ceph auth del osd." +:+ bare_id osdID)) →
  spec P (removeFromCrush c osdID s) (λ s', rs_Status s' ∈ [RemoveFinished; RemoveFailed]).
Proof using Psleep Pclock.
  intros Hscale Hpurge Hauth. unfold removeFromCrush, finish_status. fold (bare_id osdID). spec_run; simpl; mem.
Qed.

Lemma checkRebalance_spec osdID s :
  P (EvCeph ns ("ceph pg ls-by-osd " +:+ osdID +:+ " --format json")) →
  rs_Status s = RemoveWaitingRebalance →
  spec P (checkRebalance c osdID s)
    (λ s', rs_Status s' ∈ [RemoveWaitingRebalance; RemoveInProgress; RemoveFailed]).
Proof using Psleep Pclock.
  intros Hls Hs. unfold checkRebalance. apply spec_bind_any; [|intros r; spec_run; simpl; rewrite ?Hs; mem].
  apply RunFuncWithRetry_emits; [done|]. unfold checkPgsForOsd. spec_run.
Qed.

Lemma stop_refused_spec osdID cur :
  (∀ s, cur = Some s → rs_Status s = RemovePending) → cur ≠ None →
  spec P (stop_refused c osdID cur) (λ s', rs_Status s' ∈ [RemovePending; RemoveFailed]).
Proof using Psleep Pclock.
  intros Hcur Hne. unfold stop_refused. destruct cur as [s|]; [|done]. pose proof (Hcur s eq_refl) as Hs.
  apply spec_bind_any; [unfold stop_wait_left; spec_run|]. intros a. spec_run; simpl; rewrite ?Hs; mem.
Qed.

Lemma reweight_out_spec osdID s :
  P (EvCeph ns ("ceph osd crush reweight osd." +:+ osdID +:+ " 0.0")) →
  spec P (reweight_out c osdID s) (λ s', rs_Status s' = RemoveFailed ∨ rs_Status s' = rs_Status s).
Proof using Psleep Pclock. intros HP. unfold reweight_out. spec_run; simpl; auto. Qed.

Lemma tryToMoveOsdOut_spec osdID s :
  P (EvCeph ns ("ceph osd info " +:+ osdID +:+ " --format json")) →
  P (EvCeph ns ("ceph osd ok-to-stop " +:+ osdID)) →
  P (EvCeph ns ("ceph osd crush reweight osd." +:+ osdID +:+ " 0.0")) →
  rs_Status s = RemovePending →
  spec P (tryToMoveOsdOut c osdID (Some s)) (λ s', osd_step RemovePending (rs_Status s')).
Proof using Psleep Pclock.
  intros Hinfo Hstop Hrew Hs. unfold tryToMoveOsdOut. apply spec_bind_any.
  { apply RunFuncWithRetry_emits; [done|]. by apply RunAndParseCephToolboxCLI_spec. }
  intros [info [e|]]; [apply spec_ret; constructor; mem|].
  assert (∀ st, rs_Status st ∈ [RemoveWaitingRebalance; RemoveInProgress] →
    spec P (reweight_out c osdID st) (λ s', osd_step RemovePending (rs_Status s'))) as Hout.
  { intros st Hst. eapply spec_post; [by apply reweight_out_spec|].
    mem_inv Hst; intros s' [-> | ->]; rewrite ?Hst; constructor; mem. }
  destruct (oi_In info =? 1), (oi_Up info =? 1); simpl.
  - apply spec_bind_any; [eauto with spec|]. intros [r [e|]]; simpl; [|apply Hout; simpl; mem].
    eapply spec_post; [apply stop_refused_spec; naive_solver|].
    intros s' Hs'. mem_inv Hs'; rewrite Hs'; constructor; mem.
  - apply Hout; simpl; mem.
  - apply spec_bind_any; [eauto with spec|]. intros now. apply spec_ret. constructor; mem.
  - apply spec_bind_any; [eauto with spec|]. intros now. apply spec_ret. constructor; mem.
Qed.
End operations.

(** ** The status loops *)

Definition job_at ri p : option RemovePhase :=
  rs_Status <$> (result_at ri p ≫= rr_DeviceCleanUpJob).
Definition deploy_at ri p : option RemovePhase :=
  rs_Status <$> (result_at ri p ≫= rr_DeployRemoveStatus).
Definition host_statuses ri : gmap string (option RemoveStatus) :=
  hm_HostRemoveStatus <$> ri_CleanupMap ri.

(** [ri'] differs from [ri] in the removal phases only, and there for [l] only. *)
Record moved (l : list hostOsdPair) ri ri' : Prop := {
  moved_static : static ri' = static ri;
  moved_hosts : host_statuses ri' = host_statuses ri;
  moved_job p : job_at ri' p = job_at ri p;
  moved_deploy p : deploy_at ri' p = deploy_at ri p;
  moved_issues : ri_Issues ri' = ri_Issues ri;
  moved_other p : p ∉ l → phase_at ri' p = phase_at ri p;
}.

Lemma moved_refl l ri : moved l ri ri.
Proof. by split. Qed.

Lemma moved_trans l1 l2 l ri1 ri2 ri3 :
  moved l1 ri1 ri2 → moved l2 ri2 ri3 → l1 ⊆ l → l2 ⊆ l → moved l ri1 ri3.
Proof.
  intros H1 H2 Hl1 Hl2. split; intros.
  - by rewrite (moved_static _ _ _ H2), (moved_static _ _ _ H1).
  - by rewrite (moved_hosts _ _ _ H2), (moved_hosts _ _ _ H1).
  - by rewrite (moved_job _ _ _ H2), (moved_job _ _ _ H1).
  - by rewrite (moved_deploy _ _ _ H2), (moved_deploy _ _ _ H1).
  - by rewrite (moved_issues _ _ _ H2), (moved_issues _ _ _ H1).
  - rewrite (moved_other _ _ _ H2), (moved_other _ _ _ H1); auto.
Qed.

Lemma host_statuses_upd h o f ri : host_statuses (upd_osd h o f ri) = host_statuses ri.
Proof.
  unfold host_statuses, upd_osd. apply map_eq; intros i. rewrite !lookup_fmap; simpl.
  rewrite lookup_alter. case_decide; subst; [|done]. by destruct (ri_CleanupMap ri !! i).
Qed.

(** Replacing the removal status of [p], by whatever function. *)
Lemma moved_upd p f ri :
  moved [p] ri
    (upd_result (hp_Host p) (hp_OsdID p) (λ rr, set_rr_OsdRemoveStatus (f rr) rr) ri).
Proof.
  split.
  - apply static_upd_result.
  - apply host_statuses_upd.
  - intros q. unfold job_at. rewrite result_at_upd. case_decide; subst; [|done].
    by destruct (result_at ri p).
  - intros q. unfold deploy_at. rewrite result_at_upd. case_decide; subst; [|done].
    by destruct (result_at ri p).
  - done.
  - intros q Hq. rewrite !phase_at_result, result_at_upd, decide_False; [done|]. set_solver.
Qed.

Lemma moved_set_status p s ri : moved [p] ri (set_status p s ri).
Proof. apply (moved_upd p (λ _, Some s)). Qed.

Lemma phase_at_set_status_eq p s ri :
  is_Some (phase_at ri p) → phase_at (set_status p s ri) p = Some (rs_Status s).
Proof.
  intros [ph Hph]. rewrite phase_at_set_status, decide_True by done.
  by destruct (phase_at_is_result _ _ _ Hph) as [rr ->].
Qed.

Lemma cur_status_phase ri p ph : phase_at ri p = Some ph → rs_Status (cur_status ri p) = ph.
Proof.
  unfold phase_at, cur_status. destruct (get_osd_status _ _ _); simpl; congruence.
Qed.

Section loops.
Context {S : Type} (π : S → TaskRemoveInfo) (P : event → Prop) (R : RemovePhase → Prop).
Context (g : S → hostOsdPair → IO S) (ph : RemovePhase) (l0 : list hostOsdPair).
Hypothesis g_spec : ∀ s p, p ∈ l0 → phase_at (π s) p = Some ph →
  spec P (g s p) (λ s', ∃ st, π s' = set_status p st (π s) ∧ R (rs_Status st)).

(** A loop that gives each OSD of a list of phase [ph] a new status. *)
Lemma moved_loop s :
  NoDup l0 → (∀ p, p ∈ l0 → phase_at (π s) p = Some ph) →
  spec P (foldM g l0 s)
    (λ s', moved l0 (π s) (π s') ∧ ∀ p, p ∈ l0 → ∃ q, phase_at (π s') p = Some q ∧ R q).
Proof using g_spec.
  intros Hnd Hph. eapply spec_post.
  - apply (spec_foldM P g (λ l' s', ∃ l, l0 = l ++ l' ∧ moved l (π s) (π s') ∧
      ∀ p, p ∈ l → ∃ q, phase_at (π s') p = Some q ∧ R q)).
    { exists []. split; [done|]. split; [apply moved_refl|]. set_solver. }
    intros p l' s' (l & Heq & Hmv & Hdone).
    assert (p ∉ l) as Hpl.
    { rewrite Heq in Hnd. apply NoDup_app in Hnd as (_ & Hdisj & _). intros ?. by eapply Hdisj; [|left]. }
    assert (phase_at (π s') p = Some ph) as Hp.
    { rewrite (moved_other _ _ _ Hmv) by done. apply Hph. rewrite Heq. set_solver. }
    eapply spec_post; [apply g_spec; [rewrite Heq; set_solver|done]|].
    intros s1 (st & Hs1 & HR). exists (l ++ [p]). rewrite <-app_assoc. split; [done|]. split.
    + eapply (moved_trans l [p]); [done| |set_solver|set_solver]. rewrite Hs1. apply moved_set_status.
    + intros q. rewrite elem_of_app, list_elem_of_singleton. intros [Hq| ->].
      * destruct (Hdone q Hq) as (ph' & Hph' & HR'). exists ph'. split; [|done].
        rewrite Hs1, (moved_other _ _ _ (moved_set_status p st (π s'))); [done|]. set_solver.
      * exists (rs_Status st). split; [|done]. rewrite Hs1. apply phase_at_set_status_eq. eauto.
  - intros s' (l & Heq & Hmv & Hdone). rewrite app_nil_r in Heq. by subst l.
Qed.
End loops.

(** ** Which devices a cleanup job may zap *)

Lemma set_di_Zap_id (v : DeviceInfo) : di_Zap v = false → set_di_Zap false v = v.
Proof. destruct v; simpl. by intros ->. Qed.

Lemma disable_zap_lookup other devs k d :
  disable_zap other devs k !! d =
    if decide (d = k) then (λ v, if device_released other then v else set_di_Zap false v) <$> devs !! d
    else devs !! d.
Proof.
  unfold disable_zap. destruct (devs !! k) as [v|] eqn:Hk.
  - destruct (di_Zap v) eqn:Hz, (device_released other) eqn:Hr; simpl; case_decide; subst;
      rewrite ?Hk; simpl; rewrite ?set_di_Zap_id, ?lookup_insert_eq, ?lookup_insert_ne by done; done.
  - case_decide; subst; by rewrite ?Hk.
Qed.

Lemma disable_zaps_lookup other keys devs d :
  foldl (disable_zap other) devs keys !! d =
    if decide (d ∈ keys) then (λ v, if device_released other then v else set_di_Zap false v) <$> devs !! d
    else devs !! d.
Proof.
  revert devs. induction keys as [|k keys IH]; intros devs; cbn [foldl]; [by rewrite decide_False by set_solver|].
  rewrite IH, disable_zap_lookup. destruct (decide (d = k)) as [->|Hk].
  - rewrite (decide_True (P := k ∈ k :: keys)) by left. case_decide; [|done].
    destruct (devs !! k); simpl; [|done]. by destruct (device_released other).
  - destruct (decide (d ∈ keys)).
    + by rewrite decide_True by (by right).
    + by rewrite decide_False by set_solver.
Qed.

(** Whether the OSD [e] forbids zapping the device [d] for [cur]. *)
Definition holds_device (cur d : string) (e : string * OsdMapping) : bool :=
  bool_decide (e.1 ≠ cur) && bool_decide (is_Some (om_DeviceMapping e.2 !! d)) &&
  negb (device_released e.2).

Definition runs_job (cur : string) (e : string * OsdMapping) : bool :=
  bool_decide (e.1 ≠ cur) && job_in_phase e.2 RemoveInProgress.

Section job_data.
Context `{MapRange}.

Lemma job_data_loop_eq cur devs l :
  let r := job_data_loop cur devs l in
  r.1 = existsb (runs_job cur) l ∧
  (r.1 = false → ∀ d, r.2 !! d =
    (λ v, if existsb (holds_device cur d) l then set_di_Zap false v else v) <$> devs !! d).
Proof.
  revert devs. induction l as [|[o om] l IH]; intros devs; cbn [job_data_loop existsb].
  { split; [done|]. intros _ d; simpl. by destruct (devs !! d). }
  destruct (decide (o = cur)) as [->|Ho].
  { assert (runs_job cur (cur, om) = false ∧ ∀ d, holds_device cur d (cur, om) = false) as [-> Hh].
    { unfold runs_job, holds_device; simpl. rewrite (bool_decide_eq_false_2 (cur ≠ cur)) by naive_solver. done. }
    destruct (IH devs) as [IH1 IH2]. split; [done|]. intros Hr d. rewrite Hh. by apply IH2. }
  assert (runs_job cur (o, om) = job_in_phase om RemoveInProgress) as ->.
  { unfold runs_job; simpl. by rewrite (bool_decide_eq_true_2 (o ≠ cur)) by done. }
  destruct (job_in_phase om RemoveInProgress) eqn:Hj; simpl; [done|].
  edestruct IH as [IH1 IH2]. split; [apply IH1|]. intros Hr d. rewrite IH2 by done.
  rewrite disable_zaps_lookup.
  assert (holds_device cur d (o, om) =
    bool_decide (is_Some (om_DeviceMapping om !! d)) && negb (device_released om)) as ->.
  { unfold holds_device; simpl. by rewrite (bool_decide_eq_true_2 (o ≠ cur)) by done. }
  destruct (devs !! d) as [v|]; [|by case_decide].
  assert (d ∈ (range 6 (om_DeviceMapping om)).*1 ↔ is_Some (om_DeviceMapping om !! d)) as Hiff.
  { rewrite list_elem_of_fmap. split.
    - intros ([d' v'] & -> & Hin%elem_of_range). eauto.
    - intros [v' Hv']. exists (d, v'). by rewrite elem_of_range. }
  case_decide as Hd.
  - rewrite bool_decide_eq_true_2 by (by apply Hiff). simpl.
    destruct (device_released om); simpl; [done|]. destruct (existsb (holds_device cur d) l); reflexivity.
  - rewrite bool_decide_eq_false_2 by (by rewrite <-Hiff). done.
Qed.
End job_data.
