(* ===== verification/ExecutorPass.v ===== *)
(** * One pass of the removal as a whole

    The loops of Executor.v put together: the refinement of a pass to
    [osd_step], the order between device cleanup and deployment removal, what a
    pass may ask of the cluster, and when the removal is over. *)

From S2P Require Import Prelude GoTime Types World Helpers TaskUtils CleanupJob Executor ExecutorFacts.
Open Scope Z_scope.

Implicit Types (ri : TaskRemoveInfo) (p : hostOsdPair).

(** ** The loop over the pending OSDs *)

Lemma moved_reset_started ri e :
  moved [] ri (reset_started ri e).
Proof.
  destruct e as [o h]. unfold reset_started.
  pose proof (moved_upd (mkPair h o) (λ rr, set_rs_StartedAt EmptyString <$> rr_OsdRemoveStatus rr) ri)
    as [Hst Hh Hj Hd Hi _].
  split; try done. intros p _. apply (phase_at_upd (mkPair h o)).
  intros rr; simpl. by destruct (rr_OsdRemoveStatus rr).
Qed.

Lemma moved_reset_all l ri : moved [] ri (foldl reset_started ri l).
Proof.
  revert ri. induction l as [|e l IH]; intros ri; simpl; [apply moved_refl|].
  eapply moved_trans; [apply moved_reset_started|apply IH|done..].
Qed.

(** What the loop does to the OSDs [l]: at most one of them leaves the pending
    phase. *)
Record pending_moved (l : list hostOsdPair) ri ri' : Prop := {
  pm_moved : moved l ri ri';
  pm_step p : p ∈ l → ∃ q, phase_at ri' p = Some q ∧ osd_step RemovePending q;
  pm_single p q : p ∈ l → q ∈ l → phase_at ri' p ≠ Some RemovePending →
    phase_at ri' q ≠ Some RemovePending → p = q;
}.

Section pending.
Context `{World} `{MapRange} (c : cephOsdRemoveConfig) (P : event → Prop).
Context (Psleep : ∀ d, P (EvSleep d)) (Pclock : P EvClock).

Let ns : string := cc_Namespace (c_cephCluster c).

Definition may_move_out p : Prop :=
  P (EvCeph ns ("ceph osd info " +:+ hp_OsdID p +:+ " --format json")) ∧
  P (EvCeph ns ("ceph osd ok-to-stop " +:+ hp_OsdID p)) ∧
  P (EvCeph ns ("ceph osd crush reweight osd." +:+ hp_OsdID p +:+ " 0.0")).

Lemma pending_loop_spec l ri n w :
  NoDup l → (∀ p, p ∈ l → phase_at ri p = Some RemovePending) → (∀ p, p ∈ l → may_move_out p) →
  spec P (pending_loop c l ri n w)
    (λ r, pending_moved l ri r.1.1 ∧ n + (if is_nil l then 0 else 1) ≤ r.1.2).
Proof using Psleep Pclock.
  revert ri n w. induction l as [|p l IH]; intros ri n w Hnd Hph Hmay; simpl.
  { apply spec_ret; simpl. split; [|lia]. split; [apply moved_refl|set_solver..]. }
  apply NoDup_cons in Hnd as [Hp Hnd].
  pose proof (Hph p (list_elem_of_here _ _)) as Hphp.
  assert (∃ s, get_osd_status ri (hp_Host p) (hp_OsdID p) = Some s ∧ rs_Status s = RemovePending)
    as (s & Hs & Hsp).
  { unfold phase_at in Hphp. destruct (get_osd_status _ _ _) as [s|]; [|done]. exists s.
    by simplify_eq/=. }
  rewrite Hs. destruct (Hmay p (list_elem_of_here _ _)) as (?&?&?).
  eapply spec_bind; [by apply tryToMoveOsdOut_spec|]. intros s' Hs'. cbn beta in Hs'.
  pose proof (moved_set_status p s' ri) as Hmv.
  pose proof (phase_at_set_status_eq p s' ri (mk_is_Some _ _ Hphp)) as Heq.
  assert (∀ q, q ∈ l → phase_at (set_status p s' ri) q = Some RemovePending) as Hrest.
  { intros q Hq. rewrite (moved_other _ _ _ Hmv); [apply Hph; set_solver|]. set_solver. }
  case_decide as Hpend.
  - eapply spec_post; [apply IH; [done|done|set_solver]|].
    intros [[ri' n'] w'] [[Hm Hstep Hone] Hn]; simpl in *. split.
    2: { destruct (is_nil l); lia. }
    assert (phase_at ri' p = Some RemovePending) as Hp'.
    { rewrite (moved_other _ _ _ Hm) by done. congruence. }
    split.
    + eapply moved_trans; [done|done|set_solver|set_solver].
    + intros q [->|Hq]%elem_of_cons; [|auto]. eexists. split; [done|constructor].
    + intros q q' [->|Hq]%elem_of_cons [->|Hq']%elem_of_cons ??; [done|done|done|by apply Hone].
  - apply spec_ret; simpl. split; [|lia].
    pose proof (moved_reset_all (range 9 w) (set_status p s' ri)) as Hm.
    split.
    + eapply moved_trans; [done|done|set_solver|set_solver].
    + intros q. rewrite (moved_other _ _ _ Hm) by set_solver. intros [->|Hq]%elem_of_cons; [eauto|].
      eexists. split; [by apply Hrest|constructor].
    + intros q q'. rewrite !(moved_other _ _ _ Hm) by set_solver.
      intros [->|Hq]%elem_of_cons [->|Hq']%elem_of_cons; [done| | |].
      * rewrite (Hrest q' Hq'). congruence.
      * rewrite (Hrest q Hq). congruence.
      * rewrite (Hrest q Hq). congruence.
Qed.
End pending.

(** ** Device cleanup and deployment of a finished OSD *)

(** The moves of a device cleanup job; [None]: no job yet. *)
Inductive job_step : option RemovePhase → option RemovePhase → Prop :=
| job_stay j : job_step j j
| job_begin j ph : j ∈ [None; Some RemovePending] →
    ph ∈ [RemoveSkipped; RemovePending; RemoveInProgress; RemoveFailed] → job_step j (Some ph)
| job_end ph : ph ∈ [RemoveCompleted; RemoveFailed; RemoveSkipped] →
    job_step (Some RemoveInProgress) (Some ph).

(** The job of [p] is over, in a way that lets its deployment go. *)
Definition cleanup_over ri p : Prop :=
  job_at ri p = Some RemoveCompleted ∨ job_at ri p = Some RemoveSkipped.

(** The devices of [p] may be cleaned at all. *)
Definition cleanup_allowed ri p : Prop :=
  ∃ hm om, ri_CleanupMap ri !! hp_Host p = Some hm ∧ hm_OsdMapping hm !! hp_OsdID p = Some om ∧
    hm_NodeIsDown hm = false ∧ hm_VolumesInfoMissed hm = false ∧ hm_DropFromCrush hm = false ∧
    om_DeviceMapping om ≠ ∅ ∧ om_SkipDeviceCleanupJob om = false.

Lemma cleanup_allowed_static ri ri' p :
  static ri = static ri' → cleanup_allowed ri p → cleanup_allowed ri' p.
Proof.
  intros Hst (hm & om & Hhm & Hom & Hprops).
  assert (static ri !! hp_Host p = static ri' !! hp_Host p) as Hh by by rewrite Hst.
  unfold static in Hh. rewrite !lookup_fmap, Hhm in Hh.
  destruct (ri_CleanupMap ri' !! hp_Host p) as [hm'|] eqn:Hhm'; simplify_eq/=.
  assert (set_om_RemoveStatus None <$> osd_at ri p = set_om_RemoveStatus None <$> osd_at ri' p) as Ho
    by (by apply static_osd_at).
  unfold osd_at, get_osd in Ho. rewrite Hhm, Hhm' in Ho. simpl in Ho. rewrite Hom in Ho.
  destruct (hm_OsdMapping hm' !! hp_OsdID p) as [om'|] eqn:Hom'; simplify_eq/=.
  exists hm', om'. unfold static_host, set_hm_HostRemoveStatus, set_hm_OsdMapping in Hh. simpl in Hh.
  unfold set_om_RemoveStatus in Ho. simplify_eq. naive_solver congruence.
Qed.

(** A job waits or runs only where it is allowed to. *)
Definition jobs_allowed ri : Prop :=
  ∀ p, job_at ri p = Some RemovePending ∨ job_at ri p = Some RemoveInProgress → cleanup_allowed ri p.

Lemma cleanup_over_result ri p : cleanup_over ri p → is_Some (result_at ri p).
Proof. unfold cleanup_over, job_at. destruct (result_at ri p); [eauto|]. by intros []. Qed.

Section jobs.
Context `{World} `{MapRange} (c : cephOsdRemoveConfig) (P : event → Prop).
Context (Psleep : ∀ d, P (EvSleep d)) (Pclock : P EvClock).

Let ns : string := cc_Namespace (c_cephCluster c).
Let tns : string := task_Namespace (c_task c).

Definition may_run_job (host : string) : Prop :=
  ∀ job, job_Namespace job = tns → job_NodeSelector job = {[ LabelHostname := host ]} →
    P (EvJobGet tns (job_Name job)) ∧ P (EvJobDelete tns (job_Name job)) ∧ P (EvJobCreate job).

Lemma createCleanupJob_spec host job :
  may_run_job host → job_Namespace job = tns → job_NodeSelector job = {[ LabelHostname := host ]} →
  spec P (createCleanupJob job) (λ _, True).
Proof using Psleep.
  intros Hmay Hns Hsel. destruct (Hmay job Hns Hsel) as (Hget & Hdel & Hcreate).
  unfold createCleanupJob. rewrite Hns. apply spec_bind_any; [|intros r; by apply spec_ret].
  apply RunFuncWithRetry_emits; [done|]. apply spec_bind_any; [by apply spec_call|]. intros [js [e|]].
  - case_match; [|by apply spec_ret]. apply spec_bind_any; [by apply spec_call|]. intros [e'|]; by apply spec_ret.
  - case_match; [by apply spec_ret|]. apply spec_bind_any; [by apply spec_call|]. intros [e'|]; [by apply spec_ret|].
    apply spec_bind_any; [by apply spec_call|]. intros [e'|]; by apply spec_ret.
Qed.

Lemma runCleanupJob_spec host osdID dir devs :
  may_run_job host → spec P (runCleanupJob c host osdID dir devs) (λ _, True).
Proof using Psleep.
  intros Hmay. unfold runCleanupJob. repeat case_match; try by apply spec_ret.
  all: apply spec_bind_any; [|intros r; by apply spec_ret]; by eapply createCleanupJob_spec.
Qed.

Lemma getCleanupJob_spec name :
  P (EvJobGet tns name) → spec P (getCleanupJob c name) (λ _, True).
Proof using Psleep. intros HP. apply RunFuncWithRetry_emits; [done|]. by apply spec_call. Qed.

(** No OSD of the host but [osdID] has a running job. *)
Definition alone (osdID : string) (m : gmap string OsdMapping) : Prop :=
  ∀ o om, m !! o = Some om → o ≠ osdID → rs_Status <$> job_status om ≠ Some RemoveInProgress.

Lemma start_job_spec osdID host m j :
  may_run_job host → j ∈ [None; Some RemovePending] →
  spec P (start_job c osdID host m) (λ s,
    job_step j (Some (rs_Status s)) ∧ (rs_Status s = RemoveInProgress → alone osdID m)).
Proof using Psleep Pclock.
  intros Hmay Hj. unfold start_job, getJobData.
  set (devs := om_DeviceMapping _).
  pose proof (job_data_loop_eq osdID devs (range 5 m)) as [Hpar _].
  destruct (job_data_loop _ _ _) as [par data]. simpl in Hpar.
  destruct par; [apply spec_ret; split; [constructor; mem|done]|].
  case_decide; [apply spec_ret; split; [constructor; mem|done]|].
  apply spec_bind_any; [by apply runCleanupJob_spec|].
  intros [name [e|]]; [apply spec_ret; split; [constructor; mem|done]|].
  apply spec_bind_any; [by apply GetCurrentTimeString_spec|]. intros now. apply spec_ret.
  split; [constructor; mem|]. intros _ o om Ho Hne Hrun.
  assert (existsb (runs_job osdID) (range 5 m) = true) as Hex; [|congruence].
  apply existsb_exists. exists (o, om). split; [by apply list_elem_of_In, elem_of_range|].
  unfold runs_job, job_in_phase; simpl. rewrite bool_decide_eq_true_2 by done.
  destruct (job_status om); simplify_eq/=. by rewrite bool_decide_eq_true_2.
Qed.

(** [handleJobRun] on an OSD whose job is not over. *)
Lemma handleJobRun_spec osdID host m om :
  may_run_job host → (∀ name, P (EvJobGet tns name)) →
  m !! osdID = Some om →
  rs_Status <$> job_status om ∈ [None; Some RemovePending; Some RemoveInProgress] →
  spec P (handleJobRun c osdID host m) (λ s,
    job_step (rs_Status <$> job_status om) (Some (rs_Status s)) ∧
    (rs_Status s = RemoveInProgress → rs_Status <$> job_status om ≠ Some RemoveInProgress →
      alone osdID m)).
Proof using Psleep Pclock.
  intros Hmay Hget Hom Hj. unfold handleJobRun. rewrite Hom. simpl.
  destruct (job_status om) as [cur|] eqn:Hcur; simpl in *.
  2: { eapply spec_post; [apply (start_job_spec osdID host m None); [done|mem]|]. naive_solver. }
  case_decide as Hpend.
  { eapply spec_post; [apply (start_job_spec osdID host m (Some (rs_Status cur))); [done|rewrite Hpend; mem]|].
    naive_solver. }
  assert (rs_Status cur = RemoveInProgress) as Hrun by (mem_inv Hj; congruence). rewrite Hrun.
  apply spec_bind_any; [by apply getCleanupJob_spec|]. intros [job [e|]].
  { apply spec_ret; simpl. split; [constructor; mem|done]. }
  destruct (0 <? js_Active job).
  { apply spec_ret. rewrite Hrun. split; [constructor|congruence]. }
  destruct ((0 <? js_Failed job) || JobConditionsFailed job).
  { apply spec_ret; simpl. split; [constructor; mem|done]. }
  destruct (0 <? js_Succeeded job).
  2: { apply spec_ret. rewrite Hrun. split; [constructor|congruence]. }
  apply spec_bind_any; [by apply GetCurrentTimeString_spec|]. intros now. apply spec_ret; simpl.
  split; [constructor; mem|done].
Qed.
End jobs.

(** [ri'] differs from [ri] in the job and the deployment status of [p] only
    (and in warnings). *)
Record touches p ri ri' : Prop := {
  tc_static : static ri' = static ri;
  tc_hosts : host_statuses ri' = host_statuses ri;
  tc_phase q : phase_at ri' q = phase_at ri q;
  tc_other q : q ≠ p → result_at ri' q = result_at ri q;
}.

Lemma touches_refl p ri : touches p ri ri.
Proof. by split. Qed.

Lemma touches_trans p ri1 ri2 ri3 : touches p ri1 ri2 → touches p ri2 ri3 → touches p ri1 ri3.
Proof.
  intros H1 H2. split; intros.
  - by rewrite (tc_static _ _ _ H2), (tc_static _ _ _ H1).
  - by rewrite (tc_hosts _ _ _ H2), (tc_hosts _ _ _ H1).
  - by rewrite (tc_phase _ _ _ H2), (tc_phase _ _ _ H1).
  - by rewrite (tc_other _ _ _ H2), (tc_other _ _ _ H1).
Qed.

Lemma touches_upd p f ri :
  (∀ rr, rr_OsdRemoveStatus (f rr) = rr_OsdRemoveStatus rr) →
  touches p ri (upd_result (hp_Host p) (hp_OsdID p) f ri).
Proof.
  intros Hf. split.
  - apply static_upd_result.
  - apply host_statuses_upd.
  - intros q. apply phase_at_upd. intros rr. by rewrite Hf.
  - intros q Hq. by rewrite result_at_upd, decide_False.
Qed.

Lemma set_job_at p j ri :
  is_Some (result_at ri p) →
  job_at (set_job p j ri) p = Some (rs_Status j) ∧ deploy_at (set_job p j ri) p = deploy_at ri p.
Proof.
  intros [rr Hrr]. unfold job_at, deploy_at, set_job. rewrite result_at_upd, decide_True by done.
  by rewrite Hrr.
Qed.

Lemma set_deploy_at p d ri :
  is_Some (result_at ri p) →
  deploy_at (set_deploy p d ri) p = Some (rs_Status d) ∧ job_at (set_deploy p d ri) p = job_at ri p.
Proof.
  intros [rr Hrr]. unfold job_at, deploy_at, set_deploy. rewrite result_at_upd, decide_True by done.
  by rewrite Hrr.
Qed.

Lemma touches_set_job p j ri : touches p ri (set_job p j ri).
Proof. by apply touches_upd. Qed.
Lemma touches_set_deploy p d ri : touches p ri (set_deploy p d ri).
Proof. by apply touches_upd. Qed.

Lemma job_at_osd ri p om : osd_at ri p = Some om → job_at ri p = rs_Status <$> job_status om.
Proof. intros Hom. unfold job_at. by rewrite result_at_osd, Hom. Qed.

(** The statuses a cleanup job can have. *)
Definition job_known (j : option RemovePhase) : Prop :=
  j ∈ [None; Some RemovePending; Some RemoveInProgress; Some RemoveCompleted;
       Some RemoveFailed; Some RemoveSkipped].

(** ** One round of the loop over the finished OSDs *)

Section finished.
Context `{World} `{MapRange} (c : cephOsdRemoveConfig) (P : event → Prop).
Context (Psleep : ∀ d, P (EvSleep d)) (Pclock : P EvClock).

Let ns : string := cc_Namespace (c_cephCluster c).
Let tns : string := task_Namespace (c_task c).
Hypothesis Pget : ∀ name, P (EvJobGet tns name).

(** What the job part of a round establishes. *)
Record job_round p (st : fin_state) (r : bool * fin_state) : Prop := {
  jr_touches : touches p (fs_ri st) (fs_ri r.2);
  jr_step : job_step (job_at (fs_ri st) p) (job_at (fs_ri r.2) p);
  jr_alone : job_at (fs_ri r.2) p = Some RemoveInProgress →
    job_at (fs_ri st) p ≠ Some RemoveInProgress →
    ∀ q, hp_Host q = hp_Host p → q ≠ p → job_at (fs_ri st) q ≠ Some RemoveInProgress;
  jr_allowed : job_at (fs_ri r.2) p = Some RemovePending ∨ job_at (fs_ri r.2) p = Some RemoveInProgress →
    cleanup_allowed (fs_ri st) p;
  jr_deploy : deploy_at (fs_ri r.2) p = deploy_at (fs_ri st) p;
  jr_over : r.1 = true → cleanup_over (fs_ri r.2) p ∧
    fs_notCompleted r.2 = fs_notCompleted st ∧ fs_issues r.2 = fs_issues st;
  jr_not : r.1 = false →
    fs_notCompleted r.2 = fs_notCompleted st + 1 ∧ fs_issues r.2 = fs_issues st ∨
    fs_notCompleted r.2 = fs_notCompleted st ∧
      ∃ new, fs_issues r.2 = fs_issues st ++ new ∧ (new ≠ [] ∨ ¬ job_known (job_at (fs_ri st) p));
}.

Lemma alone_host ri p hm :
  ri_CleanupMap ri !! hp_Host p = Some hm → alone (hp_OsdID p) (hm_OsdMapping hm) →
  ∀ q, hp_Host q = hp_Host p → q ≠ p → job_at ri q ≠ Some RemoveInProgress.
Proof.
  intros Hhm Hal q Hq Hne. unfold job_at. rewrite result_at_osd. unfold osd_at, get_osd.
  rewrite Hq, Hhm. simpl. destruct (hm_OsdMapping hm !! hp_OsdID q) as [om|] eqn:Hom; [|done]. simpl.
  apply (Hal _ _ Hom). intros Heq. apply Hne. destruct p, q; simpl in *; congruence.
Qed.

Lemma run_allowed ri p hm om :
  ri_CleanupMap ri !! hp_Host p = Some hm → hm_OsdMapping hm !! hp_OsdID p = Some om →
  (rs_Status <$> job_status om ∈ [Some RemovePending; Some RemoveInProgress] → cleanup_allowed ri p) →
  rs_Status <$> job_status om ∈ [None; Some RemovePending; Some RemoveInProgress] →
  bool_decide (job_status om = None) &&
    (hm_NodeIsDown hm || hm_VolumesInfoMissed hm || hm_DropFromCrush hm ||
     bool_decide (om_DeviceMapping om = ∅)) || om_SkipDeviceCleanupJob om = false →
  cleanup_allowed ri p.
Proof.
  intros Hhm Hom Hinv Hopen [Hb Hskip]%orb_false_iff. apply elem_of_cons in Hopen as [Hnone|Hopen]; [|auto].
  rewrite bool_decide_eq_true_2 in Hb by (by destruct (job_status om)). simpl in Hb.
  rewrite !orb_false_iff, bool_decide_eq_false in Hb. exists hm, om. naive_solver.
Qed.

Lemma skip_or_run_job_spec nothingElse st p hm om :
  (cleanup_allowed (fs_ri st) p → may_run_job c P (hp_Host p)) →
  ri_CleanupMap (fs_ri st) !! hp_Host p = Some hm → hm_OsdMapping hm !! hp_OsdID p = Some om →
  is_Some (result_at (fs_ri st) p) → job_at (fs_ri st) p = rs_Status <$> job_status om →
  (rs_Status <$> job_status om ∈ [Some RemovePending; Some RemoveInProgress] →
   cleanup_allowed (fs_ri st) p) →
  rs_Status <$> job_status om ∈ [None; Some RemovePending; Some RemoveInProgress] →
  spec P (skip_or_run_job c nothingElse st p hm om) (job_round p st).
Proof using Psleep Pclock Pget.
  intros Hmay Hhm Hom Hres Hj Hinv Hopen. unfold skip_or_run_job.
  assert (∀ j b n rq, rs_Status j ≠ RemoveInProgress ∨ rs_Status <$> job_status om = Some RemoveInProgress ∨
            alone (hp_OsdID p) (hm_OsdMapping hm) →
    rs_Status j = RemoveSkipped ∨ cleanup_allowed (fs_ri st) p →
    job_step (rs_Status <$> job_status om) (Some (rs_Status j)) →
    (b = true → rs_Status j ∈ [RemoveCompleted; RemoveSkipped] ∧ n = fs_notCompleted st) →
    (b = false → n = fs_notCompleted st + 1) →
    job_round p st (b, mkFin (set_job p j (fs_ri st)) (fs_issues st) n rq)) as Hround.
  { intros j b n rq Hal Hok Hstep Hb1 Hb2. destruct (set_job_at p j _ Hres) as [Hja Hda]. split; simpl.
    - apply touches_set_job.
    - by rewrite Hj, Hja.
    - rewrite Hja, Hj. intros [= Hrun] Hne. destruct Hal as [?|[?|?]]; [done..|]. by eapply alone_host.
    - rewrite Hja. destruct Hok as [->|?]; [|done]. by intros [].
    - done.
    - intros Hb. destruct (Hb1 Hb) as [Hin ?]. split; [|done]. unfold cleanup_over. rewrite Hja.
      mem_inv Hin; rewrite Hin; auto.
    - intros Hb. left. auto. }
  destruct (bool_decide (job_status om = None) && _ || _) eqn:Hskip.
  - apply spec_ret. apply Hround; [by left|by left| |intros _; split; [simpl; mem|done]|done].
    mem_inv Hopen; rewrite Hopen; constructor; mem.
  - assert (cleanup_allowed (fs_ri st) p) as Hok by (by eapply run_allowed).
    specialize (Hmay Hok). eapply spec_bind; [by apply handleJobRun_spec|]. intros j [Hstep Hal]. cbn beta in *.
    assert (rs_Status j ≠ RemoveInProgress ∨ rs_Status <$> job_status om = Some RemoveInProgress ∨
            alone (hp_OsdID p) (hm_OsdMapping hm)) as Hal'.
    { destruct (decide (rs_Status j = RemoveInProgress)); [|by left].
      destruct (decide (rs_Status <$> job_status om = Some RemoveInProgress)); auto. }
    destruct (decide (rs_Status j = RemoveCompleted)) as [Hc|Hc]; apply spec_ret; apply Hround; auto; try done.
    intros _. rewrite Hc. split; [mem|done].
Qed.

Lemma job_part_spec nothingElse st p hm om :
  (cleanup_allowed (fs_ri st) p → may_run_job c P (hp_Host p)) →
  ri_CleanupMap (fs_ri st) !! hp_Host p = Some hm → hm_OsdMapping hm !! hp_OsdID p = Some om →
  is_Some (om_RemoveStatus om) → jobs_allowed (fs_ri st) →
  spec P (job_part c nothingElse st p hm om) (job_round p st).
Proof using Psleep Pclock Pget.
  intros Hmay Hhm Hom [rr Hrr] Hinv.
  assert (osd_at (fs_ri st) p = Some om) as Hosd by (unfold osd_at, get_osd; by rewrite Hhm).
  assert (is_Some (result_at (fs_ri st) p)) as Hres by (rewrite result_at_osd, Hosd; eauto).
  pose proof (job_at_osd _ _ _ Hosd) as Hj. specialize (Hinv p).
  assert (rs_Status <$> job_status om ∈ [Some RemovePending; Some RemoveInProgress] →
          cleanup_allowed (fs_ri st) p) as Hinv'.
  { intros Hin. apply Hinv. rewrite Hj. mem_inv Hin; auto. }
  unfold job_part. destruct (job_status om) as [j|] eqn:Hjob; simpl in *.
  2: { apply skip_or_run_job_spec; try done; rewrite ?Hjob; [done|done|mem]. }
  destruct (rs_Status j) eqn:Hs.
  2, 4: apply skip_or_run_job_spec; try done; rewrite ?Hjob; simpl; rewrite ?Hs; [done|done|mem].
  all: apply spec_ret; split; simpl; try done; try apply touches_refl; try apply job_stay; try by rewrite Hj.
  all: try (rewrite Hj; by intros []).
  all: intros _.
  all: try (split; [unfold cleanup_over; rewrite Hj; auto|done]).
  all: right; split; [done|].
  all: try (eexists; split; [done|by left]).
  all: exists []; rewrite app_nil_r; split; [done|].
  all: right; rewrite Hj; intros Hk; unfold job_known in Hk; mem_inv Hk; done.
Qed.

(** What the deployment part establishes. *)
Record deploy_round p (st st' : fin_state) : Prop := {
  dr_touches : touches p (fs_ri st) (fs_ri st');
  dr_job : job_at (fs_ri st') p = job_at (fs_ri st) p;
  dr_deploy : deploy_at (fs_ri st') p = deploy_at (fs_ri st) p ∨ deploy_at (fs_ri st) p = None;
  dr_end :
    fs_notCompleted st' = fs_notCompleted st + 1 ∧ fs_issues st' = fs_issues st ∨
    fs_notCompleted st' = fs_notCompleted st ∧
      ((∃ i, fs_issues st' = fs_issues st ++ [i]) ∨
       fs_issues st' = fs_issues st ∧ deploy_at (fs_ri st') p ≠ None ∧
       deploy_at (fs_ri st') p ≠ Some RemoveFailed);
}.

Lemma deploy_part_spec st p om :
  (phase_at (fs_ri st) p = Some RemoveFinished → om_SkipDeviceCleanupJob om = false →
   P (EvDeployDelete ns ("rook-ceph-osd-" +:+ bare_id (hp_OsdID p)))) →
  is_Some (result_at (fs_ri st) p) →
  deploy_at (fs_ri st) p = rs_Status <$> (om_RemoveStatus om ≫= rr_DeployRemoveStatus) →
  phase_at (fs_ri st) p = rs_Status <$> (om_RemoveStatus om ≫= rr_OsdRemoveStatus) →
  spec P (deploy_part c st p om) (deploy_round p st).
Proof using Psleep Pclock.
  intros HP Hres Hd Hph. unfold deploy_part.
  destruct (om_RemoveStatus om ≫= rr_DeployRemoveStatus) as [d|]; simpl in *.
  { destruct (decide (rs_Status d = RemoveFailed)) as [Hf|Hf]; apply spec_ret.
    - split; simpl; [apply touches_refl|done|by left|]. right. eauto.
    - split; [apply touches_refl|done|by left|]. right. split; [done|]. right. rewrite Hd. naive_solver. }
  rewrite <-Hph. destruct (bool_decide (phase_at (fs_ri st) p = Some RemoveFinished)) eqn:Hfin; simpl;
    [destruct (om_SkipDeviceCleanupJob om) eqn:Hskip; simpl|].
  2: { apply bool_decide_eq_true in Hfin.
    eapply spec_bind; [apply removeDeployment_spec; auto|]. intros s Hs. cbn beta in Hs. apply spec_ret.
    destruct (set_deploy_at p s _ Hres) as [H1 H2].
    split; simpl; [apply touches_set_deploy|done|by right|]. by left. }
  all: apply spec_ret; destruct (set_deploy_at p (status_of RemoveSkipped) _ Hres) as [H1 H2];
    split; simpl; [apply touches_set_deploy|done|by right|];
    right; split; [done|]; right; rewrite H1; done.
Qed.
(** A whole round. *)
Record fin_round p (st st' : fin_state) : Prop := {
  fr_touches : touches p (fs_ri st) (fs_ri st');
  fr_step : job_step (job_at (fs_ri st) p) (job_at (fs_ri st') p);
  fr_alone : job_at (fs_ri st') p = Some RemoveInProgress →
    job_at (fs_ri st) p ≠ Some RemoveInProgress →
    ∀ q, hp_Host q = hp_Host p → q ≠ p → job_at (fs_ri st) q ≠ Some RemoveInProgress;
  fr_allowed : job_at (fs_ri st') p = Some RemovePending ∨ job_at (fs_ri st') p = Some RemoveInProgress →
    cleanup_allowed (fs_ri st) p;
  fr_deploy : deploy_at (fs_ri st') p = deploy_at (fs_ri st) p ∨
    deploy_at (fs_ri st) p = None ∧ cleanup_over (fs_ri st') p;
  fr_end : ∃ k new, fs_notCompleted st' = fs_notCompleted st + k ∧ 0 ≤ k ∧
    fs_issues st' = fs_issues st ++ new ∧
    (k = 0 → new = [] → job_known (job_at (fs_ri st) p) →
     cleanup_over (fs_ri st') p ∧ deploy_at (fs_ri st') p ≠ None ∧
     deploy_at (fs_ri st') p ≠ Some RemoveFailed);
}.

Lemma job_round_end p st st' :
  job_round p st (false, st') → fin_round p st st'.
Proof.
  intros [Htc Hstep Hal Hok Hd _ Hnot]; simpl in *. split; try done; [by left|].
  destruct (Hnot eq_refl) as [[Hn Hi]|(Hn & new & Hi & Hne)].
  - exists 1, []. rewrite app_nil_r. split_and!; [done|lia|done|]. intros ?. lia.
  - exists 0, new. split_and!; [lia|done|done|]. intros _ -> Hk. by destruct Hne.
Qed.

Lemma job_deploy_round p st st1 st' :
  job_round p st (true, st1) → deploy_round p st1 st' → fin_round p st st'.
Proof.
  intros [Htc Hstep Hal Hok Hd Hover _] [Htc' Hj' Hd' Hend]; simpl in *.
  destruct (Hover eq_refl) as (Hov & Hn & Hi).
  assert (cleanup_over (fs_ri st') p) as Hov' by (unfold cleanup_over; by rewrite Hj').
  split; rewrite ?Hj'; try done.
  - by eapply touches_trans.
  - rewrite <-Hd. destruct Hd'; auto.
  - destruct Hend as [[Hn' Hi']|(Hn' & [[i Hi']|(Hi' & ? & ?)])].
    + exists 1, []. rewrite app_nil_r. split_and!; [lia|lia|congruence|]. intros ?. lia.
    + exists 0, [i]. split_and!; [lia|done|congruence|done].
    + exists 0, []. rewrite app_nil_r. split_and!; [lia|done|congruence|done].
Qed.

Lemma finished_step_spec nothingElse st p om :
  (cleanup_allowed (fs_ri st) p → may_run_job c P (hp_Host p)) →
  (phase_at (fs_ri st) p = Some RemoveFinished → om_SkipDeviceCleanupJob om = false →
   P (EvDeployDelete ns ("rook-ceph-osd-" +:+ bare_id (hp_OsdID p)))) →
  osd_at (fs_ri st) p = Some om → is_Some (om_RemoveStatus om) → jobs_allowed (fs_ri st) →
  spec P (finished_step c nothingElse st p) (fin_round p st).
Proof using Psleep Pclock Pget.
  intros Hmay HP Hosd Hrr Hinv. pose proof Hosd as (hm & Hhm & Hom)%bind_Some.
  unfold finished_step. rewrite Hhm; simpl. rewrite Hom; simpl.
  eapply spec_bind; [by eapply job_part_spec|]. intros [go st1] Hround. cbn beta in Hround.
  destruct go; [|apply spec_ret; by apply job_round_end].
  pose proof (jr_touches _ _ _ Hround) as Htc; simpl in Htc.
  assert (result_at (fs_ri st) p = om_RemoveStatus om) as Hres by by rewrite result_at_osd, Hosd.
  eapply spec_post; [apply deploy_part_spec|by intros; eapply job_deploy_round].
  - rewrite (tc_phase _ _ _ Htc). done.
  - destruct (jr_over _ _ _ Hround eq_refl) as (Hov & _). by apply cleanup_over_result in Hov.
  - pose proof (jr_deploy _ _ _ Hround) as Hd; simpl in Hd. rewrite Hd. unfold deploy_at. by rewrite Hres.
  - rewrite (tc_phase _ _ _ Htc), phase_at_result. by rewrite Hres.
Qed.
End finished.

(** ** The loop over the finished OSDs *)

(** At most one cleanup job runs on a host. *)
Definition one_job ri : Prop :=
  ∀ p q, hp_Host p = hp_Host q → job_at ri p = Some RemoveInProgress →
    job_at ri q = Some RemoveInProgress → p = q.

Lemma fin_round_one_job p st st' :
  fin_round p st st' → one_job (fs_ri st) → one_job (fs_ri st').
Proof.
  intros Hr Hone.
  assert (∀ q, q ≠ p → job_at (fs_ri st') q = job_at (fs_ri st) q) as Hsame.
  { intros q Hq. unfold job_at. by rewrite (tc_other _ _ _ (fr_touches _ _ _ Hr)). }
  assert (∀ q, hp_Host q = hp_Host p → q ≠ p → job_at (fs_ri st') p = Some RemoveInProgress →
    job_at (fs_ri st') q = Some RemoveInProgress → False) as Hno.
  { intros q Hh Hq Hp Hqr. rewrite Hsame in Hqr by done.
    destruct (decide (job_at (fs_ri st) p = Some RemoveInProgress)) as [Hp0|Hp0].
    - apply Hq. by apply Hone.
    - by apply (fr_alone _ _ _ Hr Hp Hp0 q). }
  intros a b Hab Ha Hb. destruct (decide (a = b)) as [|Hne]; [done|exfalso].
  destruct (decide (a = p)) as [->|Hap]; [by eapply (Hno b)|].
  destruct (decide (b = p)) as [->|Hbp]; [by eapply (Hno a)|].
  rewrite Hsame in Ha, Hb by done. by apply Hne, Hone.
Qed.

Lemma fin_round_allowed p st st' :
  fin_round p st st' → jobs_allowed (fs_ri st) → jobs_allowed (fs_ri st').
Proof.
  intros Hr Hal q Hq. pose proof (fr_touches _ _ _ Hr) as Htc.
  apply (cleanup_allowed_static (fs_ri st)); [symmetry; apply (tc_static _ _ _ Htc)|].
  destruct (decide (q = p)) as [->|Hne]; [by apply (fr_allowed _ _ _ Hr)|].
  apply Hal. unfold job_at in *. by rewrite (tc_other _ _ _ Htc) in Hq.
Qed.

(** The OSDs [l] have had their round. *)
Record fin_loop (l : list hostOsdPair) (st st' : fin_state) : Prop := {
  fl_static : static (fs_ri st') = static (fs_ri st);
  fl_hosts : host_statuses (fs_ri st') = host_statuses (fs_ri st);
  fl_phase p : phase_at (fs_ri st') p = phase_at (fs_ri st) p;
  fl_other p : p ∉ l → result_at (fs_ri st') p = result_at (fs_ri st) p;
  fl_step p : job_step (job_at (fs_ri st) p) (job_at (fs_ri st') p);
  fl_deploy p : deploy_at (fs_ri st') p = deploy_at (fs_ri st) p ∨
    deploy_at (fs_ri st) p = None ∧ cleanup_over (fs_ri st') p;
  fl_one_job : one_job (fs_ri st) → one_job (fs_ri st');
  fl_allowed : jobs_allowed (fs_ri st) → jobs_allowed (fs_ri st');
  fl_end : ∃ k new, fs_notCompleted st' = fs_notCompleted st + k ∧ 0 ≤ k ∧
    fs_issues st' = fs_issues st ++ new ∧
    (k = 0 → new = [] → ∀ p, p ∈ l → job_known (job_at (fs_ri st) p) →
     cleanup_over (fs_ri st') p ∧ deploy_at (fs_ri st') p ≠ None ∧
     deploy_at (fs_ri st') p ≠ Some RemoveFailed);
}.

Lemma fin_loop_nil st : fin_loop [] st st.
Proof.
  split; try done; [constructor|by left|]. exists 0, []. rewrite app_nil_r.
  split_and!; [lia|done|done|]. intros _ _ p Hp. by apply elem_of_nil in Hp.
Qed.

Lemma fin_loop_snoc l p st st1 st' :
  p ∉ l → fin_loop l st st1 → fin_round p st1 st' → fin_loop (l ++ [p]) st st'.
Proof.
  intros Hp Hl Hr. pose proof (fr_touches _ _ _ Hr) as Htc.
  assert (result_at (fs_ri st1) p = result_at (fs_ri st) p) as Hres by (by apply (fl_other _ _ _ Hl)).
  assert (∀ q, q ≠ p → result_at (fs_ri st') q = result_at (fs_ri st1) q) as Hoth
    by (intros; by apply (tc_other _ _ _ Htc)).
  assert (∀ q, q ≠ p → cleanup_over (fs_ri st1) q → cleanup_over (fs_ri st') q) as Hov.
  { intros q Hq. unfold cleanup_over, job_at. by rewrite Hoth. }
  split.
  - by rewrite (tc_static _ _ _ Htc), (fl_static _ _ _ Hl).
  - by rewrite (tc_hosts _ _ _ Htc), (fl_hosts _ _ _ Hl).
  - intros q. by rewrite (tc_phase _ _ _ Htc), (fl_phase _ _ _ Hl).
  - intros q [Hq Hqp]%not_elem_of_app. apply not_elem_of_cons in Hqp as [? _].
    by rewrite Hoth, (fl_other _ _ _ Hl).
  - intros q. destruct (decide (q = p)) as [->|Hq].
    + pose proof (fr_step _ _ _ Hr) as Hs. unfold job_at in *. by rewrite <-Hres.
    + pose proof (fl_step _ _ _ Hl q) as Hs. unfold job_at in *. by rewrite Hoth.
  - intros q. destruct (decide (q = p)) as [->|Hq].
    + pose proof (fr_deploy _ _ _ Hr) as Hd. unfold deploy_at in *. by rewrite Hres in Hd.
    + destruct (fl_deploy _ _ _ Hl q) as [Hd|[Hd Hc]]; [left|right; auto].
      unfold deploy_at in *. by rewrite Hoth.
  - intros Hone. by eapply fin_round_one_job, (fl_one_job _ _ _ Hl).
  - intros Hal. by eapply fin_round_allowed, (fl_allowed _ _ _ Hl).
  - destruct (fl_end _ _ _ Hl) as (k1 & n1 & Hk1 & H01 & Hi1 & He1).
    destruct (fr_end _ _ _ Hr) as (k2 & n2 & Hk2 & H02 & Hi2 & He2).
    exists (k1 + k2), (n1 ++ n2). split_and!; [lia|lia|by rewrite Hi2, Hi1, app_assoc|].
    intros Hk [-> ->]%app_nil q [Hq|Hq]%elem_of_app Hknown.
    + assert (q ≠ p) as Hqp by congruence.
      destruct (He1 ltac:(lia) eq_refl q Hq Hknown) as (Hc & Hd). split; [by apply Hov|].
      unfold deploy_at. by rewrite Hoth.
    + apply list_elem_of_singleton in Hq as ->. apply He2; [lia|done|].
      unfold job_at. by rewrite Hres.
Qed.

Lemma skip_static ri ri' p om om' :
  static ri = static ri' → osd_at ri p = Some om → osd_at ri' p = Some om' →
  om_SkipDeviceCleanupJob om = om_SkipDeviceCleanupJob om'.
Proof.
  intros Hst Hom Hom'. pose proof (static_osd_at _ _ p Hst) as Heq. rewrite Hom, Hom' in Heq.
  by injection Heq.
Qed.

Section finished_loop.
Context `{World} `{MapRange} (c : cephOsdRemoveConfig) (P : event → Prop).
Context (Psleep : ∀ d, P (EvSleep d)) (Pclock : P EvClock).

Let ns : string := cc_Namespace (c_cephCluster c).
Let tns : string := task_Namespace (c_task c).

(** What the loop needs to be allowed for the OSD [p] of the remove info [ri]. *)
Record may_finish ri p : Prop := {
  mf_result : is_Some (result_at ri p);
  mf_job : cleanup_allowed ri p → may_run_job c P (hp_Host p);
  mf_deploy om : osd_at ri p = Some om → phase_at ri p = Some RemoveFinished →
    om_SkipDeviceCleanupJob om = false →
    P (EvDeployDelete ns ("rook-ceph-osd-" +:+ bare_id (hp_OsdID p)));
}.

Lemma finished_loop_spec nothingElse l st :
  (∀ name, P (EvJobGet tns name)) →
  NoDup l → jobs_allowed (fs_ri st) → (∀ p, p ∈ l → may_finish (fs_ri st) p) →
  spec P (foldM (finished_step c nothingElse) l st) (fin_loop l st).
Proof using Psleep Pclock.
  intros Pget Hnd Hal Hmay. eapply spec_post.
  - apply (spec_foldM P _ (λ l' st', ∃ done, l = done ++ l' ∧ fin_loop done st st')).
    { exists []. split; [done|apply fin_loop_nil]. }
    intros p l' st1 (l1 & Heq & Hl1).
    assert (p ∉ l1) as Hp.
    { rewrite Heq in Hnd. apply NoDup_app in Hnd as (_ & Hdisj & _). intros ?. by eapply Hdisj; [|left]. }
    destruct (Hmay p) as [Hres Hjob Hdep]; [rewrite Heq; set_solver|].
    pose proof (fl_static _ _ _ Hl1) as Hst.
    assert (result_at (fs_ri st1) p = result_at (fs_ri st) p) as Hsame by (by apply (fl_other _ _ _ Hl1)).
    assert (∃ om, osd_at (fs_ri st1) p = Some om ∧ is_Some (om_RemoveStatus om)) as (om & Hom & Hrr).
    { rewrite <-Hsame, result_at_osd in Hres. destruct (osd_at (fs_ri st1) p) as [om|]; [eauto|].
      by destruct Hres. }
    eapply spec_post; [eapply finished_step_spec; try done|].
    + intros Hok. apply Hjob. by eapply cleanup_allowed_static; [|done].
    + rewrite (fl_phase _ _ _ Hl1). intros Hph Hskip.
      rewrite result_at_osd in Hres. destruct (osd_at (fs_ri st) p) as [om0|] eqn:Hom0; [|by destruct Hres].
      apply (Hdep om0); [done|done|]. by rewrite <-(skip_static _ _ _ _ _ Hst Hom Hom0).
    + by apply (fl_allowed _ _ _ Hl1).
    + intros st2 Hr. exists (l1 ++ [p]). rewrite <-app_assoc. split; [done|]. by eapply fin_loop_snoc.
  - intros st' (l1 & Heq & Hl1). rewrite app_nil_r in Heq. by subst.
Qed.
End finished_loop.
