(* ===== verification/Removal.v ===== *)
(** * The removal of OSDs: refinement, invariants and completion

    The pass of executor.go against its abstract specification: each pass is a
    step of [osd_step] for every OSD and asks of the cluster only what
    [pass_event] allows; and what follows for any number of passes from a fresh
    cleanup map: one OSD rebalances at a time, one cleanup job runs per host, a
    deployment goes only after the devices are cleaned, and a removal reported
    as finished without issues is complete. *)

From Stdlib Require Import Ascii.
From S2P Require Import Prelude GoTime Types World Helpers TaskUtils Demo CleanupJob Executor ExecutorFacts ExecutorPass.
Open Scope Z_scope.

Implicit Types (ri : TaskRemoveInfo) (p : hostOsdPair).

(** ** Hosts removed from the CRUSH map *)

Definition osd_completed (om : OsdMapping) : bool :=
  match om_RemoveStatus om ≫= rr_OsdRemoveStatus with
  | Some s => bool_decide (rs_Status s = RemoveFinished ∨ rs_Status s = RemoveSkipped)
  | None => false
  end.

Definition host_completed (hm : HostMapping) : Prop :=
  (hm_CompleteCleanup hm = true ∨ hm_DropFromCrush hm = true) ∧ hm_HostRemoveStatus hm = None ∧
  ∀ o om, hm_OsdMapping hm !! o = Some om → osd_completed om = true.

Section hosts.
Context `{MapRange}.

Lemma collect_osd_count host st n e :
  (collect_osd host (st, n) e).2 = if osd_completed e.2 then n - 1 else n.
Proof.
  destruct st as [ri req], e as [o om]. unfold collect_osd, osd_completed; simpl.
  destruct (om_RemoveStatus om) as [rr|]; simpl; [|done].
  destruct (rr_OsdRemoveStatus rr) as [s|]; simpl; [|done].
  by destruct (decide (rs_Status s = RemoveFinished ∨ rs_Status s = RemoveSkipped)) as [Hs|Hs];
    [rewrite bool_decide_eq_true_2|rewrite bool_decide_eq_false_2].
Qed.

Lemma collect_osds_count host l st n :
  (foldl (collect_osd host) (st, n) l).2 =
    n - Z.of_nat (length (filter (λ e, osd_completed e.2 = true) l)).
Proof.
  revert st n. induction l as [|e l IH]; intros st n; cbn [foldl]; [simpl; lia|].
  pose proof (collect_osd_count host st n e) as He. rewrite filter_cons.
  destruct (collect_osd host (st, n) e) as [st' n']. simpl in He. rewrite IH, He.
  destruct (osd_completed e.2); simpl; lia.
Qed.

Lemma filter_all_length {A} (P : A → Prop) `{∀ x, Decision (P x)} (l : list A) :
  length (filter P l) = length l ↔ ∀ x, x ∈ l → P x.
Proof.
  split.
  - induction l as [|a l IH]; intros Hl x Hx; [by apply elem_of_nil in Hx|].
    rewrite filter_cons in Hl. pose proof (length_filter P l).
    destruct (decide (P a)); simpl in Hl; [|lia]. apply elem_of_cons in Hx as [->|Hx]; [done|].
    apply IH; [lia|done].
  - intros Hall. f_equal. induction l as [|a l IH]; [done|]. rewrite filter_cons_True by (apply Hall; left).
    f_equal. apply IH. intros x Hx. apply Hall. by right.
Qed.

Definition hosts_to_remove ri : list string := (collect ri).2.

Lemma collect_hosts_snd l st hosts h :
  h ∈ (foldl collect_host (st, hosts) l).2 ↔
    h ∈ hosts ∨ ∃ hm, (h, hm) ∈ l ∧ host_completed hm.
Proof.
  revert st hosts. induction l as [|[h' hm'] l IH]; intros [ri req] hosts; cbn [foldl].
  { simpl. split; [by left|]. intros [?|(hm & Hin & _)]; [done|]. by apply elem_of_nil in Hin. }
  unfold collect_host at 2.
  pose proof (collect_osds_count h' (range 8 (hm_OsdMapping hm')) (ri, req)
                (Z.of_nat (size (hm_OsdMapping hm')))) as Hcount.
  destruct (foldl _ _ _) as [[ri' req'] n']. simpl in Hcount.
  assert ((hm_CompleteCleanup hm' || hm_DropFromCrush hm') && (n' =? 0) &&
          bool_decide (hm_HostRemoveStatus hm' = None) = true ↔ host_completed hm') as Hiff.
  { rewrite !andb_true_iff, orb_true_iff, Z.eqb_eq, bool_decide_eq_true, Hcount.
    unfold host_completed. rewrite <-(length_range 8 (hm_OsdMapping hm')).
    assert (Z.of_nat (length (range 8 (hm_OsdMapping hm'))) -
            Z.of_nat (length (filter (λ e, osd_completed e.2 = true) (range 8 (hm_OsdMapping hm')))) = 0 ↔
            ∀ o om, hm_OsdMapping hm' !! o = Some om → osd_completed om = true) as ->; [|naive_solver].
    transitivity (length (filter (λ e, osd_completed e.2 = true) (range 8 (hm_OsdMapping hm'))) =
      length (range 8 (hm_OsdMapping hm'))); [lia|]. rewrite filter_all_length. split.
    - intros Hall o om Hom. by apply (Hall (o, om)), elem_of_range.
    - intros Hall [o om] Hin%elem_of_range. by eapply Hall. }
  destruct ((hm_CompleteCleanup hm' || hm_DropFromCrush hm') && (n' =? 0) && _).
  - rewrite IH. rewrite elem_of_app, list_elem_of_singleton.
    assert (host_completed hm') by (by apply Hiff). set_solver.
  - rewrite IH. assert (¬ host_completed hm') by (rewrite <-Hiff; congruence). set_solver.
Qed.

Lemma elem_of_hosts_to_remove ri h :
  h ∈ hosts_to_remove ri ↔ ∃ hm, ri_CleanupMap ri !! h = Some hm ∧ host_completed hm.
Proof.
  unfold hosts_to_remove, collect. rewrite collect_hosts_snd. setoid_rewrite elem_of_range. set_solver.
Qed.
End hosts.

(** ** What a pass may do to the cluster

    [pass_event c ri e]: a pass over the remove info [ri] (every OSD with its
    status) may perform the interaction [e]. *)

Section pass_event.
Context (c : cephOsdRemoveConfig).
Let ns : string := cc_Namespace (c_cephCluster c).
Let tns : string := task_Namespace (c_task c).

Inductive pass_event ri : event → Prop :=
| pe_clock : pass_event ri EvClock
| pe_sleep d : pass_event ri (EvSleep d)
| pe_ls : pass_event ri (EvCeph ns "ceph osd ls")
| pe_info o : pass_event ri (EvCeph ns ("ceph osd info " +:+ o +:+ " --format json"))
| pe_ok_to_stop o : pass_event ri (EvCeph ns ("ceph osd ok-to-stop " +:+ o))
| pe_pgs o : pass_event ri (EvCeph ns ("ceph pg ls-by-osd " +:+ o +:+ " --format json"))
| pe_job_get name : pass_event ri (EvJobGet tns name)
(** data is moved off a pending OSD, when none rebalances and none has failed *)
| pe_reweight p :
    phase_at ri p = Some RemovePending →
    (∀ q, phase_at ri q ≠ Some RemoveWaitingRebalance ∧ phase_at ri q ≠ Some RemoveFailed) →
    pass_event ri (EvCeph ns ("ceph osd crush reweight osd." +:+ hp_OsdID p +:+ " 0.0"))
(** an OSD is purged in its removing phase only *)
| pe_purge p :
    phase_at ri p = Some RemoveInProgress →
    pass_event ri (EvCeph ns ("ceph osd purge " +:+ bare_id (hp_OsdID p) +:+
                              " --force --yes-i-really-mean-it"))
| pe_auth p :
    phase_at ri p = Some RemoveInProgress →
    pass_event ri (EvCeph ns ("ceph auth del osd." +:+ bare_id (hp_OsdID p)))
| pe_auth_stray p :
    phase_at ri p = Some RemoveStray →
    pass_event ri (EvCeph ns ("ceph auth del osd." +:+ split_first (hp_OsdID p) "."))
| pe_scale p :
    phase_at ri p = Some RemoveInProgress →
    pass_event ri (EvDeployScale ns ("rook-ceph-osd-" +:+ bare_id (hp_OsdID p)) 0)
| pe_scale_stray p :
    phase_at ri p = Some RemoveStray →
    pass_event ri (EvDeployScale ns ("rook-ceph-osd-" +:+ split_first (hp_OsdID p) ".") 0)
(** a host leaves the CRUSH map when its OSDs are gone *)
| pe_host h hm :
    ri_CleanupMap ri !! h = Some hm → host_completed hm →
    pass_event ri (EvCeph ns ("ceph osd crush remove " +:+ h))
(** devices are cleaned, on their host, for a removed OSD and where allowed *)
| pe_job_delete p job :
    (phase_at ri p = Some RemoveFinished ∨ phase_at ri p = Some RemoveSkipped) → cleanup_allowed ri p →
    job_NodeSelector job = {[ LabelHostname := hp_Host p ]} →
    pass_event ri (EvJobDelete tns (job_Name job))
| pe_job_create p job :
    (phase_at ri p = Some RemoveFinished ∨ phase_at ri p = Some RemoveSkipped) → cleanup_allowed ri p →
    job_Namespace job = tns → job_NodeSelector job = {[ LabelHostname := hp_Host p ]} →
    pass_event ri (EvJobCreate job)
| pe_deploy_delete p om :
    osd_at ri p = Some om → phase_at ri p = Some RemoveFinished → om_SkipDeviceCleanupJob om = false →
    pass_event ri (EvDeployDelete ns ("rook-ceph-osd-" +:+ bare_id (hp_OsdID p))).
End pass_event.
#[export] Hint Constructors pass_event : executor.

(** ** The hosts loop *)

Record hosts_moved ri ri' : Prop := {
  hv_static : static ri' = static ri;
  hv_osd p : osd_at ri' p = osd_at ri p;
  hv_kept h s : host_statuses ri !! h = Some (Some s) → ∃ s', host_statuses ri' !! h = Some (Some s');
}.

Lemma remove_host_spec `{World} c P ri h hm :
  (∀ d, P (EvSleep d)) → P EvClock →
  P (EvCeph (cc_Namespace (c_cephCluster c)) ("ceph osd crush remove " +:+ h)) →
  ri_CleanupMap ri !! h = Some hm →
  spec P (remove_host c ri h) (λ ri', hosts_moved ri ri' ∧
    ∃ s, host_statuses ri' !! h = Some (Some s)).
Proof.
  intros Hsl Hcl HP Hhm. unfold remove_host.
  eapply spec_bind; [by apply removeHostFromCrush_spec|]. intros s _.
  set (ri0 := if decide (rs_Error s ≠ "") then _ else ri).
  assert (ri_CleanupMap ri0 = ri_CleanupMap ri) as Hmap by (subst ri0; by case_decide).
  apply spec_ret. rewrite Hmap, Hhm. simpl. split; [split|].
  - unfold static. simpl. rewrite fmap_insert. apply insert_id. by rewrite lookup_fmap, Hhm.
  - intros p. unfold osd_at, get_osd. simpl. rewrite lookup_insert. case_decide; [subst|done]. by rewrite Hhm.
  - intros h' s' Hs'. unfold host_statuses in *; simpl. rewrite lookup_fmap in *. rewrite lookup_insert.
    case_decide; simpl; eauto.
  - exists s. unfold host_statuses; simpl. by rewrite lookup_fmap, lookup_insert_eq.
Qed.

Lemma hosts_loop_spec `{World} c P l ri :
  (∀ d, P (EvSleep d)) → P EvClock →
  (∀ h, h ∈ l → P (EvCeph (cc_Namespace (c_cephCluster c)) ("ceph osd crush remove " +:+ h)) ∧
    is_Some (ri_CleanupMap ri !! h)) →
  spec P (foldM (remove_host c) l ri) (λ ri', hosts_moved ri ri' ∧
    ∀ h, h ∈ l → ∃ s, host_statuses ri' !! h = Some (Some s)).
Proof.
  intros Hsl Hcl Hl. eapply spec_post.
  - apply (spec_foldM P _ (λ l' ri', ∃ l1, l = l1 ++ l' ∧ hosts_moved ri ri' ∧
      ∀ h, h ∈ l1 → ∃ s, host_statuses ri' !! h = Some (Some s))).
    { exists []. split; [done|]. split; [by split; eauto|]. intros h Hh. by apply elem_of_nil in Hh. }
    intros h l' ri1 (l1 & Heq & Hmv & Hdone).
    destruct (Hl h) as [HP Hsome]; [rewrite Heq; set_solver|].
    assert (is_Some (ri_CleanupMap ri1 !! h)) as [hm Hhm].
    { assert (static ri1 !! h = static ri !! h) as Hh by by rewrite (hv_static _ _ Hmv).
      unfold static in Hh. rewrite !lookup_fmap in Hh. destruct Hsome as [hm Hhm]. rewrite Hhm in Hh.
      destruct (ri_CleanupMap ri1 !! h); [eauto|done]. }
    eapply spec_post; [by eapply remove_host_spec|]. intros ri2 [Hmv2 Hs].
    exists (l1 ++ [h]). rewrite <-app_assoc. split; [done|]. split; [split|].
    + by rewrite (hv_static _ _ Hmv2), (hv_static _ _ Hmv).
    + intros p. by rewrite (hv_osd _ _ Hmv2), (hv_osd _ _ Hmv).
    + intros h' s' [s'' Hs']%(hv_kept _ _ Hmv). by eapply (hv_kept _ _ Hmv2).
    + intros h' [Hh'|Hh']%elem_of_app.
      * destruct (Hdone h' Hh') as [s' Hs']. by eapply (hv_kept _ _ Hmv2).
      * by apply list_elem_of_singleton in Hh' as ->.
  - intros ri' (l1 & Heq & Hmv & Hdone). rewrite app_nil_r in Heq. by subst.
Qed.

(** ** A pass *)

(** The OSDs [l] take a step, the others stay. *)
Record advance (l : list hostOsdPair) ri ri' : Prop := {
  adv_moved : moved l ri ri';
  adv_step p : p ∈ l → ∃ a b, phase_at ri p = Some a ∧ phase_at ri' p = Some b ∧ osd_step a b;
}.

Lemma advance_nil ri : advance [] ri ri.
Proof. split; [apply moved_refl|]. intros p Hp. by apply elem_of_nil in Hp. Qed.

Lemma advance_app l1 l2 ri1 ri2 ri3 :
  advance l1 ri1 ri2 → advance l2 ri2 ri3 → (∀ p, p ∈ l1 → p ∉ l2) → advance (l1 ++ l2) ri1 ri3.
Proof.
  intros [Hm1 Hs1] [Hm2 Hs2] Hd. split.
  - eapply moved_trans; [done|done|set_solver|set_solver].
  - intros p Hp. destruct (decide (p ∈ l1)) as [Hp1|Hp1].
    + destruct (Hs1 p Hp1) as (a & b & Ha & Hb & Hab). exists a, b. split_and!; [done| |done].
      rewrite (moved_other _ _ _ Hm2); [done|by apply Hd].
    + destruct (Hs2 p) as (a & b & Ha & Hb & Hab); [by apply elem_of_app in Hp as [?|?]|].
      exists a, b. split_and!; [|done|done]. by rewrite <-Ha, (moved_other _ _ _ Hm1).
Qed.

Lemma advance_phase l ri ri' p a :
  advance l ri ri' → phase_at ri p = Some a → ∃ b, phase_at ri' p = Some b ∧ osd_step a b.
Proof.
  intros Hadv Ha. destruct (decide (p ∈ l)) as [Hp|Hp].
  - destruct (adv_step _ _ _ Hadv p Hp) as (a' & b & Ha' & Hb & Hab). rewrite Ha in Ha'.
    simplify_eq. eauto.
  - exists a. split; [|constructor]. by rewrite (moved_other _ _ _ (adv_moved _ _ _ Hadv)).
Qed.

(** A pass over [ri], in which every OSD has its status, to [ri']. *)
Record pass_rel ri ri' : Prop := {
  pr_static : static ri' = static ri;
  pr_step p a : phase_at ri p = Some a → ∃ b, phase_at ri' p = Some b ∧ osd_step a b;
  pr_single p q : phase_at ri p = Some RemovePending → phase_at ri q = Some RemovePending →
    phase_at ri' p ≠ Some RemovePending → phase_at ri' q ≠ Some RemovePending → p = q;
  pr_busy p q : phase_at ri q = Some RemoveWaitingRebalance ∨ phase_at ri q = Some RemoveFailed →
    phase_at ri p = Some RemovePending → phase_at ri' p = Some RemovePending;
  pr_job p : job_step (job_at ri p) (job_at ri' p);
  pr_deploy p : deploy_at ri' p = deploy_at ri p ∨ deploy_at ri p = None ∧ cleanup_over ri' p;
  pr_one_job : one_job ri → one_job ri';
  pr_allowed : jobs_allowed ri → jobs_allowed ri';
}.

(** Nothing is left to do in [ri']. *)
Definition nothing_left ri ri' : Prop :=
  (∀ p, phase_at ri p ∉ [Some RemoveWaitingRebalance; Some RemoveInProgress; Some RemoveStray]) ∧
  (ri_Issues ri' = [] → ∀ p,
     phase_at ri p ∉ [Some RemovePending; Some RemoveFailed] ∧
     (phase_at ri p = Some RemoveFinished ∨ phase_at ri p = Some RemoveSkipped →
      job_known (job_at ri p) →
      cleanup_over ri' p ∧ deploy_at ri' p ≠ None ∧ deploy_at ri' p ≠ Some RemoveFailed)).

Section pass.
Context `{World} `{MapRange} (c : cephOsdRemoveConfig) (ri : TaskRemoveInfo).
Let ri1 := collected ri.
Let P := pass_event c ri1.
Let req := requests ri.

Lemma P_sleep d : P (EvSleep d).
Proof. constructor. Qed.
Lemma P_clock : P EvClock.
Proof. constructor. Qed.

Lemma req_phase ph p :
  ph ∈ [RemovePending; RemoveWaitingRebalance; RemoveInProgress; RemoveStray; RemoveFailed] →
  p ∈ req ph ↔ phase_at ri1 p = Some ph.
Proof. apply requests_active. Qed.

(** A status loop of the pass over the OSDs of phase [ph], from a remove info
    that still has their phases. *)
Lemma status_loop_spec f ph ri' (R : RemovePhase → Prop) :
  ph ∈ [RemovePending; RemoveWaitingRebalance; RemoveInProgress; RemoveStray; RemoveFailed] →
  (∀ q, R q → osd_step ph q) →
  (∀ p s, phase_at ri1 p = Some ph → rs_Status s = ph →
    spec P (f (hp_OsdID p) s) (λ s', R (rs_Status s'))) →
  (∀ p, p ∈ req ph → phase_at ri' p = Some ph) →
  spec P (foldM (status_step f) (req ph) ri') (advance (req ph) ri').
Proof.
  intros Hph HR Hf Hri'. eapply spec_post.
  - apply (moved_loop id P R (status_step f) ph (req ph)); [|apply NoDup_requests|done].
    intros s p Hp Hs. unfold status_step. eapply spec_bind.
    { apply Hf; [by apply req_phase in Hp|]. by apply cur_status_phase. }
    intros st Hst. apply spec_ret. eauto.
  - intros ri2 [Hmv Hstep]. split; [done|]. intros p Hp. destruct (Hstep p Hp) as (q & Hq & HRq).
    exists ph, q. auto.
Qed.
Lemma stray_loop_spec ri' :
  (∀ p, p ∈ req RemoveStray → phase_at ri' p = Some RemoveStray) →
  spec P (foldM (status_step (removeStray c)) (req RemoveStray) ri') (advance (req RemoveStray) ri').
Proof.
  apply (status_loop_spec _ _ _ (λ q, q ∈ [RemoveFinished; RemoveSkipped; RemoveFailed])); [mem| |].
  - intros q Hq. by constructor.
  - intros p s Hp Hs. apply removeStray_spec; unfold P; eauto with executor.
Qed.

Lemma purge_loop_spec ri' :
  (∀ p, p ∈ req RemoveInProgress → phase_at ri' p = Some RemoveInProgress) →
  spec P (foldM (status_step (removeFromCrush c)) (req RemoveInProgress) ri')
    (advance (req RemoveInProgress) ri').
Proof.
  apply (status_loop_spec _ _ _ (λ q, q ∈ [RemoveFinished; RemoveFailed])); [mem| |].
  - intros q Hq. by constructor.
  - intros p s Hp Hs. apply removeFromCrush_spec; unfold P; eauto with executor.
Qed.

Lemma rebalance_loop_spec ri' rq :
  (∀ p, p ∈ req RemoveWaitingRebalance → phase_at ri' p = Some RemoveWaitingRebalance) →
  spec P (foldM (rebalance_step c) (req RemoveWaitingRebalance) (ri', rq))
    (λ r, advance (req RemoveWaitingRebalance) ri' r.1).
Proof.
  intros Hri'. eapply spec_post.
  - apply (moved_loop fst P (λ q, q ∈ [RemoveWaitingRebalance; RemoveInProgress; RemoveFailed])
             (rebalance_step c) RemoveWaitingRebalance (req RemoveWaitingRebalance));
      [|apply NoDup_requests|done].
    intros [ri2 rq2] p Hp Hs. unfold rebalance_step. eapply spec_bind.
    { apply checkRebalance_spec; [apply P_sleep|apply P_clock|apply pe_pgs|by apply cur_status_phase]. }
    intros st Hst. apply spec_ret. eauto.
  - intros [ri2 rq2] [Hmv Hstep]. split; [done|]. intros p Hp. destruct (Hstep p Hp) as (q & Hq & HRq).
    exists RemoveWaitingRebalance, q. split_and!; [auto|done|].
    apply elem_of_cons in HRq as [->|HRq]; by constructor.
Qed.

Lemma pending_out_spec ri' n :
  (∀ p, p ∈ req RemovePending → phase_at ri' p = Some RemovePending) →
  req RemoveWaitingRebalance = [] →
  spec P (pending_loop c (pending_pairs req) ri' n ∅)
    (λ r, pending_moved (pending_pairs req) ri' r.1.1 ∧
          n + (if is_nil (pending_pairs req) then 0 else 1) ≤ r.1.2).
Proof.
  intros Hri' Hw. unfold pending_pairs.
  destruct (negb (is_nil (req RemoveFailed)) && negb (is_nil (req RemovePending))) eqn:Hf.
  { simpl. apply spec_ret. split; [|simpl; lia]. split; [apply moved_refl| |];
      intros ? ?; by try intros ?; set_solver. }
  apply pending_loop_spec; [apply P_sleep|apply P_clock|apply NoDup_requests|done|].
  intros p Hp. split_and!; [apply pe_info|apply pe_ok_to_stop|].
  apply pe_reweight; [apply req_phase; [mem|done]|]. intros q. split.
  - intros Hq. apply req_phase in Hq; [|mem]. rewrite Hw in Hq. by apply elem_of_nil in Hq.
  - intros Hq. apply req_phase in Hq; [|mem]. destruct (req RemoveFailed); [by apply elem_of_nil in Hq|].
    destruct (req RemovePending); [by apply elem_of_nil in Hp|done].
Qed.
Lemma may_finish_request p :
  p ∈ req RemoveFinished → may_finish c P ri1 p.
Proof.
  intros Hp. pose proof Hp as Hph. apply requests_finished in Hph. split.
  - by eapply requests_result.
  - intros Hal job Hns Hsel. unfold P. split_and!; eauto with executor.
  - intros om Hom Hfin Hskip. by eapply pe_deploy_delete.
Qed.

(** The state after the loop over the finished OSDs, with the new issues. *)
Let fs0 := mkFin ri1 (failed_issues (req RemoveFailed)) 0 true.
Let with_issues (fs : fin_state) := set_ri_Issues (SortStrings (fs_issues fs)) (fs_ri fs).

(** The steps of the OSDs [l], after the loop over the finished ones, make a
    pass, provided no pending one moves while another rebalances or has failed,
    and at most one of them moves. *)
Lemma pass_rel_intro fs l ri' :
  fin_loop (req RemoveFinished) fs0 fs →
  advance l (with_issues fs) ri' →
  (∀ p q, p ∈ l → phase_at ri1 p = Some RemovePending →
    phase_at ri1 q ≠ Some RemoveWaitingRebalance ∧ phase_at ri1 q ≠ Some RemoveFailed) →
  (∀ p q, phase_at ri1 p = Some RemovePending → phase_at ri1 q = Some RemovePending →
    phase_at ri' p ≠ Some RemovePending → phase_at ri' q ≠ Some RemovePending → p = q) →
  pass_rel ri1 ri'.
Proof.
  intros Hfl Hadv Hbusy Hone. pose proof (adv_moved _ _ _ Hadv) as Hmv.
  assert (∀ p, phase_at (with_issues fs) p = phase_at ri1 p) as Hph by apply (fl_phase _ _ _ Hfl).
  assert (∀ p, job_at ri' p = job_at (fs_ri fs) p) as Hjob by apply (moved_job _ _ _ Hmv).
  assert (∀ p, deploy_at ri' p = deploy_at (fs_ri fs) p) as Hdep by apply (moved_deploy _ _ _ Hmv).
  split.
  - rewrite (moved_static _ _ _ Hmv). apply (fl_static _ _ _ Hfl).
  - intros p a Ha. eapply advance_phase; [done|by rewrite Hph].
  - done.
  - intros p q Hq Hp. destruct (decide (p ∈ l)) as [Hl|Hl].
    + destruct (Hbusy p q Hl Hp) as [??]. by destruct Hq.
    + by rewrite (moved_other _ _ _ Hmv), Hph.
  - intros p. rewrite Hjob. apply (fl_step _ _ _ Hfl).
  - intros p. rewrite Hdep. unfold cleanup_over. rewrite Hjob. apply (fl_deploy _ _ _ Hfl).
  - intros H1 p q. rewrite !Hjob. apply (fl_one_job _ _ _ Hfl), H1.
  - intros H1 p. rewrite Hjob. intros Hp. apply (cleanup_allowed_static (fs_ri fs)).
    + symmetry. apply (moved_static _ _ _ Hmv).
    + by apply (fl_allowed _ _ _ Hfl).
Qed.

Lemma nothing_left_intro fs ri' :
  fin_loop (req RemoveFinished) fs0 fs →
  moved [] (with_issues fs) ri' →
  fs_notCompleted fs = 0 →
  req RemoveStray = [] → req RemoveInProgress = [] → req RemoveWaitingRebalance = [] →
  pending_pairs req = [] →
  nothing_left ri1 ri'.
Proof.
  intros Hfl Hmv Hn Hs Hi Hw Hp.
  assert (∀ ph p, ph ∈ [RemovePending; RemoveWaitingRebalance; RemoveInProgress; RemoveStray; RemoveFailed] →
    req ph = [] → phase_at ri1 p ≠ Some ph) as Hno.
  { intros ph p Hph Hreq Hat. apply req_phase in Hat; [|done]. rewrite Hreq in Hat. by apply elem_of_nil in Hat. }
  split.
  { intros p Hin. mem_inv Hin; revert Hin; apply Hno; try done; mem. }
  intros Hiss p. rewrite (moved_issues _ _ _ Hmv) in Hiss. apply (proj1 (SortStrings_nil _)) in Hiss.
  destruct (fl_end _ _ _ Hfl) as (k & new & Hk & H0k & Hnew & Hend). rewrite Hnew in Hiss.
  apply app_nil in Hiss as [Hfail ->]. apply fmap_nil_inv in Hfail.
  split.
  - intros Hin. mem_inv Hin; revert Hin; apply Hno; try done; try mem.
    unfold pending_pairs in Hp. by rewrite Hfail in Hp.
  - intros Hph Hknown. destruct (Hend) with p as (Hov & Hd1 & Hd2); [simpl in *; lia|done|by apply requests_finished|done|].
    assert (∀ p, job_at ri' p = job_at (fs_ri fs) p) as Hjob by apply (moved_job _ _ _ Hmv).
    assert (∀ p, deploy_at ri' p = deploy_at (fs_ri fs) p) as Hdep by apply (moved_deploy _ _ _ Hmv).
    unfold cleanup_over. by rewrite Hjob, !Hdep.
Qed.
Lemma req_disjoint ph ph' p :
  ph ∈ [RemovePending; RemoveWaitingRebalance; RemoveInProgress; RemoveStray; RemoveFailed] →
  ph' ∈ [RemovePending; RemoveWaitingRebalance; RemoveInProgress; RemoveStray; RemoveFailed] →
  ph ≠ ph' → p ∈ req ph → p ∉ req ph'.
Proof.
  intros Hph Hph' Hne Hp Hp'. apply req_phase in Hp, Hp'; [|done..]. congruence.
Qed.

Lemma pending_pairs_req p : p ∈ pending_pairs req → p ∈ req RemovePending.
Proof. unfold pending_pairs. case_match; [|done]. intros Hp. by apply elem_of_nil in Hp. Qed.

Lemma pending_pairs_failed p q :
  p ∈ pending_pairs req → phase_at ri1 q ≠ Some RemoveFailed.
Proof.
  intros Hp Hq. apply req_phase in Hq; [|mem]. pose proof (pending_pairs_req _ Hp) as Hp'.
  unfold pending_pairs in Hp. destruct (req RemoveFailed); [by apply elem_of_nil in Hq|].
  destruct (req RemovePending); [by apply elem_of_nil in Hp'|]. by apply elem_of_nil in Hp.
Qed.

(** The loops before the pending ones. *)
Let busy := req RemoveStray ++ req RemoveInProgress ++ req RemoveWaitingRebalance.

Lemma busy_not_pending p : p ∈ busy → phase_at ri1 p ≠ Some RemovePending.
Proof.
  intros Hb Hp. apply req_phase in Hp; [|mem].
  subst busy. rewrite !elem_of_app in Hb. destruct Hb as [Hb|[Hb|Hb]]; revert Hp;
    (eapply req_disjoint; [| | |exact Hb]); [mem|mem|done|mem|mem|done|mem|mem|done].
Qed.

Lemma active_loops_spec ri0 rq :
  (∀ p, phase_at ri0 p = phase_at ri1 p) →
  spec P (active_loops c req ri0 rq) (λ r, advance busy ri0 r.1).
Proof.
  intros Hph.
  assert (∀ ph l ri', ph ∈ [RemovePending; RemoveWaitingRebalance; RemoveInProgress; RemoveStray; RemoveFailed] →
    moved l ri0 ri' → (∀ p, p ∈ l → p ∉ req ph) → ∀ p, p ∈ req ph → phase_at ri' p = Some ph) as Hkeep.
  { intros ph l ri' Hin Hmv Hd p Hp. rewrite (moved_other _ _ _ Hmv), Hph; [by apply req_phase|].
    intros Hl. by apply (Hd p). }
  eapply spec_bind; [apply stray_loop_spec; apply (Hkeep _ []); [mem|apply moved_refl|set_solver]|].
  intros riB HB. cbn beta in HB.
  assert (∀ p, p ∈ req RemoveStray → p ∉ req RemoveInProgress) as Hd1
    by (intros p; apply req_disjoint; [mem|mem|done]).
  eapply spec_bind; [apply purge_loop_spec; by eapply Hkeep; [mem|apply (adv_moved _ _ _ HB)|]|].
  intros riC HC. cbn beta in HC. pose proof (advance_app _ _ _ _ _ HB HC Hd1) as HBC.
  assert (∀ p, p ∈ req RemoveStray ++ req RemoveInProgress → p ∉ req RemoveWaitingRebalance) as Hd2.
  { intros p [Hp|Hp]%elem_of_app; revert Hp; apply req_disjoint; first [mem|done]. }
  eapply spec_post; [apply rebalance_loop_spec; by eapply Hkeep; [mem|apply (adv_moved _ _ _ HBC)|]|].
  intros [riD rq'] HD. simpl in *. subst busy. rewrite app_assoc. by eapply advance_app.
Qed.
Lemma is_nil_true {A} (l : list A) : is_nil l = true ↔ l = [].
Proof. by destruct l. Qed.

Lemma process_osds_spec :
  jobs_allowed ri1 →
  spec P (process_osds c ri1 req)
    (λ r, pass_rel ri1 r.1.2 ∧ (r.1.1 = true → nothing_left ri1 r.1.2)).
Proof.
  intros Hal. unfold process_osds. eapply spec_bind.
  { apply finished_loop_spec; [apply P_sleep|apply P_clock|apply pe_job_get|apply NoDup_requests|done|].
    apply may_finish_request. }
  intros fs Hfl. cbn beta in Hfl. fold fs0 in Hfl. fold (with_issues fs).
  assert (∀ p, phase_at (with_issues fs) p = phase_at ri1 p) as Hph by apply (fl_phase _ _ _ Hfl).
  eapply spec_bind; [by apply active_loops_spec|]. intros [riD rq] HD. simpl in HD.
  pose proof (adv_moved _ _ _ HD) as HmD.
  assert (∀ p, p ∈ req RemovePending → phase_at riD p = Some RemovePending) as HpendD.
  { intros p Hp. apply req_phase in Hp; [|mem]. rewrite (moved_other _ _ _ HmD), Hph; [done|].
    intros Hb. by apply busy_not_pending in Hb. }
  destruct (is_nil (req RemoveWaitingRebalance)) eqn:Hw; simpl.
  2: { apply spec_ret. split; [|done]. eapply pass_rel_intro; [done|done| |].
    - intros p q Hp Hpp. by apply busy_not_pending in Hp.
    - intros p q Hp Hq Hnp. destruct Hnp. apply HpendD. apply req_phase; [mem|done]. }
  apply is_nil_true in Hw. eapply spec_bind; [by apply pending_out_spec|].
  intros [[riE n'] w] [[HmE HsE H1E] Hn']; simpl in *.
  assert (advance (busy ++ pending_pairs req) (with_issues fs) riE) as Hadv.
  { eapply advance_app; [done|split; [done|]|].
    - intros p Hp. destruct (HsE p Hp) as (b & Hb & Hstep). exists RemovePending, b.
      split_and!; [|done|done]. by apply HpendD, pending_pairs_req.
    - intros p Hb Hp%pending_pairs_req. apply req_phase in Hp; [|mem]. by apply busy_not_pending in Hb. }
  assert (pass_rel ri1 riE) as Hrel.
  { eapply pass_rel_intro; [done|done| |].
    - intros p q [Hp|Hp]%elem_of_app Hpp; [by apply busy_not_pending in Hp|].
      split; [|by eapply pending_pairs_failed]. intros Hq. apply req_phase in Hq; [|mem].
      rewrite Hw in Hq. by apply elem_of_nil in Hq.
    - intros p q Hp Hq Hnp Hnq.
      assert (∀ x, phase_at ri1 x = Some RemovePending → phase_at riE x ≠ Some RemovePending →
        x ∈ pending_pairs req) as Hin.
      { intros x Hx Hnx. destruct (decide (x ∈ pending_pairs req)) as [|Hx']; [done|].
        destruct Hnx. rewrite (moved_other _ _ _ HmE) by done. apply HpendD. apply req_phase; [mem|done]. }
      by apply H1E; auto. }
  destruct (n' =? 0) eqn:Hn0; apply spec_ret; simpl; (split; [done|]); [|done]. intros _.
  apply Z.eqb_eq in Hn0. destruct (fl_end _ _ _ Hfl) as (k & new & Hk & H0k & _). simpl in Hk.
  assert (is_nil (pending_pairs req) = true) as Hpp by (destruct (is_nil (pending_pairs req)); [done|lia]).
  rewrite Hpp in Hn'. apply is_nil_true in Hpp.
  assert (req RemoveStray = []) as Hs0 by (apply length_zero_iff_nil; lia).
  assert (req RemoveInProgress = []) as Hi0 by (apply length_zero_iff_nil; lia).
  eapply nothing_left_intro; try done; [|lia].
  eapply moved_trans; [exact HmD|exact HmE| |]; [subst busy; by rewrite Hs0, Hi0, Hw|by rewrite Hpp].
Qed.
End pass.

Section collected_hosts.
Context `{MapRange}.

Lemma host_statuses_collected ri : host_statuses (collected ri) = host_statuses ri.
Proof.
  unfold collected. rewrite collect_entries. generalize ((λ _, []) : reqmap).
  generalize (entries ri). intros l. revert ri. induction l as [|[p om] l IH]; intros ri req; [done|].
  cbn [foldl]. unfold collect_entry at 2; simpl.
  destruct (om_RemoveStatus om); simpl; rewrite IH; [done|]. apply host_statuses_upd.
Qed.

Lemma host_completed_collected ri h hm :
  ri_CleanupMap ri !! h = Some hm → host_completed hm →
  ∃ hm1, ri_CleanupMap (collected ri) !! h = Some hm1 ∧ host_completed hm1.
Proof.
  intros Hhm (Hflags & Hst & Hosds).
  assert (static (collected ri) !! h = static ri !! h) as Hh by by rewrite collected_static.
  assert (host_statuses (collected ri) !! h = host_statuses ri !! h) as Hs by by rewrite host_statuses_collected.
  unfold static in Hh. unfold host_statuses in Hs. rewrite !lookup_fmap, Hhm in Hh. rewrite !lookup_fmap, Hhm in Hs.
  destruct (ri_CleanupMap (collected ri) !! h) as [hm1|] eqn:Hhm1; simpl in *; [|done].
  apply (inj Some) in Hh, Hs. exists hm1. split; [done|].
  unfold static_host, set_hm_HostRemoveStatus, set_hm_OsdMapping in Hh. injection Hh as Hc Hd _ _ _.
  split; [rewrite Hc, Hd; done|]. split; [congruence|].
  intros o om1 Hom1. pose proof (osd_at_collected ri (mkPair h o)) as Ho.
  unfold osd_at, get_osd in Ho. simpl in Ho. rewrite Hhm, Hhm1 in Ho. simpl in Ho. rewrite Hom1 in Ho.
  destruct (hm_OsdMapping hm !! o) as [om|] eqn:Hom; simpl in Ho; [|done]. injection Ho as ->.
  specialize (Hosds _ _ Hom). unfold osd_completed, init_osd in *.
  by destruct (om_RemoveStatus om) eqn:Hrr; simpl in *; rewrite ?Hrr.
Qed.
End collected_hosts.

(** A pass that only removes hosts, or none at all, leaves the OSDs alone. *)
Lemma hosts_pass_rel ri1 ri2 : hosts_moved ri1 ri2 → pass_rel ri1 ri2.
Proof.
  intros Hmv.
  assert (∀ p, result_at ri2 p = result_at ri1 p) as Hres
    by (intros p; by rewrite !result_at_osd, (hv_osd _ _ Hmv)).
  assert (∀ p, phase_at ri2 p = phase_at ri1 p) as Hph by (intros p; by rewrite !phase_at_result, Hres).
  assert (∀ p, job_at ri2 p = job_at ri1 p) as Hj by (intros p; unfold job_at; by rewrite Hres).
  split.
  - apply (hv_static _ _ Hmv).
  - intros p a Ha. exists a. rewrite Hph. split; [done|constructor].
  - intros p q Hp _ Hnp. by rewrite Hph in Hnp.
  - intros p q _ Hp. by rewrite Hph.
  - intros p. rewrite Hj. constructor.
  - intros p. left. unfold deploy_at. by rewrite Hres.
  - intros H1 p q. rewrite !Hj. apply H1.
  - intros H1 p. rewrite Hj. intros Hp. apply (cleanup_allowed_static ri1); [|auto].
    symmetry. apply (hv_static _ _ Hmv).
Qed.

(** A whole pass, from any remove info whose jobs are where they may be. *)
Lemma pass_spec `{World} `{MapRange} c ri rq :
  jobs_allowed (collected ri) →
  spec (pass_event c (collected ri)) (processOsdRemoveTask c ri rq)
    (λ r, pass_rel (collected ri) r.1.2 ∧ (r.1.1 = true → nothing_left (collected ri) r.1.2)).
Proof.
  intros Hal. unfold processOsdRemoveTask.
  pose proof (elem_of_hosts_to_remove ri) as Hhosts. unfold hosts_to_remove in Hhosts.
  pose proof (process_osds_spec c ri Hal) as Hosds.
  assert (∀ h, h ∈ (collect ri).2 → ∃ hm, ri_CleanupMap (collected ri) !! h = Some hm ∧ host_completed hm)
    as Hdone.
  { intros h (hm & Hhm & Hcm)%Hhosts. by eapply host_completed_collected. }
  unfold collected, requests in *. destruct (collect ri) as [[ri1 req] hosts]. simpl in *.
  destruct (rq || negb (is_nil hosts)) eqn:Hrq.
  - eapply spec_bind.
    { apply hosts_loop_spec; [by constructor|by constructor|]. intros h (hm & Hhm & Hcm)%Hdone.
      split; [by econstructor|eauto]. }
    intros ri2 [Hmv _]. apply spec_ret. simpl. split; [by apply hosts_pass_rel|done].
  - assert (hosts = []) as -> by (by destruct rq, hosts). by apply spec_bind_ret.
Qed.

(** ** Any number of passes *)

(** No OSD has a removal status yet: what validation leaves. *)
Definition fresh ri : Prop := ∀ p om, osd_at ri p = Some om → om_RemoveStatus om = None.

(** The remove infos a task can reach: passes with any configuration, at any
    time ([h] is the history of interactions before the pass). *)
Inductive reach `{World} `{MapRange} : TaskRemoveInfo → Prop :=
| reach_fresh ri : fresh ri → reach ri
| reach_pass c ri rq h : reach ri → reach (processOsdRemoveTask c ri rq h).1.1.2.

Definition phase_known (ph : RemovePhase) : Prop :=
  ph ∈ [RemovePending; RemoveWaitingRebalance; RemoveInProgress; RemoveStray; RemoveFinished;
        RemoveFailed; RemoveSkipped].

(** The invariant, of the remove info with every status filled in. *)
Record removal_inv ri : Prop := {
  inv_known p om : osd_at ri p = Some om → ∃ ph, phase_at ri p = Some ph ∧ phase_known ph;
  inv_single p q : phase_at ri p = Some RemoveWaitingRebalance →
    phase_at ri q = Some RemoveWaitingRebalance → p = q;
  inv_job p : job_known (job_at ri p);
  inv_one_job : one_job ri;
  inv_allowed : jobs_allowed ri;
  inv_deploy p : deploy_at ri p ≠ None → cleanup_over ri p;
}.

Lemma osd_step_known a b : osd_step a b → phase_known a → phase_known b.
Proof.
  unfold phase_known. intros Hs Ha. inversion Hs as [|? Hin|? Hin|? Hin|? Hin]; subst; [done| | | |];
    mem_inv Hin; subst; mem.
Qed.

Lemma job_step_known a b : job_step a b → job_known a → job_known b.
Proof.
  unfold job_known. intros Hs Ha. inversion Hs as [|? ? _ Hin|? Hin]; subst; [done| |];
    mem_inv Hin; subst; mem.
Qed.

Lemma job_step_over a b :
  job_step a b → a = Some RemoveCompleted ∨ a = Some RemoveSkipped → b = a.
Proof.
  intros Hs Ha. inversion Hs as [|? ? Hj _|? Hin]; subst; [done| |].
  - mem_inv Hj; subst; by destruct Ha.
  - by destruct Ha.
Qed.

(** Waiting for rebalance is entered from pending only. *)
Lemma osd_step_waiting a b :
  osd_step a b → b = RemoveWaitingRebalance → a = RemovePending ∨ a = RemoveWaitingRebalance.
Proof.
  intros Hs ->. inversion Hs as [|? Hin|? Hin|? Hin|? Hin]; subst; auto; mem_inv Hin; done.
Qed.

Lemma pass_rel_single ri ri' :
  pass_rel ri ri' → removal_inv ri →
  (∀ p, is_Some (phase_at ri' p) → is_Some (phase_at ri p)) →
  ∀ p q, phase_at ri' p = Some RemoveWaitingRebalance → phase_at ri' q = Some RemoveWaitingRebalance → p = q.
Proof.
  intros Hr Hinv Hdom.
  assert (∀ p, phase_at ri' p = Some RemoveWaitingRebalance →
    phase_at ri p = Some RemovePending ∨ phase_at ri p = Some RemoveWaitingRebalance) as Hfrom.
  { intros p Hp. destruct (Hdom p) as [a Ha]; [eauto|].
    destruct (pr_step _ _ Hr _ _ Ha) as (b & Hb & Hab). rewrite Hp in Hb. injection Hb as <-.
    rewrite Ha. destruct (osd_step_waiting _ _ Hab eq_refl) as [-> | ->]; auto. }
  assert (∀ p q, phase_at ri q = Some RemoveWaitingRebalance → phase_at ri p = Some RemovePending →
    phase_at ri' p = Some RemoveWaitingRebalance → False) as Hbusy.
  { intros p q Hq Hp Hp'. pose proof (pr_busy _ _ Hr p q (or_introl Hq) Hp). congruence. }
  intros p q Hp Hq. destruct (Hfrom p Hp) as [Hp0|Hp0], (Hfrom q Hq) as [Hq0|Hq0].
  - apply (pr_single _ _ Hr); congruence.
  - by destruct (Hbusy p q).
  - by destruct (Hbusy q p).
  - by apply (inv_single _ Hinv).
Qed.

Lemma phase_at_osd ri p : is_Some (phase_at ri p) → is_Some (osd_at ri p).
Proof. rewrite phase_at_result, result_at_osd. destruct (osd_at ri p); [eauto|]. by intros []. Qed.

Lemma static_osd_some ri ri' p : static ri = static ri' → is_Some (osd_at ri p) → is_Some (osd_at ri' p).
Proof.
  intros Hst [om Hom]. pose proof (static_osd_at _ _ p Hst) as Heq. rewrite Hom in Heq.
  destruct (osd_at ri' p); [eauto|done].
Qed.

Lemma pass_rel_inv ri ri' : pass_rel ri ri' → removal_inv ri → removal_inv ri'.
Proof.
  intros Hr Hinv. pose proof (pr_static _ _ Hr) as Hst.
  assert (∀ p, is_Some (osd_at ri' p) → ∃ a, phase_at ri p = Some a ∧ phase_known a) as Hknown.
  { intros p Hp. destruct (static_osd_some ri' ri p Hst Hp) as [om Hom]. by eapply (inv_known _ Hinv). }
  split.
  - intros p om Hom. destruct (Hknown p) as (a & Ha & Hka); [eauto|].
    destruct (pr_step _ _ Hr _ _ Ha) as (b & Hb & Hab). exists b. split; [done|]. by eapply osd_step_known.
  - apply (pass_rel_single ri); [done|done|]. intros p Hp%phase_at_osd.
    destruct (Hknown p Hp) as (a & Ha & _). eauto.
  - intros p. eapply job_step_known; [apply (pr_job _ _ Hr)|apply (inv_job _ Hinv)].
  - apply (pr_one_job _ _ Hr), (inv_one_job _ Hinv).
  - apply (pr_allowed _ _ Hr), (inv_allowed _ Hinv).
  - intros p Hp. destruct (pr_deploy _ _ Hr p) as [Hd|[_ Hov]]; [|done].
    rewrite Hd in Hp. apply (inv_deploy _ Hinv) in Hp. unfold cleanup_over in *.
    by rewrite (job_step_over _ _ (pr_job _ _ Hr p) Hp).
Qed.

Section invariant.
Context `{World} `{MapRange}.

(** Filling in missing statuses changes nothing when none is missing. *)
Lemma collected_inv ri : removal_inv ri → removal_inv (collected ri).
Proof.
  intros Hinv.
  assert (∀ p, osd_at (collected ri) p = osd_at ri p) as Hosd.
  { intros p. rewrite osd_at_collected. destruct (osd_at ri p) as [om|] eqn:Hom; simpl; [|done].
    destruct (inv_known _ Hinv p om Hom) as (ph & Hph & _). apply phase_at_is_result in Hph as [rr Hrr].
    rewrite result_at_osd, Hom in Hrr. simpl in Hrr. unfold init_osd. by rewrite Hrr. }
  assert (∀ p, result_at (collected ri) p = result_at ri p) as Hres
    by (intros p; by rewrite !result_at_osd, Hosd).
  assert (∀ p, phase_at (collected ri) p = phase_at ri p) as Hph by (intros p; by rewrite !phase_at_result, Hres).
  assert (∀ p, job_at (collected ri) p = job_at ri p) as Hj by (intros p; unfold job_at; by rewrite Hres).
  destruct Hinv as [H1 H2 H3 H4 H5 H6]. split.
  - intros p om. rewrite Hosd, Hph. apply H1.
  - intros p q. rewrite !Hph. apply H2.
  - intros p. rewrite Hj. apply H3.
  - intros p q. rewrite !Hj. apply H4.
  - intros p. rewrite Hj. intros Hp. apply (cleanup_allowed_static ri); [|auto].
    symmetry. apply collected_static.
  - intros p. unfold deploy_at, cleanup_over. rewrite Hres, Hj. apply H6.
Qed.

Lemma fresh_inv ri : fresh ri → removal_inv (collected ri).
Proof.
  intros Hfresh.
  assert (∀ p, osd_at ri p ≫= om_RemoveStatus = None) as Hnone.
  { intros p. destruct (osd_at ri p) eqn:Hom; [|done]. by apply Hfresh in Hom. }
  assert (∀ p, phase_at (collected ri) p =
    om ← osd_at ri p; Some (initial_phase (hp_Host p) (hp_OsdID p) om)) as Hph.
  { intros p. rewrite phase_at_collected. destruct (osd_at ri p) as [om|] eqn:Hom; [|done]. simpl.
    by rewrite (Hfresh _ _ Hom). }
  assert (∀ p rr, result_at (collected ri) p = Some rr →
    rr_DeviceCleanUpJob rr = None ∧ rr_DeployRemoveStatus rr = None) as Hres.
  { intros p rr. rewrite result_at_osd, osd_at_collected. destruct (osd_at ri p) as [om|] eqn:Hom; [|done].
    simpl. unfold init_osd. rewrite (Hfresh _ _ Hom). simpl. by intros [= <-]. }
  assert (∀ p, job_at (collected ri) p = None) as Hj.
  { intros p. unfold job_at. destruct (result_at (collected ri) p) as [rr|] eqn:Hrr; [|done]. simpl.
    destruct (Hres _ _ Hrr) as [-> _]. done. }
  split.
  - intros p om. rewrite osd_at_collected, Hph. destruct (osd_at ri p) as [om0|]; [|done]. intros _. simpl.
    eexists. split; [done|]. unfold initial_phase, phase_known. repeat case_match; mem.
  - intros p q Hp. rewrite Hph in Hp. destruct (osd_at ri p) as [om|]; [|done]. simpl in Hp.
    unfold initial_phase in Hp. repeat case_match; done.
  - intros p. rewrite Hj. unfold job_known. mem.
  - intros p q _. by rewrite Hj.
  - intros p. rewrite Hj. by intros [].
  - intros p. unfold deploy_at. destruct (result_at (collected ri) p) as [rr|] eqn:Hrr; [|done]. simpl.
    by destruct (Hres _ _ Hrr) as [_ ->].
Qed.

Lemma reach_inv ri : reach ri → removal_inv (collected ri).
Proof.
  induction 1 as [ri Hf|c ri rq h _ IH]; [by apply fresh_inv|].
  apply collected_inv. destruct (pass_spec c ri rq (inv_allowed _ IH) h) as [[Hrel _] _].
  by eapply pass_rel_inv.
Qed.

Lemma reach_pass_spec c ri rq :
  reach ri →
  spec (pass_event c (collected ri)) (processOsdRemoveTask c ri rq)
    (λ r, pass_rel (collected ri) r.1.2 ∧ (r.1.1 = true → nothing_left (collected ri) r.1.2)).
Proof. intros Hr. apply pass_spec, (inv_allowed _ (reach_inv _ Hr)). Qed.
End invariant.

(** ** The theorems *)

(** C2: every pass, over every remove info a task can reach, moves each OSD of
    the cleanup map along the specified steps: pending, rebalancing, removing,
    finished or failed (a stray one: finished, skipped or failed).  It never
    adds or drops an OSD and changes nothing but statuses. *)
Theorem pass_refines_steps `{World} `{MapRange} c ri rq h p om :
  reach ri → osd_at ri p = Some om →
  let ri' := (processOsdRemoveTask c ri rq h).1.1.2 in
  static ri' = static ri ∧
  ∃ a b, phase_at (collected ri) p = Some a ∧ phase_at ri' p = Some b ∧ osd_step a b.
Proof.
  intros Hr Hom ri'. destruct (reach_pass_spec c ri rq Hr h) as [[Hrel _] _]. fold ri' in Hrel.
  split; [by rewrite (pr_static _ _ Hrel), collected_static|].
  destruct (inv_known _ (reach_inv _ Hr) p (init_osd (hp_Host p) (hp_OsdID p) om)) as (a & Ha & _).
  { by rewrite osd_at_collected, Hom. }
  destruct (pr_step _ _ Hrel _ _ Ha) as (b & Hb & Hab). eauto.
Qed.

Lemma phase_at_collected_some ri p ph `{MapRange} :
  phase_at ri p = Some ph → phase_at (collected ri) p = Some ph.
Proof.
  rewrite phase_at_collected, phase_at_result, result_at_osd.
  destruct (osd_at ri p) as [om|]; [|done]. simpl. by destruct (om_RemoveStatus om).
Qed.

(** C4: at most one OSD at a time waits for its data to be rebalanced, whatever
    the cluster answers and whatever the order in which the maps are visited. *)
Theorem one_rebalance_at_a_time `{World} `{MapRange} ri p q :
  reach ri → phase_at ri p = Some RemoveWaitingRebalance → phase_at ri q = Some RemoveWaitingRebalance →
  p = q.
Proof.
  intros Hr Hp Hq. apply (inv_single _ (reach_inv _ Hr)); by apply phase_at_collected_some.
Qed.

(** C14: a pass asks of the cluster only what the specification allows: purges
    and key deletions for OSDs being removed (or stray), a reweight for a
    pending OSD and only while none rebalances and none has failed, a host leaves
    the CRUSH map only when all its OSDs are done, cleanup jobs run on the host
    of a removed OSD and never where cleanup is excluded, deployments of
    finished OSDs only are deleted. *)
Theorem pass_asks_only_allowed `{World} `{MapRange} c ri rq h e :
  reach ri → e ∈ (processOsdRemoveTask c ri rq h).2 → pass_event c (collected ri) e.
Proof.
  intros Hr He. destruct (reach_pass_spec c ri rq Hr h) as [_ Hev]. by eapply Forall_forall in Hev.
Qed.

(** A failed or a rebalancing OSD holds back all pending ones; and at most
    one pending OSD is moved out in a pass. *)
Theorem pending_moves_one_by_one `{World} `{MapRange} c ri rq h p q :
  reach ri →
  phase_at (collected ri) p = Some RemovePending →
  let ri' := (processOsdRemoveTask c ri rq h).1.1.2 in
  phase_at ri' p ≠ Some RemovePending →
  (phase_at (collected ri) q ≠ Some RemoveFailed ∧ phase_at (collected ri) q ≠ Some RemoveWaitingRebalance) ∧
  (phase_at (collected ri) q = Some RemovePending → q ≠ p → phase_at ri' q = Some RemovePending).
Proof.
  intros Hr Hp ri' Hp'. destruct (reach_pass_spec c ri rq Hr h) as [[Hrel _] _]. fold ri' in Hrel. split.
  - split; intros Hq; apply Hp'; eapply (pr_busy _ _ Hrel p q); auto.
  - intros Hq Hne. destruct (decide (phase_at ri' q = Some RemovePending)) as [|Hq']; [done|].
    destruct Hne. by apply (pr_single _ _ Hrel).
Qed.

(** At most one device cleanup job runs on a host. *)
Theorem one_job_per_host `{World} `{MapRange} c ri rq h p q :
  reach ri →
  let ri' := (processOsdRemoveTask c ri rq h).1.1.2 in
  hp_Host p = hp_Host q → job_at ri' p = Some RemoveInProgress → job_at ri' q = Some RemoveInProgress → p = q.
Proof.
  intros Hr ri'. destruct (reach_pass_spec c ri rq Hr h) as [[Hrel _] _]. fold ri' in Hrel.
  apply (pr_one_job _ _ Hrel), (inv_one_job _ (reach_inv _ Hr)).
Qed.

(** The deployment of an OSD is dealt with only after its device cleanup has
    completed or was skipped; and a cleanup waits or runs only on a node that is
    up, reports its volumes and is not dropped from CRUSH only, for an OSD with
    devices and without the skip flag. *)
Theorem deployment_after_cleanup `{World} `{MapRange} c ri rq h p :
  reach ri →
  let ri' := (processOsdRemoveTask c ri rq h).1.1.2 in
  (deploy_at ri' p ≠ None → cleanup_over ri' p) ∧
  (job_at ri' p = Some RemovePending ∨ job_at ri' p = Some RemoveInProgress → cleanup_allowed ri' p).
Proof.
  intros Hr ri'. destruct (reach_pass_spec c ri rq Hr h) as [[Hrel _] _]. fold ri' in Hrel.
  pose proof (pass_rel_inv _ _ Hrel (reach_inv _ Hr)) as Hinv.
  split; [apply (inv_deploy _ Hinv)|apply (inv_allowed _ Hinv)].
Qed.

(** C31: when a pass reports the removal as finished and without issues, every
    OSD of the cleanup map has been removed or (a stray one) skipped, its devices
    are cleaned or their cleanup was skipped, and its deployment is handled
    without failure. *)
Theorem finished_removal_complete `{World} `{MapRange} c ri rq h p om :
  reach ri →
  let r := (processOsdRemoveTask c ri rq h).1 in
  r.1.1 = true → ri_Issues r.1.2 = [] → osd_at ri p = Some om →
  (phase_at r.1.2 p = Some RemoveFinished ∨ phase_at r.1.2 p = Some RemoveSkipped) ∧
  cleanup_over r.1.2 p ∧ deploy_at r.1.2 p ≠ None ∧ deploy_at r.1.2 p ≠ Some RemoveFailed.
Proof.
  intros Hr r Hfin Hiss Hom. destruct (reach_pass_spec c ri rq Hr h) as [[Hrel Hleft] _]. fold r in Hrel, Hleft.
  pose proof (reach_inv _ Hr) as Hinv.
  destruct (inv_known _ Hinv p (init_osd (hp_Host p) (hp_OsdID p) om)) as (a & Ha & Hk).
  { by rewrite osd_at_collected, Hom. }
  destruct (Hleft Hfin) as [Hbusy Hclean]. destruct (Hclean Hiss p) as [Hopen Hover]. specialize (Hbusy p).
  rewrite Ha in Hopen, Hover, Hbusy.
  assert (a = RemoveFinished ∨ a = RemoveSkipped) as Hend.
  { unfold phase_known in Hk. mem_inv Hk; subst a; auto; exfalso;
      first [apply Hopen; mem|apply Hbusy; mem]. }
  destruct (pr_step _ _ Hrel _ _ Ha) as (b & Hb & Hab).
  assert (b = a) as -> by (destruct Hend; subst a; by inversion Hab).
  rewrite Hb. split; [destruct Hend; subst a; auto|]. apply Hover; [|apply (inv_job _ Hinv)].
  destruct Hend; subst a; auto.
Qed.

(** ** Witnesses: passes over two OSDs of a calm cluster *)

Definition demo_pass (ri : TaskRemoveInfo) : bool * TaskRemoveInfo * bool :=
  (@processOsdRemoveTask (demo_world calm) default_range demo_config ri false []).1.

Fixpoint demo_passes (n : nat) (ri : TaskRemoveInfo) : TaskRemoveInfo :=
  match n with
  | O => ri
  | S n' => (demo_pass (demo_passes n' ri)).1.2
  end.

Definition demo_ri (n : nat) : TaskRemoveInfo := demo_passes n (demo_info None None).

Definition osd0 : hostOsdPair := mkPair "node-1" "0".
Definition osd1 : hostOsdPair := mkPair "node-1" "1".

Lemma demo_fresh : fresh (demo_info None None).
Proof.
  intros [h o] om. unfold osd_at, get_osd, demo_info; simpl. rewrite lookup_singleton.
  case_decide; simpl; [|done]. rewrite lookup_insert. case_decide; [intros [= <-]; done|].
  rewrite lookup_singleton. case_decide; [intros [= <-]; done|done].
Qed.

Lemma demo_reach n : @reach (demo_world calm) default_range (demo_ri n).
Proof.
  induction n as [|n IH]; [apply reach_fresh, demo_fresh|]. by apply (reach_pass demo_config _ false []).
Qed.

Lemma pass_refines_steps_witness :
  osd_at (demo_ri 2) osd1 ≠ None ∧
  phase_at (@collected default_range (demo_ri 2)) osd1 = Some RemoveInProgress ∧
  phase_at (demo_ri 3) osd1 = Some RemoveFinished ∧
  static (demo_ri 3) = static (demo_ri 2).
Proof.
  split; [vm_compute; discriminate|]. split; [vm_compute; reflexivity|]. split; [vm_compute; reflexivity|].
  destruct (osd_at (demo_ri 2) osd1) as [om|] eqn:Hom; [|vm_compute in Hom; discriminate].
  exact (proj1 (@pass_refines_steps (demo_world calm) default_range demo_config (demo_ri 2) false [] osd1 om
           (demo_reach 2) Hom)).
Defined.

Lemma one_rebalance_at_a_time_witness :
  phase_at (demo_ri 1) osd1 = Some RemoveWaitingRebalance ∧ osd1 = osd1.
Proof.
  split; [vm_compute; reflexivity|].
  apply (@one_rebalance_at_a_time (demo_world calm) default_range (demo_ri 1) osd1 osd1 (demo_reach 1));
    vm_compute; reflexivity.
Defined.

Lemma pass_asks_only_allowed_witness :
  pass_event demo_config (@collected default_range (demo_ri 2))
    (EvCeph "rook-ceph" "ceph osd purge 1 --force --yes-i-really-mean-it").
Proof.
  apply (@pass_asks_only_allowed (demo_world calm) default_range demo_config (demo_ri 2) false []
           _ (demo_reach 2)).
  vm_compute. right; left.
Defined.

Lemma pending_moves_one_by_one_witness :
  phase_at (demo_ri 1) osd1 = Some RemoveWaitingRebalance ∧ phase_at (demo_ri 1) osd0 = Some RemovePending.
Proof.
  split; [vm_compute; reflexivity|].
  apply (@pending_moves_one_by_one (demo_world calm) default_range demo_config (demo_ri 0) false [] osd1 osd0
           (demo_reach 0)); vm_compute; first [reflexivity|discriminate].
Defined.

Lemma one_job_per_host_witness : job_at (demo_ri 4) osd1 = Some RemoveInProgress ∧ osd1 = osd1.
Proof.
  split; [vm_compute; reflexivity|].
  apply (@one_job_per_host (demo_world calm) default_range demo_config (demo_ri 3) false [] osd1 osd1
           (demo_reach 3)); vm_compute; reflexivity.
Defined.

Lemma deployment_after_cleanup_witness :
  deploy_at (demo_ri 6) osd1 = Some RemoveFinished ∧ cleanup_over (demo_ri 6) osd1.
Proof.
  split; [vm_compute; reflexivity|].
  apply (@deployment_after_cleanup (demo_world calm) default_range demo_config (demo_ri 5) false [] osd1
           (demo_reach 5)); vm_compute; discriminate.
Defined.

Lemma finished_removal_complete_witness :
  (demo_pass (demo_ri 8)).1.1 = true ∧ cleanup_over (demo_ri 9) osd0.
Proof.
  split; [vm_compute; reflexivity|].
  destruct (osd_at (demo_ri 8) osd0) as [om|] eqn:Hom; [|vm_compute in Hom; discriminate].
  apply (@finished_removal_complete (demo_world calm) default_range demo_config (demo_ri 8) false [] osd0 om
           (demo_reach 8)); [vm_compute; reflexivity|vm_compute; reflexivity|exact Hom].
Defined.
