(* ===== verification/SpecHandler.v ===== *)
(** * What to remove: validation of an OSD removal task

    pkg/controller/osdremove-task/spec_handler.go: from the task's nodes section
    (or, without one, from what is found), the CRUSH hierarchy, the OSD metadata,
    the Rook storage spec, the Kubernetes nodes and the disk-daemon reports, the
    cleanup map with its issues and warnings.

    Results are [option]s where the code indexes [osdsMetadataFromCluster]
    without a check: [None] stands for the index-out-of-range panic. *)

From Stdlib Require Import Ascii.
From S2P Require Import Prelude GoTime Types World Helpers TaskUtils.
Open Scope Z_scope.

Record osdHostInfo := mkHostInfo {
  hi_inSpec : bool;
  hi_specIdx : nat;
  hi_inCrush : bool;
  hi_crushOsds : list Z;
  hi_labeled : bool;
  hi_available : bool;
}.
Definition zero_osdHostInfo : osdHostInfo := mkHostInfo false 0 false [] false false.

(** ** Gathering the hosts: [getOsdsForCleanup] *)

(** [len(c.taskConfig.task.Spec.Nodes) > 0] and the map, the empty one otherwise. *)
Definition nodesFromTaskSpec (task : CephOsdRemoveTask) : gmap string NodeCleanUpSpec :=
  match task_Spec task with
  | Some spec => default ∅ (ts_Nodes spec)
  | None => ∅
  end.

Definition pickHost (nodes : gmap string NodeCleanUpSpec) (hostname : string) : bool :=
  if decide (hostname = "") then false
  else if decide (nodes = ∅) then true
  else bool_decide (is_Some (nodes !! hostname)).

Definition add_crush_host (nodes : gmap string NodeCleanUpSpec) (hosts : gmap string osdHostInfo)
    (entry : string * list Z) : gmap string osdHostInfo :=
  let '(host, osdsOnHost) := entry in
  if pickHost nodes host then <[host := mkHostInfo false 0 true osdsOnHost false false]> hosts else hosts.

Definition add_spec_node (nodes : gmap string NodeCleanUpSpec) (hosts : gmap string osdHostInfo)
    (entry : nat * CephNode) : gmap string osdHostInfo :=
  let '(idx, node) := entry in
  if pickHost nodes (cn_Name node) then
    match hosts !! cn_Name node with
    | Some info =>
        <[cn_Name node := mkHostInfo true idx (hi_inCrush info) (hi_crushOsds info)
                            (hi_labeled info) (hi_available info)]> hosts
    | None => <[cn_Name node := mkHostInfo true idx false [] false false]> hosts
    end
  else hosts.

Definition add_k8s_node `{World} (label : string) (nodes : gmap string NodeCleanUpSpec)
    (hosts : gmap string osdHostInfo) (node : K8sNode) : gmap string osdHostInfo :=
  if pickHost nodes (kn_Name node) then
    let labeled := IsNodeWithDiskDaemon node label in
    let hostAvailable := (IsNodeAvailable node).1 in
    match hosts !! kn_Name node with
    | Some info =>
        <[kn_Name node := mkHostInfo (hi_inSpec info) (hi_specIdx info) (hi_inCrush info)
                            (hi_crushOsds info) labeled hostAvailable]> hosts
    | None =>
        if labeled then <[kn_Name node := mkHostInfo false 0 false [] labeled hostAvailable]> hosts
        else hosts
    end
  else hosts.

Definition enumerate {A} (l : list A) : list (nat * A) := zip (seq 0 (length l)) l.

Definition osds_hosts `{World} `{MapRange} (label : string) (nodes : gmap string NodeCleanUpSpec)
    (hostsFromCluster : gmap string (list Z)) (specNodes : list CephNode) (nodesList : list K8sNode)
    : gmap string osdHostInfo :=
  let hosts := foldl (add_crush_host nodes) ∅ (range 10 hostsFromCluster) in
  let hosts := foldl (add_spec_node nodes) hosts (enumerate specNodes) in
  foldl (add_k8s_node label nodes) hosts nodesList.

(** ** What both ways of validation start from *)

(** [osdMetadataMap] and [strayOsdsNoHost] *)
Definition metadata_index (metas : list OsdMetadataInfo) : gmap Z nat :=
  foldl (λ m '(idx, meta), <[md_OsdID meta := idx]> m) ∅ (enumerate metas).

Definition strays_of (metas : list OsdMetadataInfo) : gmap string bool :=
  foldl (λ m meta, if decide (md_Hostname meta = "") then <[pretty (md_OsdID meta) := true]> m else m)
        ∅ metas.

Definition uuid_map (osdInfo : list OsdInfo) : gmap string string :=
  foldl (λ m osd, <[pretty (oi_OsdID osd) := oi_UUID osd]> m) ∅ osdInfo.

Definition data_dir (cluster : CephCluster) : string :=
  if decide (cc_DataDirHostPath cluster ≠ "") then cc_DataDirHostPath cluster else DefaultDataDirHostPath.

(** [Status.CephStatus.FSID]: the controller calls the validation only with
    this set (controller.go, 267). *)
Definition cluster_fsid (cluster : CephCluster) : string := default EmptyString (cc_CephStatusFSID cluster).

(** [osdsMetadataFromCluster[osdMetadataMap[osd]]]: a missing OSD reads index 0. *)
Definition meta_at (metas : list OsdMetadataInfo) (osd : Z) : option OsdMetadataInfo :=
  metas !! default 0%nat (metadata_index metas !! osd).

(** [strayOsdsNoHost[osd]] *)
Definition is_stray (strays : gmap string bool) (osd : string) : bool := default false (strays !! osd).

Definition node_msg (host msg : string) : string := "[node '" +:+ host +:+ "'] " +:+ msg.

Definition known_osds (osds : list Z) : gmap string Z :=
  foldl (λ m osd, <[pretty osd := osd]> m) ∅ osds.

Definition lock_devices (osdInfo : OsdDaemonInfo) (lock : gset string) : gset string :=
  foldl (λ lock dev, {[ od_Name dev ]} ∪ lock) lock (odi_Devices osdInfo).

(** The loop that locks the devices of an OSD found in the spec: all of them for
    a block device; otherwise the first one only, if it holds a partition of the
    type found. *)
Definition lock_in_spec (devType : string) (osdInfo : OsdDaemonInfo) (lock : gset string) : gset string :=
  if decide (devType = "block") then lock_devices osdInfo lock
  else
    match odi_Devices osdInfo with
    | [] => lock
    | dev :: _ =>
        if existsb (λ part, bool_decide (op_Partition part = od_RelatedPartition dev) &&
                            bool_decide (op_Type part = devType)) (odi_Partitions osdInfo)
        then {[ od_Name dev ]} ∪ lock else lock
    end.

(** Writing the entries of [devs] into a device map. *)
Definition put_devs `{MapRange} (site : nat) (devs m : gmap string DeviceInfo) : gmap string DeviceInfo :=
  foldl (λ m '(dev, mapping), <[dev := mapping]> m) m (range site devs).

(** The key of a stray OSD in the cleanup map. *)
Definition stray_key (osd uuid : string) : string :=
  if decide (uuid = "") then osd +:+ "." +:+ StrayOsdNodeMarker
  else osd +:+ "." +:+ uuid +:+ "." +:+ StrayOsdNodeMarker.

Definition stray_warning (host uuid osd : string) : string :=
  node_msg host ("found stray osd uuid '" +:+ uuid +:+ "', id '" +:+ osd +:+ "', will be cleaned up").

Section context.
Context `{World} `{MapRange}.
Variable c : cephOsdRemoveConfig.
Variable metas : list OsdMetadataInfo.
Variable infos : list OsdInfo.

Let cluster : CephCluster := c_cephCluster c.
Let fsid : string := cluster_fsid cluster.
Let uuids : gmap string string := uuid_map infos.
Let specAnalyse : gmap string DaemonStatus := osa_SpecAnalysis (c_cephHealthOsdAnalysis c).

Definition host_dir (fsid uuid : string) : string :=
  host_directory (data_dir cluster) (cc_Namespace cluster) fsid uuid.

(** [hostDirectory] of a reported OSD: empty without FSID or UUID. *)
Definition reported_dir (osdInfo : OsdDaemonInfo) : string :=
  if decide (odi_ClusterFSID osdInfo ≠ "" ∧ odi_OsdUUID osdInfo ≠ "")
  then host_dir (odi_ClusterFSID osdInfo) (odi_OsdUUID osdInfo) else EmptyString.

(** The mapping of an OSD known to the cluster. *)
Definition crush_mapping (osd : string) (skip : bool) (devs : gmap string DeviceInfo) : OsdMapping :=
  mkOsdMapping (map_str uuids osd) fsid (host_dir fsid (map_str uuids osd)) true devs skip None.

(** The workaround for legacy partitions without FSID or UUID. *)
Definition fill_ids (inCrush : bool) (osd : string) (osdInfo : OsdDaemonInfo) : OsdDaemonInfo :=
  let osdInfo :=
    if decide (odi_ClusterFSID osdInfo = "" ∧ inCrush = true) then set_odi_ClusterFSID fsid osdInfo
    else osdInfo in
  if decide (odi_OsdUUID osdInfo = "" ∧ inCrush = true) then set_odi_OsdUUID (map_str uuids osd) osdInfo
  else osdInfo.

(** The closure [checkFromCrush] (the same in both ways of validation). *)
Definition checkFromCrush (known : gmap string Z) (osd : string) (osdInfo : OsdDaemonInfo) : option bool :=
  match known !! osd with
  | Some osdInt =>
      if decide (odi_OsdUUID osdInfo ≠ "" ∧ odi_ClusterFSID osdInfo ≠ "") then
        Some (bool_decide (odi_OsdUUID osdInfo = map_str uuids osd) &&
              bool_decide (odi_ClusterFSID osdInfo = fsid))
      else
        meta ← meta_at metas osdInt;
        Some (existsb (λ '(_, info),
                bool_decide (di_Type info = "db") &&
                existsb (λ part, bool_decide (di_Partition info = op_Partition part) &&
                                 bool_decide (op_Type part = "db")) (odi_Partitions osdInfo))
              (range 11 (fillDevicesInfoFromMetadata meta)))
  | None => Some false
  end.

(** The check of the spec analysis of a host in the spec: [Some (inl _)] an
    issue, [Some (inr _)] a warning, both of which skip the host. *)
Definition analysis_block (host : string) : option (string + string) :=
  match specAnalyse !! host with
  | Some state =>
      match ds_Issues state with
      | _ :: _ => Some (inl (node_msg host "spec analyse status has failed, resolve it first"))
      | [] =>
          if decide (ds_Status state = DaemonStateSkipped)
          then Some (inr (node_msg host "spec analyse status skipped, skipping lcm actions"))
          else None
      end
  | None => Some (inl (node_msg host "spec analyse status is not available yet"))
  end.

(** ** Validation of the nodes the task names: [verifyOsdsForCleanUp] *)

(** The loop state of one host: cleanup map of its OSDs, locked devices, new
    warnings, and the stray OSDs of all hosts. *)
Record hstate := mkHState {
  hs_map : gmap string OsdMapping;
  hs_lock : gset string;
  hs_warn : list string;
  hs_stray : gmap string bool;
}.
Definition h_lock (lock : gset string) (st : hstate) : hstate :=
  mkHState (hs_map st) lock (hs_warn st) (hs_stray st).
Definition h_warn (w : string) (st : hstate) : hstate :=
  mkHState (hs_map st) (hs_lock st) (hs_warn st ++ [w]) (hs_stray st).
Definition h_map (m : gmap string OsdMapping) (st : hstate) : hstate :=
  mkHState m (hs_lock st) (hs_warn st) (hs_stray st).
Definition h_stray (strays : gmap string bool) (st : hstate) : hstate :=
  mkHState (hs_map st) (hs_lock st) (hs_warn st) strays.

(** Adding a reported OSD to the host's map: devices are merged into a present
    entry, otherwise a new entry is made. *)
Definition add_reported (site : nat) (osdKey : string) (osdInfo : OsdDaemonInfo) (inCrush skip : bool)
    (devs : gmap string DeviceInfo) (m : gmap string OsdMapping) : gmap string OsdMapping :=
  match m !! osdKey with
  | Some present =>
      <[osdKey := set_om_DeviceMapping (put_devs site devs (om_DeviceMapping present)) present]> m
  | None =>
      <[osdKey := mkOsdMapping (odi_OsdUUID osdInfo) (odi_ClusterFSID osdInfo) (reported_dir osdInfo)
                    inCrush devs skip None]> m
  end.

(** The reported volumes of a host, one entry per volume group. *)
Definition report_entries (site : nat) (report : DiskDaemonOsdsReport) : list (string * OsdDaemonInfo) :=
  '(osd, osdsInfo) ← range site (osr_Osds report); osdInfo ← osdsInfo; [(osd, osdInfo)].

(** Noting a stray OSD: its key, the warning, and that it needs no removal from
    the CRUSH map alone. *)
Definition note_stray (host osd : string) (osdInfo : OsdDaemonInfo) (strayInCrush osdInCrush : bool)
    (st : hstate) : string * hstate :=
  if osdInCrush then (osd, st)
  else
    let st := h_warn (stray_warning host (odi_OsdUUID osdInfo) osd) st in
    (stray_key osd (odi_OsdUUID osdInfo),
     if strayInCrush || bool_decide (odi_OsdUUID osdInfo = map_str uuids osd)
     then h_stray (<[osd := false]> (hs_stray st)) st else st).

(** *** Complete cleanup, removal from CRUSH, stray partitions *)

Definition known_mapping (known : gmap string Z) : option (gmap string OsdMapping) :=
  foldo (λ m '(osdStr, osdInt),
    meta ← meta_at metas osdInt;
    Some (<[osdStr := crush_mapping osdStr false (fillDevicesInfoFromMetadata meta)]> m))
    ∅ (range 12 known).

Definition complete_step (host : string) (hostInfo : osdHostInfo) (strayMode : bool)
    (used : usedDevices) (known : gmap string Z) (st : hstate) (entry : string * OsdDaemonInfo)
    : option hstate :=
  let '(osd, osdInfo) := entry in
  osdInCrush ← checkFromCrush known osd osdInfo;
  if strayMode && (osdInCrush : bool) then
    Some (if hi_inSpec hostInfo && (inSpec osdInfo used "").2
          then h_lock (lock_devices osdInfo (hs_lock st)) st else st)
  else
    let strayInCrush := is_stray (hs_stray st) osd &&
                        bool_decide (odi_OsdUUID osdInfo = map_str uuids osd) in
    let osdInfo := fill_ids (strayInCrush || osdInCrush) osd osdInfo in
    let '(osdKey, st) := note_stray host osd osdInfo strayInCrush osdInCrush st in
    let devsMap := getDevsInfoFromDaemonInfo osdInfo in
    Some (h_map (add_reported 14 osdKey osdInfo (strayInCrush || osdInCrush) false devsMap (hs_map st)) st).

Definition complete_branch (host : string) (hostSpec : NodeCleanUpSpec) (hostInfo : osdHostInfo)
    (used : usedDevices) (known : gmap string Z) (report : DiskDaemonOsdsReport) (st : hstate)
    : option hstate :=
  let strayMode := ncs_CleanupStrayPartitions hostSpec in
  m ← (if strayMode then Some (hs_map st) else known_mapping known);
  foldo (complete_step host hostInfo strayMode used known) (h_map m st) (report_entries 13 report).

(** *** Cleanup by OSD id *)

(** The state of the loop over the report for one OSD to remove. *)
Record byosd_state := mkByOsd {
  bo_devs : gmap string DeviceInfo;
  bo_allowed : bool;
  bo_st : hstate;
}.

Definition byosd_step (host : string) (hostInfo : osdHostInfo) (used : usedDevices)
    (known : gmap string Z) (toRemove : list OsdCleanupSpec) (osdToRemove : OsdCleanupSpec)
    (s : byosd_state) (entry : string * OsdDaemonInfo) : option byosd_state :=
  let '(osd, osdInfo) := entry in
  let st := bo_st s in
  let osdStr := pretty (ocs_ID osdToRemove) in
  let lock_all := mkByOsd (bo_devs s) (bo_allowed s) (h_lock (lock_devices osdInfo (hs_lock st)) st) in
  if decide (osdStr ≠ osd) then
    let foundInRemoveList := existsb (λ item, bool_decide (pretty (ocs_ID item) = osd)) toRemove in
    Some (if foundInRemoveList then s else lock_all)
  else
    fromCrush ← checkFromCrush known osd osdInfo;
    if negb fromCrush then Some lock_all
    else
      let add (s : byosd_state) :=
        mkByOsd (put_devs 16 (getDevsInfoFromDaemonInfo osdInfo) (bo_devs s)) (bo_allowed s) (bo_st s) in
      if hi_inSpec hostInfo then
        let '(inSpecName, devType, inspec) := inSpec osdInfo used "" in
        if (inspec : bool) then
          let st := h_lock (lock_in_spec devType osdInfo (hs_lock st)) st in
          if decide (devType = "block") then
            Some (mkByOsd (bo_devs s) false
              (h_warn (node_msg host ("osd with id '" +:+ osdStr +:+ "' is associated with block device '" +:+
                 inSpecName +:+ "', which is present in spec, can't cleanup, skipping")) st))
          else
            Some (add (mkByOsd (bo_devs s) (bo_allowed s)
              (h_warn (node_msg host ("osd with id '" +:+ osdStr +:+ "' is associated with metadata device '" +:+
                 inSpecName +:+ "', which is present in spec, disk zap will be skipped")) st)))
        else Some (add s)
      else Some (add s).

Definition byosd_one (host : string) (hostInfo : osdHostInfo) (used : usedDevices)
    (known : gmap string Z) (toRemove : list OsdCleanupSpec) (report : DiskDaemonOsdsReport)
    (st : hstate) (osdToRemove : OsdCleanupSpec) : option hstate :=
  let osdStr := pretty (ocs_ID osdToRemove) in
  match known !! osdStr with
  | Some _ =>
      meta ← meta_at metas (ocs_ID osdToRemove);
      s ← foldo (byosd_step host hostInfo used known toRemove osdToRemove)
            (mkByOsd (fillDevicesInfoFromMetadata meta) true st) (report_entries 15 report);
      let st := bo_st s in
      if bo_allowed s then
        let st :=
          if ocs_SkipDeviceCleanup osdToRemove then
            h_warn (node_msg host ("osd with id '" +:+ osdStr +:+
              "' has 'skip device clean up' flag set in spec. Related deployment should be removed manually as well")) st
          else st in
        Some (h_map (<[osdStr := crush_mapping osdStr (ocs_SkipDeviceCleanup osdToRemove) (bo_devs s)]>
                       (hs_map st)) st)
      else Some st
  | None =>
      Some (h_warn (node_msg host ("osd with id '" +:+ osdStr +:+ "' is not found on a node, skipping")) st)
  end.

Definition byosd_branch (host : string) (hostSpec : NodeCleanUpSpec) (hostInfo : osdHostInfo)
    (used : usedDevices) (known : gmap string Z) (report : DiskDaemonOsdsReport) (st : hstate)
    : option hstate :=
  foldo (byosd_one host hostInfo used known (ncs_CleanupByOsd hostSpec) report) st
        (ncs_CleanupByOsd hostSpec).

(** *** Cleanup by device *)

(** The state of the loop over the report for one device: [bd_stop] is set by
    [continue DevLoop]. *)
Record bydev_state := mkByDev {
  bd_found : bool;
  bd_stop : bool;
  bd_deny : list string;
  bd_st : hstate;
}.

(** The device info of the metadata, for the devices the report does not have. *)
Definition add_missing (meta devsMap : gmap string DeviceInfo) : gmap string DeviceInfo :=
  foldl (λ m '(dev, info), if decide (is_Some (m !! dev)) then m else <[dev := info]> m)
        devsMap (range 18 meta).

Definition bydev_take (host : string) (known : gmap string Z) (devConfig : DeviceCleanupSpec)
    (osd : string) (osdInfo : OsdDaemonInfo) (st : hstate) : option hstate :=
  osdInCrush ← checkFromCrush known osd osdInfo;
  let strayInCrush := is_stray (hs_stray st) osd &&
                      bool_decide (odi_OsdUUID osdInfo = map_str uuids osd) in
  let osdInfo := fill_ids (strayInCrush || osdInCrush) osd osdInfo in
  let devsMap := getDevsInfoFromDaemonInfo osdInfo in
  let '(osdKey, st) := note_stray host osd osdInfo strayInCrush osdInCrush st in
  devsMap ← (if (osdInCrush : bool) then
               meta ← meta_at metas (default 0 (known !! osd));
               Some (add_missing (fillDevicesInfoFromMetadata meta) devsMap)
             else Some devsMap);
  let st :=
    if dcs_SkipDeviceCleanup devConfig && osdInCrush then
      h_warn (node_msg host ("device '" +:+ dcs_Device devConfig +:+
        "' has set 'skip device clean up' flag set in spec. Related osd deployment (osd id '" +:+ osd +:+
        "') should be removed manually as well")) st
    else st in
  Some (h_map (add_reported 19 osdKey osdInfo (strayInCrush || osdInCrush)
                 (dcs_SkipDeviceCleanup devConfig) devsMap (hs_map st)) st).

Definition bydev_step (host : string) (hostInfo : osdHostInfo) (used : usedDevices)
    (known : gmap string Z) (devConfig : DeviceCleanupSpec) (s : bydev_state)
    (entry : string * OsdDaemonInfo) : option bydev_state :=
  let '(osd, osdInfo) := entry in
  let st := bd_st s in
  let devToRemove := dcs_Device devConfig in
  if bd_stop s then Some s
  else if negb (checkDisksOrPartition osdInfo devToRemove) then
    Some (if (inSpec osdInfo used "").2
          then mkByDev (bd_found s) false (bd_deny s) (h_lock (lock_devices osdInfo (hs_lock st)) st)
          else s)
  else
    let '(deviceInSpec, _, inspec) := inSpec osdInfo used devToRemove in
    if hi_inSpec hostInfo && inspec then
      let st := h_lock (lock_devices osdInfo (hs_lock st)) st in
      Some (mkByDev (bd_found s) true (bd_deny s ++ (od_Name <$> odi_Devices osdInfo))
             (h_warn (node_msg host ("device '" +:+ devToRemove +:+
                "' is marked for clean up, but present in spec as '" +:+ deviceInSpec +:+ "'")) st))
    else
      st ← bydev_take host known devConfig osd osdInfo st;
      Some (mkByDev true false (bd_deny s) st).

Definition bydev_one (host : string) (hostInfo : osdHostInfo) (used : usedDevices)
    (known : gmap string Z) (report : DiskDaemonOsdsReport) (acc : hstate * list string)
    (devConfig : DeviceCleanupSpec) : option (hstate * list string) :=
  let '(st, deny) := acc in
  s ← foldo (bydev_step host hostInfo used known devConfig) (mkByDev false false deny st)
        (report_entries 17 report);
  let st :=
    if negb (bd_stop s) && negb (bd_found s) then
      h_warn (node_msg host ("device '" +:+ dcs_Device devConfig +:+
        "' is not found on a node or has no osd partitions to cleanup, skipping")) (bd_st s)
    else bd_st s in
  Some (st, bd_deny s).

(** Dropping the OSDs that use a denied device. *)
Definition drop_denied (deny : list string) (m : gmap string OsdMapping) : gmap string OsdMapping :=
  foldl (λ m denyDev,
    foldl (λ m '(osd, mapping),
      if decide (is_Some (om_DeviceMapping mapping !! denyDev)) then delete osd m else m) m (range 20 m))
    m deny.

Definition bydev_branch (host : string) (hostSpec : NodeCleanUpSpec) (hostInfo : osdHostInfo)
    (used : usedDevices) (known : gmap string Z) (report : DiskDaemonOsdsReport) (st : hstate)
    : option hstate :=
  '(st, deny) ← foldo (bydev_one host hostInfo used known report) (st, []) (ncs_CleanupByDevice hostSpec);
  Some (h_map (drop_denied deny (hs_map st)) st).

(** *** One host *)

(** The loop state over the hosts: the result and the stray OSDs. *)
Record vstate := mkVState { vs_ri : TaskRemoveInfo; vs_stray : gmap string bool }.
Definition v_issues (l : list string) (st : vstate) : vstate :=
  mkVState (set_ri_Issues (ri_Issues (vs_ri st) ++ l) (vs_ri st)) (vs_stray st).
Definition v_warnings (l : list string) (st : vstate) : vstate :=
  mkVState (set_ri_Warnings (ri_Warnings (vs_ri st) ++ l) (vs_ri st)) (vs_stray st).
Definition v_host (host : string) (hm : HostMapping) (st : vstate) : vstate :=
  mkVState (set_ri_CleanupMap (<[host := hm]> (ri_CleanupMap (vs_ri st))) (vs_ri st)) (vs_stray st).

(** The checks before anything is looked up, in the order of the code; the
    first one that fails skips the host. *)
Definition verify_guards (host : string) (hostSpec : NodeCleanUpSpec) (hostInfo : osdHostInfo)
    : option (string + string) :=
  let analysis :=
    if hi_inSpec hostInfo && hi_labeled hostInfo && hi_available hostInfo then analysis_block host
    else None in
  match analysis with
  | Some block => Some block
  | None =>
      if ncs_CleanupStrayPartitions hostSpec && hi_available hostInfo && negb (hi_labeled hostInfo) then
        Some (inr (node_msg host "node is available, but has no disk daemon running, cleanup stray paritions is not possible, use by id or complete remove, skipping"))
      else if ncs_CleanupStrayPartitions hostSpec && negb (hi_available hostInfo) then
        Some (inr (node_msg host "node is not available, cleanup stray paritions is not possible, skipping"))
      else if negb (hi_inCrush hostInfo) && negb (ncs_CleanupStrayPartitions hostSpec) then
        Some (inr (node_msg host "node is not present in Ceph cluster crush map, skipping"))
      else if hi_inSpec hostInfo && (ncs_CompleteCleanup hostSpec || ncs_DropFromCrush hostSpec) then
        Some (inr (node_msg host "node is present in spec, complete host remove from crush map is not possible, skipping"))
      else None
  end.

Definition no_daemon_guards (host : string) (hostSpec : NodeCleanUpSpec) (hostInfo : osdHostInfo)
    : option string :=
  if hi_available hostInfo then
    if hi_inSpec hostInfo then
      Some (node_msg host "node is available, but present in spec, has no disk daemon running, skipping")
    else if decide (ncs_CleanupByDevice hostSpec ≠ []) then
      Some (node_msg host "node is available, but has no disk daemon running, cleanup by device is not possible, use by id or complete remove, skipping")
    else None
  else if decide (ncs_CleanupByDevice hostSpec ≠ []) then
    Some (node_msg host "node is not available, cleanup by device is not possible, skipping")
  else None.

(** The host is down or runs no disk daemon: the OSD metadata is all there is. *)
Definition verify_no_daemon (host : string) (hostSpec : NodeCleanUpSpec) (hostInfo : osdHostInfo)
    (hostMapping : HostMapping) (st : vstate) : option vstate :=
  match no_daemon_guards host hostSpec hostInfo with
  | Some warning => Some (v_warnings [warning] st)
  | None =>
      let whole := ncs_CompleteCleanup hostSpec || ncs_DropFromCrush hostSpec in
      '(osdMap, runtimeWarnings) ←
        fillOsdMappingFromOsdMeta (mkMappingConfig
          (if whole then false else hi_inSpec hostInfo) (hi_available hostInfo) host
          (if whole then hi_crushOsds hostInfo else ocs_ID <$> ncs_CleanupByOsd hostSpec)
          metas (metadata_index metas) uuids fsid (cc_Namespace cluster) (data_dir cluster));
      let st :=
        if negb (bool_decide (osdMap = ∅)) || whole then
          let hm := set_hm_OsdMapping osdMap hostMapping in
          v_host host (if hi_available hostInfo then set_hm_VolumesInfoMissed true hm else hm) st
        else st in
      Some (v_warnings runtimeWarnings st)
  end.

(** The host reports its volumes. *)
Definition verify_report (host : string) (hostSpec : NodeCleanUpSpec) (hostInfo : osdHostInfo)
    (hostMapping : HostMapping) (report : DiskDaemonOsdsReport) (st : vstate) : option vstate :=
  let whole := ncs_CompleteCleanup hostSpec || ncs_DropFromCrush hostSpec in
  used ← (if hi_inSpec hostInfo then
            node ← cc_StorageNodes cluster !! hi_specIdx hostInfo; Some (getListUsedDevices node)
          else Some zero_usedDevices);
  let known := if hi_inCrush hostInfo then known_osds (hi_crushOsds hostInfo) else ∅ in
  let st0 := mkHState ∅ ∅ [] (vs_stray st) in
  hs ← (if whole || ncs_CleanupStrayPartitions hostSpec then
          complete_branch host hostSpec hostInfo used known report st0
        else if decide (ncs_CleanupByOsd hostSpec ≠ []) then
          byosd_branch host hostSpec hostInfo used known report st0
        else if decide (ncs_CleanupByDevice hostSpec ≠ []) then
          bydev_branch host hostSpec hostInfo used known report st0
        else Some st0);
  let st := v_warnings (hs_warn hs) (mkVState (vs_ri st) (hs_stray hs)) in
  if negb (bool_decide (hs_map hs = ∅)) || whole then
    let '(osdMapping, warn) :=
      if ncs_DropFromCrush hostSpec then (hs_map hs, [])
      else checkDeviceZapping host (hs_map hs) (hs_lock hs)
             (lc_AllowToRemoveManuallyCreatedLVM (c_lcmConfig c)) in
    let hm := set_hm_OsdMapping osdMapping hostMapping in
    let warnings := getReportWarningsInNodeFormat hm host (osr_Warnings report) in
    Some (v_host host hm (v_warnings warnings (v_warnings warn st)))
  else Some st.

Definition verify_host (osdsHosts : gmap string osdHostInfo) (host : string)
    (hostSpec : NodeCleanUpSpec) (st : vstate) : IO (option vstate) :=
  let hostInfo := default zero_osdHostInfo (osdsHosts !! host) in
  if decide (host = StrayOsdNodeMarker) then ret (Some st)
  else
    match verify_guards host hostSpec hostInfo with
    | Some (inl issue) => ret (Some (v_issues [issue] st))
    | Some (inr warning) => ret (Some (v_warnings [warning] st))
    | None =>
        let hostMapping :=
          mkHostMapping (ncs_CompleteCleanup hostSpec) (ncs_DropFromCrush hostSpec) ∅
            (negb (hi_available hostInfo)) false None in
        if hm_NodeIsDown hostMapping || negb (hi_labeled hostInfo) then
          ret (verify_no_daemon host hostSpec hostInfo hostMapping st)
        else
          let* r := tryToGetNodeOsdsReportOrIssues c host in
          match r with
          | (_, (_ :: _) as issues) => ret (Some (v_issues issues st))
          | (None, []) => ret None
          | (Some report, []) => ret (verify_report host hostSpec hostInfo hostMapping report st)
          end
    end.

(** *** Stray OSDs without a host *)

Definition stray_mapping (osdID : string) : OsdMapping :=
  mkOsdMapping (map_str uuids osdID) fsid "" true ∅ false None.

Definition verify_stray_step (strays : gmap string bool) (acc : gmap string OsdMapping * list string)
    (strayOsd : OsdCleanupSpec) : gmap string OsdMapping * list string :=
  let '(m, warnings) := acc in
  let osdID := pretty (ocs_ID strayOsd) in
  match strays !! osdID with
  | Some true => (<[osdID := stray_mapping osdID]> m, warnings)
  | Some false => (m, warnings)
  | None => (m, warnings ++ ["[" +:+ StrayOsdNodeMarker +:+ "] stray osd with id '" +:+ osdID +:+
                             "' is not found in crush map"])
  end.

Definition verify_strays (nodes : gmap string NodeCleanUpSpec) (st : vstate) : vstate :=
  match nodes !! StrayOsdNodeMarker with
  | None => st
  | Some strayRemove =>
      match ncs_CleanupByOsd strayRemove with
      | [] =>
          v_warnings ["[" +:+ StrayOsdNodeMarker +:+
            "] stray which are present in crush map is possible to remove only be osd id"] st
      | toRemove =>
          let '(m, warnings) :=
            foldl (verify_stray_step (vs_stray st)) (∅, []) toRemove in
          let st := v_warnings warnings st in
          if decide (m = ∅) then st
          else v_host StrayOsdNodeMarker (mkHostMapping false false m false false None) st
      end
  end.

Definition sort_messages (ri : TaskRemoveInfo) : TaskRemoveInfo :=
  mkTaskRemoveInfo (ri_CleanupMap ri) (SortStrings (ri_Issues ri)) (SortStrings (ri_Warnings ri)).

Definition verifyOsdsForCleanUp (nodesFromTask : gmap string NodeCleanUpSpec)
    (osdsHosts : gmap string osdHostInfo) : IO (option TaskRemoveInfo) :=
  let* r := foldMo (λ st '(host, hostSpec), verify_host osdsHosts host hostSpec st)
              (range 21 nodesFromTask) (mkVState (mkTaskRemoveInfo ∅ [] []) (strays_of metas)) in
  ret (st ← r; Some (sort_messages (vs_ri (verify_strays nodesFromTask st)))).

(** ** Validation without named nodes: [findOsdsForCleanUp] *)

(** The loop state of one reported OSD.  [fo_cell] is the map
    [deviceInfoForOsdFromMeta]; the code stores this very map in the entries
    [fo_alias] of the cleanup map, so that writing through any of them changes
    all. *)
Record find_state := mkFind {
  fo_cell : gmap string DeviceInfo;
  fo_alias : list string;
  fo_allow : bool;
  fo_map : gmap string OsdMapping;
  fo_lock : gset string;
  fo_warn : list string;
  fo_stray : gmap string bool;
}.

(** Writing [devs] into the shared map. *)
Definition write_cell (site : nat) (devs : gmap string DeviceInfo) (s : find_state) : find_state :=
  let cell := put_devs site devs (fo_cell s) in
  mkFind cell (fo_alias s) (fo_allow s)
    (foldl (λ m key, alter (set_om_DeviceMapping cell) key m) (fo_map s) (fo_alias s))
    (fo_lock s) (fo_warn s) (fo_stray s).

(** A volume of an OSD of this host, on a host in the spec. *)
Definition find_in_spec_host (used : usedDevices) (osdInfo : OsdDaemonInfo) (s : find_state) : find_state :=
  let '(_, devType, inspec) := inSpec osdInfo used "" in
  let s :=
    if (inspec : bool) then
      mkFind (fo_cell s) (fo_alias s) (if decide (devType = "block") then false else fo_allow s) (fo_map s)
        (lock_in_spec devType osdInfo (fo_lock s)) (fo_warn s) (fo_stray s)
    else s in
  if fo_allow s then write_cell 25 (getDevsInfoFromDaemonInfo osdInfo) s else s.

(** Adding a volume to the cleanup map: into a present entry (which may be the
    shared map), or as a new entry, which shares the map for an OSD of the host. *)
Definition find_add (osdKey : string) (osdInfo : OsdDaemonInfo) (inCrush fromCrushAndHost : bool)
    (s : find_state) : find_state :=
  let devsMap := getDevsInfoFromDaemonInfo osdInfo in
  let set_map (m : gmap string OsdMapping) (s : find_state) :=
    mkFind (fo_cell s) (fo_alias s) (fo_allow s) m (fo_lock s) (fo_warn s) (fo_stray s) in
  let entry (devs : gmap string DeviceInfo) :=
    mkOsdMapping (odi_OsdUUID osdInfo) (odi_ClusterFSID osdInfo) (reported_dir osdInfo) inCrush devs false None in
  match fo_map s !! osdKey with
  | Some present =>
      if decide (osdKey ∈ fo_alias s) then write_cell 26 devsMap s
      else set_map (<[osdKey := set_om_DeviceMapping (put_devs 26 devsMap (om_DeviceMapping present)) present]>
                      (fo_map s)) s
  | None =>
      if fromCrushAndHost then
        let s := write_cell 27 devsMap s in
        mkFind (fo_cell s) (osdKey :: fo_alias s) (fo_allow s) (<[osdKey := entry (fo_cell s)]> (fo_map s))
          (fo_lock s) (fo_warn s) (fo_stray s)
      else set_map (<[osdKey := entry devsMap]> (fo_map s)) s
  end.

(** One reported volume group. *)
Definition find_step (host : string) (hostInfo : osdHostInfo) (used : usedDevices)
    (known : gmap string Z) (osd : string) (s : find_state) (osdInfo : OsdDaemonInfo)
    : option find_state :=
  fromCrushAndHost ← checkFromCrush known osd osdInfo;
  if (fromCrushAndHost : bool) && hi_inSpec hostInfo then Some (find_in_spec_host used osdInfo s)
  else
    let inCrushAndStray := is_stray (fo_stray s) osd &&
                           bool_decide (odi_OsdUUID osdInfo = map_str uuids osd) in
    let osdInfo := fill_ids (inCrushAndStray || fromCrushAndHost) osd osdInfo in
    let '(osdKey, s) :=
      if inCrushAndStray || negb fromCrushAndHost then
        (stray_key osd (odi_OsdUUID osdInfo),
         mkFind (fo_cell s) (fo_alias s) (fo_allow s) (fo_map s) (fo_lock s)
           (fo_warn s ++ [stray_warning host (odi_OsdUUID osdInfo) osd]) (delete osd (fo_stray s)))
      else (osd, s) in
    Some (find_add osdKey osdInfo (inCrushAndStray || fromCrushAndHost) fromCrushAndHost s).

(** The state of the loop over the reported OSDs of a host. *)
Record find_host_state := mkFindHost {
  fh_known : gmap string Z;
  fh_map : gmap string OsdMapping;
  fh_lock : gset string;
  fh_warn : list string;
  fh_stray : gmap string bool;
}.

(** The last part of a round: the expected devices the volumes did not show, and
    whether the OSD is done. *)
Definition find_expected (hostInfo : osdHostInfo) (osd : string) (expected : list string)
    (s : find_state) (known : gmap string Z) : gmap string OsdMapping * gmap string Z :=
  if hi_inCrush hostInfo && negb (bool_decide (expected = [])) then
    if negb (fo_allow s) then (fo_map s, delete osd known)
    else
      match fo_map s !! osd with
      | Some mapping =>
          let devs :=
            foldl (λ m dev,
              if decide (is_Some (m !! dev)) then m
              else <[dev := default zero_DeviceInfo (fo_cell s !! dev)]> m)
              (om_DeviceMapping mapping) expected in
          (<[osd := set_om_DeviceMapping devs mapping]> (fo_map s), delete osd known)
      | None => (fo_map s, known)
      end
  else (fo_map s, known).

Definition find_osd (host : string) (hostInfo : osdHostInfo) (used : usedDevices)
    (hs : find_host_state) (entry : string * list OsdDaemonInfo) : option find_host_state :=
  let '(osd, osdsInfo) := entry in
  cell ← (match (if hi_inCrush hostInfo then fh_known hs !! osd else None) with
          | Some osdIDInt => meta ← meta_at metas osdIDInt; Some (fillDevicesInfoFromMetadata meta)
          | None => Some ∅
          end);
  let expected := (range 23 cell).*1 in
  s ← foldo (find_step host hostInfo used (fh_known hs) osd)
        (mkFind cell [] (negb (bool_decide (cell = ∅))) (fh_map hs) (fh_lock hs) (fh_warn hs) (fh_stray hs))
        osdsInfo;
  let s :=
    if hi_inSpec hostInfo && fo_allow s then
      mkFind (fo_cell s) (osd :: fo_alias s) (fo_allow s)
        (<[osd := crush_mapping osd false (fo_cell s)]> (fo_map s)) (fo_lock s) (fo_warn s) (fo_stray s)
    else s in
  let '(m, known) := find_expected hostInfo osd expected s (fh_known hs) in
  Some (mkFindHost known m (fo_lock s) (fo_warn s) (fo_stray s)).

(** The OSDs of the host the report does not show. *)
Definition find_lost (known : gmap string Z) (m : gmap string OsdMapping)
    : option (gmap string OsdMapping) :=
  foldo (λ m '(osdString, osdInt),
    meta ← meta_at metas osdInt;
    Some (<[osdString := crush_mapping osdString false (fillDevicesInfoFromMetadata meta)]> m))
    m (range 24 known).

(** A host with a report: its mapping, the new warnings, the stray OSDs left. *)
Definition find_report (host : string) (hostInfo : osdHostInfo) (used : usedDevices)
    (hostMapping : HostMapping) (report : DiskDaemonOsdsReport) (strays : gmap string bool)
    : option (HostMapping * list string * gmap string bool) :=
  hs ← foldo (find_osd host hostInfo used)
         (mkFindHost (known_osds (hi_crushOsds hostInfo)) ∅ ∅ [] strays) (range 22 (osr_Osds report));
  osdMapping ← find_lost (fh_known hs) (fh_map hs);
  let '(osdMapping, warn) :=
    checkDeviceZapping host osdMapping (fh_lock hs) (lc_AllowToRemoveManuallyCreatedLVM (c_lcmConfig c)) in
  let warnings := fh_warn hs ++ warn in
  if decide (osdMapping = ∅) then Some (hostMapping, warnings, fh_stray hs)
  else
    let hm := set_hm_OsdMapping osdMapping hostMapping in
    Some (hm, warnings ++ getReportWarningsInNodeFormat hm host (osr_Warnings report), fh_stray hs).

(** A host without a report. *)
Definition find_no_daemon (host : string) (hostInfo : osdHostInfo) (hostMapping : HostMapping)
    : option (HostMapping * list string) :=
  if hi_inCrush hostInfo then
    '(osdMapping, warnings) ←
      fillOsdMappingFromOsdMeta (mkMappingConfig (hi_inSpec hostInfo) (hi_available hostInfo) host
        (hi_crushOsds hostInfo) metas (metadata_index metas) uuids fsid (cc_Namespace cluster)
        (data_dir cluster));
    Some (set_hm_OsdMapping osdMapping (set_hm_VolumesInfoMissed (hi_available hostInfo) hostMapping), warnings)
  else Some (hostMapping, []).

(** The end of a round: a host with something to remove enters the map. *)
Definition find_commit (host : string) (hostInfo : osdHostInfo) (hm : HostMapping) (st : vstate) : vstate :=
  if negb (bool_decide (hm_OsdMapping hm = ∅)) || (hi_inCrush hostInfo && hm_CompleteCleanup hm)
  then v_host host hm st else st.

Definition find_host (host : string) (hostInfo : osdHostInfo) (st : vstate) : IO (option vstate) :=
  let hostMapping :=
    mkHostMapping (negb (hi_inSpec hostInfo)) false ∅ (negb (hi_available hostInfo)) false None in
  if hi_available hostInfo && hi_labeled hostInfo then
    let analysis := if hi_inSpec hostInfo then analysis_block host else None in
    match analysis with
    | Some (inl issue) => ret (Some (v_issues [issue] st))
    | Some (inr warning) => ret (Some (v_warnings [warning] st))
    | None =>
        match (if hi_inSpec hostInfo then getListUsedDevices <$> (cc_StorageNodes cluster !! hi_specIdx hostInfo)
               else Some zero_usedDevices) with
        | None => ret None
        | Some used =>
            let* r := tryToGetNodeOsdsReportOrIssues c host in
            match r with
            | (_, (_ :: _) as issues) => ret (Some (v_issues issues st))
            | (None, []) => ret None
            | (Some report, []) =>
                ret ('(hm, warnings, strays) ← find_report host hostInfo used hostMapping report (vs_stray st);
                     Some (find_commit host hostInfo hm (v_warnings warnings (mkVState (vs_ri st) strays))))
            end
        end
    end
  else if hi_inSpec hostInfo then
    ret (Some (v_warnings
      [if hi_available hostInfo
       then node_msg host "node is available and present in spec, but has no disk daemon running, unable to run auto cleanup, skipping"
       else node_msg host "node is present in spec, but is not available, unable to auto detect osds to remove, please specify manually"] st))
  else
    ret ('(hm, warnings) ← find_no_daemon host hostInfo hostMapping;
         Some (find_commit host hostInfo hm (v_warnings warnings st))).

Definition find_strays (st : vstate) : vstate :=
  let m := foldl (λ m '(osd, _), <[osd := stray_mapping osd]> m) ∅ (range 28 (vs_stray st)) in
  if decide (m = ∅) then st
  else
    v_host StrayOsdNodeMarker (mkHostMapping false false m false false None)
      (v_warnings ["[stray] detected stray osds, but impossible to determine related host/device (probably disk(s) removed or host(s) down), device cleanup jobs will be skipped"] st).

Definition findOsdsForCleanUp (osdsHosts : gmap string osdHostInfo) : IO (option TaskRemoveInfo) :=
  let* r := foldMo (λ st '(host, hostInfo), find_host host hostInfo st)
              (range 29 osdsHosts) (mkVState (mkTaskRemoveInfo ∅ [] []) (strays_of metas)) in
  ret (st ← r; Some (sort_messages (vs_ri (find_strays st)))).

Definition getOsdsForCleanup (hostsFromCluster : gmap string (list Z)) (nodesList : list K8sNode)
    : IO (option TaskRemoveInfo) :=
  let nodes := nodesFromTaskSpec (c_task c) in
  let hosts := osds_hosts (lc_DiskDaemonPlacementLabel (c_lcmConfig c)) nodes hostsFromCluster
                 (cc_StorageNodes cluster) nodesList in
  if decide (nodes = ∅) then findOsdsForCleanUp hosts else verifyOsdsForCleanUp nodes hosts.
End context.
