(* ===== verification/Processer.v ===== *)
(** * Task phases

    pkg/controller/osdremove-task/phase.go and processer.go: the status a task
    gets when its phase changes, and one round of the state machine of a task.
    [handleTask] and [validateTask] may panic (see SpecHandler), hence the
    [option]. *)

From S2P Require Import Prelude GoTime Types DeployTypes World Helpers TaskUtils CleanupJob Executor SpecHandler.
Open Scope Z_scope.

Definition zero_TaskStatus : CephOsdRemoveTaskStatus := mkTaskStatus TaskPhasePending "" None [] [].

(** [task.Status] of a task that has one: the controller creates it first. *)
Definition cur_task_status (task : CephOsdRemoveTask) : CephOsdRemoveTaskStatus :=
  default zero_TaskStatus (task_Status task).

(** [Spec != nil && Spec.Approve] *)
Definition approved (task : CephOsdRemoveTask) : bool :=
  match task_Spec task with Some s => ts_Approve s | None => false end.

(** [Spec.Nodes], the nil map without a spec. *)
Definition current_nodes (task : CephOsdRemoveTask) : option (gmap string NodeCleanUpSpec) :=
  s ← task_Spec task; ts_Nodes s.

Definition issue_info (msg : string) : TaskRemoveInfo := mkTaskRemoveInfo ∅ [msg] [].

Section phase.
Context `{World}.

(** ** phase.go *)

Definition prepareAbortStatus (cephTaskStatus : CephOsdRemoveTaskStatus) (reason : string)
    : IO CephOsdRemoveTaskStatus :=
  let* now := GetCurrentTimeString in
  ret (mkTaskStatus TaskPhaseAborted reason (st_RemoveInfo cephTaskStatus)
         (st_Messages cephTaskStatus ++ [reason])
         (st_Conditions cephTaskStatus ++ [mkCondition now TaskPhaseAborted None None])).

Definition prepareInitStatus (cephTask : CephOsdRemoveTask) : IO CephOsdRemoveTaskStatus :=
  let* now := GetCurrentTimeString in
  let nodes :=
    match current_nodes cephTask with
    | Some nodes => if decide (nodes = ∅) then None else Some nodes
    | None => None
    end in
  ret (mkTaskStatus TaskPhasePending "initializing" None ["initiated"]
         [mkCondition now TaskPhasePending nodes None]).

Definition moveTaskPhase (c : cephOsdRemoveConfig) (newPhase : TaskPhase) (reason : string)
    (removeInfo : option TaskRemoveInfo) : IO CephOsdRemoveTaskStatus :=
  let status := cur_task_status (c_task c) in
  let* now := GetCurrentTimeString in
  ret (mkTaskStatus newPhase reason removeInfo
         (st_Messages status ++
          ["cephosdremovetask moved to '" +:+ TaskPhase_str newPhase +:+ "' phase: " +:+ reason])
         (st_Conditions status ++
          [mkCondition now newPhase (current_nodes (c_task c))
             (Some (mkSpecVersion (cc_ResourceVersion (c_cephCluster c)) (cc_Generation (c_cephCluster c))))])).
End phase.

(** ** processer.go *)

Section processer.
Context `{World} `{MapRange}.
Variable c : cephOsdRemoveConfig.

Let status : CephOsdRemoveTaskStatus := cur_task_status (c_task c).

(** The closure [specChanges], given the latest condition. *)
Definition specChanges (latestCondition : CephOsdRemoveTaskCondition) : list string :=
  (match cond_CephClusterSpecVersion latestCondition with
   | Some v =>
       if decide (sv_Generation v = cc_Generation (c_cephCluster c)) then []
       else ["CephCluster has a new generation version"]
   | None => ["CephCluster has a new generation version"]
   end) ++
  (if decide (cond_Nodes latestCondition = current_nodes (c_task c)) then []
   else ["task has changed nodes section"]).

(** A query of [validateTask] whose failure is an issue. *)
Definition query_or_issue {A} (what : string) (m : IO (A * option err))
    (k : A → IO (option TaskRemoveInfo)) : IO (option TaskRemoveInfo) :=
  let* r := m in
  match r with
  | (_, Some e) => ret (Some (issue_info (what +:+ ": " +:+ err_msg e)))
  | (a, None) => k a
  end.

Definition validateTask : IO (option TaskRemoveInfo) :=
  let ns := cc_Namespace (c_cephCluster c) in
  query_or_issue "failed to get ceph cluster nodes list" (getOsdHostsFromCluster c) (λ clusterHostList,
  query_or_issue "failed to get ceph osd metadata info"
    (RunAndParseCephToolboxCLI [] json_OsdMetadata ns "ceph osd metadata -f json") (λ clusterOsdsMetadata,
  query_or_issue "failed to get k8s nodes list" GetNodeList (λ nodesList,
  query_or_issue "failed to get osds info"
    (RunAndParseCephToolboxCLI [] json_OsdInfos ns "ceph osd info -f json") (λ osdsInfo,
  getOsdsForCleanup c clusterOsdsMetadata osdsInfo clusterHostList nodesList)))).

(** Whether the task is finished, the new remove info and [requeueNow]. *)
Definition processTask (requeueNow : bool) : IO (bool * TaskRemoveInfo * bool) :=
  match st_RemoveInfo status with
  | None => ret (true, issue_info "empty remove info, aborting", requeueNow)
  | Some removeInfo => processOsdRemoveTask c removeInfo requeueNow
  end.

(** The case [TaskPhaseValidating]: the guards, validation and its outcome. *)
Definition validation_outcome (validationRes : TaskRemoveInfo) (requeueNow : bool)
    : IO (CephOsdRemoveTaskStatus * bool) :=
  match ri_Issues validationRes with
  | [] =>
      if decide (ri_CleanupMap validationRes = ∅) then
        let* s := moveTaskPhase c TaskPhaseCompleted "validation completed, nothing to remove"
                    (Some validationRes) in ret (s, requeueNow)
      else if approved (c_task c) then
        let* s := moveTaskPhase c TaskPhaseWaitingOperator "validation completed, approve pre-set"
                    (Some validationRes) in ret (s, true)
      else
        let* s := moveTaskPhase c TaskPhaseApproveWaiting "validation completed, waiting approve"
                    (Some validationRes) in ret (s, requeueNow)
  | _ =>
      let* s := moveTaskPhase c TaskPhaseValidationFailed "validation failed" (Some validationRes) in
      ret (s, requeueNow)
  end.

Definition deployment_on_hold : bool :=
  match c_cephDeploymentPhase c with
  | Some phase => bool_decide (phase = PhaseOnHold)
  | None => true
  end.

Definition handle_validating (requeueNow : bool) : IO (option (CephOsdRemoveTaskStatus * bool)) :=
  if negb deployment_on_hold then ret (Some (status, requeueNow))
  else
    match osa_CephClusterSpecGeneration (c_cephHealthOsdAnalysis c) with
    | None => ret None
    | Some generation =>
        if decide (generation = cc_Generation (c_cephCluster c)) then
          let* r := validateTask in
          match r with
          | None => ret None
          | Some validationRes =>
              let* s := validation_outcome validationRes requeueNow in ret (Some s)
          end
        else ret (Some (status, requeueNow))
    end.

Definition handle_approve_waiting (latest : CephOsdRemoveTaskCondition) (requeueNow : bool)
    : IO (CephOsdRemoveTaskStatus * bool) :=
  if approved (c_task c) then
    let* s := moveTaskPhase c TaskPhaseWaitingOperator "approve received, wait rook-operator stop"
                (st_RemoveInfo status) in ret (s, true)
  else
    match specChanges latest with
    | _ :: _ => let* s := moveTaskPhase c TaskPhaseValidating "revalidation triggered" None in ret (s, true)
    | [] => ret (status, requeueNow)
    end.

Definition handle_waiting_operator (latest : CephOsdRemoveTaskCondition) (requeueNow : bool)
    : IO (CephOsdRemoveTaskStatus * bool) :=
  match specChanges latest with
  | _ :: _ =>
      let* s := moveTaskPhase c TaskPhaseAborted
                  "detected inappropriate spec changes after receiving approval" None in
      ret (s, requeueNow)
  | [] =>
      let* stopped := checkOperatorStopped c in
      if (stopped : bool) then
        let* s := moveTaskPhase c TaskPhaseProcessing "processing" (st_RemoveInfo status) in ret (s, true)
      else ret (status, requeueNow)
  end.

Definition handle_processing (requeueNow : bool) : IO (CephOsdRemoveTaskStatus * bool) :=
  let* r := processTask requeueNow in
  let '(finished, processingRes, requeueNow) := r in
  if negb finished then ret (set_st_RemoveInfo (Some processingRes) status, requeueNow)
  else
    match ri_Issues processingRes with
    | [] =>
        let phase := match ri_Warnings processingRes with
                     | [] => TaskPhaseCompleted
                     | _ => TaskPhaseCompletedWithWarnings
                     end in
        let* s := moveTaskPhase c phase "osd remove completed" (Some processingRes) in ret (s, requeueNow)
    | _ =>
        let* s := moveTaskPhase c TaskPhaseFailed "osd remove failed" (Some processingRes) in
        ret (s, requeueNow)
    end.

(** [handleTask]: the new status and [requeueNow], which starts as false. *)
Definition handleTask : IO (option (CephOsdRemoveTaskStatus * bool)) :=
  match last (st_Conditions status) with
  | None =>
      let* s := prepareAbortStatus status
        "status conditions section unexpectedly missed, task should be re-created" in
      ret (Some (s, false))
  | Some latestCondition =>
      match st_Phase status with
      | TaskPhasePending =>
          let* s := moveTaskPhase c TaskPhaseValidating "validation" None in ret (Some (s, true))
      | TaskPhaseValidating => handle_validating false
      | TaskPhaseApproveWaiting =>
          let* s := handle_approve_waiting latestCondition false in ret (Some s)
      | TaskPhaseWaitingOperator =>
          let* s := handle_waiting_operator latestCondition false in ret (Some s)
      | TaskPhaseProcessing => let* s := handle_processing false in ret (Some s)
      | _ => ret (Some (status, false))
      end
  end.
End processer.
