(* ===== verification/Controller.v ===== *)
(** * Reconciling a task

    pkg/controller/osdremove-task/controller.go: one reconcile round, from the
    request to the status written back and the time of the next round, and the
    choice of the task to work on.  [UpdateCephOsdRemoveTaskStatus] is from
    register.go of the API package. *)

From S2P Require Import Prelude GoTime Types HealthTypes DeployTypes World Helpers TaskUtils CleanupJob Executor SpecHandler Processer.
Open Scope Z_scope.

Definition checkTaskActive (taskStatus : option CephOsdRemoveTaskStatus) : bool :=
  match taskStatus with
  | Some s =>
      negb (bool_decide (st_Phase s = TaskPhaseCompleted) ||
            bool_decide (st_Phase s = TaskPhaseCompletedWithWarnings) ||
            bool_decide (st_Phase s = TaskPhaseFailed) ||
            bool_decide (st_Phase s = TaskPhaseValidationFailed) ||
            bool_decide (st_Phase s = TaskPhaseAborted))
  | None => true
  end.

(** The events of [cephTaskPredicate] that start a reconcile round. *)
Inductive task_event := TaskCreated (t : CephOsdRemoveTask) | TaskUpdated | TaskDeleted.
Definition cephTaskPredicate (e : task_event) : bool :=
  match e with
  | TaskCreated t => checkTaskActive (task_Status t)
  | TaskUpdated | TaskDeleted => false
  end.

(** The loop of [getOldestCephOsdRemoveTaskName]: [i] is the task chosen so far. *)
Fixpoint oldest_loop (i : option CephOsdRemoveTask) (cephTasks : list CephOsdRemoveTask)
    : option CephOsdRemoveTask :=
  match cephTasks with
  | [] => i
  | curTask :: rest =>
      if negb (checkTaskActive (task_Status curTask)) then oldest_loop i rest
      else
        match i with
        | None => oldest_loop (Some curTask) rest
        | Some prev =>
            if task_CreationTimestamp curTask <? task_CreationTimestamp prev
            then oldest_loop (Some curTask) rest
            else oldest_loop i rest
        end
  end.

Definition getOldestCephOsdRemoveTaskName (cephTasks : list CephOsdRemoveTask) : string :=
  match oldest_loop None cephTasks with
  | Some task => task_Name task
  | None => EmptyString
  end.

(** [reconcile.Result] and the error; [res_RequeueAfter] is 0 for the empty result. *)
Record reconcile_result := mkResult { res_RequeueAfter : Z; res_Err : option err }.

Record request := mkRequest { req_Namespace : string; req_Name : string }.

Section controller.
Context `{World} `{MapRange}.

Definition UpdateCephOsdRemoveTaskStatus (cephosdremovetask : CephOsdRemoveTask)
    (status : CephOsdRemoveTaskStatus) : IO (option err) :=
  let ns := task_Namespace cephosdremovetask in
  let name := task_Name cephosdremovetask in
  let* e := call (EvTaskStatusUpdate ns name status) (λ h, w_status_update h ns name status) in
  ret ((λ e, new_err ("failed to update status for the CephOsdRemoveTask " +:+ ns +:+ "/" +:+ name +:+
                      ": " +:+ err_msg e)) <$> e).

Definition get_task (r : request) : IO (CephOsdRemoveTask * option err) :=
  call (EvTaskGet (req_Namespace r) (req_Name r)) (λ h, w_task_get h (req_Namespace r) (req_Name r)).

Definition updateCephOsdRemoveTaskStatus (r : request) (status : CephOsdRemoveTaskStatus)
    : IO (option err) :=
  let full := req_Namespace r +:+ "/" +:+ req_Name r in
  let* res := get_task r in
  match res with
  | (_, Some e) => ret (Some (wrap_err ("failed to get CephOsdRemoveTask '" +:+ full +:+ "' to update status") e))
  | (cephTask, None) =>
      let* e := UpdateCephOsdRemoveTaskStatus cephTask status in
      ret (wrap_err ("failed to update CephOsdRemoveTask '" +:+ full +:+ "' status with '" +:+
                     TaskPhase_str (st_Phase status) +:+ "' phase") <$> e)
  end.

Definition requeue_later : reconcile_result := mkResult requeueAfterInterval None.
Definition requeue_soon : reconcile_result := mkResult DefaultImmediateRequeueInterval None.
Definition no_requeue : reconcile_result := mkResult 0 None.

(** Writing a status, with the result on success. *)
Definition write_status (r : request) (status : CephOsdRemoveTaskStatus) (ok : reconcile_result)
    : IO reconcile_result :=
  let* e := updateCephOsdRemoveTaskStatus r status in
  match e with
  | Some _ => ret requeue_later
  | None => ret ok
  end.

(** Writing only a message; the round ends whether or not this succeeds. *)
Definition write_phase_info (r : request) (status : CephOsdRemoveTaskStatus) (msg : string)
    : IO reconcile_result :=
  let* _ := updateCephOsdRemoveTaskStatus r (set_st_PhaseInfo msg status) in
  ret requeue_later.

(** The number of health objects in the namespace is not one. *)
Definition handle_health_count (r : request) (status : CephOsdRemoveTaskStatus) (n : nat)
    : IO reconcile_result :=
  if (1 <? n)%nat then
    if checkTaskActive (Some status) then
      let* s := prepareAbortStatus status "multiple CephDeploymentHealth objects found in namespace" in
      write_status r s no_requeue
    else ret no_requeue
  else
    let* e := call (EvTaskDelete (req_Namespace r) (req_Name r))
                (λ h, w_task_delete h (req_Namespace r) (req_Name r)) in
    match e with
    | Some _ => ret requeue_later
    | None => ret no_requeue
    end.

(** The last part of a round: the CephDeployment, [handleTask] and the new
    status; [None] for a panic. *)
Definition reconcile_handle (r : request) (lcmConfig : LcmConfig) (cephTask : CephOsdRemoveTask)
    (status : CephOsdRemoveTaskStatus) (cephCluster : CephCluster) (analysis : OsdSpecAnalysisState)
    (healthName : string) : IO (option reconcile_result) :=
  let* d := call (EvDeploymentGet (req_Namespace r) healthName)
              (λ h, w_deployment_get h (req_Namespace r) healthName) in
  let phase : option (option CephDeploymentPhase) :=
    match d with
    | (_, Some e) =>
        match err_kind e with
        | ErrNoMatch | ErrNotRegistered | ErrNotFound => Some None
        | ErrOther => None
        end
    | (phase, None) => Some (Some phase)
    end in
  match phase with
  | None => ret (Some requeue_later)
  | Some cephDeploymentPhase =>
      let* t := handleTask (mkConfig lcmConfig cephTask cephCluster analysis cephDeploymentPhase) in
      match t with
      | None => ret None
      | Some (newStatus, requeueNow) =>
          let next := if (requeueNow : bool) then requeue_soon else requeue_later in
          if decide (newStatus = status) then ret (Some next)
          else
            let* res := write_status r newStatus
                          (if checkTaskActive (Some newStatus) then next else no_requeue) in
            ret (Some res)
      end
  end.

Definition some_result (m : IO reconcile_result) : IO (option reconcile_result) :=
  let* x := m in ret (Some x).

(** The checks on the cluster and the task list, for a task with owner set. *)
Definition reconcile_checks (r : request) (lcmConfig : LcmConfig) (cephTask : CephOsdRemoveTask)
    (status : CephOsdRemoveTaskStatus) (health : CephDeploymentHealth) : IO (option reconcile_result) :=
  let rook := lc_RookNamespace lcmConfig in
  let* cl := call (EvClusterGet rook (chd_Name health)) (λ h, w_cluster_get h rook (chd_Name health)) in
  match cl with
  | (_, Some _) => ret (Some requeue_later)
  | (cephCluster, None) =>
      if cc_External cephCluster then
        some_result (let* s := prepareAbortStatus status "detected external CephCluster configuration" in
              write_status r s no_requeue)
      else if decide (cluster_fsid cephCluster = "") then
        some_result (write_phase_info r status "CephCluster is not deployed yet, no fsid provided")
      else if negb (chd_HasCephCluster health) then
        some_result (write_phase_info r status "related CephDeploymentHealth has no CephCluster status yet")
      else
        match chd_OsdAnalysis health with
        | Some (mkSpecAnalysisState _ (Some generation) _ as analysis) =>
            let* l := call (EvTaskList (req_Namespace r)) (λ h, w_task_list h (req_Namespace r)) in
            match l with
            | (_, Some _) => ret (Some requeue_later)
            | (tasks, None) =>
                if decide (getOldestCephOsdRemoveTaskName tasks = req_Name r) then
                  reconcile_handle r lcmConfig cephTask status cephCluster analysis (chd_Name health)
                else some_result (write_phase_info r status "waiting for older CephOsdRemoveTask completion")
            end
        | _ =>
            some_result (write_phase_info r status
                    "related CephDeploymentHealth has no CephCluster osd storage analysis yet")
        end
  end.

(** A round for a task that was found. *)
Definition reconcile_task (lcmConfig : LcmConfig) (r : request) (cephTask : CephOsdRemoveTask)
    : IO (option reconcile_result) :=
  match task_Status cephTask with
  | None => some_result (let* s := prepareInitStatus cephTask in write_status r s requeue_soon)
  | Some status0 =>
      let status := set_st_PhaseInfo EmptyString status0 in
      let cephTask := set_task_Status (Some status) cephTask in
      let* hl := call (EvHealthList (req_Namespace r)) (λ h, w_health_list h (req_Namespace r)) in
      match hl with
      | (_, Some _) => ret (Some requeue_later)
      | ([health], None) =>
          match GetObjectOwnerRef w_gvk_health (chd_Name health) (chd_UID health) with
          | (_, Some _) => ret (Some requeue_later)
          | (ownerRefs, None) =>
              if decide (ownerRefs = task_OwnerReferences cephTask) then
                reconcile_checks r lcmConfig cephTask status health
              else
                let task := set_task_OwnerReferences ownerRefs cephTask in
                let* e := call (EvTaskUpdate task) (λ h, w_task_update h task) in
                ret (Some (match e with Some _ => requeue_later | None => requeue_soon end))
          end
      | (healths, None) => some_result (handle_health_count r status (length healths))
      end
  end.

(** [Reconcile]; [lcmConfig] is the configuration of the request's namespace. *)
Definition Reconcile (lcmConfig : LcmConfig) (r : request) : IO (option reconcile_result) :=
  let* t := get_task r in
  match t with
  | (_, Some e) =>
      ret (Some (if is_not_found e then no_requeue else mkResult requeueAfterInterval (Some e)))
  | (cephTask, None) => reconcile_task lcmConfig r cephTask
  end.
End controller.
