(* ===== verification/SpecFacts.v ===== *)
(** * Theorems about the validation of a task

    The properties of SpecHandler.v: which hosts the cleanup map may hold and
    how they may be treated, that validation leaves a fresh map (the starting
    point of Removal.v), which devices are zapped, and when the lookups of OSD
    metadata are safe. *)

From S2P Require Import Prelude GoTime Types World Helpers TaskUtils Demo CleanupJob Executor ExecutorFacts ExecutorPass Removal SpecHandler.
Open Scope Z_scope.

(** ** Loops that may panic *)

Lemma foldo_inv {A S} (I : S → Prop) (f : S → A → option S) l s s' :
  I s → (∀ a s s', a ∈ l → I s → f s a = Some s' → I s') → foldo f s l = Some s' → I s'.
Proof.
  intros Hs Hf. revert s Hs. induction l as [|a l IH]; intros s Hs; simpl; [by intros [= <-]|].
  intros (s1 & Hs1 & Hr)%bind_Some. eapply (IH ltac:(intros; eapply Hf; [by right|done|done])); [|done].
  eapply Hf; [left|done|done].
Qed.

Lemma foldo_total {A S} (I : S → Prop) (f : S → A → option S) l s :
  I s → (∀ a s, a ∈ l → I s → ∃ s', f s a = Some s' ∧ I s') → ∃ s', foldo f s l = Some s' ∧ I s'.
Proof.
  intros Hs Hf. revert s Hs. induction l as [|a l IH]; intros s Hs; simpl; [eauto|].
  destruct (Hf a s) as (s1 & -> & Hs1); [left|done|]. simpl. apply IH; [|done].
  intros. apply Hf; [by right|done].
Qed.

Lemma foldo_some {A S} (f : S → A → option S) l s :
  (∀ a s, is_Some (f s a)) → is_Some (foldo f s l).
Proof.
  intros Hf. destruct (foldo_total (λ _, True) f l s) as (s' & -> & _); [done| |eauto].
  intros a s0 _ _. destruct (Hf a s0) as [s1 ->]. eauto.
Qed.

Lemma foldl_inv {A S} (I : S → Prop) (f : S → A → S) l s :
  I s → (∀ a s, a ∈ l → I s → I (f s a)) → I (foldl f s l).
Proof.
  intros Hs Hf. revert s Hs. induction l as [|a l IH]; intros s Hs; simpl; [done|].
  apply IH; [intros; apply Hf; [by right|done]|]. apply Hf; [left|done].
Qed.

Lemma foldMo_spec {A S} P (I : S → Prop) (f : S → A → IO (option S)) l s :
  I s → (∀ a s, a ∈ l → I s → spec P (f s a) (λ r, ∀ s', r = Some s' → I s')) →
  spec P (foldMo f l s) (λ r, ∀ s', r = Some s' → I s').
Proof.
  intros Hs Hf. revert s Hs. induction l as [|a l IH]; intros s Hs; simpl.
  { apply spec_ret. by intros s' [= <-]. }
  eapply spec_bind; [apply Hf; [left|done]|]. intros [s1|] Hr; cbn beta in Hr.
  - apply IH; [|auto]. intros. apply Hf; [by right|done].
  - by apply spec_ret.
Qed.

(** ** Fresh entries *)

Definition fresh_map (m : gmap string OsdMapping) : Prop := map_Forall (λ _ om, om_RemoveStatus om = None) m.

Lemma fresh_map_empty : fresh_map ∅.
Proof. apply map_Forall_empty. Qed.
Lemma fresh_map_insert k om m : om_RemoveStatus om = None → fresh_map m → fresh_map (<[k := om]> m).
Proof. intros. by apply map_Forall_insert_2. Qed.
Lemma fresh_map_delete k m : fresh_map m → fresh_map (delete k m).
Proof. apply map_Forall_delete. Qed.
Lemma fresh_map_lookup k om m : fresh_map m → m !! k = Some om → om_RemoveStatus om = None.
Proof. intros Hm Hk. by apply (Hm k). Qed.
Lemma fresh_map_alter f k m :
  (∀ om, om_RemoveStatus (f om) = om_RemoveStatus om) → fresh_map m → fresh_map (alter f k m).
Proof.
  intros Hf Hm i om. rewrite lookup_alter. case_decide as Hi; [subst i|apply Hm].
  destruct (m !! k) as [om0|] eqn:Hk; simpl; [|done]. intros [= <-]. rewrite Hf. by apply (Hm k).
Qed.
Create HintDb fresh discriminated.
#[export] Hint Resolve fresh_map_empty fresh_map_insert fresh_map_delete fresh_map_alter : fresh.

Section fresh.
Context `{World} `{MapRange} (c : cephOsdRemoveConfig) (metas : list OsdMetadataInfo) (infos : list OsdInfo).

Lemma fillOsdMapping_fresh mc m w : fillOsdMappingFromOsdMeta mc = Some (m, w) → fresh_map m.
Proof.
  unfold fillOsdMappingFromOsdMeta. intros Hf.
  apply (foldo_inv (λ st : gmap string OsdMapping * list string, fresh_map st.1) _ _ _ _) in Hf; [done|apply fresh_map_empty|].
  intros osd [m0 w0] s' _ Hm Hs. unfold fillOsdMapping_step in Hs. simpl in Hm.
  destruct (mc_osdMetadataMap mc !! osd); [|by simplify_eq/=].
  apply bind_Some in Hs as (meta & _ & Hs). simplify_eq/=. by apply fresh_map_insert.
Qed.

Lemma checkDeviceZapping_fresh host m lock allow :
  fresh_map m → fresh_map (checkDeviceZapping host m lock allow).1.
Proof.
  intros Hm. unfold checkDeviceZapping.
  apply (foldl_inv (λ st : gmap string OsdMapping * list string, fresh_map st.1)); [done|].
  intros [osd mapping] [m0 w0] Hin Hm0. simpl in *. apply elem_of_range in Hin.
  destruct (om_SkipDeviceCleanupJob mapping); [done|].
  destruct (foldl (zap_step _ _ _ _) _ _) as [devs w]. simpl. apply fresh_map_insert; [|done]. exact (Hm osd mapping Hin).
Qed.

Lemma add_reported_fresh site key info b skip devs m :
  fresh_map m → fresh_map (add_reported c site key info b skip devs m).
Proof.
  intros Hm. unfold add_reported. destruct (m !! key) as [om|] eqn:Hk; apply fresh_map_insert; try done.
  exact (Hm key om Hk).
Qed.

Lemma note_stray_map host osd info b1 b2 st :
  hs_map (note_stray infos host osd info b1 b2 st).2 = hs_map st.
Proof. unfold note_stray. repeat case_match; done. Qed.

Lemma known_mapping_fresh known m : known_mapping c metas infos known = Some m → fresh_map m.
Proof.
  intros Hm. eapply (foldo_inv fresh_map); [apply fresh_map_empty| |exact Hm].
  intros [o z] m0 m1 _ Hm0 (meta & _ & Hs)%bind_Some. simplify_eq. by apply fresh_map_insert.
Qed.

Lemma complete_step_fresh host hi b used known st e st' :
  complete_step c metas infos host hi b used known st e = Some st' →
  fresh_map (hs_map st) → fresh_map (hs_map st').
Proof.
  destruct e as [osd info]. intros (inCrush & _ & Hs)%bind_Some Hst.
  destruct (b && inCrush); [simplify_eq/=; by case_match|]. revert Hs.
  cbv zeta. set (sc := is_stray _ osd && _). set (info' := fill_ids c infos _ osd info).
  pose proof (note_stray_map host osd info' sc inCrush st) as Hnote.
  destruct (note_stray infos host osd info' sc inCrush _) as [key st1]. simpl in Hnote. intros [= <-]. simpl.
  apply add_reported_fresh. by rewrite Hnote.
Qed.

Lemma complete_branch_fresh host hs hi used known report st st' :
  complete_branch c metas infos host hs hi used known report st = Some st' →
  fresh_map (hs_map st) → fresh_map (hs_map st').
Proof.
  intros (m & Hm & Hf)%bind_Some Hst. eapply (foldo_inv (λ s, fresh_map (hs_map s))); [| |exact Hf].
  - simpl. destruct (ncs_CleanupStrayPartitions hs); [by simplify_eq|]. by eapply known_mapping_fresh.
  - intros e s s' _ Hs He. by eapply complete_step_fresh.
Qed.

Lemma byosd_step_map host hi used known l o s e s' :
  byosd_step c metas infos host hi used known l o s e = Some s' → hs_map (bo_st s') = hs_map (bo_st s).
Proof.
  destruct e as [osd info]. unfold byosd_step. intros Hs. case_decide.
  { simplify_eq. by case_match. }
  apply bind_Some in Hs as (b & _ & Hs). repeat case_match; by simplify_eq/=.
Qed.

Lemma byosd_branch_fresh host hs hi used known report st st' :
  byosd_branch c metas infos host hs hi used known report st = Some st' →
  fresh_map (hs_map st) → fresh_map (hs_map st').
Proof.
  intros Hf Hst. eapply (foldo_inv (λ s, fresh_map (hs_map s))); [exact Hst| |exact Hf]. clear Hf.
  intros o s s' _ Hs Ho. unfold byosd_one in Ho. destruct (known !! _); [|by simplify_eq/=].
  apply bind_Some in Ho as (meta & _ & Ho). apply bind_Some in Ho as (bs & Hbs & Ho).
  assert (hs_map (bo_st bs) = hs_map s) as Hmap.
  { eapply (foldo_inv (λ x, hs_map (bo_st x) = hs_map s)); [|  |exact Hbs]; [done|].
    intros e s1 s2 _ Hs1 He. rewrite <-Hs1. by eapply byosd_step_map. }
  destruct (bo_allowed bs); simplify_eq/=; [|by rewrite Hmap].
  apply fresh_map_insert; [done|]. case_match; simpl; by rewrite Hmap.
Qed.

Lemma bydev_step_fresh host hi used known d s e s' :
  bydev_step c metas infos host hi used known d s e = Some s' →
  fresh_map (hs_map (bd_st s)) → fresh_map (hs_map (bd_st s')).
Proof.
  destruct e as [osd info]. unfold bydev_step. intros Hs Hst.
  destruct (bd_stop s); [by simplify_eq|]. destruct (negb _); [simplify_eq; by case_match|].
  destruct (inSpec info used (dcs_Device d)) as [[? ?] ?]. destruct (hi_inSpec hi && _); [by simplify_eq/=|].
  apply bind_Some in Hs as (st1 & Ht & Hs). simplify_eq/=. revert Ht. unfold bydev_take.
  intros (inCrush & _ & Ht)%bind_Some. revert Ht.
  cbv zeta. set (sc := is_stray _ osd && _). set (info' := fill_ids c infos _ osd info).
  pose proof (note_stray_map host osd info' sc inCrush (bd_st s)) as Hnote.
  destruct (note_stray infos host osd info' sc inCrush _) as [key st2]. simpl in Hnote.
  intros (devs & _ & Ht)%bind_Some. simplify_eq/=. apply add_reported_fresh. case_match; simpl; by rewrite Hnote.
Qed.

Lemma drop_denied_fresh deny m : fresh_map m → fresh_map (drop_denied deny m).
Proof.
  intros Hm. apply (foldl_inv fresh_map); [done|]. intros d m0 _ Hm0. apply (foldl_inv fresh_map); [done|].
  intros [o om] m1 _ Hm1. case_decide; [by apply fresh_map_delete|done].
Qed.

Lemma bydev_branch_fresh host hs hi used known report st st' :
  bydev_branch c metas infos host hs hi used known report st = Some st' →
  fresh_map (hs_map st) → fresh_map (hs_map st').
Proof.
  intros ([st1 deny] & Hf & Hs)%bind_Some Hst. simplify_eq/=. apply drop_denied_fresh.
  apply (foldo_inv (λ a : hstate * list string, fresh_map (hs_map a.1)) _ _ _ _) in Hf; [done|done|]. clear Hf Hst.
  intros d [s1 deny1] s' _ Hs1 (bs & Hbs & Hb)%bind_Some. simplify_eq/=.
  apply (foldo_inv (λ x, fresh_map (hs_map (bd_st x))) _ _ _ _) in Hbs; [|done|].
  - by case_match.
  - intros e x x' _ Hx He. by eapply bydev_step_fresh.
Qed.
End fresh.

(** ** Hosts of the cleanup map *)

(** Reading a node's report is all a validation does on the nodes. *)
Definition report_event (e : event) : Prop :=
  match e with
  | EvDiskDaemon _ _ _ | EvSleep _ => True
  | _ => False
  end.

Lemma getNodeReport_spec `{World} c host : spec report_event (getNodeReport c host) (λ _, True).
Proof.
  apply RunFuncWithRetry_emits; [done|]. apply spec_bind_any.
  - unfold RunAndParseDiskDaemonCLI. apply spec_bind_any; [|intros [[??] [?|]]; spec_run].
    apply RunPodCmdAndCheckError_spec. by apply spec_call.
  - intros [r [e|]]; spec_run.
Qed.

Lemma node_report_spec `{World} c host :
  spec report_event (tryToGetNodeOsdsReportOrIssues c host) (λ _, True).
Proof.
  unfold tryToGetNodeOsdsReportOrIssues. apply spec_bind_any; [apply getNodeReport_spec|].
  intros [r [e|]]; spec_run.
Qed.

(** What a host of the cleanup map is like: nothing has been removed yet, the
    flags come from [complete] and [drop], it is down when not [available]. *)
Record host_entry (complete drop available : bool) (hm : HostMapping) : Prop := {
  he_fresh : fresh_map (hm_OsdMapping hm);
  he_status : hm_HostRemoveStatus hm = None;
  he_complete : hm_CompleteCleanup hm = complete;
  he_drop : hm_DropFromCrush hm = drop;
  he_down : hm_NodeIsDown hm = negb available;
}.

Lemma host_entry_set_map b1 b2 b3 m hm :
  host_entry b1 b2 b3 hm → fresh_map m → host_entry b1 b2 b3 (set_hm_OsdMapping m hm).
Proof. intros [] ?. by split. Qed.

Lemma host_entry_set_missed b1 b2 b3 b hm :
  host_entry b1 b2 b3 hm → host_entry b1 b2 b3 (set_hm_VolumesInfoMissed b hm).
Proof. intros []. by split. Qed.

Section verify.
Context `{World} `{MapRange} (c : cephOsdRemoveConfig) (metas : list OsdMetadataInfo) (infos : list OsdInfo).
Context (nodes : gmap string NodeCleanUpSpec) (hosts : gmap string osdHostInfo).

Let info (host : string) : osdHostInfo := default zero_osdHostInfo (hosts !! host).

Definition verified_entry (host : string) (hm : HostMapping) : Prop :=
  host ≠ StrayOsdNodeMarker ∧ ∃ spec, nodes !! host = Some spec ∧
    host_entry (ncs_CompleteCleanup spec) (ncs_DropFromCrush spec) (hi_available (info host)) hm ∧
    (hi_inSpec (info host) = true → ncs_CompleteCleanup spec = false ∧ ncs_DropFromCrush spec = false).

Definition verified (st : vstate) : Prop := map_Forall verified_entry (ri_CleanupMap (vs_ri st)).

Lemma verified_host host hm st : verified_entry host hm → verified st → verified (v_host host hm st).
Proof. intros. by apply map_Forall_insert_2. Qed.

(** The guards let a host of the spec pass only when it is not to be removed as
    a whole. *)
Lemma verify_guards_in_spec host ns hi :
  verify_guards c host ns hi = None → hi_inSpec hi = true →
  ncs_CompleteCleanup ns = false ∧ ncs_DropFromCrush ns = false.
Proof.
  unfold verify_guards. intros Hg Hin. rewrite Hin in Hg. simpl in Hg.
  repeat case_match; try discriminate.
  all: by match goal with Hor : _ || _ = false |- _ => apply orb_false_iff in Hor end.
Qed.

Lemma verify_no_daemon_ok host ns hm st st' :
  verify_no_daemon c metas infos host ns (info host) hm st = Some st' →
  verified_entry host hm → verified st → verified st'.
Proof.
  unfold verify_no_daemon. intros Hv (Hne & sp & Hsp & Hhm & Hin) Hst. case_match; [by simplify_eq/=|].
  apply bind_Some in Hv as ([m w] & Hfill & Hv). simplify_eq/=.
  apply fillOsdMapping_fresh in Hfill. case_match; [|done]. apply verified_host; [|done].
  split; [done|]. exists sp. split_and!; [done| |done].
  destruct (hi_available (info host)); [apply host_entry_set_missed|]; by apply host_entry_set_map.
Qed.

Lemma verify_report_ok host ns hm report st st' :
  verify_report c metas infos host ns (info host) hm report st = Some st' →
  verified_entry host hm → verified st → verified st'.
Proof.
  unfold verify_report. intros (used & _ & Hv)%bind_Some (Hne & sp & Hsp & Hhm & Hin) Hst.
  apply bind_Some in Hv as (hs & Hhs & Hv).
  assert (fresh_map (hs_map hs)) as Hfresh.
  { clear Hv. destruct (_ || _ || _); [eapply complete_branch_fresh; [exact Hhs|apply fresh_map_empty]|].
    case_decide; [eapply byosd_branch_fresh; [exact Hhs|apply fresh_map_empty]|].
    case_decide; [eapply bydev_branch_fresh; [exact Hhs|apply fresh_map_empty]|]. simplify_eq. apply fresh_map_empty. }
  destruct (negb _ || _); [|by simplify_eq/=].
  destruct (if ncs_DropFromCrush ns then _ else _) as [m w] eqn:Hz. simplify_eq/=.
  apply verified_host; [|done]. split; [done|]. exists sp. split_and!; [done| |done].
  apply host_entry_set_map; [done|]. destruct (ncs_DropFromCrush ns); [by simplify_eq|].
  change m with (m, w).1. rewrite <-Hz. by apply checkDeviceZapping_fresh.
Qed.

Lemma verify_host_ok host ns st :
  nodes !! host = Some ns → verified st →
  spec report_event (verify_host c metas infos hosts host ns st) (λ r, ∀ st', r = Some st' → verified st').
Proof.
  intros Hspec Hst. unfold verify_host. fold (info host). simpl.
  destruct (decide (host = StrayOsdNodeMarker)) as [|Hne]; [apply spec_ret; by intros ? [= <-]|].
  destruct (verify_guards c host ns (info host)) as [[issue|warning]|] eqn:Hg;
    [apply spec_ret; by intros ? [= <-]..|].
  assert (∀ m, fresh_map m → verified_entry host
    (mkHostMapping (ncs_CompleteCleanup ns) (ncs_DropFromCrush ns) m (negb (hi_available (info host))) false None))
    as Hentry.
  { intros m Hm. split; [done|]. exists ns. split_and!; [done|by split|]. by apply (verify_guards_in_spec host). }
  destruct (negb (hi_available (info host)) || negb (hi_labeled (info host))).
  - apply spec_ret. intros st' Hv. eapply verify_no_daemon_ok; [exact Hv| |done]. apply Hentry, fresh_map_empty.
  - apply spec_bind_any; [apply node_report_spec|]. intros [[report|] [|i l]]; apply spec_ret; intros st' Hv;
      try (by simplify_eq/=).
    eapply verify_report_ok; [exact Hv| |done]. apply Hentry, fresh_map_empty.
Qed.

(** The stray OSDs without a host. *)
Lemma verify_strays_map st host hm :
  ri_CleanupMap (vs_ri (verify_strays c infos nodes st)) !! host = Some hm →
  ri_CleanupMap (vs_ri st) !! host = Some hm ∨
  host = StrayOsdNodeMarker ∧ is_Some (nodes !! host) ∧ host_entry false false true hm.
Proof.
  unfold verify_strays. destruct (nodes !! StrayOsdNodeMarker) as [sr|] eqn:Hsr; [|by left].
  destruct (ncs_CleanupByOsd sr) as [|o l]; [by left|].
  destruct (foldl (verify_stray_step _ _ _) _ _) as [m w] eqn:Hf.
  destruct (decide (m = ∅)); [by left|]. simpl. rewrite lookup_insert. case_decide; [|by left].
  intros [= <-]. right. split; [done|]. split; [subst host; eauto|]. split; try done. simpl. change m with (m, w).1. rewrite <-Hf.
  apply (foldl_inv (λ a : gmap string OsdMapping * list string, fresh_map a.1)); [apply fresh_map_empty|].
  intros s [m0 w0] _ Hm0. unfold verify_stray_step.
  destruct (vs_stray st !! _) as [[]|]; simpl; [by apply fresh_map_insert|done|done].
Qed.

Lemma verifyOsdsForCleanUp_spec :
  spec report_event (verifyOsdsForCleanUp c metas infos nodes hosts)
    (λ r, ∀ ri host hm, r = Some ri → ri_CleanupMap ri !! host = Some hm →
       verified_entry host hm ∨
       host = StrayOsdNodeMarker ∧ is_Some (nodes !! host) ∧ host_entry false false true hm).
Proof.
  unfold verifyOsdsForCleanUp. eapply spec_bind.
  - apply (foldMo_spec _ verified); [apply map_Forall_empty|].
    intros [host ns] st Hin Hst. apply elem_of_range in Hin. by apply verify_host_ok.
  - intros [st|] Hst; cbn beta in Hst; apply spec_ret; [|done]. simpl. intros ri host hm [= <-]. simpl.
    intros [Hhm|Hhm]%verify_strays_map; [left|by right]. by apply (Hst st).
Qed.
End verify.

Section find.
Context `{World} `{MapRange} (c : cephOsdRemoveConfig) (metas : list OsdMetadataInfo) (infos : list OsdInfo).
Context (hosts : gmap string osdHostInfo).

Lemma write_cell_fresh site devs s : fresh_map (fo_map s) → fresh_map (fo_map (write_cell site devs s)).
Proof.
  intros Hs. simpl. apply (foldl_inv fresh_map); [done|]. intros k m _ Hm. by apply fresh_map_alter.
Qed.

Lemma find_add_fresh key info b1 b2 s : fresh_map (fo_map s) → fresh_map (fo_map (find_add c key info b1 b2 s)).
Proof.
  intros Hs. unfold find_add. destruct (fo_map s !! key) as [om|] eqn:Hk.
  - case_decide; [by apply write_cell_fresh|]. simpl. apply fresh_map_insert; [|done]. exact (Hs key om Hk).
  - destruct b2; [|by apply fresh_map_insert].
    apply fresh_map_insert; [done|]. by apply write_cell_fresh.
Qed.

Lemma find_step_fresh host hi used known osd s info s' :
  find_step c metas infos host hi used known osd s info = Some s' →
  fresh_map (fo_map s) → fresh_map (fo_map s').
Proof.
  intros (from & _ & Hf)%bind_Some Hs. revert Hf. destruct (from && hi_inSpec hi).
  - intros [= <-]. unfold find_in_spec_host. destruct (inSpec info used "") as [[? ?] inspec].
    destruct inspec; case_match; try apply write_cell_fresh; done.
  - cbv zeta. set (st := is_stray _ osd && _). destruct (st || negb from); intros [= <-]; by apply find_add_fresh.
Qed.

Lemma find_osd_fresh host hi used hs e hs' :
  find_osd c metas infos host hi used hs e = Some hs' → fresh_map (fh_map hs) → fresh_map (fh_map hs').
Proof.
  destruct e as [osd l]. intros (cell & _ & Hf)%bind_Some Hs. apply bind_Some in Hf as (s & Hl & Hf).
  assert (fresh_map (fo_map s)) as Hfs.
  { eapply (foldo_inv (λ s, fresh_map (fo_map s))); [| |exact Hl]; [done|].
    intros i s0 s1 _ Hs0 Hs1. by eapply find_step_fresh. }
  revert Hf. cbv zeta. set (s1 := if hi_inSpec hi && fo_allow s then _ else s).
  assert (fresh_map (fo_map s1)) as Hfs1 by (subst s1; case_match; [by apply fresh_map_insert|done]).
  assert (fresh_map (find_expected hi osd (range 23 cell).*1 s1 (fh_known hs)).1) as Hex.
  { unfold find_expected. repeat case_match; try done. simpl. apply fresh_map_insert; [|done].
    match goal with Hl : _ !! osd = Some _ |- _ => exact (Hfs1 _ _ Hl) end. }
  destruct (find_expected _ _ _ _ _) as [m known]. by intros [= <-].
Qed.

Lemma find_report_ok host hi used hm report strays hm' w strays' b1 b2 b3 :
  find_report c metas infos host hi used hm report strays = Some (hm', w, strays') →
  host_entry b1 b2 b3 hm → host_entry b1 b2 b3 hm'.
Proof.
  intros (hs & Hl & Hf)%bind_Some Hhm. apply bind_Some in Hf as (m & Hlost & Hf).
  assert (fresh_map m) as Hm.
  { eapply (foldo_inv fresh_map); [| |exact Hlost].
    - eapply (foldo_inv (λ s, fresh_map (fh_map s))); [| |exact Hl]; [apply fresh_map_empty|].
      intros e s0 s1 _ Hs0 Hs1. by eapply find_osd_fresh.
    - intros [o z] m0 m1 _ Hm0 (meta & _ & Hs)%bind_Some. simplify_eq. by apply fresh_map_insert. }
  pose proof (checkDeviceZapping_fresh host m (fh_lock hs)
    (lc_AllowToRemoveManuallyCreatedLVM (c_lcmConfig c)) Hm) as Hz.
  destruct (checkDeviceZapping _ _ _ _) as [m' w']. simpl in Hz.
  case_decide; simplify_eq/=; [done|]. by apply host_entry_set_map.
Qed.

Definition found_entry (host : string) (hm : HostMapping) : Prop :=
  ∃ hi, hosts !! host = Some hi ∧ host_entry (negb (hi_inSpec hi)) false (hi_available hi) hm.

Definition found (st : vstate) : Prop := map_Forall found_entry (ri_CleanupMap (vs_ri st)).

Lemma find_commit_ok host hi hm st : found_entry host hm → found st → found (find_commit host hi hm st).
Proof. intros. unfold find_commit. case_match; [|done]. by apply map_Forall_insert_2. Qed.

Lemma find_host_ok host hi st :
  hosts !! host = Some hi → found st →
  spec report_event (find_host c metas infos host hi st) (λ r, ∀ st', r = Some st' → found st').
Proof.
  intros Hhi Hst. unfold find_host.
  set (hm := mkHostMapping _ _ _ _ _ _).
  assert (host_entry (negb (hi_inSpec hi)) false (hi_available hi) hm) as Hhm
    by (split; try done; apply fresh_map_empty).
  destruct (hi_available hi && hi_labeled hi).
  - destruct (if hi_inSpec hi then analysis_block c host else None) as [[?|?]|];
      [apply spec_ret; by intros ? [= <-]..|].
    destruct (if hi_inSpec hi then _ else _) as [used|]; [|by apply spec_ret].
    apply spec_bind_any; [apply node_report_spec|].
    intros [[report|] [|i l]]; apply spec_ret; intros st' Hv; try (by simplify_eq/=).
    apply bind_Some in Hv as ([[hm' w] strays] & Hr & Hv). simplify_eq/=.
    apply find_commit_ok; [|done]. exists hi. split; [done|]. by eapply find_report_ok.
  - destruct (hi_inSpec hi) eqn:Hin; [apply spec_ret; by intros ? [= <-]|].
    apply spec_ret. intros st' ([hm' w] & Hr & Hv)%bind_Some. simplify_eq/=.
    apply find_commit_ok; [|done]. exists hi. split; [done|]. rewrite Hin. revert Hr. unfold find_no_daemon.
    destruct (hi_inCrush hi); [|by intros [= <- <-]].
    intros ([m w'] & Hfill & Hr)%bind_Some. simplify_eq/=. apply fillOsdMapping_fresh in Hfill.
    by apply host_entry_set_map, Hfill; apply host_entry_set_missed.
Qed.

Lemma find_strays_map st host hm :
  ri_CleanupMap (vs_ri (find_strays c infos st)) !! host = Some hm →
  ri_CleanupMap (vs_ri st) !! host = Some hm ∨
  host = StrayOsdNodeMarker ∧ host_entry false false true hm.
Proof.
  unfold find_strays. case_decide; [by left|]. simpl. rewrite lookup_insert. case_decide; [|by left].
  intros [= <-]. right. split; [done|]. split; try done. simpl.
  apply (foldl_inv fresh_map); [apply fresh_map_empty|]. intros [o b] m _ Hm. by apply fresh_map_insert.
Qed.

Lemma findOsdsForCleanUp_spec :
  spec report_event (findOsdsForCleanUp c metas infos hosts)
    (λ r, ∀ ri host hm, r = Some ri → ri_CleanupMap ri !! host = Some hm →
       found_entry host hm ∨ host = StrayOsdNodeMarker ∧ host_entry false false true hm).
Proof.
  unfold findOsdsForCleanUp. eapply spec_bind.
  - apply (foldMo_spec _ found); [apply map_Forall_empty|].
    intros [host hi] st Hin Hst. apply elem_of_range in Hin. by apply find_host_ok.
  - intros [st|] Hst; cbn beta in Hst; apply spec_ret; [|done]. simpl. intros ri host hm [= <-]. simpl.
    intros [Hhm|Hhm]%find_strays_map; [left|by right]. by apply (Hst st).
Qed.
End find.

(** ** Which hosts are in the spec *)

Section in_spec.
Context `{World} `{MapRange}.

Lemma enumerate_names_from {A} (l : list A) n a : a ∈ l → ∃ i, (i, a) ∈ zip (seq n (length l)) l.
Proof.
  revert n. induction l as [|b l IH]; intros n Ha; [by apply elem_of_nil in Ha|]. simpl.
  apply elem_of_cons in Ha as [->|Ha]; [exists n; left|]. destruct (IH (S n) Ha) as [i Hi].
  exists i. by right.
Qed.

Lemma enumerate_elem {A} (l : list A) a : a ∈ l → ∃ i, (i, a) ∈ enumerate l.
Proof. apply enumerate_names_from. Qed.

(** Once in the spec, a host stays so while the nodes are added. *)
Definition spec_host (hosts : gmap string osdHostInfo) (host : string) : Prop :=
  ∃ hi, hosts !! host = Some hi ∧ hi_inSpec hi = true.

Lemma add_spec_node_keeps nodes hosts e host :
  spec_host hosts host → spec_host (add_spec_node nodes hosts e) host.
Proof.
  destruct e as [idx node]. intros (hi & Hhi & Hin). unfold add_spec_node.
  destruct (pickHost nodes (cn_Name node)); [|by exists hi].
  destruct (decide (cn_Name node = host)) as [<-|Hne].
  - rewrite Hhi. eexists. by rewrite lookup_insert_eq.
  - destruct (hosts !! cn_Name node); exists hi; by rewrite lookup_insert_ne.
Qed.

Lemma add_spec_node_sets nodes hosts idx node :
  pickHost nodes (cn_Name node) = true → spec_host (add_spec_node nodes hosts (idx, node)) (cn_Name node).
Proof.
  intros Hp. unfold add_spec_node. rewrite Hp.
  destruct (hosts !! cn_Name node); eexists; by rewrite lookup_insert_eq.
Qed.

Lemma add_k8s_node_keeps label nodes hosts node host :
  spec_host hosts host → spec_host (add_k8s_node label nodes hosts node) host.
Proof.
  intros (hi & Hhi & Hin). unfold add_k8s_node.
  destruct (pickHost nodes (kn_Name node)); [|by exists hi].
  destruct (decide (kn_Name node = host)) as [<-|Hne].
  - rewrite Hhi. eexists. by rewrite lookup_insert_eq.
  - destruct (hosts !! kn_Name node); [exists hi; by rewrite lookup_insert_ne|].
    case_match; exists hi; by rewrite ?lookup_insert_ne.
Qed.

Lemma osds_hosts_in_spec label nodes crush specNodes nodesList host :
  host ∈ cn_Name <$> specNodes → pickHost nodes host = true →
  spec_host (osds_hosts label nodes crush specNodes nodesList) host.
Proof.
  intros (node & -> & Hnode)%list_elem_of_fmap Hp. unfold osds_hosts.
  apply (foldl_inv (λ hs, spec_host hs (cn_Name node))); [|intros; by apply add_k8s_node_keeps].
  destruct (enumerate_elem _ _ Hnode) as [i (l1 & l2 & ->)%list_elem_of_split].
  rewrite foldl_app. cbn [foldl]. apply (foldl_inv (λ hs, spec_host hs (cn_Name node))).
  - by apply add_spec_node_sets.
  - intros. by apply add_spec_node_keeps.
Qed.
End in_spec.

(** ** Theorems on the cleanup map *)

Section theorems.
Context `{World} `{MapRange} (c : cephOsdRemoveConfig) (metas : list OsdMetadataInfo) (infos : list OsdInfo).

(** Every entry of the map validation makes. *)
Lemma getOsdsForCleanup_spec crush nodesList :
  let nodes := nodesFromTaskSpec (c_task c) in
  spec report_event (getOsdsForCleanup c metas infos crush nodesList)
    (λ r, ∀ ri host hm, r = Some ri → ri_CleanupMap ri !! host = Some hm →
      fresh_map (hm_OsdMapping hm) ∧ hm_HostRemoveStatus hm = None ∧
      (host ∈ cn_Name <$> cc_StorageNodes (c_cephCluster c) → host ≠ "" →
       hm_CompleteCleanup hm = false ∧ hm_DropFromCrush hm = false) ∧
      (nodes ≠ ∅ → is_Some (nodes !! host))).
Proof.
  intros nodes. unfold getOsdsForCleanup. fold nodes.
  set (hosts := osds_hosts _ _ _ _ _).
  destruct (decide (nodes = ∅)) as [Hnodes|Hnodes].
  - eapply spec_post; [apply findOsdsForCleanUp_spec|]. intros r Hr ri host hm Hri Hhm.
    destruct (Hr ri host hm Hri Hhm) as [(hi & Hhi & [])|[-> []]]; [|done].
    split_and!; [done|done| |done]. intros Hin Hne.
    destruct (osds_hosts_in_spec (lc_DiskDaemonPlacementLabel (c_lcmConfig c)) nodes crush _ nodesList host Hin)
      as (hi' & Hhi' & Hspec).
    { unfold pickHost. by rewrite decide_False, decide_True. }
    fold hosts in Hhi'. rewrite Hhi in Hhi'. simplify_eq. by rewrite Hspec in *.
  - eapply spec_post; [apply verifyOsdsForCleanUp_spec|]. intros r Hr ri host hm Hri Hhm.
    destruct (Hr ri host hm Hri Hhm) as [(_ & ns & Hns & [] & Hin)|(-> & Hns & [])]; [|done].
    split_and!; [done|done| |eauto]. intros Hnode Hne.
    destruct (osds_hosts_in_spec (lc_DiskDaemonPlacementLabel (c_lcmConfig c)) nodes crush _ nodesList host Hnode)
      as (hi' & Hhi' & Hspec).
    { unfold pickHost. rewrite decide_False, decide_False by done. by apply bool_decide_eq_true_2. }
    fold hosts in Hhi'. rewrite Hhi' in Hin. destruct (Hin Hspec). by split; congruence.
Qed.

Lemma getOsdsForCleanup_fresh crush nodesList :
  spec report_event (getOsdsForCleanup c metas infos crush nodesList) (λ r, ∀ ri, r = Some ri → fresh ri).
Proof.
  eapply spec_post; [apply getOsdsForCleanup_spec|]. intros r Hr ri Hri p om (hm & Hhm & Hom)%bind_Some.
  destruct (Hr _ _ _ Hri Hhm) as (Hfresh & _). by apply (Hfresh (hp_OsdID p)).
Qed.

(** What validation selects, named nodes or automatic, has never been
    touched: it is a starting point of the removal, so that all theorems on
    reachable remove infos apply to a validated task. *)
Theorem validation_starts_removal crush nodesList h ri :
  (getOsdsForCleanup c metas infos crush nodesList h).1 = Some ri → reach ri.
Proof. intros Hri. apply reach_fresh. by apply (getOsdsForCleanup_fresh crush nodesList h). Qed.

(** C15: a host that is in the Rook storage spec is never selected for complete
    cleanup nor for removal from the CRUSH map, whatever the task asks for; and
    with nodes named in the task only these (and the stray marker) are selected. *)
Theorem spec_hosts_never_dropped crush nodesList h ri host hm :
  (getOsdsForCleanup c metas infos crush nodesList h).1 = Some ri →
  ri_CleanupMap ri !! host = Some hm →
  (host ∈ cn_Name <$> cc_StorageNodes (c_cephCluster c) → host ≠ "" →
   hm_CompleteCleanup hm = false ∧ hm_DropFromCrush hm = false) ∧
  (nodesFromTaskSpec (c_task c) ≠ ∅ → is_Some (nodesFromTaskSpec (c_task c) !! host)).
Proof.
  intros Hri Hhm. destruct (getOsdsForCleanup_spec crush nodesList h) as [Hspec _].
  by destruct (Hspec _ _ _ Hri Hhm) as (_ & _ & ? & ?).
Qed.
End theorems.

(** ** Zapping *)

(** [insert]ing the images of all entries of a map, in any order, maps it. *)
Lemma foldl_insert_map {A} (f : string → A → A) (l : list (string * A)) (m m0 : gmap string A) k :
  NoDup l.*1 → (∀ e, e ∈ l → m !! e.1 = Some e.2) →
  foldl (λ m e, <[e.1 := f e.1 e.2]> m) m0 l !! k =
    if decide (k ∈ l.*1) then f k <$> m !! k else m0 !! k.
Proof.
  revert m0. induction l as [|[k' a] l IH]; intros m0 Hnd Hl; [done|]. csimpl in *.
  apply NoDup_cons in Hnd as [Hk' Hnd]. rewrite IH; [|done|intros; apply Hl; by right].
  pose proof (Hl (k', a) (list_elem_of_here _ _)) as Ha. simpl in Ha.
  destruct (decide (k ∈ l.*1)) as [Hin|Hin].
  - by rewrite decide_True by (by right).
  - destruct (decide (k = k')) as [->|Hne].
    + rewrite decide_True by left. by rewrite lookup_insert_eq, Ha.
    + rewrite decide_False by (rewrite elem_of_cons; naive_solver). by rewrite lookup_insert_ne.
Qed.

Lemma foldl_insert_range {A} `{MapRange} site (f : string → A → A) (m : gmap string A) k :
  foldl (λ m e, <[e.1 := f e.1 e.2]> m) m (range site m) !! k = f k <$> m !! k.
Proof.
  rewrite (foldl_insert_map f _ m); [|apply NoDup_range_keys|intros [??]; apply elem_of_range].
  case_decide as Hk; [done|]. destruct (m !! k) as [a|] eqn:Ha; [|done].
  destruct Hk. apply (list_elem_of_fmap_2 fst _ (k, a)). by apply elem_of_range.
Qed.

Section zap.
Context `{MapRange} (host : string) (lock : gset string) (allow : bool).

(** What becomes of a device, and of an OSD: the reference for the loops that
    update the map in place. *)
Definition zapped (osd device : string) (d : DeviceInfo) : DeviceInfo :=
  (zap_device host osd lock allow device d).1.

Definition zapped_osd (osd : string) (om : OsdMapping) : OsdMapping :=
  if om_SkipDeviceCleanupJob om then om
  else set_om_DeviceMapping (map_imap (λ dev d, Some (zapped osd dev d)) (om_DeviceMapping om)) om.

Lemma zap_steps_eq osd l devs w :
  (foldl (zap_step host osd lock allow) (devs, w) l).1 =
  foldl (λ m e, <[e.1 := zapped osd e.1 e.2]> m) devs l.
Proof.
  revert devs w. induction l as [|[dev d] l IH]; intros devs w; [done|]. cbn [foldl].
  unfold zap_step at 2, zapped at 2. destruct (zap_device host osd lock allow dev d) as [d' w'] eqn:Hz.
  simpl. rewrite Hz. apply IH.
Qed.

Lemma zap_osd_eq st osd om :
  (zap_osd host lock allow st (osd, om)).1 =
    if om_SkipDeviceCleanupJob om then st.1 else <[osd := zapped_osd osd om]> st.1.
Proof.
  unfold zap_osd, zapped_osd. destruct (om_SkipDeviceCleanupJob om); [done|].
  pose proof (zap_steps_eq osd (range 3 (om_DeviceMapping om)) (om_DeviceMapping om) st.2) as Heq.
  destruct (foldl (zap_step _ _ _ _) _ _) as [devs w]. simpl in *. do 2 f_equal. rewrite Heq.
  apply map_eq; intros k. rewrite foldl_insert_range, map_lookup_imap. by destruct (om_DeviceMapping om !! k).
Qed.

Lemma zap_osds_eq l (m0 : gmap string OsdMapping) w (m : gmap string OsdMapping) k :
  NoDup l.*1 → (∀ e, e ∈ l → m !! e.1 = Some e.2) → (∀ e, e ∈ l → m0 !! e.1 = Some e.2) →
  (foldl (zap_osd host lock allow) (m0, w) l).1 !! k =
    if decide (k ∈ l.*1) then zapped_osd k <$> m !! k else m0 !! k.
Proof.
  revert m0 w. induction l as [|[osd om] l IH]; intros m0 w Hnd Hl Hl0; [done|].
  rewrite fmap_cons in *. cbn [foldl].
  apply NoDup_cons in Hnd as [Hosd Hnd]. pose proof (Hl (osd, om) (list_elem_of_here _ _)) as Hom. simpl in Hom.
  pose proof (Hl0 (osd, om) (list_elem_of_here _ _)) as Hom0. simpl in Hom0.
  pose proof (zap_osd_eq (m0, w) osd om) as Heq. destruct (zap_osd _ _ _ _ _) as [m1 w1]. simpl in Heq.
  assert (∀ i, m1 !! i = if decide (i = osd) then Some (zapped_osd osd om) else m0 !! i) as Hm1.
  { intros i. subst m1. unfold zapped_osd. destruct (om_SkipDeviceCleanupJob om).
    - by destruct (decide (i = osd)) as [->|].
    - destruct (decide (i = osd)) as [->|]; [by rewrite lookup_insert_eq|by rewrite lookup_insert_ne]. }
  rewrite IH; [|done|intros; apply Hl; by right|].
  - rewrite Hm1. destruct (decide (k ∈ l.*1)) as [Hin|Hin]; [by rewrite decide_True by (by right)|].
    destruct (decide (k = osd)) as [->|Hne].
    + rewrite decide_True by left. by rewrite Hom.
    + rewrite decide_False by (rewrite elem_of_cons; naive_solver). done.
  - intros e He. rewrite Hm1, decide_False; [apply Hl0; by right|].
    intros Heq'. apply Hosd. rewrite <-Heq'. by apply (list_elem_of_fmap_2 fst l e).
Qed.

(** [checkDeviceZapping], which updates the maps in place while it walks over
    them in an unspecified order, treats every device by itself. *)
Lemma checkDeviceZapping_lookup (m : gmap string OsdMapping) osd :
  (checkDeviceZapping host m lock allow).1 !! osd = zapped_osd osd <$> m !! osd.
Proof.
  unfold checkDeviceZapping.
  rewrite (zap_osds_eq _ m [] m); [|apply NoDup_range_keys|intros [??]; apply elem_of_range..].
  case_decide as Hk; [done|]. destruct (m !! osd) as [a|] eqn:Ha; [|done].
  destruct Hk. apply (list_elem_of_fmap_2 fst _ (osd, a)). by apply elem_of_range.
Qed.

(** When a device may be zapped: the cleanup of its OSD is not skipped, it is
    present on the node, and either is used raw or lies on no other partition, is
    not locked (by an OSD that stays), and carries a volume made by Rook, unless
    the removal of any volume is allowed. *)
Definition may_zap (om : OsdMapping) (dev : string) (d : DeviceInfo) : Prop :=
  om_SkipDeviceCleanupJob om = false ∧ di_Alive d = true ∧
  (di_Raw d = true ∨
   di_PartedBy d = "" ∧ dev ∉ lock ∧ (isLvmRookMade (di_Partition d) = true ∨ allow = true)).

Lemma zapped_osd_device osd om dev d :
  di_Zap d = false →
  om_DeviceMapping om !! dev = Some d →
  ∃ z, om_DeviceMapping (zapped_osd osd om) !! dev = Some (set_di_Zap z d) ∧ (z = true ↔ may_zap om dev d).
Proof.
  intros Hz Hd. unfold zapped_osd, may_zap. destruct (om_SkipDeviceCleanupJob om).
  { exists false. split; [|naive_solver]. rewrite Hd. destruct d; simpl in *. by subst. }
  simpl. rewrite map_lookup_imap, Hd. simpl. unfold zapped, zap_device.
  destruct (di_Alive d) eqn:Hal; simpl.
  2: { exists false. split; [|naive_solver]. destruct d; simpl in *. by subst. }
  destruct (di_Raw d) eqn:Hraw; simpl; [exists true; naive_solver|].
  destruct (decide (di_PartedBy d ≠ "")) as [Hp|Hp]; simpl; [exists false; naive_solver|].
  apply dec_stable in Hp. eexists; split; [done|].
  destruct (decide (dev ∈ lock)); [naive_solver|]. rewrite orb_true_iff. naive_solver.
Qed.

(** C3: [checkDeviceZapping] marks a device of the cleanup map for zapping
    exactly when it may be zapped, whatever the order in which Go visits the maps
    it updates in place, and changes nothing else of a device. *)
Theorem zap_exactly_when_safe (m : gmap string OsdMapping) osd om dev d :
  m !! osd = Some om →
  om_DeviceMapping om !! dev = Some d →
  di_Zap d = false →
  ∃ z, (om' ← (checkDeviceZapping host m lock allow).1 !! osd; om_DeviceMapping om' !! dev) =
         Some (set_di_Zap z d) ∧ (z = true ↔ may_zap om dev d).
Proof.
  intros Hm Hd Hz. rewrite checkDeviceZapping_lookup, Hm. simpl. by apply zapped_osd_device.
Qed.
End zap.

(** ** OSD metadata lookups *)

Lemma metadata_index_fold (l : list (nat * OsdMetadataInfo)) (m0 : gmap Z nat) osd i :
  foldl (λ m '(idx, meta), <[md_OsdID meta := idx]> m) m0 l !! osd = Some i →
  m0 !! osd = Some i ∨ ∃ meta, (i, meta) ∈ l ∧ md_OsdID meta = osd.
Proof.
  revert m0. induction l as [|[j meta] l IH]; intros m0; cbn [foldl]; [by left|].
  intros [Hi|(meta' & Hin & Hid)]%IH.
  - destruct (decide (md_OsdID meta = osd)) as [Hid|Hid].
    + right. exists meta. subst osd. rewrite lookup_insert_eq in Hi. simplify_eq. split; [left|done].
    + left. by rewrite lookup_insert_ne in Hi.
  - right. exists meta'. split; [by right|done].
Qed.

Lemma enumerate_lookup_from {A} (l : list A) n i a : (i, a) ∈ zip (seq n (length l)) l → l !! (i - n)%nat = Some a ∧ (n ≤ i)%nat.
Proof.
  revert n. induction l as [|b l IH]; intros n; simpl; [intros Hin; by apply elem_of_nil in Hin|].
  intros [Heq|Hin]%elem_of_cons.
  - simplify_eq. rewrite Nat.sub_diag. done.
  - apply IH in Hin as [Hl Hn]. split; [|lia]. replace (i - n)%nat with (S (i - S n)) by lia. done.
Qed.

Lemma enumerate_lookup {A} (l : list A) i a : (i, a) ∈ enumerate l → l !! i = Some a.
Proof. intros Hin%enumerate_lookup_from. by rewrite Nat.sub_0_r in Hin; destruct Hin. Qed.

Lemma metadata_index_lookup metas osd i :
  metadata_index metas !! osd = Some i → ∃ meta, metas !! i = Some meta ∧ md_OsdID meta = osd.
Proof.
  intros [Hi|(meta & Hin & Hid)]%metadata_index_fold; [by rewrite lookup_empty in Hi|].
  exists meta. split; [by apply enumerate_lookup|done].
Qed.

Lemma metadata_index_some metas osd :
  osd ∈ md_OsdID <$> metas → is_Some (metadata_index metas !! osd).
Proof.
  intros (meta & -> & Hin)%list_elem_of_fmap. unfold metadata_index.
  destruct (enumerate_elem _ _ Hin) as [i (l1 & l2 & ->)%list_elem_of_split].
  rewrite foldl_app. cbn [foldl]. apply (foldl_inv (λ m : gmap Z nat, is_Some (m !! md_OsdID meta))).
  - rewrite lookup_insert_eq. eauto.
  - intros [j meta'] m _ Hm. destruct (decide (md_OsdID meta' = md_OsdID meta)) as [->|].
    + rewrite lookup_insert_eq. eauto.
    + by rewrite lookup_insert_ne.
Qed.

Lemma meta_at_total metas osd : metas ≠ [] → is_Some (meta_at metas osd).
Proof.
  intros Hne. unfold meta_at. destruct (metadata_index metas !! osd) as [i|] eqn:Hi; simpl.
  - apply metadata_index_lookup in Hi as (meta & -> & _). eauto.
  - destruct metas; [done|]. eauto.
Qed.

(** The unchecked lookup [osdsMetadataFromCluster[osdMetadataMap[osd]]]
    finds the metadata of the OSD when Ceph reports it; for an OSD Ceph reports no
    metadata for, it silently takes the first OSD of the list instead, and panics
    when there is none. *)
Theorem metadata_lookup metas osd :
  (osd ∈ md_OsdID <$> metas → ∃ meta, meta_at metas osd = Some meta ∧ md_OsdID meta = osd) ∧
  (osd ∉ md_OsdID <$> metas → meta_at metas osd = metas !! 0%nat).
Proof.
  unfold meta_at. split.
  - intros Hin. destruct (metadata_index_some _ _ Hin) as [i Hi]. rewrite Hi. simpl.
    by apply metadata_index_lookup in Hi.
  - intros Hnot. destruct (metadata_index metas !! osd) as [i|] eqn:Hi; [|done].
    apply metadata_index_lookup in Hi as (meta & Hm & Hid). destruct Hnot. rewrite <-Hid.
    apply (list_elem_of_fmap_2 md_OsdID), list_elem_of_lookup. eauto.
Qed.

(** ** No panic *)

Section total.
Context `{World} `{MapRange} (c : cephOsdRemoveConfig) (metas : list OsdMetadataInfo) (infos : list OsdInfo).
Hypothesis Hmetas : metas ≠ [].

Lemma checkFromCrush_total known osd info : is_Some (checkFromCrush c metas infos known osd info).
Proof using Hmetas.
  unfold checkFromCrush. destruct (known !! osd) as [z|]; [|eauto]. case_decide; [eauto|].
  destruct (meta_at_total metas z Hmetas) as [meta ->]. simpl. eauto.
Qed.

Lemma fillOsdMapping_total nodeInSpec av host osds :
  is_Some (fillOsdMappingFromOsdMeta (mkMappingConfig nodeInSpec av host osds metas (metadata_index metas)
    (uuid_map infos) (cluster_fsid (c_cephCluster c)) (cc_Namespace (c_cephCluster c)) (data_dir (c_cephCluster c)))).
Proof using Hmetas.
  apply foldo_some. intros osd [m w]. unfold fillOsdMapping_step. cbn [mc_osdMetadataMap].
  destruct (metadata_index metas !! osd) as [i|] eqn:Hi; [|eauto].
  apply metadata_index_lookup in Hi as (meta & Hm & _). cbn [mc_osdsMetadataFromCluster].
  rewrite Hm. simpl. eauto.
Qed.

Lemma complete_branch_total host hs hi used known report st :
  is_Some (complete_branch c metas infos host hs hi used known report st).
Proof using Hmetas.
  unfold complete_branch.
  assert (is_Some (known_mapping c metas infos known)) as [m Hm].
  { apply foldo_some. intros [o z] m. destruct (meta_at_total metas z Hmetas) as [meta ->]. simpl. eauto. }
  rewrite Hm.
  assert (∀ m, is_Some (foldo (complete_step c metas infos host hi (ncs_CleanupStrayPartitions hs) used known)
    (h_map m st) (report_entries 13 report))) as Hf.
  { intros m'. apply foldo_some. intros [osd info] s. unfold complete_step.
    destruct (checkFromCrush_total known osd info) as [b ->]. simpl. repeat case_match; eauto. }
  destruct (ncs_CleanupStrayPartitions hs); simpl; apply Hf.
Qed.

Lemma byosd_branch_total host hs hi used known report st :
  is_Some (byosd_branch c metas infos host hs hi used known report st).
Proof using Hmetas.
  apply foldo_some. intros o s. unfold byosd_one. destruct (known !! _); [|eauto].
  destruct (meta_at_total metas (ocs_ID o) Hmetas) as [meta ->]. simpl.
  match goal with |- context [foldo ?f ?s0 ?l] => destruct (foldo_some f l s0) as [bs ->] end.
  - intros [osd info] s0. unfold byosd_step. case_decide; [eauto|].
    destruct (checkFromCrush_total known osd info) as [b ->]. simpl. repeat case_match; eauto.
  - simpl. case_match; eauto.
Qed.

Lemma bydev_branch_total host hs hi used known report st :
  is_Some (bydev_branch c metas infos host hs hi used known report st).
Proof using Hmetas.
  unfold bydev_branch.
  match goal with |- context [foldo ?f ?s0 ?l] => destruct (foldo_some f l s0) as [[st1 deny] ->] end; [|simpl; eauto].
  intros d [s deny]. unfold bydev_one.
  match goal with |- context [foldo ?f ?s0 ?l] => destruct (foldo_some f l s0) as [bs ->] end; [|simpl; eauto].
  intros [osd info] s0. unfold bydev_step. destruct (bd_stop s0); [eauto|]. destruct (negb _); [eauto|].
  destruct (inSpec _ _ _) as [[? ?] ?]. destruct (hi_inSpec hi && _); [eauto|]. unfold bydev_take.
  destruct (checkFromCrush_total known osd info) as [fc ->]. cbn [mbind option_bind].
  destruct (note_stray _ _ _ _ _ _ _) as [key st2].
  destruct fc; [|simpl; eauto]. destruct (meta_at_total metas (default 0 (known !! osd)) Hmetas) as [meta ->].
  simpl. eauto.
Qed.
(** The index of a host into the storage nodes is valid. *)
Definition spec_idx_ok (hosts : gmap string osdHostInfo) : Prop :=
  map_Forall (λ _ hi, hi_inSpec hi = true → is_Some (cc_StorageNodes (c_cephCluster c) !! hi_specIdx hi)) hosts.

Lemma osds_hosts_idx label nodes crush nodesList :
  spec_idx_ok (osds_hosts label nodes crush (cc_StorageNodes (c_cephCluster c)) nodesList).
Proof.
  unfold osds_hosts. apply (foldl_inv spec_idx_ok).
  2: { intros node hs _ Hhs. unfold add_k8s_node. case_match; [|done].
    destruct (hs !! kn_Name node) as [hi|] eqn:Hhi; [|case_match; [|done]];
      (apply map_Forall_insert_2; [|done]); simpl; [apply (Hhs _ _ Hhi)|done]. }
  apply (foldl_inv spec_idx_ok).
  2: { intros [i node] hs Hin Hhs. apply enumerate_lookup in Hin. unfold add_spec_node. case_match; [|done].
    destruct (hs !! cn_Name node); (apply map_Forall_insert_2; [|done]); simpl; eauto. }
  apply (foldl_inv spec_idx_ok); [apply map_Forall_empty|].
  intros [h l] hs _ Hhs. unfold add_crush_host. case_match; [|done]. by apply map_Forall_insert_2.
Qed.

Lemma spec_idx_used hosts host hi :
  spec_idx_ok hosts → hosts !! host = Some hi ∨ hi = zero_osdHostInfo →
  is_Some (if hi_inSpec hi then getListUsedDevices <$> (cc_StorageNodes (c_cephCluster c) !! hi_specIdx hi)
           else Some zero_usedDevices).
Proof.
  intros Hok [Hhi| ->]; [|simpl; eauto]. destruct (hi_inSpec hi) eqn:Hin; [|eauto].
  destruct (Hok _ _ Hhi Hin) as [node ->]. simpl. eauto.
Qed.

(** The report is there when there are no issues. *)
Lemma node_report_some host :
  spec report_event (tryToGetNodeOsdsReportOrIssues c host) (λ r, r.2 = [] → is_Some r.1).
Proof.
  unfold tryToGetNodeOsdsReportOrIssues. apply spec_bind_any; [apply getNodeReport_spec|].
  intros [r [e|]]; [by apply spec_ret|]. destruct (ddr_Issues r); [|by apply spec_ret].
  destruct (ddr_OsdsReport r); apply spec_ret; simpl; [eauto|done].
Qed.

Lemma verify_host_total hosts host ns st :
  spec_idx_ok hosts →
  spec report_event (verify_host c metas infos hosts host ns st) is_Some.
Proof using Hmetas.
  intros Hok. unfold verify_host. set (hi := default zero_osdHostInfo (hosts !! host)).
  destruct (decide (host = StrayOsdNodeMarker)); [apply spec_ret; eauto|].
  destruct (verify_guards c host ns hi) as [[?|?]|]; [apply spec_ret; eauto..|]. simpl.
  destruct (negb (hi_available hi) || negb (hi_labeled hi)).
  - apply spec_ret. unfold verify_no_daemon. case_match; [eauto|].
    match goal with |- context [fillOsdMappingFromOsdMeta (mkMappingConfig ?a ?b ?d ?e _ _ _ _ _ _)] =>
      destruct (fillOsdMapping_total a b d e) as [[m w] ->] end. simpl. eauto.
  - eapply spec_bind; [apply node_report_some|]. intros [[report|] [|i l]] Hr; cbn beta in Hr;
      apply spec_ret; [|eauto|by destruct (Hr eq_refl)|eauto].
    unfold verify_report.
    assert (is_Some (if hi_inSpec hi then node ← cc_StorageNodes (c_cephCluster c) !! hi_specIdx hi;
                       Some (getListUsedDevices node) else Some zero_usedDevices)) as [used ->].
    { apply (spec_idx_used hosts host hi Hok). subst hi. destruct (hosts !! host); simpl; auto. }
    cbn [mbind option_bind].
    match goal with |- context [mbind _ ?m] => assert (is_Some m) as [hs ->] end.
    { destruct (_ || _ || _); [apply complete_branch_total|].
      case_decide; [apply byosd_branch_total|]. case_decide; [apply bydev_branch_total|eauto]. }
    cbn [mbind option_bind]. destruct (negb _ || _); [|eauto].
    destruct (if ncs_DropFromCrush ns then _ else _) as [m w]. eauto.
Qed.

Lemma find_report_total host hi used hm report strays :
  is_Some (find_report c metas infos host hi used hm report strays).
Proof using Hmetas.
  unfold find_report.
  match goal with |- context [foldo ?f ?s0 ?l] => destruct (foldo_some f l s0) as [hs ->] end.
  { intros [osd l] s. unfold find_osd.
    match goal with |- context [mbind _ ?m] => assert (is_Some m) as [cell ->] end.
    { destruct (if hi_inCrush hi then _ else _) as [z|]; [|eauto].
      destruct (meta_at_total metas z Hmetas) as [meta ->]. simpl. eauto. }
    cbn [mbind option_bind].
    match goal with |- context [foldo ?f ?s0 ?l] => destruct (foldo_some f l s0) as [fs ->] end.
    { intros info s0. unfold find_step. destruct (checkFromCrush_total (fh_known s) osd info) as [b ->].
      cbn [mbind option_bind]. cbv zeta. destruct (b && hi_inSpec hi); [eauto|].
      set (st := is_stray _ osd && _). destruct (st || negb b); eauto. }
    cbn [mbind option_bind]. cbv zeta. destruct (find_expected _ _ _ _ _). eauto. }
  cbn [mbind option_bind].
  assert (is_Some (find_lost c metas infos (fh_known hs) (fh_map hs))) as [m ->].
  { apply foldo_some. intros [o z] m. destruct (meta_at_total metas z Hmetas) as [meta ->]. simpl. eauto. }
  cbn [mbind option_bind]. destruct (checkDeviceZapping _ _ _ _). case_decide; eauto.
Qed.

Lemma find_host_total hosts host hi st :
  spec_idx_ok hosts → hosts !! host = Some hi →
  spec report_event (find_host c metas infos host hi st) is_Some.
Proof using Hmetas.
  intros Hok Hhi. unfold find_host. destruct (hi_available hi && hi_labeled hi).
  - destruct (if hi_inSpec hi then analysis_block c host else None) as [[?|?]|]; [apply spec_ret; eauto..|].
    destruct (spec_idx_used hosts host hi Hok (or_introl Hhi)) as [used ->].
    eapply spec_bind; [apply node_report_some|]. intros [[report|] [|i l]] Hr; cbn beta in Hr;
      apply spec_ret; [|eauto|by destruct (Hr eq_refl)|eauto].
    match goal with |- context [find_report c metas infos host hi used ?hm report ?s] =>
      destruct (find_report_total host hi used hm report s) as [[[hm' w] s'] ->] end. simpl. eauto.
  - destruct (hi_inSpec hi); [apply spec_ret; eauto|]. apply spec_ret. unfold find_no_daemon.
    destruct (hi_inCrush hi); [|simpl; eauto].
    match goal with |- context [fillOsdMappingFromOsdMeta (mkMappingConfig ?a ?b ?d ?e _ _ _ _ _ _)] =>
      destruct (fillOsdMapping_total a b d e) as [[m w] ->] end. simpl. eauto.
Qed.

Lemma foldMo_total {A S} P (f : S → A → IO (option S)) l s :
  (∀ a s, a ∈ l → spec P (f s a) is_Some) → spec P (foldMo f l s) is_Some.
Proof.
  intros Hf. revert s. induction l as [|a l IH]; intros s; simpl; [apply spec_ret; eauto|].
  eapply spec_bind; [apply Hf; left|]. intros r [s1 ->]. apply IH. intros. apply Hf. by right.
Qed.

(** Validation never panics as long as Ceph reports the metadata of at
    least one OSD; it ends with a result and only reads the nodes' reports. *)
Theorem validation_never_panics crush nodesList h :
  is_Some (getOsdsForCleanup c metas infos crush nodesList h).1 ∧
  Forall report_event (getOsdsForCleanup c metas infos crush nodesList h).2.
Proof using Hmetas.
  revert h. change (spec report_event (getOsdsForCleanup c metas infos crush nodesList) is_Some).
  unfold getOsdsForCleanup. case_decide.
  - unfold findOsdsForCleanUp. eapply spec_bind.
    + apply foldMo_total. intros [host hi] s Hin. apply elem_of_range in Hin.
      eapply find_host_total; [|exact Hin]. apply osds_hosts_idx.
    + intros r [st ->]. apply spec_ret. simpl. eauto.
  - unfold verifyOsdsForCleanUp. eapply spec_bind.
    + apply foldMo_total. intros [host ns] s Hin. apply verify_host_total, osds_hosts_idx.
    + intros r [st ->]. apply spec_ret. simpl. eauto.
Qed.
End total.

(** ** OSDs of the spec stay *)

Section kept.
Context `{World} `{MapRange} (c : cephOsdRemoveConfig) (metas : list OsdMetadataInfo) (infos : list OsdInfo).

(** The report shows a volume of the OSD [osd] of this host on a block device
    the spec uses. *)
Definition block_in_spec (used : usedDevices) (known : gmap string Z) (osd : string)
    (osdInfo : OsdDaemonInfo) : Prop :=
  checkFromCrush c metas infos known osd osdInfo = Some true ∧
  ∃ name, inSpec osdInfo used "" = (name, "block", true).

Lemma byosd_step_allowed host hi used known l o s e s' :
  byosd_step c metas infos host hi used known l o s e = Some s' →
  bo_allowed s' = true →
  bo_allowed s = true ∧
  (hi_inSpec hi = true → e.1 = pretty (ocs_ID o) → ¬ block_in_spec used known e.1 e.2).
Proof.
  destruct e as [osd info]. unfold byosd_step. simpl. intros Hs Ha. case_decide as Hne.
  { split; [|by intros _ ->]. simplify_eq. by case_match. }
  apply bind_Some in Hs as (b & Hb & Hs).
  destruct b; simpl in Hs.
  2: { simplify_eq/=. split; [done|]. intros _ _ [Hb' _]. congruence. }
  destruct (hi_inSpec hi); [|by simplify_eq/=].
  destruct (inSpec info used "") as [[name devType] inspec] eqn:Hin. destruct inspec.
  - destruct (decide (devType = "block")) as [->|Hbl]; simplify_eq/=. split; [done|].
    intros _ _ [_ [name' Heq]]. rewrite Hin in Heq. by simplify_eq.
  - simplify_eq/=. split; [done|]. intros _ _ [_ [name' Heq]]. rewrite Hin in Heq. by simplify_eq.
Qed.

Lemma byosd_loop_allowed host hi used known l o es s s' :
  foldo (byosd_step c metas infos host hi used known l o) s es = Some s' →
  bo_allowed s' = true →
  ∀ e, e ∈ es → hi_inSpec hi = true → e.1 = pretty (ocs_ID o) → ¬ block_in_spec used known e.1 e.2.
Proof.
  revert s. induction es as [|e0 es IH]; intros s; simpl; [intros _ _ e He; by apply elem_of_nil in He|].
  intros (s1 & Hs1 & Hf)%bind_Some Ha e [->|He]%elem_of_cons; [|by eapply IH].
  assert (bo_allowed s1 = true) as Ha1.
  { clear IH Hs1. revert s1 Hf. induction es as [|e1 es IH]; intros s1; simpl; [by intros [= <-]|].
    intros (s2 & Hs2 & Hf)%bind_Some. specialize (IH s2 Hf). by eapply byosd_step_allowed. }
  by eapply byosd_step_allowed.
Qed.

(** Removing OSDs by id never selects an OSD with a volume on a block device
    that the Rook spec of the node uses, on a node of the spec. *)
Theorem osd_in_spec_not_removed_by_id host hs hi used known report st st' osd osdInfo :
  hi_inSpec hi = true →
  (osd, osdInfo) ∈ report_entries 15 report →
  block_in_spec used known osd osdInfo →
  hs_map st !! osd = None →
  byosd_branch c metas infos host hs hi used known report st = Some st' →
  hs_map st' !! osd = None.
Proof.
  intros Hin Hentry Hblock Hst Hf.
  eapply (foldo_inv (λ s, hs_map s !! osd = None)); [exact Hst| |exact Hf]. clear Hf Hst st st'.
  intros o s s' _ Hs Ho. unfold byosd_one in Ho. destruct (known !! _); [|by simplify_eq/=].
  apply bind_Some in Ho as (meta & _ & Ho). apply bind_Some in Ho as (bs & Hbs & Ho).
  assert (hs_map (bo_st bs) = hs_map s) as Hmap.
  { eapply (foldo_inv (λ x, hs_map (bo_st x) = hs_map s)); [|  |exact Hbs]; [done|].
    intros e s1 s2 _ Hs1 He. rewrite <-Hs1. by eapply byosd_step_map. }
  destruct (bo_allowed bs) eqn:Ha; simplify_eq/=; [|by rewrite Hmap].
  rewrite lookup_insert_ne.
  - case_match; simpl; by rewrite Hmap.
  - intros Heq. eapply (byosd_loop_allowed _ _ _ _ _ _ _ _ _ Hbs Ha (osd, osdInfo)); try done.
Qed.

Lemma length_strapp (s t : string) : String.length (s +:+ t) = (String.length s + String.length t)%nat.
Proof. induction s as [|a s IH]; simpl; [done|]. by rewrite IH. Qed.

Lemma HasSuffix_prepend (s t u : string) : HasSuffix t u = true → HasSuffix (s +:+ t) u = true.
Proof.
  unfold HasSuffix. rewrite !andb_true_iff, !bool_decide_eq_true, !Nat.leb_le, length_strapp.
  intros [Hlen Hdrop]. split; [lia|]. rewrite <-Hdrop at 2.
  replace (String.length s + String.length t - String.length u)%nat
    with (String.length s + (String.length t - String.length u))%nat by lia.
  generalize (String.length t - String.length u)%nat. clear. intros n.
  induction s as [|a s IH]; simpl; [done|exact IH].
Qed.

(** A stray key is not the id of an OSD of the host. *)
Lemma stray_key_stray osd uuid : isStrayOsdID (stray_key osd uuid) = true.
Proof.
  unfold stray_key, isStrayOsdID. case_decide; repeat apply HasSuffix_prepend; reflexivity.
Qed.

(** *** Automatic mode *)

Lemma write_cell_none site devs s osd :
  fo_map s !! osd = None → fo_map (write_cell site devs s) !! osd = None.
Proof.
  intros Hs. unfold write_cell. simpl. apply foldl_inv; [done|]. intros key m _ Hm.
  rewrite lookup_alter. destruct (decide (key = osd)) as [->|]; [by rewrite Hm|done].
Qed.

Lemma find_add_none key info b1 b2 s osd :
  key ≠ osd → fo_map s !! osd = None → fo_map (find_add c key info b1 b2 s) !! osd = None.
Proof.
  intros Hne Hs. unfold find_add. cbv zeta. destruct (fo_map s !! key); [case_decide|destruct b2]; simpl;
    rewrite ?lookup_insert_ne by done; by try apply write_cell_none.
Qed.

Lemma find_add_allow key info b1 b2 s : fo_allow (find_add c key info b1 b2 s) = fo_allow s.
Proof.
  unfold find_add. cbv zeta. destruct (fo_map s !! key); [case_decide|destruct b2]; done.
Qed.

Lemma find_in_spec_host_none used info s osd :
  fo_map s !! osd = None → fo_map (find_in_spec_host used info s) !! osd = None.
Proof.
  intros Hs. unfold find_in_spec_host. destruct (inSpec info used "") as [[? devType] []]; cbv zeta;
    case_match; try done; by apply write_cell_none.
Qed.

Lemma find_step_none host hi used known osd' s info s' osd :
  isStrayOsdID osd = false →
  osd' ≠ osd ∨ hi_inSpec hi = true →
  find_step c metas infos host hi used known osd' s info = Some s' →
  fo_map s !! osd = None → fo_map s' !! osd = None.
Proof.
  intros Hns Hor Hf Hs. unfold find_step in Hf. apply bind_Some in Hf as (b & Hb & Hf).
  cbv zeta in Hf. destruct (b && hi_inSpec hi) eqn:Hbs.
  { simplify_eq/=. by apply find_in_spec_host_none. }
  assert (∀ uuid, stray_key osd' uuid ≠ osd) as Hstray.
  { intros uuid <-. by rewrite stray_key_stray in Hns. }
  revert Hf. set (st := is_stray _ osd' && _). destruct (st || negb b) eqn:Hst; intros Hf; simplify_eq/=;
    apply find_add_none; try done.
  destruct Hor as [?|Hor]; [done|]. rewrite Hor in Hbs. destruct b; simpl in *; [done|].
  by rewrite orb_true_r in Hst.
Qed.

Lemma find_step_allow host hi used known osd s info s' :
  hi_inSpec hi = true →
  find_step c metas infos host hi used known osd s info = Some s' →
  fo_allow s' = true → fo_allow s = true ∧ ¬ block_in_spec used known osd info.
Proof.
  intros Hin Hf Ha. unfold find_step in Hf. apply bind_Some in Hf as (b & Hb & Hf).
  cbv zeta in Hf. rewrite Hin, andb_true_r in Hf. destruct b.
  - simplify_eq/=. revert Ha. unfold find_in_spec_host.
    destruct (inSpec info used "") as [[name devType] inspec] eqn:Hi. cbv zeta.
    assert (∀ (P : bool) (x y : find_state), fo_allow x = fo_allow y → fo_allow (if P then x else y) = fo_allow y)
      as Hif by (by intros []).
    rewrite Hif by done. destruct inspec; simpl.
    + destruct (decide (devType = "block")) as [->|Hne]; [done|]. intros ->. split; [done|].
      intros [_ [n Hn]]. congruence.
    + intros ->. split; [done|]. intros [_ [n Hn]]. congruence.
  - split; [|by intros [Hb' _]; congruence]. revert Hf.
    destruct (is_stray (fo_stray s) osd && _); simpl; intros Hf; simplify_eq/=; by rewrite find_add_allow in Ha.
Qed.

Lemma find_steps_allow host hi used known osd l s s' :
  hi_inSpec hi = true →
  foldo (find_step c metas infos host hi used known osd) s l = Some s' →
  fo_allow s' = true → fo_allow s = true ∧ ∀ info, info ∈ l → ¬ block_in_spec used known osd info.
Proof.
  intros Hin. revert s. induction l as [|i l IH]; intros s; simpl.
  { intros [= ->] Ha. split; [done|]. intros info Hi. by apply elem_of_nil in Hi. }
  intros (s1 & Hs1 & Hf)%bind_Some Ha. destruct (IH _ Hf Ha) as [Ha1 Hl].
  destruct (find_step_allow _ _ _ _ _ _ _ _ Hin Hs1 Ha1) as [Ha0 Hi]. split; [done|].
  intros info [->|?]%elem_of_cons; auto.
Qed.

(** A round of the loop touches only the entries of its own OSD. *)
Lemma find_expected_ne hi osd' expected s known osd :
  osd' ≠ osd → fo_map s !! osd = None →
  (find_expected hi osd' expected s known).1 !! osd = None ∧
  (find_expected hi osd' expected s known).2 !! osd = known !! osd.
Proof.
  intros Hne Hs. unfold find_expected. destruct (_ && _); [|done]. destruct (negb (fo_allow s)); simpl.
  - by rewrite lookup_delete_ne.
  - destruct (fo_map s !! osd'); simpl; [|done]. by rewrite lookup_insert_ne, lookup_delete_ne.
Qed.

Lemma find_osd_ne host hi used hs osd' l hs' osd :
  isStrayOsdID osd = false → osd' ≠ osd →
  find_osd c metas infos host hi used hs (osd', l) = Some hs' →
  fh_map hs !! osd = None →
  fh_map hs' !! osd = None ∧ fh_known hs' !! osd = fh_known hs !! osd.
Proof.
  intros Hns Hne Hf Hs. unfold find_osd in Hf.
  apply bind_Some in Hf as (cell & _ & Hf). apply bind_Some in Hf as (s & Hloop & Hf). cbv zeta in Hf.
  assert (fo_map s !! osd = None) as Hmap.
  { eapply (foldo_inv (λ s, fo_map s !! osd = None)); [| |exact Hloop]; [exact Hs|].
    intros i s1 s2 _ Hs1 Hi. eapply find_step_none; [done|by left|exact Hi|done]. }
  match type of Hf with context [find_expected _ _ _ ?s0 _] => set (s1 := s0) in Hf end.
  assert (fo_map s1 !! osd = None) as Hs1.
  { subst s1. destruct (hi_inSpec hi && fo_allow s); [|done]. simpl. by rewrite lookup_insert_ne. }
  destruct (find_expected_ne hi osd' (range 23 cell).*1 s1 (fh_known hs) osd Hne Hs1) as [Hm Hk].
  destruct (find_expected _ _ _ _ _). by simplify_eq/=.
Qed.

Lemma fillDevices_nonempty meta : fillDevicesInfoFromMetadata meta ≠ ∅.
Proof.
  unfold fillDevicesInfoFromMetadata. cbv zeta.
  assert (∀ byId l (m : gmap string DeviceInfo), m ≠ ∅ → fillDevicePathOrID byId m l ≠ ∅) as Hfill.
  { intros byId l m Hm. unfold fillDevicePathOrID. apply foldl_inv; [done|]. intros a m' _ Hm'.
    repeat case_match; try done; apply insert_non_empty. }
  apply Hfill, Hfill. case_decide; [apply insert_non_empty|].
  unfold singletonM, map_singleton. apply insert_non_empty.
Qed.

(** The round of an OSD with a volume on a block device of the spec: nothing is
    selected, and the OSD is not left for the ones the report does not show. *)
Lemma find_osd_kept host hi used hs osd l hs' info :
  isStrayOsdID osd = false → hi_inSpec hi = true → hi_inCrush hi = true →
  info ∈ l → block_in_spec used (fh_known hs) osd info →
  find_osd c metas infos host hi used hs (osd, l) = Some hs' →
  fh_map hs !! osd = None →
  fh_map hs' !! osd = None ∧ fh_known hs' !! osd = None.
Proof.
  intros Hns Hin Hcr Hinfo Hb Hf Hs. unfold find_osd in Hf. rewrite Hin, Hcr in Hf.
  destruct (fh_known hs !! osd) as [z|] eqn:Hk.
  2: { destruct Hb as [Hb _]. unfold checkFromCrush in Hb. rewrite Hk in Hb. done. }
  cbv iota in Hf. apply bind_Some in Hf as (cell & Hcell & Hf).
  apply bind_Some in Hcell as (meta & _ & [= Hcell]).
  apply bind_Some in Hf as (s & Hloop & Hf). cbv zeta in Hf.
  assert (fo_map s !! osd = None) as Hmap.
  { eapply (foldo_inv (λ s, fo_map s !! osd = None)); [| |exact Hloop]; [exact Hs|].
    intros i s1 s2 _ Hs1 Hi. eapply find_step_none; [done|by right|exact Hi|done]. }
  destruct (fo_allow s) eqn:Ha.
  { by destruct (proj2 (find_steps_allow _ _ _ _ _ _ _ _ Hin Hloop Ha) info Hinfo). }
  simpl in Hf. unfold find_expected in Hf. rewrite Hcr, Ha in Hf.
  rewrite bool_decide_eq_false_2 in Hf; simpl in Hf.
  - simplify_eq/=. by rewrite lookup_delete_eq.
  - intros Hnil. apply (fillDevices_nonempty meta). rewrite Hcell. apply map_empty. intros k.
    destruct (cell !! k) as [d|] eqn:Hd; [|done].
    assert (k ∈ (range 23 cell).*1) as Hin' by (apply (list_elem_of_fmap_2 fst _ (k, d)); by apply elem_of_range).
    rewrite Hnil in Hin'. by apply elem_of_nil in Hin'.
Qed.

Lemma block_in_spec_ext used known known' osd info :
  known !! osd = known' !! osd → block_in_spec used known osd info → block_in_spec used known' osd info.
Proof. intros Heq [Hb Hn]. split; [|done]. unfold checkFromCrush in *. by rewrite <-Heq. Qed.

Lemma find_loop_kept host hi used osd l info entries hs hs' :
  isStrayOsdID osd = false → hi_inSpec hi = true → hi_inCrush hi = true →
  info ∈ l → NoDup entries.*1 →
  foldo (find_osd c metas infos host hi used) hs entries = Some hs' →
  fh_map hs !! osd = None →
  ((osd, l) ∈ entries ∧ block_in_spec used (fh_known hs) osd info ∨ fh_known hs !! osd = None ∧ osd ∉ entries.*1) →
  fh_map hs' !! osd = None ∧ fh_known hs' !! osd = None.
Proof.
  intros Hns Hin Hcr Hinfo. revert hs. induction entries as [|[osd' l'] entries IH]; intros hs Hnd; simpl.
  { intros [= <-] Hs [[He _]|[Hk _]]; [by apply elem_of_nil in He|done]. }
  apply NoDup_cons in Hnd as [Hnot Hnd]. simpl in Hnot.
  intros (hs1 & Hs1 & Hf)%bind_Some Hs Hor. destruct (decide (osd' = osd)) as [->|Hne].
  - destruct Hor as [[[[= <-]|He]%elem_of_cons Hb]|[_ Hbad]].
    + destruct (find_osd_kept _ _ _ _ _ _ _ _ Hns Hin Hcr Hinfo Hb Hs1 Hs) as [??].
      eapply IH; try done. by right.
    + destruct Hnot. by apply (list_elem_of_fmap_2 fst _ (osd, l)).
    + destruct Hbad. left.
  - destruct (find_osd_ne _ _ _ _ _ _ _ _ Hns Hne Hs1 Hs) as [Hm1 Hk1].
    eapply IH; try done. destruct Hor as [[He Hb]|[Hk Hbad]]; [left|right].
    + split; [by apply elem_of_cons in He as [[= <-]|?]|]. by eapply block_in_spec_ext.
    + rewrite Hk1. split; [done|]. intros ?. apply Hbad. by right.
Qed.

Lemma find_lost_none known m m' osd :
  find_lost c metas infos known m = Some m' → known !! osd = None → m !! osd = None → m' !! osd = None.
Proof.
  intros Hf Hk Hm. eapply (foldo_inv (λ m, m !! osd = None)); [exact Hm| |exact Hf].
  intros [o z] m1 m2 Ho Hm1 He. apply elem_of_range in Ho. apply bind_Some in He as (meta & _ & [= <-]).
  rewrite lookup_insert_ne; [done|congruence].
Qed.

(** Without a list of nodes in the task the controller looks itself for OSDs
    to remove; on a node of the spec it never selects an OSD of the CRUSH map that
    has a volume on a block device the spec uses. *)
Theorem osd_in_spec_not_found host hi used hm report strays hm' w strays' osd l info :
  isStrayOsdID osd = false → hi_inSpec hi = true → hi_inCrush hi = true →
  osr_Osds report !! osd = Some l → info ∈ l →
  block_in_spec used (known_osds (hi_crushOsds hi)) osd info →
  hm_OsdMapping hm !! osd = None →
  find_report c metas infos host hi used hm report strays = Some (hm', w, strays') →
  hm_OsdMapping hm' !! osd = None.
Proof.
  intros Hns Hin Hcr Hrep Hinfo Hb Hhm Hf. unfold find_report in Hf.
  apply bind_Some in Hf as (hs & Hloop & Hf). apply bind_Some in Hf as (m & Hlost & Hf).
  destruct (find_loop_kept _ _ _ osd l info _ _ _ Hns Hin Hcr Hinfo (NoDup_range_keys _ _) Hloop) as [Hm Hk].
  { done. }
  { left. split; [by apply elem_of_range|done]. }
  assert (m !! osd = None) as Hm' by (by eapply find_lost_none).
  destruct (checkDeviceZapping host m _ _) as [z w0] eqn:Hz.
  assert (z !! osd = None) as Hzn.
  { change z with (z, w0).1. by rewrite <-Hz, checkDeviceZapping_lookup, Hm'. }
  destruct (decide (z = ∅)); by simplify_eq/=.
Qed.
End kept.
