(* ===== verification/SpecDemo.v ===== *)
(** * Validation on a small cluster

    A node of the spec with two OSDs: [0] lies on the device the spec uses, [1]
    on a device that was dropped from the spec.  The witnesses of the theorems on
    validation are instances at this cluster. *)

From S2P Require Import Prelude GoTime Types World Helpers TaskUtils Demo Executor SpecHandler Removal SpecFacts.
Open Scope Z_scope.

Definition demo_volume (osd dev lv : string) : OsdDaemonInfo :=
  mkOsdDaemonInfo ("uuid-" +:+ osd) "fsid"
    [mkOsdDevice dev ("id-" +:+ osd) ["/dev/disk/by-path/" +:+ osd] false lv "" false]
    [mkOsdPartition lv [] "block" true true].

Definition demo_meta (id : Z) (dev lv : string) : OsdMetadataInfo :=
  mkOsdMetadataInfo dev "" "" "node-1" dev "ssd" lv "0" "" "" "" id.

Definition demo_metas : list OsdMetadataInfo :=
  [demo_meta 0 "sdb" "/dev/vg/osd-0"; demo_meta 1 "sdc" "/dev/vg/osd-1"].
Definition demo_infos : list OsdInfo := [mkOsdInfo 0 "uuid-0" 1 1; mkOsdInfo 1 "uuid-1" 1 1].

Definition demo_osds_report : DiskDaemonOsdsReport :=
  mkOsdsReport [] {[ "0" := [demo_volume "0" "/dev/sdb" "/dev/vg/osd-0"];
                     "1" := [demo_volume "1" "/dev/sdc" "/dev/vg/osd-1"] ]}.

Definition demo_node : CephNode := mkCephNode "node-1" ∅ [mkCephDevice "sdb" "" ∅] "" "" false [].
Definition demo_k8s : list K8sNode := [mkK8sNode "node-1" {[ "role" := "storage" ]} ∅ []].
Definition demo_crush : gmap string (list Z) := {[ "node-1" := [0; 1] ]}.

Definition spec_cluster : demo_cluster :=
  mkDemo false 0 demo_infos demo_metas [] demo_k8s
    (mkDiskDaemonReport DiskDaemonStateOk "" [] None (Some demo_osds_report)) [] (mkJobStatus 0 0 1 []).

(** A task without nodes asks for the automatic detection. *)
Definition spec_config (nodes : option (gmap string NodeCleanUpSpec)) : cephOsdRemoveConfig :=
  mkConfig (demo_lcm)
    (mkTask "task" "pelagia" "uid" 0 [] (Some (mkTaskSpec nodes false false)) None)
    (mkCephCluster "cephcluster" "rook-ceph" 1 "1" false [demo_node] "" 3 2 ∅ demo_cluster_status)
    (mkSpecAnalysisState demo_ok (Some 1) {[ "node-1" := mkDaemonStatus DaemonStateOk [] [] ]}) None.

#[local] Existing Instance default_range.

Definition demo_validation (nodes : option (gmap string NodeCleanUpSpec)) : option TaskRemoveInfo :=
  (@getOsdsForCleanup (demo_world spec_cluster) default_range (spec_config nodes) demo_metas demo_infos
     demo_crush demo_k8s []).1.

(** The host as the controller sees it. *)
Definition demo_host_info : osdHostInfo := mkHostInfo true 0 true [0; 1] true true.
Definition demo_used : usedDevices := getListUsedDevices demo_node.

(** Only the OSD whose device left the spec is selected, with its device. *)
Example demo_validation_auto :
  (ri ← demo_validation None; hm ← ri_CleanupMap ri !! "node-1";
   Some ((λ om, fst <$> map_to_list (om_DeviceMapping om)) <$> hm_OsdMapping hm)) =
  Some {[ "1" := ["/dev/sdc"] ]}.
Proof. vm_compute. reflexivity. Qed.

Lemma validation_starts_removal_witness :
  ∃ ri, demo_validation None = Some ri ∧ @reach (demo_world spec_cluster) default_range ri.
Proof.
  destruct (demo_validation None) as [ri|] eqn:Hri; [|vm_compute in Hri; discriminate].
  exists ri. split; [reflexivity|].
  exact (@validation_starts_removal (demo_world spec_cluster) default_range (spec_config None) demo_metas demo_infos
    demo_crush demo_k8s [] ri Hri).
Defined.

Lemma spec_hosts_never_dropped_witness :
  ∃ ri hm, demo_validation None = Some ri ∧ ri_CleanupMap ri !! "node-1" = Some hm ∧
    hm_CompleteCleanup hm = false.
Proof.
  destruct (demo_validation None) as [ri|] eqn:Hri; [|vm_compute in Hri; discriminate].
  destruct (ri_CleanupMap ri !! "node-1") as [hm|] eqn:Hhm.
  2: { exfalso. assert ((ri ← demo_validation None; ri_CleanupMap ri !! "node-1") = None) as Hn
         by (rewrite Hri; exact Hhm). vm_compute in Hn. discriminate. }
  exists ri, hm. split; [reflexivity|]. split; [exact Hhm|].
  apply (proj1 (@spec_hosts_never_dropped (demo_world spec_cluster) default_range (spec_config None) demo_metas
    demo_infos demo_crush demo_k8s [] ri "node-1" hm Hri Hhm)); [left|discriminate].
Defined.

Lemma zap_exactly_when_safe_witness :
  ∃ z, (om' ← (checkDeviceZapping "node-1" (hm_OsdMapping (demo_host None None)) ∅ false).1 !! "0";
        om_DeviceMapping om' !! "/dev/sdb") = Some (set_di_Zap z (demo_device false)) ∧
       (z = true ↔ may_zap ∅ false (demo_osd None) "/dev/sdb" (demo_device false)).
Proof.
  destruct (zap_exactly_when_safe "node-1" ∅ false
    {[ "0" := mkOsdMapping "" "" "" true {[ "/dev/sdb" := demo_device false ]} false None ]} "0"
    (mkOsdMapping "" "" "" true {[ "/dev/sdb" := demo_device false ]} false None) "/dev/sdb" (demo_device false))
    as (z & Hz & Hiff); [vm_compute; reflexivity..|].
  exists z. split; [|exact Hiff]. rewrite <-Hz. vm_compute. reflexivity.
Defined.

(** The metadata of an OSD that Ceph did not report: the one of another OSD. *)
Lemma metadata_lookup_witness : meta_at demo_metas 7 = Some (demo_meta 0 "sdb" "/dev/vg/osd-0").
Proof.
  rewrite (proj2 (metadata_lookup demo_metas 7)); [reflexivity|].
  intros Hin. vm_compute in Hin. mem_inv Hin; discriminate Hin.
Defined.

Lemma validation_never_panics_witness : is_Some (demo_validation None).
Proof.
  apply (@validation_never_panics (demo_world spec_cluster) default_range (spec_config None) demo_metas demo_infos).
  discriminate.
Defined.

Lemma demo_block_in_spec :
  @block_in_spec (demo_world spec_cluster) default_range (spec_config None) demo_metas demo_infos demo_used
    (known_osds [0; 1]) "0" (demo_volume "0" "/dev/sdb" "/dev/vg/osd-0").
Proof. split; [vm_compute; reflexivity|]. exists "/dev/sdb". vm_compute. reflexivity. Qed.

Lemma osd_in_spec_not_removed_by_id_witness :
  ∃ st', @byosd_branch (demo_world spec_cluster) default_range (spec_config None) demo_metas demo_infos "node-1"
           (mkNodeCleanUpSpec false false false [] [mkOsdCleanupSpec 0 false; mkOsdCleanupSpec 1 false])
           demo_host_info demo_used (known_osds [0; 1]) demo_osds_report (mkHState ∅ ∅ [] ∅) = Some st' ∧
         hs_map st' !! "0" = None ∧ is_Some (hs_map st' !! "1").
Proof.
  eexists. split; [vm_compute; reflexivity|]. split; [|vm_compute; eexists; reflexivity].
  eapply (@osd_in_spec_not_removed_by_id (demo_world spec_cluster) default_range (spec_config None) demo_metas
    demo_infos "node-1"
    (mkNodeCleanUpSpec false false false [] [mkOsdCleanupSpec 0 false; mkOsdCleanupSpec 1 false])
    demo_host_info demo_used (known_osds [0; 1]) demo_osds_report (mkHState ∅ ∅ [] ∅) _ "0"
    (demo_volume "0" "/dev/sdb" "/dev/vg/osd-0")); [reflexivity| |exact demo_block_in_spec|reflexivity|vm_compute; reflexivity].
  vm_compute. mem.
Defined.

Lemma osd_in_spec_not_found_witness :
  ∃ hm w s, @find_report (demo_world spec_cluster) default_range (spec_config None) demo_metas demo_infos "node-1"
      demo_host_info demo_used zero_HostMapping demo_osds_report ∅ = Some (hm, w, s) ∧
    hm_OsdMapping hm !! "0" = None ∧ is_Some (hm_OsdMapping hm !! "1").
Proof.
  do 3 eexists. split; [vm_compute; reflexivity|]. split; [|vm_compute; eexists; reflexivity].
  eapply (@osd_in_spec_not_found (demo_world spec_cluster) default_range (spec_config None) demo_metas demo_infos
    "node-1" demo_host_info demo_used zero_HostMapping demo_osds_report ∅ _ _ _ "0" _
    (demo_volume "0" "/dev/sdb" "/dev/vg/osd-0"));
    [reflexivity|reflexivity|reflexivity|vm_compute; reflexivity|left|exact demo_block_in_spec|reflexivity|
     vm_compute; reflexivity].
Defined.
