(* ===== verification/Lifecycle.v ===== *)
(** * The life of a task

    The state machine of a task, stated on statuses ([task_move]), and the proof
    that [handleTask] implements it; what a reconcile round may write and do; and
    what follows for every status a task can get through any number of rounds
    ([lifecycle]). *)

From S2P Require Import Prelude GoTime Types HealthTypes World Helpers TaskUtils CleanupJob Executor ExecutorFacts ExecutorPass Removal SpecHandler SpecFacts Processer Controller.
Open Scope Z_scope.

(** ** The abstract machine *)

(** The status after a phase change, and after an abort. *)
Definition moved_status (c : cephOsdRemoveConfig) (ph : TaskPhase) (reason : string)
    (ri : option TaskRemoveInfo) (now : string) : CephOsdRemoveTaskStatus :=
  let st := cur_task_status (c_task c) in
  mkTaskStatus ph reason ri
    (st_Messages st ++ ["cephosdremovetask moved to '" +:+ TaskPhase_str ph +:+ "' phase: " +:+ reason])
    (st_Conditions st ++
     [mkCondition now ph (current_nodes (c_task c))
        (Some (mkSpecVersion (cc_ResourceVersion (c_cephCluster c)) (cc_Generation (c_cephCluster c))))]).

Definition aborted_status (st : CephOsdRemoveTaskStatus) (reason now : string) : CephOsdRemoveTaskStatus :=
  mkTaskStatus TaskPhaseAborted reason (st_RemoveInfo st) (st_Messages st ++ [reason])
    (st_Conditions st ++ [mkCondition now TaskPhaseAborted None None]).

Definition init_status (task : CephOsdRemoveTask) (now : string) : CephOsdRemoveTaskStatus :=
  mkTaskStatus TaskPhasePending "initializing" None ["initiated"]
    [mkCondition now TaskPhasePending
       (nodes ← current_nodes task; if decide (nodes = ∅) then None else Some nodes) None].

(** The phase of a task whose removal has ended. *)
Definition final_phase (ri : TaskRemoveInfo) : TaskPhase :=
  match ri_Issues ri, ri_Warnings ri with
  | [], [] => TaskPhaseCompleted
  | [], _ => TaskPhaseCompletedWithWarnings
  | _, _ => TaskPhaseFailed
  end.

(** Some answer of the API server reported the operator scaled down. *)
Definition operator_stopped `{World} (ns : string) : Prop :=
  ∃ h, w_deploy_get h ns RookCephOperatorName = (mkDeploymentStatus 0 0 0, None).

(** The result of one pass of the executor. *)
Definition after_pass `{World} `{MapRange} (c : cephOsdRemoveConfig) (ri ri' : TaskRemoveInfo) (finished : bool)
    : Prop :=
  ∃ rq h, (processOsdRemoveTask c ri rq h).1.1 = (finished, ri').

(** The moves of a task in one round; [approved] and the changes of the spec are
    those of the round. *)
Inductive task_move `{World} `{MapRange} (c : cephOsdRemoveConfig) (st : CephOsdRemoveTaskStatus)
    : CephOsdRemoveTaskStatus → Prop :=
| tm_stay : task_move c st st
| tm_validate reason now :
    st_Phase st = TaskPhasePending →
    task_move c st (moved_status c TaskPhaseValidating reason None now)
| tm_invalid ri reason now :
    st_Phase st = TaskPhaseValidating → fresh ri → ri_Issues ri ≠ [] →
    task_move c st (moved_status c TaskPhaseValidationFailed reason (Some ri) now)
| tm_nothing ri reason now :
    st_Phase st = TaskPhaseValidating → ri_Issues ri = [] → ri_CleanupMap ri = ∅ →
    task_move c st (moved_status c TaskPhaseCompleted reason (Some ri) now)
| tm_validated ri reason now :
    st_Phase st = TaskPhaseValidating → fresh ri → ri_Issues ri = [] → ri_CleanupMap ri ≠ ∅ →
    approved (c_task c) = false →
    task_move c st (moved_status c TaskPhaseApproveWaiting reason (Some ri) now)
| tm_preapproved ri reason now :
    st_Phase st = TaskPhaseValidating → fresh ri → ri_Issues ri = [] → ri_CleanupMap ri ≠ ∅ →
    approved (c_task c) = true →
    task_move c st (moved_status c TaskPhaseWaitingOperator reason (Some ri) now)
| tm_approved reason now :
    st_Phase st = TaskPhaseApproveWaiting → approved (c_task c) = true →
    task_move c st (moved_status c TaskPhaseWaitingOperator reason (st_RemoveInfo st) now)
| tm_revalidate latest reason now :
    st_Phase st = TaskPhaseApproveWaiting → approved (c_task c) = false →
    last (st_Conditions st) = Some latest → specChanges c latest ≠ [] →
    task_move c st (moved_status c TaskPhaseValidating reason None now)
| tm_changed latest reason now :
    st_Phase st = TaskPhaseWaitingOperator →
    last (st_Conditions st) = Some latest → specChanges c latest ≠ [] →
    task_move c st (moved_status c TaskPhaseAborted reason None now)
| tm_process latest reason now :
    st_Phase st = TaskPhaseWaitingOperator →
    last (st_Conditions st) = Some latest → specChanges c latest = [] →
    operator_stopped (cc_Namespace (c_cephCluster c)) →
    task_move c st (moved_status c TaskPhaseProcessing reason (st_RemoveInfo st) now)
| tm_pass ri ri' :
    st_Phase st = TaskPhaseProcessing → st_RemoveInfo st = Some ri → after_pass c ri ri' false →
    task_move c st (set_st_RemoveInfo (Some ri') st)
| tm_done ri ri' reason now :
    st_Phase st = TaskPhaseProcessing → st_RemoveInfo st = Some ri → after_pass c ri ri' true →
    task_move c st (moved_status c (final_phase ri') reason (Some ri') now)
| tm_lost ri reason now :
    st_Phase st = TaskPhaseProcessing → st_RemoveInfo st = None → ri_CleanupMap ri = ∅ →
    task_move c st (moved_status c TaskPhaseFailed reason (Some ri) now)
| tm_broken reason now :
    st_Conditions st = [] → task_move c st (aborted_status st reason now).
Create HintDb task discriminated.
#[export] Hint Constructors task_move : task.

(** Interactions that change nothing in the cluster and no status: queries,
    waiting, and writing or deleting a task object. *)
Definition harmless (e : event) : Prop :=
  match e with
  | EvCeph _ cmd => cmd ∈ ["ceph osd tree -f json"; "ceph osd metadata -f json"; "ceph osd info -f json"]
  | EvDeployScale _ _ _ | EvDeployDelete _ _ | EvJobDelete _ _ | EvJobCreate _ | EvTaskStatusUpdate _ _ _ => False
  | _ => True
  end.

Lemma report_harmless e : report_event e → harmless e.
Proof. by destruct e. Qed.

(** ** [handleTask] implements the machine *)

Section handle.
Context `{World} `{MapRange} (c : cephOsdRemoveConfig).
Let st := cur_task_status (c_task c).

Section events.
Variable P : event → Prop.
Hypothesis Pharmless : ∀ e, harmless e → P e.

Lemma clock_harmless : spec P GetCurrentTimeString (λ _, True).
Proof using Pharmless. apply spec_call; [by apply Pharmless|done]. Qed.

Lemma moveTaskPhase_spec ph reason ri :
  spec P (moveTaskPhase c ph reason ri) (λ s, ∃ now, s = moved_status c ph reason ri now).
Proof using Pharmless.
  unfold moveTaskPhase. apply spec_bind_any; [apply clock_harmless|]. intros now. apply spec_ret. by exists now.
Qed.

Lemma prepareAbortStatus_spec st0 reason :
  spec P (prepareAbortStatus st0 reason) (λ s, ∃ now, s = aborted_status st0 reason now).
Proof using Pharmless.
  unfold prepareAbortStatus. apply spec_bind_any; [apply clock_harmless|]. intros now. apply spec_ret. by exists now.
Qed.

(** A phase change at the end of a case of [handleTask]. *)
Lemma move_then_spec {A} ph reason ri (f : CephOsdRemoveTaskStatus → A) (Q : A → Prop) :
  (∀ now, Q (f (moved_status c ph reason ri now))) →
  spec P (let* s := moveTaskPhase c ph reason ri in ret (f s)) Q.
Proof using Pharmless.
  intros HQ. eapply spec_bind; [apply moveTaskPhase_spec|]. intros s [now ->]. by apply spec_ret.
Qed.

Lemma query_or_issue_spec {A} what (m : IO (A * option err)) k :
  spec P m (λ _, True) →
  (∀ a, spec P (k a) (λ r, ∀ ri, r = Some ri → fresh ri)) →
  spec P (query_or_issue what m k) (λ r, ∀ ri, r = Some ri → fresh ri).
Proof using.
  intros Hm Hk. apply spec_bind_any; [done|]. intros [a [e|]]; [|apply Hk].
  apply spec_ret. intros ri [= <-] p om (hm & Hhm & _)%bind_Some. simpl in Hhm.
  by rewrite lookup_empty in Hhm.
Qed.

Lemma ceph_query_harmless {A} (zero : A) decode ns cmd :
  harmless (EvCeph ns cmd) → spec P (RunAndParseCephToolboxCLI zero decode ns cmd) (λ _, True).
Proof using Pharmless. intros Hc. apply RunAndParseCephToolboxCLI_spec. by apply Pharmless. Qed.

Lemma validateTask_spec : spec P (validateTask c) (λ r, ∀ ri, r = Some ri → fresh ri).
Proof using Pharmless.
  unfold validateTask. apply query_or_issue_spec.
  { unfold getOsdHostsFromCluster. apply spec_bind_any; [apply ceph_query_harmless; simpl; mem|].
    intros [? [?|]]; by apply spec_ret. }
  intros hosts. apply query_or_issue_spec; [apply ceph_query_harmless; simpl; mem|].
  intros metas. apply query_or_issue_spec; [apply spec_call; [by apply Pharmless|done]|].
  intros nodes. apply query_or_issue_spec; [apply ceph_query_harmless; simpl; mem|].
  intros infos. eapply spec_weaken; [apply getOsdsForCleanup_fresh| |done].
  intros e He. by apply Pharmless, report_harmless.
Qed.
End events.

(** The interactions of a round: only a task in the processing phase does more
    than query, and this only as a pass over its remove info may. *)
Definition round_event (e : event) : Prop :=
  harmless e ∨
  st_Phase st = TaskPhaseProcessing ∧ ∃ ri, st_RemoveInfo st = Some ri ∧ pass_event c (collected ri) e.

Hypothesis Hreach : ∀ ri, st_Phase st = TaskPhaseProcessing → st_RemoveInfo st = Some ri → reach ri.

Lemma round_harmless e : harmless e → round_event e.
Proof. by left. Qed.

Definition moves (r : option (CephOsdRemoveTaskStatus * bool)) : Prop :=
  ∀ s rq, r = Some (s, rq) → task_move c st s.
Definition moves' (r : CephOsdRemoveTaskStatus * bool) : Prop := task_move c st r.1.

Lemma spec_some (m : IO (CephOsdRemoveTaskStatus * bool)) :
  spec round_event m moves' → spec round_event (let* s := m in ret (Some s)) moves.
Proof.
  intros Hm. eapply spec_bind; [apply Hm|]. intros [s rq] Hs. apply spec_ret. intros ?? [= -> ->]. exact Hs.
Qed.

Lemma handle_validating_spec rq :
  st_Phase st = TaskPhaseValidating → spec round_event (handle_validating c rq) moves.
Proof.
  intros Hph. unfold handle_validating. fold st.
  assert (∀ rq, moves (Some (st, rq))) as Hstay by (intros ??? [= <- _]; constructor).
  destruct (negb _); [apply spec_ret, Hstay|].
  destruct (osa_CephClusterSpecGeneration _); [|by apply spec_ret].
  destruct (decide _); [|apply spec_ret, Hstay].
  eapply spec_bind; [apply validateTask_spec, round_harmless|].
  intros [ri|] Hri; [|by apply spec_ret]. specialize (Hri ri eq_refl).
  apply spec_some. unfold validation_outcome.
  destruct (ri_Issues ri) eqn:Hi; [destruct (decide (ri_CleanupMap ri = ∅)); [|destruct (approved (c_task c)) eqn:Ha]|];
    apply move_then_spec; try apply round_harmless; intros now; unfold moves'; simpl; eauto with task.
  apply tm_invalid; [done..|by rewrite Hi].
Qed.

Lemma handle_approve_waiting_spec latest rq :
  st_Phase st = TaskPhaseApproveWaiting → last (st_Conditions st) = Some latest →
  spec round_event (handle_approve_waiting c latest rq) moves'.
Proof.
  intros Hph Hl. unfold handle_approve_waiting. fold st. destruct (approved (c_task c)) eqn:Ha.
  - apply move_then_spec; [apply round_harmless|]. intros now. unfold moves'; simpl; eauto with task.
  - destruct (specChanges c latest) eqn:Hc; [apply spec_ret; constructor|].
    apply move_then_spec; [apply round_harmless|]. intros now. apply (tm_revalidate _ _ latest); try done. by rewrite Hc.
Qed.

Lemma checkOperatorStopped_spec :
  spec round_event (checkOperatorStopped c)
    (λ b, b = true → operator_stopped (cc_Namespace (c_cephCluster c))).
Proof.
  unfold checkOperatorStopped. eapply spec_bind; [by apply spec_call_eq, round_harmless|].
  intros [[a b d] [e|]] [h Hh]; apply spec_ret; [done|]. simpl.
  intros [[Ha%Z.eqb_eq Hb%Z.eqb_eq]%andb_true_iff Hd%Z.eqb_eq]%andb_true_iff. exists h. by subst.
Qed.

Lemma handle_waiting_operator_spec latest rq :
  st_Phase st = TaskPhaseWaitingOperator → last (st_Conditions st) = Some latest →
  spec round_event (handle_waiting_operator c latest rq) moves'.
Proof.
  intros Hph Hl. unfold handle_waiting_operator. fold st. destruct (specChanges c latest) eqn:Hc.
  - eapply spec_bind; [apply checkOperatorStopped_spec|]. intros [|] Hs; [|apply spec_ret; constructor].
    apply move_then_spec; [apply round_harmless|]. intros now. apply (tm_process _ _ latest); auto.
  - apply move_then_spec; [apply round_harmless|]. intros now. apply (tm_changed _ _ latest); try done. by rewrite Hc.
Qed.

Lemma processTask_spec rq :
  st_Phase st = TaskPhaseProcessing →
  spec round_event (processTask c rq)
    (λ r, match st_RemoveInfo st with
          | Some ri => after_pass c ri r.1.2 r.1.1
          | None => r.1.1 = true ∧ ri_CleanupMap r.1.2 = ∅ ∧ ri_Issues r.1.2 ≠ []
          end).
Proof.
  intros Hph. pose proof (λ ri, Hreach ri Hph) as Hr. clear Hreach.
  unfold processTask. fold st. destruct (st_RemoveInfo st) as [ri|] eqn:Hri; [|by apply spec_ret].
  intros h. split; [|eapply Forall_impl; [apply (reach_pass_spec c ri rq (Hr ri eq_refl) h)|];
    intros e He; right; eauto].
  exists rq, h. by destruct (processOsdRemoveTask c ri rq h).1 as [[??]?].
Qed.

Lemma handle_processing_spec rq :
  st_Phase st = TaskPhaseProcessing → spec round_event (handle_processing c rq) moves'.
Proof.
  intros Hph. pose proof (processTask_spec rq Hph) as Hproc. clear Hreach. unfold handle_processing. fold st. eapply spec_bind; [exact Hproc|].
  intros [[finished ri'] rq'] Hr. simpl in Hr. destruct (st_RemoveInfo st) as [ri|] eqn:Hri; simpl in Hr.
  - destruct finished; simpl; [|apply spec_ret; unfold moves'; simpl; by eapply tm_pass].
    assert (∀ ph reason, final_phase ri' = ph →
              spec round_event (let* s := moveTaskPhase c ph reason (Some ri') in ret (s, rq')) moves') as Hdone.
    { intros ph reason <-. apply move_then_spec; [apply round_harmless|]. intros now. unfold moves'. by eapply tm_done. }
    unfold final_phase in Hdone. destruct (ri_Issues ri'), (ri_Warnings ri'); by apply Hdone.
  - destruct Hr as (-> & Hm & Hi). simpl. destruct (ri_Issues ri'); [done|].
    apply move_then_spec; [apply round_harmless|]. intros now. by apply tm_lost.
Qed.

Lemma handleTask_spec : spec round_event (handleTask c) moves.
Proof.
  pose proof handle_processing_spec as Hproc. clear Hreach.
  unfold handleTask. fold st. destruct (last (st_Conditions st)) as [latest|] eqn:Hl.
  2: { eapply spec_bind; [apply prepareAbortStatus_spec, round_harmless|]. intros s [now ->].
       apply spec_ret. intros ?? [= <- _]. apply tm_broken. by apply last_None in Hl. }
  destruct (st_Phase st) eqn:Hph; try (apply spec_ret; intros ?? [= <- _]; constructor).
  - by apply spec_some, handle_approve_waiting_spec.
  - apply (move_then_spec _ round_harmless _ _ _ (λ s, Some (s, true))).
    intros now ?? [= <- _]. by apply tm_validate.
  - by apply spec_some, handle_waiting_operator_spec.
  - by apply spec_some, Hproc.
  - by apply handle_validating_spec.
Qed.
End handle.

(** ** What a reconcile round writes and does *)

(** The task list showed the task of the request as the oldest active one. *)
Definition selected `{World} (r : request) : Prop :=
  ∃ h tasks, w_task_list h (req_Namespace r) = (tasks, None) ∧ getOldestCephOsdRemoveTaskName tasks = req_Name r.

Definition external_cluster `{World} : Prop :=
  ∃ h ns name cl, w_cluster_get h ns name = (cl, None) ∧ cc_External cl = true.

(** [writes r t s]: a round for [r] that has read the task [t] may store the
    status [s]. *)
Inductive writes `{World} `{MapRange} (r : request) (t : CephOsdRemoveTask) : CephOsdRemoveTaskStatus → Prop :=
| wr_init now : task_Status t = None → writes r t (init_status t now)
| wr_info st msg : task_Status t = Some st → writes r t (set_st_PhaseInfo msg st)
| wr_abort st reason now :
    task_Status t = Some st → checkTaskActive (Some st) = true ∨ external_cluster →
    writes r t (aborted_status st reason now)
| wr_handle c st s :
    task_Status t = Some st → selected r →
    c_task c = set_task_Status (Some (set_st_PhaseInfo "" st)) t →
    cc_External (c_cephCluster c) = false →
    task_move c (set_st_PhaseInfo "" st) s → writes r t s.

(** The interactions of a round that has read [t]. *)
Definition reconcile_event `{World} `{MapRange} (r : request) (t : CephOsdRemoveTask) (e : event) : Prop :=
  match e with
  | EvTaskStatusUpdate _ _ s => writes r t s
  | _ =>
      harmless e ∨
      selected r ∧ ∃ st ri c, task_Status t = Some st ∧ st_Phase st = TaskPhaseProcessing ∧
        st_RemoveInfo st = Some ri ∧ pass_event c (collected ri) e
  end.

Section reconcile.
Context `{World} `{MapRange} (r : request) (t : CephOsdRemoveTask).
Let P := reconcile_event r t.

Lemma harmless_reconcile e : harmless e → reconcile_event r t e.
Proof. intros He. unfold reconcile_event. destruct e; by first [left|destruct He]. Qed.

Lemma pass_reconcile st ri c e :
  selected r → task_Status t = Some st → st_Phase st = TaskPhaseProcessing → st_RemoveInfo st = Some ri →
  pass_event c (collected ri) e → reconcile_event r t e.
Proof.
  intros Hsel Hst Hph Hri He. assert (harmless e ∨ selected r ∧ ∃ st ri c, task_Status t = Some st ∧
    st_Phase st = TaskPhaseProcessing ∧ st_RemoveInfo st = Some ri ∧ pass_event c (collected ri) e) as Hor
    by (right; eauto 10).
  by destruct He.
Qed.

Lemma updateStatus_spec s : writes r t s → spec P (updateCephOsdRemoveTaskStatus r s) (λ _, True).
Proof.
  intros Hs. unfold updateCephOsdRemoveTaskStatus. apply spec_bind_any; [by apply spec_call; [left|]|].
  intros [t' [e|]]; [by apply spec_ret|]. apply spec_bind_any; [|intros; by apply spec_ret].
  apply spec_bind_any; [by apply spec_call|]. intros; by apply spec_ret.
Qed.

Lemma write_status_spec s ok : writes r t s → spec P (write_status r s ok) (λ _, True).
Proof.
  intros Hs. apply spec_bind_any; [by apply updateStatus_spec|]. intros [e|]; by apply spec_ret.
Qed.

Lemma write_phase_info_spec st msg :
  task_Status t = Some st → spec P (write_phase_info r (set_st_PhaseInfo "" st) msg) (λ _, True).
Proof.
  intros Hst. apply spec_bind_any; [|intros; by apply spec_ret]. apply updateStatus_spec.
  by apply (wr_info r t st msg).
Qed.

Lemma abort_spec st reason ok :
  task_Status t = Some st → checkTaskActive (Some st) = true ∨ external_cluster →
  spec P (let* s := prepareAbortStatus (set_st_PhaseInfo "" st) reason in write_status r s ok) (λ _, True).
Proof.
  intros Hst Hor. eapply spec_bind.
  - apply spec_bind_any; [by apply spec_call; [left|]|]. intros now. apply spec_ret.
    by apply (wr_abort r t st reason now).
  - intros s Hs. by apply write_status_spec.
Qed.

Lemma some_result_spec (m : IO reconcile_result) : spec P m (λ _, True) → spec P (some_result m) (λ _, True).
Proof. intros Hm. apply spec_bind_any; [done|]. intros; by apply spec_ret. Qed.

Hypothesis Hreach :
  ∀ st ri, task_Status t = Some st → st_Phase st = TaskPhaseProcessing → st_RemoveInfo st = Some ri → reach ri.

Lemma reconcile_handle_spec lcm st cl analysis name :
  task_Status t = Some st → selected r → cc_External cl = false →
  spec P (reconcile_handle r lcm (set_task_Status (Some (set_st_PhaseInfo "" st)) t) (set_st_PhaseInfo "" st)
            cl analysis name) (λ _, True).
Proof.
  intros Hst Hsel Hext. unfold reconcile_handle. apply spec_bind_any; [by apply spec_call; [left|]|].
  intros d. cbv zeta.
  match goal with |- spec _ (match ?x with _ => _ end) _ => destruct x as [phase|] end; [|by apply spec_ret].
  set (c := mkConfig _ _ _ _ _). eapply spec_bind.
  - eapply spec_weaken; [apply handleTask_spec| |intros x Hx; exact Hx]; fold c.
    + intros ri Hph Hri. by apply (Hreach st ri Hst).
    + intros e [He|(Hph & ri & Hri & He)]; [by apply harmless_reconcile|by eapply pass_reconcile].
  - intros [[s rq]|] Hm; [|by apply spec_ret]. specialize (Hm s rq eq_refl).
    case_decide; [by apply spec_ret|]. apply some_result_spec, write_status_spec. by eapply (wr_handle r t c st).
Qed.

Lemma query_spec {A} (e : event) (f : history → A) :
  harmless e → spec P (call e f) (λ a, ∃ h, a = f h).
Proof. intros He. by apply spec_call_eq, harmless_reconcile. Qed.

Lemma reconcile_checks_spec lcm st health :
  task_Status t = Some st →
  spec P (reconcile_checks r lcm (set_task_Status (Some (set_st_PhaseInfo "" st)) t) (set_st_PhaseInfo "" st) health)
    (λ _, True).
Proof.
  intros Hst. unfold reconcile_checks. eapply spec_bind; [by apply query_spec|].
  intros [cl [e|]] [h Hcl]; [by apply spec_ret|].
  destruct (cc_External cl) eqn:Hext.
  { apply some_result_spec, abort_spec; [done|]. right. exists h. eauto. }
  case_decide; [by apply some_result_spec, write_phase_info_spec|].
  destruct (negb _); [by apply some_result_spec, write_phase_info_spec|].
  destruct (chd_OsdAnalysis health) as [[dd [g|] an]|]; try by apply some_result_spec, write_phase_info_spec.
  eapply spec_bind; [by apply query_spec|]. intros [tasks [e|]] [h' Hl]; [by apply spec_ret|].
  case_decide; [|by apply some_result_spec, write_phase_info_spec].
  apply reconcile_handle_spec; [done| |done]. by exists h', tasks.
Qed.

Lemma reconcile_task_spec lcm : spec P (reconcile_task lcm r t) (λ _, True).
Proof.
  pose proof (reconcile_checks_spec lcm) as Hchecks. clear Hreach.
  unfold reconcile_task. destruct (task_Status t) as [st|] eqn:Hst.
  2: { apply some_result_spec. eapply spec_bind.
       - apply spec_bind_any; [by apply spec_call; [left|]|]. intros now. apply spec_ret.
         apply (wr_init r t now), Hst.
       - intros s Hs. by apply write_status_spec. }
  apply spec_bind_any; [eapply spec_any; by apply query_spec|]. intros [hl [e|]]; [by destruct hl as [|? []]; apply spec_ret|].
  assert (∀ n, spec P (some_result (handle_health_count r (set_st_PhaseInfo "" st) n)) (λ _, True)) as Hcount.
  { intros n. apply some_result_spec. unfold handle_health_count. destruct (1 <? n)%nat.
    - destruct (checkTaskActive _) eqn:Ha; [|by apply spec_ret]. apply abort_spec; [done|]. by left.
    - apply spec_bind_any; [eapply spec_any; by apply query_spec|]. intros [e|]; by apply spec_ret. }
  destruct hl as [|health [|]]; [apply Hcount| |apply Hcount].
  destruct (GetObjectOwnerRef _ _ _) as [refs [e|]]; [by apply spec_ret|].
  case_decide; [by apply Hchecks|].
  apply spec_bind_any; [eapply spec_any; by apply query_spec|]. intros; by apply spec_ret.
Qed.

Lemma Reconcile_events lcm h :
  w_task_get h (req_Namespace r) (req_Name r) = (t, None) →
  Forall (reconcile_event r t) (Reconcile lcm r h).2.
Proof.
  intros Ht. unfold Reconcile, mbind', get_task, call. simpl. rewrite Ht. constructor; [by left|].
  apply (reconcile_task_spec lcm).
Qed.
End reconcile.

(** ** All statuses of a task *)

(** [lifecycle tr st]: a task can get to the status [st] (none at first) by
    rounds of the controller that have read the tasks [tr], newest first.
    Between the rounds the spec of the task, the cluster and the configuration
    may change in any way. *)
Inductive lifecycle `{World} `{MapRange} : list CephOsdRemoveTask → option CephOsdRemoveTaskStatus → Prop :=
| life_new : lifecycle [] None
| life_round tr lcm r h t ns name s :
    lifecycle tr (task_Status t) →
    w_task_get h (req_Namespace r) (req_Name r) = (t, None) →
    EvTaskStatusUpdate ns name s ∈ (Reconcile lcm r h).2 →
    lifecycle (t :: tr) (Some (stored_status s)).

(** The phase that may follow a phase. *)
Definition next_phases (ph : TaskPhase) : list TaskPhase :=
  match ph with
  | TaskPhasePending => [TaskPhaseValidating; TaskPhaseAborted]
  | TaskPhaseValidating =>
      [TaskPhaseValidationFailed; TaskPhaseCompleted; TaskPhaseApproveWaiting; TaskPhaseWaitingOperator;
       TaskPhaseAborted]
  | TaskPhaseApproveWaiting => [TaskPhaseWaitingOperator; TaskPhaseValidating; TaskPhaseAborted]
  | TaskPhaseWaitingOperator => [TaskPhaseProcessing; TaskPhaseAborted]
  | TaskPhaseProcessing =>
      [TaskPhaseCompleted; TaskPhaseCompletedWithWarnings; TaskPhaseFailed; TaskPhaseAborted]
  | _ => [TaskPhaseAborted]
  end.

(** The conditions record a run of the machine that ends in the phase [ph]. *)
Inductive phase_run : list TaskPhase → TaskPhase → Prop :=
| run_start : phase_run [TaskPhasePending] TaskPhasePending
| run_next l a b : phase_run l a → b ∈ next_phases a → phase_run (l ++ [b]) b.

Definition same_targets (s0 s : CephOsdRemoveTaskStatus) : Prop :=
  static <$> st_RemoveInfo s0 = static <$> st_RemoveInfo s.

(** A round saw the approval: with the approval set from the start the round that
    validated the task, otherwise a round that showed exactly what is going to be
    removed. *)
Definition approval (tr : list CephOsdRemoveTask) (s : CephOsdRemoveTaskStatus) : Prop :=
  ∃ t s0, t ∈ tr ∧ approved t = true ∧ task_Status t = Some s0 ∧
    (st_Phase s0 = TaskPhaseValidating ∨ st_Phase s0 = TaskPhaseApproveWaiting ∧ same_targets s0 s).

(** What the remove info of a task is in each phase. *)
Definition info_inv `{World} `{MapRange} (s : CephOsdRemoveTaskStatus) : Prop :=
  match st_Phase s with
  | TaskPhasePending | TaskPhaseValidating => st_RemoveInfo s = None
  | TaskPhaseApproveWaiting | TaskPhaseWaitingOperator =>
      ∃ ri, st_RemoveInfo s = Some ri ∧ fresh ri ∧ ri_Issues ri = [] ∧ ri_CleanupMap ri ≠ ∅
  | TaskPhaseProcessing => ∃ ri, st_RemoveInfo s = Some ri ∧ reach ri
  | _ => True
  end.

Record task_inv `{World} `{MapRange} (tr : list CephOsdRemoveTask) (s : CephOsdRemoveTaskStatus) : Prop := {
  ti_run : phase_run (cond_Phase <$> st_Conditions s) (st_Phase s);
  ti_info : info_inv s;
  ti_approval : st_Phase s ∈ [TaskPhaseWaitingOperator; TaskPhaseProcessing] → approval tr s;
}.

Section lifecycle.
Context `{World} `{MapRange}.

Lemma phase_run_nonempty l ph : phase_run l ph → l ≠ [].
Proof. intros [|l' ? ? ? ?]; [done|]. by destruct l'. Qed.

Lemma task_inv_stored tr s : task_inv tr s → task_inv tr (stored_status s).
Proof.
  intros [Hr Hi Ha]. split; [|done|done]. simpl. by rewrite <-list_fmap_compose.
Qed.

Lemma task_inv_phase_info tr s msg : task_inv tr s → task_inv tr (set_st_PhaseInfo msg s).
Proof. by intros []. Qed.

Lemma approval_mono tr t s : approval tr s → approval (t :: tr) s.
Proof. intros (t0 & s0 & Hin & Hrest). exists t0, s0. split; [by right|done]. Qed.

(** A phase change of a task with the invariant. *)
Lemma moved_run c tr ph reason ri now :
  task_inv tr (cur_task_status (c_task c)) → ph ∈ next_phases (st_Phase (cur_task_status (c_task c))) →
  phase_run (cond_Phase <$> st_Conditions (moved_status c ph reason ri now)) ph.
Proof.
  intros [Hr _ _] Hph. unfold moved_status. simpl. rewrite fmap_app. by eapply run_next.
Qed.

Lemma aborted_inv tr s reason now : task_inv tr s → task_inv tr (aborted_status s reason now).
Proof.
  intros [Hr _ _]. split; [|done|].
  - simpl. rewrite fmap_app. eapply run_next; [exact Hr|]. destruct (st_Phase s); simpl; mem.
  - simpl. intros Hin. mem_inv Hin; discriminate.
Qed.

Lemma after_pass_static c ri ri' b : reach ri → after_pass c ri ri' b → reach ri' ∧ static ri' = static ri.
Proof.
  intros Hr (rq & h & Heq). split.
  - replace ri' with (processOsdRemoveTask c ri rq h).1.1.2 by (by rewrite Heq). by apply reach_pass.
  - destruct (reach_pass_spec c ri rq Hr h) as [[Hrel _] _]. rewrite Heq in Hrel. simpl in Hrel.
    by rewrite (pr_static _ _ Hrel), collected_static.
Qed.

Lemma no_approval_needed (tr : list CephOsdRemoveTask) s :
  st_Phase s ∉ [TaskPhaseWaitingOperator; TaskPhaseProcessing] →
  st_Phase s ∈ [TaskPhaseWaitingOperator; TaskPhaseProcessing] → approval tr s.
Proof. done. Qed.

Ltac not_mem := let H := fresh in intros H; mem_inv H; discriminate.

Lemma task_move_inv tr t st0 c s :
  task_Status t = Some st0 →
  c_task c = set_task_Status (Some (set_st_PhaseInfo "" st0)) t →
  task_inv tr st0 →
  task_move c (set_st_PhaseInfo "" st0) s →
  task_inv (t :: tr) s.
Proof.
  intros Ht Hc Hinv0 Hm. set (st := set_st_PhaseInfo "" st0) in *.
  assert (cur_task_status (c_task c) = st) as Hcur by (by rewrite Hc).
  assert (task_inv tr st) as Hinv by (by apply task_inv_phase_info).
  assert (approved (c_task c) = approved t) as Happ by (by rewrite Hc).
  assert (∀ ph reason ri now, ph ∈ next_phases (st_Phase st) →
            phase_run (cond_Phase <$> st_Conditions (moved_status c ph reason ri now)) ph) as Hrun.
  { intros ph reason ri now Hph. apply (moved_run c tr); by rewrite Hcur. }
  pose proof (ti_info _ _ Hinv) as Hinfo. unfold info_inv in Hinfo.
  destruct Hm as [|reason now Hph|ri reason now Hph|ri reason now Hph|ri reason now Hph Hf Hi Hne Ha
    |ri reason now Hph Hf Hi Hne Ha|reason now Hph Ha|latest reason now Hph Ha|latest reason now Hph
    |latest reason now Hph|ri ri' Hph Hri Hpass|ri ri' reason now Hph Hri Hpass|ri reason now Hph Hri|reason now Hnil];
    try rewrite Hph in *; try (split; [apply Hrun; mem|done|apply no_approval_needed; not_mem]).
  - destruct Hinv as [Hr Hi Ha]. split; [done..|]. intros Hin. apply approval_mono. auto.
  - split; [apply Hrun; mem|by exists ri|apply no_approval_needed; not_mem].
  - split; [apply Hrun; mem|by exists ri|]. intros _. exists t, st0. rewrite <-Happ. split_and!; [left|done..|by left].
  - split; [apply Hrun; mem|done|]. intros _. exists t, st0. rewrite <-Happ. split_and!; [left|done..|by right].
  - split; [apply Hrun; mem| |].
    + destruct Hinfo as (ri & Hri & Hf & _). exists ri. split; [done|]. by apply reach_fresh.
    + intros _. apply approval_mono. destruct Hinv as [_ _ Hap]. rewrite Hph in Hap.
      destruct (Hap ltac:(mem)) as (t0 & s0 & Hrest). exists t0, s0. exact Hrest.
  - destruct Hinfo as (ri0 & Hri0 & Hr). rewrite Hri in Hri0. injection Hri0 as <-.
    destruct (after_pass_static _ _ _ _ Hr Hpass) as [Hr' Hst]. destruct Hinv as [Hrun0 _ Hap]. split.
    + exact Hrun0.
    + unfold info_inv. simpl. simpl in Hph. rewrite Hph. by exists ri'.
    + intros _. apply approval_mono. rewrite Hph in Hap. destruct (Hap ltac:(mem)) as (t0 & s0 & Hin & Hat & Hs0 & Hor).
      exists t0, s0. split_and!; [done..|]. destruct Hor as [?|[? Hsame]]; [by left|right]. split; [done|].
      unfold same_targets in *. rewrite Hsame, Hri. simpl. by rewrite Hst.
  - split; [apply Hrun| |apply no_approval_needed].
    + unfold final_phase. destruct (ri_Issues ri'), (ri_Warnings ri'); simpl; mem.
    + unfold info_inv, final_phase. simpl. by destruct (ri_Issues ri'), (ri_Warnings ri').
    + unfold final_phase. simpl. destruct (ri_Issues ri'), (ri_Warnings ri'); simpl; not_mem.
  - destruct Hinv as [Hr _ _]. rewrite Hnil in Hr. by apply phase_run_nonempty in Hr.
Qed.

Lemma init_inv tr t now : task_inv tr (init_status t now).
Proof. split; [apply run_start|done|apply no_approval_needed; not_mem]. Qed.

Lemma writes_inv r tr t s :
  (∀ st, task_Status t = Some st → task_inv tr st) → writes r t s → task_inv (t :: tr) s.
Proof.
  intros Hinv Hw. destruct Hw as [now Hn|st msg Hst|st reason now Hst|c st s Hst Hsel Hc Hext Hm].
  - apply init_inv.
  - destruct (task_inv_phase_info _ _ msg (Hinv _ Hst)) as [Hr Hi Ha]. split; [done..|].
    intros Hin. apply approval_mono. auto.
  - destruct (aborted_inv _ _ reason now (Hinv _ Hst)) as [Hr Hi Ha]. split; [done..|]. apply no_approval_needed; not_mem.
  - eapply task_move_inv; eauto.
Qed.

Lemma inv_reach tr t :
  (∀ st, task_Status t = Some st → task_inv tr st) →
  ∀ st ri, task_Status t = Some st → st_Phase st = TaskPhaseProcessing → st_RemoveInfo st = Some ri → reach ri.
Proof.
  intros Hinv st ri Hst Hph Hri. pose proof (ti_info _ _ (Hinv _ Hst)) as Hi. unfold info_inv in Hi.
  rewrite Hph in Hi. destruct Hi as (ri0 & Hri0 & Hr). congruence.
Qed.

Lemma lifecycle_inv tr o : lifecycle tr o → ∀ s, o = Some s → task_inv tr s.
Proof.
  induction 1 as [|tr lcm r h t ns name s Hl IH Ht He]; [done|]. intros ? [= <-].
  apply task_inv_stored. eapply writes_inv; [exact IH|].
  pose proof (Reconcile_events r t (inv_reach _ _ IH) lcm h Ht) as Hev.
  rewrite Forall_forall in Hev. exact (Hev _ He).
Qed.

Lemma lifecycle_events tr lcm r h t e :
  lifecycle tr (task_Status t) → w_task_get h (req_Namespace r) (req_Name r) = (t, None) →
  e ∈ (Reconcile lcm r h).2 → reconcile_event r t e.
Proof.
  intros Hl Ht He. pose proof (Reconcile_events r t (inv_reach _ _ (lifecycle_inv _ _ Hl)) lcm h Ht) as Hev.
  rewrite Forall_forall in Hev. exact (Hev _ He).
Qed.
End lifecycle.

(** ** No active task is forgotten *)

(** The result asks for another round, unless the interactions closed the task:
    deleted it or stored a status that is not active. *)
Definition task_closed (ev : list event) : Prop :=
  (∃ ns name, EvTaskDelete ns name ∈ ev) ∨
  ∃ ns name s, EvTaskStatusUpdate ns name s ∈ ev ∧ checkTaskActive (Some s) = false.

Definition comes_back (res : reconcile_result) (ev : list event) : Prop :=
  0 < res_RequeueAfter res ∨ task_closed ev.

Lemma task_closed_app ev ev' : task_closed ev' → task_closed (ev ++ ev').
Proof.
  intros [(ns & n & Hin)|(ns & n & s & Hin & Hs)]; [left; exists ns, n|right; exists ns, n, s; split; [|done]];
    apply elem_of_app; by right.
Qed.

Lemma comes_back_app res ev ev' : comes_back res ev' → comes_back res (ev ++ ev').
Proof. intros [?|?]; [by left|right; by apply task_closed_app]. Qed.

Section requeue.
Context `{World} `{MapRange}.

Lemma runs_skip {A} (m : IO A) (f : A → IO (option reconcile_result)) :
  (∀ a, runs (f a) (λ o ev, ∀ res, o = Some res → comes_back res ev)) →
  runs (mbind' m f) (λ o ev, ∀ res, o = Some res → comes_back res ev).
Proof.
  intros Hf. eapply runs_bind; [apply runs_any|]. intros a ev _ h res Hres.
  apply comes_back_app. by apply (Hf a h).
Qed.

Lemma write_status_runs r s ok :
  0 < res_RequeueAfter ok ∨ checkTaskActive (Some s) = false → runs (write_status r s ok) comes_back.
Proof.
  intros Hok. unfold write_status. eapply (runs_bind _ _ (λ e ev, e = None → ∃ ns n, EvTaskStatusUpdate ns n s ∈ ev)).
  - eapply runs_bind; [apply runs_any|]. intros [t' [e|]] ev _; [by apply runs_ret|].
    eapply runs_bind; [|intros a ev' Ha; apply runs_ret; intros Hn; rewrite app_nil_r; apply Ha].
    + eapply runs_bind; [apply (runs_call _ _ (λ _ ev, ∃ ns n, EvTaskStatusUpdate ns n s ∈ ev)); intros; do 2 eexists; left|].
      intros a ev' Ha. apply (runs_ret _ (λ _ ev'', ∃ ns n, EvTaskStatusUpdate ns n s ∈ ev ++ ev' ++ ev'')).
      destruct Ha as (ns & n & Hin). exists ns, n. rewrite app_nil_r. apply elem_of_app. by right.
  - intros [e|] ev He; apply runs_ret; rewrite app_nil_r; [by left|]. destruct (He eq_refl) as (ns & n & Hin).
    destruct Hok as [?|Hok]; [by left|right; right]. eauto 6.
Qed.

Definition comes_back_o (o : option reconcile_result) (ev : list event) : Prop :=
  ∀ res, o = Some res → comes_back res ev.

Lemma runs_requeue res : 0 < res_RequeueAfter res → runs (ret (Some res)) comes_back_o.
Proof. intros Hr. apply runs_ret. intros ? [= <-]. by left. Qed.

Lemma some_result_runs m : runs m comes_back → runs (some_result m) comes_back_o.
Proof.
  intros Hm. eapply runs_bind; [exact Hm|]. intros res ev Hres. apply runs_ret. intros ? [= <-].
  by rewrite app_nil_r.
Qed.

Lemma runs_weak {A} (m : IO A) (f : A → IO reconcile_result) :
  (∀ a, runs (f a) comes_back) → runs (mbind' m f) comes_back.
Proof. intros Hf. eapply runs_bind; [apply runs_any|]. intros a ev _ h. apply comes_back_app, Hf. Qed.

Lemma write_phase_info_runs r st msg : runs (write_phase_info r st msg) comes_back.
Proof. apply runs_weak. intros _. apply runs_ret. by left. Qed.

Lemma abort_runs r st reason :
  runs (let* s := prepareAbortStatus st reason in write_status r s no_requeue) comes_back.
Proof.
  eapply (runs_bind _ _ (λ s _, checkTaskActive (Some s) = false)).
  - eapply runs_bind; [apply runs_any|]. intros now ev _. by apply runs_ret.
  - intros s ev Hs h. apply comes_back_app, write_status_runs. by right.
Qed.

Lemma reconcile_handle_runs r lcm t st cl analysis name :
  runs (reconcile_handle r lcm t st cl analysis name) comes_back_o.
Proof.
  apply runs_skip. intros d. cbv zeta.
  match goal with |- runs (match ?x with _ => _ end) _ => destruct x as [phase|] end; [|by apply runs_requeue].
  apply runs_skip. intros [[s rq]|]; [|by apply runs_ret].
  case_decide; [by apply runs_requeue; destruct rq|]. apply some_result_runs, write_status_runs.
  destruct (checkTaskActive (Some s)); [left; by destruct rq|by right].
Qed.

Lemma reconcile_checks_runs r lcm t st health : runs (reconcile_checks r lcm t st health) comes_back_o.
Proof.
  apply runs_skip. intros [cl [e|]]; [by apply runs_requeue|].
  destruct (cc_External cl); [apply some_result_runs, abort_runs|].
  case_decide; [apply some_result_runs, write_phase_info_runs|].
  destruct (negb _); [apply some_result_runs, write_phase_info_runs|].
  destruct (chd_OsdAnalysis health) as [[dd [g|] an]|]; try apply some_result_runs, write_phase_info_runs.
  apply runs_skip. intros [tasks [e|]]; [by apply runs_requeue|].
  case_decide; [apply reconcile_handle_runs|apply some_result_runs, write_phase_info_runs].
Qed.

Lemma reconcile_task_runs r lcm t :
  checkTaskActive (task_Status t) = true → runs (reconcile_task lcm r t) comes_back_o.
Proof.
  intros Ha. unfold reconcile_task. destruct (task_Status t) as [st|] eqn:Hst.
  2: { apply some_result_runs, runs_weak. intros s. apply write_status_runs. by left. }
  apply runs_skip. intros [hl [e|]]; [by destruct hl as [|? []]; apply runs_requeue|].
  assert (∀ n, runs (some_result (handle_health_count r (set_st_PhaseInfo "" st) n)) comes_back_o) as Hcount.
  { intros n. apply some_result_runs. unfold handle_health_count. destruct (1 <? n)%nat.
    - change (checkTaskActive (Some (set_st_PhaseInfo "" st))) with (checkTaskActive (Some st)). rewrite Ha.
      apply abort_runs.
    - eapply runs_bind; [by apply (runs_call _ _ (λ _ ev, task_closed ev)); intros; left; do 2 eexists; left|].
      intros [e|] ev Hcl; apply runs_ret; [by left|right]. by rewrite app_nil_r. }
  destruct hl as [|health [|]]; [apply Hcount| |apply Hcount].
  destruct (GetObjectOwnerRef _ _ _) as [refs [e|]]; [by apply runs_requeue|].
  case_decide; [apply reconcile_checks_runs|].
  apply runs_skip. intros [e|]; by apply runs_requeue.
Qed.
End requeue.
