(* ===== verification/TaskTheorems.v ===== *)
(** * Theorems about the task controller

    What holds of every task the controller works on: nothing is destroyed
    without approval, the phases and conditions of a task follow the machine,
    a closed task stays closed, an active one is never forgotten, and the oldest
    active task is served first. *)

From S2P Require Import Prelude GoTime Types World Helpers TaskUtils Demo CleanupJob Executor ExecutorFacts ExecutorPass Removal SpecHandler SpecFacts SpecDemo Processer Controller Lifecycle.
Open Scope Z_scope.

Section theorems.
Context `{World} `{MapRange}.

(** C1: whatever a round of the controller does to the cluster beyond queries, it
    does for the oldest active task of the namespace, in its processing phase,
    after a round that saw the approval of exactly these targets (or validated a
    task approved from the start), and only as a pass over the remove info may:
    see [pass_event]. *)
Theorem nothing_destroyed_without_approval tr lcm r h t e :
  lifecycle tr (task_Status t) →
  w_task_get h (req_Namespace r) (req_Name r) = (t, None) →
  e ∈ (Reconcile lcm r h).2 →
  (∀ ns name s, e ≠ EvTaskStatusUpdate ns name s) →
  ¬ harmless e →
  selected r ∧ ∃ st ri c, task_Status t = Some st ∧ st_Phase st = TaskPhaseProcessing ∧ approval tr st ∧
    st_RemoveInfo st = Some ri ∧ reach ri ∧ pass_event c (collected ri) e.
Proof.
  intros Hl Ht He Hnu Hnh. pose proof (lifecycle_events _ _ _ _ _ _ Hl Ht He) as Hev.
  assert (selected r ∧ ∃ st ri c, task_Status t = Some st ∧ st_Phase st = TaskPhaseProcessing ∧
    st_RemoveInfo st = Some ri ∧ pass_event c (collected ri) e) as (Hsel & st & ri & c & Hst & Hph & Hri & Hp).
  { unfold reconcile_event in Hev. destruct e; try (by destruct Hev); by destruct (Hnu ns name status). }
  destruct (lifecycle_inv _ _ Hl st Hst) as [_ Hi Ha]. split; [done|]. exists st, ri, c. split_and!; try done.
  - apply Ha. rewrite Hph. mem.
  - unfold info_inv in Hi. rewrite Hph in Hi. destruct Hi as (ri' & Hri' & Hr). congruence.
Qed.

(** C5: the rounds implement the machine: a status is stored only as the first
    one of the task, with another message, as an abort of an active task (or with
    an external cluster), or as a move of the machine for the oldest active
    task. *)
Theorem rounds_follow_machine tr lcm r h t ns name s :
  lifecycle tr (task_Status t) →
  w_task_get h (req_Namespace r) (req_Name r) = (t, None) →
  EvTaskStatusUpdate ns name s ∈ (Reconcile lcm r h).2 →
  writes r t s.
Proof. intros Hl Ht He. exact (lifecycle_events _ _ _ _ _ _ Hl Ht He). Qed.

(** The conditions of a task are the record of a run of the phase machine
    from the pending phase to the current one. *)
Theorem conditions_record_run tr s :
  lifecycle tr (Some s) → phase_run (cond_Phase <$> st_Conditions s) (st_Phase s).
Proof. intros Hl. apply (ti_run tr), (lifecycle_inv _ _ Hl s eq_refl). Qed.

(** Before validation a task has no remove info; while it waits for approval
    and for the operator it has one without issues, not empty and not yet touched;
    while it is processed its remove info is one the removal can reach, so that
    the theorems on removal apply to it. *)
Theorem remove_info_of_phase tr s : lifecycle tr (Some s) → info_inv s.
Proof. intros Hl. apply (ti_info tr), (lifecycle_inv _ _ Hl s eq_refl). Qed.

(** C34: a completed, failed or aborted task stays as it is: later rounds change
    at most the message of its status, as long as the cluster is not external. *)
Theorem closed_task_stays_closed tr lcm r h t st ns name s :
  lifecycle tr (Some st) → task_Status t = Some st → checkTaskActive (Some st) = false →
  w_task_get h (req_Namespace r) (req_Name r) = (t, None) →
  EvTaskStatusUpdate ns name s ∈ (Reconcile lcm r h).2 →
  ¬ external_cluster →
  ∃ msg, s = set_st_PhaseInfo msg st.
Proof.
  intros Hl Hst Hact Ht He Hext. rewrite <-Hst in Hl. pose proof (lifecycle_events _ _ _ _ _ _ Hl Ht He) as Hw.
  rewrite Hst in Hl. simpl in Hw. destruct Hw as [now Hn|st' msg Hst'|st' reason now Hst' Hor|c st' s Hst' _ _ _ Hm];
    rewrite Hst in *; simplify_eq/=.
  - by exists msg.
  - by destruct Hor as [?|?]; [congruence|].
  - unfold checkTaskActive in Hact.
    destruct Hm; simpl in *; try (by match goal with Hp : st_Phase _ = _ |- _ => rewrite Hp in Hact end).
    + by exists "".
    + pose proof (ti_run _ _ (lifecycle_inv _ _ Hl st' eq_refl)) as Hr.
      match goal with Hn : st_Conditions _ = [] |- _ => rewrite Hn in Hr end. by apply phase_run_nonempty in Hr.
Qed.

(** C32: an active task is never forgotten: a round that does not ask for another
    one has deleted the task or has tried to store a status that is not active.
    (The predicate of the watch ignores updates, so the next round is all that
    drives a task.) *)
Theorem active_task_comes_back lcm r h t res :
  w_task_get h (req_Namespace r) (req_Name r) = (t, None) →
  checkTaskActive (task_Status t) = true →
  (Reconcile lcm r h).1 = Some res →
  0 < res_RequeueAfter res ∨ task_closed (Reconcile lcm r h).2.
Proof.
  intros Ht Ha. unfold Reconcile, mbind', get_task, call. simpl. rewrite Ht. intros Hres.
  apply (comes_back_app _ [EvTaskGet (req_Namespace r) (req_Name r)]).
  by apply (reconcile_task_runs r lcm t Ha (h ++ [EvTaskGet (req_Namespace r) (req_Name r)])).
Qed.
End theorems.

(** ** The oldest task *)

Definition is_active (t : CephOsdRemoveTask) : bool := checkTaskActive (task_Status t).

Lemma oldest_loop_spec i tasks :
  match oldest_loop i tasks with
  | None => i = None ∧ ∀ t, t ∈ tasks → is_active t = false
  | Some t =>
      (i = Some t ∨ t ∈ tasks ∧ is_active t = true) ∧
      (∀ p, i = Some p → task_CreationTimestamp t ≤ task_CreationTimestamp p) ∧
      (∀ t', t' ∈ tasks → is_active t' = true → task_CreationTimestamp t ≤ task_CreationTimestamp t')
  end.
Proof.
  revert i. induction tasks as [|cur tasks IH]; intros i; simpl.
  { destruct i as [p|].
    - split_and!; [by left|by intros ? [= <-]|]. intros t' Ht'. by apply elem_of_nil in Ht'.
    - split; [done|]. intros t' Ht'. by apply elem_of_nil in Ht'. }
  destruct (checkTaskActive (task_Status cur)) eqn:Hact; simpl.
  2: { specialize (IH i). destruct (oldest_loop i tasks) as [t|].
       - destruct IH as (Hin & Hp & Hall). split_and!; [destruct Hin as [?|[??]]; [by left|right; split; [by right|done]]|done|].
         intros t' [->|Ht']%elem_of_cons Ha; [|auto]. unfold is_active in Ha. congruence.
       - destruct IH as [-> Hall]. split; [done|]. intros t' [->|Ht']%elem_of_cons; [done|auto]. }
  assert (∀ b, (∀ p, i = Some p → task_CreationTimestamp b ≤ task_CreationTimestamp p) →
               task_CreationTimestamp b ≤ task_CreationTimestamp cur → (b = cur ∨ i = Some b) →
    match oldest_loop (Some b) tasks with
    | None => i = None ∧ ∀ t, t ∈ cur :: tasks → is_active t = false
    | Some t =>
        (i = Some t ∨ t ∈ cur :: tasks ∧ is_active t = true) ∧
        (∀ p, i = Some p → task_CreationTimestamp t ≤ task_CreationTimestamp p) ∧
        (∀ t', t' ∈ cur :: tasks → is_active t' = true → task_CreationTimestamp t ≤ task_CreationTimestamp t')
    end) as Hbest.
  { intros b Hbp Hbc Hb. specialize (IH (Some b)). destruct (oldest_loop (Some b) tasks) as [t|]; [|by destruct IH].
    destruct IH as (Hin & Hp & Hall). specialize (Hp b eq_refl). split_and!.
    - destruct Hin as [[= ->]|[??]]; [|right; split; [by right|done]].
      destruct Hb as [->|?]; [right; split; [left|done]|by left].
    - intros p ->. specialize (Hbp p eq_refl). lia.
    - intros t' [->|Ht']%elem_of_cons Ha; [lia|auto]. }
  destruct i as [prev|]; [destruct (Z.ltb_spec (task_CreationTimestamp cur) (task_CreationTimestamp prev))|];
    apply Hbest; auto; try lia; intros p [= <-]; lia.
Qed.

(** The task chosen is active and no active task of the list was created
    before it; no name is returned exactly when no task is active. *)
Theorem oldest_active_task tasks :
  (∃ t, t ∈ tasks ∧ is_active t = true ∧ getOldestCephOsdRemoveTaskName tasks = task_Name t ∧
     ∀ t', t' ∈ tasks → is_active t' = true → task_CreationTimestamp t ≤ task_CreationTimestamp t') ∨
  getOldestCephOsdRemoveTaskName tasks = "" ∧ ∀ t, t ∈ tasks → is_active t = false.
Proof.
  unfold getOldestCephOsdRemoveTaskName. pose proof (oldest_loop_spec None tasks) as Hs.
  destruct (oldest_loop None tasks) as [t|].
  - left. exists t. destruct Hs as ([?|[??]] & _ & ?); by split_and!.
  - right. by destruct Hs.
Qed.

(** ** Changes of the spec around the approval *)

Section changes.
Context `{World} `{MapRange} (c : cephOsdRemoveConfig).
Let st := cur_task_status (c_task c).

(** An approval is accepted whatever has changed since validation: the task
    keeps the remove info of the old spec, and the condition it gets records the
    new nodes and generation, so that the check for changes in the next phase
    finds nothing. *)
Theorem approval_hides_changes latest h :
  last (st_Conditions st) = Some latest →
  st_Phase st = TaskPhaseApproveWaiting → approved (c_task c) = true →
  ∃ s latest', (handleTask c h).1 = Some (s, true) ∧ st_Phase s = TaskPhaseWaitingOperator ∧
    st_RemoveInfo s = st_RemoveInfo st ∧ last (st_Conditions s) = Some latest' ∧ specChanges c latest' = [].
Proof.
  intros Hl Hph Ha. unfold handleTask. fold st. rewrite Hl, Hph. unfold handle_approve_waiting. rewrite Ha.
  do 2 eexists. split_and!; [reflexivity|done|done|by simpl; rewrite last_snoc|].
  unfold specChanges. simpl. by rewrite !decide_True.
Qed.

(** A task with the nodes section present but empty is never processed: the
    stored condition has lost the empty map, so that every round sees a change;
    while waiting for approval it is validated again and again, and once approved
    it is aborted. *)
Theorem empty_nodes_never_processed latest h :
  current_nodes (c_task c) = Some ∅ →
  last (st_Conditions st) = Some (stored_condition latest) →
  (st_Phase st = TaskPhaseApproveWaiting → approved (c_task c) = false →
   ∃ s, (handleTask c h).1 = Some (s, true) ∧ st_Phase s = TaskPhaseValidating) ∧
  (st_Phase st = TaskPhaseWaitingOperator →
   ∃ s, (handleTask c h).1 = Some (s, false) ∧ st_Phase s = TaskPhaseAborted).
Proof.
  intros Hn Hl.
  assert (specChanges c (stored_condition latest) ≠ []) as Hc.
  { unfold specChanges. rewrite Hn, (decide_False (P := _ = Some _)); [by case_match; [case_decide|]|].
    simpl. destruct (cond_Nodes latest) as [m|]; simpl; [|done]. case_decide; [done|]. congruence. }
  unfold handleTask. fold st. rewrite Hl. split; intros Hph; rewrite Hph.
  - intros Ha. unfold handle_approve_waiting. rewrite Ha. destruct (specChanges _ _); [done|].
    eexists. split; [reflexivity|done].
  - unfold handle_waiting_operator. destruct (specChanges _ _); [done|]. eexists. split; [reflexivity|done].
Qed.
End changes.
