(* ===== verification/TaskDemo.v ===== *)
(** * The life of a task on a small cluster

    A task is created, validated, approved, processed and completed; the
    witnesses of the theorems on tasks are rounds of this run, together with a
    task that waits for approval. *)

From Stdlib Require Import QArith.
From S2P Require Import Prelude GoTime Types World Helpers TaskUtils Demo CleanupJob Executor ExecutorFacts ExecutorPass Removal SpecHandler SpecFacts SpecDemo Processer Controller Lifecycle TaskTheorems.
Open Scope Z_scope.

Definition life_task (approve : bool) (nodes : option (gmap string NodeCleanUpSpec))
    (st : option CephOsdRemoveTaskStatus) : CephOsdRemoveTask :=
  mkTask "task" "pelagia" "uid" 0
    [mkOwnerReference "lcm.mirantis.com/v1alpha1" "CephDeploymentHealth" "cephcluster" "uid"]
    (Some (mkTaskSpec nodes approve false)) st.

(** Two OSDs on a host that is not in the spec. *)
Definition life_cluster (task : CephOsdRemoveTask) : demo_cluster :=
  mkDemo false 0 demo_infos demo_metas [mkOsdTreeNode (-2) "node-1" "host" [0; 1] "" "" 0%Q 0%Q] demo_k8s
    (mkDiskDaemonReport DiskDaemonStateOk "" [] None (Some demo_osds_report)) [task] (mkJobStatus 0 0 1 []).

Definition life_lcm : LcmConfig := demo_lcm.
Definition life_request : request := mkRequest "pelagia" "task".

#[local] Instance life_world : World := demo_world (life_cluster (life_task true None None)).
#[local] Existing Instance default_range.

(** The interactions of the first [n] rounds, and the task before round [n]. *)
Fixpoint life_history (n : nat) : history :=
  match n with
  | O => []
  | S n' => let h := life_history n' in h ++ (Reconcile life_lcm life_request h).2
  end.

Definition life_at (n : nat) : CephOsdRemoveTask :=
  (w_task_get (life_history n) "pelagia" "task").1.

Fixpoint life_trace (n : nat) : list CephOsdRemoveTask :=
  match n with O => [] | S n' => life_at n' :: life_trace n' end.

Definition last_update (ev : list event) : option (string * string * CephOsdRemoveTaskStatus) :=
  foldl (λ o e, match e with EvTaskStatusUpdate ns name s => Some (ns, name, s) | _ => o end) None ev.

Lemma last_update_elem ev ns name s : last_update ev = Some (ns, name, s) → EvTaskStatusUpdate ns name s ∈ ev.
Proof.
  unfold last_update. rewrite <-(reverse_involutive ev). induction (reverse ev) as [|e l IH]; [done|].
  rewrite reverse_cons, foldl_app. simpl. intros Hl. apply elem_of_app.
  destruct e; try (left; by apply IH). right. simplify_eq. left.
Qed.

(** Round [n] stores the status the task has before round [n + 1]. *)
Definition round_stores (n : nat) : bool :=
  match last_update (Reconcile life_lcm life_request (life_history n)).2 with
  | Some (_, _, s) => bool_decide (task_Status (life_at (S n)) = Some (stored_status s))
  | None => false
  end.

Definition life_rounds : nat := 13.

Lemma life_rounds_store : forallb round_stores (seq 0 life_rounds) = true.
Proof. vm_compute. reflexivity. Qed.

Lemma life_found n : w_task_get (life_history n) "pelagia" "task" = (life_at n, None).
Proof. done. Qed.

Lemma life_reached n : (n ≤ life_rounds)%nat → lifecycle (life_trace n) (task_Status (life_at n)).
Proof.
  induction n as [|n IH]; intros Hn; [exact life_new|].
  pose proof life_rounds_store as Hall. rewrite forallb_forall in Hall.
  specialize (Hall n). rewrite in_seq in Hall. specialize (Hall ltac:(unfold life_rounds in *; lia)).
  unfold round_stores in Hall.
  destruct (last_update _) as [[[ns name] s]|] eqn:Hu; [|done]. apply bool_decide_eq_true in Hall. rewrite Hall.
  eapply (life_round (life_trace n) life_lcm life_request (life_history n) (life_at n) ns name);
    [apply IH; lia|apply life_found|by apply last_update_elem].
Qed.

(** The whole run: the phases of the completed task. *)
Example life_phases :
  (λ s, cond_Phase <$> st_Conditions s) <$> task_Status (life_at life_rounds) =
  Some [TaskPhasePending; TaskPhaseValidating; TaskPhaseWaitingOperator; TaskPhaseProcessing; TaskPhaseCompleted].
Proof. vm_compute. reflexivity. Qed.

Lemma life_not_external : ¬ external_cluster.
Proof. intros (h & ns & name & cl & Hcl & Hext). vm_compute in Hcl. injection Hcl as <-. discriminate Hext. Qed.

Lemma nothing_destroyed_without_approval_witness :
  ∃ st, task_Status (life_at 6) = Some st ∧ approval (life_trace 6) st.
Proof.
  destruct (nothing_destroyed_without_approval (life_trace 6) life_lcm life_request (life_history 6) (life_at 6)
    (EvCeph "rook-ceph" "ceph osd purge 1 --force --yes-i-really-mean-it"))
    as (_ & st & ri & c & Hst & _ & Ha & _).
  - apply life_reached. unfold life_rounds. lia.
  - apply life_found.
  - vm_compute. mem.
  - discriminate.
  - intros Hin. simpl in Hin. mem_inv Hin; discriminate.
  - exists st. split; [exact Hst|exact Ha].
Defined.

Lemma rounds_follow_machine_witness :
  ∃ s, writes life_request (life_at 3) s ∧ st_Phase s = TaskPhaseProcessing.
Proof.
  destruct (last_update (Reconcile life_lcm life_request (life_history 3)).2) as [[[ns name] s]|] eqn:Hu.
  2: { vm_compute in Hu. discriminate. }
  exists s. split.
  - apply (rounds_follow_machine (life_trace 3) life_lcm life_request (life_history 3) (life_at 3) ns name s);
      [apply life_reached; unfold life_rounds; lia|apply life_found|apply last_update_elem, Hu].
  - vm_compute in Hu. injection Hu as _ _ <-. reflexivity.
Defined.

Lemma conditions_record_run_witness :
  phase_run [TaskPhasePending; TaskPhaseValidating; TaskPhaseWaitingOperator; TaskPhaseProcessing; TaskPhaseCompleted]
    TaskPhaseCompleted.
Proof.
  destruct (task_Status (life_at 13)) as [s|] eqn:Hs; [|vm_compute in Hs; discriminate].
  assert (lifecycle (life_trace 13) (Some s)) as Hl by (rewrite <-Hs; apply life_reached; unfold life_rounds; lia).
  pose proof (conditions_record_run (life_trace 13) s Hl) as Hr.
  vm_compute in Hs. injection Hs as <-. exact Hr.
Defined.

Lemma remove_info_of_phase_witness :
  ∃ s ri, task_Status (life_at 7) = Some s ∧ st_RemoveInfo s = Some ri ∧ reach ri.
Proof.
  destruct (task_Status (life_at 7)) as [s|] eqn:Hs; [|vm_compute in Hs; discriminate].
  assert (lifecycle (life_trace 7) (Some s)) as Hl by (rewrite <-Hs; apply life_reached; unfold life_rounds; lia).
  pose proof (remove_info_of_phase (life_trace 7) s Hl) as Hi. unfold info_inv in Hi.
  assert (st_Phase s = TaskPhaseProcessing) as Hph by (vm_compute in Hs; injection Hs as <-; reflexivity).
  rewrite Hph in Hi. destruct Hi as (ri & Hri & Hr). exists s, ri. split; [reflexivity|]. split; [exact Hri|exact Hr].
Defined.

Lemma closed_task_stays_closed_witness :
  ∃ s st msg, task_Status (life_at 13) = Some st ∧ s = set_st_PhaseInfo msg st.
Proof.
  destruct (task_Status (life_at 13)) as [st|] eqn:Hst; [|vm_compute in Hst; discriminate].
  destruct (last_update (Reconcile life_lcm life_request (life_history 13)).2) as [[[ns name] s]|] eqn:Hu.
  2: { vm_compute in Hu. discriminate. }
  destruct (closed_task_stays_closed (life_trace 13) life_lcm life_request (life_history 13) (life_at 13) st ns name s)
    as [msg Hmsg].
  - rewrite <-Hst. apply life_reached. unfold life_rounds. lia.
  - exact Hst.
  - vm_compute in Hst. injection Hst as <-. reflexivity.
  - apply life_found.
  - apply last_update_elem, Hu.
  - exact life_not_external.
  - exists s, st, msg. split; [reflexivity|exact Hmsg].
Defined.

Lemma active_task_comes_back_witness :
  ∃ res, (Reconcile life_lcm life_request (life_history 6)).1 = Some res ∧
    (0 < res_RequeueAfter res ∨ task_closed (Reconcile life_lcm life_request (life_history 6)).2).
Proof.
  destruct (Reconcile life_lcm life_request (life_history 6)).1 as [res|] eqn:Hres; [|vm_compute in Hres; discriminate].
  exists res. split; [reflexivity|].
  apply (active_task_comes_back life_lcm life_request (life_history 6) (life_at 6) res);
    [apply life_found|vm_compute; reflexivity|exact Hres].
Defined.

(** A task validated for generation 7 of the cluster. *)
Definition waiting_status (ph : TaskPhase) : CephOsdRemoveTaskStatus :=
  mkTaskStatus ph "" (Some (demo_info None None)) [] [mkCondition "" ph None (Some (mkSpecVersion "1" 7))].

Definition waiting_config (generation : Z) (approve : bool) (nodes : option (gmap string NodeCleanUpSpec)) (ph : TaskPhase)
    : cephOsdRemoveConfig :=
  mkConfig life_lcm (life_task approve nodes (Some (waiting_status ph)))
    (mkCephCluster "cephcluster" "rook-ceph" generation "1" false [] "" 3 2 ∅ demo_cluster_status)
    (mkSpecAnalysisState demo_ok None ∅) None.

Lemma approval_hides_changes_witness :
  let c := waiting_config 8 true (Some {[ "node-9" := mkNodeCleanUpSpec true false false [] [] ]}) TaskPhaseApproveWaiting in
  (∃ latest, last (st_Conditions (cur_task_status (c_task c))) = Some latest ∧ length (specChanges c latest) = 2%nat) ∧
  ∃ s latest', (handleTask c []).1 = Some (s, true) ∧ st_Phase s = TaskPhaseWaitingOperator ∧
    st_RemoveInfo s = Some (demo_info None None) ∧ last (st_Conditions s) = Some latest' ∧ specChanges c latest' = [].
Proof.
  intros c. split; [eexists; split; [reflexivity|vm_compute; reflexivity]|].
  apply (approval_hides_changes c (mkCondition "" TaskPhaseApproveWaiting None (Some (mkSpecVersion "1" 7))) []);
    reflexivity.
Defined.

Lemma empty_nodes_never_processed_witness :
  ∃ s, (handleTask (waiting_config 7 true (Some ∅) TaskPhaseWaitingOperator) []).1 = Some (s, false) ∧
    st_Phase s = TaskPhaseAborted.
Proof.
  apply (empty_nodes_never_processed (waiting_config 7 true (Some ∅) TaskPhaseWaitingOperator)
    (mkCondition "" TaskPhaseWaitingOperator (Some ∅) (Some (mkSpecVersion "1" 7))) []); vm_compute; reflexivity.
Defined.
