(* ===== verification/Operations.v ===== *)
(** * Theorems about the single operations of the executor

    Which devices a cleanup job may zap, what a cleanup job consists of and when
    it may replace an old one, how often a failing command is retried, and the
    time limits of waiting. *)

From Stdlib Require Import Ascii.
From S2P Require Import Prelude GoTime Types World Helpers TaskUtils Demo CleanupJob Executor ExecutorFacts.
Open Scope Z_scope.

(** ** Sharing devices between OSDs *)

Section jobs.
Context `{MapRange}.

Lemma existsb_range {A} site (m : gmap string A) (f : string * A → bool) :
  existsb f (range site m) = true ↔ ∃ k v, m !! k = Some v ∧ f (k, v) = true.
Proof.
  rewrite existsb_exists. split.
  - intros ([k v] & Hin & Hf). exists k, v. split; [|done]. by apply (elem_of_range site), list_elem_of_In.
  - intros (k & v & Hm & Hf). exists (k, v). split; [|done]. by apply list_elem_of_In, elem_of_range.
Qed.

(** A cleanup job has to wait exactly when another OSD of the host has its job
    running; otherwise each device of the OSD keeps its mark for zapping exactly
    when every other OSD that uses the device has released it.  This holds in
    whatever order Go visits the maps. *)
Theorem shared_device_zapped_by_last cur (m : gmap string OsdMapping) om d v :
  m !! cur = Some om → om_DeviceMapping om !! d = Some v →
  ((getJobData cur m).1 = true ↔
   ∃ o om', m !! o = Some om' ∧ o ≠ cur ∧ job_in_phase om' RemoveInProgress = true) ∧
  ((getJobData cur m).1 = false →
   ∃ z, (getJobData cur m).2 !! d = Some (set_di_Zap z v) ∧
     (z = true ↔ di_Zap v = true ∧
        ∀ o om', m !! o = Some om' → o ≠ cur → is_Some (om_DeviceMapping om' !! d) → device_released om' = true)).
Proof.
  intros Hcur Hd. unfold getJobData. rewrite Hcur. simpl.
  destruct (job_data_loop_eq cur (om_DeviceMapping om) (range 5 m)) as [Hpar Hdevs]. split.
  - rewrite Hpar, existsb_range. unfold runs_job. simpl.
    setoid_rewrite andb_true_iff. setoid_rewrite bool_decide_eq_true. naive_solver.
  - intros Hno. rewrite (Hdevs Hno), Hd. simpl. destruct (existsb (holds_device cur d) (range 5 m)) eqn:Hex; [exists false|exists (di_Zap v)]; (split; [by destruct v|]).
    + apply existsb_range in Hex as (o & om' & Ho & Hh). unfold holds_device in Hh. simpl in Hh.
      apply andb_true_iff in Hh as [[Hne%bool_decide_eq_true Hdev%bool_decide_eq_true]%andb_true_iff Hrel%negb_true_iff].
      split; [done|]. intros [_ Hall]. by rewrite (Hall _ _ Ho Hne Hdev) in Hrel.
    + split; [|by intros []]. intros Hz. split; [done|]. intros o om' Ho Hne Hdev.
      destruct (device_released om') eqn:Hrel; [done|].
      assert (existsb (holds_device cur d) (range 5 m) = true) as Ht; [|by rewrite Ht in Hex].
      apply existsb_range. exists o, om'. split; [done|]. unfold holds_device. simpl.
      by rewrite Hrel, !bool_decide_eq_true_2.
Qed.
End jobs.

(** ** The content of a cleanup job *)

Section content.
Context `{World} `{MapRange} (c : cephOsdRemoveConfig).

Definition device_complete (d : DeviceInfo) : Prop := di_Partition d ≠ "" ∧ di_Path d ≠ "".

Lemma collect_devices_fold (l : list (string * DeviceInfo)) b labels devs :
  let r := foldl collect_device (b, labels, devs) l in
  r.1.1 = false → b = false ∧ Forall (λ e, device_complete e.2) l ∧ r.2 = devs ++ l.*1.
Proof.
  revert b labels devs. induction l as [|[dev d] l IH]; intros b labels devs; cbn [foldl].
  { simpl. intros ->. by rewrite app_nil_r. }
  destruct (collect_device (b, labels, devs) (dev, d)) as [[b' labels'] devs'] eqn:Hs. intros Hr.
  destruct (IH _ _ _ Hr) as (-> & Hl & ->). unfold collect_device in Hs. case_decide as Hd; simplify_eq.
  split_and!; [done| |by rewrite fmap_cons, <-app_assoc]. constructor; [|done]. unfold device_complete. naive_solver.
Qed.

Definition container_device (ct : Container) : option string :=
  match ct_Env ct with (_, device) :: _ => Some device | [] => None end.

Lemma cleanup_containers_devices podImage dir mounts devices idx l :
  container_device <$> cleanup_containers c podImage dir mounts devices idx l = Some <$> l.
Proof. revert idx. induction l as [|d l IH]; intros idx; simpl; [done|]. f_equal. apply IH. Qed.

Lemma createCleanupJob_creates job :
  spec (λ e, ∀ j, e = EvJobCreate j → j = job) (createCleanupJob job) (λ _, True).
Proof.
  unfold createCleanupJob. apply spec_bind_any; [|intros; by apply spec_ret].
  apply RunFuncWithRetry_emits; [done|].
  assert (spec (λ e, ∀ j, e = EvJobCreate j → j = job)
    (let* e := call (EvJobCreate job) (λ h, w_job_create h job) in
     match e with Some e' => ret (tt, Some e') | None => ret (tt, None) end) (λ _, True)) as Hcreate.
  { apply spec_bind_any; [apply spec_call; [by intros ? [= <-]|done]|]. intros [e|]; by apply spec_ret. }
  apply spec_bind_any; [by apply spec_call|]. intros [js [e|]]; cbv zeta.
  - destruct (is_not_found e); [done|by apply spec_ret].
  - destruct (0 <? js_Active js); [by apply spec_ret|].
    apply spec_bind_any; [by apply spec_call|]. intros [e|]; [by apply spec_ret|done].
Qed.

(** A cleanup job is created only if every device given to it has a path and
    a partition; it runs on the host of the OSD with one container per device, in
    the order of the device names. *)
Theorem cleanup_job_content host osdID dir devices h job :
  EvJobCreate job ∈ (runCleanupJob c host osdID dir devices h).2 →
  map_Forall (λ _ d, device_complete d) devices ∧
  job_NodeSelector job = {[ LabelHostname := host ]} ∧
  ∃ l, container_device <$> job_Containers job = Some <$> l ∧
    Sorted String.le l ∧ l ≡ₚ (map_to_list devices).*1.
Proof.
  unfold runCleanupJob. destruct (GetObjectOwnerRef _ _ _) as [refs [e|]]; [by intros ?%elem_of_nil|].
  case_decide; [by intros ?%elem_of_nil|]. cbv zeta.
  destruct (collect_devices _ devices) as [[broken labels] devs] eqn:Hcol.
  destruct broken; [by intros ?%elem_of_nil|]. intros He.
  unfold collect_devices in Hcol.
  match type of Hcol with foldl ?f (?b, ?l, ?d) ?r = _ =>
    pose proof (collect_devices_fold r b l d) as Hfold end.
  cbv zeta in Hfold. rewrite Hcol in Hfold. destruct (Hfold eq_refl) as (_ & Hall & Hdevs). simpl in Hdevs. subst devs.
  match type of He with context [createCleanupJob ?j] => set (jb := j) in He; pose proof (createCleanupJob_creates jb h) as [_ Hev] end.
  simpl in He. rewrite app_nil_r in He. rewrite Forall_forall in Hev. rewrite (Hev _ He job eq_refl).
  split_and!; [|done|].
  - intros k d Hk. rewrite Forall_forall in Hall. apply (Hall (k, d)). by apply elem_of_range.
  - exists (SortStrings (range 4 devices).*1). split_and!.
    + apply cleanup_containers_devices.
    + apply Sorted_merge_sort. intros x y. apply String.le_total.
    + unfold SortStrings. rewrite merge_sort_Permutation. by rewrite range_perm.
Qed.
End content.

(** ** Retrying *)

Definition is_sleep (e : event) : bool := match e with EvSleep _ => true | _ => false end.
Definition sleeps (ev : list event) : nat := length (filter is_sleep ev).

Section retrying.
Context {A : Type} (f : IO (A * option err)) (interval : Z).
Hypothesis Hf : ∀ h, sleeps (f h).2 = 0%nat.

Lemma sleeps_app ev ev' : sleeps (ev ++ ev') = (sleeps ev + sleeps ev')%nat.
Proof. unfold sleeps. by rewrite filter_app, length_app. Qed.

Lemma retry_loop_sleeps times left tries out e h :
  let r := retry_loop times interval f (S left) tries out e h in
  (sleeps r.2 ≤ left)%nat ∧
  ∀ e', r.1.2 = Some e' → sleeps r.2 = left ∧
    ∃ h' e0, (f h').1.2 = Some e0 ∧
      e' = wrap_err ("Retries (" +:+ pretty (tries + Z.of_nat (S left)) +:+ "/" +:+ pretty times +:+ ") exceeded") e0.
Proof using Hf.
  revert tries out e h. induction left as [|left IH]; intros tries out e h.
  - cbn [retry_loop]. unfold mbind'. pose proof (Hf h) as Hs. destruct (f h) as [[out' [e1|]] ev] eqn:Heq;
      cbn [fst snd] in *; unfold mret'; simpl; rewrite app_nil_r, Hs; (split; [lia|]); [|done].
    intros e' [= <-]. split; [done|]. exists h, e1. by rewrite Heq.
  - cbv zeta.
    change (retry_loop times interval f (S (S left)) tries out e) with
      (let* r := f in
       match r with
       | (o, None) => ret (o, None)
       | (o, Some e') => sleep interval ;;; retry_loop times interval f (S left) (tries + 1) o (Some e')
       end).
    unfold mbind' at 1 3 5. pose proof (Hf h) as Hs.
    destruct (f h) as [[out' [e1|]] ev] eqn:Heq; cbn [fst snd] in *.
    + unfold mbind', sleep, call. cbn [fst snd].
      destruct (IH (tries + 1) out' (Some e1) ((h ++ ev) ++ [EvSleep interval])) as [Hle Herr].
      rewrite !sleeps_app, Hs. change (sleeps [EvSleep interval]) with 1%nat. split; [lia|].
      intros e' He'. destruct (Herr e' He') as [-> (h' & e0 & He0 & ->)]. split; [lia|].
      exists h', e0. split; [done|]. do 4 f_equal. lia.
    + unfold mret'. simpl. rewrite app_nil_r, Hs. split; [lia|done].
Qed.

(** A command is tried at most [times] times with [times - 1] pauses at most;
    an error means that all [times] attempts have failed, and carries the error
    of one of them. *)
Theorem retry_bounded zero times h :
  (times ≠ 0)%nat →
  let r := RunFuncWithRetry zero times interval f h in
  (sleeps r.2 < times)%nat ∧
  ∀ e, r.1.2 = Some e → sleeps r.2 = (times - 1)%nat ∧
    ∃ h' e0, (f h').1.2 = Some e0 ∧
      e = wrap_err ("Retries (" +:+ pretty (Z.of_nat times) +:+ "/" +:+ pretty (Z.of_nat times) +:+ ") exceeded") e0.
Proof using Hf.
  intros Ht r. destruct times as [|left]; [done|].
  destruct (retry_loop_sleeps (Z.of_nat (S left)) left 0 zero None h) as [Hle Herr]. split; [unfold r, RunFuncWithRetry; lia|].
  intros e He. destruct (Herr e He) as [Hs Hex]. split; [unfold r, RunFuncWithRetry; lia|exact Hex].
Qed.
End retrying.

(** ** Time limits *)

Section limits.
Context `{World} `{MapRange} (c : cephOsdRemoveConfig).
Let timeout := lc_OsdPgRebalanceTimeout (c_lcmConfig c).

(** What [time.RFC3339] keeps of a time: whole seconds. *)
Definition whole_seconds (t : Z) : Z := t / second * second.

(** The decision on a rebalancing OSD.  It leaves the rebalancing phase only
    if the placement-group query, retried, has succeeded and found none (or the
    query has failed for good); with placement groups left it fails exactly when
    the time limit since the recorded start has passed, and otherwise is left as
    it is. *)
Theorem rebalance_decision osdID cur t0 h :
  rs_StartedAt cur = FormatRFC3339 t0 → in_range t0 →
  let q := RunFuncWithRetry false retriesForFailedCommand commandRetryRunTimeout (checkPgsForOsd c osdID) h in
  let s := (checkRebalance c osdID cur h).1 in
  match q.1 with
  | (_, Some e) => rs_Status s = RemoveFailed ∧ rs_Error s = err_msg e
  | (false, None) => s = set_rs_Status RemoveInProgress cur
  | (true, None) =>
      if decide (w_clock (h ++ q.2) - whole_seconds t0 < timeout) then s = cur
      else rs_Status s = RemoveFailed ∧ rs_StartedAt s = rs_StartedAt cur
  end.
Proof.
  intros Hst Ht0. unfold checkRebalance.
  set (m := RunFuncWithRetry false retriesForFailedCommand commandRetryRunTimeout (checkPgsForOsd c osdID)).
  clearbody m. unfold mbind'. destruct (m h) as [[b e] ev]. cbn [fst snd].
  destruct e as [e|], b; try done. unfold whole_seconds. rewrite Hst, parse_format by done.
  unfold time_since, call. cbn [fst snd]. fold timeout.
  destruct (Z.ltb_spec 0 (timeout - (w_clock (h ++ ev) - t0 / second * second))).
  - rewrite decide_True by lia. done.
  - rewrite decide_False by lia. done.
Qed.

Lemma format_nonempty t : FormatRFC3339 t ≠ "".
Proof. unfold FormatRFC3339. destruct (civil_of_days _) as [[y m] d]. done. Qed.

(** Refusals of [ok-to-stop] at successive rounds, with the histories before. *)
Definition refusals (osdID : string) (cur : option RemoveStatus) (hs : list history) : option RemoveStatus :=
  foldl (λ cur h, Some (stop_refused c osdID cur h).1) cur hs.

(** Every round follows the one before within the time limit. *)
Fixpoint steady (prev : option Z) (hs : list history) : Prop :=
  match hs with
  | [] => True
  | h :: hs' =>
      in_range (w_clock h) ∧
      (∀ t, prev = Some t → w_clock h - whole_seconds t < timeout) ∧ steady (Some (w_clock h)) hs'
  end.

Lemma refused_step osdID cur h :
  0 < timeout → in_range (w_clock h) →
  (∀ s, cur = Some s → rs_StartedAt s = "" ∨
     ∃ t, in_range t ∧ rs_StartedAt s = FormatRFC3339 t ∧ w_clock h - whole_seconds t < timeout) →
  let s := (stop_refused c osdID cur h).1 in
  rs_Status s = RemovePending ∧ (rs_StartedAt s = "" ∨ rs_StartedAt s = FormatRFC3339 (w_clock h)).
Proof.
  intros Ht Hr Hcur. unfold stop_refused, stop_wait_left, GetCurrentTimeString, time_since, mbind', mret', call.
  fold timeout. apply Z.ltb_lt in Ht. destruct cur as [s|]; cbn [fst snd not_started].
  - destruct (Hcur s eq_refl) as [He|(t & Hrt & He & Hlt)].
    + rewrite He, decide_False by (by intros []). cbn [fst snd]. rewrite Ht. simpl. rewrite app_nil_r. auto.
    + rewrite He, decide_True by apply format_nonempty. rewrite parse_format by done. cbn [fst snd].
      unfold whole_seconds in Hlt.
      destruct (Z.ltb_spec 0 (timeout - (w_clock h - t / second * second))); [|lia].
      rewrite bool_decide_eq_false_2 by apply format_nonempty. simpl. auto.
  - rewrite Ht. simpl. rewrite app_nil_r. auto.
Qed.

(** The time limit of waiting for [ok-to-stop] is never reached as long as the
    rounds follow each other within it, however long the refusals last: a round
    that finds the start time recorded stores a status without it. *)
Theorem ok_to_stop_limit_not_enforced osdID hs :
  0 < timeout → steady None hs →
  ∀ s, refusals osdID None hs = Some s → rs_Status s = RemovePending.
Proof.
  intros Ht Hsteady s Hs.
  assert (∀ (cur : option RemoveStatus) prev,
    (∀ s, cur = Some s → rs_Status s = RemovePending ∧
       (rs_StartedAt s = "" ∨ ∃ t, prev = Some t ∧ in_range t ∧ rs_StartedAt s = FormatRFC3339 t)) →
    steady prev hs → refusals osdID cur hs = Some s → rs_Status s = RemovePending) as Hgen.
  2: { by apply (Hgen None None). }
  clear Hsteady Hs. induction hs as [|h hs IH]; intros cur prev Hcur Hst Hs; simpl in *.
  { by destruct (Hcur s Hs). }
  destruct Hst as (Hr & Hgap & Hst). destruct (refused_step osdID cur h Ht Hr) as [Hp Hstart].
  { intros s0 Hs0. destruct (Hcur s0 Hs0) as [_ [He|(t & -> & Hrt & He)]]; [by left|right]. exists t. auto. }
  eapply (IH _ (Some (w_clock h))); [|exact Hst|exact Hs].
  intros s0 [= <-]. split; [done|]. destruct Hstart as [?|?]; [by left|right]. eauto.
Qed.

(** ** Replacing an old job *)

(** While an old job with the same name is running, no attempt deletes it or
    creates the new one; after all attempts the creation fails. *)
Theorem running_job_not_replaced job h :
  (∀ h, 0 < js_Active (w_job_get h (job_Namespace job) (job_Name job)).1 ∧
        (w_job_get h (job_Namespace job) (job_Name job)).2 = None) →
  (createCleanupJob job h).1 = Some (new_err "Retries (5/5) exceeded: waiting old job") ∧
  Forall (λ e, e = EvJobGet (job_Namespace job) (job_Name job) ∨ e = EvSleep commandRetryRunTimeout)
    (createCleanupJob job h).2.
Proof.
  intros Hrun. unfold createCleanupJob, RunFuncWithRetry, retriesForFailedCommand.
  set (f := mbind' (call (EvJobGet _ _) _) _).
  assert (∀ h, f h = ((tt, Some (new_err "waiting old job")), [EvJobGet (job_Namespace job) (job_Name job)])) as Hf.
  { intros h'. unfold f, mbind', call. simpl. destruct (Hrun h') as [Ha He].
    destruct (w_job_get h' (job_Namespace job) (job_Name job)) as [js e]. simpl in *. subst e.
    apply Z.ltb_lt in Ha. by rewrite Ha. }
  unfold mbind', sleep, call. cbn [retry_loop]. unfold mbind', sleep, call. rewrite !Hf. cbn [fst snd].
  rewrite !Hf. cbn [fst snd]. rewrite !Hf. cbn [fst snd]. rewrite !Hf. cbn [fst snd]. rewrite !Hf. cbn [fst snd].
  split; [reflexivity|]. simpl.
  repeat (constructor; [first [by left|by right]|]). constructor.
Qed.
End limits.

(** A recorded time is read back within the second it was taken in, and never
    as a later one. *)
Theorem recorded_time t :
  in_range t → ∃ t', ParseRFC3339 (FormatRFC3339 t) = Some t' ∧ t - second < t' ≤ t.
Proof.
  intros Ht. exists (whole_seconds t). split; [by apply parse_format|].
  unfold whole_seconds, second. Z.to_euclidean_division_equations. lia.
Qed.

(** ** Witnesses *)

Lemma shared_device_zapped_by_last_witness :
  (@getJobData default_range "0" (hm_OsdMapping (demo_host None None))).1 = false ∧
  ∃ z, (@getJobData default_range "0" (hm_OsdMapping (demo_host None None))).2 !! "/dev/sdb" =
         Some (set_di_Zap z (demo_device true)) ∧ z = false.
Proof.
  destruct (@shared_device_zapped_by_last default_range "0" (hm_OsdMapping (demo_host None None)) (demo_osd None)
    "/dev/sdb" (demo_device true)) as [_ Hz]; [vm_compute; reflexivity..|].
  assert ((@getJobData default_range "0" (hm_OsdMapping (demo_host None None))).1 = false) as Hno
    by (vm_compute; reflexivity).
  split; [exact Hno|]. destruct (Hz Hno) as (z & Heq & Hiff). exists z. split; [exact Heq|].
  destruct z; [|reflexivity]. destruct (proj1 Hiff eq_refl) as [_ Hall].
  discriminate (Hall "1" (demo_osd None) ltac:(vm_compute; reflexivity) ltac:(discriminate) ltac:(vm_compute; eauto)).
Defined.

Lemma cleanup_job_content_witness :
  ∃ job, EvJobCreate job ∈ (@runCleanupJob (demo_world calm) default_range demo_config "node-1" "0" ""
                              {[ "/dev/sdb" := demo_device true ]} []).2 ∧
    job_NodeSelector job = {[ LabelHostname := "node-1" ]}.
Proof.
  assert (∃ job, EvJobCreate job ∈ (@runCleanupJob (demo_world calm) default_range demo_config "node-1" "0" ""
            {[ "/dev/sdb" := demo_device true ]} []).2) as [job Hjob] by (eexists; vm_compute; mem).
  exists job. split; [exact Hjob|].
  exact (proj1 (proj2 (@cleanup_job_content (demo_world calm) default_range demo_config "node-1" "0" ""
    {[ "/dev/sdb" := demo_device true ]} [] job Hjob))).
Defined.

Lemma retry_bounded_witness :
  sleeps (RunFuncWithRetry 0 3 second (ret (0, Some (new_err "no"))) []).2 = 2%nat.
Proof.
  exact (proj1 (proj2 (retry_bounded (ret (0, Some (new_err "no"))) second (λ h, eq_refl) 0 3 []
    ltac:(discriminate)) _ eq_refl)).
Defined.

Definition rebalancing : RemoveStatus :=
  mkRemoveStatus RemoveWaitingRebalance "" "" (FormatRFC3339 demo_start) "".

Lemma rebalance_decision_witness :
  (@checkRebalance (demo_world calm) demo_config "0" rebalancing []).1 =
    set_rs_Status RemoveInProgress rebalancing.
Proof.
  exact (@rebalance_decision (demo_world calm) demo_config "0" rebalancing demo_start []
    eq_refl ltac:(vm_compute; split; [discriminate|reflexivity])).
Defined.

Lemma ok_to_stop_limit_not_enforced_witness :
  ∃ s, @refusals (demo_world busy_cluster) demo_config "0" None
         [[]; replicate 1000 EvClock; replicate 2000 EvClock; replicate 3000 EvClock] = Some s ∧
    rs_Status s = RemovePending.
Proof.
  eexists. split; [vm_compute; reflexivity|].
  apply (@ok_to_stop_limit_not_enforced (demo_world busy_cluster) demo_config "0"
    [[]; replicate 1000 EvClock; replicate 2000 EvClock; replicate 3000 EvClock]);
    [vm_compute; reflexivity| |vm_compute; reflexivity].
  repeat split; try (intros t Ht; injection Ht as <-); try discriminate; vm_compute; first [reflexivity|discriminate].
Defined.

Lemma running_job_not_replaced_witness :
  let job := mkJob "job" "pelagia" ∅ [] 0 0 "" 0 ∅ "Never" [] [] in
  (@createCleanupJob (demo_world busy_cluster) job []).1 = Some (new_err "Retries (5/5) exceeded: waiting old job").
Proof.
  intros job. apply (@running_job_not_replaced (demo_world busy_cluster) job []).
  intros h. split; [vm_compute; reflexivity|reflexivity].
Defined.

Lemma recorded_time_witness :
  ∃ t', ParseRFC3339 (FormatRFC3339 (demo_start + 5)) = Some t' ∧ t' = demo_start.
Proof.
  destruct (recorded_time (demo_start + 5)) as (t' & Ht' & _); [vm_compute; split; [discriminate|reflexivity]|].
  exists t'. split; [exact Ht'|]. vm_compute in Ht'. injection Ht' as <-. reflexivity.
Defined.
