(* ===== verification/DiskDaemon.v ===== *)
(** * The disk daemon

    pkg/disk-daemon: every 30 seconds the daemon of a node lists the block
    devices and the Ceph volumes, and publishes a report of the disks and of the
    OSDs on them (utils.go, disk_reporter.go, osds_reporter.go, daemon.go), which
    the controllers fetch (api_server.go); [FindDiskName] is from
    pkg/common/lcm_utils.go.

    Parameters of the model: the shell commands and the JSON decoder
    ([DaemonWorld]), and [depth], the depth of recursion the Go stack allows; a
    function that may exceed it, or panic, returns an [option], [None] standing
    for the crash of the daemon. *)

From Stdlib Require Import Ascii.
From S2P Require Import Prelude GoTime Types World Helpers.
Open Scope Z_scope.

(** ** utils.go: what the commands report *)

Inductive DeviceLsblk := mkLsblk
  (lb_Name lb_Kname lb_Serial lb_MajMin : string) (lb_Rotational : bool) (lb_Type lb_Parent : string)
  (lb_Childrens : list DeviceLsblk) (lb_FsType : string).
Definition lb_Name (d : DeviceLsblk) : string := let '(mkLsblk n _ _ _ _ _ _ _ _) := d in n.
Definition lb_Type (d : DeviceLsblk) : string := let '(mkLsblk _ _ _ _ _ t _ _ _) := d in t.
Definition lb_Parent (d : DeviceLsblk) : string := let '(mkLsblk _ _ _ _ _ _ p _ _) := d in p.
Definition lb_Childrens (d : DeviceLsblk) : list DeviceLsblk := let '(mkLsblk _ _ _ _ _ _ _ c _) := d in c.

Record OsdVolumeLvmTags := mkTags {
  tg_BlockDevice : string;
  tg_DBDevice : string;
  tg_ClusterFSID : string;
  tg_OsdFSID : string;
}.
#[global] Instance OsdVolumeLvmTags_eq_dec : EqDecision OsdVolumeLvmTags.
Proof. solve_decision. Defined.

Record OsdVolumeLvmInfo := mkLvmInfo {
  vl_Devices : list string;
  vl_LvPath : string;
  vl_Path : string;
  vl_Tags : OsdVolumeLvmTags;
  vl_Type : string;
}.
#[global] Instance OsdVolumeLvmInfo_eq_dec : EqDecision OsdVolumeLvmInfo.
Proof. solve_decision. Defined.
Definition set_vl_Devices (v : list string) (x : OsdVolumeLvmInfo) : OsdVolumeLvmInfo :=
  mkLvmInfo v (vl_LvPath x) (vl_Path x) (vl_Tags x) (vl_Type x).

Record OsdVolumeRawInfo := mkRawInfo {
  vr_ClusterFSID : string;
  vr_Device : string;
  vr_OsdID : Z;
  vr_OsdFSID : string;
}.
#[global] Instance OsdVolumeRawInfo_eq_dec : EqDecision OsdVolumeRawInfo.
Proof. solve_decision. Defined.

Inductive devent := EvShell (cmd : string) | EvNow.
Abbreviation dhistory := (list devent).
Abbreviation DIO := (M devent).

Class DaemonWorld := {
  (** standard output, standard error, error *)
  dw_shell : dhistory → string → string * string * option err;
  dw_clock : dhistory → Z;
  json_lsblk : string → list DeviceLsblk * option err;
  json_lvs : string → list (list string) * option err;
  json_lvm : string → gmap string (list OsdVolumeLvmInfo) * option err;
  json_raw : string → gmap string OsdVolumeRawInfo * option err;
}.

Definition lsblkCmd : string := "lsblk -J -p -O".
Definition activeLvsCmd : string := "lvm lvs --reportformat json -o lv_dm_path".
Definition lvmListCmd : string := "ceph-volume lvm list --format json".
Definition rawListCmd : string := "ceph-volume raw list --format json".

Section utils.
Context `{DaemonWorld} `{MapRange}.

Definition runShellCmd (cmd : string) : DIO (string * string * option err) :=
  call (EvShell cmd) (λ h, dw_shell h cmd).

(** A command whose output is decoded. *)
Definition run_decoded {A} (zero : A) (cmd what : string) (decode : string → A * option err)
    : DIO (A * option err) :=
  let* r := runShellCmd cmd in
  match r with
  | (_, _, Some e) => ret (zero, Some e)
  | (stdOut, _, None) =>
      match decode stdOut with
      | (_, Some e) => ret (zero, Some (wrap_err what e))
      | (a, None) => ret (a, None)
      end
  end.

Definition getLsblk : DIO (list DeviceLsblk * option err) :=
  run_decoded [] lsblkCmd "unable to unmarshal lsblk output" json_lsblk.

Definition getUdevadmInfo (deviceName query : string) : DIO (string * option err) :=
  let query := if decide (query = "") then "all" else query in
  let* r := runShellCmd ("udevadm info -r --query=" +:+ query +:+ " " +:+ deviceName) in
  let '(stdOut, _, e) := r in ret (stdOut, e).

(** The names of the last report. *)
Definition getActiveLvs : DIO (list string * option err) :=
  let* r := run_decoded [] activeLvsCmd "unable to unmarshal lvm lvs output" json_lvs in
  let '(reports, e) := r in ret (default [] (last reports), e).

(** The loop of [cacheLvms] over the disks. *)
Fixpoint cache_disks (disks : list string) : DIO (option err) :=
  match disks with
  | [] => ret None
  | disk :: rest =>
      let* r := runShellCmd ("pvscan --cache " +:+ disk) in
      match r with
      | (_, _, Some e) => ret (Some (wrap_err "failed to cache volumes" e))
      | _ => cache_disks rest
      end
  end.
Definition cacheLvms (newLvms : gmap string unit) : DIO (option err) := cache_disks (range 40 newLvms).*1.

Definition parse_failed (cmd : string) : string := "failed to parse output for command '" +:+ cmd +:+ "'".
Definition getCephVolumeLvmList : DIO (gmap string (list OsdVolumeLvmInfo) * option err) :=
  run_decoded ∅ lvmListCmd (parse_failed lvmListCmd) json_lvm.
Definition getCephVolumeRawList : DIO (gmap string OsdVolumeRawInfo * option err) :=
  run_decoded ∅ rawListCmd (parse_failed rawListCmd) json_raw.

(** ** disk_reporter.go: block devices *)

(** What [loopOverDevices] fills in. *)
Record scan := mkScan {
  sc_Lvms : gmap string (list string);
  sc_BlockInfo : gmap string BlockDeviceInfo;
  sc_Aliases : gmap string string;
}.
Definition empty_scan : scan := mkScan ∅ ∅ ∅.

(** [append] to a slice unless the element is there. *)
Definition add_new (l : list string) (x : string) : list string := if Contains l x then l else l ++ [x].

Definition lvm_alias (name : string) : string :=
  ReplaceAll (ReplaceAll (ReplaceAll name "/mapper/" "/") "-" "/") "//" "-".

(** The body of the loop for a device, given the links of the device. *)
Definition add_device (d : DeviceLsblk) (symlinksStr : string) (s : scan) : scan :=
  let '(mkLsblk name kname serial majMin rotational type parent childrens fsType) := d in
  let symlinks := Split (TrimSuffix symlinksStr (String (ascii_of_nat 10) EmptyString)) " " in
  let aliases := foldl (λ m symlink, <[symlink := name]> m) (sc_Aliases s) symlinks in
  let symlinks := SortStrings symlinks in
  let aliases := <[name := name]> (<[kname := name]> aliases) in
  let '(aliases, lvms) :=
    if decide (type = "lvm") then
      (<[lvm_alias name := name]> aliases,
       match sc_Lvms s !! name with
       | Some lvDisks => <[name := add_new lvDisks parent]> (sc_Lvms s)
       | None => <[name := [parent]]> (sc_Lvms s)
       end)
    else (aliases, sc_Lvms s) in
  let block :=
    match sc_BlockInfo s !! name with
    | Some info => <[name := set_bdi_Parent (add_new (bdi_Parent info) parent) info]> (sc_BlockInfo s)
    | None =>
        <[name := mkBlockDeviceInfo kname serial type fsType rotational majMin symlinks [parent]
                    (lb_Name <$> childrens)]> (sc_BlockInfo s)
    end in
  mkScan lvms block aliases.

(** A loop that stops at the first error. *)
Section loop.
Context {A S : Type} (f : S → A → DIO (S + err)).
Fixpoint loopE (l : list A) (s : S) : DIO (S + err) :=
  match l with
  | [] => ret (inl s)
  | a :: l' =>
      let* r := f s a in
      match r with
      | inl s' => loopE l' s'
      | inr e => ret (inr e)
      end
  end.
End loop.

Fixpoint loop_device (d : DeviceLsblk) (s : scan) {struct d} : DIO (scan + err) :=
  match d with
  | mkLsblk name kname serial majMin rotational type parent childrens fsType =>
      if decide (type = "loop") then ret (inl s)
      else
        let* r := loopE (λ s d', loop_device d' s) childrens s in
        match r with
        | inr e => ret (inr e)
        | inl s' =>
            let* u := getUdevadmInfo name "symlink" in
            match u with
            | (_, Some e) => ret (inr (wrap_err ("failed to get udevadm info for device '" +:+ name +:+ "'") e))
            | (symlinksStr, None) => ret (inl (add_device d symlinksStr s'))
            end
        end
  end.

Definition loopOverDevices (blockDevices : list DeviceLsblk) (s : scan) : DIO (scan + err) :=
  loopE (λ s d, loop_device d s) blockDevices s.

Definition processLsblkInfo : DIO (scan + err) :=
  let* r := getLsblk in
  match r with
  | (_, Some e) => ret (inr (wrap_err "failed to get lsblk info" e))
  | ([], None) => ret (inr (new_err "no blockdevices found for 'lsblk' output"))
  | (blockDevices, None) =>
      let* r := loopOverDevices blockDevices empty_scan in
      match r with
      | inr e => ret (inr (wrap_err "failed to prepare block info" e))
      | inl s => ret (inl s)
      end
  end.

Definition checkLvmCached (newLvms : gmap string (list string)) : DIO (option err) :=
  let* r := getActiveLvs in
  match r with
  | (_, Some e) => ret (Some e)
  | (activatedLvs, None) =>
      let notActivated : gmap string unit :=
        foldl (λ m '(lvm, disks),
          if Contains activatedLvs lvm then m else foldl (λ m disk, <[disk := tt]> m) m disks)
          ∅ (range 41 newLvms) in
      if decide (notActivated = ∅) then ret None else cacheLvms notActivated
  end.
End utils.

(** ** Disks under a device *)

Definition block_of (blockInfo : gmap string BlockDeviceInfo) (name : string) : BlockDeviceInfo :=
  default zero_BlockDeviceInfo (blockInfo !! name).

(** The concatenation of partial results, [None] as soon as one is missing. *)
Fixpoint concat_o {A B} (f : A → option (list B)) (l : list A) : option (list B) :=
  match l with
  | [] => Some []
  | a :: l' => x ← f a; y ← concat_o f l'; Some (x ++ y)
  end.

Fixpoint findDisks (depth : nat) (name : string) (blockInfo : gmap string BlockDeviceInfo)
    : option (list string) :=
  match depth with
  | O => None
  | S depth' =>
      if decide (bdi_Type (block_of blockInfo name) = "disk") then Some [name]
      else
        match bdi_Parent (block_of blockInfo name) with
        | [] => Some []
        | [parent] => findDisks depth' parent blockInfo
        | parents => concat_o (λ name, findDisks depth' name blockInfo) parents
        end
  end.

(** [FindDiskName]: the disk or the error. *)
Fixpoint FindDiskName (depth : nat) (name : string) (diskReport : DiskDaemonDisksReport)
    : option (string + err) :=
  match depth with
  | O => None
  | S depth' =>
      let name := PathDevPrepended name in
      let not_found := inr (new_err ("device '" +:+ name +:+ "' is not found on a node")) in
      match dr_Aliases diskReport !! name with
      | Some curBlockDev =>
          let info := block_of (dr_BlockInfo diskReport) curBlockDev in
          if decide (bdi_Type info = "disk") then Some (inl curBlockDev)
          else
            match bdi_Parent info with
            | [parent] => FindDiskName depth' parent diskReport
            | [] => Some not_found
            | parents =>
                Some (inr (new_err ("detected multidisk setup, which is not supported: " +:+ Join parents ",")))
            end
      | None => Some not_found
      end
  end.

(** ** daemon.go: the data of the daemon *)

Record runtimeData := mkRuntime {
  rt_disksReport : option DiskDaemonDisksReport;
  rt_volumesLvmReport : gmap string (list OsdVolumeLvmInfo);
  rt_volumesRawReport : gmap string OsdVolumeRawInfo;
  rt_osdsReport : option DiskDaemonOsdsReport;
  rt_knownLvms : gmap string (list string);
}.
Definition set_rt_disksReport (v : option DiskDaemonDisksReport) (x : runtimeData) : runtimeData :=
  mkRuntime v (rt_volumesLvmReport x) (rt_volumesRawReport x) (rt_osdsReport x) (rt_knownLvms x).
Definition set_rt_volumesLvmReport (v : gmap string (list OsdVolumeLvmInfo)) (x : runtimeData) : runtimeData :=
  mkRuntime (rt_disksReport x) v (rt_volumesRawReport x) (rt_osdsReport x) (rt_knownLvms x).
Definition set_rt_volumesRawReport (v : gmap string OsdVolumeRawInfo) (x : runtimeData) : runtimeData :=
  mkRuntime (rt_disksReport x) (rt_volumesLvmReport x) v (rt_osdsReport x) (rt_knownLvms x).
Definition set_rt_osdsReport (v : option DiskDaemonOsdsReport) (x : runtimeData) : runtimeData :=
  mkRuntime (rt_disksReport x) (rt_volumesLvmReport x) (rt_volumesRawReport x) v (rt_knownLvms x).
Definition set_rt_knownLvms (v : gmap string (list string)) (x : runtimeData) : runtimeData :=
  mkRuntime (rt_disksReport x) (rt_volumesLvmReport x) (rt_volumesRawReport x) (rt_osdsReport x) v.

Record diskDaemon := mkDaemon {
  dd_nodeName : string;
  dd_rawDisabled : bool;
  dd_runtime : runtimeData;
  dd_node : DiskDaemonReport;
}.

Definition initDaemonData (nodeName : string) (noRaw : bool) : diskDaemon :=
  mkDaemon nodeName noRaw (mkRuntime None ∅ ∅ None ∅)
    (mkDiskDaemonReport DiskDaemonStateInProgress "" [] None None).

Section daemon.
Context `{DaemonWorld} `{MapRange}.
Variable depth : nat.

(** ** disk_reporter.go: disks and their OSDs *)

(** The disks of one volume. *)
Definition volume_disks (report : DiskDaemonDisksReport) (volume : OsdVolumeLvmInfo) : option (list string) :=
  let disks name := findDisks depth (map_str (dr_Aliases report) name) (dr_BlockInfo report) in
  match vl_Devices volume with
  | [] => disks (vl_Path volume)
  | devices => concat_o disks devices
  end.

(** Adding an OSD to the set of OSDs of a disk. *)
Definition add_osd_disk (osdID : string) (m : gmap string (gmap string unit)) (dev : string)
    : gmap string (gmap string unit) :=
  <[dev := <[osdID := tt]> (default ∅ (m !! dev))]> m.

Definition add_volume (report : DiskDaemonDisksReport) (osdID : string) (m : gmap string (gmap string unit))
    (volume : OsdVolumeLvmInfo) : option (gmap string (gmap string unit)) :=
  devs ← volume_disks report volume;
  Some (foldl (add_osd_disk osdID) m devs).

Definition add_raw (report : DiskDaemonDisksReport) (m : gmap string (list string))
    (entry : string * OsdVolumeRawInfo) : option (gmap string (list string)) :=
  let '(_, rawInfo) := entry in
  disks ← findDisks depth (map_str (dr_Aliases report) (vr_Device rawInfo)) (dr_BlockInfo report);
  Some (match disks with
        | disk :: _ => <[disk := [pretty (vr_OsdID rawInfo)]]> m
        | [] => m
        end).

Definition diskToOsdMap (report : DiskDaemonDisksReport) (lvms : gmap string (list OsdVolumeLvmInfo))
    (raws : gmap string OsdVolumeRawInfo) : option (gmap string (list string)) :=
  if decide (lvms = ∅ ∧ raws = ∅) then Some ∅
  else
    diskToOsd ← foldo (λ m '(osdID, volumes), foldo (add_volume report osdID) m volumes) ∅ (range 42 lvms);
    let diskToOsdMap : gmap string (list string) :=
      foldl (λ m '(dev, mapping), <[dev := SortStrings (range 44 mapping).*1]> m) ∅ (range 43 diskToOsd) in
    foldo (add_raw report) diskToOsdMap (range 45 raws).

(** The first part of [checkDisks]: the block devices.  The runtime data may
    change before an error. *)
Definition save_block_info (s : scan) (rt : runtimeData) : runtimeData :=
  match rt_disksReport rt with
  | Some report => set_rt_disksReport (Some (set_dr_Aliases (sc_Aliases s) (set_dr_BlockInfo (sc_BlockInfo s) report))) rt
  | None => set_rt_disksReport (Some (mkDisksReport (sc_BlockInfo s) (sc_Aliases s) ∅)) rt
  end.

Definition block_info_changed (s : scan) (rt : runtimeData) : bool :=
  match rt_disksReport rt with
  | Some report => negb (bool_decide (dr_BlockInfo report = sc_BlockInfo s))
  | None => true
  end.

Definition check_block_devices (rt : runtimeData) (s : scan) : DIO (runtimeData * (bool + err)) :=
  if block_info_changed s rt then
    if decide (rt_knownLvms rt = sc_Lvms s) then ret (save_block_info s rt, inl true)
    else
      let* e := checkLvmCached (sc_Lvms s) in
      match e with
      | Some e' => ret (rt, inr (wrap_err "daemon is failed to check cached logical volumes" e'))
      | None => ret (save_block_info s (set_rt_knownLvms (sc_Lvms s) rt), inl true)
      end
  else ret (rt, inl false).

(** The raw volumes. *)
Definition check_raw (rawDisabled : bool) (rt : runtimeData) (changed : bool)
    : DIO (runtimeData * (bool + err)) :=
  if rawDisabled then ret (rt, inl changed)
  else
    let* r := getCephVolumeRawList in
    match r with
    | (_, Some e) => ret (rt, inr (wrap_err "daemon is failed to prepare ceph volumes raw info report" e))
    | (raws, None) =>
        if decide (rt_volumesRawReport rt = raws) then ret (rt, inl changed)
        else ret (set_rt_volumesRawReport raws rt, inl true)
    end.

(** The end of [checkDisks]: the map from disks to OSDs of a changed state. *)
Definition finish_disks (rt : runtimeData) (changed : bool) : option (runtimeData * (bool + err)) :=
  if changed then
    report ← rt_disksReport rt;
    m ← diskToOsdMap report (rt_volumesLvmReport rt) (rt_volumesRawReport rt);
    Some (set_rt_disksReport (Some (set_dr_DiskToOsd m report)) rt, inl true)
  else Some (rt, inl false).

(** [checkDisks]: the runtime data and whether it has changed, or the error. *)
Definition checkDisks (rawDisabled : bool) (rt : runtimeData) : DIO (option (runtimeData * (bool + err))) :=
  let* r := processLsblkInfo in
  match r with
  | inr e => ret (Some (rt, inr (wrap_err "daemon is failed to prepare block device report" e)))
  | inl s =>
      let* r := check_block_devices rt s in
      match r with
      | (rt, inr e) => ret (Some (rt, inr e))
      | (rt, inl changed) =>
          let* r := getCephVolumeLvmList in
          match r with
          | (_, Some e) =>
              ret (Some (rt, inr (wrap_err "daemon is failed to prepare ceph volumes lvm info report" e)))
          | (lvms, None) =>
              let* r := check_raw rawDisabled rt changed in
              match r with
              | (rt, inr e) => ret (Some (rt, inr e))
              | (rt, inl changed) =>
                  if decide (rt_volumesLvmReport rt = lvms) then ret (finish_disks rt changed)
                  else ret (finish_disks (set_rt_volumesLvmReport lvms rt) true)
              end
          end
      end
  end.

(** ** osds_reporter.go *)

(** [slices.Compact]: equal neighbours are merged. *)
Fixpoint compact (l : list string) : list string :=
  match l with
  | x :: (y :: _) as l' => if decide (x = y) then compact l' else x :: compact l'
  | l => l
  end.

(** The volume the loop works on, and what the compaction, which works in place,
    leaves in the stored report: the merged names, then empty strings. *)
Definition compact_volume (volume : OsdVolumeLvmInfo) : OsdVolumeLvmInfo :=
  if (1 <? length (vl_Devices volume))%nat then set_vl_Devices (compact (vl_Devices volume)) volume else volume.

Definition stored_volume (volume : OsdVolumeLvmInfo) : OsdVolumeLvmInfo :=
  let devices := vl_Devices (compact_volume volume) in
  set_vl_Devices (devices ++ replicate (length (vl_Devices volume) - length devices) EmptyString) volume.

(** The state of the loop over the volumes of an OSD. *)
Record osd_loop := mkOsdLoop {
  ol_info : list OsdDaemonInfo;
  ol_idx : gmap string nat;
  ol_issues : list string;
  ol_warnings : list string;
}.

(** The device of a volume, or an issue. *)
Definition volume_device (osd : string) (volume : OsdVolumeLvmInfo) : string + string :=
  match vl_Devices volume with
  | [device] => inl device
  | [] =>
      if decide (vl_Type volume = "db") then inl (vl_Path volume)
      else inr ("found physical osd " +:+ vl_Type volume +:+ " partition '" +:+ vl_Path volume +:+
                "' for osd '" +:+ osd +:+ "', which is not supported")
  | _ => inr ("multidisk setup detected for osd '" +:+ osd +:+ "', partition '" +:+ vl_Path volume +:+
              "', which is not supported")
  end.

(** The partition of a volume. *)
Definition volume_partition (report : DiskDaemonDisksReport) (volume : OsdVolumeLvmInfo) : OsdPartition :=
  let '(symlinks, present) :=
    match dr_Aliases report !! vl_Path volume with
    | Some blockName =>
        let info := block_of (dr_BlockInfo report) blockName in
        (if decide (bdi_Type info ≠ "disk") then
           bdi_Symlinks info ++
           (if decide (blockName ≠ vl_Path volume) then [blockName] else []) ++
           (if decide (bdi_Kname info ≠ blockName) then [bdi_Kname info] else [])
         else [], true)
    | None => ([], false)
    end in
  mkOsdPartition (vl_Path volume) (SortStrings symlinks) (vl_Type volume) present
    (bool_decide (vl_LvPath volume ≠ "")).

(** [devName != osdDeviceName && len(Devices) == 1] *)
Definition is_parted (devName osdDeviceName : string) (volume : OsdVolumeLvmInfo) : bool :=
  bool_decide (devName ≠ osdDeviceName) && (length (vl_Devices volume) =? 1)%nat.

(** The search for the entry the volume belongs to: the index found, the related
    partition to add, and the new index map. *)
Definition related (tag otherType : string) (path : string) (idx : gmap string nat)
    : option nat * option OsdPartition * gmap string nat :=
  if decide (tag ≠ "") then
    match idx !! tag with
    | Some i => (Some i, None, idx)
    | None => (None, Some (mkOsdPartition tag [] otherType false false), <[tag := default 0%nat (idx !! path)]> idx)
    end
  else (idx !! path, None, idx).

Definition find_related (volume : OsdVolumeLvmInfo) (idx : gmap string nat)
    : option nat * option OsdPartition * gmap string nat :=
  if decide (vl_Type volume = "db") then
    related (tg_BlockDevice (vl_Tags volume)) "block" (vl_Path volume) idx
  else if decide (vl_Type volume = "block") then
    related (tg_DBDevice (vl_Tags volume)) "db" (vl_Path volume) idx
  else (None, None, idx).

(** Replacing the partition of that name, or adding it. *)
Fixpoint put_partition (part : OsdPartition) (l : list OsdPartition) : list OsdPartition :=
  match l with
  | [] => [part]
  | p :: l' => if decide (op_Partition p = op_Partition part) then part :: l' else p :: put_partition part l'
  end.

Definition zero_OsdDaemonInfo : OsdDaemonInfo := mkOsdDaemonInfo "" "" [] [].

(** Whether the volume belongs to the entry found. *)
Definition related_ok (volume : OsdVolumeLvmInfo) (part : OsdPartition) (info : OsdDaemonInfo) : bool :=
  let tags := vl_Tags volume in
  let curLegacyPart :=
    negb (op_Lvm part) && bool_decide (op_Type part = "db") &&
    (bool_decide (tg_OsdFSID tags = "") || bool_decide (tg_ClusterFSID tags = "")) in
  let legacyPartFound :=
    negb curLegacyPart && (bool_decide (odi_OsdUUID info = "") || bool_decide (odi_ClusterFSID info = "")) &&
    existsb (λ p, negb (op_Lvm p) && bool_decide (op_Type p = "db")) (odi_Partitions info) in
  (bool_decide (tg_OsdFSID tags = odi_OsdUUID info) && bool_decide (tg_ClusterFSID tags = odi_ClusterFSID info)) ||
  curLegacyPart || legacyPartFound.

Definition or_else (s d : string) : string := if decide (s = "") then d else s.

(** Adding a volume on the device [dev] to the entries of its OSD; [None] for an
    index out of range. *)
Definition merge_volume (volume : OsdVolumeLvmInfo) (dev : OsdDevice) (part : OsdPartition) (st : osd_loop)
    : option osd_loop :=
  let tags := vl_Tags volume in
  let '(found, extra, idx) := find_related volume (ol_idx st) in
  info ← (match found with Some i => ol_info st !! i | None => Some zero_OsdDaemonInfo end);
  match found with
  | Some i =>
      if related_ok volume part info then
        let info :=
          mkOsdDaemonInfo (or_else (odi_OsdUUID info) (tg_OsdFSID tags))
            (or_else (odi_ClusterFSID info) (tg_ClusterFSID tags))
            (odi_Devices info ++ [dev]) (put_partition part (odi_Partitions info)) in
        Some (mkOsdLoop (<[i := info]> (ol_info st)) idx (ol_issues st) (ol_warnings st))
      else
        Some (mkOsdLoop (ol_info st ++ [mkOsdDaemonInfo (tg_OsdFSID tags) (tg_ClusterFSID tags) [dev] [part]])
                (<[vl_Path volume := length (ol_info st)]> idx) (ol_issues st) (ol_warnings st))
  | None =>
      Some (mkOsdLoop
              (ol_info st ++
               [mkOsdDaemonInfo (tg_OsdFSID tags) (tg_ClusterFSID tags) [dev] (part :: option_list extra)])
              (<[vl_Path volume := length (ol_info st)]> idx) (ol_issues st) (ol_warnings st))
  end.

Definition add_issue (issue : string) (st : osd_loop) : osd_loop :=
  mkOsdLoop (ol_info st) (ol_idx st) (ol_issues st ++ [issue]) (ol_warnings st).
Definition add_warnings (w : list string) (st : osd_loop) : osd_loop :=
  mkOsdLoop (ol_info st) (ol_idx st) (ol_issues st) (ol_warnings st ++ w).

(** One volume (compacted): [inr] ends the loop of the OSD with an issue. *)
Definition check_volume (report : DiskDaemonDisksReport) (osd : string) (volume : OsdVolumeLvmInfo)
    (st : osd_loop) : option (osd_loop + osd_loop) :=
  match volume_device osd volume with
  | inr issue => Some (inr (add_issue issue st))
  | inl osdDeviceName =>
      r ← FindDiskName depth osdDeviceName report;
      match r with
      | inr e =>
          Some (inr (add_issue ("for osd '" +:+ osd +:+ "', partition '" +:+ vl_Path volume +:+ "' " +:+ err_msg e) st))
      | inl devName =>
          let info := block_of (dr_BlockInfo report) devName in
          let parted := is_parted devName osdDeviceName volume in
          let dev := mkOsdDevice devName (bdi_Serial info) (SortStrings (bdi_Symlinks info)) (bdi_Rotational info)
                       (vl_Path volume) (if parted then osdDeviceName else EmptyString) false in
          let w1 := if (parted : bool) then
              ["found osd " +:+ vl_Type volume +:+ " partition '" +:+ vl_Path volume +:+ "' for osd '" +:+ osd +:+
               "' placed on top of partition '" +:+ osdDeviceName +:+ "'"] else [] in
          let part := volume_partition report volume in
          let w2 := if op_Lvm part then [] else
              ["found physical osd " +:+ op_Type part +:+ " partition '" +:+ op_Partition part +:+
               "' for osd '" +:+ osd +:+ "'"] in
          st' ← merge_volume volume dev part (add_warnings (w1 ++ w2) st);
          Some (inl st')
      end
  end.

(** The volumes of an OSD: the loop state and the stored volumes, which the
    rounds before the end have compacted. *)
Fixpoint check_volumes (report : DiskDaemonDisksReport) (osd : string) (volumes : list OsdVolumeLvmInfo)
    (st : osd_loop) : option (osd_loop * list OsdVolumeLvmInfo) :=
  match volumes with
  | [] => Some (st, [])
  | volume :: rest =>
      r ← check_volume report osd (compact_volume volume) st;
      match r with
      | inr st' => Some (st', stored_volume volume :: rest)
      | inl st' =>
          '(st'', stored) ← check_volumes report osd rest st';
          Some (st'', stored_volume volume :: stored)
      end
  end.

(** The loops over all OSDs: the report, the issues, the warnings and the stored
    volumes. *)
Record osds_loop := mkOsdsLoop {
  os_Osds : gmap string (list OsdDaemonInfo);
  os_issues : list string;
  os_warnings : list string;
  os_volumes : gmap string (list OsdVolumeLvmInfo);
}.

Definition check_osd (report : DiskDaemonDisksReport) (s : osds_loop)
    (entry : string * list OsdVolumeLvmInfo) : option osds_loop :=
  let '(osd, volumes) := entry in
  '(st, stored) ← check_volumes report osd volumes (mkOsdLoop [] ∅ (os_issues s) (os_warnings s));
  Some (mkOsdsLoop (<[osd := ol_info st]> (os_Osds s)) (ol_issues st) (ol_warnings st)
          (<[osd := stored]> (os_volumes s))).

Definition check_raw_osd (report : DiskDaemonDisksReport) (s : osds_loop)
    (entry : string * OsdVolumeRawInfo) : option osds_loop :=
  let '(_, raw) := entry in
  let osdStr := pretty (vr_OsdID raw) in
  let issue msg := mkOsdsLoop (os_Osds s) (os_issues s ++ [msg]) (os_warnings s) (os_volumes s) in
  let prefix := "for osd '" +:+ osdStr +:+ "', raw device '" +:+ vr_Device raw +:+ "' " in
  let rawDev := map_str (dr_Aliases report) (PathDevPrepended (vr_Device raw)) in
  if decide (bdi_Type (block_of (dr_BlockInfo report) rawDev) ≠ "disk") then
    Some (issue (prefix +:+ "is not a full disk (likely physical partition), only full disk raw osds are supported"))
  else
    r ← FindDiskName depth (vr_Device raw) report;
    match r with
    | inr e => Some (issue (prefix +:+ err_msg e))
    | inl devName =>
        let block := block_of (dr_BlockInfo report) devName in
        let info := mkOsdDaemonInfo (vr_OsdFSID raw) (vr_ClusterFSID raw)
          [mkOsdDevice devName (bdi_Serial block) (bdi_Symlinks block) (bdi_Rotational block) "" "" true] [] in
        Some (mkOsdsLoop (<[osdStr := default [] (os_Osds s !! osdStr) ++ [info]]> (os_Osds s))
                (os_issues s) (os_warnings s) (os_volumes s))
    end.

(** [checkOsds]: the issues and the new runtime data. *)
Definition checkOsds (rt : runtimeData) : option (list string * runtimeData) :=
  report ← rt_disksReport rt;
  s ← foldo (check_osd report) (mkOsdsLoop ∅ [] [] (rt_volumesLvmReport rt)) (range 46 (rt_volumesLvmReport rt));
  s ← foldo (check_raw_osd report) s (range 47 (rt_volumesRawReport rt));
  Some (SortStrings (os_issues s),
        set_rt_osdsReport (Some (mkOsdsReport (SortStrings (os_warnings s)) (os_Osds s)))
          (set_rt_volumesLvmReport (os_volumes s) rt)).

(** ** daemon.go: publishing *)

Definition updateNodeReportState (ready : bool) (disksReport : option DiskDaemonDisksReport)
    (osdsReport : option DiskDaemonOsdsReport) (issues : list string) (d : diskDaemon) : DIO diskDaemon :=
  let state :=
    match issues with
    | _ :: _ => DiskDaemonStateFailed
    | [] => if ready then DiskDaemonStateOk else DiskDaemonStateInProgress
    end in
  let* now := call EvNow (λ h, FormatRFC3339 (dw_clock h)) in
  ret (mkDaemon (dd_nodeName d) (dd_rawDisabled d) (dd_runtime d)
         (mkDiskDaemonReport state now issues disksReport osdsReport)).

Definition set_runtime (rt : runtimeData) (d : diskDaemon) : diskDaemon :=
  mkDaemon (dd_nodeName d) (dd_rawDisabled d) rt (dd_node d).

(** One tick of the daemon. *)
Definition prepareReport (d : diskDaemon) : DIO (option diskDaemon) :=
  let* d := updateNodeReportState false None None [] d in
  let* r := checkDisks (dd_rawDisabled d) (dd_runtime d) in
  match r with
  | None => ret None
  | Some (rt, inr e) =>
      let* d := updateNodeReportState false None None [err_msg e] (set_runtime rt d) in ret (Some d)
  | Some (rt, inl stateChanged) =>
      match (if (stateChanged : bool) then checkOsds rt else Some ([], rt)) with
      | None => ret None
      | Some (osdIssues, rt) =>
          let* d := updateNodeReportState true (rt_disksReport rt) (rt_osdsReport rt) osdIssues (set_runtime rt d) in
          ret (Some d)
      end
  end.

(** ** api_server.go: what is served *)
Definition getFullReport (d : diskDaemon) : DiskDaemonReport := dd_node d.
Definition getOsdReport (d : diskDaemon) : DiskDaemonReport :=
  mkDiskDaemonReport (ddr_State (dd_node d)) (ddr_LastRun (dd_node d)) (ddr_Issues (dd_node d)) None
    (ddr_OsdsReport (dd_node d)).
End daemon.
