(* ===== verification/DiskFacts.v ===== *)
(** * Theorems about the disk daemon

    The search for the disks under a device, the scan of the block devices, the
    report of the OSDs, and what the daemon publishes. *)

From Stdlib Require Import Ascii.
From S2P Require Import Prelude GoTime Types World Helpers DiskDaemon SpecFacts.
Open Scope Z_scope.

(** ** Disks under a device *)

Section disks.
Context (bi : gmap string BlockDeviceInfo).

(** [under n d]: the disk [d] is reached from the device [n] by parent links. *)
Inductive under : string → string → Prop :=
| under_disk n : bdi_Type (block_of bi n) = "disk" → under n n
| under_parent n p d :
    bdi_Type (block_of bi n) ≠ "disk" → p ∈ bdi_Parent (block_of bi n) → under p d → under n d.

Lemma concat_o_elem {A B} (f : A → option (list B)) l r x :
  concat_o f l = Some r → x ∈ r ↔ ∃ a y, a ∈ l ∧ f a = Some y ∧ x ∈ y.
Proof.
  revert r. induction l as [|a l IH]; intros r; simpl.
  { intros [= <-]. split; [by intros ?%elem_of_nil|]. intros (? & ? & ?%elem_of_nil & _). done. }
  intros (y & Hy & (z & Hz & [= <-])%bind_Some)%bind_Some. rewrite elem_of_app, (IH z Hz). split.
  - intros [Hin|(a' & y' & Ha' & Hy' & Hin)]; [exists a, y; split_and!; [left|done..]|exists a', y'; split_and!; [by right|done..]].
  - intros (a' & y' & [->|Ha']%elem_of_cons & Hy' & Hin); [left; congruence|right; eauto].
Qed.

Lemma concat_o_some {A B} (f : A → option (list B)) l :
  (∀ a, a ∈ l → is_Some (f a)) → is_Some (concat_o f l).
Proof.
  induction l as [|a l IH]; intros Hf; simpl; [eauto|].
  destruct (Hf a (list_elem_of_here _ _)) as [y ->]. simpl.
  destruct IH as [z ->]; [intros; apply Hf; by right|]. simpl. eauto.
Qed.

(** The parents, however many, are searched one after the other. *)
Lemma findDisks_S depth n :
  bdi_Type (block_of bi n) ≠ "disk" →
  findDisks (S depth) n bi = concat_o (λ p, findDisks depth p bi) (bdi_Parent (block_of bi n)).
Proof.
  intros Hne. cbn [findDisks]. rewrite decide_False by done.
  destruct (bdi_Parent (block_of bi n)) as [|p [|q l]]; [done| |done].
  simpl. destruct (findDisks depth p bi) as [l|]; simpl; [by rewrite app_nil_r|done].
Qed.

(** The disks found under a device are exactly those reached by parent links,
    through devices that are not disks themselves. *)
Theorem findDisks_exact depth n l d :
  findDisks depth n bi = Some l → d ∈ l ↔ under n d.
Proof.
  revert n l. induction depth as [|depth IH]; intros n l; [done|].
  destruct (decide (bdi_Type (block_of bi n) = "disk")) as [Hd|Hne].
  - cbn [findDisks]. rewrite decide_True by done. intros [= <-]. rewrite list_elem_of_singleton. split.
    + intros ->. by constructor.
    + by inversion 1.
  - rewrite findDisks_S by done. intros Hl. rewrite (concat_o_elem _ _ _ d Hl). split.
    + intros (p & y & Hp & Hy & Hin). apply (under_parent n p d); [done..|]. by apply (IH p y).
    + inversion 1 as [|? p ? ? Hp Hu]; [congruence|subst].
      assert (is_Some (findDisks depth p bi)) as [y Hy].
      { revert Hl Hp. generalize (bdi_Parent (block_of bi n)). clear. intros ps. revert l.
        induction ps as [|a ps IH]; intros l; [by intros _ ?%elem_of_nil|]. simpl.
        intros (x & Hx & (z & Hz & _)%bind_Some)%bind_Some [->|Hp]%elem_of_cons; eauto. }
      exists p, y. split_and!; [done..|]. by apply (IH p y).
Qed.

(** The search ends when the parent links have no cycle: [rank] decreases
    along them and starts below the depth the stack allows. *)
Theorem findDisks_terminates (rank : string → nat) depth n :
  (∀ n p, bdi_Type (block_of bi n) ≠ "disk" → p ∈ bdi_Parent (block_of bi n) → (rank p < rank n)%nat) →
  (rank n < depth)%nat → is_Some (findDisks depth n bi).
Proof.
  intros Hrank. revert n. induction depth as [|depth IH]; intros n Hn; [lia|].
  destruct (decide (bdi_Type (block_of bi n) = "disk")) as [Hd|Hne].
  - cbn [findDisks]. rewrite decide_True by done. eauto.
  - rewrite findDisks_S by done. apply concat_o_some. intros p Hp. apply IH.
    specialize (Hrank n p Hne Hp). lia.
Qed.
End disks.

(** ** The name of the disk *)

Section name.
Context (r : DiskDaemonDisksReport).

Lemma FindDiskName_disk depth n d :
  FindDiskName depth n r = Some (inl d) → bdi_Type (block_of (dr_BlockInfo r) d) = "disk".
Proof.
  revert n. induction depth as [|depth IH]; intros n; [done|]. cbn [FindDiskName]. cbv zeta.
  destruct (dr_Aliases r !! PathDevPrepended n) as [cur|]; [|done].
  destruct (decide (bdi_Type (block_of (dr_BlockInfo r) cur) = "disk")) as [Hd|Hne]; [by intros [= <-]|].
  destruct (bdi_Parent (block_of (dr_BlockInfo r) cur)) as [|p [|q l]]; [done|apply IH|done].
Qed.

(** No cycle among the parent links, followed through the aliases. *)
Definition ranked (rank : string → nat) : Prop :=
  ∀ n cur p, dr_Aliases r !! PathDevPrepended n = Some cur → p ∈ bdi_Parent (block_of (dr_BlockInfo r) cur) →
    (rank p < rank n)%nat.

Lemma FindDiskName_total rank depth n : ranked rank → (rank n < depth)%nat → is_Some (FindDiskName depth n r).
Proof.
  intros Hrank. revert n. induction depth as [|depth IH]; intros n Hn; [lia|]. cbn [FindDiskName]. cbv zeta.
  destruct (dr_Aliases r !! PathDevPrepended n) as [cur|] eqn:Hcur; [|eauto].
  destruct (decide _); [eauto|].
  destruct (bdi_Parent (block_of (dr_BlockInfo r) cur)) as [|p [|q l]] eqn:Hp; [eauto| |eauto].
  apply IH. specialize (Hrank n cur p Hcur). rewrite Hp in Hrank. specialize (Hrank (list_elem_of_here _ _)). lia.
Qed.
End name.

(** ** The scan of the block devices *)

(** [listed l x]: the device [x] is in the forest [l], not below or at a loop
    device. *)
Inductive listed : list DeviceLsblk → DeviceLsblk → Prop :=
| listed_here d l : d ∈ l → lb_Type d ≠ "loop" → listed l d
| listed_below d l x : d ∈ l → lb_Type d ≠ "loop" → listed (lb_Childrens d) x → listed l x.

Lemma DeviceLsblk_ind' (P : DeviceLsblk → Prop) :
  (∀ d, (∀ c, c ∈ lb_Childrens d → P c) → P d) → ∀ d, P d.
Proof.
  intros HP. fix IH 1. intros [n k s m r t p cs f]. apply HP. simpl.
  apply Forall_forall. revert cs. fix IHcs 1. intros [|c cs]; constructor; [exact (IH c)|exact (IHcs cs)].
Qed.

Section scanning.
Context `{DaemonWorld} `{MapRange}.

(** The scan knows the device [n] with the parent [p]. *)
Definition knows (s : scan) (n p : string) : Prop :=
  ∃ info, sc_BlockInfo s !! n = Some info ∧ p ∈ bdi_Parent info.

Definition occurs (l : list DeviceLsblk) (n p : string) : Prop :=
  ∃ x, listed l x ∧ lb_Name x = n ∧ lb_Parent x = p.

Definition scanned (s s' : scan) (l : list DeviceLsblk) : Prop :=
  ∀ n p, knows s' n p ↔ knows s n p ∨ occurs l n p.

Lemma add_new_elem l x y : y ∈ add_new l x ↔ y ∈ l ∨ y = x.
Proof.
  assert (∀ l, Contains l x = true ↔ x ∈ l) as Hc.
  { clear. intros l. induction l as [|v l IH]; simpl; [split; [done|by intros ?%elem_of_nil]|].
    rewrite elem_of_cons. case_decide; naive_solver. }
  unfold add_new. destruct (Contains l x) eqn:Hx; [apply Hc in Hx; naive_solver|].
  rewrite elem_of_app, list_elem_of_singleton. done.
Qed.

Lemma add_device_knows d links s n p :
  knows (add_device d links s) n p ↔ knows s n p ∨ lb_Name d = n ∧ lb_Parent d = p.
Proof.
  destruct d as [name kname serial mm rot type parent cs fs]. unfold knows, add_device. cbn [lb_Name lb_Parent].
  destruct (if decide (type = "lvm") then _ else _) as [aliases lvms]. cbn [sc_BlockInfo].
  destruct (sc_BlockInfo s !! name) as [i|] eqn:Hi; destruct (decide (name = n)) as [<-|Hne].
  - rewrite lookup_insert_eq. split.
    + intros (info & [= <-] & Hp). apply add_new_elem in Hp as [?| ->]; [left; eauto|by right].
    + intros [(info & Hinfo & Hp)|[_ ->]]; (eexists; split; [done|]; apply add_new_elem); [left; congruence|by right].
  - rewrite lookup_insert_ne by done. naive_solver.
  - rewrite lookup_insert_eq. split.
    + intros (info & [= <-] & Hp). simpl in Hp. apply list_elem_of_singleton in Hp. by right.
    + intros [(info & Hinfo & Hp)|[_ ->]]; [congruence|]. eexists; split; [done|]. left.
  - rewrite lookup_insert_ne by done. naive_solver.
Qed.

Lemma occurs_cons d l n p : occurs (d :: l) n p ↔ occurs [d] n p ∨ occurs l n p.
Proof.
  unfold occurs. split.
  - intros (x & Hx & Heq). inversion Hx as [? ? Hin Ht|d' ? ? Hin Ht Hb]; subst;
      apply elem_of_cons in Hin as [->|Hin].
    + left. exists d. split; [|done]. by apply listed_here; [left|].
    + right. exists x. split; [|done]. by apply listed_here.
    + left. exists x. split; [|done]. by eapply listed_below; [left| |].
    + right. exists x. split; [|done]. by eapply listed_below.
  - intros [(x & Hx & Heq)|(x & Hx & Heq)]; exists x; (split; [|done]);
      inversion Hx as [? ? Hin Ht|d' ? ? Hin Ht Hb]; subst.
    + apply list_elem_of_singleton in Hin as ->. by apply listed_here; [left|].
    + apply list_elem_of_singleton in Hin as ->. by eapply listed_below; [left| |].
    + by apply listed_here; [right|].
    + by eapply listed_below; [right| |].
Qed.

Lemma occurs_one d n p :
  lb_Type d ≠ "loop" →
  occurs [d] n p ↔ occurs (lb_Childrens d) n p ∨ lb_Name d = n ∧ lb_Parent d = p.
Proof.
  intros Ht. unfold occurs. split.
  - intros (x & Hx & Heq). inversion Hx as [? ? Hin _|d' ? ? Hin _ Hb]; subst;
      apply list_elem_of_singleton in Hin as ->; [by right|left; eauto].
  - intros [(x & Hx & Heq)|Heq]; [exists x|exists d]; (split; [|done]).
    + by eapply listed_below; [left| |].
    + by apply listed_here; [left|].
Qed.

Lemma scan_list l s :
  (∀ d, d ∈ l → ∀ s, spec (λ _, True) (loop_device d s) (λ r, ∀ s', r = inl s' → scanned s s' [d])) →
  spec (λ _, True) (loopOverDevices l s) (λ r, ∀ s', r = inl s' → scanned s s' l).
Proof.
  unfold loopOverDevices. revert s. induction l as [|d l IH]; intros s Hl; cbn [loopE].
  { apply spec_ret. intros s' [= <-] n p. split; [by left|]. intros [?|(x & Hx & _)]; [done|].
    by inversion Hx as [? ? Hin|? ? ? Hin]; apply elem_of_nil in Hin. }
  eapply spec_bind; [apply Hl; left|]. intros [s1|e] Hs1; [|by apply spec_ret].
  specialize (Hs1 s1 eq_refl). eapply spec_post; [apply IH; intros; apply Hl; by right|].
  intros r Hr s' Hs' n p. rewrite (Hr s' Hs' n p), (Hs1 n p), (occurs_cons d l). tauto.
Qed.

Lemma scan_device d s :
  spec (λ _, True) (loop_device d s) (λ r, ∀ s', r = inl s' → scanned s s' [d]).
Proof.
  revert s. induction d as [d IH] using DeviceLsblk_ind'. intros s.
  destruct d as [name kname serial mm rot type parent cs fs]. cbn [loop_device].
  destruct (decide (type = "loop")) as [->|Ht].
  { apply spec_ret. intros s' [= <-] n p. split; [by left|]. intros [?|(x & Hx & _)]; [done|].
    inversion Hx as [? ? Hin Ht|? ? ? Hin Ht]; subst; apply list_elem_of_singleton in Hin; by subst. }
  eapply spec_bind; [apply (scan_list cs s IH)|]. intros [s1|e] Hs1; [|by apply spec_ret].
  specialize (Hs1 s1 eq_refl).
  apply spec_bind_any; [apply spec_triv|]. intros [links [e|]]; apply spec_ret; [done|].
  intros s' Hs' n p. assert (s' = add_device (mkLsblk name kname serial mm rot type parent cs fs) links s1) as ->
    by congruence.
  rewrite add_device_knows, (Hs1 n p), (occurs_one (mkLsblk name kname serial mm rot type parent cs fs)) by done. tauto.
Qed.

(** The scan knows exactly the devices [lsblk] lists, loop devices and what is
    below them left out, each with exactly the parents it is listed with. *)
Theorem scan_exact devices h s n p :
  (loopOverDevices devices empty_scan h).1 = inl s →
  (∃ info, sc_BlockInfo s !! n = Some info ∧ p ∈ bdi_Parent info) ↔
  ∃ x, listed devices x ∧ lb_Name x = n ∧ lb_Parent x = p.
Proof.
  intros Hs. destruct (scan_list devices empty_scan (λ d _, scan_device d) h) as [Hscan _].
  specialize (Hscan s Hs n p). unfold knows in Hscan at 1. rewrite Hscan. split.
  - intros [(info & Hinfo & _)|Hocc]; [unfold empty_scan in Hinfo; simpl in Hinfo; by rewrite lookup_empty in Hinfo|done].
  - by right.
Qed.
End scanning.

(** ** The report of the OSDs *)

Section osds.
Context `{DaemonWorld} `{MapRange} (depth : nat).

(** The indices recorded for the partitions of an OSD are in range. *)
Definition idx_ok (st : osd_loop) : Prop := map_Forall (λ _ i, (i < length (ol_info st))%nat) (ol_idx st).

Lemma related_in_range tag other path idx n :
  map_Forall (λ _ i, (i < n)%nat) idx →
  let r := related tag other path idx in
  (∀ i, r.1.1 = Some i → (i < n)%nat) ∧
  (r.1.1 = None → map_Forall (λ _ i, (i < S n)%nat) r.2) ∧ (r.1.1 ≠ None → r.2 = idx).
Proof.
  intros Hidx. assert (map_Forall (λ _ i, (i < S n)%nat) idx) as HS.
  { intros k i Hk. specialize (Hidx k i Hk). simpl in Hidx. lia. }
  unfold related. destruct (decide (tag ≠ "")) as [Ht|Ht]; [|split_and!; try done; intros i Hi; by apply (Hidx path)].
  destruct (idx !! tag) as [i|] eqn:Hi; simpl.
  - split_and!; try done. intros ? [= <-]. by apply (Hidx tag).
  - split_and!; try done. intros _. apply map_Forall_insert_2; [|done].
    destruct (idx !! path) as [i|] eqn:Hp; simpl; [|lia]. specialize (Hidx path i Hp). simpl in Hidx. lia.
Qed.

Lemma find_related_in_range volume idx n :
  map_Forall (λ _ i, (i < n)%nat) idx →
  let r := find_related volume idx in
  (∀ i, r.1.1 = Some i → (i < n)%nat) ∧
  (r.1.1 = None → map_Forall (λ _ i, (i < S n)%nat) r.2) ∧ (r.1.1 ≠ None → r.2 = idx).
Proof.
  intros Hidx. unfold find_related. repeat case_decide; try by apply related_in_range. simpl.
  split_and!; try done. intros _ k i Hk. specialize (Hidx k i Hk). simpl in Hidx. lia.
Qed.

Lemma merge_volume_ok volume dev part st :
  idx_ok st → ∃ st', merge_volume volume dev part st = Some st' ∧ idx_ok st'.
Proof.
  intros Hok. unfold merge_volume. pose proof (find_related_in_range volume _ _ Hok) as Hrel.
  destruct (find_related volume (ol_idx st)) as [[[i|] extra] idx]; simpl in Hrel; destruct Hrel as (Hi & Hn & Hs).
  - assert (is_Some (ol_info st !! i)) as [info Hinfo] by (apply lookup_lt_is_Some; by apply Hi).
    rewrite Hinfo. simpl. rewrite (Hs ltac:(done)). destruct (related_ok volume part info); (eexists; split; [done|]).
    + unfold idx_ok in *. simpl. by rewrite length_insert.
    + unfold idx_ok. simpl. rewrite length_app. simpl. apply map_Forall_insert_2; [lia|].
      intros k j Hk. specialize (Hok k j Hk). simpl in Hok. lia.
  - simpl. eexists; split; [done|]. unfold idx_ok. simpl. rewrite length_app. simpl.
    apply map_Forall_insert_2; [lia|]. intros k j Hk. specialize (Hn eq_refl k j Hk). simpl in Hn. lia.
Qed.

Context (report : DiskDaemonDisksReport).
Hypothesis Hname : ∀ n, is_Some (FindDiskName depth n report).

Lemma check_volume_ok osd volume st :
  idx_ok st → ∃ r, check_volume depth report osd volume st = Some r ∧ match r with inl st' => idx_ok st' | inr _ => True end.
Proof using Hname.
  intros Hok. unfold check_volume. destruct (volume_device osd volume) as [name|issue]; [|by eexists (inr _)].
  destruct (Hname name) as [[devName|e] ->]; cbn [mbind option_bind]; [|by eexists (inr _)].
  match goal with |- context [merge_volume ?v ?d ?p ?s] => destruct (merge_volume_ok v d p s) as (st' & -> & Hst') end;
    [done|]. cbn [mbind option_bind]. by exists (inl st').
Qed.

Lemma check_volumes_ok osd volumes st : idx_ok st → is_Some (check_volumes depth report osd volumes st).
Proof using Hname.
  revert st. induction volumes as [|v vs IH]; intros st Hok; simpl; [eauto|].
  destruct (check_volume_ok osd (compact_volume v) st Hok) as ([st'|st'] & -> & Hst'); simpl; [|eauto].
  destruct (IH st' Hst') as [[st'' stored] ->]. simpl. eauto.
Qed.

Lemma checkOsds_some rt : rt_disksReport rt = Some report → is_Some (checkOsds depth rt).
Proof using Hname.
  intros Hr. unfold checkOsds. rewrite Hr. simpl.
  match goal with |- context [foldo ?f ?s0 ?l] => destruct (foldo_some f l s0) as [s1 ->] end.
  { intros [osd vols] s. unfold check_osd.
    destruct (check_volumes_ok osd vols (mkOsdLoop [] ∅ (os_issues s) (os_warnings s))) as [[st stored] ->];
      [apply map_Forall_empty|]. simpl. eauto. }
  simpl. match goal with |- context [foldo ?f ?s0 ?l] => destruct (foldo_some f l s0) as [s2 ->] end.
  { intros [k raw] s. unfold check_raw_osd. cbv zeta. case_decide; [eauto|].
    destruct (Hname (vr_Device raw)) as [[devName|e] ->]; simpl; eauto. }
  simpl. eauto.
Qed.
End osds.

(** ** Publishing *)

Section publishing.
Context `{DaemonWorld} `{MapRange} (depth : nat).

(** The report of the OSDs is always made: no index is out of range, and the
    recursion ends when the parent links, followed through the aliases, have no
    cycle longer than the stack allows. *)
Theorem osds_report_made rt report rank :
  rt_disksReport rt = Some report → ranked report rank → (∀ n, (rank n < depth)%nat) →
  is_Some (checkOsds depth rt).
Proof. intros Hr Hrank Hd. eapply checkOsds_some; [|done]. intros n. by eapply FindDiskName_total. Qed.

(** What a tick publishes, in terms of the runtime data it leaves. *)
Definition published (d : diskDaemon) : Prop :=
  (ddr_State (dd_node d) = DiskDaemonStateFailed ∧ ddr_Issues (dd_node d) ≠ []) ∨
  (ddr_State (dd_node d) = DiskDaemonStateOk ∧ ddr_Issues (dd_node d) = [] ∧
   ddr_DisksReport (dd_node d) = rt_disksReport (dd_runtime d) ∧
   ddr_OsdsReport (dd_node d) = rt_osdsReport (dd_runtime d)).

Lemma updateNode_spec ready disks osds issues d :
  spec (λ _, True) (updateNodeReportState ready disks osds issues d)
    (λ d', dd_runtime d' = dd_runtime d ∧ dd_rawDisabled d' = dd_rawDisabled d ∧
           ddr_Issues (dd_node d') = issues ∧ ddr_DisksReport (dd_node d') = disks ∧ ddr_OsdsReport (dd_node d') = osds ∧
           ddr_State (dd_node d') = match issues with
             | _ :: _ => DiskDaemonStateFailed
             | [] => if ready then DiskDaemonStateOk else DiskDaemonStateInProgress
             end).
Proof. apply spec_bind_any; [apply spec_triv|]. intros now. by apply spec_ret. Qed.

(** After a tick the published report is failed with at least one issue, or
    ready without issues and with the reports of the runtime data. *)
Theorem tick_publishes d h d' : (prepareReport depth d h).1 = Some d' → published d'.
Proof.
  revert d'. cut (spec (λ _, True) (prepareReport depth d) (λ r, ∀ d', r = Some d' → published d')).
  { intros Hs. exact (proj1 (Hs h)). }
  unfold prepareReport. apply spec_bind_any; [apply spec_triv|]. intros d1.
  apply spec_bind_any; [apply spec_triv|]. intros [[rt [changed|e]]|]; [| |by apply spec_ret].
  - destruct (if changed then checkOsds depth rt else Some ([], rt)) as [[issues rt']|]; [|by apply spec_ret].
    eapply spec_bind; [apply updateNode_spec|]. intros d2 (Hrt & _ & Hi & Hd & Ho & Hs). apply spec_ret.
    intros ? [= <-]. unfold published. rewrite Hi, Hd, Ho, Hs, Hrt. destruct issues; [by right|by left].
  - eapply spec_bind; [apply updateNode_spec|]. intros d2 (_ & _ & Hi & _ & _ & Hs). apply spec_ret.
    intros ? [= <-]. left. by rewrite Hi, Hs.
Qed.

(** A tick that finds no change publishes a ready report without issues, even
    if the OSDs of the node have issues (of which the report may then know
    nothing): the issues are only computed on a change, and are not kept. *)
Theorem unchanged_tick_drops_issues d h rt' :
  let h1 := h ++ [EvNow] in
  (checkDisks depth (dd_rawDisabled d) (dd_runtime d) h1).1 = Some (rt', inl false) →
  ∃ d', (prepareReport depth d h).1 = Some d' ∧ ddr_State (dd_node d') = DiskDaemonStateOk ∧
    ddr_Issues (dd_node d') = [] ∧ dd_runtime d' = rt'.
Proof.
  intros h1 Hc. unfold prepareReport, updateNodeReportState, mbind', call. cbn [fst snd app dd_rawDisabled dd_runtime mret'].
  unfold mret'. cbn [fst snd app dd_rawDisabled dd_runtime]. fold h1. rewrite Hc.
  eexists. cbn [fst snd]. split; [reflexivity|]. done.
Qed.
End publishing.

(** ** The OSDs of a disk *)

Section disk_osds.
Context `{MapRange} (depth : nat) (report : DiskDaemonDisksReport).

Definition has_osd (m : gmap string (gmap string unit)) (dev id : string) : Prop :=
  ∃ s, m !! dev = Some s ∧ is_Some (s !! id).

Lemma add_osd_disk_has osd m x dev id :
  has_osd (add_osd_disk osd m x) dev id ↔ has_osd m dev id ∨ dev = x ∧ id = osd.
Proof.
  unfold has_osd, add_osd_disk. destruct (decide (x = dev)) as [->|Hne].
  - rewrite lookup_insert_eq. destruct (decide (osd = id)) as [->|Hi].
    + split; [by right|]. intros _. eexists. split; [done|]. rewrite lookup_insert_eq. eauto.
    + split.
      * intros (s & [= <-] & Hs). rewrite lookup_insert_ne in Hs by done. left.
        destruct (m !! dev) as [s|]; simpl in Hs; [eauto|]. rewrite lookup_empty in Hs. by destruct Hs.
      * intros [(s & Hs & Hid)|[_ ->]]; [|done]. eexists. split; [done|].
        rewrite lookup_insert_ne by done. by rewrite Hs.
  - rewrite lookup_insert_ne by done. naive_solver.
Qed.

Lemma add_osd_disks_has osd devs m dev id :
  has_osd (foldl (add_osd_disk osd) m devs) dev id ↔ has_osd m dev id ∨ dev ∈ devs ∧ id = osd.
Proof.
  revert m. induction devs as [|x devs IH]; intros m; simpl.
  - split; [by left|]. intros [?|[?%elem_of_nil _]]; done.
  - rewrite IH, add_osd_disk_has, elem_of_cons. naive_solver.
Qed.

(** The volume lies on the disk. *)
Definition on_disk (v : OsdVolumeLvmInfo) (dev : string) : Prop :=
  ∃ ds, volume_disks depth report v = Some ds ∧ dev ∈ ds.

Lemma add_volumes_has osd vols m m' dev id :
  foldo (add_volume depth report osd) m vols = Some m' →
  has_osd m' dev id ↔ has_osd m dev id ∨ id = osd ∧ ∃ v, v ∈ vols ∧ on_disk v dev.
Proof.
  revert m. induction vols as [|v vols IH]; intros m; simpl.
  { intros [= <-]. split; [by left|]. intros [?|(_ & v & ?%elem_of_nil & _)]; done. }
  intros (m1 & (ds & Hds & [= <-])%bind_Some & Hf)%bind_Some. rewrite (IH _ Hf), add_osd_disks_has. split.
  - intros [[?|[Hd ->]]|(-> & v' & Hv' & Hon)]; [by left|right..]; (split; [done|]);
      [exists v; split; [left|by exists ds]|exists v'; split; [by right|done]].
  - intros [?|(-> & v' & [->|Hv']%elem_of_cons & Hon)]; [by left; left| |by right; eauto].
    left; right. destruct Hon as (ds' & Hds' & Hin). split; [congruence|done].
Qed.

Lemma add_all_has l m m' dev id :
  foldo (λ m '(osdID, volumes), foldo (add_volume depth report osdID) m volumes) m l = Some m' →
  has_osd m' dev id ↔ has_osd m dev id ∨ ∃ vols v, (id, vols) ∈ l ∧ v ∈ vols ∧ on_disk v dev.
Proof.
  revert m. induction l as [|[osd vols] l IH]; intros m; simpl.
  { intros [= <-]. split; [by left|]. intros [?|(? & ? & ?%elem_of_nil & _)]; done. }
  intros (m1 & Hm1 & Hf)%bind_Some. rewrite (IH _ Hf), (add_volumes_has _ _ _ _ _ _ Hm1). split.
  - intros [[?|(-> & v & Hv & Hon)]|(vs & v & Hin & Hv & Hon)]; [by left|right..].
    + exists vols, v. split; [left|done].
    + exists vs, v. split; [by right|done].
  - intros [?|(vs & v & [[= -> ->]|Hin]%elem_of_cons & Hv & Hon)]; [by left; left|left; right; eauto|right; eauto].
Qed.

Lemma foldl_disks l (m0 : gmap string (list string)) dev :
  NoDup l.*1 →
  foldl (λ m '(dev, mapping), <[dev := SortStrings (range 44 mapping).*1]> m) m0 l !! dev =
  match list_find (λ e : string * gmap string unit, e.1 = dev) l with
  | Some (_, e) => Some (SortStrings (range 44 e.2).*1)
  | None => m0 !! dev
  end.
Proof.
  revert m0. induction l as [|[x mp] l IH]; intros m0 Hnd; [done|].
  rewrite fmap_cons in Hnd. apply NoDup_cons in Hnd as [Hx Hnd]. cbn [foldl list_find]. rewrite IH by done.
  destruct (decide (x = dev)) as [->|Hne].
  - rewrite (decide_True (P := (dev, mp).1 = dev)) by done.
    destruct (list_find _ l) as [[i e]|] eqn:Hl; [|by rewrite lookup_insert_eq].
    apply list_find_Some in Hl as (Hl & He & _). destruct Hx. simpl in He. rewrite <-He. simpl.
    apply (list_elem_of_fmap_2 fst), list_elem_of_lookup. eauto.
  - rewrite (decide_False (P := (x, mp).1 = dev)) by done.
    destruct (list_find _ l) as [[i e]|]; simpl; [done|by rewrite lookup_insert_ne].
Qed.

(** Without raw OSDs, the map from disks to OSDs relates a disk to exactly the
    OSDs that have a volume on it. *)
Theorem disk_osds_exact lvms m dev id :
  diskToOsdMap depth report lvms ∅ = Some m →
  (∃ ids, m !! dev = Some ids ∧ id ∈ ids) ↔
  ∃ vols v, lvms !! id = Some vols ∧ v ∈ vols ∧ on_disk v dev.
Proof.
  unfold diskToOsdMap. case_decide as He.
  { intros [= <-]. destruct He as [-> _]. split.
    - intros (ids & Hids & _). by rewrite lookup_empty in Hids.
    - intros (vols & v & Hv & _). by rewrite lookup_empty in Hv. }
  intros (md & Hmd & Hraw)%bind_Some.
  assert (range 45 (∅ : gmap string OsdVolumeRawInfo) = []) as Hnil.
  { apply Permutation_nil_r. by rewrite range_perm, map_to_list_empty. }
  rewrite Hnil in Hraw. simpl in Hraw. injection Hraw as <-.
  rewrite foldl_disks by apply NoDup_range_keys.
  pose proof (add_all_has _ _ _ dev id Hmd) as Hhas. setoid_rewrite elem_of_range in Hhas.
  assert (has_osd ∅ dev id ↔ False) as Hempty.
  { split; [|done]. intros (s & Hs & _). by rewrite lookup_empty in Hs. }
  assert (has_osd md dev id ↔ ∃ vols v, lvms !! id = Some vols ∧ v ∈ vols ∧ on_disk v dev) as <- by naive_solver.
  clear Hhas Hempty. unfold has_osd.
  assert (∀ mp : gmap string unit, id ∈ SortStrings (range 44 mp).*1 ↔ is_Some (mp !! id)) as Hsort.
  { intros mp. unfold SortStrings. rewrite merge_sort_Permutation, list_elem_of_fmap. split.
    - intros ([i u] & -> & Hin%elem_of_range). eauto.
    - intros [u Hu]. exists (id, u). by rewrite elem_of_range. }
  destruct (list_find _ (range 43 md)) as [[i [k mp]]|] eqn:Hl.
  - apply list_find_Some in Hl as (Hl & He' & _). simpl in He'. subst k.
    assert (md !! dev = Some mp) as Hdev by (apply (elem_of_range 43), list_elem_of_lookup; eauto).
    rewrite Hdev. simpl. naive_solver.
  - apply list_find_None in Hl. rewrite lookup_empty. split; [naive_solver|]. intros (s & Hs & _).
    rewrite Forall_forall in Hl. destruct (Hl (dev, s)); [|done]. by apply elem_of_range.
Qed.
End disk_osds.
