(* ===== verification/DiskDemo.v ===== *)
(** * The disk daemon on a small node

    A disk with a logical volume of an OSD and a disk with a raw partition; the
    witnesses of the theorems on the daemon, and runs of the daemon that show
    where the published report and the node differ. *)

From S2P Require Import Prelude GoTime Types World Helpers DiskDaemon DiskFacts.
Open Scope Z_scope.

Record demo_node_state := mkDemoNode {
  dn_devices : list DeviceLsblk;
  dn_lvm : gmap string (list OsdVolumeLvmInfo);
  dn_raw : gmap string OsdVolumeRawInfo;
  dn_lvm_fails : nat;
}.

(** [ceph-volume lvm list] fails in the first [dn_lvm_fails] interactions. *)
Definition demo_daemon_world (n : demo_node_state) : DaemonWorld := {|
  dw_shell := λ h cmd,
    if bool_decide (cmd = lvmListCmd) && (length h <? dn_lvm_fails n)%nat
    then (EmptyString, EmptyString, Some (new_err "timed out"))
    else (EmptyString, EmptyString, None);
  dw_clock := λ h, 1700000000 * second + Z.of_nat (length h) * second;
  json_lsblk := λ _, (dn_devices n, None);
  json_lvs := λ _, ([["/dev/mapper/vg-osd"]], None);
  json_lvm := λ _, (dn_lvm n, None);
  json_raw := λ _, (dn_raw n, None);
|}.

Definition lv_device : DeviceLsblk :=
  mkLsblk "/dev/mapper/vg-osd" "/dev/dm-0" "" "253:0" false "lvm" "/dev/sda" [] "".
Definition part_device : DeviceLsblk := mkLsblk "/dev/sdb1" "/dev/sdb1" "" "8:17" false "part" "/dev/sdb" [] "".
Definition demo_devices : list DeviceLsblk :=
  [mkLsblk "/dev/sda" "/dev/sda" "serial-a" "8:0" false "disk" "" [lv_device] "";
   mkLsblk "/dev/sdb" "/dev/sdb" "serial-b" "8:16" false "disk" "" [part_device] "";
   mkLsblk "/dev/loop0" "/dev/loop0" "" "7:0" false "loop" "" [] ""].

Definition demo_lvm_volume (devices : list string) : OsdVolumeLvmInfo :=
  mkLvmInfo devices "/dev/vg/osd" "/dev/vg/osd" (mkTags "/dev/vg/osd" "" "fsid" "uuid-0") "block".

(** A node with a raw OSD on a partition, which is an issue. *)
Definition raw_node : demo_node_state :=
  mkDemoNode demo_devices {[ "0" := [demo_lvm_volume ["/dev/sda"]] ]}
    {[ "uuid-1" := mkRawInfo "fsid" "/dev/sdb1" 1 "uuid-1" ]} 0.
(** A node without OSDs, whose first listing of volumes fails. *)
Definition slow_node : demo_node_state := mkDemoNode demo_devices ∅ ∅ 12.
(** A node with a volume in two segments on one disk. *)
Definition segmented_node : demo_node_state :=
  mkDemoNode demo_devices {[ "0" := [demo_lvm_volume ["/dev/sda"; "/dev/sda"]] ]} ∅ 0.

Definition demo_depth : nat := 8.

(** The daemon and the history after [k] ticks. *)
Fixpoint ticks (n : demo_node_state) (k : nat) : option diskDaemon * dhistory :=
  match k with
  | O => (Some (initDaemonData "node-1" false), [])
  | S k' =>
      match ticks n k' with
      | (Some d, h) =>
          let r := @prepareReport (demo_daemon_world n) default_range demo_depth d h in (r.1, h ++ r.2)
      | (None, h) => (None, h)
      end
  end.

Definition after_ticks (n : demo_node_state) (k : nat) : diskDaemon :=
  default (initDaemonData "" false) (ticks n k).1.
Definition history_after (n : demo_node_state) (k : nat) : dhistory := (ticks n k).2.

(** The first report shows the issue of the raw OSD; the next one is ready,
    without issues and without the OSD. *)
Example issue_lost_on_second_tick :
  (ddr_State (dd_node (after_ticks raw_node 1)), ddr_State (dd_node (after_ticks raw_node 2))) =
  (DiskDaemonStateFailed, DiskDaemonStateOk) ∧
  ddr_Issues (dd_node (after_ticks raw_node 2)) = [] ∧
  (r ← ddr_OsdsReport (dd_node (after_ticks raw_node 2)); osr_Osds r !! "1") = None.
Proof. vm_compute. done. Qed.

(** The change of the first tick is forgotten with its error: the ready report of
    the second tick has no OSD report, and stays so. *)
Example change_lost_with_error :
  (λ k, (ddr_State (dd_node (after_ticks slow_node k)), ddr_OsdsReport (dd_node (after_ticks slow_node k)))) <$>
    [1; 2; 5]%nat =
  [(DiskDaemonStateFailed, None); (DiskDaemonStateOk, None); (DiskDaemonStateOk, None)].
Proof. vm_compute. reflexivity. Qed.

(** The compaction in place spoils the remembered volumes: nothing has changed on
    the node, but every tick finds a change. *)
Example segments_change_every_tick :
  (λ k, (snd <$> (@checkDisks (demo_daemon_world segmented_node) default_range demo_depth false
           (dd_runtime (after_ticks segmented_node k)) (history_after segmented_node k)).1)) <$> [1; 2; 3]%nat =
  [Some (inl true); Some (inl true); Some (inl true)].
Proof. vm_compute. reflexivity. Qed.

(** A legacy db partition of the second of two entries of an OSD is added to the
    first one: the index recorded for it is that of the first entry. *)
Example legacy_db_wrong_entry :
  let report := mkDisksReport
    {[ "/dev/sda" := mkBlockDeviceInfo "/dev/sda" "" "disk" "" false "" [] [""] [];
       "/dev/sdb" := mkBlockDeviceInfo "/dev/sdb" "" "disk" "" false "" [] [""] [] ]}
    {[ "/dev/sda" := "/dev/sda"; "/dev/sdb" := "/dev/sdb" ]} ∅ in
  let old := mkLvmInfo ["/dev/sda"] "/dev/vg/old" "/dev/vg/old" (mkTags "/dev/vg/old" "" "fsid" "uuid-old") "block" in
  let block := mkLvmInfo ["/dev/sdb"] "/dev/vg/new" "/dev/vg/new" (mkTags "/dev/vg/new" "/dev/sdb" "fsid" "uuid-new") "block" in
  let db := mkLvmInfo [] "" "/dev/sdb" (mkTags "" "" "" "") "db" in
  (λ r, (λ i, (odi_OsdUUID i, op_Partition <$> odi_Partitions i, od_Name <$> odi_Devices i)) <$> ol_info r.1) <$>
    check_volumes demo_depth report "0" [old; block; db] (mkOsdLoop [] ∅ [] []) =
  Some [("uuid-old", ["/dev/vg/old"; "/dev/sdb"], ["/dev/sda"; "/dev/sdb"]);
        ("uuid-new", ["/dev/vg/new"; "/dev/sdb"], ["/dev/sdb"])].
Proof. vm_compute. reflexivity. Qed.

(** A device whose parent is given by its kernel name: [findDisks] looks it up as
    it is and finds no disk, [FindDiskName] resolves it. *)
Example kernel_name_parent :
  let report := mkDisksReport
    {[ "/dev/sda" := mkBlockDeviceInfo "/dev/sda" "" "disk" "" false "" [] [""] [];
       "/dev/mapper/luks" := mkBlockDeviceInfo "/dev/dm-0" "" "crypt" "" false "" [] ["/dev/sda"] [];
       "/dev/mapper/vg-lv" := mkBlockDeviceInfo "/dev/dm-1" "" "lvm" "" false "" [] ["/dev/dm-0"] [] ]}
    {[ "/dev/sda" := "/dev/sda"; "/dev/mapper/luks" := "/dev/mapper/luks"; "/dev/dm-0" := "/dev/mapper/luks";
       "/dev/mapper/vg-lv" := "/dev/mapper/vg-lv" ]} ∅ in
  findDisks demo_depth "/dev/mapper/vg-lv" (dr_BlockInfo report) = Some [] ∧
  FindDiskName demo_depth "/dev/mapper/vg-lv" report = Some (inl "/dev/sda").
Proof. vm_compute. done. Qed.

(** ** Witnesses *)

Definition demo_report_of (n : demo_node_state) : DiskDaemonDisksReport :=
  default (mkDisksReport ∅ ∅ ∅) (rt_disksReport (dd_runtime (after_ticks n 1))).
Definition demo_blocks : gmap string BlockDeviceInfo := dr_BlockInfo (demo_report_of raw_node).

Lemma findDisks_exact_witness : "/dev/sda" ∈ ["/dev/sda"] ∧ under demo_blocks "/dev/mapper/vg-osd" "/dev/sda".
Proof.
  split; [left|].
  apply (findDisks_exact demo_blocks demo_depth "/dev/mapper/vg-osd" ["/dev/sda"] "/dev/sda");
    [vm_compute; reflexivity|left].
Defined.

(** Parents before children. *)
Definition demo_rank (n : string) : nat :=
  if decide (n = "/dev/mapper/vg-osd" ∨ n = "/dev/sdb1") then 1 else 0.

Lemma findDisks_terminates_witness :
  is_Some (findDisks demo_depth "/dev/mapper/vg-osd"
    {[ "/dev/mapper/vg-osd" := mkBlockDeviceInfo "" "" "lvm" "" false "" [] ["/dev/sda"] [] ]}).
Proof.
  apply (findDisks_terminates _ demo_rank).
  - intros n p _ Hp. unfold block_of in Hp.
    destruct (decide ("/dev/mapper/vg-osd" = n)) as [<-|Hne].
    + rewrite lookup_singleton_eq in Hp. simpl in Hp. apply list_elem_of_singleton in Hp as ->.
      vm_compute. constructor.
    + rewrite lookup_singleton_ne in Hp by exact Hne. simpl in Hp. apply elem_of_nil in Hp. destruct Hp.
  - vm_compute. repeat constructor.
Defined.

Lemma scan_exact_witness :
  ∃ s info, (@loopOverDevices (demo_daemon_world raw_node) demo_devices empty_scan []).1 = inl s ∧
    sc_BlockInfo s !! "/dev/sdb1" = Some info ∧ "/dev/sdb" ∈ bdi_Parent info.
Proof.
  destruct (@loopOverDevices (demo_daemon_world raw_node) demo_devices empty_scan []).1 as [s|e] eqn:Hs.
  2: { vm_compute in Hs. discriminate. }
  destruct (proj2 (@scan_exact (demo_daemon_world raw_node) demo_devices [] s "/dev/sdb1" "/dev/sdb" Hs))
    as (info & Hinfo & Hp).
  { exists part_device. split; [|split; reflexivity].
    eapply listed_below; [right; left|discriminate|]. apply listed_here; [left|discriminate]. }
  exists s, info. split; [reflexivity|]. split; [exact Hinfo|exact Hp].
Defined.

Lemma osds_report_made_witness :
  is_Some (@checkOsds default_range demo_depth
    (set_rt_disksReport (Some (mkDisksReport ∅ ∅ ∅)) (dd_runtime (after_ticks raw_node 1)))).
Proof.
  apply (@osds_report_made default_range demo_depth
    (set_rt_disksReport (Some (mkDisksReport ∅ ∅ ∅)) (dd_runtime (after_ticks raw_node 1)))
    (mkDisksReport ∅ ∅ ∅) (λ _, 0%nat)); [reflexivity| |intros n; vm_compute; repeat constructor].
  intros n cur p Hcur. simpl in Hcur. rewrite lookup_empty in Hcur. discriminate.
Defined.

Lemma tick_publishes_witness : published (after_ticks raw_node 1).
Proof.
  apply (@tick_publishes (demo_daemon_world raw_node) default_range demo_depth (initDaemonData "node-1" false) []).
  vm_compute. reflexivity.
Defined.

Lemma unchanged_tick_drops_issues_witness :
  ddr_Issues (dd_node (after_ticks raw_node 1)) ≠ [] ∧
  ∃ d', (@prepareReport (demo_daemon_world raw_node) default_range demo_depth (after_ticks raw_node 1)
           (history_after raw_node 1)).1 = Some d' ∧ ddr_Issues (dd_node d') = [].
Proof.
  split; [vm_compute; discriminate|].
  destruct (@unchanged_tick_drops_issues (demo_daemon_world raw_node) default_range demo_depth (after_ticks raw_node 1)
    (history_after raw_node 1) (dd_runtime (after_ticks raw_node 1))) as (d' & Hd' & _ & Hi & _);
    [vm_compute; reflexivity|]. exists d'. split; [exact Hd'|exact Hi].
Defined.

Lemma disk_osds_exact_witness :
  ∃ m ids, @diskToOsdMap default_range demo_depth (demo_report_of raw_node) (dn_lvm raw_node) ∅ = Some m ∧
    m !! "/dev/sda" = Some ids ∧ "0" ∈ ids.
Proof.
  destruct (@diskToOsdMap default_range demo_depth (demo_report_of raw_node) (dn_lvm raw_node) ∅) as [m|] eqn:Hm.
  2: { vm_compute in Hm. discriminate. }
  destruct (proj2 (@disk_osds_exact default_range demo_depth (demo_report_of raw_node) (dn_lvm raw_node) m "/dev/sda" "0" Hm))
    as (ids & Hids & Hin).
  { exists [demo_lvm_volume ["/dev/sda"]], (demo_lvm_volume ["/dev/sda"]). split; [vm_compute; reflexivity|].
    split; [left|]. exists ["/dev/sda"]. split; [vm_compute; reflexivity|left]. }
  exists m, ids. split; [reflexivity|]. split; [exact Hids|exact Hin].
Defined.
