(* ===== verification/Config.v ===== *)
(** * Configuration

    pkg/controller/config: config.go reads the config map [pelagia-lcmconfig] of a
    namespace into the parameters of the controllers, controller.go keeps the map
    from namespaces to parameters up to date.

    Parameters of the model ([ConfigLib]): the parsers of zerolog, of Kubernetes
    label selectors and of Rook, and the check of a regular expression. *)

From Stdlib Require Import Ascii.
From S2P Require Import Prelude GoTime Types World Controller.
Open Scope Z_scope.

(** ** Package [strconv] *)

(** Two's complement of [w] bits. *)
Definition wrap (w n : Z) : Z := (n + 2 ^ (w - 1)) mod 2 ^ w - 2 ^ (w - 1).
Definition int_range (w n : Z) : Prop := - 2 ^ (w - 1) ≤ n < 2 ^ (w - 1).
#[global] Instance int_range_dec w n : Decision (int_range w n).
Proof. unfold int_range. apply _. Defined.

Fixpoint digits (acc : Z) (s : string) : option Z :=
  match s with
  | EmptyString => Some acc
  | String a s' =>
      let d := Z.of_nat (nat_of_ascii a) - 48 in
      if decide (0 ≤ d ≤ 9) then digits (10 * acc + d) s' else None
  end.

Definition unsigned (s : string) : option Z :=
  match s with EmptyString => None | _ => digits 0 s end.

(** An optional sign and decimal digits. *)
Definition parse_int (s : string) : option Z :=
  match s with
  | String "+" s' => unsigned s'
  | String "-" s' => Z.opp <$> unsigned s'
  | _ => unsigned s
  end.

(** [strconv.Atoi], [None] for an error; and the number it returns next to a
    possible error: zero, or the limit of 64 bits that is exceeded. *)
Definition Atoi (s : string) : option Z :=
  n ← parse_int s; if decide (int_range 64 n) then Some n else None.
Definition Atoi_value (s : string) : Z :=
  match parse_int s with
  | Some n => Z.max (- 2 ^ 63) (Z.min n (2 ^ 63 - 1))
  | None => 0
  end.

Definition ParseBool (s : string) : option bool :=
  if decide (s ∈ ["1"; "t"; "T"; "true"; "TRUE"; "True"]) then Some true
  else if decide (s ∈ ["0"; "f"; "F"; "false"; "FALSE"; "False"]) then Some false
  else None.

Definition lower (a : ascii) : ascii :=
  let n := nat_of_ascii a in
  if decide (65 ≤ n ≤ 90)%nat then ascii_of_nat (n + 32) else a.
Fixpoint ToLower (s : string) : string :=
  match s with
  | EmptyString => EmptyString
  | String a s' => String (lower a) (ToLower s')
  end.

(** ** Names and defaults *)

Definition rookNamespaceParameter : string := "ROOK_NAMESPACE".
Definition diskDaemonPortParameter : string := "DISK_DAEMON_API_PORT".
Definition diskDaemonPlacementLabel : string := "DISK_DAEMON_PLACEMENT_NODES_SELECTOR".
Definition enableGatewayParameter : string := "GATEWAY_API_ENABLED".
Definition baseGatewayNameParameter : string := "GATEWAY_BASE_NAME".
Definition baseGatewayNamespaceParameter : string := "GATEWAY_BASE_NAMESPACE".
Definition rgwPublicAccessServiceSelectorParameter : string := "RGW_PUBLIC_ACCESS_SERVICE_SELECTOR".
Definition ingressSupportParameter : string := "KEEP_INGRESS".
Definition osdFullModeParameter : string := "OSD_LCM_FULL_MODE".
Definition healthChecksCephIssuesToIgnoreParameter : string := "HEALTH_CHECKS_CEPH_ISSUES_TO_IGNORE".
Definition healthChecksSkipParameter : string := "HEALTH_CHECKS_SKIP".
Definition healthChecksUsagelClassFilterParameter : string := "HEALTH_CHECKS_USAGE_CLASS_FILTER".
Definition healthChecksUsagelPoolsFilterParameter : string := "HEALTH_CHECKS_USAGE_POOLS_FILTER".
Definition healthLogLevelParameter : string := "HEALTH_LOG_LEVEL".
Definition taskLogLevelParameter : string := "TASK_LOG_LEVEL".
Definition taskOsdPgRebalanceTimeout : string := "TASK_OSD_PG_REBALANCE_TIMEOUT_MIN".
Definition taskAllowRemoveManuallyCreatedLvm : string := "TASK_ALLOW_REMOVE_MANUALLY_CREATED_LVMS".
Definition cephDplLogLevel : string := "DEPLOYMENT_LOG_LEVEL".
Definition cephDplCephImage : string := "DEPLOYMENT_CEPH_IMAGE".
Definition cephDplCephRelease : string := "DEPLOYMENT_CEPH_RELEASE".
Definition cephDplRookImage : string := "DEPLOYMENT_ROOK_IMAGE".
Definition cephDplNetPolEnabled : string := "DEPLOYMENT_NETPOL_ENABLED".
Definition cephDplOpenstackCephSharedNs : string := "DEPLOYMENT_OPENSTACK_CEPH_SHARED_NAMESPACE".
Definition cephDplCephDaemonsetLabelExclude : string := "DEPLOYMENT_LABEL_TO_EXCLUDE_CEPH_DAEMONSETS".
Definition cephDplDrainRequestLabelKeyName : string := "DEPLOYMENT_DRAIN_REQUEST_LABEL_KEY".
Definition cephDplDrainReadyLabelKeyName : string := "DEPLOYMENT_DRAIN_READY_LABEL_KEY".
Definition cephDplCSIManageKeyName : string := "DEPLOYMENT_CSI_DRIVERS_MANAGE".
Definition cephDplCSIRBDDefaultCreateKeyName : string := "DEPLOYMENT_CSI_RBD_DEFAULT_DRIVER_CREATE".
Definition cephDplCSICephFSDefaultCreateKeyName : string := "DEPLOYMENT_CSI_CEPHFS_DEFAULT_DRIVER_CREATE".
Definition cephDplCSINFSDefaultCreateKeyName : string := "DEPLOYMENT_CSI_NFS_DEFAULT_DRIVER_CREATE".
Definition cephDplCSIKeepExisting : string := "DEPLOYMENT_CSI_KEEP_EXISTING_ON_UPGRADE".
Definition cephDplCSIKubeletPath : string := "DEPLOYMENT_CSI_KUBELET_PATH".
Definition cephDplCSIDeployAddons : string := "DEPLOYMENT_CSI_ENABLE_CSIADDONS".
Definition cephDplCSIControllerPluginNodeAffinityKeyName : string := "DEPLOYMENT_CSI_CONTROLLER_PLUGIN_NODEAFFINITY".
Definition cephDplCSIControllerPluginTolerationsKeyName : string := "DEPLOYMENT_CSI_CONTROLLER_PLUGIN_TOLERATIONS".
Definition cephDplCSINodePluginNodeAffinityKeyName : string := "DEPLOYMENT_CSI_NODE_PLUGIN_NODEAFFINITY".
Definition cephDplCSINodePluginTolerationsKeyName : string := "DEPLOYMENT_CSI_NODE_PLUGIN_TOLERATIONS".
Definition cephDplManageVSClassesKeyName : string := "DEPLOYMENT_MANAGE_VOLUMESNAPSHOTCLASSES".

(** [zerolog.InfoLevel] *)
Definition InfoLevel : Z := 1.

Definition defaultLcmConfig : LcmConfig :=
  mkLcmConfig "rook-ceph"
    (mkCommonParams "app-gateway" "openstack" "pelagia-disk-daemon=true" 9999 "external_access=rgw"
       true false true) None None None.

Definition defaultHealthConfig : HealthParams :=
  mkHealthParams InfoLevel []
    ["OSDMAP_FLAGS"; "TOO_FEW_PGS"; "SLOW_OPS"; "OLD_CRUSH_TUNABLES"; "OLD_CRUSH_STRAW_CALC_VERSION";
     "POOL_APP_NOT_ENABLED"; "MON_DISK_LOW"; "RECENT_CRASH"] "" "".

Definition defaultTaskConfig : TaskParams := mkTaskParams InfoLevel (30 * minute) false.

Definition defaultDeployParams : DeployParams :=
  mkDeployParams InfoLevel "" "" "" false "" "" "kaas.mirantis.com/lcm-drained" "kaas.mirantis.com/csi-drained"
    (mkCSIParams true "/var/lib/kubelet" true true false true false None [] None []) true.

(** The parameters a process controls; [ParamsToControl] is set once, when the
    controller of the process is registered. *)
Inductive ControlParams := ControlParamsAll | ControlParamsHealth | ControlParamsTask | ControlParamsCephDpl.
#[global] Instance ControlParams_eq_dec : EqDecision ControlParams.
Proof. solve_decision. Defined.

(** ** Reading a config map *)

Class ConfigLib := {
  parse_level : string → option Z;
  labels_parse : string → option string;
  regexp_compiles : string → bool;
  generate_node_affinity : string → option NodeAffinity;
  yaml_to_tolerations : string → option (list Toleration);
}.

Section config.
Context `{ConfigLib}.
Abbreviation data := (gmap string string).

(** [if v, present := configData[key]; present { a, err := parse(v); if err == nil
    { set } }]: a value that does not parse is reported and left out. *)
Definition on_param {A C} (d : data) (key : string) (parse : string → option A) (set : A → C → C) (c : C) : C :=
  match d !! key ≫= parse with
  | Some a => set a c
  | None => c
  end.

Definition on_string {C} (d : data) (key : string) (set : string → C → C) (c : C) : C := on_param d key Some set c.

Definition log_level (v : string) : option Z := parse_level (ToLower v).

Definition valid_regexp (v : string) : option string := if regexp_compiles v then Some v else None.

Definition loadHealthConfiguration (d : data) : HealthParams :=
  let c := defaultHealthConfig in
  let c := on_param d healthLogLevelParameter log_level set_hp_LogLevel c in
  let c := on_string d healthChecksCephIssuesToIgnoreParameter (λ v, set_hp_CephIssuesToIgnore (Split v ",")) c in
  let c := on_string d healthChecksSkipParameter (λ v, set_hp_ChecksSkip (Split v ",")) c in
  let c := on_param d healthChecksUsagelClassFilterParameter valid_regexp set_hp_UsageDetailsClassesFilter c in
  on_param d healthChecksUsagelPoolsFilterParameter valid_regexp set_hp_UsageDetailsPoolsFilter c.

(** [time.Duration(mins) * time.Minute]: 64-bit arithmetic. *)
Definition duration_of_minutes (mins : Z) : Z := wrap 64 (mins * minute).

Definition loadTaskConfiguration (d : data) : TaskParams :=
  let c := defaultTaskConfig in
  let c := on_param d taskLogLevelParameter log_level set_tp_LogLevel c in
  let c := on_param d taskOsdPgRebalanceTimeout Atoi
             (λ mins, set_tp_OsdPgRebalanceTimeout (duration_of_minutes mins)) c in
  on_param d taskAllowRemoveManuallyCreatedLvm
    (λ v, ParseBool (TrimSuffix v (String (ascii_of_nat 10) EmptyString))) set_tp_AllowToRemoveManuallyCreatedLVM c.

(** The CSI parameters, read only when their management is switched on by the
    config map itself. *)
Definition load_csi_params (d : data) (c : CSIDeployParams) : CSIDeployParams :=
  let c := on_param d cephDplCSIRBDDefaultCreateKeyName ParseBool set_csi_CreateDefaultRBDDriver c in
  let c := on_param d cephDplCSICephFSDefaultCreateKeyName ParseBool set_csi_CreateDefaultCephFSDriver c in
  let c := on_param d cephDplCSINFSDefaultCreateKeyName ParseBool set_csi_CreateDefaultNFSDriver c in
  let c := on_param d cephDplCSIKeepExisting ParseBool set_csi_KeepExisting c in
  let c := on_string d cephDplCSIKubeletPath set_csi_KubeletPath c in
  let c := on_param d cephDplCSIDeployAddons ParseBool set_csi_DeployCSIAddons c in
  let c := on_param d cephDplCSIControllerPluginNodeAffinityKeyName generate_node_affinity
             (λ v, set_csi_ControllerPluginNodeAffinity (Some v)) c in
  let c := on_param d cephDplCSIControllerPluginTolerationsKeyName yaml_to_tolerations
             set_csi_ControllerPluginToleration c in
  let c := on_param d cephDplCSINodePluginNodeAffinityKeyName generate_node_affinity
             (λ v, set_csi_NodePluginNodeAffinity (Some v)) c in
  on_param d cephDplCSINodePluginTolerationsKeyName yaml_to_tolerations set_csi_NodePluginToleration c.

Definition load_csi (d : data) (c : CSIDeployParams) : CSIDeployParams :=
  match d !! cephDplCSIManageKeyName with
  | Some csiManage =>
      match ParseBool csiManage with
      | Some val =>
          let c := set_csi_Manage val c in
          if (val : bool) then load_csi_params d c else c
      | None => c
      end
  | None => c
  end.

Definition loadCephDeploymentConfiguration (d : data) : DeployParams :=
  let c := defaultDeployParams in
  let c := on_param d cephDplLogLevel log_level set_dp_LogLevel c in
  let c := on_string d cephDplCephImage set_dp_CephImage c in
  let c := on_string d cephDplCephRelease set_dp_CephRelease c in
  let c := on_string d cephDplRookImage set_dp_RookImage c in
  let c := on_param d cephDplNetPolEnabled ParseBool set_dp_NetPolEnabled c in
  let c := on_param d cephDplCephDaemonsetLabelExclude labels_parse set_dp_CephDaemonsetPlacementLabelExclude c in
  let c := on_string d cephDplOpenstackCephSharedNs set_dp_OpenstackCephSharedNamespace c in
  let c := on_string d cephDplDrainRequestLabelKeyName set_dp_DrainRequestLabelKey c in
  let c := on_string d cephDplDrainReadyLabelKeyName set_dp_DrainReadyLabelKey c in
  let c := set_dp_CSIParams (load_csi d (dp_CSIParams c)) c in
  on_param d cephDplManageVSClassesKeyName ParseBool set_dp_ManageVolumeSnapshotClasses c.

Definition read_common (d : data) (c : CommonParams) : CommonParams :=
  let c := on_param d diskDaemonPortParameter Atoi (λ port, set_cp_DiskDaemonPort (wrap 32 port)) c in
  let c := on_param d diskDaemonPlacementLabel labels_parse set_cp_DiskDaemonPlacementLabel c in
  let c := on_param d osdFullModeParameter ParseBool set_cp_LcmFullMode c in
  let c := on_param d enableGatewayParameter ParseBool set_cp_GatewayAPIEnabled c in
  let c := on_string d baseGatewayNameParameter set_cp_BaseGatewayName c in
  let c := on_string d baseGatewayNamespaceParameter set_cp_BaseGatewayNamespace c in
  let c := on_param d rgwPublicAccessServiceSelectorParameter labels_parse set_cp_RgwPublicAccessLabel c in
  on_param d ingressSupportParameter ParseBool set_cp_KeepIngress c.

Definition ReadConfiguration (ParamsToControl : ControlParams) (d : data) : LcmConfig :=
  let c := defaultLcmConfig in
  let c := on_string d rookNamespaceParameter set_lc_RookNamespace c in
  let c := set_lc_CommonParams (read_common d (lc_CommonParams c)) c in
  match ParamsToControl with
  | ControlParamsHealth => set_lc_HealthParams (Some (loadHealthConfiguration d)) c
  | ControlParamsTask => set_lc_TaskParams (Some (loadTaskConfiguration d)) c
  | ControlParamsCephDpl => set_lc_DeployParams (Some (loadCephDeploymentConfiguration d)) c
  | ControlParamsAll =>
      set_lc_DeployParams (Some (loadCephDeploymentConfiguration d))
        (set_lc_TaskParams (Some (loadTaskConfiguration d))
           (set_lc_HealthParams (Some (loadHealthConfiguration d)) c))
  end.

(** ** The configurations of the namespaces: [lcmConfigs] *)

Definition lcm_configs : Type := gmap string LcmConfig.

Definition dropConfiguration (namespace : string) (lcmConfigs : lcm_configs) : lcm_configs :=
  delete namespace lcmConfigs.

Definition loadConfiguration (ParamsToControl : ControlParams) (namespace : string) (d : data)
    (lcmConfigs : lcm_configs) : lcm_configs :=
  <[namespace := ReadConfiguration ParamsToControl d]> lcmConfigs.

Definition GetConfiguration (namespace : string) (lcmConfigs : lcm_configs) : LcmConfig :=
  match lcmConfigs !! namespace with
  | Some lcmConfigForNs => lcmConfigForNs
  | None =>
      set_lc_DeployParams (Some defaultDeployParams)
        (set_lc_TaskParams (Some defaultTaskConfig) (set_lc_HealthParams (Some defaultHealthConfig) defaultLcmConfig))
  end.

Definition LcmConfigMapName : string := "pelagia-lcmconfig".

(** A config map: name and data. *)
Record ConfigMap := mkConfigMap { cm_Name : string; cm_Data : data }.

Inductive cm_event := CmCreated (cm : ConfigMap) | CmUpdated (oldC newC : ConfigMap) | CmDeleted (cm : ConfigMap) | CmGeneric.

Definition cmPredicate (e : cm_event) : bool :=
  match e with
  | CmCreated cm | CmDeleted cm => bool_decide (cm_Name cm = LcmConfigMapName)
  | CmUpdated oldC newC =>
      bool_decide (cm_Name newC = LcmConfigMapName) && bool_decide (cm_Name oldC = LcmConfigMapName) &&
      negb (bool_decide (cm_Data oldC = cm_Data newC))
  | CmGeneric => false
  end.

(** A round of the config controller; [got] is the answer to the request for the
    config map. *)
Definition config_Reconcile (ParamsToControl : ControlParams) (r : request) (got : data * option err)
    (lcmConfigs : lcm_configs) : lcm_configs * reconcile_result :=
  match got with
  | (_, Some e) =>
      if is_not_found e then (dropConfiguration (req_Namespace r) lcmConfigs, no_requeue)
      else (lcmConfigs, mkResult (15 * second) (Some e))
  | (d, None) => (loadConfiguration ParamsToControl (req_Namespace r) d lcmConfigs, no_requeue)
  end.
End config.
