(* ===== verification/ConfigFacts.v ===== *)
(** * The configuration: what the controllers can rely on

    Numbers of the config map are read back exactly as long as they fit their
    width, and the parameters of a controller are present in every configuration
    its process can see. *)

From Stdlib Require Import Ascii.
From S2P Require Import Prelude GoTime Types World Controller Config.
Open Scope Z_scope.

(** ** Decimal numbers *)

Lemma pretty_digit (n : N) : (n < 10)%N →
  Z.of_nat (nat_of_ascii (pretty_N_char n)) - 48 = Z.of_N n.
Proof.
  intros Hn. assert (n ∈ (N.of_nat <$> seq 0 10)) as Hin.
  { apply list_elem_of_fmap. exists (N.to_nat n). rewrite N2Nat.id, elem_of_seq. split; [done|lia]. }
  simpl in Hin. mem_inv Hin; subst; reflexivity.
Qed.

Lemma digits_pretty (n : N) s : (0 < n)%N → digits 0 (pretty_N_go n s) = digits (Z.of_N n) s.
Proof.
  revert s. induction (N.lt_wf_0 n) as [n _ IH]. intros s Hn. rewrite pretty_N_go_step by done.
  assert (Hdigit : ∀ acc, digits acc (String (pretty_N_char (n mod 10)) s) = digits (10 * acc + Z.of_N (n mod 10)) s).
  { intros acc. simpl. rewrite pretty_digit by (apply N.mod_lt; lia).
    rewrite decide_True; [done|].
    pose proof (N.mod_lt n 10 ltac:(done)) as Hm. revert Hm. generalize (n mod 10)%N. lia. }
  pose proof (N.div_mod' n 10) as Hdm.
  destruct (decide (n / 10 = 0)%N) as [H0|H0].
  - rewrite H0, pretty_N_go_0, Hdigit. f_equal. lia.
  - rewrite IH, Hdigit; [f_equal; lia|by apply N.div_lt|by apply N.neq_0_lt_0].
Qed.

Lemma pretty_N_go_cons (n : N) s : (0 < n)%N → ∃ a s', pretty_N_go n s = String a s' ∧ a ≠ "+"%char ∧ a ≠ "-"%char.
Proof.
  revert s. induction (N.lt_wf_0 n) as [n _ IH]. intros s Hn. rewrite pretty_N_go_step by done.
  destruct (decide (n / 10 = 0)%N) as [H0|H0]; [|by apply IH; [apply N.div_lt|apply N.neq_0_lt_0]].
  rewrite H0, pretty_N_go_0. eexists _, _. split; [done|].
  pose proof (pretty_digit (n mod 10) ltac:(by apply N.mod_lt)) as Hd. revert Hd.
  generalize (n mod 10)%N. intros d Hd. pose proof (N2Z.is_nonneg d) as Hp. rewrite <-Hd in Hp.
  split; intros He; rewrite He in Hp; by apply Hp.
Qed.

Lemma unsigned_pretty (n : N) : unsigned (pretty n) = Some (Z.of_N n).
Proof.
  destruct (decide (n = 0)%N) as [->|Hn]; [reflexivity|].
  unfold pretty, pretty_N. rewrite decide_False by done.
  pose proof (digits_pretty n "" ltac:(lia)) as Hd.
  destruct (pretty_N_go_cons n "" ltac:(lia)) as (a & s' & Heq & _). rewrite Heq in *. exact Hd.
Qed.

(** Printing and reading back. *)
Lemma Atoi_pretty (n : Z) : int_range 64 n → Atoi (pretty n) = Some n.
Proof.
  intros Hr. unfold Atoi, parse_int. assert (Hpos : ∀ p, pretty (Z.pos p) = pretty (N.pos p)) by done.
  assert (Hneg : ∀ p, pretty (Z.neg p) = String "-" (pretty (N.pos p))) by done.
  destruct n as [|p|p]; [reflexivity|rewrite Hpos|rewrite Hneg].
  - destruct (pretty_N_go_cons (N.pos p) "" ltac:(lia)) as (a & s' & Heq & Hp & Hm).
    pose proof (unsigned_pretty (N.pos p)) as Hu. change (pretty (N.pos p)) with (pretty_N_go (N.pos p) "") in *.
    rewrite Heq in *. destruct a as [[] [] [] [] [] [] [] []]; try (by destruct Hp); try (by destruct Hm);
      rewrite Hu; simpl; by rewrite decide_True.
  - rewrite unsigned_pretty. simpl. by rewrite decide_True.
Qed.

(** ** Machine integers *)

Lemma wrap_range w n : 0 < w → int_range w (wrap w n).
Proof.
  intros Hw. unfold int_range, wrap.
  pose proof (Z.mod_pos_bound (n + 2 ^ (w - 1)) (2 ^ w) ltac:(lia)) as Hb.
  replace (2 ^ w) with (2 * 2 ^ (w - 1)) in * by (rewrite <-Z.pow_succ_r by lia; f_equal; lia). lia.
Qed.

Lemma wrap_id w n : 0 < w → int_range w n → wrap w n = n.
Proof.
  intros Hw Hn. unfold int_range, wrap in *.
  rewrite Z.mod_small; [lia|].
  replace (2 ^ w) with (2 * 2 ^ (w - 1)) by (rewrite <-Z.pow_succ_r by lia; f_equal; lia). lia.
Qed.

Section facts.
Context `{ConfigLib}.

Lemma on_param_keeps {A C} (P : C → Prop) (d : gmap string string) key (parse : string → option A) (set : A → C → C) c :
  P c → (∀ a, P c → P (set a c)) → P (on_param d key parse set c).
Proof. intros Hc Hs. unfold on_param. destruct (_ ≫= _); auto. Qed.

(** What a controller may rely on in its configuration: the section of its own
    parameters is there, and numbers are of their types. *)
Definition config_ok (m : ControlParams) (c : LcmConfig) : Prop :=
  int_range 32 (lc_DiskDaemonPort c) ∧
  (m ∈ [ControlParamsAll; ControlParamsHealth] → is_Some (lc_HealthParams c)) ∧
  (m ∈ [ControlParamsAll; ControlParamsTask] → is_Some (lc_TaskParams c)) ∧
  (m ∈ [ControlParamsAll; ControlParamsCephDpl] → is_Some (lc_DeployParams c)) ∧
  (∀ t, lc_TaskParams c = Some t → int_range 64 (tp_OsdPgRebalanceTimeout t)).

Lemma read_common_port d c : int_range 32 (cp_DiskDaemonPort c) → int_range 32 (cp_DiskDaemonPort (read_common d c)).
Proof.
  intros Hc. unfold read_common, on_string.
  repeat (apply (on_param_keeps (λ c, int_range 32 (cp_DiskDaemonPort c))); [|by intros ? ?]).
  apply (on_param_keeps (λ c, int_range 32 (cp_DiskDaemonPort c))); [done|]. intros ? ?. by apply wrap_range.
Qed.

Lemma timeout_range d : int_range 64 (tp_OsdPgRebalanceTimeout (loadTaskConfiguration d)).
Proof.
  unfold loadTaskConfiguration.
  apply (on_param_keeps (λ c, int_range 64 (tp_OsdPgRebalanceTimeout c))); [|by intros ? ?].
  apply (on_param_keeps (λ c, int_range 64 (tp_OsdPgRebalanceTimeout c)));
    [|by intros ? ?; apply wrap_range].
  by apply (on_param_keeps (λ c, int_range 64 (tp_OsdPgRebalanceTimeout c))); [|intros ? ?].
Qed.

Lemma ReadConfiguration_ok m d : config_ok m (ReadConfiguration m d).
Proof.
  assert (Hport : int_range 32 (lc_DiskDaemonPort (ReadConfiguration m d))).
  { unfold ReadConfiguration, lc_DiskDaemonPort.
    destruct m; simpl; apply read_common_port; by apply (on_param_keeps (λ c, int_range 32 (cp_DiskDaemonPort (lc_CommonParams c)))). }
  split; [done|]. clear Hport.
  assert (Hnone : ∀ c, on_string d rookNamespaceParameter set_lc_RookNamespace c = c ∨
     ∃ v, on_string d rookNamespaceParameter set_lc_RookNamespace c = set_lc_RookNamespace v c).
  { intros c. unfold on_string, on_param. destruct (d !! _) as [v|]; simpl; eauto. }
  unfold ReadConfiguration. destruct (Hnone defaultLcmConfig) as [->|[v ->]];
    destruct m; simpl; split_and!; intros Hin; try (intros [= <-]; apply timeout_range);
    try (by eexists); try done; by mem_inv Hin.
Qed.

Lemma GetConfiguration_ok m ns (cs : lcm_configs) :
  (∀ ns c, cs !! ns = Some c → config_ok m c) → config_ok m (GetConfiguration ns cs).
Proof.
  intros Hcs. unfold GetConfiguration. destruct (cs !! ns) eqn:Hns; [eauto|].
  unfold config_ok. simpl. split_and!; try done; try (by eexists). by intros ? [= <-].
Qed.

(** Rounds of the config controller, each with its request and the answer to it. *)
Definition config_rounds (m : ControlParams) (rounds : list (request * (gmap string string * option err))) : lcm_configs :=
  foldl (λ cs r, (config_Reconcile m r.1 r.2 cs).1) ∅ rounds.

Lemma config_Reconcile_ok m r got (cs : lcm_configs) :
  (∀ ns c, cs !! ns = Some c → config_ok m c) →
  ∀ ns c, (config_Reconcile m r got cs).1 !! ns = Some c → config_ok m c.
Proof.
  intros Hcs ns c. destruct got as [d [e|]]; simpl.
  - destruct (is_not_found e); simpl; [|apply Hcs].
    unfold dropConfiguration. intros Hd%lookup_delete_Some. apply (Hcs ns), Hd.
  - unfold loadConfiguration. intros [[_ <-]|[_ Hns]]%lookup_insert_Some; [apply ReadConfiguration_ok|by apply (Hcs ns)].
Qed.

(** C38: whatever the config maps hold and however they come and go, every
    configuration that a controller gets has the section of that controller's
    own parameters (which its code dereferences without a check), a port of 32
    bits and a rebalance timeout of 64 bits. *)
Theorem own_params_present m rounds ns : config_ok m (GetConfiguration ns (config_rounds m rounds)).
Proof.
  apply GetConfiguration_ok. unfold config_rounds.
  assert (H0 : ∀ ns c, (∅ : lcm_configs) !! ns = Some c → config_ok m c) by done.
  revert H0. generalize (∅ : lcm_configs).
  induction rounds as [|r rounds IH]; intros cs Hcs; simpl; [done|].
  apply IH. intros ns' c'. by apply config_Reconcile_ok.
Qed.

(** Reading a number that is in the config map. *)
Lemma on_param_number {C} (d : gmap string string) key (set : Z → C → C) c n :
  int_range 64 n → d !! key = Some (pretty n) → on_param d key Atoi set c = set n c.
Proof. intros Hn Hd. unfold on_param. by rewrite Hd; simpl; rewrite Atoi_pretty. Qed.

Lemma timeout_loaded d n :
  int_range 64 n → d !! taskOsdPgRebalanceTimeout = Some (pretty n) →
  tp_OsdPgRebalanceTimeout (loadTaskConfiguration d) = duration_of_minutes n.
Proof.
  intros Hn Hd. unfold loadTaskConfiguration. rewrite (on_param_number _ _ _ _ _ Hn Hd).
  by apply (on_param_keeps (λ c, tp_OsdPgRebalanceTimeout c = duration_of_minutes n)).
Qed.

Lemma port_loaded m d n :
  int_range 64 n → d !! diskDaemonPortParameter = Some (pretty n) →
  lc_DiskDaemonPort (ReadConfiguration m d) = wrap 32 n.
Proof.
  intros Hn Hd. unfold ReadConfiguration, lc_DiskDaemonPort.
  assert (Hc : ∀ c, cp_DiskDaemonPort (read_common d c) = wrap 32 n); [|by destruct m; simpl; apply Hc].
  intros c. unfold read_common, on_string.
  repeat (apply (on_param_keeps (λ c, cp_DiskDaemonPort c = wrap 32 n)); [|by intros ? ?]).
  by rewrite (on_param_number _ _ _ _ _ Hn Hd).
Qed.

(** A number written into the config map in decimal is read back: the port
    exactly when it fits 32 bits, the rebalance timeout (given in minutes)
    exactly when its nanoseconds fit 64 bits; beyond that the low bits remain
    and nothing is reported. *)
Theorem config_numbers_read_back m d port mins :
  int_range 64 port → int_range 64 mins →
  d !! diskDaemonPortParameter = Some (pretty port) →
  d !! taskOsdPgRebalanceTimeout = Some (pretty mins) →
  (lc_DiskDaemonPort (ReadConfiguration m d) = port ↔ int_range 32 port) ∧
  (tp_OsdPgRebalanceTimeout (loadTaskConfiguration d) = mins * minute ↔ int_range 64 (mins * minute)).
Proof.
  intros Hp Hm Hdp Hdm. rewrite (port_loaded m d port), (timeout_loaded d mins) by done.
  unfold duration_of_minutes. split; (split; [intros <-; by apply wrap_range|by apply wrap_id]).
Qed.
End facts.

(** ** Concrete config maps *)

Definition demo_lib : ConfigLib :=
  {| parse_level := λ s, if decide (s = "info") then Some 1 else None;
     labels_parse := Some; regexp_compiles := λ _, true;
     generate_node_affinity := λ _, None; yaml_to_tolerations := λ _, None |}.

Definition demo_config_map (port mins : Z) : gmap string string :=
  {[diskDaemonPortParameter := pretty port; taskOsdPgRebalanceTimeout := pretty mins]}.

Lemma config_numbers_read_back_witness :
  lc_DiskDaemonPort (@ReadConfiguration demo_lib ControlParamsTask (demo_config_map 10000 45)) = 10000 ∧
  lc_DiskDaemonPort (@ReadConfiguration demo_lib ControlParamsTask (demo_config_map 4294967297 45)) ≠ 4294967297.
Proof.
  split.
  - apply (@config_numbers_read_back demo_lib ControlParamsTask (demo_config_map 10000 45) 10000 45); vm_compute; intuition discriminate.
  - intros Heq.
    apply (@config_numbers_read_back demo_lib ControlParamsTask (demo_config_map 4294967297 45) 4294967297 45) in Heq;
      vm_compute in *; intuition discriminate.
Defined.

(** A port of 2^32 + 1 becomes port 1. *)
Example port_truncated :
  lc_DiskDaemonPort (@ReadConfiguration demo_lib ControlParamsTask (demo_config_map 4294967297 45)) = 1.
Proof. reflexivity. Qed.

(** The management of CSI drivers is on by default; the other CSI parameters are
    still ignored unless the config map repeats that default. *)
Definition csi_config (manage : option string) : gmap string string :=
  let d := {[cephDplCSIKubeletPath := "/data/kubelet"]} in
  match manage with Some v => <[cephDplCSIManageKeyName := v]> d | None => d end.

Example csi_default_not_applied :
  let csi v := dp_CSIParams (@loadCephDeploymentConfiguration demo_lib (csi_config v)) in
  csi_Manage (csi None) = true ∧ csi_KubeletPath (csi None) = "/var/lib/kubelet" ∧
  csi_Manage (csi (Some "true")) = true ∧ csi_KubeletPath (csi (Some "true")) = "/data/kubelet".
Proof. by vm_compute. Qed.
