(* ===== verification/HealthWorld.v ===== *)
(** * The world of the health controller

    What pkg/controller/health reads besides what [World] answers: Kubernetes and
    Rook objects, outputs of further Ceph commands (one JSON decoder each), and the
    formats of floating-point numbers.  Helpers of pkg/common that it uses:
    [GetNode], [IsDaemonSetReady], [IsDeploymentReady] (k8s_utils.go),
    [IsClusterMaintenanceActing], [GetCephClusterIssues]
    (cephdeployment_utils.go). *)

From Stdlib Require Import QArith.
From S2P Require Import Prelude GoTime Types HealthTypes World.
Open Scope Z_scope.

(** Whether a CephDeploymentMaintenance has a status, and its state. *)
Inductive MaintenanceState := MaintenanceNoStatus | MaintenanceIdle | MaintenanceActing | MaintenanceFailing.

Class HealthWorld := {
  (** the health object, from the API server and from the cache, and its update *)
  w_health_get : history → string → string → CephDeploymentHealth * option err;
  w_health_cached : history → string → string → CephDeploymentHealth * option err;
  w_health_update : history → string → string → CephDeploymentHealthStatus → option err;
  (** Kubernetes objects, by namespace and name, or by namespace and selector *)
  w_node_get : history → string → K8sNode * option err;
  w_deployment_object : history → string → string → Deployment * option err;
  w_daemonset_get : history → string → string → DaemonSet * option err;
  w_configmap_get : history → string → string → gmap string string * option err;
  w_maintenance_get : history → string → string → MaintenanceState * option err;
  w_ingresses : history → string → string → list Ingress * option err;
  w_routes : history → string → string → list HTTPRoute * option err;
  w_services : history → string → string → list Service * option err;
  (** Rook objects of a namespace *)
  w_blockpools : history → string → list RookObject * option err;
  w_clients : history → string → list RookObject * option err;
  w_objectusers : history → string → list RookObject * option err;
  w_filesystems : history → string → list CephFilesystem * option err;
  w_objectstores : history → string → list CephObjectStore * option err;
  w_realms : history → string → list CephObjectRealm * option err;
  w_zonegroups : history → string → list CephObjectZoneGroup * option err;
  w_zones : history → string → list CephObjectZone * option err;
  (** encoding/json; a report is decoded into the variable of the previous one *)
  json_CephStatus : string → CephStatus * option err;
  json_DaemonReport_into : DiskDaemonReport → string → DiskDaemonReport * option err;
  json_MgrDump : string → mgrDump * option err;
  json_RgwID : string → string * option err;
  json_CephDetails : string → CephDetails * option err;
  json_Pools : string → list PoolLs * option err;
  json_CrushRules : string → list CrushRule * option err;
  (** the number of matches of [regexp.FindAllString] *)
  regexp_count : string → string → nat;
  (** the verbs [%v] and [%.3f] of package fmt *)
  format_v : Q → string;
  format_3f : Q → string;
}.

Section common.
Context `{HealthWorld}.

(** A read of an object or of a list of objects. *)
Definition read {A} (kind ns name : string) (f : history → A) : IO A := call (EvRead kind ns name) f.

Definition GetNode (nodename : string) : IO (K8sNode * option err) :=
  read "Node" EmptyString nodename (λ h, w_node_get h nodename).

Definition IsClusterMaintenanceActing (namespace name : string) : IO (bool * option err) :=
  let* r := read "CephDeploymentMaintenance" namespace name (λ h, w_maintenance_get h namespace name) in
  match r with
  | (_, Some e) =>
      ret (false, Some (wrap_err ("failed to get CephDeploymentMaintenance " +:+ namespace +:+ "/" +:+ name) e))
  | (MaintenanceActing, None) | (MaintenanceFailing, None) => ret (true, None)
  | (_, None) => ret (false, None)
  end.
End common.

Definition IsDaemonSetReady (ds : DaemonSet) : bool :=
  bool_decide (0 < dms_NumberReady ds) &&
  bool_decide (dms_CurrentNumberScheduled ds = dms_DesiredNumberScheduled ds) &&
  bool_decide (dms_DesiredNumberScheduled ds = dms_NumberReady ds) &&
  bool_decide (dms_NumberReady ds = dms_NumberAvailable ds) &&
  bool_decide (dms_NumberAvailable ds = dms_UpdatedNumberScheduled ds).

Definition IsDeploymentReady (deploy : Deployment) : bool :=
  let replicas := default 1 (dpl_SpecReplicas deploy) in
  bool_decide (0 < dpl_Replicas deploy) &&
  bool_decide (dpl_Replicas deploy = replicas) &&
  bool_decide (dpl_UpdatedReplicas deploy = dpl_Replicas deploy) &&
  bool_decide (dpl_ReadyReplicas deploy = dpl_Replicas deploy) &&
  bool_decide (dpl_AvailableReplicas deploy = dpl_Replicas deploy) &&
  bool_decide (dpl_Generation deploy = dpl_ObservedGeneration deploy).

(** The reported health checks and their messages, less the muted ones; no map
    when the status is missing or healthy. *)
Definition GetCephClusterIssues (cephCluster : CephCluster) : option (gmap string string) :=
  status ← cls_CephStatus (cc_Status cephCluster);
  if decide (cst_Health status = "HEALTH_OK") then None
  else Some (filter (λ w, cc_MuteHealthWarning cephCluster !! w.1 ≠ Some "mute") (cst_Details status)).
