(* ===== verification/DaemonsStatus.v ===== *)
(** * Status of the daemons

    pkg/controller/health/daemons_status.go: expected and running OSDs, mons, mgrs,
    RGWs and MDSs of the cluster, and the CSI plugins. *)

From Stdlib Require Import Ascii.
From S2P Require Import Prelude GoTime Types HealthTypes World HealthWorld.
Open Scope Z_scope.

Definition cephDaemonsCheck : string := "ceph_daemons".
Definition cephCSIDaemonsCheck : string := "ceph_csi_daemons".
Definition usageDetailsCheck : string := "usage_details".
Definition cephEventsCheck : string := "ceph_events".
Definition poolReplicasCheck : string := "pools_replicas".
Definition rgwInfoCheck : string := "rgw_info".
Definition specAnalysisCheck : string := "spec_analysis".

(** The verb [%v] on a slice of strings. *)
Definition show_strings (l : list string) : string := "[" +:+ Join l " " +:+ "]".

(** [(a/b)] *)
Definition of_total (a b : Z) : string := "(" +:+ pretty a +:+ "/" +:+ pretty b +:+ ")".

(** A status with sorted issues, failed when there are any. *)
Definition daemon_status (issues messages : list string) : DaemonStatus :=
  mkDaemonStatus (match issues with [] => DaemonStateOk | _ => DaemonStateFailed end) (SortStrings issues) messages.

Definition has_check (check : string) (skip : list string) : bool := Contains skip check.

(** ** OSDs, mons, mgrs *)

Definition osd_daemons (s : CephStatus) : DaemonStatus :=
  daemon_status
    ((if decide (cs_NumInOsd s < cs_NumOsd s) then ["not all osds are in"] else []) ++
     (if decide (cs_NumUpOsd s < cs_NumOsd s) then ["not all osds are up"] else []))
    [pretty (cs_NumOsd s) +:+ " osds, " +:+ pretty (cs_NumUpOsd s) +:+ " up, " +:+ pretty (cs_NumInOsd s) +:+ " in"].

Definition mon_daemons (cluster : CephCluster) (s : CephStatus) : DaemonStatus :=
  let actualMonsRunning := Z.of_nat (length (cs_QuorumNames s)) in
  let monsTarget := cs_NumMons s in
  let expectedMons := cc_MonCount cluster in
  daemon_status
    ((if cc_External cluster then []
      else if decide (monsTarget < expectedMons) then ["not all " +:+ of_total monsTarget expectedMons +:+ " mons are deployed"]
      else if decide (expectedMons < monsTarget) then ["unexpected " +:+ of_total monsTarget expectedMons +:+ " mons are deployed"]
      else []) ++
     (if decide (actualMonsRunning < monsTarget)
      then ["not all " +:+ of_total actualMonsRunning monsTarget +:+ " mons are running"] else []))
    [pretty actualMonsRunning +:+ " mons, quorum " +:+ show_strings (cs_QuorumNames s)].

Definition mgr_daemons (cluster : CephCluster) (m : mgrDump) : DaemonStatus :=
  if mgr_Available m then
    let actualMgrs := 1 + Z.of_nat (length (mgr_Standbys m)) in
    let standBys := match mgr_Standbys m with [] => EmptyString | l => ", standbys: " +:+ show_strings l end in
    daemon_status
      (if cc_External cluster then []
       else if decide (actualMgrs < cc_MgrCount cluster) then ["not all mgrs " +:+ of_total actualMgrs (cc_MgrCount cluster) +:+ " running"]
       else if decide (cc_MgrCount cluster < actualMgrs) then ["unexpected mgrs " +:+ of_total actualMgrs (cc_MgrCount cluster) +:+ " running"]
       else [])
      [mgr_ActiveName m +:+ " is active mgr" +:+ standBys]
  else daemon_status ["no active mgr"] [].

Section daemons.
Context `{World} `{HealthWorld} `{MapRange}.

(** ** RGWs *)

(** Rook gives all deployments the suffix [a]; a dot is no part of a service name. *)
Definition rgw_base_name (id : string) : string := ReplaceAll (TrimSuffix id ".a") "." "-".

(** The running RGWs: their number, the daemons of each RGW, and issues. *)
Definition running_rgws (s : CephStatus) : Z * gmap string (list string) * list string :=
  foldl (λ st ri,
    let '(total, running, issues) := st in
    let '(rgw, opts) := ri in
    if decide (rgw = "summary") then st
    else
      match json_RgwID opts with
      | (_, Some e) => (total + 1, running, issues ++ [err_msg e])
      | (id, None) =>
          if decide (id = EmptyString) then
            (total + 1, running, issues ++ ["failed to parse info for RGW daemon '" +:+ rgw +:+ "': no metadata info found"])
          else
            let name := rgw_base_name id in
            (total + 1, <[name := default [] (running !! name) ++ [rgw]]> running, issues)
      end) (0, ∅, []) (range 50 (cs_RgwDaemons s)).

Definition rgw_external (total : Z) (running : gmap string (list string)) : list string * list string :=
  if decide (total = 0) then (["no rgws are running"], [])
  else
    ([], (λ r, pretty (length r.2) +:+ " rgws running " +:+ show_strings (SortStrings r.2)
               +:+ ", rgw '" +:+ r.1 +:+ "'") <$> range 51 running).

(** Expected RGWs against running ones: messages, issues, and what is left of the
    running ones. *)
Definition rgw_expected (opts : gmap string rgwOpts) (running : gmap string (list string))
    : list string * list string * gmap string (list string) :=
  foldl (λ st eo,
    let '(issues, messages, running) := st in
    let ids := default [] (running !! eo.1) in
    let desired := ro_desiredRgwDaemons eo.2 in
    let count := Z.of_nat (length ids) in
    (issues ++ (if decide (count = desired) then []
                else ["incorrect number of rgws " +:+ of_total count desired +:+ " running for rgw '" +:+ eo.1 +:+ "'"]),
     messages ++ [pretty count +:+ "/" +:+ pretty desired +:+ " rgws running " +:+ show_strings (SortStrings ids)
                  +:+ ", rgw '" +:+ eo.1 +:+ "'"],
     delete eo.1 running)) ([], [], running) (range 52 opts).

Definition rgw_unexpected (running : gmap string (list string)) : list string :=
  (λ r, "unexpected rgws " +:+ pretty (length r.2) +:+ " running for rgw '" +:+ r.1 +:+ "'") <$> range 53 running.

Definition rgw_daemons (cluster : CephCluster) (opts : gmap string rgwOpts) (total : Z) (running : gmap string (list string))
    : option DaemonStatus :=
  if bool_decide (0 < total) || negb (bool_decide (opts = ∅)) then
    let im :=
      if cc_External cluster then rgw_external total running
      else
        let '(issues, messages, rest) := rgw_expected opts running in
        (issues ++ rgw_unexpected rest, messages) in
    Some (daemon_status im.1 (SortStrings im.2))
  else None.

(** ** MDSs *)

(** The file system of an MDS: its name up to the last dash. *)
Definition mds_filesystem (name : string) : string :=
  let tmp := Split name "-"%char in Join (take (length tmp - 1) tmp) "-".

Definition mds_count (m : gmap string Z) (state : string) : Z := default 0 (m !! state).

Definition running_mds (s : CephStatus) : gmap string (gmap string Z) :=
  foldl (λ running info,
    let fs := mds_filesystem (mr_Name info) in
    let m := default ∅ (running !! fs) in
    <[fs := <[mr_Status info := mds_count m (mr_Status info) + 1]> m]> running) ∅ (cs_ByRank s).

Definition mds_compare (fs : string) (expected running : gmap string Z) : list string * list string :=
  let ea := mds_count expected "up:active" in
  let ra := mds_count running "up:active" in
  let es := mds_count expected "up:standby-replay" in
  let rs := mds_count running "up:standby-replay" in
  ((if decide (ea = ra) then []
    else ["unexpected number " +:+ of_total ra ea +:+ " of mds active are running for CephFS '" +:+ fs +:+ "'"]) ++
   (if decide (es = rs) then []
    else ["unexpected number " +:+ of_total rs es +:+ " of mds standby-replay are running for CephFS '" +:+ fs +:+ "'"]),
   [if decide (es = 0 ∧ rs = 0) then
      "mds active: " +:+ pretty ra +:+ "/" +:+ pretty ea +:+ " (cephfs '" +:+ fs +:+ "')"
    else
      "mds active: " +:+ pretty ra +:+ "/" +:+ pretty es +:+ ", standby-replay: " +:+ pretty rs +:+ "/" +:+ pretty es
      +:+ " (cephfs '" +:+ fs +:+ "')"]).

(** Running MDSs against the expected ones, which are struck off. *)
Definition mds_check (running expected : gmap string (gmap string Z))
    : list string * list string * gmap string (gmap string Z) :=
  foldl (λ st fr,
    let '(issues, messages, expected) := st in
    match expected !! fr.1 with
    | None => (issues ++ ["unexpected mds daemons running (CephFS '" +:+ fr.1 +:+ "')"], messages, expected)
    | Some e =>
        let im := mds_compare fr.1 e fr.2 in
        (issues ++ im.1, messages ++ im.2, delete fr.1 expected)
    end) ([], [], expected) (range 54 running).

Definition mds_daemons (s : CephStatus) (expected : gmap string (gmap string Z)) : option DaemonStatus :=
  if negb (bool_decide (cs_ByRank s = [])) || negb (bool_decide (expected = ∅)) then
    let '(issues, messages, rest) := mds_check (running_mds s) expected in
    Some (daemon_status (issues ++ ((λ f, "mds daemons are not running (cephfs '" +:+ f.1 +:+ "')") <$> range 55 rest))
            (SortStrings messages))
  else None.

(** ** The daemons of the cluster *)

Definition insert_status (name : string) (s : option DaemonStatus) (m : gmap string DaemonStatus) : gmap string DaemonStatus :=
  match s with Some s => <[name := s]> m | None => m end.

Definition issues_of (s : option DaemonStatus) : list string := default [] (ds_Issues <$> s).

(** Statuses and issues made from the outputs of [ceph status] and [ceph mgr dump]. *)
Definition ceph_daemons (c : healthConfig) (cluster : CephCluster) (s : CephStatus) (m : mgrDump)
    : gmap string DaemonStatus * list string :=
  let osd := osd_daemons s in
  let mon := mon_daemons cluster s in
  let mgr := mgr_daemons cluster m in
  let '(total, running, rgwIssues) := running_rgws s in
  let rgw := rgw_daemons cluster (hc_rgwOpts c) total running in
  let mds := if cc_External cluster then None else mds_daemons s (hc_mdsDaemonsDesired c) in
  (insert_status "mds" mds (insert_status "rgw" rgw {["osd" := osd; "mon" := mon; "mgr" := mgr]}),
   SortStrings (ds_Issues osd ++ ds_Issues mon ++ ds_Issues mgr ++ rgwIssues ++ issues_of rgw ++ issues_of mds)).

Definition failed_to_run (cmd what : string) : string := "failed to run '" +:+ cmd +:+ "' command to check " +:+ what.

Definition getCephDaemonsStatus (rookNs : string) (skip : list string) (c : healthConfig) (cluster : CephCluster)
    : IO (option (gmap string DaemonStatus) * list string) :=
  if has_check cephDaemonsCheck skip then ret (None, [])
  else
    let cmd := "ceph status -f json" in
    let* r := RunAndParseCephToolboxCLI (mkCephStatus [] 0 0 0 0 ∅ [] ∅) json_CephStatus rookNs cmd in
    match r with
    | (_, Some _) => ret (None, [failed_to_run cmd "daemons status"])
    | (cephStatus, None) =>
        let cmd := "ceph mgr dump -f json" in
        let* r := RunAndParseCephToolboxCLI (mkMgrDump false "" []) json_MgrDump rookNs cmd in
        match r with
        | (_, Some _) => ret (None, [failed_to_run cmd "daemons status"])
        | (dump, None) =>
            let '(statuses, issues) := ceph_daemons c cluster cephStatus dump in
            ret (Some statuses, issues)
        end
    end.

(** ** Deployments and daemon sets *)

Definition getDaemonSetStatus (ns name : string) : IO (DaemonStatus * Z) :=
  let* r := read "DaemonSet" ns name (λ h, w_daemonset_get h ns name) in
  match r with
  | (_, Some e) =>
      ret (mkDaemonStatus DaemonStateFailed
             [if is_not_found e then "daemonset '" +:+ ns +:+ "/" +:+ name +:+ "' is not found"
              else "failed to get '" +:+ ns +:+ "/" +:+ name +:+ "' daemonset"] [], 0)
  | (ds, None) =>
      let messages := [pretty (dms_NumberReady ds) +:+ "/" +:+ pretty (dms_DesiredNumberScheduled ds) +:+ " ready"] in
      ret (if IsDaemonSetReady ds then mkDaemonStatus DaemonStateOk [] messages
           else mkDaemonStatus DaemonStateFailed ["daemonset '" +:+ ns +:+ "/" +:+ name +:+ "' is not ready"] messages,
           dms_NumberReady ds)
  end.

Definition getDeploymentStatus (ns name : string) : IO (DaemonStatus * Z) :=
  let* r := read "Deployment" ns name (λ h, w_deployment_object h ns name) in
  match r with
  | (_, Some e) =>
      ret (mkDaemonStatus DaemonStateFailed
             [if is_not_found e then "deployment '" +:+ ns +:+ "/" +:+ name +:+ "' is not found"
              else "failed to get '" +:+ ns +:+ "/" +:+ name +:+ "' deployment"] [], 0)
  | (deploy, None) =>
      let messages := [pretty (dpl_ReadyReplicas deploy) +:+ "/" +:+ pretty (dpl_Replicas deploy) +:+ " ready"] in
      ret (if IsDeploymentReady deploy then mkDaemonStatus DaemonStateOk [] messages
           else mkDaemonStatus DaemonStateFailed ["deployment '" +:+ ns +:+ "/" +:+ name +:+ "' is not ready"] messages,
           dpl_ReadyReplicas deploy)
  end.

(** ** CSI plugins *)

Definition RookOperatorConfigMapName : string := "rook-ceph-operator-config".
Definition CephCSIOperatorName : string := "ceph-csi-controller-manager".
Definition CephCSIRBDPluginDaemonSetNameOld : string := "csi-rbdplugin".
Definition CephCSICephFSPluginDaemonSetNameOld : string := "csi-cephfsplugin".
Definition CephCSIRBDPlugin (ns kind : string) : string := ns +:+ ".rbd.csi.ceph.com-" +:+ kind.
Definition CephCSICephFSPlugin (ns kind : string) : string := ns +:+ ".cephfs.csi.ceph.com-" +:+ kind.

(** The node plugin and the controller of one driver. *)
Definition csi_driver (rookNs node controller : string) (acc : gmap string DaemonStatus * list string)
    : IO (gmap string DaemonStatus * list string) :=
  let* d := getDaemonSetStatus rookNs node in
  let* e := getDeploymentStatus rookNs controller in
  ret (<[controller := e.1]> (<[node := d.1]> acc.1), acc.2 ++ ds_Issues d.1 ++ ds_Issues e.1).

Definition getCSIDaemonsStatus (rookNs : string) (skip : list string)
    : IO (option (gmap string DaemonStatus) * list string) :=
  if has_check cephCSIDaemonsCheck skip then ret (None, [])
  else
    let* r := read "ConfigMap" rookNs RookOperatorConfigMapName (λ h, w_configmap_get h rookNs RookOperatorConfigMapName) in
    match r with
    | (_, Some _) => ret (None, ["failed to get configmap '" +:+ rookNs +:+ "/" +:+ RookOperatorConfigMapName +:+ "'"])
    | (data, None) =>
        let old := bool_decide (data !! "ROOK_USE_CSI_OPERATOR" = Some "false") in
        let* acc :=
          if old then ret (∅, [])
          else let* s := getDeploymentStatus rookNs CephCSIOperatorName in
               ret ({["ceph-csi-operator" := s.1]}, ds_Issues s.1) in
        let* acc :=
          if decide (data !! "ROOK_CSI_ENABLE_RBD" = Some "true") then
            if old then csi_driver rookNs CephCSIRBDPluginDaemonSetNameOld (CephCSIRBDPluginDaemonSetNameOld +:+ "-provisioner") acc
            else csi_driver rookNs (CephCSIRBDPlugin rookNs "nodeplugin") (CephCSIRBDPlugin rookNs "ctrlplugin") acc
          else ret acc in
        let* acc :=
          if decide (data !! "ROOK_CSI_ENABLE_CEPHFS" = Some "true") then
            if old then csi_driver rookNs CephCSICephFSPluginDaemonSetNameOld (CephCSICephFSPluginDaemonSetNameOld +:+ "-provisioner") acc
            else csi_driver rookNs (CephCSICephFSPlugin rookNs "nodeplugin") (CephCSICephFSPlugin rookNs "ctrlplugin") acc
          else ret acc in
        ret (Some acc.1, acc.2)
    end.

Definition daemonsStatusVerification (rookNs : string) (skip : list string) (c : healthConfig) (cluster : CephCluster)
    : IO (option CephDaemonsStatus * list string) :=
  let* d := getCephDaemonsStatus rookNs skip c cluster in
  let* s := getCSIDaemonsStatus rookNs skip in
  ret (match d.1, s.1 with None, None => None | ds, cs => Some (mkCephDaemonsStatus ds cs) end,
       SortStrings (d.2 ++ s.2)).
End daemons.
