(* ===== verification/SpecAnalysis.v ===== *)
(** * The analysis of the OSD spec

    pkg/controller/health/spec_osd_verification.go: the devices named in the
    storage spec of the CephCluster are compared with what the disk daemons found on
    the nodes and with what Ceph knows about its OSDs.  Its result decides whether
    the task controller touches a host at all ([SpecHandler.analysis_block]).

    A nil dereference is [None]: the report of a daemon may lack its parts.
    [depth] bounds the recursion of [FindDiskName]. *)

From Stdlib Require Import Ascii.
From S2P Require Import Prelude GoTime Types HealthTypes World HealthWorld Helpers DiskDaemon Config.
Open Scope Z_scope.

(** ** What Ceph knows: [getOsdClusterDetails] *)

Definition zero_OsdInfo : OsdInfo := mkOsdInfo 0 "" 0 0.

(** The entry of [ceph osd info] for the metadata entry number [idx]: the one at
    the same index when the lists agree there, else the first with the same ID. *)
Definition find_osd_info (same_length : bool) (osdsInfo : list OsdInfo) (idx : nat) (id : Z) : OsdInfo :=
  let search := default zero_OsdInfo (snd <$> list_find (λ i, oi_OsdID i = id) osdsInfo) in
  match osdsInfo !! idx with
  | Some i => if same_length && bool_decide (oi_OsdID i = id) then i else search
  | None => search
  end.

Definition first_of (s : string) (sep : ascii) : string := hd EmptyString (Split s sep).
Definition last_of (s : string) (sep : ascii) : string := List.last (Split s sep) EmptyString.

(** The loop over the entries [device=value]: the value of the device and of the
    metadata device. *)
Definition device_values (deviceName metaDeviceName pairs : string) : string * string :=
  foldl (λ r entry,
    if HasPrefix entry deviceName then (last_of entry "="%char, r.2)
    else if HasPrefix entry metaDeviceName then (r.1, last_of entry "="%char)
    else r) (EmptyString, EmptyString) (Split pairs ","%char).

Definition osd_details (fsid : string) (info : OsdInfo) (md : OsdMetadataInfo) : osdDetails :=
  let deviceName := first_of (md_BluestoreDevices md) ","%char in
  let metaDeviceName := first_of (md_MetadataDevices md) ","%char in
  let ids := device_values deviceName metaDeviceName (md_DeviceIDs md) in
  let paths := device_values deviceName metaDeviceName (md_DevicePathes md) in
  mkOsdDetails fsid deviceName ids.1 paths.1 (md_BluestorePartition md) metaDeviceName ids.2 paths.2
    (md_MetadataPartition md) (oi_UUID info) (negb (bool_decide (oi_Up info = 0)))
    (negb (bool_decide (oi_In info = 0))).

Definition osd_hostname (md : OsdMetadataInfo) : string :=
  if decide (md_Hostname md = EmptyString) then StrayOsdNodeMarker else md_Hostname md.

Definition osd_key (id : Z) : string := "osd." +:+ pretty id.

(** The map from hosts to OSDs; [None] when the cluster has no Ceph status to take
    the FSID from. *)
Definition osd_devices_map (fsid : option string) (mds : list OsdMetadataInfo) (infos : list OsdInfo)
    : option (gmap string nodeDetails) :=
  let same_length := bool_decide (length mds = length infos) in
  foldl (λ acc imd,
    m ← acc;
    f ← fsid;
    let md := imd.2 in
    let details := osd_details f (find_osd_info same_length infos imd.1 (md_OsdID md)) md in
    let host := osd_hostname md in
    Some (<[host := <[osd_key (md_OsdID md) := details]> (default ∅ (m !! host))]> m))
    (Some ∅) (zip (seq 0 (length mds)) mds).

Section analysis.
Context `{World} `{HealthWorld} `{MapRange}.
Variable depth : nat.

Definition getOsdClusterDetails (rookNs : string) (cluster : CephCluster)
    : IO (option (gmap string nodeDetails * option err)) :=
  let* r := RunAndParseCephToolboxCLI [] json_OsdMetadata rookNs "ceph osd metadata -f json" in
  match r with
  | (_, Some e) => ret (Some (∅, Some e))
  | (mds, None) =>
      let* r := RunAndParseCephToolboxCLI [] json_OsdInfos rookNs "ceph osd info -f json" in
      match r with
      | (_, Some e) => ret (Some (∅, Some e))
      | (infos, None) =>
          ret (m ← osd_devices_map (cc_CephStatusFSID cluster) mds infos; Some (m, None))
      end
  end.

(** ** The devices of a node *)

(** [m[k]] of a map of strings. *)
Definition alias (r : DiskDaemonDisksReport) (name : string) : string := default EmptyString (dr_Aliases r !! name).

Definition block_type (r : DiskDaemonDisksReport) (dev : string) : string :=
  bdi_Type (block_of (dr_BlockInfo r) dev).

Definition filter_matches (filter : string) (byName : bool) (dev : string) (devInfo : BlockDeviceInfo) : bool :=
  if HasPrefix dev "/dev/mapper/" then false
  else if byName then regexp_match filter (CutPrefix dev "/dev/")
  else regexp_match filter dev || existsb (regexp_match filter) (bdi_Symlinks devInfo).

Definition findDisksForFilter (filter : string) (byName : bool) (disksInfo : gmap string BlockDeviceInfo) : list string :=
  (List.filter (λ d, filter_matches filter byName d.1 d.2) (range 40 disksInfo)).*1.

Record devForAnalysis := mkDevForAnalysis {
  da_Dev : string;
  da_FullDiskUsage : bool;
  da_MetadataDevice : string;
  da_OsdsPerDevice : Z;
  da_Filtered : bool;
  da_SpecifiedAs : string;
}.

Definition meta_not_found (meta : string) : string :=
  "specified metadata device '" +:+ meta +:+ "' is not found on a node".

(** The devices of a node that gives a filter, or the issue. *)
Definition devices_by_filter (node : CephNode) (nodeMeta : string) (perDevice : Z) (r : DiskDaemonDisksReport)
    : string + list devForAnalysis :=
  let byName := negb (bool_decide (cn_DeviceFilter node = EmptyString)) in
  let byFilter := if byName then cn_DeviceFilter node else cn_DevicePathFilter node in
  let has_meta := negb (bool_decide (nodeMeta = EmptyString)) in
  if has_meta && negb (bool_decide (is_Some (dr_Aliases r !! PathDevPrepended nodeMeta))) then
    inl (meta_not_found nodeMeta)
  else
    match findDisksForFilter byFilter byName (dr_BlockInfo r) with
    | [] => inl ("no devices found for device filter '" +:+ byFilter +:+ "'")
    | devicesFound =>
        if has_meta && regexp_match byFilter nodeMeta then
          inl ("specified metadata device matches device filter '" +:+ byFilter +:+ "'")
        else
          inr ((λ dev, mkDevForAnalysis dev (bool_decide (block_type r (alias r (PathDevPrepended dev)) = "disk"))
                         nodeMeta perDevice true byFilter) <$> devicesFound)
    end.

(** The loop over the devices of the spec: issues, devices already used, metadata
    devices with what they are used for, devices to analyse. *)
Record spec_state := mkSpecState {
  ss_issues : list string;
  ss_used : gmap string string;
  ss_meta : gmap string string;
  ss_devs : list devForAnalysis;
}.

Definition ss_issue (msg : string) (st : spec_state) : spec_state :=
  mkSpecState (ss_issues st ++ [msg]) (ss_used st) (ss_meta st) (ss_devs st).

Definition specified_as (cephDev : CephDevice) : string :=
  if decide (cd_FullPath cephDev = EmptyString) then cd_Name cephDev else cd_FullPath cephDev.

(** The metadata device of a device of the spec: an issue that skips the device, or
    the state with the metadata device registered. *)
Definition check_metadata (nodeMeta meta specifiedAs : string) (r : DiskDaemonDisksReport) (st : spec_state)
    : string + spec_state :=
  if decide (meta = EmptyString) then inr st
  else
    match dr_Aliases r !! PathDevPrepended meta with
    | None =>
        inl (if decide (PathDevPrepended meta = PathDevPrepended nodeMeta) then meta_not_found nodeMeta
             else "metadata device '" +:+ meta +:+ "' specified for device '" +:+ specifiedAs
                  +:+ "' is not found on a node")
    | Some metaDev =>
        let usedFor := default EmptyString (ss_meta st !! meta) in
        let st :=
          if negb (bool_decide (block_type r metaDev = "disk")) && negb (bool_decide (usedFor = EmptyString))
          then ss_issue ("spec device '" +:+ specifiedAs +:+ "' has metadata device '" +:+ meta
                 +:+ "', which is duplication use as meta for device '" +:+ usedFor +:+ "'") st
          else st in
        inr (mkSpecState (ss_issues st) (ss_used st) (<[meta := specifiedAs]> (ss_meta st)) (ss_devs st))
    end.

Definition spec_device (nodeMeta : string) (perDevice : Z) (r : DiskDaemonDisksReport) (st : spec_state)
    (cephDev : CephDevice) : option spec_state :=
  let specifiedAs := specified_as cephDev in
  found ← FindDiskName depth specifiedAs r;
  Some
    match found with
    | inr e => ss_issue ("failed to check device '" +:+ specifiedAs +:+ "' specified in spec: " +:+ err_msg e) st
    | inl diskName =>
        let meta := default nodeMeta (cd_Config cephDev !! "metadataDevice") in
        let osdsPerDevice :=
          match cd_Config cephDev !! "osdsPerDevice" with Some v => Atoi_value v | None => perDevice end in
        let usedDev := alias r (PathDevPrepended specifiedAs) in
        match ss_used st !! usedDev with
        | Some duplicateFor =>
            ss_issue ("spec device '" +:+ specifiedAs +:+ "' is duplication usage for item with device '"
              +:+ duplicateFor +:+ "' (devices matched by id)") st
        | None =>
            match check_metadata nodeMeta meta specifiedAs r st with
            | inl msg => ss_issue msg st
            | inr st =>
                mkSpecState (ss_issues st) (<[usedDev := specifiedAs]> (ss_used st)) (ss_meta st)
                  (ss_devs st ++ [mkDevForAnalysis diskName (bool_decide (block_type r usedDev = "disk"))
                                    meta osdsPerDevice false specifiedAs])
            end
        end
    end.

(** Metadata devices that are used as block devices as well. *)
Definition meta_used_as_block (r : DiskDaemonDisksReport) (st : spec_state) : list string :=
  omap (λ mu,
    (λ dev, "specified as metadata device '" +:+ mu.1 +:+ "' (for device '" +:+ mu.2
            +:+ "') and is used as block device '" +:+ dev +:+ "'")
    <$> ss_used st !! alias r mu.1) (range 41 (ss_meta st)).

Definition devices_of_spec (node : CephNode) (nodeMeta : string) (perDevice : Z) (r : DiskDaemonDisksReport)
    : option (list string * list devForAnalysis) :=
  st ← foldl (λ acc cephDev, st ← acc; spec_device nodeMeta perDevice r st cephDev)
         (Some (mkSpecState [] ∅ ∅ [])) (cn_Devices node);
  Some (ss_issues st ++ meta_used_as_block r st, ss_devs st).

Definition node_meta (node : CephNode) : string := default EmptyString (cn_Config node !! "metadataDevice").
Definition node_per_device (node : CephNode) : Z :=
  match cn_Config node !! "osdsPerDevice" with Some v => Atoi_value v | None => 1 end.

(** The devices to analyse, or issues with the spec. *)
Definition devices_to_analyse (node : CephNode) (disks : option DiskDaemonDisksReport)
    : option (list string * list devForAnalysis) :=
  let nodeMeta := node_meta node in
  let perDevice := node_per_device node in
  match cn_Devices node with
  | [] =>
      if negb (bool_decide (cn_DeviceFilter node = EmptyString))
         || negb (bool_decide (cn_DevicePathFilter node = EmptyString)) then
        r ← disks;
        Some match devices_by_filter node nodeMeta perDevice r with
             | inl msg => ([msg], [])
             | inr devs => ([], devs)
             end
      else Some ([], [])
  | _ :: _ => r ← disks; devices_of_spec node nodeMeta perDevice r
  end.

(** ** The OSDs on a device *)

(** The loop state of a device: issues, OSDs counted on it, OSDs reflected by the
    spec, and of a volume: metadata device found, raw device. *)
Record dev_state := mkDevState {
  dv_issues : list string;
  dv_onDevice : Z;
  dv_reflected : gset string;
  dv_metaFound : bool;
  dv_rawOsd : bool;
}.
Definition dv_issue (msg : string) (st : dev_state) : dev_state :=
  mkDevState (dv_issues st ++ [msg]) (dv_onDevice st) (dv_reflected st) (dv_metaFound st) (dv_rawOsd st).
Definition dv_count (st : dev_state) : dev_state :=
  mkDevState (dv_issues st) (dv_onDevice st + 1) (dv_reflected st) (dv_metaFound st) (dv_rawOsd st).
Definition dv_reflect (osd : string) (st : dev_state) : dev_state :=
  mkDevState (dv_issues st) (dv_onDevice st) ({[osd]} ∪ dv_reflected st) (dv_metaFound st) (dv_rawOsd st).
Definition dv_meta (st : dev_state) : dev_state :=
  mkDevState (dv_issues st) (dv_onDevice st) (dv_reflected st) true (dv_rawOsd st).
Definition dv_raw (st : dev_state) : dev_state :=
  mkDevState (dv_issues st) (dv_onDevice st) (dv_reflected st) (dv_metaFound st) true.
Definition dv_volume (st : dev_state) : dev_state :=
  mkDevState (dv_issues st) (dv_onDevice st) (dv_reflected st) false false.

Definition used_in_spec_as (d : devForAnalysis) : string :=
  if da_Filtered d then "device '" +:+ da_Dev d +:+ "' filtered by '" +:+ da_SpecifiedAs d +:+ "'"
  else "device '" +:+ da_SpecifiedAs d +:+ "'".

Section device.
Variables (r : DiskDaemonDisksReport) (d : devForAnalysis) (osd : string).
Let usedAs : string := used_in_spec_as d.
Let has_meta : bool := negb (bool_decide (da_MetadataDevice d = EmptyString)).

(** Whether a partition is passed over: for a device that is not a whole disk only
    the partition meant counts. *)
Definition skip_partition (part : OsdPartition) : bool :=
  if da_FullDiskUsage d then false
  else if da_Filtered d then
    negb (regexp_match (da_SpecifiedAs d) (op_Partition part)) ||
    negb (existsb (regexp_match (da_SpecifiedAs d)) (op_PartitionSymlinks part))
  else negb (bool_decide (alias r (op_Partition part) = alias r (da_SpecifiedAs d))).

Definition check_partition (osdDev : OsdDevice) (part : OsdPartition) (st : dev_state) : dev_state :=
  let lookForBlock := bool_decide (od_Name osdDev = da_Dev d) in
  if decide (op_Type part = "block") then
    if lookForBlock then dv_reflect osd (dv_count st) else st
  else if decide (op_Type part = "db") then
    if lookForBlock then
      dv_issue (usedAs +:+ " is specified as block device, but contains db partition '" +:+ op_Partition part +:+ "'") st
    else if has_meta then
      let metaDevAliased := alias r (PathDevPrepended (da_MetadataDevice d)) in
      if bool_decide (metaDevAliased = alias r (PathDevPrepended (op_Partition part))) ||
         bool_decide (metaDevAliased = alias r (PathDevPrepended (od_Name osdDev)))
      then dv_meta st
      else dv_issue (usedAs +:+ " has unknown db partition '" +:+ op_Partition part +:+ "', while expected '"
             +:+ da_MetadataDevice d +:+ "' (osd " +:+ osd +:+ ")") st
    else dv_issue (usedAs +:+ " has no specified metadata device, but found related db partition '"
           +:+ op_Partition part +:+ "' (osd " +:+ osd +:+ ")") st
  else st.

Fixpoint check_partitions (osdDev : OsdDevice) (parts : list OsdPartition) (st : dev_state) : dev_state :=
  match parts with
  | [] => st
  | part :: parts' =>
      if negb (bool_decide (od_RelatedPartition osdDev = op_Partition part)) || skip_partition part
      then check_partitions osdDev parts' st
      else
        let st := check_partition osdDev part st in
        if da_FullDiskUsage d then check_partitions osdDev parts' st else st
  end.

Definition check_raw_volume (st : dev_state) : dev_state :=
  let st := dv_raw st in
  let st := if has_meta then dv_issue (usedAs +:+ " is specified with metadata device, but currently used as raw device (no metadata supported)") st else st in
  let st := if decide (da_OsdsPerDevice d = 1) then st
            else dv_issue (usedAs +:+ " is specified with multiple osds per device, but currently used as raw device (only single osd supported)") st in
  dv_reflect osd (dv_count st).

(** A volume that belongs to the OSD of this cluster. *)
Definition known_volume (osdInfo : OsdDaemonInfo) (st : dev_state) : dev_state :=
  let st := foldl (λ st osdDev,
    if od_Raw osdDev then if decide (od_Name osdDev = da_Dev d) then check_raw_volume st else st
    else check_partitions osdDev (odi_Partitions osdInfo) st) (dv_volume st) (odi_Devices osdInfo) in
  if has_meta && negb (dv_metaFound st) && negb (dv_rawOsd st) then
    dv_issue ("metadata device '" +:+ da_MetadataDevice d +:+ "' is not found for osd '" +:+ osd +:+ "' for " +:+ usedAs) st
  else st.

(** A volume with the ID of an OSD of the cluster that is not that OSD. *)
Definition unknown_volume (osdInfo : OsdDaemonInfo) (st : dev_state) : dev_state :=
  foldl (λ st osdDev,
    if decide (od_Name osdDev = da_Dev d) then
      if od_Raw osdDev then
        dv_issue ("unknown osd '" +:+ osd +:+ "' (raw formatted) is found on " +:+ usedAs) (dv_count st)
      else if da_FullDiskUsage d then
        foldl (λ st part,
          dv_issue ("unknown osd '" +:+ osd +:+ "' " +:+ op_Type part +:+ " partition '" +:+ op_Partition part
            +:+ "' is found on " +:+ usedAs)
            (if decide (op_Type part = "block") then dv_count st else st)) st (odi_Partitions osdInfo)
      else st
    else st) st (odi_Devices osdInfo).

Definition is_cluster_osd (details : osdDetails) (osdInfo : OsdDaemonInfo) : bool :=
  bool_decide (odi_ClusterFSID osdInfo = odt_ClusterFSID details) &&
  bool_decide (odi_OsdUUID osdInfo = odt_UUID details).

Definition analyse_volume (clusterInfo : nodeDetails) (st : dev_state) (osdInfo : OsdDaemonInfo) : dev_state :=
  match clusterInfo !! ("osd." +:+ osd) with
  | Some details => if is_cluster_osd details osdInfo then known_volume osdInfo st else unknown_volume osdInfo st
  | None => st
  end.
End device.

(** One device: its OSDs, then the number of them.  The report of OSDs is needed as
    soon as an OSD is on the device. *)
Definition analyse_device (r : DiskDaemonDisksReport) (osds : option DiskDaemonOsdsReport) (clusterInfo : nodeDetails)
    (acc : list string * gset string) (d : devForAnalysis) : option (list string * gset string) :=
  st ← foldl (λ acc osd,
         st ← acc;
         o ← osds;
         Some (foldl (analyse_volume r d osd clusterInfo) st (default [] (osr_Osds o !! osd))))
       (Some (mkDevState acc.1 0 acc.2 false false)) (default [] (dr_DiskToOsd r !! da_Dev d));
  let issues :=
    if decide (dv_onDevice st = da_OsdsPerDevice d) then dv_issues st
    else dv_issues st ++ [used_in_spec_as d +:+ " should have " +:+ pretty (da_OsdsPerDevice d)
           +:+ " osd(s), but actually found " +:+ pretty (dv_onDevice st)] in
  Some (issues, dv_reflected st).

(** ** OSDs that are not in the spec *)

Definition with_fsid (uuid msg : string) : string :=
  if decide (uuid = EmptyString) then msg else msg +:+ " (osd fsid '" +:+ uuid +:+ "')".
Definition stray_or_extra (knownOsd : bool) (msg : string) : string :=
  msg +:+ (if knownOsd then ", which is not reflected in spec" else ", which seems to be stray, can be cleaned up").

Definition volume_device_warning (osd : string) (vol : OsdDaemonInfo) (knownOsd : bool) (dev : OsdDevice) : option string :=
  if od_Raw dev then
    Some (stray_or_extra knownOsd (with_fsid (odi_OsdUUID vol)
      ("found formatted ceph raw device '" +:+ od_Name dev +:+ "', belongs to osd '" +:+ osd +:+ "'")))
  else
    p ← list_find (λ part, od_RelatedPartition dev = op_Partition part) (odi_Partitions vol);
    Some (stray_or_extra knownOsd (with_fsid (odi_OsdUUID vol)
      ("found ceph " +:+ op_Type p.2 +:+ " partition '" +:+ op_Partition p.2 +:+ "', belongs to osd '" +:+ osd +:+ "'")
      +:+ ", placed on '" +:+ od_Name dev +:+ "' device")).

Definition known_in_cluster (clusterInfo : nodeDetails) (osd : string) (vol : OsdDaemonInfo) : bool :=
  match clusterInfo !! ("osd." +:+ osd) with
  | Some info => bool_decide (odt_UUID info = odi_OsdUUID vol)
  | None => false
  end.

(** Warnings of a volume, and whether it is an OSD of the cluster that the spec
    does not reflect. *)
Definition volume_warnings (clusterInfo : nodeDetails) (reflected : gset string) (osd : string) (vol : OsdDaemonInfo)
    : list string * bool :=
  let knownOsd := known_in_cluster clusterInfo osd vol in
  if knownOsd && bool_decide (osd ∈ reflected) then ([], false)
  else
    let ws := omap (volume_device_warning osd vol knownOsd) (odi_Devices vol) in
    (ws, knownOsd && negb (bool_decide (ws = []))).

Definition stray_warnings (osds : DiskDaemonOsdsReport) (clusterInfo : nodeDetails) (reflected : gset string)
    : list string * bool :=
  let vols := ov ← range 42 (osr_Osds osds); (λ vol, (ov.1, vol)) <$> ov.2 in
  let ws := (λ v, volume_warnings clusterInfo reflected v.1 v.2) <$> vols in
  (SortStrings (concat ws.*1), existsb snd ws).

(** [runSpecAnalysis]: issues, warnings, and whether OSDs of the cluster are not
    described by the spec. *)
Definition runSpecAnalysis (node : CephNode) (report : DiskDaemonReport) (clusterInfo : nodeDetails)
    : option (list string * list string * bool) :=
  prep ← devices_to_analyse node (ddr_DisksReport report);
  match prep.1 with
  | _ :: _ => Some (SortStrings prep.1, [], false)
  | [] =>
      res ← foldl (λ acc d,
              a ← acc; r ← ddr_DisksReport report;
              analyse_device r (ddr_OsdsReport report) clusterInfo a d) (Some ([], ∅)) prep.2;
      match res.1 with
      | _ :: _ => Some (SortStrings res.1, [], false)
      | [] =>
          osds ← ddr_OsdsReport report;
          Some ([], (stray_warnings osds clusterInfo res.2).1, (stray_warnings osds clusterInfo res.2).2)
      end
  end.
End analysis.
