(* ===== verification/NodeAnalysis.v ===== *)
(** * The spec analysis of all nodes

    pkg/controller/health/spec_osd_verification.go: [getNodeAnalyseStatus] gets the
    report of the disk daemon of a node and analyses it, [prepareSpecAnalysis] does so
    for the nodes of the spec, [getSpecAnalysisStatus] makes the section of the
    health report.

    The nodes are analysed by up to [maxParallelThreads] goroutines.  Here they run one
    after the other, which is one of their schedules; AnalysisThreads has all of them. *)

From S2P Require Import Prelude GoTime Types HealthTypes World HealthWorld DaemonsStatus Helpers DiskDaemon Config SpecAnalysis.
Open Scope Z_scope.

Definition timeRetrySleep : Z := 5 * second.
Definition maxParallelThreads : nat := 5.

(** The result of a node: its name, its status, OSDs not in the spec. *)
Abbreviation node_result := (string * (DaemonStatus * bool))%type.

Section analysis.
Context `{World} `{HealthWorld} `{MapRange}.
Variable depth : nat.
Variable lcmConfig : LcmConfig.

(** [HealthParams.ChecksSkip] *)
Definition checks_skip : list string := default [] (hp_ChecksSkip <$> lc_HealthParams lcmConfig).

(** ** One node *)

Definition report_cmd : string :=
  PelagiaDiskDaemon +:+ " --full-report --port " +:+ pretty (lc_DiskDaemonPort lcmConfig).

(** The variable at first; its empty state counts as not ready, as all states but
    two do. *)
Definition zero_report : DiskDaemonReport := mkDiskDaemonReport DiskDaemonStateSkipped "" [] None None.

(** Waiting for a report, or the issue; [prev] is the content of the variable the
    next report is decoded into. *)
Fixpoint wait_report (namespace node : string) (notReadyRetries : nat) (prev : DiskDaemonReport)
    : IO (string + DiskDaemonReport) :=
  let* r := RunAndParseDiskDaemonCLI prev (json_DaemonReport_into prev) namespace node report_cmd in
  match r with
  | (_, Some _) =>
      ret (inl ("failed to run '" +:+ report_cmd +:+ "' command to get disk report from " +:+ PelagiaDiskDaemon))
  | (report, None) =>
      match ddr_State report with
      | DiskDaemonStateFailed => ret (inl "disk report is failed")
      | DiskDaemonStateOk => ret (inr report)
      | _ =>
          match notReadyRetries with
          | S retries => sleep timeRetrySleep ;;; wait_report namespace node retries report
          | O => ret (inl "disk report is not ready")
          end
      end
  end.

Definition failed_status (issue : string) : DaemonStatus := mkDaemonStatus DaemonStateFailed [issue] [].
Definition skipped_status (msg : string) : DaemonStatus := mkDaemonStatus DaemonStateSkipped [] [msg].

Definition analysis_status (issues warnings : list string) : DaemonStatus :=
  mkDaemonStatus (match issues with [] => DaemonStateOk | _ => DaemonStateFailed end) issues warnings.

Definition getNodeAnalyseStatus (namespace : string) (node : CephNode) (clusterInfo : gmap string nodeDetails)
    : IO (option (DaemonStatus * bool)) :=
  let* k := GetNode (cn_Name node) in
  match k with
  | (_, Some _) => ret (Some (failed_status ("failed to get node '" +:+ cn_Name node +:+ "' info"), false))
  | (knode, None) =>
      if negb (IsNodeWithDiskDaemon knode (lc_DiskDaemonPlacementLabel lcmConfig)) then
        ret (Some (skipped_status "disk daemon is not running for node (missed daemon label), spec analysis skipped", false))
      else
        match IsNodeAvailable knode with
        | (false, reason) => ret (Some (failed_status reason, false))
        | (true, _) =>
            let* w := wait_report namespace (cn_Name node) 3 zero_report in
            match w with
            | inl issue => ret (Some (failed_status issue, false))
            | inr report =>
                if cn_UseAllDevices node then
                  ret (Some (skipped_status "used 'useAllDevices' flag for node definition, spec analysis skipped", false))
                else if negb (bool_decide (cn_VolumeClaimTemplates node = [])) then
                  ret (Some (skipped_status "pvc based node, spec analysis skipped", false))
                else
                  ret (res ← runSpecAnalysis depth node report (default ∅ (clusterInfo !! cn_Name node));
                       let '(issues, warnings, extraFound) := res in
                       Some (analysis_status issues warnings, extraFound))
            end
        end
  end.

(** ** All nodes *)

Definition extra_issue (node : string) : string :=
  "node '" +:+ node +:+ "' has running osd(s), not described in spec".
Definition failed_issue (node : string) : string := "node '" +:+ node +:+ "' has failed spec analyse".
Definition unverified_issue (node : string) : string :=
  "node '" +:+ node +:+ "' present in cluster and has running osd(s), but not present in spec".

(** What a goroutine adds: to the issues of the function, and, under the lock, to
    the issues of the threads. *)
Definition extra_issues (r : node_result) : list string := if r.2.2 then [extra_issue r.1] else [].
Definition status_issues (r : node_result) : list string :=
  match ds_Issues r.2.1 with [] => [] | _ => [failed_issue r.1] end.

Definition statuses_of (rs : list node_result) : gmap string DaemonStatus :=
  foldl (λ m r, <[r.1 := r.2.1]> m) ∅ rs.

Definition named_nodes (cluster : CephCluster) : list CephNode :=
  List.filter (λ n, negb (bool_decide (cn_Name n = EmptyString))) (cc_StorageNodes cluster).

(** Hosts with OSDs that the spec does not name. *)
Definition unverified (cluster : CephCluster) (clusterInfo : gmap string nodeDetails) : list string :=
  List.filter (λ n, negb (bool_decide (n = StrayOsdNodeMarker)) &&
                    negb (bool_decide (n ∈ cn_Name <$> named_nodes cluster))) (range 43 clusterInfo).*1.

(** What is reported when the goroutines have come to their results. *)
Definition prepare_result (cluster : CephCluster) (clusterInfo : gmap string nodeDetails)
    (extra failed : list string) (statuses : gmap string DaemonStatus) : gmap string DaemonStatus * list string :=
  (statuses, SortStrings (extra ++ failed ++ (unverified_issue <$> unverified cluster clusterInfo))).

Definition prepareSpecAnalysis (namespace : string) (cluster : CephCluster) (clusterInfo : gmap string nodeDetails)
    : IO (option (gmap string DaemonStatus * list string)) :=
  let* rs := foldM (λ acc node,
    match acc with
    | None => ret None
    | Some rs =>
        let* r := getNodeAnalyseStatus namespace node clusterInfo in
        ret ((λ r, rs ++ [(cn_Name node, r)]) <$> r)
    end) (named_nodes cluster) (Some ([] : list node_result)) in
  ret ((λ rs, prepare_result cluster clusterInfo (rs ≫= extra_issues) (rs ≫= status_issues) (statuses_of rs)) <$> rs).

(** The section [OsdAnalysis] of the health report, and issues; [None] for a crash. *)
Definition getSpecAnalysisStatus (namespace : string) (cluster : CephCluster)
    : IO (option (option OsdSpecAnalysisState * list string)) :=
  if cc_External cluster || has_check specAnalysisCheck checks_skip then ret (Some (None, []))
  else
    let* d := getOsdClusterDetails (lc_RookNamespace lcmConfig) cluster in
    match d with
    | None => ret None
    | Some (_, Some _) => ret (Some (None, ["failed to get osd cluster info"]))
    | Some (clusterInfo, None) =>
        let* ds := getDaemonSetStatus namespace PelagiaDiskDaemon in
        let '(daemon, numberReady) := ds in
        if decide (numberReady = 0) then ret (Some (Some (mkSpecAnalysisState daemon None ∅), ds_Issues daemon))
        else
          let generation := Some (cc_Generation cluster) in
          if decide (cc_StorageNodes cluster = []) then
            ret (Some (Some (mkSpecAnalysisState daemon generation ∅), ds_Issues daemon))
          else
            let* p := prepareSpecAnalysis namespace cluster clusterInfo in
            ret ((λ p : gmap string DaemonStatus * list string,
                    (Some (mkSpecAnalysisState daemon generation p.1), ds_Issues daemon ++ p.2)) <$> p)
    end.
End analysis.
