(* ===== verification/AnalysisThreads.v ===== *)
(** * The goroutines of the spec analysis

    [prepareSpecAnalysis] starts a goroutine for every node of the spec, at most
    [maxParallelThreads] at a time.  A goroutine adds its status and its issue under a
    lock, but appends to the issues of the function, which are shared as well, without
    one: the append is a load of the slice and a store.  [tstep] has all their
    interleavings; [results] are what the nodes' analyses come to.

    Proved: the bound on running goroutines, termination, that statuses and issues of
    failed nodes do not depend on the schedule, and what the unlocked append can and
    cannot lose.  Loads and stores of the slice are taken as atomic. *)

From S2P Require Import Prelude GoTime Types HealthTypes World HealthWorld DaemonsStatus SpecAnalysis NodeAnalysis.
Open Scope nat_scope.

(** Where a goroutine is: not started; analysing; about to load the issues; about to
    store them with its own one; about to take the lock and update the status; about
    to return its slot; ended. *)
Inductive pc :=
| TPending
| TAnalyse
| TLoad
| TStore (old : list string)
| TUpdate
| TDispose
| TDone.
#[global] Instance pc_eq_dec : EqDecision pc.
Proof. solve_decision. Defined.

Abbreviation thread := (node_result * pc)%type.

Record tstate := mkTState {
  t_threads : list thread;
  t_count : nat;
  t_statuses : gmap string DaemonStatus;
  t_failed : list string;
  t_issues : list string;
}.

Definition t_init (results : list node_result) : tstate := mkTState ((λ r, (r, TPending)) <$> results) 0 ∅ [] [].

(** [disposeThreads(1)] *)
Definition can_start (s : tstate) : bool := negb (Nat.eqb (t_count s) maxParallelThreads).

(** What a goroutine does next: its new place and the new state of the rest. *)
Definition thread_step (r : node_result) (p : pc) (s : tstate) : option (pc * tstate) :=
  match p with
  | TPending | TDone => None
  | TAnalyse => Some (if r.2.2 then TLoad else TUpdate, s)
  | TLoad => Some (TStore (t_issues s), s)
  | TStore old =>
      Some (TUpdate, mkTState (t_threads s) (t_count s) (t_statuses s) (t_failed s) (old ++ extra_issues r))
  | TUpdate =>
      Some (TDispose, mkTState (t_threads s) (t_count s) (<[r.1 := r.2.1]> (t_statuses s)) (t_failed s ++ status_issues r)
                        (t_issues s))
  | TDispose => Some (TDone, mkTState (t_threads s) (t_count s - 1) (t_statuses s) (t_failed s) (t_issues s))
  end.

Definition set_threads (l : list thread) (s : tstate) : tstate :=
  mkTState l (t_count s) (t_statuses s) (t_failed s) (t_issues s).

(** The main loop starts the nodes in order, when a slot is free; every started
    goroutine may go on. *)
Inductive tstep : tstate → tstate → Prop :=
| tstep_start i r s :
    t_threads s !! i = Some (r, TPending) →
    Forall (λ t, t.2 ≠ TPending) (take i (t_threads s)) →
    can_start s = true →
    tstep s (mkTState (<[i := (r, TAnalyse)]> (t_threads s)) (t_count s + 1) (t_statuses s) (t_failed s) (t_issues s))
| tstep_thread i r p s p' s' :
    t_threads s !! i = Some (r, p) →
    thread_step r p s = Some (p', s') →
    tstep s (set_threads (<[i := (r, p')]> (t_threads s)) s').

(** [wg.Wait] returns. *)
Definition finished (s : tstate) : Prop := Forall (λ t, t.2 = TDone) (t_threads s).

(** ** Sums over goroutines *)

Section sums.
Context {A B : Type}.
Implicit Types l : list A.

Lemma delete_insert l i y : delete i (<[i:=y]> l) = delete i l.
Proof. revert i. induction l as [|a l IH]; intros [|i]; simpl; [done..|]. by rewrite IH. Qed.

Lemma insert_split l i x y :
  l !! i = Some x → l ≡ₚ x :: delete i l ∧ <[i:=y]> l ≡ₚ y :: delete i l.
Proof.
  intros Hi. split; [by apply delete_Permutation|].
  rewrite (delete_Permutation (<[i:=y]> l) i y) by (by apply list_lookup_insert_eq, (lookup_lt_Some _ _ _ Hi)).
  by rewrite delete_insert.
Qed.

(** What one element contributes is exchanged. *)
Lemma bind_insert (f : A → list B) l i x y :
  l !! i = Some x →
  l ≫= f ≡ₚ f x ++ (delete i l ≫= f) ∧ <[i:=y]> l ≫= f ≡ₚ f y ++ (delete i l ≫= f).
Proof.
  intros Hi. destruct (insert_split l i x y Hi) as [H1 H2].
  split; [change (f x ++ _) with ((x :: delete i l) ≫= f)|change (f y ++ _) with ((y :: delete i l) ≫= f)]; by f_equiv.
Qed.

Lemma sum_insert (f : A → nat) l i x y :
  l !! i = Some x →
  (sum_list_with f (<[i:=y]> l) + f x = sum_list_with f l + f y)%nat.
Proof.
  revert i. induction l as [|a l IH]; intros [|i] Hi; simplify_eq/=; [lia|].
  specialize (IH i Hi). lia.
Qed.
End sums.

(** ** The invariant *)

Definition has_extra (r : node_result) : bool := r.2.2.

Definition active (t : thread) : nat :=
  match t.2 with TPending | TDone => 0 | _ => 1 end.

(** Issues that the goroutine has stored, and those it has added under the lock. *)
Definition stored (t : thread) : list string :=
  match t.2 with TUpdate | TDispose | TDone => extra_issues t.1 | _ => [] end.
Definition is_updated (p : pc) : Prop := p = TDispose ∨ p = TDone.
Definition updated (t : thread) : list string :=
  match t.2 with TDispose | TDone => status_issues t.1 | _ => [] end.

Definition stored_by (s : tstate) : list string := t_threads s ≫= stored.

(** Only goroutines with an issue get to load and store. *)
Definition pc_ok (t : thread) : Prop :=
  match t.2 with TLoad | TStore _ => has_extra t.1 = true | _ => True end.

Record tinv (results : list node_result) (s : tstate) : Prop := {
  inv_nodes : (t_threads s).*1 = results;
  inv_count : t_count s = sum_list_with active (t_threads s);
  inv_bound : (t_count s ≤ maxParallelThreads)%nat;
  inv_pc : Forall pc_ok (t_threads s);
  inv_failed : t_failed s ≡ₚ t_threads s ≫= updated;
  inv_issues : t_issues s ⊆+ stored_by s;
  inv_old : ∀ r old, (r, TStore old) ∈ t_threads s → old ⊆+ stored_by s;
  inv_some : stored_by s ≠ [] → t_issues s ≠ [];
  inv_status : NoDup results.*1 → ∀ n st,
    t_statuses s !! n = Some st ↔ ∃ r p, (r, p) ∈ t_threads s ∧ is_updated p ∧ r.1 = n ∧ r.2.1 = st;
}.

Lemma tinv_init results : tinv results (t_init results).
Proof.
  assert (Hp : ∀ t, t ∈ t_threads (t_init results) → t.2 = TPending).
  { intros t (r & -> & _)%list_elem_of_fmap. done. }
  assert (Hnil : ∀ f : thread → list string, (∀ r, f (r, TPending) = []) → t_threads (t_init results) ≫= f = []).
  { intros f Hf. clear Hp. simpl. induction results as [|r rs IH]; [done|]. cbn. by rewrite Hf. }
  split.
  - simpl. rewrite <-list_fmap_compose. apply list_fmap_id.
  - clear Hp Hnil. simpl. induction results as [|r rs IH]; [done|exact IH].
  - simpl. unfold maxParallelThreads. lia.
  - apply Forall_forall. intros t Ht. unfold pc_ok. by rewrite (Hp t Ht).
  - by rewrite Hnil.
  - apply submseteq_nil_l.
  - intros r old Hin. by apply Hp in Hin.
  - unfold stored_by. by rewrite Hnil.
  - intros _ n st. simpl. rewrite lookup_empty. split; [done|].
    intros (r & p & Hin & Hu & _). apply Hp in Hin. simpl in Hin. subst p. by destruct Hu.
Qed.

(** Moving one goroutine: what it contributes to a sum. *)
Section move.
Variables (s : tstate) (i : nat) (r : node_result) (p p' : pc).
Hypothesis Hi : t_threads s !! i = Some (r, p).

Lemma move_nodes : (<[i := (r, p')]> (t_threads s)).*1 = (t_threads s).*1.
Proof. rewrite list_fmap_insert. apply list_insert_id. by rewrite list_lookup_fmap, Hi. Qed.

Lemma move_elem t : t ∈ <[i := (r, p')]> (t_threads s) → t = (r, p') ∨ t ∈ t_threads s.
Proof.
  intros [j Hj]%list_elem_of_lookup. apply list_lookup_insert_Some in Hj as [(_ & <- & _)|[_ Hj]]; [by left|].
  right. by eapply list_elem_of_lookup_2.
Qed.

Lemma move_bind (f : thread → list string) k :
  f (r, p') ≡ₚ f (r, p) ++ k → <[i := (r, p')]> (t_threads s) ≫= f ≡ₚ (t_threads s ≫= f) ++ k.
Proof.
  intros Hf. destruct (bind_insert f _ _ _ (r, p') Hi) as [H1 H2]. rewrite H1, H2, Hf.
  rewrite <-!(assoc_L (++)). f_equiv. apply Permutation_app_comm.
Qed.
End move.

(** The statuses written by goroutines that have taken the lock. *)
Definition status_by (ts : list thread) (n : string) (st : DaemonStatus) : Prop :=
  ∃ r p, (r, p) ∈ ts ∧ is_updated p ∧ r.1 = n ∧ r.2.1 = st.

Lemma status_by_lookup ts n st :
  status_by ts n st ↔ ∃ j r p, ts !! j = Some (r, p) ∧ is_updated p ∧ r.1 = n ∧ r.2.1 = st.
Proof.
  unfold status_by. setoid_rewrite list_elem_of_lookup. naive_solver.
Qed.

(** Going on without taking the lock. *)
Lemma status_by_same ts i r p p' n st :
  ts !! i = Some (r, p) → (is_updated p' ↔ is_updated p) →
  status_by (<[i := (r, p')]> ts) n st ↔ status_by ts n st.
Proof.
  intros Hi Hp. pose proof (lookup_lt_Some _ _ _ Hi) as Hlt. rewrite !status_by_lookup.
  setoid_rewrite list_lookup_insert_Some. split.
  - intros (j & r0 & p0 & [(-> & [= <- <-] & _)|[_ Hj]] & Hu & H1 & H2); [exists j, r, p|exists j, r0, p0]; naive_solver.
  - intros (j & r0 & p0 & Hj & Hu & H1 & H2). destruct (decide (i = j)) as [->|Hne].
    + rewrite Hi in Hj. injection Hj as <- <-. exists j, r, p'. naive_solver.
    + exists j, r0, p0. naive_solver.
Qed.

(** Taking the lock. *)
Lemma status_by_update ts i r p p' n st :
  NoDup ts.*1.*1 → ts !! i = Some (r, p) → is_updated p' → ¬ is_updated p →
  status_by (<[i := (r, p')]> ts) n st ↔ (n = r.1 ∧ st = r.2.1) ∨ (n ≠ r.1 ∧ status_by ts n st).
Proof.
  intros Hnd Hi Hp' Hp. pose proof (lookup_lt_Some _ _ _ Hi) as Hlt. rewrite !status_by_lookup.
  assert (Hname : ∀ j r0 p0, ts !! j = Some (r0, p0) → r0.1 = r.1 → j = i).
  { intros j r0 p0 Hj Heq. eapply (NoDup_lookup ts.*1.*1 j i r.1); [done|..];
      rewrite !list_lookup_fmap, ?Hj, ?Hi; simpl; congruence. }
  setoid_rewrite list_lookup_insert_Some. split.
  - intros (j & r0 & p0 & [(-> & [= <- <-] & _)|[Hne Hj]] & Hu & <- & <-); [by left|].
    right. split; [|by exists j, r0, p0]. intros Heq. by rewrite (Hname j r0 p0) in Hne.
  - intros [[-> ->]|[Hne (j & r0 & p0 & Hj & Hu & <- & <-)]].
    + exists i, r, p'. naive_solver.
    + exists j, r0, p0. split; [right; split; [|done]|done]. intros <-. by simplify_eq.
Qed.

Lemma tinv_move results s i r p p' count statuses failed issues ks ku :
  tinv results s → t_threads s !! i = Some (r, p) →
  (count + active (r, p) = t_count s + active (r, p'))%nat → (count ≤ maxParallelThreads)%nat →
  pc_ok (r, p') →
  updated (r, p') = updated (r, p) ++ ku → failed = t_failed s ++ ku →
  stored (r, p') = stored (r, p) ++ ks → issues ⊆+ stored_by s ++ ks →
  (∀ old, p' = TStore old → old ⊆+ stored_by s) → (stored_by s ++ ks ≠ [] → issues ≠ []) →
  (is_updated p' ↔ is_updated p) ∧ statuses = t_statuses s ∨
    is_updated p' ∧ ¬ is_updated p ∧ statuses = <[r.1 := r.2.1]> (t_statuses s) →
  tinv results (mkTState (<[i := (r, p')]> (t_threads s)) count statuses failed issues).
Proof.
  intros Hinv Hi Hc Hb Hpc Hu -> Hs Hiss Hold Hsome Hst.
  assert (Hstored : <[i := (r, p')]> (t_threads s) ≫= stored ≡ₚ stored_by s ++ ks)
    by (apply (move_bind s i r p p' Hi); by rewrite Hs).
  split; simpl; unfold stored_by; simpl.
  - rewrite (move_nodes s i r p p' Hi). apply Hinv.
  - pose proof (sum_insert active _ _ _ (r, p') Hi). pose proof (inv_count _ _ Hinv). lia.
  - done.
  - apply Forall_insert; [apply Hinv|done].
  - rewrite (move_bind s i r p p' Hi updated ku) by (by rewrite Hu). by rewrite (inv_failed _ _ Hinv).
  - by rewrite Hstored.
  - intros r0 old Hin. rewrite Hstored. apply (submseteq_trans _ (stored_by s)); [|by apply submseteq_inserts_r].
    apply move_elem in Hin as [[= -> <-]|Hin]; [by apply Hold|by eapply inv_old].
  - intros Hne. apply Hsome. intros Hnil. apply Hne, Permutation_nil_r. by rewrite Hstored, Hnil.
  - intros Hnd n st. fold (status_by (<[i := (r, p')]> (t_threads s)) n st).
    pose proof (inv_status _ _ Hinv Hnd n st) as IH. fold (status_by (t_threads s) n st) in IH.
    destruct Hst as [[Hup ->]|(Hup & Hnup & ->)]; [by rewrite status_by_same|].
    rewrite (status_by_update _ _ _ p) by (rewrite ?(inv_nodes _ _ Hinv); done).
    rewrite lookup_insert_Some, IH. naive_solver.
Qed.

Lemma tinv_step results s s' : tinv results s → tstep s s' → tinv results s'.
Proof.
  intros Hinv Hstep. pose proof (inv_bound _ _ Hinv) as Hb. pose proof (inv_issues _ _ Hinv) as Hiss.
  pose proof (inv_some _ _ Hinv) as Hsome.
  destruct Hstep as [i r s Hi _ Hc|i r p s p' s' Hi Ht].
  { apply (tinv_move _ _ _ _ TPending _ _ _ _ _ [] []); rewrite ?app_nil_r; try done.
    - apply negb_true_iff, Nat.eqb_neq in Hc. lia.
    - left. split; [|done]. by split; intros [].  }
  destruct p; simplify_eq/=; unfold set_threads; simpl.
  - destruct r as [n [st []]]; simpl;
      (apply (tinv_move _ _ _ _ TAnalyse _ _ _ _ _ [] []); rewrite ?app_nil_r; try done;
       left; split; [|done]; by split; intros []).
  - apply (tinv_move _ _ _ _ TLoad _ _ _ _ _ [] []); rewrite ?app_nil_r; try done.
    + apply (Forall_lookup_1 _ _ _ _ (inv_pc _ _ Hinv) Hi).
    + by intros old [= <-].
    + left. split; [|done]. by split; intros [].
  - pose proof (inv_old _ _ Hinv _ _ (list_elem_of_lookup_2 _ _ _ Hi)) as Hold.
    apply (tinv_move _ _ _ _ (TStore old) _ _ _ _ _ (extra_issues r) []); rewrite ?app_nil_r; try done.
    + by apply submseteq_app.
    + pose proof (Forall_lookup_1 _ _ _ _ (inv_pc _ _ Hinv) Hi) as Hpc.
      destruct r as [n [st []]]; [|done]. intros _ ?%app_eq_nil. naive_solver.
    + left. split; [|done]. by split; intros [].
  - apply (tinv_move _ _ _ _ TUpdate _ _ _ _ _ [] (status_issues r)); rewrite ?app_nil_r; try done.
    right. split_and!; [by left| |done]. by intros [].
  - apply (tinv_move _ _ _ _ TDispose _ _ _ _ _ [] []); rewrite ?app_nil_r; try done.
    + assert (1 ≤ t_count s)%nat.
      { rewrite (inv_count _ _ Hinv). apply (sum_list_with_in (r, TDispose) active), (list_elem_of_lookup_2 _ _ _ Hi). }
      cbn. lia.
    + lia.
    + left. split; [|done]. split; intros _; [by left|by right].
Qed.

(** ** Runs *)

Definition treach (results : list node_result) : tstate → Prop := rtc tstep (t_init results).

Lemma treach_inv results s : treach results s → tinv results s.
Proof.
  unfold treach. revert s. apply rtc_ind_r; [apply tinv_init|]. intros s1 s2 _ Hs IH. by eapply tinv_step.
Qed.

(** Steps that remain. *)
Definition remaining (t : thread) : nat :=
  match t.2 with
  | TPending => 6 | TAnalyse => 5 | TLoad => 4 | TStore _ => 3 | TUpdate => 2 | TDispose => 1 | TDone => 0
  end.

Lemma tstep_decreases s s' :
  tstep s s' → (sum_list_with remaining (t_threads s') < sum_list_with remaining (t_threads s))%nat.
Proof.
  intros [i r s0 Hi _ _|i r p s0 p' s1 Hi Ht]; simpl.
  - pose proof (sum_insert remaining _ _ _ (r, TAnalyse) Hi) as Hs. cbn in Hs. lia.
  - pose proof (sum_insert remaining _ _ _ (r, p') Hi) as Hs.
    destruct p; simplify_eq/=; cbn in Hs; try lia. destruct (r.2.2); cbn in Hs; lia.
Qed.

Lemma sum_zero (f : thread → nat) l : sum_list_with f l = 0 → Forall (λ t, f t = 0) l.
Proof. induction l as [|a l IH]; simpl; intros Hl; constructor; [lia|]. apply IH. lia. Qed.

(** Nothing blocks: an unfinished analysis can go on. *)
Lemma tstep_progress results s : tinv results s → ¬ finished s → ∃ s', tstep s s'.
Proof.
  intros Hinv Hnf. destruct (decide (sum_list_with active (t_threads s) = 0)) as [H0|H0].
  - apply sum_zero in H0. destruct (list_find (λ t, t.2 = TPending) (t_threads s)) as [[i [r p]]|] eqn:Hf.
    + apply list_find_Some in Hf as (Hi & Hp & Hbefore). simpl in Hp. subst p. eexists. apply (tstep_start i r); [done|..].
      * apply Forall_lookup. intros j t [Hj Hlt]%lookup_take_Some. by apply (Hbefore j t).
      * unfold can_start. pose proof (inv_count _ _ Hinv) as Hc. rewrite sum_list_with_foldr in Hc.
        assert (Hz : t_count s = 0); [|by rewrite Hz].
        rewrite Hc, <-sum_list_with_foldr. clear -H0. induction H0; simpl; lia.
    + exfalso. apply Hnf. apply list_find_None in Hf. unfold finished. rewrite Forall_forall in *.
      intros t Ht. specialize (H0 t Ht). specialize (Hf t Ht). destruct t as [r []]; done.
  - assert (∃ i t, t_threads s !! i = Some t ∧ active t ≠ 0) as (i & [r p] & Hi & Ha).
    { clear -H0. induction (t_threads s) as [|a l IH]; [done|]. simpl in H0.
      destruct (decide (active a = 0)) as [Ha|Ha]; [|by exists 0, a].
      destruct IH as (i & t & Hi & Ht); [lia|]. by exists (S i), t. }
    destruct p; try done; eexists; by eapply tstep_thread.
Qed.

(** C39: the analysis of the nodes ends.  However its goroutines are scheduled, at most
    six steps per node are taken, an analysis that is not finished can go on, and never
    are more than five goroutines between start and end. *)
Theorem analysis_terminates results n s :
  nsteps tstep n (t_init results) s →
  (n ≤ 6 * length results)%nat ∧ (finished s ∨ ∃ s', tstep s s') ∧
  (sum_list_with active (t_threads s) ≤ maxParallelThreads)%nat.
Proof.
  intros Hn. assert (Hinv : tinv results s) by (apply treach_inv; apply rtc_nsteps; by exists n).
  split_and!.
  - assert (Hdec : ∀ n s1, nsteps tstep n s1 s → (n ≤ sum_list_with remaining (t_threads s1))%nat).
    { clear. intros n s1 Hn. induction Hn as [|n s1 s2 s3 Hs Hn IH]; [lia|]. apply tstep_decreases in Hs. lia. }
    apply Hdec in Hn. assert (sum_list_with remaining (t_threads (t_init results)) = 6 * length results)%nat; [|lia].
    clear. simpl. induction results as [|r rs IH]; [done|]. cbn in *. lia.
  - destruct (decide (Forall (λ t, remaining t = 0) (t_threads s))) as [Hf|Hf].
    + left. eapply Forall_impl; [exact Hf|]. by intros [r []].
    + right. eapply tstep_progress; [done|]. intros Hfin. apply Hf. eapply Forall_impl; [exact Hfin|].
      intros [r p]. simpl. by intros ->.
  - rewrite <-(inv_count _ _ Hinv). apply Hinv.
Qed.

(** ** The outcome *)

Lemma statuses_of_lookup rs n st :
  NoDup rs.*1 → statuses_of rs !! n = Some st ↔ ∃ r, r ∈ rs ∧ r.1 = n ∧ r.2.1 = st.
Proof.
  unfold statuses_of. induction rs as [|r rs IH] using rev_ind; intros Hnd.
  - simpl. split; [by rewrite lookup_empty|]. by intros (r & ?%elem_of_nil & _).
  - rewrite foldl_app. simpl. rewrite fmap_app in Hnd. apply NoDup_app in Hnd as (Hnd & Hdisj & _).
    rewrite lookup_insert_Some, (IH Hnd). setoid_rewrite elem_of_app. setoid_rewrite list_elem_of_singleton. split.
    + intros [[<- <-]|[Hne (r0 & Hin & <- & <-)]]; [by exists r; auto|by exists r0; auto].
    + intros (r0 & [Hin| ->] & <- & <-); [right|by left]. split; [|by exists r0]. intros Heq.
      apply (Hdisj r0.1); [by apply list_elem_of_fmap_2|]. rewrite <-Heq. by apply list_elem_of_singleton.
Qed.

Lemma finished_threads results s : tinv results s → finished s → t_threads s = (λ r, (r, TDone)) <$> results.
Proof.
  intros Hinv Hf. rewrite <-(inv_nodes _ _ Hinv). unfold finished in Hf. clear Hinv.
  induction Hf as [|[r p] l Hp Hf IH]; [done|]. simpl in Hp. subst p. cbn. f_equal. exact IH.
Qed.

Lemma bind_done (f : thread → list string) (g : node_result → list string) rs :
  (∀ r, f (r, TDone) = g r) → ((λ r, (r, TDone)) <$> rs) ≫= f = rs ≫= g.
Proof. intros Hfg. induction rs as [|r rs IH]; [done|]. cbn. rewrite Hfg. by f_equal. Qed.

Lemma finished_outcome results s :
  tinv results s → finished s →
  (NoDup results.*1 → t_statuses s = statuses_of results) ∧ t_failed s ≡ₚ results ≫= status_issues ∧
  t_issues s ⊆+ results ≫= extra_issues ∧ (t_issues s = [] ↔ results ≫= extra_issues = []).
Proof.
  intros Hinv Hf. pose proof (finished_threads _ _ Hinv Hf) as Ht.
  assert (Hst : stored_by s = results ≫= extra_issues) by (unfold stored_by; rewrite Ht; by apply bind_done).
  split_and!.
  - intros Hnd. apply map_eq. intros n. apply option_eq. intros st.
    rewrite (inv_status _ _ Hinv Hnd), statuses_of_lookup, Ht by done. split.
    + intros (r & p & (r0 & [= -> ->] & Hin)%list_elem_of_fmap & _ & H1 & H2). by exists r0.
    + intros (r & Hin & H1 & H2). exists r, TDone. split_and!; [|by right|done..].
      apply list_elem_of_fmap. by exists r.
  - rewrite (inv_failed _ _ Hinv), Ht. by rewrite (bind_done updated status_issues).
  - rewrite <-Hst. apply Hinv.
  - rewrite <-Hst. split.
    + intros He. destruct (decide (stored_by s = [])) as [|Hne]; [done|]. by destruct (inv_some _ _ Hinv Hne).
    + intros He. pose proof (inv_issues _ _ Hinv) as Hi. rewrite He in Hi. by apply submseteq_nil_r in Hi.
Qed.

(** C33: what is reported does not depend on the order in which the goroutines of the
    nodes run, up to messages lost by the unlocked append: statuses of the nodes are
    those of the analysis one by one, no message is made up, and the list of issues is
    empty only if it is empty there, so a schedule never turns a failed analysis into a
    clean one. *)
Theorem analysis_schedule_independent `{MapRange} cluster clusterInfo results s :
  NoDup results.*1 → treach results s → finished s →
  let seq := prepare_result cluster clusterInfo (results ≫= extra_issues) (results ≫= status_issues) (statuses_of results) in
  let par := prepare_result cluster clusterInfo (t_issues s) (t_failed s) (t_statuses s) in
  par.1 = seq.1 ∧ par.2 ⊆+ seq.2 ∧ (par.2 = [] ↔ seq.2 = []).
Proof.
  intros Hnd Hr Hf. destruct (finished_outcome results s) as (Hs & Hfl & Hi & He); [by apply treach_inv|done|].
  simpl. split_and!; [by apply Hs|rewrite !SortStrings_perm, Hfl; by apply submseteq_app|].
  assert (Hnil : ∀ a b c : list string, SortStrings (a ++ b ++ c) = [] ↔ a = [] ∧ b = [] ∧ c = []).
  { intros a b c. rewrite SortStrings_nil. split; [by destruct a, b|by intros (-> & -> & ->)]. }
  rewrite !Hnil, He. assert (t_failed s = [] ↔ results ≫= status_issues = []) as ->; [|done].
  split; intros Hx; rewrite Hx in Hfl; [by apply Permutation_nil_l in Hfl|by apply Permutation_nil_r in Hfl].
Qed.

(** ** Schedules as lists of thread numbers *)

Definition do_step (s : tstate) (i : nat) : option tstate :=
  t ← t_threads s !! i;
  let '(r, p) := t in
  match p with
  | TPending =>
      if forallb (λ t, negb (bool_decide (t.2 = TPending))) (take i (t_threads s)) && can_start s
      then Some (mkTState (<[i := (r, TAnalyse)]> (t_threads s)) (t_count s + 1) (t_statuses s) (t_failed s) (t_issues s))
      else None
  | _ => st ← thread_step r p s; Some (set_threads (<[i := (r, st.1)]> (t_threads s)) st.2)
  end.

Fixpoint run_schedule (s : tstate) (sched : list nat) : option tstate :=
  match sched with
  | [] => Some s
  | i :: sched' => s' ← do_step s i; run_schedule s' sched'
  end.

Lemma do_step_sound s i s' : do_step s i = Some s' → tstep s s'.
Proof.
  unfold do_step. intros Hs. destruct (t_threads s !! i) as [[r p]|] eqn:Hi; simplify_eq/=.
  destruct p; try (simplify_eq/=; by eapply tstep_thread).
  destruct (forallb _ _ && can_start s) eqn:Hc; simplify_eq/=. apply andb_true_iff in Hc as [Hf Hc].
  apply (tstep_start i r); [done| |done]. apply Forall_forall. intros t Ht.
  rewrite forallb_forall in Hf. specialize (Hf t (proj1 (list_elem_of_In _ _) Ht)).
  by apply negb_true_iff, bool_decide_eq_false in Hf.
Qed.

Lemma run_schedule_sound sched s (P : tstate → Prop) :
  match run_schedule s sched with Some s' => P s' | None => False end →
  ∃ s', nsteps tstep (length sched) s s' ∧ P s'.
Proof.
  revert s. induction sched as [|i sched IH]; intros s Hs; simpl in *; [by exists s; split; [constructor|]|].
  destruct (do_step s i) as [s1|] eqn:Hd; simpl in *; [|done]. destruct (IH s1 Hs) as (s' & Hn & HP).
  exists s'. split; [|done]. by eapply nsteps_l; [eapply do_step_sound|].
Qed.

(** ** The lost message *)

Definition demo_results : list node_result :=
  [("node-1", (mkDaemonStatus DaemonStateOk [] [], true)); ("node-2", (mkDaemonStatus DaemonStateOk [] [], true))].

Definition demo_cluster_object : CephCluster :=
  mkCephCluster "cephcluster" "rook-ceph" 1 "1" false [] "" 3 2 ∅ (mkClusterStatus "Ready" None None "").

(** Both goroutines load the issues before either stores them. *)
Definition racy_schedule : list nat := [0; 1; 0; 1; 0; 1; 0; 1; 0; 1; 0; 1].

Lemma racy_run :
  match run_schedule (t_init demo_results) racy_schedule with
  | Some s => finished s ∧ t_issues s = [extra_issue "node-2"]
  | None => False
  end.
Proof. vm_compute. split; [by repeat constructor|done]. Qed.

(** The unlocked append can lose a message: two nodes run OSDs that the spec does not
    describe, both goroutines end, and only one of the nodes is reported. *)
Theorem extra_issue_lost : ∃ s,
  treach demo_results s ∧ finished s ∧ demo_results ≫= extra_issues = [extra_issue "node-1"; extra_issue "node-2"] ∧
  t_issues s = [extra_issue "node-2"].
Proof.
  destruct (run_schedule_sound racy_schedule (t_init demo_results)
    (λ s, finished s ∧ t_issues s = [extra_issue "node-2"]) racy_run) as (s & Hn & Hf & Hi).
  exists s. split; [apply rtc_nsteps; exists (length racy_schedule); exact Hn|].
  split; [exact Hf|]. split; [vm_compute; reflexivity|exact Hi].
Qed.

Lemma analysis_terminates_witness :
  ∃ s, nsteps tstep 2 (t_init demo_results) s ∧ (2 ≤ 12)%nat ∧ (finished s ∨ ∃ s', tstep s s') ∧
       (sum_list_with active (t_threads s) ≤ maxParallelThreads)%nat.
Proof.
  assert (Hrun : match run_schedule (t_init demo_results) [0; 1] with Some _ => True | None => False end) by done.
  destruct (run_schedule_sound [0; 1] (t_init demo_results) (λ _, True) Hrun) as (s & Hn & _).
  exists s. split; [exact Hn|]. apply (analysis_terminates demo_results 2 s Hn).
Defined.

Lemma analysis_schedule_independent_witness :
  ∃ s, treach demo_results s ∧ finished s ∧
    (@prepare_result default_range demo_cluster_object ∅ (t_issues s) (t_failed s) (t_statuses s)).1 =
    statuses_of demo_results.
Proof.
  destruct (run_schedule_sound racy_schedule (t_init demo_results)
    (λ s, finished s ∧ t_issues s = [extra_issue "node-2"]) racy_run) as (s & Hn & Hf & Hi).
  assert (Hr : treach demo_results s) by (apply rtc_nsteps; exists (length racy_schedule); exact Hn).
  exists s. split_and!; [exact Hr|exact Hf|].
  apply (@analysis_schedule_independent default_range demo_cluster_object ∅ demo_results s); [|exact Hr|exact Hf].
  by apply (bool_decide_unpack _).
Defined.
