(* ===== verification/SpecAnalysisFacts.v ===== *)
(** * What a clean spec analysis means

    Theorems about [runSpecAnalysis]: when it passes the devices of a node, what the
    spec then describes, what "not described in spec" means, when it comes to a result,
    and what the task controller makes of it. *)

From S2P Require Import Prelude GoTime Types HealthTypes World HealthWorld DaemonsStatus Helpers DiskDaemon DiskFacts Config SpecAnalysis NodeAnalysis.
Open Scope Z_scope.

Section facts.
Context `{World} `{HealthWorld} `{MapRange}.
Variable depth : nat.

(** ** The devices of the spec *)

Section devices.
Variables (nodeMeta : string) (perDevice : Z) (r : DiskDaemonDisksReport).

Definition spec_alias (d : devForAnalysis) : string := alias r (PathDevPrepended (da_SpecifiedAs d)).

(** A device of the spec that is ready for analysis. *)
Definition device_found (metas : gmap string string) (d : devForAnalysis) : Prop :=
  block_type r (da_Dev d) = "disk" ∧
  (da_MetadataDevice d ≠ EmptyString →
   is_Some (dr_Aliases r !! PathDevPrepended (da_MetadataDevice d)) ∧ is_Some (metas !! da_MetadataDevice d)).

Definition spec_ok (done : list CephDevice) (st : spec_state) : Prop :=
  ss_issues st = [] →
  da_SpecifiedAs <$> ss_devs st = specified_as <$> done ∧
  NoDup (spec_alias <$> ss_devs st) ∧
  Forall (λ d, is_Some (ss_used st !! spec_alias d) ∧ device_found (ss_meta st) d) (ss_devs st).

(** Registering a metadata device. *)
Lemma check_metadata_ok meta specifiedAs st st' :
  check_metadata nodeMeta meta specifiedAs r st = inr st' →
  ss_used st' = ss_used st ∧ ss_devs st' = ss_devs st ∧ (ss_issues st' = [] → ss_issues st = []) ∧
  (∀ k, is_Some (ss_meta st !! k) → is_Some (ss_meta st' !! k)) ∧
  (meta ≠ EmptyString → is_Some (dr_Aliases r !! PathDevPrepended meta) ∧ is_Some (ss_meta st' !! meta)).
Proof.
  unfold check_metadata. destruct (decide (meta = EmptyString)) as [->|Hne]; [by intros [= <-]|].
  destruct (dr_Aliases r !! PathDevPrepended meta) as [metaDev|]; [|done]. intros [= <-]. simpl.
  split_and!; [by destruct (_ && _)|by destruct (_ && _)| | |].
  - destruct (_ && _); simpl; [|done]. by intros [_ [=]]%app_eq_nil.
  - intros k Hk. destruct (_ && _); simpl; rewrite lookup_insert_is_Some'; auto.
  - intros _. split; [done|]. rewrite lookup_insert_eq. by eexists.
Qed.

Lemma spec_device_ok done st cephDev st' :
  spec_ok done st → spec_device depth nodeMeta perDevice r st cephDev = Some st' → spec_ok (done ++ [cephDev]) st'.
Proof.
  intros Hok (found & Hfound & [= <-])%bind_Some. unfold spec_ok.
  destruct found as [disk|e]; [|by intros [_ [=]]%app_eq_nil].
  destruct (ss_used st !! _) as [dup|] eqn:Hdup; [by intros [_ [=]]%app_eq_nil|].
  destruct (check_metadata _ _ _ _ _) as [msg|st1] eqn:Hmeta; [by intros [_ [=]]%app_eq_nil|].
  apply check_metadata_ok in Hmeta as (Hu & Hd & Hi & Hm & Hnew). simpl. intros Hnil.
  destruct (Hok (Hi Hnil)) as (Hspec & Hnd & Hall). rewrite Hd, Hu. split_and!.
  - by rewrite !fmap_app, Hspec.
  - rewrite fmap_app. apply NoDup_app. split_and!; [done| |by apply NoDup_singleton].
    intros x (d & Hx & Hin)%list_elem_of_fmap Hx'%list_elem_of_singleton.
    rewrite Forall_forall in Hall. destruct (Hall d Hin) as [[v Hv] _]. rewrite <-Hx, Hx' in Hv.
    unfold spec_alias in Hv. simpl in Hv. by rewrite Hdup in Hv.
  - apply Forall_app. split.
    + eapply Forall_impl; [exact Hall|]. intros d [Hused [Hdisk Hmd]]. split.
      * apply lookup_insert_is_Some'. by right.
      * split; [done|]. intros Hne. destruct (Hmd Hne). auto.
    + apply Forall_singleton. split; [apply lookup_insert_is_Some'; by left|]. split; [|done].
      simpl. by apply FindDiskName_disk in Hfound.
Qed.
End devices.

(** A spec whose devices pass is consistent: every device of the node is analysed
    once, under the disk it is on; no two of them are the same block device; metadata
    devices exist on the node and, where they are written as paths, none of them is a
    block device of the spec as well. *)
Theorem spec_devices_valid node r devs :
  cn_Devices node ≠ [] → devices_to_analyse depth node (Some r) = Some ([], devs) →
  da_SpecifiedAs <$> devs = specified_as <$> cn_Devices node ∧
  NoDup (spec_alias r <$> devs) ∧
  ∀ d, d ∈ devs → block_type r (da_Dev d) = "disk" ∧
    (da_MetadataDevice d ≠ EmptyString →
     is_Some (dr_Aliases r !! PathDevPrepended (da_MetadataDevice d)) ∧
     ∀ d', d' ∈ devs → spec_alias r d' ≠ alias r (da_MetadataDevice d)).
Proof.
  intros Hne Hdev. unfold devices_to_analyse in Hdev.
  destruct (cn_Devices node) as [|c cs] eqn:Hcs; [done|]. simpl in Hdev. rewrite <-Hcs in *. clear Hne.
  unfold devices_of_spec in Hdev. apply bind_Some in Hdev as (st & Hst & [= Hnil <-]).
  apply app_eq_nil in Hnil as [Hnil Hblock].
  apply (foldl_bind_inv _ (spec_ok r)) in Hst as Hok; [|by intros _; split_and!; [|constructor|constructor]|].
  2: { intros done a st1 st2 _. by apply spec_device_ok. }
  destruct (Hok Hnil) as (Hspec & Hnd & Hall). rewrite Forall_forall in Hall. split_and!; [done..|].
  intros d Hd. destruct (Hall d Hd) as [_ [Hdisk Hmeta]]. split; [done|]. intros Hm.
  destruct (Hmeta Hm) as [Ha [usedFor Hu]]. split; [done|]. intros d' Hd' Heq.
  destruct (Hall d' Hd') as [[v Hv] _]. rewrite Heq in Hv.
  assert (Hin : (da_MetadataDevice d, usedFor) ∈ range 41 (ss_meta st)) by (by apply elem_of_range).
  unfold meta_used_as_block in Hblock.
  apply (f_equal length) in Hblock. apply list_elem_of_split in Hin as (l1 & l2 & Hl). rewrite Hl, omap_app in Hblock.
  simpl in Hblock. rewrite Hv, length_app in Hblock. simpl in Hblock. lia.
Qed.

(** ** OSDs reflected by the spec *)

Section reflected.
Variables (r : DiskDaemonDisksReport) (d : devForAnalysis) (osd : string).

(** At most [osd] becomes reflected, and only through the device [d]. *)
Definition reflects (on : Prop) (st st' : dev_state) : Prop :=
  ∀ x, x ∈ dv_reflected st' → x ∈ dv_reflected st ∨ x = osd ∧ on.

Lemma reflects_same on st st' : dv_reflected st' = dv_reflected st → reflects on st st'.
Proof. intros Heq x. rewrite Heq. auto. Qed.

Lemma reflects_refl on st : reflects on st st.
Proof. by apply reflects_same. Qed.

Lemma reflects_trans on st1 st2 st3 : reflects on st1 st2 → reflects on st2 st3 → reflects on st1 st3.
Proof. intros H12 H23 x Hx. destruct (H23 x Hx) as [?|?]; auto. Qed.

Lemma reflects_weaken (on on' : Prop) st st' : (on → on') → reflects on st st' → reflects on' st st'.
Proof. intros Hon Hr x Hx. destruct (Hr x Hx) as [?|[??]]; auto. Qed.

Lemma reflects_foldl {A} on (f : dev_state → A → dev_state) l st :
  (∀ a st, a ∈ l → reflects on st (f st a)) → reflects on st (foldl f st l).
Proof.
  revert st. induction l as [|a l IH]; intros st Hf; simpl; [apply reflects_refl|].
  eapply reflects_trans; [apply Hf; by left|]. apply IH. intros b st' Hb. apply Hf. by right.
Qed.

Lemma reflects_here on st : on → reflects on st (dv_reflect osd (dv_count st)).
Proof. intros Hon x [->%elem_of_singleton|Hx]%elem_of_union; auto. Qed.

Lemma check_partition_reflects osdDev part st :
  reflects (od_Name osdDev = da_Dev d) st (check_partition r d osd osdDev part st).
Proof.
  unfold check_partition. destruct (bool_decide (od_Name osdDev = da_Dev d)) eqn:Hn.
  - apply bool_decide_eq_true in Hn. case_decide; [by apply reflects_here|]. by case_decide; apply reflects_same.
  - by repeat case_match; apply reflects_same.
Qed.

Lemma check_partitions_reflects osdDev parts st :
  reflects (od_Name osdDev = da_Dev d) st (check_partitions r d osd osdDev parts st).
Proof.
  revert st. induction parts as [|part parts IH]; intros st; simpl; [apply reflects_refl|].
  destruct (_ || _); [apply IH|].
  eapply reflects_trans; [apply (check_partition_reflects osdDev part)|].
  destruct (da_FullDiskUsage d); [apply IH|apply reflects_refl].
Qed.

Lemma check_raw_reflects on st : on → reflects on st (check_raw_volume d osd st).
Proof. intros Hon x. unfold check_raw_volume. destruct (negb _); case_decide; simpl; set_solver. Qed.

Lemma known_volume_reflects osdInfo st :
  reflects (∃ dev, dev ∈ odi_Devices osdInfo ∧ od_Name dev = da_Dev d) st (known_volume r d osd osdInfo st).
Proof.
  unfold known_volume. set (on := ∃ dev, _).
  assert (Hf : reflects on st (foldl (λ st osdDev,
    if od_Raw osdDev then if decide (od_Name osdDev = da_Dev d) then check_raw_volume d osd st else st
    else check_partitions r d osd osdDev (odi_Partitions osdInfo) st) (dv_volume st) (odi_Devices osdInfo))).
  { apply (reflects_trans _ _ (dv_volume st)); [intros x; auto|]. apply reflects_foldl. intros dev st' Hdev.
    destruct (od_Raw dev).
    - case_decide; [apply check_raw_reflects; by exists dev|apply reflects_refl].
    - eapply reflects_weaken; [|apply check_partitions_reflects]. intros Hn. by exists dev. }
  destruct (_ && _ && _); exact Hf.
Qed.

Lemma unknown_volume_reflected osdInfo st : dv_reflected (unknown_volume d osd osdInfo st) = dv_reflected st.
Proof.
  unfold unknown_volume. revert st. induction (odi_Devices osdInfo) as [|dev devs IH]; intros st; simpl; [done|].
  rewrite IH. destruct (decide (od_Name dev = da_Dev d)); [|done]. destruct (od_Raw dev); [done|].
  destruct (da_FullDiskUsage d); [|done]. clear IH. revert st. induction (odi_Partitions osdInfo) as [|part parts IHp]; intros st; simpl; [done|].
  rewrite IHp. by case_decide.
Qed.
End reflected.

(** An OSD of the cluster has a volume on a device of the spec. *)
Definition on_spec_device (r : DiskDaemonDisksReport) (osds : DiskDaemonOsdsReport) (clusterInfo : nodeDetails)
    (d : devForAnalysis) (osd : string) : Prop :=
  ∃ details vol dev,
    osd ∈ default [] (dr_DiskToOsd r !! da_Dev d) ∧ clusterInfo !! ("osd." +:+ osd) = Some details ∧
    vol ∈ default [] (osr_Osds osds !! osd) ∧ is_cluster_osd details vol = true ∧
    dev ∈ odi_Devices vol ∧ od_Name dev = da_Dev d.

Lemma analyse_device_reflected r osds clusterInfo acc d acc' :
  analyse_device r (Some osds) clusterInfo acc d = Some acc' →
  ∀ x, x ∈ acc'.2 → x ∈ acc.2 ∨ on_spec_device r osds clusterInfo d x.
Proof.
  unfold analyse_device. intros (st & Hst & [= <-])%bind_Some. simpl.
  refine (foldl_bind_inv _ (λ _ st, ∀ x, x ∈ dv_reflected st → x ∈ acc.2 ∨ on_spec_device r osds clusterInfo d x) _ _ _ _ _ Hst);
    [auto|].
  intros _ osd st1 st2 Hosd IH [= <-] x Hx.
  eapply (reflects_foldl osd (on_spec_device r osds clusterInfo d osd)) in Hx as [Hx|[-> Hon]]; [auto|auto|].
  intros vol st3 Hvol. unfold analyse_volume.
  destruct (clusterInfo !! _) as [details|] eqn:Hdet; [|apply reflects_refl].
  destruct (is_cluster_osd details vol) eqn:Hkn.
  - eapply reflects_weaken; [|apply known_volume_reflects]. intros (dev & Hdev & Hn). by exists details, vol, dev.
  - intros y. rewrite unknown_volume_reflected. auto.
Qed.

(** ** The result of an analysis *)

(** A device of a volume that is reported when the volume is not in the spec: it is raw
    or holds one of the volume's partitions. *)
Definition reported_device (vol : OsdDaemonInfo) (dev : OsdDevice) : Prop :=
  dev ∈ odi_Devices vol ∧ (od_Raw dev = true ∨ ∃ part, part ∈ odi_Partitions vol ∧ od_RelatedPartition dev = op_Partition part).

Lemma volume_device_warning_some osd vol known dev :
  dev ∈ odi_Devices vol → is_Some (volume_device_warning osd vol known dev) ↔ reported_device vol dev.
Proof.
  intros Hdev. unfold volume_device_warning, reported_device. destruct (od_Raw dev); [naive_solver|].
  destruct (list_find _ _) as [[i part]|] eqn:Hf; simpl.
  - apply list_find_Some in Hf as (Hi & Hp & _). split; [|naive_solver]. intros _. split; [done|].
    right. exists part. split; [by eapply list_elem_of_lookup_2|done].
  - apply list_find_None in Hf. rewrite Forall_forall in Hf. split; [by intros []|]. naive_solver.
Qed.

(** An OSD of the cluster, with something to report, that is not reflected. *)
Definition extra_volume (clusterInfo : nodeDetails) (reflected : gset string) (osd : string) (vol : OsdDaemonInfo) : Prop :=
  known_in_cluster clusterInfo osd vol = true ∧ osd ∉ reflected ∧ ∃ dev, reported_device vol dev.

Lemma omap_nonempty {A B} (f : A → option B) l : omap f l ≠ [] ↔ ∃ a, a ∈ l ∧ is_Some (f a).
Proof.
  split.
  - intros Hne. destruct (omap f l) as [|b bs] eqn:Ho; [done|].
    assert (Hb : b ∈ omap f l) by (rewrite Ho; by left). apply list_elem_of_omap in Hb as (a & Ha & Hf). eauto.
  - intros (a & Ha & b & Hb) Hn. assert (b ∈ omap f l) by (apply list_elem_of_omap; eauto). rewrite Hn in *. by apply elem_of_nil in H2.
Qed.

Lemma volume_warnings_extra clusterInfo reflected osd vol :
  (volume_warnings clusterInfo reflected osd vol).2 = true ↔ extra_volume clusterInfo reflected osd vol.
Proof.
  unfold volume_warnings, extra_volume. destruct (known_in_cluster clusterInfo osd vol); simpl; [|naive_solver].
  case_bool_decide as Hin; simpl; [naive_solver|]. rewrite negb_true_iff, bool_decide_eq_false.
  fold (omap (volume_device_warning osd vol true) (odi_Devices vol) ≠ []). rewrite omap_nonempty. split.
  - intros (dev & Hdev & Hs). split_and!; [done..|]. exists dev. by apply volume_device_warning_some in Hs.
  - intros (_ & _ & dev & Hdev). exists dev. split; [apply Hdev|]. by apply volume_device_warning_some; [apply Hdev|].
Qed.

Lemma stray_warnings_extra osds clusterInfo reflected :
  (stray_warnings osds clusterInfo reflected).2 = true ↔
  ∃ osd vols vol, osr_Osds osds !! osd = Some vols ∧ vol ∈ vols ∧ extra_volume clusterInfo reflected osd vol.
Proof.
  unfold stray_warnings. simpl. rewrite existsb_exists. setoid_rewrite <-list_elem_of_In.
  setoid_rewrite list_elem_of_fmap. setoid_rewrite list_elem_of_bind. setoid_rewrite list_elem_of_fmap. split.
  - intros (w & ([osd vol] & -> & [o vols] & (v & [= -> ->] & Hv) & Hin) & Hw). simpl in *.
    apply elem_of_range in Hin. exists o, vols, v. by rewrite <-volume_warnings_extra.
  - intros (osd & vols & vol & Hin & Hvol & Hx). exists (volume_warnings clusterInfo reflected osd vol).
    split; [|by apply volume_warnings_extra]. exists (osd, vol). split; [done|]. exists (osd, vols).
    split; [by exists vol|by apply elem_of_range].
Qed.

(** ** The number of OSDs on a device *)

Section counting.
Variables (r : DiskDaemonDisksReport) (d : devForAnalysis).

(** The partitions of a volume that belong to the given device of it and are meant by
    the spec: all such on a whole disk, else the first. *)
Definition considered (osdDev : OsdDevice) (parts : list OsdPartition) : list OsdPartition :=
  let m := List.filter (λ part, bool_decide (od_RelatedPartition osdDev = op_Partition part) && negb (skip_partition r d part)) parts in
  if da_FullDiskUsage d then m else take 1 m.

Definition is_block (part : OsdPartition) : bool := bool_decide (op_Type part = "block").

(** How many OSDs a volume puts on the device: raw devices and block partitions. *)
Definition dev_hits (vol : OsdDaemonInfo) (osdDev : OsdDevice) : nat :=
  if decide (od_Name osdDev = da_Dev d) then
    if od_Raw osdDev then 1 else length (List.filter is_block (considered osdDev (odi_Partitions vol)))
  else 0.
Definition vol_hits (vol : OsdDaemonInfo) : nat := sum_list_with (dev_hits vol) (odi_Devices vol).

(** Volumes of OSDs of the cluster only. *)
Definition osd_hits (clusterInfo : nodeDetails) (osds : DiskDaemonOsdsReport) (osd : string) : nat :=
  match clusterInfo !! ("osd." +:+ osd) with
  | Some details =>
      sum_list_with (λ vol, if is_cluster_osd details vol then vol_hits vol else 0)%nat (default [] (osr_Osds osds !! osd))
  | None => 0
  end.

Variable osd : string.

Lemma check_partition_count osdDev part st :
  dv_onDevice (check_partition r d osd osdDev part st) =
  dv_onDevice st + (if bool_decide (od_Name osdDev = da_Dev d) && is_block part then 1 else 0).
Proof.
  unfold check_partition, is_block. destruct (bool_decide (od_Name osdDev = da_Dev d)); simpl.
  - destruct (decide (op_Type part = "block")); [rewrite bool_decide_true by done; by simpl|].
    rewrite bool_decide_false by done. repeat case_match; simpl; lia.
  - repeat case_match; simpl; lia.
Qed.

Lemma check_partitions_count osdDev parts st :
  dv_onDevice (check_partitions r d osd osdDev parts st) =
  dv_onDevice st + (if decide (od_Name osdDev = da_Dev d)
                    then Z.of_nat (length (List.filter is_block (considered osdDev parts))) else 0).
Proof.
  unfold considered. revert st. induction parts as [|part parts IH]; intros st; simpl.
  { destruct (da_FullDiskUsage d), (decide _); simpl; lia. }
  destruct (bool_decide (od_RelatedPartition osdDev = op_Partition part)), (skip_partition r d part); simpl; try apply IH.
  destruct (da_FullDiskUsage d) eqn:Hfull.
  - rewrite IH, check_partition_count. destruct (decide (od_Name osdDev = da_Dev d)).
    + rewrite bool_decide_true by done. simpl. destruct (is_block part); simpl; lia.
    + rewrite bool_decide_false by done. simpl. lia.
  - rewrite check_partition_count. destruct (decide (od_Name osdDev = da_Dev d)).
    + rewrite bool_decide_true by done. simpl. by destruct (is_block part).
    + rewrite bool_decide_false by done. simpl. lia.
Qed.

Lemma check_raw_count st : dv_onDevice (check_raw_volume d osd st) = dv_onDevice st + 1.
Proof. unfold check_raw_volume. destruct (negb _); case_decide; done. Qed.

Lemma known_volume_count vol st : dv_onDevice (known_volume r d osd vol st) = dv_onDevice st + Z.of_nat (vol_hits vol).
Proof.
  unfold known_volume, vol_hits.
  assert (Hf : ∀ devs st, dv_onDevice (foldl (λ st osdDev,
    if od_Raw osdDev then if decide (od_Name osdDev = da_Dev d) then check_raw_volume d osd st else st
    else check_partitions r d osd osdDev (odi_Partitions vol) st) st devs) =
    dv_onDevice st + Z.of_nat (sum_list_with (dev_hits vol) devs)).
  { intros devs. induction devs as [|dev devs IH]; intros st'; simpl; [lia|]. rewrite IH. unfold dev_hits at 2.
    destruct (od_Raw dev).
    - destruct (decide (od_Name dev = da_Dev d)); [rewrite check_raw_count|]; lia.
    - rewrite check_partitions_count. destruct (decide _); lia. }
  change (dv_onDevice st) with (dv_onDevice (dv_volume st)). rewrite <-Hf. by destruct (_ && _ && _).
Qed.
End counting.

(** ** Issues only grow *)

Section issues.
Variables (r : DiskDaemonDisksReport) (d : devForAnalysis) (osd : string).

Definition quiet (st st' : dev_state) : Prop := dv_issues st' = [] → dv_issues st = [].

Lemma quiet_trans st1 st2 st3 : quiet st1 st2 → quiet st2 st3 → quiet st1 st3.
Proof. unfold quiet. auto. Qed.

Lemma quiet_issue msg st : dv_issues (dv_issue msg st) ≠ [].
Proof. simpl. by intros [_ [=]]%app_eq_nil. Qed.

Lemma quiet_foldl {A} (f : dev_state → A → dev_state) l st :
  (∀ a st, quiet st (f st a)) → quiet st (foldl f st l).
Proof.
  intros Hf. revert st. induction l as [|a l IH]; intros st; simpl; [by intros ?|].
  eapply quiet_trans; [apply Hf|apply IH].
Qed.

Lemma check_partition_quiet osdDev part st : quiet st (check_partition r d osd osdDev part st).
Proof. unfold check_partition, quiet. repeat case_match; simpl; try done; by intros [? _]%app_eq_nil. Qed.

Lemma check_partitions_quiet osdDev parts st : quiet st (check_partitions r d osd osdDev parts st).
Proof.
  revert st. induction parts as [|part parts IH]; intros st; simpl; [by intros ?|].
  destruct (_ || _); [apply IH|]. eapply quiet_trans; [apply check_partition_quiet|].
  destruct (da_FullDiskUsage d); [apply IH|by intros ?].
Qed.

Lemma known_volume_quiet vol st : quiet st (known_volume r d osd vol st).
Proof.
  unfold known_volume.
  match goal with |- context [foldl ?f (dv_volume st) ?l] => set (st1 := foldl f (dv_volume st) l) end.
  apply (quiet_trans _ st1).
  - apply (quiet_trans _ (dv_volume st)); [by intros ?|]. apply quiet_foldl. intros dev st'.
    destruct (od_Raw dev); [|apply check_partitions_quiet].
    destruct (decide (od_Name dev = da_Dev d)); [|by intros ?].
    unfold check_raw_volume, quiet. repeat case_match; simpl; try done;
      intros Hn; repeat (apply app_eq_nil in Hn as [Hn _]); done.
  - destruct (_ && _ && _); [|by intros ?]. by intros [? _]%app_eq_nil.
Qed.

(** An unknown volume is counted only together with an issue. *)
Lemma unknown_volume_quiet vol st :
  dv_issues (unknown_volume d osd vol st) = [] →
  dv_issues st = [] ∧ dv_onDevice (unknown_volume d osd vol st) = dv_onDevice st.
Proof.
  unfold unknown_volume. revert st. induction (odi_Devices vol) as [|dev devs IH]; intros st; simpl; [done|].
  intros Hn. destruct (IH _ Hn) as [Hi ->]. clear IH Hn. revert Hi.
  destruct (decide (od_Name dev = da_Dev d)); [|done].
  destruct (od_Raw dev); [by intros []%quiet_issue|]. destruct (da_FullDiskUsage d); [|done].
  destruct (odi_Partitions vol) as [|part parts]; simpl; [done|].
  intros Hi. exfalso.
  match type of Hi with dv_issues (foldl ?f ?s0 ?l) = _ => assert (Hq : quiet s0 (foldl f s0 l)) end.
  { apply quiet_foldl. intros a st' [Ha _]%app_eq_nil. by destruct (decide (op_Type a = "block")). }
  by apply (quiet_issue _ _ (Hq Hi)).
Qed.

Lemma analyse_volume_count clusterInfo vol st :
  dv_issues (analyse_volume r d osd clusterInfo st vol) = [] →
  dv_issues st = [] ∧
  dv_onDevice (analyse_volume r d osd clusterInfo st vol) =
    dv_onDevice st + Z.of_nat match clusterInfo !! ("osd." +:+ osd) with
                              | Some details => if is_cluster_osd details vol then vol_hits r d vol else 0
                              | None => 0
                              end.
Proof.
  unfold analyse_volume. destruct (clusterInfo !! _) as [details|]; [|by intros; split; [|lia]].
  destruct (is_cluster_osd details vol).
  - intros Hn. split; [by eapply known_volume_quiet|apply known_volume_count].
  - intros Hn. destruct (unknown_volume_quiet _ _ Hn) as [? ->]. split; [done|lia].
Qed.
End issues.

(** ** Clean analyses *)

Lemma analyse_volumes_count r d clusterInfo osds osd st :
  let st' := foldl (analyse_volume r d osd clusterInfo) st (default [] (osr_Osds osds !! osd)) in
  dv_issues st' = [] → dv_issues st = [] ∧ dv_onDevice st' = dv_onDevice st + Z.of_nat (osd_hits r d clusterInfo osds osd).
Proof.
  unfold osd_hits. generalize (default [] (osr_Osds osds !! osd)). intros vols. simpl. revert st.
  induction vols as [|vol vols IH]; intros st Hn; simpl in *; [split; [done|]; case_match; lia|].
  destruct (IH _ Hn) as [Hi ->]. apply analyse_volume_count in Hi as [Hi ->]. split; [done|].
  destruct (clusterInfo !! _) as [details|]; lia.
Qed.

(** Without issues, the OSDs found on the device are as many as the spec says. *)
Lemma analyse_device_count r osds clusterInfo acc d acc' :
  analyse_device r (Some osds) clusterInfo acc d = Some acc' → acc'.1 = [] →
  acc.1 = [] ∧
  da_OsdsPerDevice d = Z.of_nat (sum_list_with (osd_hits r d clusterInfo osds) (default [] (dr_DiskToOsd r !! da_Dev d))).
Proof.
  unfold analyse_device. intros (st & Hst & [= <-])%bind_Some. simpl.
  destruct (decide (dv_onDevice st = da_OsdsPerDevice d)) as [<-|]; [|by intros [_ [=]]%app_eq_nil]. revert Hst.
  refine (foldl_bind_inv _ (λ done st, dv_issues st = [] →
    acc.1 = [] ∧ dv_onDevice st = Z.of_nat (sum_list_with (osd_hits r d clusterInfo osds) done)) _ _ _ _ _); [done|].
  intros done osd st1 st2 _ IH [= <-] Hn. apply analyse_volumes_count in Hn as [Hn ->].
  destruct (IH Hn) as [? ->]. split; [done|]. rewrite sum_list_with_app. simpl. lia.
Qed.

(** The loop over the devices. *)
Lemma analyse_devices_inv report clusterInfo osds devs res :
  ddr_OsdsReport report = Some osds →
  foldl (λ acc d, a ← acc; r ← ddr_DisksReport report; analyse_device r (ddr_OsdsReport report) clusterInfo a d)
    (Some ([], ∅)) devs = Some res → res.1 = [] →
  (∀ d, d ∈ devs → ∃ r, ddr_DisksReport report = Some r ∧
     da_OsdsPerDevice d = Z.of_nat (sum_list_with (osd_hits r d clusterInfo osds) (default [] (dr_DiskToOsd r !! da_Dev d)))) ∧
  (∀ x, x ∈ res.2 → ∃ r d, ddr_DisksReport report = Some r ∧ d ∈ devs ∧ on_spec_device r osds clusterInfo d x).
Proof.
  intros Ho. rewrite Ho.
  refine (foldl_bind_inv _ (λ done (acc : list string * gset string), acc.1 = [] →
    (∀ d, d ∈ done → ∃ r, ddr_DisksReport report = Some r ∧
       da_OsdsPerDevice d = Z.of_nat (sum_list_with (osd_hits r d clusterInfo osds) (default [] (dr_DiskToOsd r !! da_Dev d)))) ∧
    (∀ x, x ∈ acc.2 → ∃ r d, ddr_DisksReport report = Some r ∧ d ∈ done ∧ on_spec_device r osds clusterInfo d x)) _ _ _ _ _).
  { intros _. split; [by intros ? ?%elem_of_nil|set_solver]. }
  intros done d acc acc' _ IH (r & Hr & Ha)%bind_Some Hn. destruct (analyse_device_count _ _ _ _ _ _ Ha Hn) as [Hi Hc].
  destruct (IH Hi) as [IH1 IH2]. split.
  - intros d' [Hd'| ->%list_elem_of_singleton]%elem_of_app; [by apply IH1|by exists r].
  - intros x Hx. destruct (analyse_device_reflected _ _ _ _ _ _ Ha x Hx) as [Hx'|Hon].
    + destruct (IH2 x Hx') as (r' & d' & ? & ? & ?). exists r', d'. split_and!; [done| |done]. apply elem_of_app. by left.
    + exists r, d. split_and!; [done| |done]. apply elem_of_app. right. by apply list_elem_of_singleton.
Qed.

Lemma runSpecAnalysis_clean node report clusterInfo ws extra :
  runSpecAnalysis depth node report clusterInfo = Some ([], ws, extra) →
  ∃ devs osds res, devices_to_analyse depth node (ddr_DisksReport report) = Some ([], devs) ∧
    ddr_OsdsReport report = Some osds ∧ res.1 = [] ∧
    foldl (λ acc d, a ← acc; r ← ddr_DisksReport report; analyse_device r (ddr_OsdsReport report) clusterInfo a d)
      (Some ([], ∅)) devs = Some res ∧
    extra = (stray_warnings osds clusterInfo res.2).2.
Proof.
  unfold runSpecAnalysis. intros ([issues devs] & Hp & Hrun)%bind_Some. cbn [fst snd] in Hrun.
  destruct issues as [|i il]; [|injection Hrun as Hrun _ _; by apply (proj1 (SortStrings_nil _)) in Hrun].
  apply bind_Some in Hrun as ([issues refl] & Hf & Hrun). cbn [fst snd] in Hrun.
  destruct issues as [|i il]; [|injection Hrun as Hrun _ _; by apply (proj1 (SortStrings_nil _)) in Hrun].
  apply bind_Some in Hrun as (osds & Ho & [= _ <-]). by exists devs, osds, ([], refl).
Qed.

(** When the analysis of a node has no issues, every device of the spec carries
    exactly as many OSDs of this cluster (same cluster, same OSD) as the spec asks for. *)
Theorem clean_analysis_counts node report clusterInfo ws extra :
  runSpecAnalysis depth node report clusterInfo = Some ([], ws, extra) →
  ∃ devs osds, devices_to_analyse depth node (ddr_DisksReport report) = Some ([], devs) ∧
    ddr_OsdsReport report = Some osds ∧
    ∀ d, d ∈ devs → ∃ r, ddr_DisksReport report = Some r ∧
      da_OsdsPerDevice d =
        Z.of_nat (sum_list_with (osd_hits r d clusterInfo osds) (default [] (dr_DiskToOsd r !! da_Dev d))).
Proof.
  intros (devs & osds & res & Hp & Ho & Hn & Hf & _)%runSpecAnalysis_clean.
  exists devs, osds. split_and!; [done..|]. by apply (analyse_devices_inv _ _ _ _ _ Ho Hf Hn).
Qed.

(** When moreover no running OSDs beyond the spec are reported, every OSD of the
    cluster whose volume is found on the node (on a raw device or a partition of it) is
    on a device of the spec; and running OSDs are reported only if there is such an OSD. *)
Theorem clean_analysis_covers node report clusterInfo ws extra :
  runSpecAnalysis depth node report clusterInfo = Some ([], ws, extra) →
  ∃ devs osds, devices_to_analyse depth node (ddr_DisksReport report) = Some ([], devs) ∧
    ddr_OsdsReport report = Some osds ∧
    let found osd vol := (∃ vols, osr_Osds osds !! osd = Some vols ∧ vol ∈ vols) ∧
      known_in_cluster clusterInfo osd vol = true ∧ ∃ dev, reported_device vol dev in
    (extra = false → ∀ osd vol, found osd vol →
       ∃ r d, ddr_DisksReport report = Some r ∧ d ∈ devs ∧ on_spec_device r osds clusterInfo d osd) ∧
    (extra = true → ∃ osd vol, found osd vol).
Proof.
  intros (devs & osds & res & Hp & Ho & Hn & Hf & ->)%runSpecAnalysis_clean.
  exists devs, osds. split_and!; [done..|]. split.
  - intros Hx osd vol ((vols & Hv & Hin) & Hk & Hdev). destruct (decide (osd ∈ res.2)) as [Hr|Hr].
    + by apply (analyse_devices_inv _ _ _ _ _ Ho Hf Hn).
    + exfalso. revert Hx. apply not_false_iff_true, stray_warnings_extra. by exists osd, vols, vol.
  - intros (osd & vols & vol & Hv & Hin & Hk & _ & Hd)%stray_warnings_extra.
    exists osd, vol. split_and!; [by exists vols|done|done].
Qed.

(** The analysis comes to a result when the report has both its parts and parent
    links have no cycle. *)
Theorem analysis_total node report clusterInfo r osds rank :
  ddr_DisksReport report = Some r → ddr_OsdsReport report = Some osds → ranked r rank →
  (∀ c, c ∈ cn_Devices node → (rank (specified_as c) < depth)%nat) →
  is_Some (runSpecAnalysis depth node report clusterInfo).
Proof.
  intros Hr Ho Hrank Hdepth. unfold runSpecAnalysis. rewrite Hr, Ho.
  assert (is_Some (devices_to_analyse depth node (Some r))) as [[issues devs] ->].
  { unfold devices_to_analyse. destruct (cn_Devices node) as [|c cs] eqn:Hcs; [destruct (_ || _); by eexists|].
    cbn [mbind option_bind]. unfold devices_of_spec. rewrite Hcs.
    destruct (foldl_bind_some (λ st c, spec_device depth (node_meta node) (node_per_device node) r st c) (c :: cs)
                (mkSpecState [] ∅ ∅ [])) as [st Hst]; [|rewrite Hst; by eexists].
    intros st a Ha. unfold spec_device. destruct (FindDiskName_total r rank depth (specified_as a)) as [x ->]; eauto. }
  cbn [mbind option_bind fst snd]. destruct issues; [|by eexists].
  destruct (foldl_bind_some (λ a d, r ← Some r; analyse_device r (Some osds) clusterInfo a d) devs ([], ∅)) as [res Hres].
  - intros st d _. simpl. unfold analyse_device.
    destruct (foldl_bind_some (λ st osd, o ← Some osds; Some (foldl (analyse_volume r d osd clusterInfo) st (default [] (osr_Osds o !! osd))))
      (default [] (dr_DiskToOsd r !! da_Dev d)) (mkDevState st.1 0 st.2 false false)) as [x Hx]; [by eexists|].
    rewrite Hx. by eexists.
  - simpl in Hres. rewrite Hres. simpl. destruct (res.1); by eexists.
Qed.
End facts.
