(* ===== verification/RookObjects.v ===== *)
(** * Status of the Rook objects

    pkg/controller/health/rook_objects_status.go: the CephCluster and the pools,
    clients, object stores, users, realms, zone groups, zones and file systems of
    Rook's namespace.  On the way the options that later checks need are collected in
    [healthConfig]. *)

From Stdlib Require Import Ascii.
From S2P Require Import Prelude GoTime Types HealthTypes World HealthWorld Config.
Open Scope Z_scope.

Section rook.
Context `{World} `{HealthWorld} `{MapRange}.
Variable lcmConfig : LcmConfig.
Let rookNs : string := lc_RookNamespace lcmConfig.

(** ** The CephCluster *)

Definition skipClusterVerification (version : string) : bool :=
  match Atoi (hd EmptyString (Split version "."%char)) with
  | Some major => bool_decide (major < 16)
  | None => false
  end.

(** The zero [time.Time], the first of January of the year 1, and [time.Since],
    which stays within 64 bits. *)
Definition zero_time : Z := -62135596800 * second.
Definition time_Since (now t : Z) : Z := Z.max (- 2 ^ 63) (Z.min (now - t) (2 ^ 63 - 1)).

Definition checkStatusIsNotUpdated (cephStatus : option CephHealthStatus) : IO bool :=
  match cephStatus with
  | None => ret true
  | Some status =>
      let parsed := default zero_time (ParseRFC3339 (cst_LastChecked status)) in
      call EvClock (λ h, bool_decide (300 < Z.quot (time_Since (w_clock h) parsed) second))
  end.

Definition ignored_issues : list string := default [] (hp_CephIssuesToIgnore <$> lc_HealthParams lcmConfig).

(** The health checks that are reported: neither muted nor ignored. *)
Definition reported_issues (cluster : CephCluster) : gmap string string :=
  foldl (λ m i, delete i m) (default ∅ (GetCephClusterIssues cluster)) ignored_issues.

Definition cluster_str (cluster : CephCluster) : string :=
  "cephcluster '" +:+ cc_Namespace cluster +:+ "/" +:+ cc_Name cluster +:+ "' object ".

Definition checkClusterStatus (cluster : CephCluster) : IO (list string) :=
  let status := cc_Status cluster in
  let issues :=
    if decide (cls_Phase status = "Ready" ∨ cls_Phase status = "Connected") then []
    else [cluster_str cluster +:+ "state is '" +:+ cls_Phase status +:+ "'"] in
  match cls_CephStatus status with
  | None => ret (issues ++ [cluster_str cluster +:+ "health info is not available"])
  | Some cephStatus =>
      let issues :=
        if decide (cst_Health cephStatus = "HEALTH_OK") then issues
        else issues ++ ((λ w, w.1 +:+ ": " +:+ w.2) <$> range 60 (reported_issues cluster)) in
      let* timeProblem := checkStatusIsNotUpdated (Some cephStatus) in
      ret (if timeProblem : bool then issues ++ [cluster_str cluster +:+ "status is not updated for last 5 minutes"] else issues)
  end.

Definition checkCephCluster (c : healthConfig) : IO (healthConfig * option ClusterStatus * list string) :=
  let name := "'" +:+ rookNs +:+ "/" +:+ hc_name c +:+ "'" in
  let* r := call (EvClusterGet rookNs (hc_name c)) (λ h, w_cluster_get h rookNs (hc_name c)) in
  match r with
  | (_, Some e) =>
      ret (c, None, [if is_not_found e then "cephcluster " +:+ name +:+ " object is not found"
                     else "failed to get cephcluster " +:+ name +:+ " object"])
  | (cluster, None) =>
      match cls_CephVersion (cc_Status cluster) with
      | None => ret (c, None, ["cephcluster is creating, no valid cephcluster version in status"])
      | Some version =>
          if skipClusterVerification (cv_Version version) then
            ret (c, None, ["verification is supported since Ceph Pacific versions (v16.2), current is '"
                           +:+ cv_Version version +:+ "'"])
          else
            let* issues := checkClusterStatus cluster in
            ret (set_hc_cephCluster (Some cluster) c, Some (cc_Status cluster), issues)
      end
  end.

(** ** Lists of objects *)

(** The issue of an object without a status or in another phase than the given ones. *)
Definition object_issue (kind : string) (phases : list string) (o : RookObject) : list string :=
  let name := kind +:+ " '" +:+ rookNs +:+ "/" +:+ rob_Name o +:+ "' " in
  match rob_Status o with
  | None => [name +:+ "status is not available yet"]
  | Some st => if decide (rk_Phase st ∈ phases) then [] else [name +:+ "is not ready"]
  end.

(** Statuses and issues of the listed objects; no map for an empty list. *)
Definition object_statuses (kind : string) (phases : list string) (os : list RookObject) : rook_statuses * list string :=
  match os with
  | [] => (None, [])
  | _ => (Some (foldl (λ m o, <[rob_Name o := rob_Status o]> m) ∅ os), os ≫= object_issue kind phases)
  end.

(** A check that lists objects, updates the options and reports. *)
Definition check_objects {A} (resource kind : string) (phases : list string) (list_objects : history → list A * option err)
    (object : A → RookObject) (collect : healthConfig → A → healthConfig) (c : healthConfig)
    : IO (healthConfig * (rook_statuses * list string)) :=
  let* r := read resource rookNs EmptyString list_objects in
  match r with
  | (_, Some _) => ret (c, (None, ["failed to list " +:+ resource +:+ " in '" +:+ rookNs +:+ "' namespace"]))
  | (items, None) => ret (foldl collect c items, object_statuses kind phases (object <$> items))
  end.

Definition checkCephBlockPools : healthConfig → IO (healthConfig * (rook_statuses * list string)) :=
  check_objects "cephblockpools" "cephblockpool" ["Ready"] (λ h, w_blockpools h rookNs) id (λ c _, c).

Definition checkCephClients : healthConfig → IO (healthConfig * (rook_statuses * list string)) :=
  check_objects "cephclients" "cephclient" ["Ready"] (λ h, w_clients h rookNs) id (λ c _, c).

(** The MDSs a file system should have. *)
Definition mds_desired (fs : CephFilesystem) : gmap string Z :=
  let active := {["up:active" := fs_ActiveCount fs]} in
  if fs_ActiveStandby fs then <["up:standby-replay" := fs_ActiveCount fs]> active else active.

Definition checkCephFilesystems : healthConfig → IO (healthConfig * (rook_statuses * list string)) :=
  check_objects "cephfilesystems" "cephfilesystem" ["Ready"] (λ h, w_filesystems h rookNs) fs_Object
    (λ c fs, set_hc_mdsDaemonsDesired (<[rob_Name (fs_Object fs) := mds_desired fs]> (hc_mdsDaemonsDesired c)) c).

(** The options of an object store; Rook keeps endpoints in the info of the status. *)
Definition rgw_options (rgw : CephObjectStore) : rgwOpts :=
  match os_ExternalRgwEndpoints rgw with
  | O => mkRgwOpts (os_Instances rgw) false EmptyString
  | S _ =>
      let info := default ∅ (rk_Info <$> rob_Status (os_Object rgw)) in
      let endpoint :=
        match info !! "secureEndpoint" with
        | Some secure => secure
        | None => default EmptyString (info !! "endpoint")
        end in
      mkRgwOpts (os_Instances rgw) true endpoint
  end.

Definition checkCephObjectStores : healthConfig → IO (healthConfig * (rook_statuses * list string)) :=
  check_objects "cephobjectstores" "cephobjectstore" ["Ready"; "Connected"] (λ h, w_objectstores h rookNs) os_Object
    (λ c rgw, set_hc_rgwOpts (<[rob_Name (os_Object rgw) := rgw_options rgw]> (hc_rgwOpts c)) c).

Definition checkCephObjectUsers : healthConfig → IO (healthConfig * (rook_statuses * list string)) :=
  check_objects "cephobjectusers" "cephobjectuser" ["Ready"] (λ h, w_objectusers h rookNs) id (λ c _, c).

Definition checkCephObjectRealms : healthConfig → IO (healthConfig * (rook_statuses * list string)) :=
  check_objects "cephobjectrealms" "cephobjectrealm" ["Ready"] (λ h, w_realms h rookNs) rl_Object
    (λ c realm, if decide (rl_PullEndpoint realm = EmptyString) then c
                else set_hc_realms (<[rob_Name (rl_Object realm) := true]> (hc_realms c)) c).

(** Zone groups of realms that are pulled, then zones of such zone groups. *)
Definition checkCephObjectZoneGroups : healthConfig → IO (healthConfig * (rook_statuses * list string)) :=
  check_objects "cephobjectzonegroups" "cephobjectzonegroup" ["Ready"] (λ h, w_zonegroups h rookNs) zg_Object
    (λ c zg, if default false (hc_realms c !! zg_Realm zg)
             then set_hc_zonegroups (<[rob_Name (zg_Object zg) := zg_Realm zg]> (hc_zonegroups c)) c else c).

Definition checkCephObjectZones : healthConfig → IO (healthConfig * (rook_statuses * list string)) :=
  check_objects "cephobjectzones" "cephobjectzone" ["Ready"] (λ h, w_zones h rookNs) zn_Object
    (λ c zone, match hc_zonegroups c !! zn_ZoneGroup zone with
               | Some _ => set_hc_zones (<[rob_Name (zn_Object zone) := zn_ZoneGroup zone]> (hc_zones c)) c
               | None => c
               end).

(** ** The section of the report *)

Definition object_storage (stores users realms zonegroups zones : rook_statuses) : option ObjectStorageStatus :=
  match stores, users, realms, zonegroups, zones with
  | None, None, None, None, None => None
  | _, _, _, _, _ => Some (mkObjectStorageStatus stores users realms zonegroups zones)
  end.

Definition rookObjectsVerification (c : healthConfig) : IO (healthConfig * option RookCephObjectsStatus * list string) :=
  let* r := checkCephCluster c in
  let '(c, cluster, issues) := r in
  match cluster with
  | None => ret (c, None, issues)
  | Some clusterStatus =>
      let* r := checkCephBlockPools c in
      let '(c, pools) := r in
      let* r := checkCephClients c in
      let '(c, clients) := r in
      let* r := checkCephObjectRealms c in
      let '(c, realms) := r in
      let* r := checkCephObjectZoneGroups c in
      let '(c, zonegroups) := r in
      let* r := checkCephObjectZones c in
      let '(c, zones) := r in
      let* r := checkCephObjectStores c in
      let '(c, stores) := r in
      let* r := checkCephObjectUsers c in
      let '(c, users) := r in
      let* r := checkCephFilesystems c in
      let '(c, filesystems) := r in
      ret (c, Some (mkRookObjects (Some clusterStatus) pools.1 clients.1
                      (object_storage stores.1 users.1 realms.1 zonegroups.1 zones.1) filesystems.1),
           issues ++ pools.2 ++ clients.2 ++ realms.2 ++ zonegroups.2 ++ zones.2 ++ stores.2 ++ users.2 ++ filesystems.2)
  end.
End rook.
