(* ===== verification/ClusterDetails.v ===== *)
(** * Details of the cluster

    pkg/controller/health/cluster_details.go: usage of pools and device classes,
    progress events, whether pools can place their replicas, public endpoints of RGWs
    and the state of multisite synchronisation.

    [None] is a crash: a value of a CRUSH rule that is not a string, or a tree of
    OSDs deeper than [depth] allows. *)

From Stdlib Require Import Ascii QArith Qabs.
From S2P Require Import Prelude GoTime Types HealthTypes World HealthWorld DaemonsStatus Config.
Open Scope Z_scope.

(** 64 bits without a sign. *)
Definition wrap_u64 (n : Z) : Z := n mod 2 ^ 64.

(** ** Replicas *)

(** For each device class, the number of buckets of each type that hold OSDs of it. *)
Abbreviation domain_counts := (gmap string (gmap string Z)).

Definition domain_count (m : domain_counts) (class type : string) : Z :=
  default 0 (m !! class ≫= lookup type).

Definition bump (class type : string) (m : domain_counts) : domain_counts :=
  <[class := <[type := domain_count m class type + 1]> (default ∅ (m !! class))]> m.

Definition osd_usable (n : OsdTreeNode) : bool :=
  bool_decide (tn_Status n = "up") && negb (Qeq_bool (tn_Reweight n) 0) && negb (Qeq_bool (tn_Weight n) 0).

Section replicas.
Context `{MapRange}.

(** The classes of the OSDs below a node of the tree; the counts are updated in place. *)
Fixpoint countDomainsAndClasses (depth : nat) (nodes : list OsdTreeNode) (m : domain_counts) (lookupID : Z)
    : option (domain_counts * list string) :=
  match depth with
  | O => None
  | S depth' =>
      match list_find (λ n, tn_ID n = lookupID) nodes with
      | None => Some (m, [])
      | Some (_, node) =>
          if decide (tn_Type node = "osd") then
            Some (if osd_usable node && negb (bool_decide (tn_DeviceClass node = EmptyString))
                  then (bump (tn_DeviceClass node) "osd" m, [tn_DeviceClass node]) else (m, []))
          else
            st ← foldl (λ acc id,
                   st ← acc;
                   r ← countDomainsAndClasses depth' nodes st.1 id;
                   Some (r.1, foldl (λ s class, <[class := true]> s) st.2 r.2))
                 (Some (m, ∅ : gmap string bool)) (tn_Children node);
            let classes := (range 70 st.2).*1 in
            Some (foldl (λ m class, bump class (tn_Type node) m) st.1 classes, classes)
      end
  end.

(** The counts below the first root. *)
Definition device_classes (depth : nat) (nodes : list OsdTreeNode) : option domain_counts :=
  match list_find (λ n, tn_Type n = "root") nodes with
  | Some (_, root) => fst <$> countDomainsAndClasses depth nodes ∅ (tn_ID root)
  | None => Some ∅
  end.
End replicas.

(** The failure domain and the device class of a rule: the loop over its steps, which
    a step without a device class ends. *)
Fixpoint rule_steps (steps : list (gmap string json_value)) (domain class : string) : option (string * string) :=
  match steps with
  | [] => Some (domain, class)
  | item :: steps' =>
      match item !! "item_name" with
      | Some (JString v) =>
          match Split v "~"%char with
          | _ :: c :: _ => rule_steps steps' domain c
          | _ => Some (domain, class)
          end
      | Some JOther => None
      | None =>
          match item !! "type" with
          | Some (JString v) => rule_steps steps' v class
          | Some JOther => None
          | None => rule_steps steps' domain class
          end
      end
  end.

Definition pool_rule (rules : list CrushRule) (pool : PoolLs) : option (string * string) :=
  match list_find (λ r, pl_CrushRuleID pool = cr_ID r) rules with
  | Some (_, rule) => rule_steps (cr_Steps rule) EmptyString EmptyString
  | None => Some (EmptyString, EmptyString)
  end.

Definition pool_issue (counts : domain_counts) (pool : PoolLs) (domain class : string) : list string :=
  if decide (domain = EmptyString ∨ class = EmptyString) then []
  else
    match counts !! class with
    | Some domainsInfo =>
        match domainsInfo !! domain with
        | Some count =>
            if decide (count < pl_Size pool) then
              ["pool '" +:+ pl_Name pool +:+ "' with deviceClass '" +:+ class +:+ "' and failureDomain '" +:+ domain
               +:+ "' has targeted to have " +:+ pretty (pl_Size pool) +:+ " replicas/chunks, while cluster can provide "
               +:+ pretty count +:+ " replica(s)"]
            else []
        | None => ["pool '" +:+ pl_Name pool +:+ "' specified to use failure domain '" +:+ domain
                   +:+ "', which is not present in cluster"]
        end
    | None => ["pool '" +:+ pl_Name pool +:+ "' specified to use deviceClass '" +:+ class
               +:+ "', which is not found in cluster"]
    end.

Definition pools_issues (counts : domain_counts) (rules : list CrushRule) (pools : list PoolLs) : option (list string) :=
  foldl (λ acc pool,
    issues ← acc; dc ← pool_rule rules pool;
    Some (issues ++ pool_issue counts pool dc.1 dc.2)) (Some []) pools.

(** ** Events *)

Definition event_phase (progress : Q) : nat :=
  if negb (Qle_bool (1 # 4) progress) then 0
  else if negb (Qle_bool (1 # 2) progress) then 1
  else if negb (Qle_bool (3 # 4) progress) then 2
  else 3.

Definition progressMapping : list string :=
  ["just started"; "less than a half done"; "more than a half done"; "almost done"].

(** The first phase with most events. *)
Definition phase_result (counts : list nat) : nat :=
  (foldl (λ st pc, if decide (st.1 < pc.2)%nat then (pc.2, pc.1) else st) (O, O)
     (zip (seq 0 (length counts)) counts)).2.

#[global] Instance event_message_le_dec (a b : CephEventMessage) : Decision (String.le (cem_Message a) (cem_Message b)).
Proof. apply _. Defined.

Section details.
Context `{World} `{HealthWorld} `{MapRange}.
Variable depth : nat.
Variable lcmConfig : LcmConfig.
Let rookNs : string := lc_RookNamespace lcmConfig.
Let skip : list string := default [] (hp_ChecksSkip <$> lc_HealthParams lcmConfig).

Definition getEventDetails (eventPrefix : string) (events : gmap string ProgressEvent) : CephEventDetails :=
  let es := List.filter (λ e, HasPrefix (pe_Message e) eventPrefix) (range 71 events).*2 in
  match es with
  | [] => mkEventDetails CephEventIdle [] EmptyString
  | _ =>
      let messages := (λ e, mkEventMessage (hd EmptyString (Split (pe_Message e) (ascii_of_nat 10)))
                              (format_v (Qabs (pe_Progress e)))) <$> es in
      let counts := (λ p, length (List.filter (λ e, Nat.eqb (event_phase (pe_Progress e)) p) es)) <$> seq 0 4 in
      mkEventDetails CephEventProgressing (merge_sort (λ a b, String.le (cem_Message a) (cem_Message b)) messages)
        (default EmptyString (progressMapping !! phase_result counts))
  end.

Definition getCephEvents : IO (option CephEvents * list string) :=
  if has_check cephEventsCheck skip then ret (None, [])
  else
    let cmd := "ceph status -f json" in
    let* r := RunAndParseCephToolboxCLI (mkCephStatus [] 0 0 0 0 ∅ [] ∅) json_CephStatus rookNs cmd in
    match r with
    | (_, Some _) => ret (None, [failed_to_run cmd "events details"])
    | (s, None) =>
        ret (Some (mkCephEvents (getEventDetails "Rebalancing" (cs_ProgressEvents s))
                     (getEventDetails "PG autoscaler" (cs_ProgressEvents s))), [])
    end.

(** ** Usage *)

Definition passes_filter (filter name : string) : bool :=
  bool_decide (filter = EmptyString) || regexp_match filter name.

Definition pool_usage (p : PoolDetails) : PoolUsageStats :=
  mkPoolUsage (pretty (pd_UsedBytes p)) (format_3f (pd_PercentUsed p * 100)%Q)
    (pretty (wrap_u64 (pd_TotalBytes p - pd_UsedBytes p))) (pretty (pd_TotalBytes p)).

Definition class_usage (s : ClassStats) : ClassUsageStats :=
  mkClassUsage (pretty (cla_UsedBytes s)) (pretty (cla_AvailableBytes s)) (pretty (cla_TotalBytes s)).

Definition usage_details (d : CephDetails) : UsageDetails :=
  let poolsFilter := default EmptyString (hp_UsageDetailsPoolsFilter <$> lc_HealthParams lcmConfig) in
  let classesFilter := default EmptyString (hp_UsageDetailsClassesFilter <$> lc_HealthParams lcmConfig) in
  mkUsageDetails
    (Some (class_usage <$> filter (λ c, passes_filter classesFilter c.1) (cd_StatsByClass d)))
    (Some (foldl (λ m p, if passes_filter poolsFilter (pd_Name p) then <[pd_Name p := pool_usage p]> m else m)
             ∅ (cd_Pools d))).

Definition getCephCapacityDetails : IO (option UsageDetails * list string) :=
  if has_check usageDetailsCheck skip then ret (None, [])
  else
    let cmd := "ceph df -f json" in
    let* r := RunAndParseCephToolboxCLI (mkCephDetails ∅ []) json_CephDetails rookNs cmd in
    match r with
    | (_, Some _) => ret (None, [failed_to_run cmd "capacity details"])
    | (d, None) => ret (Some (usage_details d), [])
    end.

Definition checkReplicasSizing : IO (option (list string)) :=
  if has_check poolReplicasCheck skip then ret (Some [])
  else
    let what := "replicas sizing" in
    let cmd := "ceph osd tree -f json" in
    let* t := RunAndParseCephToolboxCLI [] json_OsdTree rookNs cmd in
    match t with
    | (_, Some _) => ret (Some [failed_to_run cmd what])
    | (nodes, None) =>
        let cmd := "ceph osd pool ls detail -f json" in
        let* p := RunAndParseCephToolboxCLI [] json_Pools rookNs cmd in
        match p with
        | (_, Some _) => ret (Some [failed_to_run cmd what])
        | (pools, None) =>
            let cmd := "ceph osd crush rule dump -f json" in
            let* r := RunAndParseCephToolboxCLI [] json_CrushRules rookNs cmd in
            match r with
            | (_, Some _) => ret (Some [failed_to_run cmd what])
            | (rules, None) =>
                ret (counts ← device_classes depth nodes;
                     if decide (counts = ∅) then Some ["no device classes found in cluster"]
                     else SortStrings <$> pools_issues counts rules pools)
            end
        end
    end.

(** ** Endpoints of an RGW *)

Definition rgw_backend (rgwName : string) : string := "rook-ceph-rgw-" +:+ rgwName.

Definition backend_matches (backendName : string) (b : IngressBackend) : bool :=
  bool_decide (ib_Service b = Some backendName) || bool_decide (ib_Resource b = Some (backendName, "CephObjectStore")).

(** Endpoints and issues of an ingress. *)
Definition ingress_endpoints (backendName : string) (i : Ingress) : list string * list string :=
  let name := "'" +:+ rookNs +:+ "/" +:+ ig_Name i +:+ "'" in
  match ig_Rules i with
  | [] => ([], ["ingress " +:+ name +:+ " has no rules configured, can't find Ceph RGW public endpoint"])
  | rules =>
      let endpoints :=
        rules ≫= (λ rule, if existsb (backend_matches backendName) (default [] rule.2) then ["https://" +:+ rule.1] else []) in
      (endpoints,
       match endpoints with
       | [] => ["can't determine Ceph RGW public endpoint for ingress " +:+ name +:+ ", backend '" +:+ backendName
                +:+ "' is not found in ingress rules"]
       | _ => match ig_LoadBalancer i with
              | O => ["ingress " +:+ name +:+ " has no listed IP addresses available, public endpoint is not available"]
              | S _ => []
              end
       end)
  end.

(** Endpoints and issues of a gateway route. *)
Definition route_endpoints (backendName : string) (t : HTTPRoute) : list string * list string :=
  let name := "gateway httproute '" +:+ rt_Namespace t +:+ "/" +:+ rt_Name t +:+ "'" in
  match rt_Rules t with
  | [] => ([], [name +:+ " has no rules configured, can't find Ceph RGW public endpoint"])
  | rules =>
      let matching := List.filter (λ rule, existsb (λ ref,
        negb (bool_decide (ref.1 = EmptyString)) && bool_decide (ref = (backendName, Some "Service"))) rule) rules in
      let stateOk := length (List.filter (λ reasons, existsb (λ r, bool_decide (r = "Accepted")) reasons) (rt_Parents t)) in
      (matching ≫= (λ _, (λ h, "https://" +:+ h) <$> rt_Hostnames t),
       match matching with
       | [] => ["can't determine Ceph RGW public endpoint for " +:+ name +:+ ", backend '" +:+ backendName
                +:+ "' is not found in httproute rules"]
       | _ => if decide (stateOk = 0 ∨ stateOk ≠ length (rt_Parents t))%nat
              then [name +:+ " has not accepted some rules, public endpoint is not available"] else []
       end)
  end.

(** The loop over the ports of a service, which the port [https] ends. *)
Fixpoint port_endpoint (ip : string) (ports : list (string * Z)) (endpoint : string) : string :=
  match ports with
  | [] => endpoint
  | (name, port) :: ports' =>
      if decide (name = "https") then "https://" +:+ ip +:+ ":" +:+ pretty port
      else port_endpoint ip ports' (if decide (name = "http") then "http://" +:+ ip +:+ ":" +:+ pretty port else endpoint)
  end.

Definition service_endpoints (rgwName : string) (s : Service) : list string * list string :=
  if negb (bool_decide (svc_Type s = "LoadBalancer")) then
    ([], ["found Ceph RGW " +:+ svc_Type s +:+ " external service '" +:+ svc_Namespace s +:+ "/" +:+ svc_Name s
          +:+ "', but supported only 'LoadBalancer' service type"])
  else
    match svc_LoadBalancer s with
    | [] => ([], ["external service '" +:+ rookNs +:+ "/" +:+ rgwName
                  +:+ "' has no IP addresses available, can't determine Ceph RGW public endpoint"])
    | ip :: _ =>
        let endpoint := port_endpoint ip (svc_Ports s) EmptyString in
        (if decide (endpoint = EmptyString) then [] else [endpoint], [])
    end.

Definition collect_endpoints {A} (f : A → list string * list string) (l : list A) : list string * list string :=
  (l ≫= (λ a, (f a).1), l ≫= (λ a, (f a).2)).

(** One source of endpoints; the next one is asked when it is off or has no objects. *)
Definition ask_source {A} (enabled : bool) (kind failed : string) (selector : string)
    (list_objects : history → list A * option err) (f : A → list string * list string)
    (next : IO (list string * list string)) : IO (list string * list string) :=
  if enabled then
    let* r := read kind rookNs selector list_objects in
    match r with
    | (_, Some _) => ret ([], ["failed to check " +:+ failed +:+ " in '" +:+ rookNs +:+ "' namespace"])
    | ([], None) => next
    | (items, None) => ret (collect_endpoints f items)
    end
  else next.

Definition getRgwPublicEndpoint (rgwName : string) : IO (list string * list string) :=
  let common := lc_CommonParams lcmConfig in
  let backendName := rgw_backend rgwName in
  if decide (cp_RgwPublicAccessLabel common = EmptyString) then ret ([], [])
  else
    let selector := "app=rook-ceph-rgw,rook_object_store=" +:+ rgwName +:+ "," +:+ cp_RgwPublicAccessLabel common in
    ask_source (cp_KeepIngress common) "Ingress" "ingresses" selector (λ h, w_ingresses h rookNs selector)
      (ingress_endpoints backendName)
      (ask_source (cp_GatewayAPIEnabled common) "HTTPRoute" "gateway httproutes" selector (λ h, w_routes h rookNs selector)
         (route_endpoints backendName)
         (ask_source true "Service" "services" selector (λ h, w_services h rookNs selector)
            (service_endpoints rgwName) (ret ([], [])))).

(** ** Multisite *)

Definition metadata_state (out : string) : MultiSiteState * list string :=
  if regexp_match "metadata is caught up with master" out then (MultiSiteSyncing, [])
  else if regexp_match "metadata is behind" out then (MultiSiteOutOfSync, ["metadata is behind master zone"])
  else if regexp_match "failed to fetch mdlog info" out then (MultiSiteFailed, ["failed to fetch metadata info"])
  else (MultiSiteFailed, ["metadata sync failed"]).

Definition data_state (out : string) : MultiSiteState * list string :=
  if regexp_match "\sdata sync source" out then
    if regexp_match "failed to fetch datalog info" out then (MultiSiteFailed, ["failed to fetch data info"])
    else
      let sources := regexp_count "source:\s.*\)" out in
      let upToDate := regexp_count "\sdata is caught up with source" out in
      if decide (sources = upToDate) then (MultiSiteSyncing, [])
      else if decide (regexp_count "\sdata is behind on" out + upToDate = sources)%nat
      then (MultiSiteOutOfSync, ["data is behind master zone"])
      else (MultiSiteFailed, ["data sync failed"])
  else (MultiSiteFailed, ["data sync info is not present"]).

Definition zone_state (out : string) : MultisiteState :=
  let m := metadata_state out in
  let d := data_state out in
  mkMultisiteState m.1 d.1 (m.2 ++ d.2).

Definition getMultisiteSyncStatus (c : healthConfig) : IO (gmap string MultisiteState * list string) :=
  let* r := foldM (λ (acc : gmap string MultisiteState * list string) zz,
    let '(zone, zonegroup) := zz in
    let realm := default EmptyString (hc_zonegroups c !! zonegroup) in
    let cmd := "radosgw-admin sync status --rgw-realm=" +:+ realm +:+ " --rgw-zonegroup=" +:+ zonegroup
               +:+ " --rgw-zone=" +:+ zone in
    let* out := RunCephToolboxCLI rookNs cmd in
    match out with
    | (_, Some _) =>
        ret (acc.1, acc.2 ++ ["failed to run '" +:+ cmd +:+ "' command to check multisite status for zone '" +:+ zone +:+ "'"])
    | (text, None) =>
        let st := zone_state text in
        ret (<[zone := st]> acc.1,
             acc.2 ++ match ms_Messages st with [] => [] | _ => ["sync failed for zone '" +:+ zone +:+ "'"] end)
    end) (range 72 (hc_zones c)) (∅, []) in
  ret (r.1, SortStrings r.2).

Definition getRgwInfo (c : healthConfig) : IO (option RgwInfo * list string) :=
  if has_check rgwInfoCheck skip || bool_decide (hc_rgwOpts c = ∅) then ret (None, [])
  else
    let* ms :=
      if decide (hc_zones c = ∅) then ret (None, [])
      else let* m := getMultisiteSyncStatus c in ret (Some m.1, m.2) in
    let* ep := foldM (λ (acc : gmap string (list string) * list string) ro,
      let '(rgwName, opts) := ro in
      if ro_external opts then
        ret (if decide (ro_externalEndpoint opts = EmptyString) then acc
             else (<[rgwName := [ro_externalEndpoint opts]]> acc.1, acc.2))
      else
        let* e := getRgwPublicEndpoint rgwName in
        ret (match e.1 with [] => acc.1 | _ => <[rgwName := SortStrings e.1]> acc.1 end, acc.2 ++ e.2))
      (range 73 (hc_rgwOpts c)) (∅, []) in
    ret (Some (mkRgwInfo (Some ep.1) ms.1),
         ms.2 ++ ep.2 ++ (if decide (ep.1 = ∅)
                          then ["no any public endpoints found for accessing Ceph RGW instance(s)"] else [])).

(** ** The section of the report *)

Definition getClusterDetailsInfo (c : healthConfig) : IO (option (option ClusterDetails * list string)) :=
  let* u := getCephCapacityDetails in
  let* e := getCephEvents in
  let* s := checkReplicasSizing in
  match s with
  | None => ret None
  | Some replicasIssues =>
      let* r := getRgwInfo c in
      ret (Some (match u.1, e.1, r.1 with
                 | None, None, None => None
                 | usage, events, rgw => Some (mkClusterDetails usage events rgw)
                 end, SortStrings (u.2 ++ e.2 ++ replicasIssues ++ r.2)))
  end.
End details.
