(* ===== verification/HealthController.v ===== *)
(** * The health controller

    pkg/controller/health: deployment_verification.go puts the sections of the report
    together, controller.go reconciles a CephDeploymentHealth object every 30 seconds
    and writes its status. *)

From S2P Require Import Prelude GoTime Types HealthTypes World HealthWorld Controller DaemonsStatus Config NodeAnalysis RookObjects ClusterDetails.
Open Scope Z_scope.

Section health.
Context `{World} `{HealthWorld} `{MapRange}.
Variable depth : nat.
Variable lcmConfig : LcmConfig.
Let rookNs : string := lc_RookNamespace lcmConfig.

(** ** deployment_verification.go *)

Definition checkRookOperator (c : healthConfig) : IO DaemonStatus :=
  let* r := read "Deployment" rookNs RookCephOperatorName (λ h, w_deployment_object h rookNs RookCephOperatorName) in
  match r with
  | (_, Some _) =>
      ret (mkDaemonStatus DaemonStateFailed
             ["failed to get 'rook-ceph-operator' deployment in '" +:+ rookNs +:+ "' namespace"] [])
  | (deployment, None) =>
      if IsDeploymentReady deployment then ret (mkDaemonStatus DaemonStateOk [] [])
      else
        let* m := IsClusterMaintenanceActing (hc_namespace c) (hc_name c) in
        match m with
        | (_, Some _) => ret (mkDaemonStatus DaemonStateFailed ["failed to check CephDeploymentMaintenance state"] [])
        | (true, None) =>
            ret (mkDaemonStatus DaemonStateFailed []
                   ["deployment 'rook-ceph-operator' is scaled down due to maintenance mode"])
        | (false, None) =>
            ret (mkDaemonStatus DaemonStateFailed ["deployment 'rook-ceph-operator' is not ready"] [])
        end
  end.

(** The report and the issues; [None] for a panic. *)
Definition cephDeploymentVerification (c : healthConfig) : IO (option (CephDeploymentHealthReport * list string)) :=
  let* operator := checkRookOperator c in
  let* r := rookObjectsVerification lcmConfig c in
  let '(c, objects, objectsIssues) := r in
  match objects with
  | None => ret (Some (mkHealthReport operator None None None None, ds_Issues operator ++ objectsIssues))
  | Some _ =>
      match hc_cephCluster c with
      | None => ret None
      | Some cluster =>
          let* d := daemonsStatusVerification rookNs (checks_skip lcmConfig) c cluster in
          let* details := getClusterDetailsInfo depth lcmConfig c in
          match details with
          | None => ret None
          | Some (details, detailsIssues) =>
              let* a := getSpecAnalysisStatus depth lcmConfig (hc_namespace c) cluster in
              ret ((λ a : option OsdSpecAnalysisState * list string,
                      (mkHealthReport operator d.1 objects details a.1,
                       SortStrings (ds_Issues operator ++ objectsIssues ++ d.2 ++ detailsIssues ++ a.2))) <$> a)
          end
      end
  end.

(** ** controller.go *)

Definition health_status (old : CephDeploymentHealthStatus) (report : CephDeploymentHealthReport) (issues : list string)
    : CephDeploymentHealthStatus :=
  mkHealthStatus (match issues with [] => HealthStateOk | _ => HealthStateFailed end) (Some report)
    (hs_LastHealthCheck old) (hs_LastHealthUpdate old) issues.

(** The status to write: the old times are kept for the comparison; the time of the
    last update changes only with the rest of the status. *)
Definition new_health_status (old : CephDeploymentHealthStatus) (report : CephDeploymentHealthReport) (issues : list string)
    (timeNow : string) : CephDeploymentHealthStatus :=
  let newStatus := health_status old report issues in
  mkHealthStatus (hs_State newStatus) (hs_HealthReport newStatus) timeNow
    (if decide (old = newStatus) then hs_LastHealthUpdate old else timeNow) (hs_Issues newStatus).

(** Errors are logged. *)
Definition updateCephDeploymentHealthStatus (r : request) (report : CephDeploymentHealthReport) (issues : list string)
    : IO unit :=
  let ns := req_Namespace r in
  let name := req_Name r in
  let* g := read "CephDeploymentHealth (cache)" ns name (λ h, w_health_cached h ns name) in
  match g with
  | (_, Some _) => ret tt
  | (health, None) =>
      let* timeNow := GetCurrentTimeString in
      let status := new_health_status (chd_Status health) report issues timeNow in
      let* _ := call (EvHealthStatusUpdate ns name status) (λ h, w_health_update h ns name status) in
      ret tt
  end.

Definition healthRequeueAfterInterval : Z := 30 * second.

(** A round; [None] for a panic. *)
Definition health_Reconcile (r : request) : IO (option reconcile_result) :=
  match lc_HealthParams lcmConfig with
  | None => ret None
  | Some _ =>
      let ns := req_Namespace r in
      let name := req_Name r in
      let* g := read "CephDeploymentHealth" ns name (λ h, w_health_get h ns name) in
      match g with
      | (_, Some e) =>
          ret (Some (if is_not_found e then no_requeue else mkResult healthRequeueAfterInterval (Some e)))
      | (_, None) =>
          let* v := cephDeploymentVerification (mkHealthConfig name ns None ∅ ∅ ∅ ∅ ∅) in
          match v with
          | None => ret None
          | Some (report, issues) =>
              updateCephDeploymentHealthStatus r report issues ;;;
              ret (Some (mkResult healthRequeueAfterInterval None))
          end
      end
  end.
End health.

(** ** What the API server keeps of a report

    Optional maps are written with [omitempty]: an empty one is read back as the nil
    map. *)

Definition stored_map {A} (m : option (gmap string A)) : option (gmap string A) :=
  v ← m; if decide (map_to_list v = []) then None else Some v.

Definition stored_daemons (d : CephDaemonsStatus) : CephDaemonsStatus :=
  mkCephDaemonsStatus (stored_map (cds_CephDaemons d)) (stored_map (cds_CephCSIDaemons d)).

Definition stored_details (d : ClusterDetails) : ClusterDetails :=
  mkClusterDetails
    ((λ u, mkUsageDetails (stored_map (ud_ClassesDetail u)) (stored_map (ud_PoolsDetail u))) <$> cld_UsageDetails d)
    (cld_CephEvents d)
    ((λ r, mkRgwInfo (stored_map (ri_PublicEndpoints r)) (stored_map (ri_MultisiteDetails r))) <$> cld_RgwInfo d).

Definition stored_report (r : CephDeploymentHealthReport) : CephDeploymentHealthReport :=
  mkHealthReport (hr_RookOperator r) (stored_daemons <$> hr_CephDaemons r) (hr_RookCephObjects r)
    (stored_details <$> hr_ClusterDetails r) (hr_OsdAnalysis r).

Definition stored_health (s : CephDeploymentHealthStatus) : CephDeploymentHealthStatus :=
  mkHealthStatus (hs_State s) (stored_report <$> hs_HealthReport s) (hs_LastHealthCheck s) (hs_LastHealthUpdate s)
    (hs_Issues s).
