(* ===== verification/HealthFacts.v ===== *)
(** * The health controller: theorems

    What the status of a node's analysis means and what the task controller makes of it;
    waiting for reports; what a round writes and when it fails to. *)

From S2P Require Import Prelude GoTime Trace Types HealthTypes World Helpers TaskUtils SpecHandler Controller DiskDaemon DiskFacts Config ConfigFacts HealthWorld DaemonsStatus SpecAnalysis NodeAnalysis SpecAnalysisFacts RookObjects ClusterDetails HealthController.
Open Scope Z_scope.

Section analysis.
Context `{World} `{HealthWorld} `{MapRange}.
Variable depth : nat.
Variable lcmConfig : LcmConfig.

(** ** Waiting for a report *)

Definition query (ns node : string) : event := EvDiskDaemon ns node (report_cmd lcmConfig).

(** The daemon is asked once and then once more after each sleep. *)
Definition queries (ns node : string) (sleeps : nat) : list event :=
  concat (replicate sleeps [query ns node; EvSleep timeRetrySleep]) ++ [query ns node].

Lemma wait_report_runs ns node n prev :
  runs (wait_report lcmConfig ns node n prev) (λ res ev,
    ∃ sleeps, (sleeps ≤ n)%nat ∧ ev = queries ns node sleeps ∧
      match res with
      | inr report => ddr_State report = DiskDaemonStateOk
      | inl issue => issue = "disk report is not ready" → sleeps = n
      end).
Proof.
  revert prev. induction n as [|n IH]; intros prev h; cbn [wait_report];
    unfold RunAndParseDiskDaemonCLI, RunPodCmdAndCheckError, mbind', mret', call; cbn [fst snd];
    destruct (w_exec_daemon h ns node (report_cmd lcmConfig)) as [[out stdErr] [e|]]; cbn [fst snd];
    try (exists 0%nat; split_and!; [lia|done|done]);
    destruct (json_DaemonReport_into prev out) as [report [e|]]; cbn [fst snd];
    try (exists 0%nat; split_and!; [lia|done|done]);
    destruct (ddr_State report) eqn:Hst; cbn [fst snd]; try (exists 0%nat; split_and!; [lia|done|done]).
  all: unfold sleep, call; cbn [fst snd];
    match goal with |- context [wait_report _ _ _ _ ?rep ?h'] =>
      destruct (IH rep h') as (k & Hk & Hev & Hres); destruct (wait_report _ _ _ _ rep h') as [res ev]
    end;
    cbn [fst snd] in *; subst ev; exists (S k); split_and!; [lia|done|];
    destruct res; [|done]; intros Hi; by rewrite (Hres Hi).
Qed.

(** A disk daemon that is not ready is asked at most four times, five seconds apart;
    a report that is handed on is in the state ok, and "not ready" is said only after
    all four. *)
Theorem report_retries_bounded ns node h :
  let out := wait_report lcmConfig ns node 3 zero_report h in
  ∃ sleeps, (sleeps ≤ 3)%nat ∧ out.2 = queries ns node sleeps ∧
    match out.1 with
    | inr report => ddr_State report = DiskDaemonStateOk
    | inl issue => issue = "disk report is not ready" → sleeps = 3%nat
    end.
Proof. apply wait_report_runs. Qed.

(** ** Statuses of nodes *)

Lemma wait_report_spec ns node n prev :
  spec (λ _, True) (wait_report lcmConfig ns node n prev)
    (λ res, ∀ report, res = inr report → ddr_State report = DiskDaemonStateOk).
Proof.
  intros h. split; [|by apply Forall_true]. intros report Hr.
  destruct (wait_report_runs ns node n prev h) as (k & _ & _ & Hres). by rewrite Hr in Hres.
Qed.

Section verdicts.
Variables (ns : string) (cluster : CephCluster) (h0 : history).

(** What was found on the host of a node: the host was read, it has the label of the disk daemon
    and is available; the OSDs of the cluster were asked from Ceph, the disks of the host from its
    disk daemon, which has answered with a report that is ok; and on this report every device of
    the spec carries exactly as many OSDs of this cluster as the spec asks for. *)
Definition clean_node (node : CephNode) (h : history) : Prop :=
  cn_UseAllDevices node = false ∧ cn_VolumeClaimTemplates node = [] ∧
  ∃ host info report devs osds,
    asked h0 (EvRead "Node" EmptyString (cn_Name node)) (λ h, w_node_get h (cn_Name node)) (host, None) h ∧
    IsNodeWithDiskDaemon host (lc_DiskDaemonPlacementLabel lcmConfig) = true ∧ (IsNodeAvailable host).1 = true ∧
    passed h0 (getOsdClusterDetails (lc_RookNamespace lcmConfig) cluster) (Some (info, None)) h ∧
    passed h0 (wait_report lcmConfig ns (cn_Name node) 3 zero_report) (inr report) h ∧ ddr_State report = DiskDaemonStateOk ∧
    devices_to_analyse depth node (ddr_DisksReport report) = Some ([], devs) ∧ ddr_OsdsReport report = Some osds ∧
    (cn_Devices node ≠ [] → da_SpecifiedAs <$> devs = specified_as <$> cn_Devices node) ∧
    ∀ d, d ∈ devs → ∃ disks, ddr_DisksReport report = Some disks ∧
      da_OsdsPerDevice d = Z.of_nat (sum_list_with (osd_hits disks d (default ∅ (info !! cn_Name node)) osds)
                                       (default [] (dr_DiskToOsd disks !! da_Dev d))).

Definition verdict (node : CephNode) (st : DaemonStatus) (h : history) : Prop :=
  (ds_Status st = DaemonStateOk ∧ ds_Issues st = [] ∧ clean_node node h) ∨
  (ds_Status st = DaemonStateFailed ∧ ds_Issues st ≠ []) ∨
  (ds_Status st = DaemonStateSkipped ∧ ds_Issues st = []).

Lemma verdict_lasting node st : lasting (verdict node st).
Proof.
  apply or_lasting; [|apply pure_lasting]. do 2 (apply and_lasting; [apply pure_lasting|]).
  do 2 (apply and_lasting; [apply pure_lasting|]). do 5 (apply exists_lasting; intros ?).
  repeat first [apply and_lasting|apply asked_lasting|apply passed_lasting|apply pure_lasting].
Qed.

(** A clean analysis of the devices of a node. *)
Lemma analysis_found node report info ws extra :
  runSpecAnalysis depth node report info = Some ([], ws, extra) →
  ∃ devs osds, devices_to_analyse depth node (ddr_DisksReport report) = Some ([], devs) ∧ ddr_OsdsReport report = Some osds ∧
    (cn_Devices node ≠ [] → da_SpecifiedAs <$> devs = specified_as <$> cn_Devices node) ∧
    ∀ d, d ∈ devs → ∃ disks, ddr_DisksReport report = Some disks ∧
      da_OsdsPerDevice d = Z.of_nat (sum_list_with (osd_hits disks d info osds) (default [] (dr_DiskToOsd disks !! da_Dev d))).
Proof.
  intros (devs & osds & res & Hp & Ho & Hn & Hf & _)%runSpecAnalysis_clean. exists devs, osds.
  split_and!; [done|done| |by apply (analyse_devices_inv _ _ _ _ _ Ho Hf Hn)]. intros Hne.
  destruct (ddr_DisksReport report) as [disks|]; [by apply (spec_devices_valid depth node disks devs Hne Hp)|].
  unfold devices_to_analyse in Hp. by destruct (cn_Devices node).
Qed.

Abbreviation free := (λ (_ : history) (_ : event), True).

(** The OSDs of the cluster are known. *)
Definition informed (info : gmap string nodeDetails) (h : history) : Prop :=
  passed h0 (getOsdClusterDetails (lc_RookNamespace lcmConfig) cluster) (Some (info, None)) h ∧ h0 `prefix_of` h.

Lemma informed_lasting info : lasting (informed info).
Proof. apply and_lasting; [apply passed_lasting|apply prefix_lasting]. Qed.

Lemma node_verdict node info :
  traced free (informed info) (getNodeAnalyseStatus depth lcmConfig ns node info)
    (λ r h, (∀ st extra, r = Some (st, extra) → verdict node st h) ∧ informed info h).
Proof.
  assert (Hother : ∀ (Pre : history → Prop) (st : DaemonStatus) (extra : bool), (∀ h, Pre h → informed info h) →
    (ds_Status st = DaemonStateFailed ∧ ds_Issues st ≠ [] ∨ ds_Status st = DaemonStateSkipped ∧ ds_Issues st = []) →
    traced free Pre (ret (Some (st, extra))) (λ r h, (∀ st extra, r = Some (st, extra) → verdict node st h) ∧ informed info h)).
  { intros Pre st extra Hpre Hst. apply traced_ret. intros h Hh. split; [|by apply Hpre]. intros st' extra' [= <- _]. by right. }
  unfold getNodeAnalyseStatus. eapply traced_bind; [apply (traced_ask _ (informed info) h0); [apply informed_lasting|by intros h [_ Hh]|done]|].
  intros [host [e|]]; [apply Hother; [by intros h [_ Hh]|by left]|].
  destruct (IsNodeWithDiskDaemon host _) eqn:Hlabel; simpl; [|apply Hother; [by intros h [_ Hh]|by right]].
  destruct (IsNodeAvailable host) as [[] reason] eqn:Hav; [|apply Hother; [by intros h [_ Hh]|by left]].
  set (Pre := λ h, asked h0 (EvRead "Node" EmptyString (cn_Name node)) (λ h, w_node_get h (cn_Name node)) (host, None) h ∧ informed info h).
  assert (Hl : lasting Pre) by (apply and_lasting; [apply asked_lasting|apply informed_lasting]).
  eapply traced_bind; [apply (traced_and_spec _ _ (λ _, True)); [apply (wait_report_spec ns (cn_Name node) 3 zero_report)|];
    apply (traced_passed _ Pre (λ _, True) h0); [done|by intros h (_ & _ & Hh)|apply spec_triv|done]|].
  intros [issue|report]; [apply Hother; [by intros h (_ & _ & _ & Hh)|by left]|]. apply traced_pure. intros Hok.
  destruct (cn_UseAllDevices node) eqn:Hall; [apply Hother; [by intros h (_ & _ & Hh)|by right]|].
  destruct (bool_decide (cn_VolumeClaimTemplates node = [])) eqn:Hpvc; simpl; [|apply Hother; [by intros h (_ & _ & Hh)|by right]].
  apply bool_decide_eq_true in Hpvc. apply traced_ret. intros h (Hrep & Hhost & Hinfo). split; [|done].
  intros st extra ([[issues ws] x] & Hrun & [= <- _])%bind_Some. destruct issues as [|i il]; [|by right; left].
  left. split_and!; [done|done|]. unfold clean_node. split_and!; [done|done|].
  destruct (analysis_found _ _ _ _ _ Hrun) as (devs & osds & Hdevs & Hosds & Hspec & Hcount).
  exists host, info, report, devs, osds. rewrite Hav. split_and!; try done; [by destruct Hinfo|by apply Hok].
Qed.

Lemma statuses_of_elem rs n st : statuses_of rs !! n = Some st → ∃ r, r ∈ rs ∧ r.1 = n ∧ r.2.1 = st.
Proof.
  unfold statuses_of. induction rs as [|r rs IH] using rev_ind; [done|]. rewrite foldl_app. simpl.
  intros [[<- <-]|[_ Hl]]%lookup_insert_Some; [exists r; split; [apply elem_of_app; right; by apply list_elem_of_singleton|done]|].
  destruct (IH Hl) as (r0 & Hin & Hr). exists r0. split; [|done]. apply elem_of_app. by left.
Qed.

(** Every status is a verdict on a node of the spec. *)
Definition verdicts (statuses : gmap string DaemonStatus) (h : history) : Prop :=
  ∀ n st, statuses !! n = Some st → ∃ node, node ∈ cc_StorageNodes cluster ∧ cn_Name node = n ∧ verdict node st h.

Lemma prepared_verdicts info :
  traced free (informed info) (prepareSpecAnalysis depth lcmConfig ns cluster info)
    (λ r h, ∀ statuses issues, r = Some (statuses, issues) → verdicts statuses h).
Proof.
  unfold prepareSpecAnalysis. set (I := λ (acc : option (list node_result)) h, (∀ rs, acc = Some rs → ∀ r, r ∈ rs →
    ∃ node, node ∈ cc_StorageNodes cluster ∧ cn_Name node = r.1 ∧ verdict node r.2.1 h) ∧ informed info h).
  assert (HI : ∀ acc, lasting (λ h, ∀ rs : list node_result, acc = Some rs → ∀ r, r ∈ rs →
    ∃ node, node ∈ cc_StorageNodes cluster ∧ cn_Name node = r.1 ∧ verdict node r.2.1 h)).
  { intros acc h evs Hacc rs Hrs r Hr. destruct (Hacc rs Hrs r Hr) as (node & Hin & Hn & Hv). exists node.
    split_and!; [done|done|by apply verdict_lasting]. }
  apply (traced_bind _ _ _ _ I).
  - eapply traced_weaken; [apply (traced_foldM_inv _ _ I)|by intros h Hh; split; [intros rs [= <-] r []%elem_of_nil|]|done].
    intros node acc Hnode. destruct acc as [rs|]; [|by apply traced_ret].
    eapply traced_bind; [apply (traced_frame _ _ (informed info)); [apply (HI (Some rs))|apply node_verdict]|]. intros a. apply traced_ret.
    intros h (Hrs & Ha & Hh). split; [|done]. intros rs' ([st extra] & -> & ->)%fmap_Some r Hr.
    apply elem_of_app in Hr as [Hr|Hr]; [by apply (Hrs rs eq_refl)|]. apply list_elem_of_singleton in Hr as ->.
    exists node. split_and!; [|done|by apply (Ha st extra)].
    apply list_elem_of_In, filter_In in Hnode as [Hnode _]. by apply list_elem_of_In.
  - intros acc. apply traced_ret. intros h [Hacc _] statuses issues (rs' & -> & [= -> _])%fmap_Some n st Hn.
    destruct (statuses_of_elem _ _ _ Hn) as (r & Hr & <- & <-). by apply (Hacc rs' eq_refl).
Qed.

Lemma analysis_verdicts :
  traced free (λ h, h0 `prefix_of` h) (getSpecAnalysisStatus depth lcmConfig ns cluster)
    (λ r h, ∀ an issues, r = Some (Some an, issues) → verdicts (osa_SpecAnalysis an) h).
Proof.
  unfold getSpecAnalysisStatus. destruct (_ || _); [by apply traced_ret|].
  eapply traced_bind; [apply (traced_passed _ _ (λ _, True) h0); [apply prefix_lasting|done|apply spec_triv|done]|].
  intros [[info [e|]]|]; [by apply traced_ret| |by apply traced_ret].
  eapply traced_bind; [apply (traced_any (informed info)), informed_lasting|]. intros [daemon ready].
  destruct (decide (ready = 0)); [by apply traced_ret; intros h _ an iss [= <- _]|].
  destruct (decide (cc_StorageNodes cluster = [])); [by apply traced_ret; intros h _ an iss [= <- _]|].
  eapply traced_bind; [apply prepared_verdicts|]. intros p. apply traced_ret.
  intros h Hp an iss ([statuses pis] & -> & [= -> _])%fmap_Some. by apply (Hp statuses pis).
Qed.
End verdicts.

(** The task controller works on a host: on one its user has named, or while it looks for
    devices that are not in the spec. *)
Definition lets_through (c : cephOsdRemoveConfig) (host : string) (hi : osdHostInfo) : Prop :=
  (∃ asked_cleanup, verify_guards c host asked_cleanup hi = None) ∨ analysis_block c host = None.

(** C13: When the task controller works with an analysis the health controller has made, and does
    not skip a host that is in the spec, available and labelled for the disk daemon, then the
    analysis has, in that run, read the host and found it available and with the label, asked Ceph
    for the OSDs of the cluster and the disk daemon of this host for its report, which was ok; the
    storage spec names the host, neither with all its devices nor with claims, and every device it
    lists (or its filter selects) carries, by that report, exactly as many OSDs of this cluster as
    it asks for. A host of the spec that is not available or has no label is let through without
    an analysis by the checks on hosts the user has named. *)
Theorem analysis_gates_removal ns cluster h an issues c host hi :
  (getSpecAnalysisStatus depth lcmConfig ns cluster h).1 = Some (Some an, issues) →
  c_cephHealthOsdAnalysis c = an → hi_inSpec hi = true → hi_labeled hi = true → hi_available hi = true → lets_through c host hi →
  ∃ node, node ∈ cc_StorageNodes cluster ∧ cn_Name node = host ∧
    clean_node ns cluster h node (h ++ (getSpecAnalysisStatus depth lcmConfig ns cluster h).2).
Proof.
  intros Han Hc Hin Hlab Hav Hthrough.
  assert (Hblock : analysis_block c host = None).
  { destruct Hthrough as [[cleanup Hg]|Hb]; [|done]. unfold verify_guards in Hg. rewrite Hin, Hlab, Hav in Hg. simpl in Hg.
    by destruct (analysis_block c host). }
  unfold analysis_block in Hblock. rewrite Hc in Hblock.
  destruct (osa_SpecAnalysis an !! host) as [st|] eqn:Hst; [|done].
  destruct (proj1 (analysis_verdicts ns cluster h h (reflexivity h)) an issues Han host st Hst) as (node & Hnode & Hname & Hv).
  destruct (ds_Issues st) eqn:Hi; [|done]. destruct (decide _) as [Hsk|Hsk]; [done|].
  exists node. split_and!; [done..|]. destruct Hv as [(_ & _ & ?)|[[_ ?]|[? _]]]; [done| |done]. by rewrite Hi in *.
Qed.
End analysis.

(** ** The written status *)

Section status.
Implicit Types (old : CephDeploymentHealthStatus) (report : CephDeploymentHealthReport).

Lemma new_status_time old report issues now :
  hs_LastHealthUpdate (new_health_status old report issues now) = hs_LastHealthUpdate old ↔
  old = health_status old report issues ∨ now = hs_LastHealthUpdate old.
Proof. unfold new_health_status. simpl. destruct (decide _); naive_solver. Qed.

Lemma health_status_same old report issues :
  old = health_status old report issues ↔
  hs_HealthReport old = Some report ∧ hs_Issues old = issues ∧
  hs_State old = match issues with [] => HealthStateOk | _ => HealthStateFailed end.
Proof. destruct old as [st rep lc lu iss]. unfold health_status. simpl. naive_solver. Qed.

(** Two rounds with the same findings: the second one finds the status that the API
    server has kept of the first one. *)
Lemma second_round_time s0 report issues t1 t2 :
  let s1 := new_health_status s0 report issues t1 in
  let s2 := new_health_status (stored_health s1) report issues t2 in
  hs_LastHealthUpdate s2 = hs_LastHealthUpdate s1 ↔ stored_report report = report ∨ t2 = hs_LastHealthUpdate s1.
Proof.
  intros s1 s2. change (hs_LastHealthUpdate s1) with (hs_LastHealthUpdate (stored_health s1)).
  unfold s2. rewrite new_status_time, health_status_same.
  assert (Hrep : hs_HealthReport (stored_health s1) = Some (stored_report report)) by done.
  assert (Hiss : hs_Issues (stored_health s1) = issues) by done.
  assert (Hst : hs_State (stored_health s1) = match issues with [] => HealthStateOk | _ => HealthStateFailed end) by done.
  rewrite Hrep. split; [intros [([= Hr] & _)|Ht]; auto|]. intros [Hr|Ht]; [left; rewrite Hr; auto|auto].
Qed.

(** What a round writes: the state is ok exactly without issues, the time of the check
    is the present, and, when nothing was found to have changed since the last round, the
    time of the last update stays (or is the present anyway) exactly if no optional map of
    the report is empty, because the API server does not keep empty ones. *)
Theorem written_status s0 report issues t1 t2 :
  let s1 := new_health_status s0 report issues t1 in
  let s2 := new_health_status (stored_health s1) report issues t2 in
  (hs_State s2 = HealthStateOk ↔ issues = []) ∧ hs_HealthReport s2 = Some report ∧ hs_Issues s2 = issues ∧
  hs_LastHealthCheck s2 = t2 ∧
  (hs_LastHealthUpdate s2 = hs_LastHealthUpdate s1 ↔ stored_report report = report ∨ t2 = hs_LastHealthUpdate s1).
Proof. cbn zeta. split_and!; [by destruct issues|done..|apply second_round_time]. Qed.
End status.

(** On a cluster none of whose pools is reported, every round takes the status for
    changed: the time of the last update is always the present. *)
Theorem no_pools_always_updated `{World} `{HealthWorld} lcmConfig details report clusterDetails s0 issues t1 t2 :
  cd_Pools details = [] →
  hr_ClusterDetails report = Some clusterDetails → cld_UsageDetails clusterDetails = Some (usage_details lcmConfig details) →
  let s1 := new_health_status s0 report issues t1 in
  hs_LastHealthUpdate (new_health_status (stored_health s1) report issues t2) = t2.
Proof.
  intros Hp Hd Hu s1. unfold new_health_status at 1. simpl. destruct (decide _) as [Heq|]; [|done]. exfalso.
  apply health_status_same in Heq as (Hrep & _). simpl in Hrep. injection Hrep as Hrep.
  apply (f_equal hr_ClusterDetails) in Hrep. simpl in Hrep. rewrite Hd in Hrep. simpl in Hrep. injection Hrep as Hrep.
  apply (f_equal cld_UsageDetails) in Hrep. simpl in Hrep. rewrite Hu in Hrep. simpl in Hrep. injection Hrep as _ Hrep.
  by rewrite Hp in Hrep.
Qed.

(** ** Clusters without a Ceph status *)

Lemma osd_devices_map_no_fsid mds infos : osd_devices_map None mds infos = match mds with [] => Some ∅ | _ => None end.
Proof.
  unfold osd_devices_map. destruct mds as [|md mds]; [done|]. simpl.
  generalize (zip (seq 1 (length mds)) mds). intros l. by induction l.
Qed.

(** A CephCluster with a version but no Ceph status is passed on to the analysis of the
    spec (with an issue), which then dereferences the missing status as soon as Ceph reports
    an OSD: the round ends in a panic and no status is written. *)
Theorem missing_ceph_status_panics `{World} `{HealthWorld} `{MapRange} depth lcmConfig ns cluster h mds infos :
  cls_CephStatus (cc_Status cluster) = None → cc_External cluster = false →
  has_check specAnalysisCheck (checks_skip lcmConfig) = false →
  let rookNs := lc_RookNamespace lcmConfig in
  let metadata := RunAndParseCephToolboxCLI [] json_OsdMetadata rookNs "ceph osd metadata -f json" h in
  let info := RunAndParseCephToolboxCLI [] json_OsdInfos rookNs "ceph osd info -f json" (h ++ metadata.2) in
  metadata.1 = (mds, None) → mds ≠ [] → info.1 = (infos, None) →
  (getSpecAnalysisStatus depth lcmConfig ns cluster h).1 = None.
Proof.
  intros Hstatus Hext Hskip rookNs metadata info Hm Hne Hi. unfold getSpecAnalysisStatus. rewrite Hext, Hskip. cbn [orb].
  rewrite (bind_fst _ _ _ None); [done|].
  unfold getOsdClusterDetails. rewrite (bind_fst _ _ _ _ Hm), (bind_fst _ _ _ _ Hi).
  unfold cc_CephStatusFSID, mret'. rewrite Hstatus. cbn [fst fmap option_fmap option_map].
  rewrite osd_devices_map_no_fsid. by destruct mds.
Qed.

(** ** The health controller only looks

    A round of the health controller reads objects, runs Ceph commands that only query,
    asks the disk daemons for their reports, and writes the status of its own object. *)

(** The queries. *)
Definition query_cmd (cmd : string) : bool :=
  bool_decide (cmd ∈ ["ceph osd metadata -f json"; "ceph osd info -f json"; "ceph status -f json"; "ceph mgr dump -f json";
                      "ceph df -f json"; "ceph osd tree -f json"; "ceph osd pool ls detail -f json";
                      "ceph osd crush rule dump -f json"]) ||
  HasPrefix cmd "radosgw-admin sync status ".

Definition health_event (lcmConfig : LcmConfig) (r : request) (e : event) : Prop :=
  match e with
  | EvCeph ns cmd => ns = lc_RookNamespace lcmConfig ∧ query_cmd cmd = true
  | EvDiskDaemon ns _ cmd => ns = req_Namespace r ∧ cmd = report_cmd lcmConfig
  | EvRead _ _ _ | EvClusterGet _ _ | EvClock => True
  | EvSleep d => d = timeRetrySleep
  | EvHealthStatusUpdate ns name _ => ns = req_Namespace r ∧ name = req_Name r
  | _ => False
  end.

Section safety.
Context `{World} `{HealthWorld} `{MapRange}.
Variable depth : nat.
Variable lcmConfig : LcmConfig.
Variable r : request.
Let rookNs : string := lc_RookNamespace lcmConfig.
Let P : event → Prop := health_event lcmConfig r.

(** Whatever the result is. *)
Abbreviation safe m := (spec P m (λ _, True)).

Lemma ceph_safe {A} (zero : A) decode cmd : query_cmd cmd = true → safe (RunAndParseCephToolboxCLI zero decode rookNs cmd).
Proof.
  intros Hc. unfold RunAndParseCephToolboxCLI, RunCephToolboxCLI, RunPodCmdAndCheckError.
  apply spec_bind_any; [|by intros [? []]; [apply spec_ret|case_match; case_match; apply spec_ret]].
  apply spec_bind_any; [|by intros [[??] []]; apply spec_ret].
  apply spec_bind_any; [by apply spec_call|]. by intros [[??] []]; apply spec_ret.
Qed.

Lemma ceph_cli_safe cmd : query_cmd cmd = true → safe (RunCephToolboxCLI rookNs cmd).
Proof.
  intros Hc. unfold RunCephToolboxCLI, RunPodCmdAndCheckError.
  apply spec_bind_any; [|by intros [[??] []]; apply spec_ret].
  apply spec_bind_any; [by apply spec_call|]. by intros [[??] []]; apply spec_ret.
Qed.

Lemma read_safe {A} kind ns name (f : history → A) : safe (read kind ns name f).
Proof. by apply spec_call. Qed.

Lemma ret_safe {A} (a : A) : safe (mret' a).
Proof. by apply spec_ret. Qed.

Lemma fold_safe {A S} (f : S → A → IO S) l s : (∀ a s, safe (f s a)) → safe (foldM f l s).
Proof. intros Hf. apply spec_foldM_inv; [done|]. intros a s' _ _. apply Hf. Qed.

Hint Resolve ceph_safe ceph_cli_safe read_safe ret_safe : spec.

(** Goes through binds and case distinctions. *)
Ltac safe_step :=
  match goal with
  | |- spec _ (mret' _) _ => by apply spec_ret
  | |- spec _ (mbind' _ _) _ => apply spec_bind_any; [|intros ?]
  | |- spec _ (foldM _ _ _) _ => apply fold_safe; intros ? ?
  | |- spec _ (let '(_, _) := ?x in _) _ => destruct x
  | |- spec _ (match ?x with _ => _ end) _ => destruct x
  | |- spec _ _ _ => solve [eauto with spec]
  end.
Ltac safe := repeat safe_step.

Lemma daemonset_safe ns name : safe (getDaemonSetStatus ns name).
Proof. unfold getDaemonSetStatus. safe. Qed.
Lemma deployment_safe ns name : safe (getDeploymentStatus ns name).
Proof. unfold getDeploymentStatus. safe. Qed.
Hint Resolve daemonset_safe deployment_safe : spec.

Lemma csi_driver_safe node controller acc : safe (csi_driver rookNs node controller acc).
Proof. unfold csi_driver. safe. Qed.
Hint Resolve csi_driver_safe : spec.

Lemma daemons_safe skip c cluster : safe (daemonsStatusVerification rookNs skip c cluster).
Proof.
  unfold daemonsStatusVerification, getCephDaemonsStatus, getCSIDaemonsStatus. safe.
Qed.

(** The checks of Rook objects keep the namespace they are made for. *)
Definition keeps (c c' : healthConfig) : Prop := hc_namespace c' = hc_namespace c.

Lemma objects_keep {A} resource kind phases (l : history → list A * option err) object collect c :
  (∀ c a, keeps c (collect c a)) →
  spec P (check_objects lcmConfig resource kind phases l object collect c) (λ x, keeps c x.1).
Proof.
  intros Hk. unfold check_objects. apply spec_bind_any; [apply read_safe|]. intros [items [e|]]; apply spec_ret; [done|].
  simpl. unfold keeps in *. revert c. induction items as [|a items IH]; intros c; simpl; [done|]. by rewrite IH.
Qed.

Lemma cluster_keeps c : spec P (checkCephCluster lcmConfig c) (λ x, keeps c x.1.1).
Proof.
  unfold checkCephCluster. apply spec_bind_any; [by apply spec_call|]. intros [cluster [e|]]; [by apply spec_ret|].
  destruct (cls_CephVersion _); [|by apply spec_ret]. destruct (skipClusterVerification _); [by apply spec_ret|].
  apply spec_bind_any; [|intros ?; by apply spec_ret]. unfold checkClusterStatus, checkStatusIsNotUpdated. safe.
  by apply spec_call.
Qed.
Hint Resolve daemons_safe : spec.

Lemma rook_objects_keep c : spec P (rookObjectsVerification lcmConfig c) (λ x, keeps c x.1.1).
Proof.
  unfold rookObjectsVerification, keeps. eapply spec_bind; [apply cluster_keeps|].
  intros [[c1 [st|]] issues] Hc; [|by apply spec_ret]. simpl in Hc.
  assert (Hobj : ∀ {A B} (m : healthConfig → IO (healthConfig * A)) (k : healthConfig * A → IO B) Q,
    (∀ c, spec P (m c) (λ x, keeps c x.1)) →
    (∀ c' a, keeps c c' → spec P (k (c', a)) Q) → ∀ c', keeps c c' → spec P (mbind' (m c') k) Q).
  { intros A B m k Q Hm Hk c' Hc'. eapply spec_bind; [apply Hm|]. intros [c2 a] Hc2. apply Hk. unfold keeps in *. simpl in Hc2. congruence. }
  revert c1 Hc. do 8 (apply Hobj; [intros ?; apply objects_keep; intros ??; repeat case_match; done|intros c1 ?; revert c1]).
  intros c1 Hc. by apply spec_ret.
Qed.

Lemma source_safe {A} enabled kind failed selector (l : history → list A * option err) f next :
  safe next → safe (ask_source lcmConfig enabled kind failed selector l f next).
Proof. intros Hn. unfold ask_source. safe. Qed.
Hint Resolve source_safe : spec.

Lemma endpoint_safe rgw : safe (getRgwPublicEndpoint lcmConfig rgw).
Proof. unfold getRgwPublicEndpoint. safe. Qed.

Lemma multisite_safe c : safe (getMultisiteSyncStatus lcmConfig c).
Proof.
  unfold getMultisiteSyncStatus. apply spec_bind_any; [|intros ?; apply ret_safe]. apply fold_safe. intros [zone zonegroup] acc.
  apply spec_bind_any; [by apply ceph_cli_safe|]. intros ?. safe.
Qed.
Hint Resolve endpoint_safe multisite_safe : spec.

Lemma details_safe c : safe (getClusterDetailsInfo depth lcmConfig c).
Proof.
  unfold getClusterDetailsInfo, getCephCapacityDetails, getCephEvents, checkReplicasSizing, getRgwInfo. safe.
Qed.

Lemma report_safe node n prev : safe (wait_report lcmConfig (req_Namespace r) node n prev).
Proof.
  revert prev. induction n as [|n IH]; intros prev; cbn [wait_report];
    unfold RunAndParseDiskDaemonCLI, RunPodCmdAndCheckError; safe; try (by apply spec_call); apply IH.
Qed.
Hint Resolve details_safe report_safe : spec.

Lemma analysis_safe cluster : safe (getSpecAnalysisStatus depth lcmConfig (req_Namespace r) cluster).
Proof.
  unfold getSpecAnalysisStatus, getOsdClusterDetails, prepareSpecAnalysis, getNodeAnalyseStatus, GetNode. safe.
Qed.

Lemma operator_safe c : safe (checkRookOperator lcmConfig c).
Proof. unfold checkRookOperator, IsClusterMaintenanceActing. safe. Qed.
Hint Resolve analysis_safe operator_safe : spec.

Lemma verification_safe c :
  hc_namespace c = req_Namespace r → safe (cephDeploymentVerification depth lcmConfig c).
Proof.
  intros Hns. unfold cephDeploymentVerification. apply spec_bind_any; [apply operator_safe|]. intros operator.
  eapply spec_bind; [apply rook_objects_keep|]. intros [[c' [objects|]] issues] Hk; [|apply ret_safe].
  simpl in Hk. unfold keeps in Hk. rewrite Hk, Hns. destruct (hc_cephCluster c'); safe.
Qed.

(** C37: a round of the health controller changes nothing but the status of its own object:
    its Ceph commands are queries, and the daemons are only asked for reports. *)
Theorem health_round_readonly h : Forall (health_event lcmConfig r) (health_Reconcile depth lcmConfig r h).2.
Proof.
  assert (Hs : safe (health_Reconcile depth lcmConfig r)); [|apply Hs].
  unfold health_Reconcile, updateCephDeploymentHealthStatus, GetCurrentTimeString.
  destruct (lc_HealthParams lcmConfig); [|apply ret_safe].
  apply spec_bind_any; [apply read_safe|]. intros [? [e|]]; [apply ret_safe|].
  apply spec_bind_any; [by apply verification_safe|]. intros [[report issues]|]; safe; by apply spec_call.
Qed.
End safety.
