(* ===== verification/ReplicasFacts.v ===== *)
(** * Counting failure domains

    [countDomainsAndClasses] walks through the output of [ceph osd tree] by identifiers and
    updates one map of counters on the way.  Here it is compared with counting on the tree
    itself: for a device class, the buckets of a type that have a usable OSD of the class
    below them. *)

From Stdlib Require Import QArith.
From S2P Require Import Prelude GoTime Types HealthTypes World HealthWorld DaemonsStatus Config ClusterDetails.
Open Scope Z_scope.

(** ** The tree *)

Inductive ctree :=
| CMissing (id : Z)
| COsd (n : OsdTreeNode)
| CBucket (n : OsdTreeNode) (ts : list ctree).

Lemma ctree_ind' (P : ctree → Prop) :
  (∀ id, P (CMissing id)) → (∀ n, P (COsd n)) → (∀ n ts, Forall P ts → P (CBucket n ts)) → ∀ t, P t.
Proof.
  intros H1 H2 H3. fix IH 1. intros [id|n|n ts]; [apply H1|apply H2|apply H3].
  revert ts. fix IHts 1. intros [|t ts]; constructor; [apply IH|apply IHts].
Qed.

(** The tree that is unfolded below an identifier. *)
Inductive tree_of (nodes : list OsdTreeNode) : Z → ctree → Prop :=
| to_missing id :
    list_find (λ n, tn_ID n = id) nodes = None → tree_of nodes id (CMissing id)
| to_osd id i n :
    list_find (λ n, tn_ID n = id) nodes = Some (i, n) → tn_Type n = "osd" → tree_of nodes id (COsd n)
| to_bucket id i n ts :
    list_find (λ n, tn_ID n = id) nodes = Some (i, n) → tn_Type n ≠ "osd" →
    Forall2 (tree_of nodes) (tn_Children n) ts → tree_of nodes id (CBucket n ts).

Fixpoint height (t : ctree) : nat :=
  match t with CBucket _ ts => S (max_list_with height ts) | _ => 1 end.

(** ** Counting on the tree *)

Definition osd_of_class (class : string) (n : OsdTreeNode) : bool :=
  osd_usable n && negb (bool_decide (tn_DeviceClass n = EmptyString)) && bool_decide (tn_DeviceClass n = class).

(** A usable OSD of the class is in the tree. *)
Fixpoint has_class (class : string) (t : ctree) : bool :=
  match t with
  | CMissing _ => false
  | COsd n => osd_of_class class n
  | CBucket _ ts => existsb (has_class class) ts
  end.

Definition one_if (b : bool) : Z := if b then 1 else 0.

Fixpoint sum_Z {A} (f : A → Z) (l : list A) : Z :=
  match l with [] => 0 | a :: l' => f a + sum_Z f l' end.

(** OSDs of the class, or buckets of the type with such an OSD below. *)
Fixpoint ref_count (class type : string) (t : ctree) : Z :=
  match t with
  | CMissing _ => 0
  | COsd n => one_if (osd_of_class class n && bool_decide (type = "osd"))
  | CBucket n ts =>
      sum_Z (ref_count class type) ts + one_if (existsb (has_class class) ts && bool_decide (type = tn_Type n))
  end.

(** ** Counters *)

Lemma bump_count class type m class' type' :
  domain_count (bump class type m) class' type' =
  domain_count m class' type' + one_if (bool_decide (class' = class) && bool_decide (type' = type)).
Proof.
  unfold bump, domain_count. destruct (decide (class' = class)) as [->|Hc].
  - rewrite lookup_insert_eq. cbn [mbind option_bind]. destruct (decide (type' = type)) as [->|Ht].
    + rewrite lookup_insert_eq. repeat case_bool_decide; done.
    + rewrite lookup_insert_ne by done. repeat case_bool_decide; try done.
      destruct (m !! class); simpl; [lia|]. rewrite lookup_empty. simpl. lia.
  - rewrite lookup_insert_ne by done. case_bool_decide; [done|]. simpl. lia.
Qed.

Lemma bumps_count classes type m class' type' :
  NoDup classes →
  domain_count (foldl (λ m class, bump class type m) m classes) class' type' =
  domain_count m class' type' + one_if (bool_decide (class' ∈ classes) && bool_decide (type' = type)).
Proof.
  revert m. induction classes as [|a classes IH]; intros m Hnd; cbn [foldl].
  { rewrite bool_decide_false by apply not_elem_of_nil. simpl. lia. }
  apply NoDup_cons in Hnd as [Hni Hnd]. rewrite IH, bump_count by done.
  destruct (decide (class' = a)) as [->|Hne].
  - rewrite (bool_decide_false (a ∈ classes)), (bool_decide_true (a = a)), (bool_decide_true (a ∈ a :: classes))
      by (done || by left). simpl. lia.
  - rewrite (bool_decide_false (class' = a)) by done. simpl.
    rewrite (bool_decide_ext (class' ∈ a :: classes) (class' ∈ classes)) by (rewrite elem_of_cons; naive_solver). lia.
Qed.

(** ** Equivalence *)

Section equivalence.
Context `{MapRange}.
Variable nodes : list OsdTreeNode.

Definition counted (t : ctree) (m : domain_counts) (r : domain_counts * list string) : Prop :=
  NoDup r.2 ∧ (∀ c, c ∈ r.2 ↔ has_class c t = true) ∧
  (∀ c ty, domain_count r.1 c ty = domain_count m c ty + ref_count c ty t).

(** The classes collected in the set of the loop over the children. *)
Lemma collect_classes (s : gmap string bool) l c :
  is_Some (foldl (λ s class, <[class := true]> s) s l !! c) ↔ is_Some (s !! c) ∨ c ∈ l.
Proof.
  revert s. induction l as [|a l IH]; intros s; simpl; [by rewrite elem_of_nil; naive_solver|].
  rewrite IH, lookup_insert_is_Some', elem_of_cons. naive_solver.
Qed.

Lemma children_counted depth ids ts m (s : gmap string bool) :
  Forall2 (tree_of nodes) ids ts →
  Forall (λ t, ∀ m id, tree_of nodes id t → ∃ r, countDomainsAndClasses depth nodes m id = Some r ∧ counted t m r) ts →
  ∃ m' (s' : gmap string bool),
    foldl (λ acc id, st ← acc; r ← countDomainsAndClasses depth nodes st.1 id;
             Some (r.1, foldl (λ s class, <[class := true]> s) st.2 r.2)) (Some (m, s)) ids = Some (m', s') ∧
    (∀ c, is_Some (s' !! c) ↔ is_Some (s !! c) ∨ existsb (has_class c) ts = true) ∧
    (∀ c ty, domain_count m' c ty = domain_count m c ty + sum_Z (ref_count c ty) ts).
Proof.
  intros Hts. revert m s. induction Hts as [|id t ids ts Ht Hts IH]; intros m s Hall.
  { exists m, s. split_and!; [done|naive_solver|intros; simpl; lia]. }
  apply Forall_cons in Hall as [Hhd Htl]. destruct (Hhd m id Ht) as ([m1 classes] & Heq & _ & Hcl & Hcnt). simpl in *.
  rewrite Heq. simpl. destruct (IH m1 (foldl (λ s class, <[class := true]> s) s classes) Htl) as (m' & s' & Hf & Hs & Hm).
  exists m', s'. split_and!; [exact Hf| |].
  - intros c. rewrite Hs, collect_classes, Hcl, orb_true_iff. naive_solver.
  - intros c ty. rewrite Hm, Hcnt. lia.
Qed.

Lemma count_counted t depth m id :
  tree_of nodes id t → (height t ≤ depth)%nat →
  ∃ r, countDomainsAndClasses depth nodes m id = Some r ∧ counted t m r.
Proof.
  revert depth m id. induction t as [id'|n|n ts IH] using ctree_ind'; intros depth m id Ht Hd;
    (destruct depth as [|depth]; [simpl in Hd; lia|]); inversion Ht as [? Hf|? i ? Hf Ho|? i ? ? Hf Hne Hch]; subst;
    cbn [countDomainsAndClasses]; rewrite Hf.
  - eexists. split; [done|]. split_and!; [constructor|intros c; by rewrite elem_of_nil|intros; simpl; lia].
  - rewrite decide_True by done. eexists. split; [done|]. unfold counted, osd_of_class. simpl.
    destruct (osd_usable n && negb (bool_decide (tn_DeviceClass n = ""))) eqn:Hu; simpl.
    + split_and!; [by apply NoDup_singleton| |].
      * intros c. rewrite list_elem_of_singleton. unfold osd_of_class. rewrite Hu, andb_true_l, bool_decide_eq_true. naive_solver.
      * intros c ty. rewrite bump_count. unfold osd_of_class. rewrite Hu. simpl.
        by rewrite (bool_decide_ext (c = tn_DeviceClass n) (tn_DeviceClass n = c)) by naive_solver.
    + split_and!; [constructor|intros c; rewrite elem_of_nil; unfold osd_of_class; by rewrite Hu|].
      intros c ty. unfold osd_of_class. rewrite Hu. simpl. lia.
  - rewrite decide_False by done.
    destruct (children_counted depth (tn_Children n) ts m ∅ Hch) as (m' & s' & Hfold & Hs & Hm).
    { rewrite Forall_forall in *. intros t Hin m0 id0 Ht0. apply IH; [done..|]. simpl in Hd.
      assert (height t ≤ max_list_with height ts)%nat; [|lia]. clear -Hin.
      induction ts as [|t' ts IHts]; [by apply elem_of_nil in Hin|]. simpl.
      apply elem_of_cons in Hin as [->|Hin]; [lia|]. specialize (IHts Hin). lia. }
    rewrite Hfold. simpl. eexists. split; [done|].
    assert (Hcls : ∀ c, c ∈ (range 70 s').*1 ↔ existsb (has_class c) ts = true).
    { intros c. rewrite list_elem_of_fmap. split.
      - intros ([k v] & -> & Hin%elem_of_range). simpl. destruct (proj1 (Hs k)) as [[? ?%lookup_empty_Some]|?]; [by rewrite Hin|done|done].
      - intros Hc. destruct (proj2 (Hs c) (or_intror Hc)) as [v Hv]. exists (c, v). split; [done|]. by apply elem_of_range. }
    split_and!; [apply NoDup_range_keys|exact Hcls|].
    intros c ty. simpl. rewrite bumps_count by apply NoDup_range_keys. rewrite Hm. simpl.
    assert (bool_decide (c ∈ (range 70 s').*1) = existsb (has_class c) ts) as ->; [|lia].
    apply eq_true_iff_eq. by rewrite bool_decide_eq_true.
Qed.

(** Walking through the nodes by their identifiers counts what is there in the tree: when
    the tree below a node is no higher than the stack allows, the walk ends, the classes it
    returns are those of the usable OSDs below, each once, and every counter has grown by the
    number of OSDs, or of buckets with an OSD of the class below, whatever it started from
    and in whatever order maps are visited. *)
Theorem failure_domains_counted t depth m id :
  tree_of nodes id t → (height t ≤ depth)%nat →
  ∃ m' classes, countDomainsAndClasses depth nodes m id = Some (m', classes) ∧
    NoDup classes ∧ (∀ c, c ∈ classes ↔ has_class c t = true) ∧
    (∀ c ty, domain_count m' c ty = domain_count m c ty + ref_count c ty t).
Proof.
  intros Ht Hd. destruct (count_counted t depth m id Ht Hd) as ([m' classes] & Heq & Hc). by exists m', classes.
Qed.

Lemma pool_issue_iff counts pool domain class :
  0 < pl_Size pool → domain ≠ EmptyString → class ≠ EmptyString →
  pool_issue counts pool domain class = [] ↔ pl_Size pool ≤ domain_count counts class domain.
Proof.
  intros Hs Hd Hc. unfold pool_issue, domain_count. rewrite decide_False by (by intros []).
  destruct (counts !! class) as [info|]; simpl; [|split; [done|lia]].
  destruct (info !! domain) as [n|]; simpl; [|split; [done|lia]].
  destruct (decide (n < pl_Size pool)); (split; [done|lia]) || (split; [lia|done]).
Qed.

(** A pool with a device class and a failure domain has no issue exactly when the tree
    below the root has at least as many of these domains, with a usable OSD of the class
    in each, as the pool has replicas. *)
Theorem replicas_issue_iff depth i root t rules pool domain class :
  list_find (λ n, tn_Type n = "root") nodes = Some (i, root) →
  tree_of nodes (tn_ID root) t → (height t ≤ depth)%nat →
  pool_rule rules pool = Some (domain, class) → domain ≠ EmptyString → class ≠ EmptyString → 0 < pl_Size pool →
  ∃ counts issues, device_classes depth nodes = Some counts ∧ pools_issues counts rules [pool] = Some issues ∧
    (issues = [] ↔ pl_Size pool ≤ ref_count class domain t).
Proof.
  intros Hroot Ht Hd Hrule Hdom Hcls Hsize. destruct (count_counted t depth ∅ _ Ht Hd) as ([m classes] & Heq & _ & _ & Hcnt).
  exists m, (pool_issue m pool domain class). unfold device_classes, pools_issues. rewrite Hroot, Heq. simpl. rewrite Hrule.
  split_and!; [done..|]. rewrite pool_issue_iff by done. simpl in Hcnt. rewrite Hcnt. by unfold domain_count; rewrite lookup_empty.
Qed.
End equivalence.

(** ** A small tree *)

Definition demo_osd_node (id : Z) (class status : string) : OsdTreeNode :=
  mkOsdTreeNode id ("osd." +:+ pretty id) "osd" [] class status 1 1.

Definition demo_crush_nodes : list OsdTreeNode :=
  [mkOsdTreeNode (-1) "default" "root" [-2; -3] "" "" 1 1; mkOsdTreeNode (-2) "node-1" "host" [0; 1] "" "" 1 1;
   mkOsdTreeNode (-3) "node-2" "host" [2; 7] "" "" 1 1;
   demo_osd_node 0 "hdd" "up"; demo_osd_node 1 "ssd" "up"; demo_osd_node 2 "hdd" "down"].

Definition demo_ctree : ctree :=
  CBucket (mkOsdTreeNode (-1) "default" "root" [-2; -3] "" "" 1 1)
    [CBucket (mkOsdTreeNode (-2) "node-1" "host" [0; 1] "" "" 1 1) [COsd (demo_osd_node 0 "hdd" "up"); COsd (demo_osd_node 1 "ssd" "up")];
     CBucket (mkOsdTreeNode (-3) "node-2" "host" [2; 7] "" "" 1 1) [COsd (demo_osd_node 2 "hdd" "down"); CMissing 7]].

Lemma demo_tree_of : tree_of demo_crush_nodes (-1) demo_ctree.
Proof.
  repeat first
    [eapply to_osd; [reflexivity|reflexivity]|apply to_missing; reflexivity|eapply to_bucket; [reflexivity|done|]
    |apply Forall2_cons; split|apply Forall2_nil; done].
Qed.

Lemma failure_domains_counted_witness :
  ∃ m' classes, @countDomainsAndClasses default_range 3 demo_crush_nodes ∅ (-1) = Some (m', classes) ∧
    domain_count m' "hdd" "host" = 1 ∧ "ssd" ∈ classes.
Proof.
  destruct (@failure_domains_counted default_range demo_crush_nodes demo_ctree 3 ∅ (-1)) as (m' & classes & Heq & _ & Hc & Hm);
    [exact demo_tree_of|by vm_compute|].
  exists m', classes. split_and!; [exact Heq|by rewrite Hm|by apply Hc].
Defined.

Lemma replicas_issue_iff_witness :
  let pool := mkPoolLs "pool" 2 0 in
  let rules := [mkCrushRule "rule" 0 [{["item_name" := JString "default~hdd"]}; {["type" := JString "host"]}]] in
  ∃ counts issues, @device_classes default_range 3 demo_crush_nodes = Some counts ∧
    pools_issues counts rules [pool] = Some issues ∧ issues ≠ [].
Proof.
  intros pool rules.
  destruct (@replicas_issue_iff default_range demo_crush_nodes 3 0
              (mkOsdTreeNode (-1) "default" "root" [-2; -3] "" "" 1 1) demo_ctree rules pool "host" "hdd")
    as (counts & issues & Hc & Hi & Hiff); [vm_compute; reflexivity|exact demo_tree_of|by vm_compute|vm_compute; reflexivity|done|done|done|].
  exists counts, issues. split_and!; [exact Hc|exact Hi|]. intros Hnil. apply Hiff in Hnil. revert Hnil. clear. vm_compute. intros Hn. by apply Hn.
Defined.
