(* ===== verification/HealthDemo.v ===== *)
(** * A cluster for the health controller

    A node with one disk and one OSD, a healthy Rook cluster around it, and runs of the
    health controller on it. *)

From Stdlib Require Import QArith.
From S2P Require Import Prelude GoTime Types HealthTypes World HealthWorld TaskUtils Demo SpecHandler Controller DaemonsStatus Helpers DiskDaemon DiskFacts Config ConfigFacts SpecAnalysis NodeAnalysis SpecAnalysisFacts RookObjects ClusterDetails HealthController HealthFacts.
Open Scope Z_scope.

(** ** The node *)

Definition sda : BlockDeviceInfo := mkBlockDeviceInfo "/dev/sda" "" "disk" "" false "8:0" ["/dev/disk/by-id/a"] [] ["/dev/sda1"].
Definition sda1 : BlockDeviceInfo := mkBlockDeviceInfo "/dev/sda1" "" "part" "" false "8:1" [] ["/dev/sda"] [].
Definition sdb : BlockDeviceInfo := mkBlockDeviceInfo "/dev/sdb" "" "disk" "" false "8:16" [] [] [].

Definition demo_disks : DiskDaemonDisksReport :=
  mkDisksReport {["/dev/sda" := sda; "/dev/sda1" := sda1; "/dev/sdb" := sdb]}
    {["/dev/sda" := "/dev/sda"; "/dev/disk/by-id/a" := "/dev/sda"; "/dev/sda1" := "/dev/sda1"; "/dev/sdb" := "/dev/sdb"]}
    {["/dev/sda" := ["0"]]}.

(** A volume of OSD 0 on the given partition. *)
Definition demo_volume (partition : string) : OsdDaemonInfo :=
  mkOsdDaemonInfo "uuid-0" "fsid" [mkOsdDevice "/dev/sda" "a" [] false partition "" false]
    [mkOsdPartition partition [] "block" true false].

Definition demo_node_report (partition : string) : DiskDaemonReport :=
  mkDiskDaemonReport DiskDaemonStateOk "" [] (Some demo_disks)
    (Some (mkOsdsReport [] {["0" := [demo_volume partition]]})).

(** The node of the spec, with its devices. *)
Definition spec_node (devices : list CephDevice) : CephNode := mkCephNode "node-1" ∅ devices "" "" false [].
Definition named (name : string) : CephDevice := mkCephDevice name "" ∅.
Definition with_metadata (name meta : string) : CephDevice := mkCephDevice name "" {["metadataDevice" := meta]}.

(** What Ceph knows of the OSD. *)
Definition demo_node_info : nodeDetails :=
  {["osd.0" := mkOsdDetails "fsid" "sda" "a" "" "" "" "" "" "" "uuid-0" true true]}.

Definition analyse (node : CephNode) (report : DiskDaemonReport) : option (list string * list string * bool) :=
  @runSpecAnalysis (demo_world calm) default_range 3 node report demo_node_info.

(** A whole disk that the spec names is clean; an OSD that no device of the spec carries is
    reported as running beyond the spec. *)
Example disk_is_clean : analyse (spec_node [named "sda"]) (demo_node_report "/dev/vg/lv") = Some ([], [], false).
Proof. vm_compute. reflexivity. Qed.

Example extra_osd_found :
  (λ r, (r.1.1, r.2)) <$> analyse (spec_node []) (demo_node_report "/dev/vg/lv") = Some ([], true).
Proof. vm_compute. reflexivity. Qed.

(** A partition is found under its path, but not under its bare name, although both name
    the same device. *)
Example partition_by_path : analyse (spec_node [named "/dev/sda1"]) (demo_node_report "/dev/sda1") = Some ([], [], false).
Proof. vm_compute. reflexivity. Qed.

Example partition_by_name :
  analyse (spec_node [named "sda1"]) (demo_node_report "/dev/sda1") =
  Some (["device 'sda1' should have 1 osd(s), but actually found 0"], [], false).
Proof. vm_compute. reflexivity. Qed.

(** A metadata device that is a block device of the spec as well is refused when it is given
    by its path, and accepted under its bare name. *)
Definition devices_demo (meta : string) : option (list string * list devForAnalysis) :=
  @devices_to_analyse (demo_world calm) default_range 3 (spec_node [with_metadata "sda" meta; named "sdb"]) (Some demo_disks).

Example metadata_by_path :
  fst <$> devices_demo "/dev/sdb" =
  Some ["specified as metadata device '/dev/sdb' (for device 'sda') and is used as block device 'sdb'"].
Proof. vm_compute. reflexivity. Qed.

Example metadata_by_name : fst <$> devices_demo "sdb" = Some [].
Proof. vm_compute. reflexivity. Qed.

(** A report in the state ok without the section of OSDs: a nil dereference, in a goroutine. *)
Example report_without_osds :
  analyse (spec_node [named "sda"]) (mkDiskDaemonReport DiskDaemonStateOk "" [] (Some demo_disks) None) = None.
Proof. vm_compute. reflexivity. Qed.

(** ** Witnesses for the analysis *)

Lemma spec_devices_valid_witness :
  ∃ devs, @devices_to_analyse (demo_world calm) default_range 3 (spec_node [with_metadata "sda" "/dev/sda1"; named "sdb"]) (Some demo_disks) = Some ([], devs) ∧
    NoDup (spec_alias demo_disks <$> devs).
Proof.
  destruct (@devices_to_analyse (demo_world calm) default_range 3 (spec_node [with_metadata "sda" "/dev/sda1"; named "sdb"]) (Some demo_disks))
    as [[issues devs]|] eqn:Hd; [|by vm_compute in Hd].
  assert (issues = []) as -> by (by vm_compute in Hd; simplify_eq).
  exists devs. split; [done|].
  apply (@spec_devices_valid (demo_world calm) default_range 3 (spec_node [with_metadata "sda" "/dev/sda1"; named "sdb"]) demo_disks devs);
    [done|exact Hd].
Defined.

Lemma clean_analysis_counts_witness : ∃ d, d ∈ [mkDevForAnalysis "/dev/sda" true "" 1 false "sda"] ∧
  da_OsdsPerDevice d = Z.of_nat (sum_list_with (@osd_hits (demo_world calm) demo_disks d demo_node_info (mkOsdsReport [] {["0" := [demo_volume "/dev/vg/lv"]]})) ["0"]).
Proof.
  destruct (@clean_analysis_counts (demo_world calm) default_range 3 (spec_node [named "sda"]) (demo_node_report "/dev/vg/lv")
              demo_node_info [] false disk_is_clean) as (devs & osds & Hd & Ho & Hc).
  injection Ho as <-.
  assert (devs = [mkDevForAnalysis "/dev/sda" true "" 1 false "sda"]) as -> by (by vm_compute in Hd; simplify_eq).
  exists (mkDevForAnalysis "/dev/sda" true "" 1 false "sda"). split; [by left|].
  destruct (Hc (mkDevForAnalysis "/dev/sda" true "" 1 false "sda") ltac:(by left)) as (r & [= <-] & Heq). exact Heq.
Defined.

Lemma clean_analysis_covers_witness :
  ∃ r d osds, d ∈ [mkDevForAnalysis "/dev/sda" true "" 1 false "sda"] ∧ on_spec_device r osds demo_node_info d "0".
Proof.
  destruct (@clean_analysis_covers (demo_world calm) default_range 3 (spec_node [named "sda"]) (demo_node_report "/dev/vg/lv")
              demo_node_info [] false disk_is_clean) as (devs & osds & Hd & Ho & Hc & _).
  assert (devs = [mkDevForAnalysis "/dev/sda" true "" 1 false "sda"]) as -> by (by vm_compute in Hd; simplify_eq).
  injection Ho as <-.
  destruct (Hc eq_refl "0" (demo_volume "/dev/vg/lv")) as (r & d & _ & Hin & Hon).
  { split_and!; [by exists [demo_volume "/dev/vg/lv"]; split; [reflexivity|left]|reflexivity|].
    eexists. split; [by left|]. right. eexists. split; [by left|done]. }
  by exists r, d, (mkOsdsReport [] {["0" := [demo_volume "/dev/vg/lv"]]}).
Defined.

Definition demo_rank (n : string) : nat := if decide (PathDevPrepended n = "/dev/sda1") then 1 else 0.

Lemma demo_ranked : ranked demo_disks demo_rank.
Proof.
  intros n cur p Hcur Hp. unfold demo_rank.
  assert (Hk : ∀ k v, (k, v) ∈ map_to_list (dr_Aliases demo_disks) →
                 bdi_Parent (block_of (dr_BlockInfo demo_disks) v) = [] ∨ k = "/dev/sda1" ∧ v = "/dev/sda1").
  { intros k v Hin. vm_compute in Hin. mem_inv Hin; simplify_eq; (by left) || (by right). }
  destruct (Hk (PathDevPrepended n) cur) as [He|[-> ->]]; [by apply elem_of_map_to_list|rewrite He in Hp; by apply elem_of_nil in Hp|].
  vm_compute in Hp. mem_inv Hp. subst p. simpl. lia.
Qed.

Lemma analysis_total_witness :
  is_Some (analyse (spec_node [named "sda1"]) (demo_node_report "/dev/sda1")).
Proof.
  apply (@analysis_total (demo_world calm) default_range 3 (spec_node [named "sda1"]) (demo_node_report "/dev/sda1")
           demo_node_info demo_disks (mkOsdsReport [] {["0" := [demo_volume "/dev/sda1"]]}) demo_rank);
    [reflexivity|reflexivity|exact demo_ranked|].
  intros c Hc. cbn in Hc. mem_inv Hc. subst c. vm_compute. lia.
Defined.

(** ** The cluster *)

Definition demo_md : OsdMetadataInfo :=
  mkOsdMetadataInfo "sda" "sda=path" "sda=a" "node-1" "sda" "ssd" "/dev/vg/lv" "0" "" "" "" 0.

Definition health_cluster : demo_cluster :=
  mkDemo false 0 [mkOsdInfo 0 "uuid-0" 1 1] [demo_md] [] [] (demo_node_report "/dev/vg/lv") [] (mkJobStatus 0 0 0 []).

Definition demo_cluster_of (status : ClusterStatus) : CephCluster :=
  mkCephCluster "cephcluster" "rook-ceph" 1 "1" false [spec_node [named "sda"]] "" 1 1 ∅ status.

(** A world in which the CephCluster has the given status. *)
Definition health_world (status : ClusterStatus) : World :=
  let w := demo_world health_cluster in
  {| w_exec_ceph := @w_exec_ceph w; w_exec_daemon := @w_exec_daemon w; w_deploy_get := @w_deploy_get w;
     w_deploy_scale := @w_deploy_scale w; w_deploy_delete := @w_deploy_delete w; w_job_get := @w_job_get w;
     w_job_delete := @w_job_delete w; w_job_create := @w_job_create w; w_node_list := @w_node_list w;
     w_clock := @w_clock w; w_task_get := @w_task_get w; w_task_list := @w_task_list w;
     w_task_update := @w_task_update w; w_task_delete := @w_task_delete w; w_status_update := @w_status_update w;
     w_health_list := @w_health_list w; w_cluster_get := λ _ _ _, (demo_cluster_of status, None);
     w_deployment_get := @w_deployment_get w; json_OsdInfo := @json_OsdInfo w; json_OsdInfos := @json_OsdInfos w;
     json_OsdMetadata := @json_OsdMetadata w;
     json_OsdTree := λ _, ([mkOsdTreeNode (-1) "default" "root" [0] "" "" 1 1; mkOsdTreeNode 0 "osd.0" "osd" [] "ssd" "up" 1 1], None);
     json_PgStats := @json_PgStats w; json_DaemonReport := @json_DaemonReport w; labels_match := @labels_match w;
     regexp_match := @regexp_match w; w_gvk_task := @w_gvk_task w; w_gvk_health := @w_gvk_health w;
     truncate_node_name := @truncate_node_name w |}.

Definition ready_deployment : Deployment := mkDeployment (Some 1) 1 1 1 1 3 3.

(** Every node is read with the given annotations. *)
Definition health_world_nodes (annotations : gmap string string) : HealthWorld := {|
  w_health_get := λ _ _ _, (demo_health, None);
  w_health_cached := λ _ _ _, (demo_health, None);
  w_health_update := λ _ _ _ _, None;
  w_node_get := λ _ name, (mkK8sNode name {["role" := "osd"]} annotations [], None);
  w_deployment_object := λ _ _ _, (ready_deployment, None);
  w_daemonset_get := λ _ _ _, (mkDaemonSet 1 1 1 1 1, None);
  w_configmap_get := λ _ _ _, ({["ROOK_CSI_ENABLE_RBD" := "true"]}, None);
  w_maintenance_get := λ _ _ _, (MaintenanceIdle, None);
  w_ingresses := λ _ _ _, ([], None);
  w_routes := λ _ _ _, ([], None);
  w_services := λ _ _ _, ([], None);
  w_blockpools := λ _ _, ([mkRookObject "pool" (Some (mkRookStatus "Ready" ∅ ""))], None);
  w_clients := λ _ _, ([], None);
  w_objectusers := λ _ _, ([], None);
  w_filesystems := λ _ _, ([], None);
  w_objectstores := λ _ _, ([], None);
  w_realms := λ _ _, ([], None);
  w_zonegroups := λ _ _, ([], None);
  w_zones := λ _ _, ([], None);
  json_CephStatus := λ _, (mkCephStatus ["a"] 1 1 1 1 ∅ [] ∅, None);
  json_DaemonReport_into := λ _ _, (demo_node_report "/dev/vg/lv", None);
  json_MgrDump := λ _, (mkMgrDump true "a" [], None);
  json_RgwID := λ _, ("", None);
  json_CephDetails := λ _, (mkCephDetails ∅ [], None);
  json_Pools := λ _, ([], None);
  json_CrushRules := λ _, ([], None);
  regexp_count := λ _ _, O;
  format_v := λ _, "0";
  format_3f := λ _, "0.000";
|}.

Definition demo_health_world : HealthWorld := health_world_nodes ∅.

Definition health_lcm : LcmConfig := GetConfiguration "pelagia" ∅.

(** The time of the last check of the status is the time of the first interaction. *)
Definition healthy_status : ClusterStatus :=
  mkClusterStatus "Ready" (Some (mkCephVersion "image" "19.2.3-0"))
    (Some (mkCephHealth "HEALTH_OK" ∅ (FormatRFC3339 demo_start) "fsid" "")) "".

Definition run_round (status : ClusterStatus) : option reconcile_result * list event :=
  @health_Reconcile (health_world status) demo_health_world default_range 3 health_lcm (mkRequest "pelagia" "cephcluster") [].

(** A round on the healthy cluster writes the state ok. *)
Example healthy_round :
  (run_round healthy_status).1 = Some (mkResult healthRequeueAfterInterval None) ∧
  omap (λ e, match e with EvHealthStatusUpdate _ _ s => Some (hs_State s, hs_Issues s) | _ => None end)
    (run_round healthy_status).2 = [(HealthStateOk, [])].
Proof. vm_compute. done. Qed.

(** Without a Ceph status in the CephCluster the same round panics and writes nothing. *)
Definition no_ceph_status : ClusterStatus :=
  mkClusterStatus "Ready" (Some (mkCephVersion "image" "19.2.3-0")) None "".

Example panicking_round :
  (run_round no_ceph_status).1 = None ∧
  omap (λ e, match e with EvHealthStatusUpdate _ _ s => Some s | _ => None end) (run_round no_ceph_status).2 = [].
Proof. vm_compute. done. Qed.

(** ** Witnesses for the controller *)

Lemma missing_ceph_status_panics_witness :
  (@getSpecAnalysisStatus (health_world no_ceph_status) demo_health_world default_range 3 health_lcm "pelagia"
     (demo_cluster_of no_ceph_status) []).1 = None.
Proof.
  apply (@missing_ceph_status_panics (health_world no_ceph_status) demo_health_world default_range 3 health_lcm "pelagia"
           (demo_cluster_of no_ceph_status) [] [demo_md] [mkOsdInfo 0 "uuid-0" 1 1]); by vm_compute.
Defined.

Definition demo_analysis : option (option OsdSpecAnalysisState * list string) :=
  (@getSpecAnalysisStatus (health_world healthy_status) demo_health_world default_range 3 health_lcm "pelagia"
     (demo_cluster_of healthy_status) []).1.

Definition demo_found : OsdSpecAnalysisState :=
  mkSpecAnalysisState (mkDaemonStatus DaemonStateOk [] ["1/1 ready"]) (Some 1) {["node-1" := mkDaemonStatus DaemonStateOk [] []]}.

(** The host is in the spec and in the CRUSH map, labelled and available. *)
Definition spec_host : osdHostInfo := mkHostInfo true 0 true [0] true true.
Definition analysis_events : list event :=
  (@getSpecAnalysisStatus (health_world healthy_status) demo_health_world default_range 3 health_lcm "pelagia"
     (demo_cluster_of healthy_status) []).2.

Lemma analysis_gates_removal_witness :
  ∃ node, node ∈ [spec_node [named "sda"]] ∧ cn_Name node = "node-1" ∧
    @clean_node (health_world healthy_status) demo_health_world default_range 3 health_lcm "pelagia" (demo_cluster_of healthy_status) [] node
      analysis_events.
Proof.
  apply (@analysis_gates_removal (health_world healthy_status) demo_health_world default_range 3 health_lcm "pelagia"
           (demo_cluster_of healthy_status) [] demo_found []
           (mkConfig demo_lcm demo_task (demo_cluster_of healthy_status) demo_found None) "node-1" spec_host);
    [by vm_compute|reflexivity|reflexivity|reflexivity|reflexivity|].
  left. exists (mkNodeCleanUpSpec false false false [] []). by vm_compute.
Defined.

Definition demo_usage : UsageDetails :=
  @usage_details (health_world healthy_status) demo_health_world health_lcm (mkCephDetails ∅ []).

Lemma no_pools_always_updated_witness :
  let report := mkHealthReport demo_ok None None (Some (mkClusterDetails (Some demo_usage) None None)) None in
  let s0 := chd_Status demo_health in
  hs_LastHealthUpdate (new_health_status (stored_health (new_health_status s0 report [] "t1")) report [] "t2") = "t2".
Proof.
  intros report s0.
  apply (@no_pools_always_updated (health_world healthy_status) demo_health_world health_lcm (mkCephDetails ∅ []) report
           (mkClusterDetails (Some demo_usage) None None)); reflexivity.
Defined.

(** A pool that holds more than it can still take is reported with almost 2^64 available bytes. *)
Example pool_bytes_wrap :
  pus_AvailableBytes (@pool_usage demo_health_world (mkPoolDetails "pool" 10 12 (6 # 11))) = "18446744073709551614".
Proof. vm_compute. reflexivity. Qed.
