(* ===== verification/Extensions.v ===== *)
(** * Specifications kept raw

    pkg/apis/ceph.pelagia.lcm/v1alpha1/extension.go: the parts of a CephDeployment
    that are written in the language of Rook, CephCSI or the Gateway API, decoded
    into their types.  The decoder of package encoding/json, which refuses unknown
    fields here, is a parameter ([SpecDecoder], one function per type). *)

From S2P Require Import Prelude Types DeployTypes.
Open Scope Z_scope.

(** What the decoder stores and its error, if any. *)
Class SpecDecoder := {
  json_ClusterSpec : string → ClusterSpec * option err;
  json_PoolSpec : string → PoolSpec * option err;
  json_ClientSpec : string → ClientSpec * option err;
  json_FilesystemSpec : string → FilesystemSpec * option err;
  json_RealmSpec : string → ObjectRealmSpec * option err;
  json_ZoneGroupSpec : string → string * option err;
  json_ZoneSpec : string → ObjectZoneSpec * option err;
  json_StoreSpec : string → ObjectStoreSpec * option err;
  json_StoreUserSpec : string → ObjectStoreUserSpec * option err;
  json_HTTPRouteSpec : string → HTTPRouteSpec * option err;
  json_OperatorConfigSpec : string → OperatorConfigSpec * option err;
  json_DriverSpec : string → DriverSpec * option err;
}.

Definition zero_SharedPools : SharedPoolsSpec := mkSharedPools "" "" [].
Definition zero_CephX : CephxConfig := mkCephx 0 "" "" [] "" 0.
Definition zero_ClusterSpec : ClusterSpec :=
  mkClusterSpec false (mkNetworkSpec "" None ∅ false) "" "" false false ∅ 0 0 [] (mkStorageScope false None [] "") ∅ ∅ zero_CephX "" false "".
Definition zero_FilesystemSpec : FilesystemSpec := mkFilesystemSpec zero_PoolSpec [] (mkMetadataServer 0 None None [] None ∅ "") false "".
Definition zero_ClientSpec : ClientSpec := mkClientSpec "" ∅ "".
Definition zero_ZoneSpec : ObjectZoneSpec := mkZoneSpec "" zero_SharedPools zero_PoolSpec zero_PoolSpec "".
Definition zero_StoreSpec : ObjectStoreSpec := mkStoreSpec 0 0 0 [] "" zero_SharedPools zero_PoolSpec zero_PoolSpec false ∅ "" "" None [] false false "".
Definition zero_RealmSpec : ObjectRealmSpec := mkRealmSpec "" false.
Definition zero_StoreUserSpec : ObjectStoreUserSpec := mkStoreUserSpec "" "" ∅ "".
Definition zero_DriverSpec : DriverSpec := mkDriverSpec ∅ None None.
Definition zero_RouteSpec : HTTPRouteSpec := mkRouteSpec [] [] [].

(** [DecodeRawToStruct] for a struct of type [type]. *)
Definition DecodeRawToStruct {T} (type : string) (decode : string → T * option err) (raw : string) : T * option err :=
  let '(t, e) := decode raw in
  (t, wrap_err ("failed to decode RawExtension to *v1." +:+ type +:+ " object, expected type mismatch") <$> e).

(** The body the [GetSpec] methods share: [no_data] is the error without any data,
    [None] where an empty spec is allowed; [spec] and [field] start the messages. *)
Definition get_spec {T} (zero : T) (type : string) (decode : string → T * option err)
    (no_data : option err) (spec to field object : string) (re : RawExtension T) : T * option err :=
  match raw_Raw re, raw_Object re with
  | None, None => (zero, no_data)
  | Some raw, _ =>
      let '(t, e) := DecodeRawToStruct type decode raw in
      (t, wrap_err ("spec: " +:+ spec +:+ " has failed to decode to " +:+ to +:+ " " +:+ type +:+ " struct") <$> e)
  | None, Some (Some t) => (t, None)
  | None, Some None =>
      (zero, Some (new_err ("spec: " +:+ field +:+ " has failed to convert to " +:+ to +:+ " " +:+ object +:+ " object")))
  end.

Definition no_data (spec : string) : option err := Some (new_err ("spec: " +:+ spec +:+ " no any data provided")).

Section get_spec.
Context `{SpecDecoder}.

Definition CephCluster_GetSpec (cl : option (RawExtension ClusterSpec)) : ClusterSpec * option err :=
  match cl with
  | None => (zero_ClusterSpec, Some (new_err "spec: cluster field has nil pointer value provided"))
  | Some re =>
      get_spec zero_ClusterSpec "ClusterSpec" json_ClusterSpec
        (Some (new_err "spec: cluster field has no any data provided")) "cluster field" "Rook" "cluster field" "CephCluster" re
  end.

Definition CephPool_GetSpec (p : CephPool) : PoolSpec * option err :=
  get_spec zero_PoolSpec "PoolSpec" json_PoolSpec (no_data "pool spec") "pool spec" "Rook" "pool field" "CephBlockPool"
    (pl_PoolSpec p).

Definition CephClient_GetSpec (c : CephClient) : ClientSpec * option err :=
  get_spec zero_ClientSpec "ClientSpec" json_ClientSpec (no_data "client spec") "client spec" "Rook" "client field" "CephClient"
    (cl_ClientSpec c).

Definition CephFilesystem_GetSpec (fs : DplFilesystem) : FilesystemSpec * option err :=
  get_spec zero_FilesystemSpec "FilesystemSpec" json_FilesystemSpec (no_data "filesystem spec") "filesystem spec" "Rook"
    "filesystem field" "CephFilesystem" (dfs_FsSpec fs).

Definition CephObjectRealm_GetSpec (r : DplObjectRealm) : ObjectRealmSpec * option err :=
  get_spec zero_RealmSpec "ObjectRealmSpec" json_RealmSpec None "realm spec" "Rook" "realm field" "CephObjectRealm" (dor_Spec r).

Definition CephObjectZonegroup_GetSpec (zg : CephObjectZonegroup) : string * option err :=
  get_spec EmptyString "ObjectZoneGroupSpec" json_ZoneGroupSpec (no_data "zonegroup spec") "zonegroup spec" "Rook"
    "zonegroup field" "CephObjectZoneGroup" (dzg_Spec zg).

Definition CephObjectZone_GetSpec (z : DplObjectZone) : ObjectZoneSpec * option err :=
  get_spec zero_ZoneSpec "ObjectZoneSpec" json_ZoneSpec (no_data "zone spec") "zone spec" "Rook" "zone field" "CephObjectZone"
    (doz_Spec z).

Definition CephObjectStore_GetSpec (rgw : DplObjectStore) : ObjectStoreSpec * option err :=
  get_spec zero_StoreSpec "ObjectStoreSpec" json_StoreSpec (no_data "rgw store spec") "rgw store spec" "Rook"
    "rgw store field" "CephObjectStore" (dos_Spec rgw).

Definition CephObjectStoreUser_GetSpec (user : CephObjectStoreUser) : ObjectStoreUserSpec * option err :=
  get_spec zero_StoreUserSpec "ObjectStoreUserSpec" json_StoreUserSpec (no_data "rgw user spec") "rgw user spec" "Rook"
    "rgw user field" "CephObjectStoreUser" (osu_Spec user).

Definition HTTPRoute_GetSpec (httpRoute : CephDeploymentHTTPRoute) : HTTPRouteSpec * option err :=
  get_spec zero_RouteSpec "HTTPRouteSpec" json_HTTPRouteSpec (no_data "http route spec") "http route spec" "GatewayAPI"
    "http route field" "HTTPRoute" (dhr_Spec httpRoute).

Definition OperatorConfig_GetSpec (operatorConfig : CephCSIOperatorConfig) : OperatorConfigSpec * option err :=
  get_spec (mkOperatorConfigSpec None EmptyString) "OperatorConfigSpec" json_OperatorConfigSpec (no_data "operatorConfig spec") "operatorConfig spec"
    "CephCSI" "operatorConfig field" "OperatorConfig" (coc_Spec operatorConfig).

Definition CSIDriver_GetSpec (csiDriver : CephCSIDriver) : DriverSpec * option err :=
  get_spec zero_DriverSpec "DriverSpec" json_DriverSpec (no_data "driver spec") "driver spec" "CephCSI" "driver field" "Driver"
    (cdr_Spec csiDriver).
End get_spec.
