(* ===== verification/Validate.v ===== *)
(** * Validation of a CephDeployment

    pkg/controller/deployment/validate.go as a whole, with the names of pools from
    utils.go, the keys of the CRUSH topology from const.go and [IsCephOsdNode] of
    pkg/common/cephdeployment_utils.go. *)

From Stdlib Require Import Ascii.
From S2P Require Import Prelude Types DeployTypes World DaemonsStatus Config Extensions.
Open Scope Z_scope.

(** ** Constants and names *)

Definition crushTopologyAllowedKeys : gmap string string :=
  {["region" := "topology.kubernetes.io/region"; "zone" := "topology.kubernetes.io/zone";
    "datacenter" := "topology.rook.io/datacenter"; "room" := "topology.rook.io/room";
    "pod" := "topology.rook.io/pod"; "pdu" := "topology.rook.io/pdu"; "row" := "topology.rook.io/row";
    "rack" := "topology.rook.io/rack"; "chassis" := "topology.rook.io/chassis"]}.

Definition getCrushKeys `{MapRange} : list string := SortStrings (range 81 crushTopologyAllowedKeys).*1.

Definition builtinCephPools : list string := [".mgr"; ".rgw.root"].
Definition poolReclaimPolicies : list string := ["Retain"; "Delete"].
Definition blockPoolServiceMarker : string := "builtin".

Definition IsCephOsdNode (node : CephNode) : bool :=
  match cn_Devices node with
  | _ :: _ => true
  | [] => negb (bool_decide (cn_DeviceFilter node = "")) || negb (bool_decide (cn_DevicePathFilter node = ""))
  end.

Definition dn_Name (n : CephDeploymentNode) : string := cn_Name (dn_Node n).

(** The value of a key of a configuration, empty for a missing one. *)
Definition config_value (config : gmap string string) (key : string) : string := default EmptyString (config !! key).

(** The number of nodes with a role. *)
Definition role_count (role : string) (nodes : list CephDeploymentNode) : Z :=
  foldl (λ n node, if Contains (dn_Roles node) role then n + 1 else n) 0 nodes.

(** [strconv.Quote] of a string whose bytes above 127 are printable UTF-8. *)
Fixpoint quote_go (s : string) : string :=
  match s with
  | EmptyString => EmptyString
  | String a s' =>
      let n := nat_of_ascii a in
      let esc c := String "\" (String (ascii_of_nat c) EmptyString) in
      let hex d := String (ascii_of_nat (if decide (d < 10)%nat then 48 + d else 87 + d)) EmptyString in
      (if decide (n = 34 ∨ n = 92)%nat then esc n
       else if decide (7 ≤ n ≤ 13)%nat then
         esc (default 0 ([97; 98; 116; 110; 118; 102; 114] !! (n - 7)))%nat
       else if decide (n < 32 ∨ n = 127)%nat then "\x" +:+ hex (n / 16)%nat +:+ hex (n mod 16)%nat
       else String a EmptyString) +:+ quote_go s'
  end.
Definition Quote (s : string) : string :=
  let q := String (ascii_of_nat 34) EmptyString in q +:+ quote_go s +:+ q.

(** The error of [strconv.Atoi]; a number that is out of range and followed by
    something else counts as a syntax error here. *)
Definition Atoi_error (s : string) : option string :=
  match Atoi s with
  | Some _ => None
  | None => Some ("strconv.Atoi: parsing " +:+ Quote s +:+
                  match parse_int s with None => ": invalid syntax" | Some _ => ": value out of range" end)
  end.

(** ** CSI drivers and network *)

Definition validateCSIDrivers (drivers : list CephCSIDriver) : list string :=
  (foldl (λ (acc : list CSIDriverType * list string) driver,
     let '(presentTypes, errMsgs) := acc in
     if decide (cdr_Type driver ∈ presentTypes) then
       (presentTypes, errMsgs ++ ["driver with type '" +:+ CSIDriverType_str (cdr_Type driver) +:+ "' specified multiple times"])
     else (cdr_Type driver :: presentTypes, errMsgs)) ([], []) drivers).2.

(** The check of one of the two address ranges. *)
Definition bad_range (net : string) : bool := bool_decide (net = "") || HasPrefix net "0.0.0.0".
Definition range_errors (name : string) (nets : list string) : list string :=
  match nets with
  | [] => ["cluster network addressRanges " +:+ name +:+ " parameter not specified"]
  | _ =>
      if existsb bad_range nets then
        ["cluster network address ranges " +:+ name +:+ " parameter should not be empty or contain range 0.0.0.0"]
      else []
  end.

Definition validateNetworkSpec (clusterNetwork : NetworkSpec) : list string :=
  if decide (ns_Provider clusterNetwork ∈ [EmptyString; "host"; "multus"]) then
    match ns_AddressRanges clusterNetwork with
    | None => ["cluster network addressRanges parameter is not specified"]
    | Some (public, cluster) => range_errors "public" public ++ range_errors "cluster" cluster
    end ++
    (if decide (ns_Provider clusterNetwork = "multus") then
       if bool_decide (config_value (ns_Selectors clusterNetwork) "public" = "") ||
          bool_decide (config_value (ns_Selectors clusterNetwork) "cluster" = "")
       then ["cluster network public/cluster selector parameter(s) should not be empty for 'multus' provider"]
       else []
     else [])
  else ["cluster network provider parameter should be empty or equals 'host' or 'multus'"].

(** ** Nodes *)

Definition unknown_nodes (known : list K8sNode) (nodes : list CephDeploymentNode) : list string :=
  filter (λ name, name ∉ kn_Name <$> known) (dn_Name <$> nodes).

Definition validateClusterNodes `{World} (nodesListExpanded : list CephDeploymentNode) : IO (option err) :=
  let* r := GetNodeList in
  match r with
  | (_, Some e) => ret (Some e)
  | (allNodes, None) =>
      match unknown_nodes allNodes nodesListExpanded with
      | [] => ret None
      | unknownNodes =>
          ret (Some (new_err ("found nodes present in spec, but not exist among k8s cluster nodes: "
                              +:+ Join unknownNodes ",")))
      end
  end.

Section nodes.
Context `{MapRange}.

(** The keys of the topology of a node. *)
Definition crush_errors (item : string) (crush : gmap string string) : list string :=
  range 82 crush ≫= λ '(key, value),
    match crushTopologyAllowedKeys !! key with
    | None => ["nodes item " +:+ item +:+ " contains invalid crush topology key '" +:+ key +:+ "'. Valid are: "
               +:+ Join getCrushKeys ", "]
    | Some _ =>
        if decide (value = "") then
          ["nodes item " +:+ item +:+ " contains empty crush topology key '" +:+ key +:+ "': must be non-empty"]
        else []
    end.

Definition device_errors (item nodeDeviceClass : string) (device : CephDevice) : list string :=
  let deviceName := if decide (cd_FullPath device = "") then cd_Name device else cd_FullPath device in
  let config := config_value (cd_Config device) in
  let deviceClass := if decide (config "deviceClass" = "") then nodeDeviceClass else config "deviceClass" in
  (if bool_decide (cd_FullPath device = "") && bool_decide (cd_Name device = "")
   then ["nodes item " +:+ item +:+ " has device without name or fullpath specified"] else []) ++
  (if decide (config "osdsPerDevice" = "") then []
   else match Atoi_error (config "osdsPerDevice") with
        | Some e => ["failed to parse config parameter 'osdsPerDevice' for device '" +:+ deviceName +:+ "' from "
                     +:+ item +:+ ": " +:+ e]
        | None => []
        end) ++
  (if decide (deviceClass = "") then
     ["config parameter 'deviceClass' is not specified for device '" +:+ deviceName +:+ "' from nodes item "
      +:+ item +:+ ", but it is required"]
   else []).

(** The storage configuration of a node. *)
Definition storage_errors (item : string) (node : CephNode) : list string :=
  let config := config_value (cn_Config node) in
  let nodeDeviceClass := config "deviceClass" in
  match (if decide (config "osdsPerDevice" = "") then None else Atoi_error (config "osdsPerDevice")) with
  | Some e => ["failed to parse config parameter 'osdsPerDevice' from nodes item " +:+ item +:+ ": " +:+ e]
  | None =>
      match cn_Devices node with
      | [] =>
          if decide (nodeDeviceClass = "") then
            ["config parameter 'deviceClass' is not specified for nodes item " +:+ item +:+ ", but it is required"]
          else []
      | devices => devices ≫= device_errors item nodeDeviceClass
      end
  end.

Definition node_errors (node : CephDeploymentNode) : list string :=
  let nodeType :=
    if negb (bool_decide (dn_NodesByLabel node = "")) || negb (bool_decide (dn_NodeGroup node = [])) then "nodeGroup" else "node" in
  let item := nodeType +:+ " '" +:+ dn_Name node +:+ "'" in
  let unsupported field := ["found '" +:+ field +:+ "' field for nodes item " +:+ item +:+ ", which is not supported, remove field"] in
  if cn_UseAllDevices (dn_Node node) then unsupported "useAllDevices"
  else
    match cn_VolumeClaimTemplates (dn_Node node) with
    | _ :: _ => unsupported "volumeClaimTemplates"
    | [] =>
        crush_errors item (dn_Crush node) ++
        (if IsCephOsdNode (dn_Node node) then storage_errors item (dn_Node node) else [])
    end.

Definition quorum_errors (nodesListExpanded : list CephDeploymentNode) : list string :=
  let monCount := role_count "mon" nodesListExpanded in
  let mgrCount := role_count "mgr" nodesListExpanded in
  (if decide (monCount = 0) then ["no nodes with 'mon' roles specified"]
   else if bool_decide (3 ≤ length nodesListExpanded)%nat && bool_decide (monCount mod 2 = 0) then
     ["monitor nodes in spec (with roles 'mon') count is " +:+ pretty monCount +:+ ", but should be odd for a healthy quorum"]
   else []) ++
  (if decide (mgrCount = 0) then ["no nodes with 'mgr' roles specified, required at least one"] else []).

Definition validateNodesSpec (nodes nodesListExpanded : list CephDeploymentNode) : list string :=
  SortStrings ((nodes ≫= node_errors) ++ quorum_errors nodesListExpanded).
End nodes.

(** ** Pools *)

Section pools.
Context `{SpecDecoder}.

Definition getCephPoolName (pool : CephPool) : string :=
  if pl_UseAsFullName pool then pl_Name pool
  else pl_Name pool +:+ "-" +:+ ps_DeviceClass (CephPool_GetSpec pool).1.

Definition getBuiltinPoolName (name : string) : string :=
  if HasPrefix name "." then blockPoolServiceMarker +:+ ReplaceAll name "." "-"
  else if StrContains name "_" then blockPoolServiceMarker +:+ "-" +:+ ReplaceAll name "_" "-"
  else name.

Definition buildPoolName (pool : CephPool) : string :=
  let cephBlockPoolName := getCephPoolName pool in
  if Contains builtinCephPools cephBlockPoolName then getBuiltinPoolName cephBlockPoolName else cephBlockPoolName.

(** Whether the search for a device class ends at this node. *)
Definition node_has_class (deviceClass : string) (node : CephDeploymentNode) : bool :=
  let nodeWideClass := bool_decide (config_value (cn_Config (dn_Node node)) "deviceClass" = deviceClass) in
  match cn_Devices (dn_Node node) with
  | [] => true
  | devices =>
      existsb (λ device, bool_decide (cd_Config device !! "deviceClass" = Some deviceClass)) devices ||
      existsb (λ device, bool_decide (cd_Config device !! "deviceClass" = None)) devices && nodeWideClass
  end.

Definition validateDeviceClass (deviceClass : string) (nodesListExpanded : list CephDeploymentNode) : option string :=
  if decide (deviceClass = "") then Some "no deviceClass set"
  else if existsb (node_has_class deviceClass) nodesListExpanded then None
  else Some ("failed to find deviceClass '" +:+ deviceClass +:+ "' among storage devices spec").

Definition validatePoolSpec (spec : PoolSpec) (metapool : bool) (poolName : string)
    (nodesListExpanded : list CephDeploymentNode) : list string :=
  let size := ps_ReplicatedSize spec in
  let data := ps_DataChunks spec in
  let coding := ps_CodingChunks spec in
  if metapool && (bool_decide (size = 0%N) || negb (bool_decide (data = 0%N)) || negb (bool_decide (coding = 0%N))) then
    [poolName +:+ " pool must be only replicated"]
  else if bool_decide (size = 0%N) && bool_decide (data = 0%N) && bool_decide (coding = 0%N) ||
          bool_decide (0 < size)%N && (bool_decide (0 < data)%N || bool_decide (0 < coding)%N) then
    [poolName +:+ " pool should be either replicated or erasureCoded"]
  else
    (if bool_decide (0 < data)%N || bool_decide (0 < coding)%N then
       (if decide (data < 2)%N then ["erasureCoded " +:+ poolName +:+ " pool needs dataChunks set to at least 2"] else []) ++
       (if decide (coding < 1)%N then ["erasureCoded " +:+ poolName +:+ " pool needs codingChunks set to at least 1"] else [])
     else []) ++
    match validateDeviceClass (ps_DeviceClass spec) nodesListExpanded with
    | Some e => [poolName +:+ " pool has " +:+ e]
    | None => []
    end ++
    (if bool_decide (ps_FailureDomain spec = "osd") && negb (bool_decide (length nodesListExpanded = 1%nat)) then
       [poolName +:+ " pool contains prohibited 'osd' failureDomain"]
     else []).

Context `{MapRange}.

(** The pools of each role OpenStack needs. *)
Definition openstack_roles (specPools : list CephPool) : gmap string Z :=
  foldl (λ roles pool,
    match roles !! pl_Role pool with
    | Some count => <[pl_Role pool := count + 1]> roles
    | None => roles
    end) {["images" := 0; "vms" := 0; "backup" := 0; "volumes" := 0]} specPools.

Definition openstackPoolsValidate (specPools : list CephPool) : list string :=
  let roles := range 83 (openstack_roles specPools) in
  let totalCount := foldl (λ n r, n + r.2) 0 roles in
  let extraRolesSpecified := (filter (λ r, 1 < r.2 ∧ r.1 ≠ "volumes") roles).*1 in
  let rolesNotSpecified := (filter (λ r, r.2 = 0) roles).*1 in
  if decide (totalCount = 0) then []
  else
    match rolesNotSpecified with
    | [] => []
    | _ => ["found pools with Openstack roles, but missed pools with next roles: "
            +:+ show_strings (SortStrings rolesNotSpecified) +:+ " - required to be specified for Openstack"]
    end ++
    match extraRolesSpecified with
    | [] => []
    | _ => ["found pools with Openstack roles, but pools with roles "
            +:+ show_strings (SortStrings extraRolesSpecified) +:+ " allowed to be specified only once"]
    end.

(** A pool; [defaultFound] tells whether a pool before it is the default one. *)
Definition pool_errors (external : bool) (nodesListExpanded : list CephDeploymentNode)
    (acc : bool * list string) (pool : CephPool) : bool * list string :=
  let '(defaultFound, errMsgs) := acc in
  let opts := pl_StorageClassOpts pool in
  let castedPool := (CephPool_GetSpec pool).1 in
  let errMsgs := errMsgs ++ (if defaultFound && scs_Default opts then ["multiple default pools specified"] else []) in
  (defaultFound || scs_Default opts,
   errMsgs ++
   if external then
     if decide (ps_DeviceClass castedPool = "") then ["pool '" +:+ pl_Name pool +:+ "' has no device class specified"] else []
   else
     validatePoolSpec castedPool false (pl_Name pool) nodesListExpanded ++
     (if negb (bool_decide (scs_ReclaimPolicy opts = "")) && negb (Contains poolReclaimPolicies (scs_ReclaimPolicy opts)) then
        ["pool " +:+ pl_Name pool +:+ " contains invalid reclaimPolicy '" +:+ scs_ReclaimPolicy opts +:+ "', valid are: "
         +:+ show_strings poolReclaimPolicies]
      else [])).

Definition validatePoolsSpec (blockStorage : option (list CephPool)) (nodesListExpanded : list CephDeploymentNode)
    (externalCluster : bool) : list string :=
  match default [] blockStorage with
  | [] => if externalCluster then [] else ["no block storage pools provided, required at least one"]
  | pools =>
      let '(defaultFound, errMsgs) := foldl (pool_errors externalCluster nodesListExpanded) (false, []) pools in
      errMsgs ++
      if externalCluster then []
      else (if (defaultFound : bool) then [] else ["no default pool specified"]) ++ openstackPoolsValidate pools
  end.

(** ** Shared file systems, mirroring *)

Definition data_pool_errors (fsName : string) (nodesListExpanded : list CephDeploymentNode)
    (idx : nat) (dataPool : string * PoolSpec) : list string :=
  let datapoolName := "cephfs '" +:+ fsName +:+ "' data " +:+ dataPool.1 in
  match idx with
  | O =>
      if decide (ps_ReplicatedSize dataPool.2 = 0%N) then
        [datapoolName +:+ " will be used as default and must use replication only"]
      else []
  | S _ => validatePoolSpec dataPool.2 false datapoolName nodesListExpanded
  end.

Definition filesystem_errors (nodesListExpanded : list CephDeploymentNode) (externalCluster : bool)
    (fs : DplFilesystem) : list string :=
  let spec := (CephFilesystem_GetSpec fs).1 in
  let mdsCount := role_count "mds" nodesListExpanded in
  match fss_DataPools spec with
  | [] => ["cephfs '" +:+ dfs_Name fs +:+ "' has no datapools specified, requires at least one"]
  | dataPools =>
      if externalCluster then []
      else
        validatePoolSpec (fss_MetadataPool spec) true ("cephfs '" +:+ dfs_Name fs +:+ "' metadata") nodesListExpanded ++
        concat (imap (data_pool_errors (dfs_Name fs) nodesListExpanded) dataPools) ++
        (if decide (mdsCount < mss_ActiveCount (fss_MetadataServer spec)) then
           ["not enough 'mds' roles specified in nodes spec, cephfs " +:+ dfs_Name fs +:+ " requires at least "
            +:+ pretty (mss_ActiveCount (fss_MetadataServer spec)) +:+ ", found " +:+ pretty mdsCount]
         else [])
  end.

Definition validateFilesystemSpec (sharedFilesystem : option (list DplFilesystem))
    (nodesListExpanded : list CephDeploymentNode) (externalCluster : bool) : list string :=
  default [] sharedFilesystem ≫= filesystem_errors nodesListExpanded externalCluster.

Definition rbdPeersValidate (rbdMirror : option CephRBDMirrorSpec) : string :=
  match rbdMirror with
  | Some m => if decide (1 < length (rbm_Peers m))%nat then "multiple RBD Peers aren't supported yet" else EmptyString
  | None => EmptyString
  end.
End pools.

(** ** Object storage *)

Section object_storage.
Context `{SpecDecoder}.

Definition findPoolInSpec (blockStorage : option (list CephPool)) (poolName : string) : bool :=
  existsb (λ pool, bool_decide (buildPoolName pool = poolName)) (default [] blockStorage).

(** A pool that a placement names: required pools must be given, all must be in the spec. *)
Definition named_pool_errors (blockStorage : option (list CephPool)) (required : list string) (notFound poolName : string)
    : list string :=
  if decide (poolName = "") then required
  else if findPoolInSpec blockStorage poolName then []
  else [notFound +:+ " '" +:+ poolName +:+ "' is not found in spec"].

Definition placement_errors (blockStorage : option (list CephPool)) (objectName : string) (p : PoolPlacement) : list string :=
  let placement := objectName +:+ " placement '" +:+ pp_Name p +:+ "' " in
  let check := named_pool_errors blockStorage in
  check [placement +:+ "metadata pool is not specified"] (placement +:+ "metadata pool") (pp_MetadataPoolName p) ++
  check [placement +:+ "data pool is not specified"] (placement +:+ "data pool") (pp_DataPoolName p) ++
  check [] (placement +:+ "data nonEC pool") (pp_DataNonECPoolName p) ++
  (pp_StorageClasses p ≫= λ sc,
     check [placement +:+ "storageclass '" +:+ psc_Name sc +:+ "' data pool name is not provided"]
       (placement +:+ "storage data pool") (psc_DataPoolName sc)).

Definition validateRgwSharedPools (sharedPools : SharedPoolsSpec) (blockStorage : option (list CephPool)) (objectName : string)
    : bool * bool * list string :=
  let placements := sp_PoolPlacements sharedPools in
  let defaults := filter (λ p, pp_Default p = true) placements in
  let defaultSet := negb (bool_decide (defaults = [])) in
  let check := named_pool_errors blockStorage [] in
  (defaultSet || negb (bool_decide (sp_MetadataPoolName sharedPools = "")),
   defaultSet || negb (bool_decide (sp_DataPoolName sharedPools = "")),
   (placements ≫= placement_errors blockStorage objectName) ++
   (if decide (1 < length defaults)%nat then [objectName +:+ " placements pools have multiple default placement set"] else []) ++
   check (objectName +:+ " sharedMetadata pool") (sp_MetadataPoolName sharedPools) ++
   check (objectName +:+ " sharedData pool") (sp_DataPoolName sharedPools)).

(** The pools of a zone or of a gateway: shared ones, or its own. *)
Definition store_pools_errors (blockStorage : option (list CephPool)) (nodesListExpanded : list CephDeploymentNode)
    (objectName : string) (sharedPools : SharedPoolsSpec) (metadataPool dataPool : PoolSpec) : list string :=
  let '(metaPoolSet, dataPoolSet, sharedPoolsIssues) := validateRgwSharedPools sharedPools blockStorage objectName in
  sharedPoolsIssues ++
  (if (metaPoolSet : bool) then [] else validatePoolSpec metadataPool true (objectName +:+ " metadata") nodesListExpanded) ++
  (if (dataPoolSet : bool) then [] else validatePoolSpec dataPool false (objectName +:+ " data") nodesListExpanded).

Section spec.
Context (storage : CephObjectStorage) (blockStorage : option (list CephPool)) (nodesListExpanded : list CephDeploymentNode).

Definition zonegroup_errors (zoneGroup : CephObjectZonegroup) : list string :=
  let realm := (CephObjectZonegroup_GetSpec zoneGroup).1 in
  if decide (realm ∈ dor_Name <$> cos_Realms storage) then []
  else ["zonegroup '" +:+ dzg_Name zoneGroup +:+ "' has specified realm '" +:+ realm +:+ "', which is not specified in spec"].

Definition zone_errors (zone : DplObjectZone) : list string :=
  let spec := (CephObjectZone_GetSpec zone).1 in
  (if decide (ozs_ZoneGroup spec ∈ dzg_Name <$> cos_Zonegroups storage) then []
   else ["zone '" +:+ doz_Name zone +:+ "' has specified zonegroup '" +:+ ozs_ZoneGroup spec
         +:+ "', which is not specified in spec"]) ++
  store_pools_errors blockStorage nodesListExpanded ("zone '" +:+ doz_Name zone +:+ "'") (ozs_SharedPools spec)
    (ozs_MetadataPool spec) (ozs_DataPool spec).

Definition store_known (name : string) : bool := existsb (λ rgw, bool_decide (dos_Name rgw = name)) (cos_Rgws storage).

Definition route_errors (route : CephDeploymentHTTPRoute) : list string :=
  (if decide (hrs_Hostnames (HTTPRoute_GetSpec route).1 = []) then ["httproute '" +:+ dhr_Name route +:+ "' has no hostnames provided"] else []) ++
  (if store_known (dhr_ObjectStoreName route) then []
   else ["httproute '" +:+ dhr_Name route +:+ "' has object store set to '" +:+ dhr_ObjectStoreName route
         +:+ "', which is not present in spec"]).

(** A specification that gives pools of its own. *)
Definition has_pools (spec : ObjectStoreSpec) : bool :=
  let some_pool p := negb (bool_decide (ps_ReplicatedSize p = 0 ∧ ps_DataChunks p = 0 ∧ ps_CodingChunks p = 0)%N) in
  some_pool (ost_MetadataPool spec) || some_pool (ost_DataPool spec) || negb (bool_decide (ost_ZoneName spec = "")) ||
  negb (bool_decide (ost_SharedPools spec = zero_SharedPools)).

Definition rgw_errors (external : bool) (monNodesCount rgwNodesCount : Z) (rgw : DplObjectStore) : list string :=
  let spec := (CephObjectStore_GetSpec rgw).1 in
  let name := "rgw '" +:+ dos_Name rgw +:+ "'" in
  (if bool_decide (ost_Port spec = 0) && bool_decide (ost_SecurePort spec = 0)
   then [name +:+ " has no port or securePort specified"] else []) ++
  if external then
    (if has_pools spec then ["cluster is external, " +:+ name +:+ " pools (metadata and data) specification is not allowed"] else []) ++
    (if decide (ost_ExternalRgwEndpoints spec = []) then ["external endpoints for " +:+ name +:+ " are not provided"] else [])
  else
    (if decide (ost_ZoneName spec = "") then
       store_pools_errors blockStorage nodesListExpanded name (ost_SharedPools spec) (ost_MetadataPool spec) (ost_DataPool spec)
     else if decide (ost_ZoneName spec ∈ doz_Name <$> cos_Zones storage) then []
     else ["incorrect " +:+ name +:+ " configuration, specified zone '" +:+ ost_ZoneName spec +:+ "' is not found"]) ++
    (if bool_decide (0 < rgwNodesCount) && bool_decide (rgwNodesCount < ost_Instances spec) ||
        bool_decide (rgwNodesCount = 0) && bool_decide (monNodesCount < ost_Instances spec) then
       ["not enough 'rgw' roles specified in nodes spec, " +:+ name +:+ " requires at least " +:+ pretty (ost_Instances spec)
        +:+ ", found " +:+ pretty (rgwNodesCount + monNodesCount)]
     else []).

Definition user_errors (user : CephObjectStoreUser) : list string :=
  let store := sus_Store (CephObjectStoreUser_GetSpec user).1 in
  if decide (store = "") then ["object store user '" +:+ osu_Name user +:+ "' has no related rgw set ('store' field)"]
  else if store_known store then []
  else ["object store user '" +:+ osu_Name user +:+ "' has unknown rgw set ('store' field)"].

Definition multisite_errors (external : bool) : list string :=
  if external then
    let refused {A} (l : list A) (what : string) := match l with [] => [] | _ => ["cluster is external, rgw " +:+ what +:+ " can't be created"] end in
    refused (cos_Realms storage) "realms" ++ refused (cos_Zonegroups storage) "zonegroups" ++ refused (cos_Zones storage) "zones"
  else
    (cos_Zonegroups storage ≫= zonegroup_errors) ++ (cos_Zones storage ≫= zone_errors) ++
    (cos_GatewayHTTPRoutes storage ≫= route_errors).
End spec.

Definition validateObjectStorageSpec (objectStorage : option CephObjectStorage) (blockStorage : option (list CephPool))
    (nodesListExpanded : list CephDeploymentNode) (external : bool) : list string :=
  match objectStorage with
  | None => []
  | Some storage =>
      let count role := if (external : bool) then 0 else role_count role nodesListExpanded in
      multisite_errors storage blockStorage nodesListExpanded external ++
      (cos_Rgws storage ≫= rgw_errors storage blockStorage nodesListExpanded external (count "mon") (count "rgw")) ++
      (cos_Users storage ≫= user_errors storage)
  end.
End object_storage.

(** ** The whole spec *)

Definition nonempty (s : string) : list string := if decide (s = "") then [] else [s].

(** [validateSpec]; the code has the cluster spec by then, since [castExtensions] has
    not failed. *)
Definition validateSpec `{World} `{SpecDecoder} `{MapRange} (c : deployConfig) (clusterSpec : ClusterSpec)
    : IO CephDeploymentValidation :=
  let spec := cdp_Spec (dc_cephDpl c) in
  let nodes := dc_nodesListExpanded c in
  let external := csp_External clusterSpec in
  let csi := default [] ((λ csi, validateCSIDrivers (csr_Drivers csi)) <$> dsp_CSIResources spec) in
  let* internal :=
    if external then ret []
    else
      let network := validateNetworkSpec (csp_Network clusterSpec) in
      let* unknown := validateClusterNodes nodes in
      ret (network ++
           match unknown with
           | Some e => [err_msg e]
           | None => validateNodesSpec (dsp_Nodes spec) nodes
           end ++
           nonempty (rbdPeersValidate (dsp_RBDMirror spec))) in
  let errMsgs := csi ++ internal ++
    validatePoolsSpec (dsp_BlockStorage spec) nodes external ++
    validateFilesystemSpec (dsp_SharedFilesystem spec) nodes external ++
    validateObjectStorageSpec (dsp_ObjectStorage spec) (dsp_BlockStorage spec) nodes external in
  ret (mkValidation (match errMsgs with [] => ValidationSucceed | _ => ValidationFailed end)
         (cdp_Generation (dc_cephDpl c)) errMsgs).
