(* ===== verification/ValidateFacts.v ===== *)
(** * What an accepted CephDeployment is

    A declarative description of the specifications that pass the validation
    ([spec_ok] and its parts, without any message), and the proof that the checks of
    validate.go accept exactly those. *)

From S2P Require Import Prelude Types DeployTypes World DaemonsStatus Config Extensions Validate.
Open Scope Z_scope.

(** ** Lists of messages *)

Lemma bind_nil {A B} (f : A → list B) l : l ≫= f = [] ↔ Forall (λ x, f x = []) l.
Proof. induction l as [|x l IH]; csimpl; [by split|]. rewrite app_nil, Forall_cons, <-IH. done. Qed.

Lemma guard_nil `{Decision P} {A} (x : A) (l : list A) : (if decide P then l else [x]) = [] ↔ P ∧ l = [].
Proof. case_decide; [tauto|]. split; [done|tauto]. Qed.

Lemma error_nil `{Decision P} {A} (x : A) (l : list A) : (if decide P then [x] else l) = [] ↔ ¬ P ∧ l = [].
Proof. case_decide; [|tauto]. split; [done|tauto]. Qed.

Lemma when_nil (b : bool) {A} (x : A) : (if b then [x] else []) = [] ↔ b = false.
Proof. by destruct b. Qed.

Lemma unless_nil (b : bool) {A} (x : A) : (if b then [] else [x]) = [] ↔ b = true.
Proof. by destruct b. Qed.

Lemma filter_nil_iff {A} (P : A → Prop) `{∀ x, Decision (P x)} l : filter P l = [] ↔ Forall (λ x, ¬ P x) l.
Proof.
  induction l as [|x l IH]; [by split|]. rewrite filter_cons, Forall_cons, <-IH. case_decide; [|tauto].
  split; [done|tauto].
Qed.

Lemma and_iff_split (A B C D : Prop) : (A ↔ C) → (B ↔ D) → A ∧ B ↔ C ∧ D.
Proof. tauto. Qed.

Lemma imp_or `{Decision P} Q : ¬ P ∨ Q ↔ (P → Q).
Proof. destruct (decide P); tauto. Qed.

Lemma existsb_true {A} (f : A → bool) l : existsb f l = true ↔ ∃ x, x ∈ l ∧ f x = true.
Proof. rewrite existsb_exists. by setoid_rewrite list_elem_of_In. Qed.

(** ** Nodes *)

Definition quorum_ok (nodes : list CephDeploymentNode) : Prop :=
  1 ≤ role_count "mon" nodes ∧ 1 ≤ role_count "mgr" nodes ∧
  ((3 ≤ length nodes)%nat → Z.odd (role_count "mon" nodes) = true).

Definition number_or_unset (s : string) : Prop := s = "" ∨ is_Some (Atoi s).

Definition device_ok (nodeDeviceClass : string) (d : CephDevice) : Prop :=
  (cd_FullPath d ≠ "" ∨ cd_Name d ≠ "") ∧ number_or_unset (config_value (cd_Config d) "osdsPerDevice") ∧
  (config_value (cd_Config d) "deviceClass" ≠ "" ∨ nodeDeviceClass ≠ "").

Definition storage_ok (node : CephNode) : Prop :=
  number_or_unset (config_value (cn_Config node) "osdsPerDevice") ∧
  (cn_Devices node = [] → config_value (cn_Config node) "deviceClass" ≠ "") ∧
  Forall (device_ok (config_value (cn_Config node) "deviceClass")) (cn_Devices node).

Definition node_ok (node : CephDeploymentNode) : Prop :=
  cn_UseAllDevices (dn_Node node) = false ∧ cn_VolumeClaimTemplates (dn_Node node) = [] ∧
  map_Forall (λ key value, is_Some (crushTopologyAllowedKeys !! key) ∧ value ≠ "") (dn_Crush node) ∧
  (IsCephOsdNode (dn_Node node) = true → storage_ok (dn_Node node)).

Lemma role_count_nonneg role nodes : 0 ≤ role_count role nodes.
Proof.
  unfold role_count. enough (∀ z, 0 ≤ z → 0 ≤ foldl (λ n node, if Contains (dn_Roles node) role then n + 1 else n) z nodes)
    as Hz by by apply Hz.
  induction nodes as [|n nodes IH]; intros z Hz; simpl; [done|]. apply IH. destruct (Contains _ _); lia.
Qed.

Lemma quorum_exact nodes : quorum_errors nodes = [] ↔ quorum_ok nodes.
Proof.
  unfold quorum_errors, quorum_ok. rewrite app_nil, !error_nil, when_nil, andb_false_iff, !bool_decide_eq_false.
  pose proof (role_count_nonneg "mon" nodes). pose proof (role_count_nonneg "mgr" nodes).
  rewrite Zmod_even, Zodd_even_bool. destruct (Z.even (role_count "mon" nodes)); simpl; intuition (try done; lia).
Qed.

Lemma Atoi_error_none s : Atoi_error s = None ↔ is_Some (Atoi s).
Proof. unfold Atoi_error. destruct (Atoi s); simpl; [|rewrite is_Some_alt]; done. Qed.

Lemma number_errors s (f : string → string) :
  (if decide (s = "") then [] else match Atoi_error s with Some e => [f e] | None => [] end) = [] ↔ number_or_unset s.
Proof.
  unfold number_or_unset. case_decide; [tauto|]. rewrite <-Atoi_error_none. destruct (Atoi_error s); [|tauto].
  split; [done|]. by intros [?|?].
Qed.

Lemma device_exact item cls d : device_errors item cls d = [] ↔ device_ok cls d.
Proof.
  unfold device_errors, device_ok. rewrite !app_nil, when_nil, andb_false_iff, !bool_decide_eq_false, number_errors, error_nil.
  case_decide as Hc; simpl in *; intuition congruence.
Qed.

Lemma storage_exact item node : storage_errors item node = [] ↔ storage_ok node.
Proof.
  unfold storage_errors, storage_ok. set (n := config_value (cn_Config node) "osdsPerDevice").
  assert ((if decide (n = "") then None else Atoi_error n) = None ↔ number_or_unset n) as Hn.
  { unfold number_or_unset. case_decide; [tauto|]. rewrite Atoi_error_none. tauto. }
  destruct (if decide (n = "") then None else Atoi_error n) as [e|].
  - split; [done|]. intros [H _]. apply Hn in H. done.
  - destruct (cn_Devices node) as [|d ds] eqn:Hd.
    + rewrite error_nil, Forall_nil. intuition.
    + rewrite bind_nil. setoid_rewrite device_exact. intuition done.
Qed.

Section exact.
Context `{MapRange}.

Lemma crush_exact item crush :
  crush_errors item crush = [] ↔ map_Forall (λ key value, is_Some (crushTopologyAllowedKeys !! key) ∧ value ≠ "") crush.
Proof.
  unfold crush_errors. rewrite bind_nil, Forall_forall. split.
  - intros Hf key value Hk. specialize (Hf (key, value) (proj2 (elem_of_range _ _ _ _) Hk)). simpl in Hf.
    destruct (crushTopologyAllowedKeys !! key); [|done]. case_decide; [done|]. split; [eauto|done].
  - intros Hf [key value] Hin. apply elem_of_range in Hin. apply Hf in Hin as [[x ->] Hv]. by case_decide.
Qed.

Lemma node_exact node : node_errors node = [] ↔ node_ok node.
Proof.
  unfold node_errors, node_ok. destruct (cn_UseAllDevices _); [by split; [|intros [? _]]|].
  destruct (cn_VolumeClaimTemplates _); [|by split; [|intros (_ & ? & _)]].
  rewrite app_nil, crush_exact. destruct (IsCephOsdNode _); [rewrite storage_exact|]; intuition done.
Qed.

Lemma nodes_exact nodes expanded : validateNodesSpec nodes expanded = [] ↔ Forall node_ok nodes ∧ quorum_ok expanded.
Proof.
  unfold validateNodesSpec. rewrite SortStrings_nil, app_nil, bind_nil, quorum_exact. by setoid_rewrite node_exact.
Qed.

(** ** Pools *)

(** A device class that a node of the spec gives to one of its devices, and, in the
    last case, any class at all. *)
Definition class_known (class : string) (nodes : list CephDeploymentNode) : Prop :=
  class ≠ "" ∧ ∃ node, node ∈ nodes ∧
    ((∃ d, d ∈ cn_Devices (dn_Node node) ∧ cd_Config d !! "deviceClass" = Some class) ∨
     (∃ d, d ∈ cn_Devices (dn_Node node) ∧ cd_Config d !! "deviceClass" = None) ∧
       config_value (cn_Config (dn_Node node)) "deviceClass" = class ∨
     cn_Devices (dn_Node node) = []).

Definition pool_spec_ok (metapool : bool) (spec : PoolSpec) (nodes : list CephDeploymentNode) : Prop :=
  (ps_ReplicatedSize spec ≠ 0%N ∧ ps_DataChunks spec = 0%N ∧ ps_CodingChunks spec = 0%N ∨
   metapool = false ∧ ps_ReplicatedSize spec = 0%N ∧ (2 ≤ ps_DataChunks spec)%N ∧ (1 ≤ ps_CodingChunks spec)%N) ∧
  class_known (ps_DeviceClass spec) nodes ∧
  (ps_FailureDomain spec = "osd" → length nodes = 1%nat).

Lemma class_exact class nodes : validateDeviceClass class nodes = None ↔ class_known class nodes.
Proof.
  unfold validateDeviceClass, class_known. case_decide as Hc; [by split; [|intros []]|].
  transitivity (existsb (node_has_class class) nodes = true); [by destruct (existsb _ _)|].
  rewrite existsb_true. split.
  - intros (node & Hin & Hhas). split; [done|]. exists node. split; [done|]. unfold node_has_class in Hhas.
    destruct (cn_Devices (dn_Node node)) as [|d ds]; [by right; right|].
    rewrite orb_true_iff, andb_true_iff, !existsb_true, bool_decide_eq_true in Hhas.
    setoid_rewrite bool_decide_eq_true in Hhas. tauto.
  - intros (_ & node & Hin & Hhas). exists node. split; [done|]. unfold node_has_class.
    destruct (cn_Devices (dn_Node node)) as [|d ds]; [done|].
    rewrite orb_true_iff, andb_true_iff, !existsb_true, bool_decide_eq_true.
    setoid_rewrite bool_decide_eq_true. destruct Hhas as [?|[?|?]]; [tauto|tauto|done].
Qed.

(** The chunks of a pool that passes the first checks. *)
Lemma chunks_exact (metapool : bool) size data coding (m1 m2 : string) :
  metapool && (bool_decide (size = 0%N) || negb (bool_decide (data = 0%N)) || negb (bool_decide (coding = 0%N))) = false →
  bool_decide (size = 0%N) && bool_decide (data = 0%N) && bool_decide (coding = 0%N) ||
    bool_decide (0 < size)%N && (bool_decide (0 < data)%N || bool_decide (0 < coding)%N) = false →
  (if bool_decide (0 < data)%N || bool_decide (0 < coding)%N then
     (if decide (data < 2)%N then [m1] else []) ++ (if decide (coding < 1)%N then [m2] else [])
   else []) = [] ↔
  size ≠ 0%N ∧ data = 0%N ∧ coding = 0%N ∨ metapool = false ∧ size = 0%N ∧ (2 ≤ data)%N ∧ (1 ≤ coding)%N.
Proof.
  intros Hm Hb. repeat case_bool_decide; destruct metapool; simpl in *; try done;
    repeat case_decide; simpl; split; intros; try done; try lia.
Qed.

Lemma pool_spec_exact spec metapool name nodes : validatePoolSpec spec metapool name nodes = [] ↔ pool_spec_ok metapool spec nodes.
Proof.
  unfold validatePoolSpec, pool_spec_ok.
  destruct (metapool && _) eqn:Hm.
  { split; [done|]. intros [Hs _]. exfalso. revert Hm. repeat case_bool_decide; destruct metapool; simpl; try done; lia. }
  destruct (bool_decide (ps_ReplicatedSize spec = 0%N) && _ && _ || _) eqn:Hb.
  { split; [done|]. intros [Hs _]. exfalso. revert Hb. repeat case_bool_decide; simpl; try done; lia. }
  rewrite !app_nil, (chunks_exact _ _ _ _ _ _ Hm Hb), <-class_exact, when_nil, andb_false_iff, negb_false_iff,
    bool_decide_eq_false, bool_decide_eq_true, imp_or.
  destruct (validateDeviceClass _ _); [|tauto]. by split; intros (_ & ? & _).
Qed.

(** Either no pool has a role of OpenStack, or each role is given, and all but that of
    volumes once. *)
Definition role_pools (pools : list CephPool) (role : string) : nat := length (filter (λ p, pl_Role p = role) pools).
Definition os_roles : list string := ["images"; "vms"; "backup"; "volumes"].
Definition openstack_ok (pools : list CephPool) : Prop :=
  Forall (λ role, role_pools pools role = 0%nat) os_roles ∨
  Forall (λ role, role_pools pools role ≠ 0%nat ∧ ((1 < role_pools pools role)%nat → role = "volumes")) os_roles.

Lemma openstack_roles_lookup pools role :
  openstack_roles pools !! role = if decide (role ∈ os_roles) then Some (Z.of_nat (role_pools pools role)) else None.
Proof.
  unfold openstack_roles, role_pools. induction pools as [|p pools IH] using rev_ind.
  { simpl. case_decide as Hin; [by unfold os_roles in Hin; mem_inv Hin; subst|].
    unfold os_roles in Hin. rewrite !elem_of_cons in Hin. rewrite !lookup_insert_ne, lookup_singleton_ne; tauto || set_solver. }
  rewrite foldl_snoc, filter_app, length_app, filter_cons, filter_nil. set (m := foldl _ _ _) in *.
  destruct (decide (pl_Role p = role)) as [->|Hne]; simpl.
  - rewrite IH. destruct (decide (role ∈ os_roles)); [rewrite lookup_insert_eq; f_equal; lia|done].
  - destruct (m !! pl_Role p); [rewrite lookup_insert_ne by done|]; rewrite IH; by rewrite Nat.add_0_r.
Qed.

Lemma openstack_roles_range pools (P : string → Z → Prop) :
  Forall (λ r, P r.1 r.2) (range 83 (openstack_roles pools)) ↔
  Forall (λ role, P role (Z.of_nat (role_pools pools role))) os_roles.
Proof.
  rewrite !Forall_forall. split.
  - intros Hf role Hin. apply (Hf (role, _)). apply elem_of_range. rewrite openstack_roles_lookup. by case_decide.
  - intros Hf [role z] Hin. apply elem_of_range in Hin. rewrite openstack_roles_lookup in Hin.
    case_decide; simplify_eq/=. by apply Hf.
Qed.

Lemma total_zero (l : list (string * Z)) :
  Forall (λ r, 0 ≤ r.2) l → foldl (λ n r, n + r.2) 0 l = 0 ↔ Forall (λ r, r.2 = 0) l.
Proof.
  intros Hl. enough (∀ z, 0 ≤ z → foldl (λ n r, n + r.2) z l = 0 ↔ z = 0 ∧ Forall (λ r, r.2 = 0) l) as Hz
    by (rewrite Hz by done; tauto).
  induction Hl as [|r l Hr _ IH]; intros z Hz; simpl; [rewrite Forall_nil; tauto|]. rewrite IH, Forall_cons by lia. intuition lia.
Qed.

Lemma openstack_exact pools : openstackPoolsValidate pools = [] ↔ openstack_ok pools.
Proof.
  unfold openstackPoolsValidate, openstack_ok. set (l := range 83 (openstack_roles pools)).
  assert (foldl (λ n r, n + r.2) 0 l = 0 ↔ Forall (λ role, role_pools pools role = 0%nat) os_roles) as Ht.
  { rewrite total_zero by (apply (openstack_roles_range pools (λ _ z, 0 ≤ z)), Forall_true; lia).
    etransitivity; [apply (openstack_roles_range pools (λ _ z, z = 0))|]. apply Forall_iff. lia. }
  case_decide as Hz; [rewrite Ht in Hz; tauto|].
  rewrite app_nil.
  transitivity (filter (λ r, r.2 = 0) l = [] ∧ filter (λ r, 1 < r.2 ∧ r.1 ≠ "volumes") l = []).
  { destruct (filter (λ r, r.2 = 0) l), (filter (λ r, 1 < r.2 ∧ _) l); simpl; intuition done. }
  rewrite !filter_nil_iff, <-Forall_and.
  etransitivity; [apply (openstack_roles_range pools (λ role z, z ≠ 0 ∧ ¬ (1 < z ∧ role ≠ "volumes")))|].
  trans (Forall (λ role, role_pools pools role ≠ 0%nat ∧ ((1 < role_pools pools role)%nat → role = "volumes")) os_roles);
    [|rewrite Ht in Hz; tauto].
  apply Forall_iff. intros role. destruct (decide (role = "volumes")); [intuition lia|].
  split; (intros [? Hn]; split; [lia|]); [intros ?; exfalso; apply Hn; split; [lia|done]|intros [? _]; apply n, Hn; lia].
Qed.

Context `{SpecDecoder}.

Definition reclaim_ok (policy : string) : Prop := policy = "" ∨ policy ∈ poolReclaimPolicies.

Definition pool_ok (external : bool) (nodes : list CephDeploymentNode) (pool : CephPool) : Prop :=
  let spec := (CephPool_GetSpec pool).1 in
  if external then ps_DeviceClass spec ≠ ""
  else pool_spec_ok false spec nodes ∧ reclaim_ok (scs_ReclaimPolicy (pl_StorageClassOpts pool)).

Definition default_pools (pools : list CephPool) : nat :=
  length (filter (λ p, scs_Default (pl_StorageClassOpts p) = true) pools).

Definition pools_ok (external : bool) (nodes : list CephDeploymentNode) (pools : list CephPool) : Prop :=
  Forall (pool_ok external nodes) pools ∧
  if external then (default_pools pools ≤ 1)%nat else default_pools pools = 1%nat ∧ openstack_ok pools.

Lemma reclaim_exact policy (msg : string) :
  (if negb (bool_decide (policy = "")) && negb (Contains poolReclaimPolicies policy) then [msg] else []) = [] ↔ reclaim_ok policy.
Proof.
  rewrite when_nil, andb_false_iff, !negb_false_iff, bool_decide_eq_true, Contains_spec. done.
Qed.

Lemma pool_exact external nodes d msgs pool :
  pool_errors external nodes (d, msgs) pool = (d || scs_Default (pl_StorageClassOpts pool),
    (pool_errors external nodes (d, msgs) pool).2) ∧
  ((pool_errors external nodes (d, msgs) pool).2 = [] ↔
   msgs = [] ∧ d && scs_Default (pl_StorageClassOpts pool) = false ∧ pool_ok external nodes pool).
Proof.
  split; [done|]. unfold pool_errors, pool_ok. simpl. rewrite !app_nil, when_nil. destruct external.
  - rewrite error_nil. tauto.
  - rewrite app_nil, pool_spec_exact, reclaim_exact. tauto.
Qed.

Lemma pools_loop_exact external nodes pools d msgs :
  let r := foldl (pool_errors external nodes) (d, msgs) pools in
  r.1 = d || bool_decide (1 ≤ default_pools pools)%nat ∧
  (r.2 = [] ↔ msgs = [] ∧ (Nat.b2n d + default_pools pools ≤ 1)%nat ∧ Forall (pool_ok external nodes) pools).
Proof.
  revert d msgs. induction pools as [|p pools IH]; intros d msgs; cbv zeta in *; cbn [foldl].
  { simpl. rewrite orb_false_r, Forall_nil. split; [done|]. unfold default_pools. destruct d; simpl; intuition lia. }
  destruct (pool_exact external nodes d msgs p) as [-> Hp]. destruct (IH (d || scs_Default (pl_StorageClassOpts p))
    (pool_errors external nodes (d, msgs) p).2) as [-> Hl]. rewrite Hl, Hp, Forall_cons. unfold default_pools.
  rewrite filter_cons. destruct (scs_Default (pl_StorageClassOpts p)); simpl.
  - rewrite orb_true_r, andb_true_r. simpl. split; [by destruct d|]. destruct d; simpl; intuition (try done; lia).
  - rewrite orb_false_r, andb_false_r. split; [done|]. intuition.
Qed.

Lemma pools_exact blockStorage nodes external :
  validatePoolsSpec blockStorage nodes external = [] ↔
  (external = false → default [] blockStorage ≠ []) ∧ pools_ok external nodes (default [] blockStorage).
Proof.
  unfold validatePoolsSpec, pools_ok. destruct (default [] blockStorage) as [|p pools].
  { destruct external; simpl; [|intuition done]. rewrite Forall_nil. unfold default_pools. simpl. intuition lia. }
  destruct (pools_loop_exact external nodes (p :: pools) false []) as [Hd Hm].
  destruct (foldl _ _ _) as [found msgs]. simpl in Hd, Hm. subst found. rewrite app_nil, Hm. destruct external.
  - intuition done.
  - rewrite app_nil, unless_nil, openstack_exact, bool_decide_eq_true.
    assert (default_pools (p :: pools) = 1%nat ↔ (default_pools (p :: pools) ≤ 1)%nat ∧ (1 ≤ default_pools (p :: pools))%nat)
      as -> by lia. intuition done.
Qed.

(** ** File systems *)

(** The first data pool, the default one, is only checked to be replicated. *)
Definition filesystem_ok (external : bool) (nodes : list CephDeploymentNode) (fs : DplFilesystem) : Prop :=
  let spec := (CephFilesystem_GetSpec fs).1 in
  match fss_DataPools spec with
  | [] => False
  | first :: others =>
      external = false →
      pool_spec_ok true (fss_MetadataPool spec) nodes ∧ ps_ReplicatedSize first.2 ≠ 0%N ∧
      Forall (λ p, pool_spec_ok false p.2 nodes) others ∧ mss_ActiveCount (fss_MetadataServer spec) ≤ role_count "mds" nodes
  end.

Lemma data_pools_exact name nodes k pools :
  concat (imap (λ i, data_pool_errors name nodes (S (k + i))) pools) = [] ↔ Forall (λ p, pool_spec_ok false p.2 nodes) pools.
Proof.
  revert k. induction pools as [|p pools IH]; intros k; [by split|]. rewrite imap_cons. simpl.
  rewrite app_nil, pool_spec_exact, Forall_cons, <-(IH (S k)). apply and_iff_compat_l.
  erewrite imap_ext; [done|]. intros i x _. unfold compose. done.
Qed.

Lemma filesystem_exact external nodes fs : filesystem_errors nodes external fs = [] ↔ filesystem_ok external nodes fs.
Proof.
  unfold filesystem_errors, filesystem_ok. destruct (fss_DataPools _) as [|first others]; [done|].
  destruct external; [by split|]. rewrite !app_nil, pool_spec_exact, imap_cons. simpl.
  rewrite app_nil, !error_nil, Z.nlt_ge.
  assert (concat (imap (data_pool_errors (dfs_Name fs) nodes ∘ S) others) = [] ↔ Forall (λ p, pool_spec_ok false p.2 nodes) others)
    as -> by apply (data_pools_exact _ _ 0). intuition.
Qed.

(** ** Object storage *)

Definition pool_in_spec (blockStorage : option (list CephPool)) (name : string) : Prop :=
  ∃ pool, pool ∈ default [] blockStorage ∧ buildPoolName pool = name.

Definition named_ok (blockStorage : option (list CephPool)) (required : bool) (name : string) : Prop :=
  if decide (name = "") then required = false else pool_in_spec blockStorage name.

Definition placement_ok (blockStorage : option (list CephPool)) (p : PoolPlacement) : Prop :=
  named_ok blockStorage true (pp_MetadataPoolName p) ∧ named_ok blockStorage true (pp_DataPoolName p) ∧
  named_ok blockStorage false (pp_DataNonECPoolName p) ∧
  Forall (λ sc, named_ok blockStorage true (psc_DataPoolName sc)) (pp_StorageClasses p).

Definition default_placements (sp : SharedPoolsSpec) : list PoolPlacement :=
  filter (λ p, pp_Default p = true) (sp_PoolPlacements sp).

Definition shared_pools_ok (blockStorage : option (list CephPool)) (sp : SharedPoolsSpec) : Prop :=
  Forall (placement_ok blockStorage) (sp_PoolPlacements sp) ∧ (length (default_placements sp) ≤ 1)%nat ∧
  named_ok blockStorage false (sp_MetadataPoolName sp) ∧ named_ok blockStorage false (sp_DataPoolName sp).

(** The pools of a zone or a gateway: shared ones, or one of its own. *)
Definition store_pools_ok (blockStorage : option (list CephPool)) (nodes : list CephDeploymentNode)
    (sp : SharedPoolsSpec) (metadataPool dataPool : PoolSpec) : Prop :=
  shared_pools_ok blockStorage sp ∧
  (default_placements sp ≠ [] ∨ sp_MetadataPoolName sp ≠ "" ∨ pool_spec_ok true metadataPool nodes) ∧
  (default_placements sp ≠ [] ∨ sp_DataPoolName sp ≠ "" ∨ pool_spec_ok false dataPool nodes).

Lemma find_exact blockStorage name : findPoolInSpec blockStorage name = true ↔ pool_in_spec blockStorage name.
Proof. unfold findPoolInSpec, pool_in_spec. rewrite existsb_true. by setoid_rewrite bool_decide_eq_true. Qed.

Lemma named_exact blockStorage (required : bool) (msg notFound name : string) :
  named_pool_errors blockStorage (if required then [msg] else []) notFound name = [] ↔ named_ok blockStorage required name.
Proof.
  unfold named_pool_errors, named_ok. case_decide; [by destruct required|]. by rewrite unless_nil, find_exact.
Qed.

Lemma placement_exact blockStorage name p : placement_errors blockStorage name p = [] ↔ placement_ok blockStorage p.
Proof.
  unfold placement_errors, placement_ok. rewrite !app_nil, bind_nil.
  rewrite !(named_exact blockStorage true), (named_exact blockStorage false "").
  by setoid_rewrite (named_exact blockStorage true).
Qed.

Lemma store_pools_exact blockStorage nodes name sp metadataPool dataPool :
  store_pools_errors blockStorage nodes name sp metadataPool dataPool = [] ↔
  store_pools_ok blockStorage nodes sp metadataPool dataPool.
Proof.
  unfold store_pools_errors, validateRgwSharedPools, store_pools_ok, shared_pools_ok. fold (default_placements sp).
  rewrite !app_nil, bind_nil, !(named_exact blockStorage false ""), error_nil, Nat.nlt_ge.
  setoid_rewrite placement_exact.
  assert (∀ (d : list PoolPlacement) (n : string) (errs : list string) (P : Prop), (errs = [] ↔ P) →
    (if negb (bool_decide (d = [])) || negb (bool_decide (n = "")) then [] else errs) = [] ↔ d ≠ [] ∨ n ≠ "" ∨ P) as Hset.
  { intros d n errs P HP. case_bool_decide; case_bool_decide; simpl; tauto. }
  rewrite (Hset _ _ _ _ (pool_spec_exact _ _ _ _)), (Hset _ _ _ _ (pool_spec_exact _ _ _ _)). tauto.
Qed.

Section storage.
Context (external : bool) (nodes : list CephDeploymentNode) (blockStorage : option (list CephPool)) (storage : CephObjectStorage).

Definition zonegroup_ok (zg : CephObjectZonegroup) : Prop :=
  (CephObjectZonegroup_GetSpec zg).1 ∈ dor_Name <$> cos_Realms storage.

Definition zone_ok (zone : DplObjectZone) : Prop :=
  let spec := (CephObjectZone_GetSpec zone).1 in
  ozs_ZoneGroup spec ∈ dzg_Name <$> cos_Zonegroups storage ∧
  store_pools_ok blockStorage nodes (ozs_SharedPools spec) (ozs_MetadataPool spec) (ozs_DataPool spec).

Definition route_ok (route : CephDeploymentHTTPRoute) : Prop :=
  hrs_Hostnames (HTTPRoute_GetSpec route).1 ≠ [] ∧ dhr_ObjectStoreName route ∈ dos_Name <$> cos_Rgws storage.

Definition rgw_ok (rgw : DplObjectStore) : Prop :=
  let spec := (CephObjectStore_GetSpec rgw).1 in
  (ost_Port spec ≠ 0 ∨ ost_SecurePort spec ≠ 0) ∧
  if external then has_pools spec = false ∧ ost_ExternalRgwEndpoints spec ≠ []
  else
    (if decide (ost_ZoneName spec = "") then
       store_pools_ok blockStorage nodes (ost_SharedPools spec) (ost_MetadataPool spec) (ost_DataPool spec)
     else ost_ZoneName spec ∈ doz_Name <$> cos_Zones storage) ∧
    ost_Instances spec ≤ (if decide (role_count "rgw" nodes = 0) then role_count "mon" nodes else role_count "rgw" nodes).

Definition user_ok (user : CephObjectStoreUser) : Prop :=
  sus_Store (CephObjectStoreUser_GetSpec user).1 ≠ "" ∧ sus_Store (CephObjectStoreUser_GetSpec user).1 ∈ dos_Name <$> cos_Rgws storage.

Definition object_storage_ok : Prop :=
  (if external then cos_Realms storage = [] ∧ cos_Zonegroups storage = [] ∧ cos_Zones storage = []
   else Forall zonegroup_ok (cos_Zonegroups storage) ∧ Forall zone_ok (cos_Zones storage) ∧
        Forall route_ok (cos_GatewayHTTPRoutes storage)) ∧
  Forall rgw_ok (cos_Rgws storage) ∧ Forall user_ok (cos_Users storage).

Lemma store_known_exact name : store_known storage name = true ↔ name ∈ dos_Name <$> cos_Rgws storage.
Proof.
  unfold store_known. rewrite existsb_true, list_elem_of_fmap. setoid_rewrite bool_decide_eq_true. naive_solver.
Qed.

Lemma rgw_exact rgw :
  rgw_errors storage blockStorage nodes external (if external then 0 else role_count "mon" nodes)
    (if external then 0 else role_count "rgw" nodes) rgw = [] ↔ rgw_ok rgw.
Proof.
  unfold rgw_errors, rgw_ok. rewrite app_nil, when_nil, andb_false_iff, !bool_decide_eq_false.
  apply and_iff_compat_l. destruct external.
  { rewrite app_nil, when_nil, error_nil. tauto. }
  rewrite app_nil, when_nil. set (spec := (CephObjectStore_GetSpec rgw).1). apply and_iff_split.
  - case_decide; [apply store_pools_exact|]. rewrite guard_nil. tauto.
  - pose proof (role_count_nonneg "rgw" nodes). repeat case_bool_decide; simpl; case_decide; split; try done; lia.
Qed.

Lemma object_storage_exact :
  multisite_errors storage blockStorage nodes external ++
  (cos_Rgws storage ≫= rgw_errors storage blockStorage nodes external (if external then 0 else role_count "mon" nodes)
     (if external then 0 else role_count "rgw" nodes)) ++ (cos_Users storage ≫= user_errors storage) = [] ↔ object_storage_ok.
Proof.
  unfold object_storage_ok. rewrite !app_nil, (bind_nil _ (cos_Rgws _)), (bind_nil _ (cos_Users _)). setoid_rewrite rgw_exact.
  assert (∀ u, user_errors storage u = [] ↔ user_ok u) as Hu.
  { intros u. unfold user_errors, user_ok. rewrite error_nil, unless_nil, store_known_exact. tauto. }
  setoid_rewrite Hu. apply and_iff_compat_r. unfold multisite_errors. destruct external.
  { rewrite !app_nil. destruct (cos_Realms storage), (cos_Zonegroups storage), (cos_Zones storage); simpl; intuition done. }
  rewrite !app_nil, !bind_nil. repeat apply and_iff_split; apply Forall_iff.
  - intros zg. unfold zonegroup_errors, zonegroup_ok. rewrite guard_nil. tauto.
  - intros z. unfold zone_errors, zone_ok. rewrite app_nil, guard_nil, store_pools_exact. tauto.
  - intros r. unfold route_errors, route_ok. rewrite app_nil, error_nil, unless_nil, store_known_exact. tauto.
Qed.
End storage.

(** ** The whole specification *)

Definition ranges_ok (nets : list string) : Prop := nets ≠ [] ∧ Forall (λ net, net ≠ "" ∧ HasPrefix net "0.0.0.0" = false) nets.

Definition network_ok (n : NetworkSpec) : Prop :=
  ns_Provider n ∈ [EmptyString; "host"; "multus"] ∧
  (∃ public cluster, ns_AddressRanges n = Some (public, cluster) ∧ ranges_ok public ∧ ranges_ok cluster) ∧
  (ns_Provider n = "multus" →
   config_value (ns_Selectors n) "public" ≠ "" ∧ config_value (ns_Selectors n) "cluster" ≠ "").

Lemma ranges_exact name nets : range_errors name nets = [] ↔ ranges_ok nets.
Proof.
  unfold range_errors, ranges_ok. destruct nets as [|n nets]; [by split; [|intros []]|].
  rewrite when_nil. rewrite <-not_true_iff_false, existsb_true, Forall_forall. unfold bad_range.
  setoid_rewrite orb_true_iff. setoid_rewrite bool_decide_eq_true. setoid_rewrite <-not_true_iff_false.
  split; [|naive_solver]. intros Hn. split; [done|]. intros x Hx. split; intros ?; apply Hn; eauto.
Qed.

Lemma network_exact n : validateNetworkSpec n = [] ↔ network_ok n.
Proof.
  unfold validateNetworkSpec, network_ok. case_decide as Hp; [|by split; [|intros [? _]]].
  rewrite app_nil. rewrite (and_iff_split _ _ (∃ public cluster, ns_AddressRanges n = Some (public, cluster) ∧
    ranges_ok public ∧ ranges_ok cluster) (ns_Provider n = "multus" →
   config_value (ns_Selectors n) "public" ≠ "" ∧ config_value (ns_Selectors n) "cluster" ≠ "")); [tauto| |].
  - destruct (ns_AddressRanges n) as [[public cluster]|]; [|naive_solver].
    rewrite app_nil, !ranges_exact. naive_solver.
  - case_decide; [|by split]. rewrite when_nil, orb_false_iff, !bool_decide_eq_false. tauto.
Qed.

Lemma drivers_exact drivers : validateCSIDrivers drivers = [] ↔ NoDup (cdr_Type <$> drivers).
Proof.
  unfold validateCSIDrivers.
  set (step := λ (acc : list CSIDriverType * list string) driver, _).
  enough (∀ present msgs, (foldl step (present, msgs) drivers).2 = [] ↔
    msgs = [] ∧ NoDup (cdr_Type <$> drivers) ∧ Forall (λ d, cdr_Type d ∉ present) drivers) as Hl.
  { rewrite Hl. split; [tauto|]. intros ?. split_and!; [done|done|]. apply Forall_true. intros ?. apply not_elem_of_nil. }
  induction drivers as [|d ds IH]; intros present msgs; cbn [foldl]; [csimpl; rewrite NoDup_nil, Forall_nil; tauto|].
  rewrite fmap_cons, NoDup_cons, Forall_cons. destruct (decide (cdr_Type d ∈ present)) as [Hin|Hin].
  - assert (∃ m, step (present, msgs) d = (present, msgs ++ [m])) as [m ->] by (unfold step; rewrite decide_True by done; eauto).
    rewrite IH, app_nil. naive_solver.
  - assert (step (present, msgs) d = (cdr_Type d :: present, msgs)) as -> by (unfold step; by rewrite decide_False).
    rewrite IH, list_elem_of_fmap, !Forall_forall. split.
    + intros (-> & Hd & Hf). split_and!; [done| |done|done|].
      * intros (x & Heq & Hx). apply (Hf x Hx). rewrite <-Heq. apply list_elem_of_here.
      * intros x Hx Hp. apply (Hf x Hx). by apply list_elem_of_further.
    + intros (-> & (Hn & Hd) & _ & Hf). split_and!; [done|done|]. intros x Hx [Heq|Hp]%elem_of_cons; [|by apply (Hf x)].
      apply Hn. eauto.
Qed.

Definition internal_ok (known : list K8sNode) (c : deployConfig) (cs : ClusterSpec) : Prop :=
  let spec := cdp_Spec (dc_cephDpl c) in
  network_ok (csp_Network cs) ∧
  Forall (λ node, dn_Name node ∈ kn_Name <$> known) (dc_nodesListExpanded c) ∧
  Forall node_ok (dsp_Nodes spec) ∧ quorum_ok (dc_nodesListExpanded c) ∧
  (length (default [] (rbm_Peers <$> dsp_RBDMirror spec)) ≤ 1)%nat.

Definition spec_ok (known : list K8sNode) (c : deployConfig) (cs : ClusterSpec) : Prop :=
  let spec := cdp_Spec (dc_cephDpl c) in
  let nodes := dc_nodesListExpanded c in
  let external := csp_External cs in
  let pools := default [] (dsp_BlockStorage spec) in
  NoDup (cdr_Type <$> default [] (csr_Drivers <$> dsp_CSIResources spec)) ∧
  (external = false → internal_ok known c cs ∧ pools ≠ []) ∧
  pools_ok external nodes pools ∧
  Forall (filesystem_ok external nodes) (default [] (dsp_SharedFilesystem spec)) ∧
  from_option (object_storage_ok external nodes (dsp_BlockStorage spec)) True (dsp_ObjectStorage spec).

Lemma unknown_exact known nodes : unknown_nodes known nodes = [] ↔ Forall (λ node, dn_Name node ∈ kn_Name <$> known) nodes.
Proof.
  unfold unknown_nodes. rewrite filter_nil_iff, Forall_fmap. apply Forall_iff. intros n. simpl.
  split; [by intros ?%dec_stable|tauto].
Qed.

Lemma peers_exact m : nonempty (rbdPeersValidate m) = [] ↔ (length (default [] (rbm_Peers <$> m)) ≤ 1)%nat.
Proof. destruct m as [m|]; simpl; [|split; [lia|done]]. case_decide; simpl; split; (done || lia). Qed.

Lemma csi_exact spec rest :
  default [] ((λ csi, validateCSIDrivers (csr_Drivers csi)) <$> dsp_CSIResources spec) ++ rest = [] ↔
  NoDup (cdr_Type <$> default [] (csr_Drivers <$> dsp_CSIResources spec)) ∧ rest = [].
Proof.
  rewrite app_nil. apply and_iff_compat_r. destruct (dsp_CSIResources spec); simpl; [apply drivers_exact|].
  split; [intros _; apply NoDup_nil_2|done].
Qed.

(** The checks that are made of every cluster. *)
Lemma parts_exact spec nodes external :
  validatePoolsSpec (dsp_BlockStorage spec) nodes external ++
    validateFilesystemSpec (dsp_SharedFilesystem spec) nodes external ++
    validateObjectStorageSpec (dsp_ObjectStorage spec) (dsp_BlockStorage spec) nodes external = [] ↔
  ((external = false → default [] (dsp_BlockStorage spec) ≠ []) ∧ pools_ok external nodes (default [] (dsp_BlockStorage spec))) ∧
  Forall (filesystem_ok external nodes) (default [] (dsp_SharedFilesystem spec)) ∧
  from_option (object_storage_ok external nodes (dsp_BlockStorage spec)) True (dsp_ObjectStorage spec).
Proof.
  rewrite !app_nil, pools_exact. unfold validateFilesystemSpec. rewrite bind_nil.
  setoid_rewrite filesystem_exact. do 2 apply and_iff_compat_l. destruct (dsp_ObjectStorage spec) as [storage|]; [|done].
  apply object_storage_exact.
Qed.
End exact.

(** C17: the validation of a CephDeployment accepts exactly the specifications described
    by [spec_ok], whatever order Go visits its maps in: it succeeds if and only if the
    nodes of the cluster can be listed (where they are needed) and the specification
    fits them. The verdict is for the generation of the object it was made for. *)
Theorem validation_exact `{World} `{SpecDecoder} `{MapRange} h c cs :
  let v := (validateSpec c cs h).1 in
  val_LastValidatedGeneration v = cdp_Generation (dc_cephDpl c) ∧
  (val_Result v = ValidationSucceed ↔
   (csp_External cs = false → (w_node_list h).2 = None) ∧ spec_ok (w_node_list h).1 c cs).
Proof.
  assert (∀ errs : list string, match errs with [] => ValidationSucceed | _ => ValidationFailed end = ValidationSucceed ↔ errs = [])
    as Hres by (intros []; simpl; split; done).
  unfold validateSpec, spec_ok, internal_ok. destruct (csp_External cs) eqn:Hext; simpl.
  - split; [done|]. rewrite Hres, csi_exact, parts_exact. naive_solver.
  - unfold validateClusterNodes, GetNodeList, call, mbind', mret'. simpl.
    destruct (w_node_list h) as [known [e|]]; simpl.
    { split; [done|]. rewrite Hres, !app_nil. naive_solver. }
    destruct (unknown_nodes known _) as [|u us] eqn:Hu; simpl; (split; [done|]); rewrite Hres, csi_exact, app_nil.
    + rewrite parts_exact, !app_nil, network_exact, nodes_exact, peers_exact, <-(unknown_exact known), Hu. naive_solver.
    + rewrite !app_nil, <-(unknown_exact known), Hu. naive_solver.
Qed.
