(* ===== verification/DeployWorld.v ===== *)
(** * The world of the deployment controller

    What pkg/controller/deployment asks of Kubernetes, Rook and the API of Pelagia
    beyond [World] and [HealthWorld], with the helpers of pkg/common it shares:
    [IsCephToolboxCLIAvailable] (cli_utils.go), [AlignBaseLabels] (k8s_utils.go),
    [IsOpenStackPoolsPresent] (cephdeployment_utils.go); and the interface [ResourceOps], against
    which the controller is modelled. *)

From S2P Require Import Prelude GoTime Types HealthTypes DeployTypes World HealthWorld Extensions Validate.
Open Scope Z_scope.

Class DeployWorld := {
  (** nodes: an update, and the list by a selector, [None] selecting every node *)
  w_node_update : history → K8sNode → option err;
  w_nodes_selected : history → option string → list K8sNode * option err;
  (** whether [labels.Parse] accepts a selector *)
  labels_parses : string → bool;
  (** the number of deployments of a namespace with a selector *)
  w_deployments_selected : history → string → string → nat * option err;
  (** a deployment or a daemon set with the image of its first container, if it has one *)
  w_deployment_image : history → string → string → (Deployment * option string) * option err;
  w_daemonset_image : history → string → string → (DaemonSet * option string) * option err;
  w_image_update : history → string → string → string → string → option err;
  (** the CephCluster, with the fields that are changed *)
  w_rookcluster_get : history → string → string → RookCluster * option err;
  w_rookcluster_update : history → RookCluster → option err;
  (** the CephDeployment objects *)
  w_dpl_list : history → string → list CephDeployment * option err;
  w_dpl_cached : history → string → string → CephDeployment * option err;
  w_dpl_update : history → CephDeployment → option err;
  w_dpl_status_update : history → string → string → CephDeploymentStatus → option err;
  w_gvk_dpl : string * string * option err;
  (** the labels of another object of Pelagia, its creation, update and deletion, by kind *)
  w_object_labels : history → string → string → string → option (gmap string string) * option err;
  w_object_create : history → string → string → string → option err;
  w_object_update : history → string → string → string → gmap string string → option err;
  w_object_delete : history → string → string → string → option err;
  (** the version-check deployment: the image of its container and whether the rest of its spec
      is as expected; how often [wait.PollUntilContextTimeout] polls; the output of a command *)
  w_version_dpl_get : history → string → (string * bool) * option err;
  w_poll_attempts : history → nat;
  w_exec_version : history → string → string → string * string * option err;
  (** the versions Ceph reports, with the numbers of daemons *)
  json_CephVersions : string → gmap string Z * option err;
  (** state and release of the objects OpenStackDeploymentStatus *)
  w_openstack_status : history → list (option (string * string)) * option err;
  (** an environment variable of the controller *)
  w_env : string → option string;
}.

(** ** Labels of what the controller creates *)

Definition ControllerName : string := "pelagia-deployment-controller".

Definition baseResourceLabels : gmap string string :=
  {["app.kubernetes.io/part-of" := "ceph.pelagia.lcm"; "app.kubernetes.io/created-by" := ControllerName;
    "app.kubernetes.io/managed-by" := ControllerName]}.

Section common.
Context `{World} `{HealthWorld} `{DeployWorld}.

Definition IsCephToolboxCLIAvailable (namespace : string) : IO bool :=
  let* r := read "Deployment" namespace PelagiaToolBox (λ h, w_deployment_object h namespace PelagiaToolBox) in
  match r with
  | (_, Some _) => ret false
  | (cephToolBox, None) => ret (IsDeploymentReady cephToolBox)
  end.

Definition isCephDeployed (namespace : string) : IO bool :=
  let* r := read "ConfigMap" namespace "rook-ceph-mon-endpoints"
              (λ h, w_configmap_get h namespace "rook-ceph-mon-endpoints") in
  ret (match r.2 with Some _ => false | None => true end).

Definition node_update (node : K8sNode) : IO (option err) := call (EvNodeUpdate node) (λ h, w_node_update h node).
End common.

(** [AlignBaseLabels]: the labels of the object ([None] is the nil map) and whether
    they were changed. *)
Definition AlignBaseLabels `{MapRange} (labels : option (gmap string string)) (baseLabels : gmap string string)
    : gmap string string * bool :=
  match labels with
  | None => (baseLabels, true)
  | Some labels =>
      foldl (λ '(labels, updated) '(k, v),
               if decide (labels !! k = Some v) then (labels, updated) else (<[k := v]> labels, true))
        (labels, false) (range 84 baseLabels)
  end.

Definition IsOpenStackPoolsPresent (pools : list CephPool) : bool :=
  existsb (λ pool, Contains ["images"; "vms"; "backup"; "volumes"] (pl_Role pool)) pools.

(** ** What the deployment controller asks of its operations

    The reconcile loop calls an operation for every kind of resource it keeps.  The class
    [ResourceOps] is their interface: the operations, by the name the controller gives them,
    and what each of them promises not to touch.  The loop is modelled and proved against
    this interface; DeployCompose provides the operations. *)

(** An operation on a resource leaves alone: the CephDeployment and its status, the
    CephCluster's existence, nodes, tasks and jobs. *)
Definition resource_event (e : event) : Prop :=
  match e with
  | EvRead _ _ _ | EvClock | EvCeph _ _ | EvApply _ _ | EvClusterGet _ _ | EvClusterUpdate _ | EvStamps _ => True
  | EvDelete kind _ _ => kind ≠ "CephCluster"
  | _ => False
  end.

(** The labelling of nodes for the CSI driver changes nodes, pods and volume attachments. *)
Definition daemonset_event (e : event) : Prop :=
  match e with
  | EvNodeList | EvRead _ _ _ | EvClock | EvPodExec _ _ _ | EvNodeUpdate _ => True
  | EvDelete kind _ _ => kind ≠ "CephCluster"
  | _ => False
  end.

Class ResourceOps := {
  (** applying: whether something was changed, and an error; [None] is a panic *)
  op_ensure : string → DeployParams → deployConfig → string → IO (option (bool * option err));
  (** [ensureCluster], with the keys it has found rotated; [None] is a panic *)
  op_cluster : string → DeployParams → deployConfig → IO (option ((bool * option err) * option CephxConfig));
  (** deleting: whether everything is gone, and an error *)
  op_remove : string → DeployParams → deployConfig → string → IO (bool * option err);
  (** [ensureDaemonsetLabels]; [None] is a panic *)
  op_daemonsets : string → DeployParams → IO (option unit);
  op_ensure_events ns params c what : spec resource_event (op_ensure ns params c what) (λ _, True);
  op_cluster_events ns params c : spec resource_event (op_cluster ns params c) (λ _, True);
  op_remove_events ns params c what : spec resource_event (op_remove ns params c what) (λ _, True);
  op_daemonsets_events ns params : spec daemonset_event (op_daemonsets ns params) (λ _, True);
}.
