(* ===== verification/Resources.v ===== *)
(** * Objects of Rook and Kubernetes behind the deployment controller

    What the operations on pools, storage classes, file systems, clients and CSI pods ask of
    the API server, the steps they share ([process_object], the collection of errors) and the
    small predicates of pkg/controller/deployment/utils.go.  Polling
    ([wait.PollUntilContextTimeout]) is bounded by the number of attempts the world grants. *)

From S2P Require Import Prelude GoTime Types HealthTypes DeployTypes World HealthWorld Extensions Validate DeployWorld.
Open Scope Z_scope.

Class ResourceWorld := {
  w_blockpool_list : history → string → list BlockPool * option err;
  w_blockpool_get : history → string → string → BlockPool * option err;
  (** by a label that must be [true]; the empty label lists all *)
  w_storageclass_list : history → string → list StorageClass * option err;
  w_filesystem_list : history → string → list Filesystem * option err;
  w_filesystem_get : history → string → string → Filesystem * option err;
  w_client_list : history → string → list RookClient * option err;
  (** creating or updating one of them *)
  w_apply : history → objectProcess → resource → option err;
  (** claims of a namespace: name, phase and class; volumes: name, phase and class *)
  w_pvc_list : history → string → list (string * string * option string) * option err;
  w_pv_list : history → list (string * string * string) * option err;
  (** the pods of the CSI driver: name and node; a command in one of them *)
  w_csi_pods : history → string → list (string * string) * option err;
  w_pod_exec : history → string → string → string → string * string * option err;
  (** volume attachments: name, attacher and node *)
  w_attachments : history → list (string * string * string) * option err;
  (** group, version and kind of a CephCluster *)
  w_gvk_cluster : string * string * option err;
  (** a config map or a secret, and a network policy *)
  w_data_get : history → string → string → string → DataObject * option err;
  w_netpol_get : history → string → string → NetworkPolicy * option err;
  (** the names of the network policies of a namespace with the label of the controller *)
  w_netpol_list : history → string → list string * option err;
  (** [RandomizedName] *)
  w_random_name : history → string → string;
  (** the names of [ceph fs ls], the entries of [ceph fs subvolumegroup ls] *)
  json_FsLs : string → list string * option err;
  json_SubvolumeGroups : string → list (gmap string string) * option err;
  (** section, name and value of the entries of [ceph config dump] *)
  json_ConfigDump : string → list (string * string * string) * option err;
  (** the connection data of an external cluster *)
  json_CephConnection : string → CephConnection * option err;
  (** package crypto/sha256, in hexadecimal *)
  GetStringSha256 : string → string;
}.

(** ** Memory of the process

    [resourceUpdateTimestamps] outlives a round: it has the value that was assigned last. *)
Definition current_stamps (h : history) : updateTimestamps :=
  default zero_stamps (last (omap (λ e, match e with EvStamps s => Some s | _ => None end) h)).
Definition cephConfigParametersUpdateTimestampLabel (section : string) : string :=
  "cephdeployment.lcm.mirantis.com/config-" +:+ section +:+ "-updated".
Definition get_stamps : IO updateTimestamps := λ h, (current_stamps h, []).
Definition put_stamps (s : updateTimestamps) : IO unit := call (EvStamps s) (λ _, tt).

(** ** Readiness *)

Definition isTypeReadyToUpdate (condition : string) : bool :=
  negb (Contains ["Connecting"; "Progressing"; "Deleting"] condition).

Definition isStateReadyToUpdate (state : string) : bool :=
  negb (Contains ["Creating"; "Connecting"; "Updating"] state).

(** An object that may be updated now; the message otherwise. *)
Definition not_ready_msg (kind ns name : string) (phase : option string) : option string :=
  let msg := "found not ready " +:+ kind +:+ " " +:+ ns +:+ "/" +:+ name +:+ ", waiting for readiness" in
  match phase with
  | None => Some msg
  | Some phase => if isTypeReadyToUpdate phase then None else Some (msg +:+ " (current phase is " +:+ phase +:+ ")")
  end.

Definition resourceCreatedByPelagia (currentLabels : gmap string string) : bool :=
  negb (bool_decide (currentLabels = ∅)) &&
  forallb (λ '(k, v), bool_decide (currentLabels !! k = Some v)) (map_to_list baseResourceLabels).

(** ** Shared steps *)

Section steps.
Context `{DeployWorld} `{ResourceWorld}.

(** [processBlockPools] and [processCephClients]. *)
Definition process_object (kind : string) (process : objectProcess) (r : resource) (ns name : string) : IO (option err) :=
  let* e :=
    match process with
    | objectDelete => call (EvDelete kind ns name) (λ h, w_object_delete h kind ns name)
    | _ => call (EvApply process r) (λ h, w_apply h process r)
    end in
  match e with
  | None => ret None
  | Some e =>
      if bool_decide (process = objectDelete) && is_not_found e then ret None
      else ret (Some (wrap_err ("failed to " +:+ objectProcess_str process +:+ " " +:+ kind +:+ " " +:+ ns +:+ "/" +:+ name) e))
  end.

Definition apply_resource (process : objectProcess) (r : resource) : IO (option err) :=
  call (EvApply process r) (λ h, w_apply h process r).
Definition object_delete (kind ns name : string) : IO (option err) :=
  call (EvDelete kind ns name) (λ h, w_object_delete h kind ns name).
Definition data_get (kind ns name : string) : IO (DataObject * option err) :=
  read kind ns name (λ h, w_data_get h kind ns name).

(** What an ensure operation returns for the errors it has collected. *)
Definition ensured (single : err → err) (multiple : string) (errs : list err) (changed : bool) : bool * option err :=
  match errs with
  | [] => (changed, None)
  | [e] => (false, Some (single e))
  | _ => (false, Some (new_err multiple))
  end.

(** ** Objects of one kind against the expected ones

    [ensurePools] and [ensureCephClients] share this loop: the objects that are present, by
    name, are compared with the expected ones one after another, and what is left over is
    removed.  [align new present] is the present object with the changes it needs, and whether
    there are any. *)

Section sync.
Context {O : Type} (kind ns : string) (o_name o_namespace : O → string) (o_phase : O → option string) (inj : O → resource)
  (align : O → O → O * bool).

(** Objects still to be looked at, errors, changes. *)
Definition sync_state : Type := gmap string O * list err * bool.

Definition sync_process (process : objectProcess) (o : O) : IO (option err) :=
  process_object kind process (inj o) (o_namespace o) (o_name o).

Definition sync_step (acc : sync_state) (new : O) : IO sync_state :=
  let '(present, errMsg, changed) := acc in
  match present !! o_name new with
  | Some o =>
      let rest := delete (o_name new) present in
      match not_ready_msg kind ns (o_name o) (o_phase o) with
      | Some msg => ret (rest, errMsg ++ [new_err msg], changed)
      | None =>
          let '(o, differs) := align new o in
          if (differs : bool) then
            let* e := sync_process objectUpdate o in
            ret (rest, errMsg ++ option_list e, true)
          else ret (rest, errMsg, changed)
      end
  | None =>
      let* e := sync_process objectCreate new in
      ret (present, errMsg ++ option_list e, true)
  end.

Definition sync_drop (keep : O → bool) (acc : list err * bool) (entry : string * O) : IO (list err * bool) :=
  if keep entry.2 then ret acc
  else
    let* e := sync_process objectDelete entry.2 in
    ret (acc.1 ++ option_list e, true).
End sync.

(** [wait.PollUntilContextTimeout], immediate: the condition is tried at once and then again
    as often as the timeout allows; [None] is the timeout. *)
Fixpoint poll {A} (n : nat) (condition : IO (option A)) : IO (option A) :=
  match n with
  | O => ret None
  | S n' =>
      let* r := condition in
      match r with
      | Some a => ret (Some a)
      | None => poll n' condition
      end
  end.

(** The error of a timeout. *)
Definition deadline : err := new_err "context deadline exceeded".

Definition PollUntil {A} (condition : IO (option A)) : IO (option A) :=
  let* n := call EvClock w_poll_attempts in poll (S (Nat.pred n)) condition.
End steps.

(** ** Objects of one kind against the expected ones: what the loop does

    For expected objects with different names: which objects are created, updated and removed
    ([sync_events], [drop_events], whatever the answers are), and that the loop reports neither a change nor an error exactly
    if every expected object is there, ready and aligned ([sync_exact]). *)

(** ** Objects by name, and their labels *)

Lemma by_name_lookup {O} (o_name : O → string) (items : list O) k o :
  NoDup (o_name <$> items) →
  foldl (λ m o, <[o_name o := o]> m) (∅ : gmap string O) items !! k = Some o ↔ o ∈ items ∧ o_name o = k.
Proof.
  induction items as [|o' items IH] using rev_ind; intros Hnd.
  { simpl. rewrite lookup_empty, elem_of_nil. naive_solver. }
  rewrite fmap_app in Hnd. simpl in Hnd. apply NoDup_app in Hnd as (Hnd & Hdisj & _).
  rewrite foldl_app. simpl. rewrite elem_of_app, list_elem_of_singleton.
  destruct (decide (k = o_name o')) as [->|Hne].
  - rewrite lookup_insert_eq. split; [intros [= <-]; auto|]. intros [[Hin| ->] Hname]; [|done].
    destruct (Hdisj (o_name o)); [by apply list_elem_of_fmap_2|]. rewrite Hname. left.
  - rewrite lookup_insert_ne, IH by done. naive_solver.
Qed.

Lemma align_flag `{MapRange} labels base :
  (AlignBaseLabels labels base).2 = false ↔ ∃ l, labels = Some l ∧ base ⊆ l.
Proof.
  destruct labels as [l|]; simpl; [|split; [done|by intros (? & ? & _)]].
  set (f := λ '(labels, updated) '(k, v), _). trans (base ⊆ l); [|naive_solver].
  rewrite map_subseteq_spec.
  assert (Htrue : ∀ es l, (foldl f (l, true) es).2 = true).
  { induction es as [|[k v] es IH]; intros l'; [done|]. simpl. destruct (decide _); apply IH. }
  assert (Hgen : ∀ es l, (foldl f (l, false) es).2 = false ↔ ∀ k v, (k, v) ∈ es → l !! k = Some v).
  { induction es as [|[k v] es IH]; intros l'; [split; [by intros _ ?? []%not_elem_of_nil|done]|]. simpl.
    destruct (decide _) as [Hin|Hnin].
    - rewrite IH. setoid_rewrite elem_of_cons. naive_solver.
    - rewrite Htrue. split; [done|]. intros Hall. destruct Hnin. apply Hall. left. }
  rewrite Hgen. by setoid_rewrite elem_of_range.
Qed.

(** The objects that are left when [news] were looked at. *)
Definition left_over {O} (o_name : O → string) (present : gmap string O) (news : list O) : gmap string O :=
  foldl (λ m new, delete (o_name new) m) present news.

Lemma left_over_lookup {O} (o_name : O → string) (present : gmap string O) news k :
  left_over o_name present news !! k = if decide (k ∈ o_name <$> news) then None else present !! k.
Proof.
  revert present. induction news as [|new news IH]; intros present; [done|]. cbn [left_over foldl fmap list_fmap].
  unfold left_over in IH. rewrite IH. destruct (decide (k = o_name new)) as [->|Hne].
  - rewrite (decide_True (P:=o_name new ∈ o_name new :: _)) by left. rewrite lookup_delete_eq. by destruct (decide _).
  - rewrite lookup_delete_ne by done. destruct (decide (k ∈ o_name <$> news)) as [Hin|Hnin].
    + by rewrite decide_True by (by right).
    + by rewrite decide_False by (rewrite elem_of_cons; tauto).
Qed.

(** ** The loop *)

Section sync.
Context `{DeployWorld} `{ResourceWorld}.
Context {O : Type} (kind ns : string) (o_name o_namespace : O → string) (o_phase : O → option string) (inj : O → resource)
  (align : O → O → O * bool).
Abbreviation step := (sync_step kind ns o_name o_namespace o_phase inj align).
Abbreviation state := (sync_state (O:=O)).

(** An object that may be updated. *)
Definition ready (o : O) : Prop := not_ready_msg kind ns (o_name o) (o_phase o) = None.

(** Nothing is to be done for an expected object. *)
Definition settled (present : gmap string O) (new : O) : Prop :=
  ∃ o, present !! o_name new = Some o ∧ ready o ∧ (align new o).2 = false.

(** No change and no error so far. *)
Definition quiet (acc : list err * bool) : Prop := acc = ([], false).

Lemma quiet_not_errs errs e changed : ¬ quiet (errs ++ [e], changed).
Proof. intros [= Hn _]. by destruct errs. Qed.

Lemma quiet_not_changed errs : ¬ quiet (errs, true).
Proof. by intros [=]. Qed.

(** One round: the object is dropped from those to be looked at, and nothing is reported
    exactly if it is settled. *)
Lemma step_runs present errs changed new :
  spec (λ _, True) (step (present, errs, changed) new) (λ r,
    r.1.1 = delete (o_name new) present ∧ (quiet (r.1.2, r.2) ↔ quiet (errs, changed) ∧ settled present new)).
Proof.
  unfold sync_step. destruct (present !! o_name new) as [o|] eqn:Ho.
  - unfold settled. rewrite Ho. destruct (not_ready_msg _ _ _ _) as [msg|] eqn:Hr.
    + apply spec_ret. split; [done|]. split; [by intros ?%quiet_not_errs|]. intros (_ & o' & [= <-] & Hready & _).
      unfold ready in Hready. congruence.
    + destruct (align new o) as [o' [|]] eqn:Ha.
      * eapply spec_bind_any; [apply spec_triv|]. intros e. apply spec_ret. split; [done|].
        split; [by intros ?%quiet_not_changed|]. intros (_ & o1 & [= <-] & _ & Hal). by rewrite Ha in Hal.
      * apply spec_ret. split; [done|]. split; [|by intros []]. intros Hq. split; [done|]. exists o. by rewrite Ha.
  - eapply spec_bind_any; [apply spec_triv|]. intros e. apply spec_ret. split; [symmetry; by apply delete_id|].
    split; [by intros ?%quiet_not_changed|]. intros (_ & o & Ho' & _). congruence.
Qed.

(** Which objects are left over does not depend on names being different. *)
Lemma sync_left present news errs changed :
  spec (λ e, ∃ process r, e = EvApply process r) (foldM step news (present, errs, changed)) (λ r, r.1.1 = left_over o_name present news).
Proof.
  revert present errs changed. induction news as [|new news IH]; intros present errs changed; simpl; [by apply spec_ret|].
  apply (spec_bind _ _ _ (λ r, r.1.1 = delete (o_name new) present));
    [|intros [[present' errs'] changed'] Hp; simpl in Hp; subst present'; apply IH].
  unfold sync_step. destruct (present !! o_name new) as [o|] eqn:Ho.
  - destruct (not_ready_msg _ _ _ _); [by apply spec_ret|]. destruct (align new o) as [o' [|]]; [|by apply spec_ret].
    apply spec_bind_any; [|intros e; by apply spec_ret]. apply spec_bind_any; [apply spec_call; eauto|].
    intros [e|]; [|by apply spec_ret]. by destruct (_ && _); apply spec_ret.
  - apply spec_bind_any; [|intros e; apply spec_ret; symmetry; by apply delete_id].
    apply spec_bind_any; [apply spec_call; eauto|]. intros [e|]; [|by apply spec_ret]. by destruct (_ && _); apply spec_ret.
Qed.

(** The whole loop over expected objects with different names. *)
Lemma sync_exact present news errs changed :
  NoDup (o_name <$> news) →
  spec (λ _, True) (foldM step news (present, errs, changed)) (λ r,
    r.1.1 = left_over o_name present news ∧ (quiet (r.1.2, r.2) ↔ quiet (errs, changed) ∧ Forall (settled present) news)).
Proof.
  revert present errs changed. induction news as [|new news IH]; intros present errs changed Hnd; simpl.
  { apply spec_ret. split; [done|]. split; [by intros|by intros []]. }
  apply NoDup_cons in Hnd as [Hnin Hnd]. eapply spec_bind; [apply step_runs|].
  intros [[present' errs'] changed'] [Hp Hq]. simpl in Hp, Hq. subst present'.
  eapply spec_weaken; [by apply IH|done|]. intros [[m e] b] [Hm Hq']. simpl in *. split; [done|].
  rewrite Hq', Hq, Forall_cons. split; intros Hall.
  - destruct Hall as [[Hquiet Hset] Hrest]. split_and!; [done|done|]. apply Forall_forall. intros n Hn.
    rewrite Forall_forall in Hrest. destruct (Hrest n Hn) as (o & Hl & Hr & Ha). exists o. split_and!; [|done|done].
    by apply lookup_delete_Some in Hl as [_ Hl].
  - destruct Hall as (Hquiet & Hset & Hrest). split; [done|]. apply Forall_forall. intros n Hn.
    rewrite Forall_forall in Hrest. destruct (Hrest n Hn) as (o & Hl & Hr & Ha). exists o. split_and!; [|done|done].
    apply lookup_delete_Some. split; [|done]. intros Heq. apply Hnin. rewrite Heq. by apply list_elem_of_fmap_2.
Qed.

(** Two expected objects of one name: the second is created again, so the loop is not quiet. *)
Lemma sync_distinct present news errs changed :
  spec (λ _, True) (foldM step news (present, errs, changed)) (λ r,
    quiet (r.1.2, r.2) → quiet (errs, changed) ∧ NoDup (o_name <$> news) ∧ ∀ n, n ∈ o_name <$> news → is_Some (present !! n)).
Proof.
  revert present errs changed. induction news as [|new news IH]; intros present errs changed; simpl.
  { apply spec_ret. intros Hq. split_and!; [done|constructor|by intros n []%elem_of_nil]. }
  eapply spec_bind; [apply step_runs|]. intros [[present' errs'] changed'] [Hp Hq]. simpl in Hp, Hq. subst present'.
  eapply spec_weaken; [by apply IH|done|]. intros r Hr Hquiet. destruct (Hr Hquiet) as (Hq' & Hnd & Hin).
  apply Hq in Hq' as [Hq' (o & Hl & _)]. split_and!; [done|apply NoDup_cons; split; [|done]|].
  - intros [o' Ho']%Hin. by rewrite lookup_delete_eq in Ho'.
  - intros n [->|[o' Ho']%Hin]%elem_of_cons; [by eexists|]. apply lookup_delete_Some in Ho' as [_ Ho']. by eexists.
Qed.

(** The interaction for one expected object. *)
Definition change_of (present : gmap string O) (new : O) : list event :=
  match present !! o_name new with
  | None => [EvApply objectCreate (inj new)]
  | Some o =>
      if not_ready_msg kind ns (o_name o) (o_phase o) then []
      else if (align new o).2 then [EvApply objectUpdate (inj (align new o).1)] else []
  end.

Lemma elem_of_change present new e :
  e ∈ change_of present new ↔
  (present !! o_name new = None ∧ e = EvApply objectCreate (inj new)) ∨
  (∃ o, present !! o_name new = Some o ∧ ready o ∧ (align new o).2 = true ∧ e = EvApply objectUpdate (inj (align new o).1)).
Proof using Type.
  clear o_namespace. unfold change_of, ready. destruct (present !! o_name new) as [o|]; [|rewrite list_elem_of_singleton; naive_solver].
  destruct (not_ready_msg _ _ _ _) eqn:Hr; [rewrite elem_of_nil; naive_solver|].
  destruct (align new o) as [o' [|]] eqn:Ha; simpl; rewrite ?list_elem_of_singleton, ?elem_of_nil; split.
  - intros ->. right. exists o. by rewrite Ha.
  - intros [[? _]|(o1 & [= <-] & _ & _ & ->)]; [done|]. by rewrite Ha.
  - done.
  - intros [[? _]|(o1 & [= <-] & _ & Hf & _)]; [done|]. by rewrite Ha in Hf.
Qed.

Lemma step_events present errs changed new h : (step (present, errs, changed) new h).2 = change_of present new.
Proof.
  unfold sync_step, change_of. destruct (present !! o_name new) as [o|]; [|simpl; by repeat case_match].
  destruct (not_ready_msg _ _ _ _); [done|]. destruct (align new o) as [o' [|]]; simpl; by repeat case_match.
Qed.

Lemma sync_events present errs changed news h :
  NoDup (o_name <$> news) → (foldM step news (present, errs, changed) h).2 = news ≫= change_of present.
Proof.
  intros Hnd. revert present errs changed h. induction news as [|new news IH]; intros present errs changed h; [done|].
  apply NoDup_cons in Hnd as [Hnin Hnd]. cbn [foldM]. rewrite bind_snd, step_events. simpl (_ ≫= _).
  destruct (step_runs present errs changed new h) as [[Hp _] _].
  destruct (step (present, errs, changed) new h) as [[[present' errs'] changed'] evs]. simpl in *. subst present'.
  f_equal. rewrite (IH Hnd). clear IH Hnd. induction news as [|n news IH]; [done|]. simpl. f_equal.
  - unfold change_of. rewrite lookup_delete_ne; [done|]. intros Heq. apply Hnin. rewrite Heq. left.
  - apply IH. intros Hin. apply Hnin. by right.
Qed.

(** What is left over: everything that is not to be kept is removed. *)
Lemma drop_events keep entries acc h :
  (foldM (sync_drop kind o_name o_namespace inj keep) entries acc h).2 =
  entries ≫= λ entry, if keep entry.2 then [] else [EvDelete kind (o_namespace entry.2) (o_name entry.2)].
Proof.
  revert acc h. induction entries as [|entry entries IH]; intros acc h; [done|]. simpl. rewrite IH. f_equal.
  unfold sync_drop. destruct (keep entry.2); [done|]. simpl. by repeat case_match.
Qed.

Lemma drop_exact keep entries errs changed :
  spec (λ _, True) (foldM (sync_drop kind o_name o_namespace inj keep) entries (errs, changed))
    (λ r, quiet r ↔ quiet (errs, changed) ∧ Forall (λ entry, keep entry.2 = true) entries).
Proof.
  revert errs changed. induction entries as [|entry entries IH]; intros errs changed; simpl.
  { apply spec_ret. split; [by intros|by intros []]. }
  unfold sync_drop at 1. destruct (keep entry.2) eqn:Hk.
  - apply spec_bind_ret. eapply spec_weaken; [apply IH|done|]. intros r ->. rewrite Forall_cons. tauto.
  - eapply spec_bind; [apply (spec_bind_any _ _ _ (λ acc, acc.2 = true)); [apply spec_triv|intros e; by apply spec_ret]|].
    intros [errs' changed'] Hc. simpl in Hc. subst changed'. eapply spec_weaken; [apply IH|done|].
    intros r ->. rewrite Forall_cons. split; [by intros [?%quiet_not_changed _]|intros (_ & Hk' & _); congruence].
Qed.
End sync.
