(* ===== verification/Pools.v ===== *)
(** * Block pools

    pkg/controller/deployment/pool.go.  A CephBlockPool is made for every pool of the spec;
    pools that are not in the spec are removed, except the builtin ones and those that are
    marked to be preserved. *)

From S2P Require Import Prelude GoTime Types HealthTypes DeployTypes World HealthWorld Extensions Validate DeployWorld Resources.
Open Scope Z_scope.

Definition poolPreserveOnDeleteAnnotation : string := "cephdeployment.lcm.mirantis.com/preserve-on-delete".

Definition set_bpo_spec (name : string) (spec : PoolSpec) (p : BlockPool) : BlockPool :=
  mkBlockPool (bpo_Name p) (bpo_Namespace p) (bpo_Labels p) (bpo_Annotations p) name spec (bpo_Phase p).

Section pools.
Context `{SpecDecoder} `{DeployWorld} `{ResourceWorld} `{MapRange}.
Variable rookNs : string.

Definition generatePool (pool : CephPool) (namespace : string) : BlockPool :=
  mkBlockPool (buildPoolName pool) namespace (Some baseResourceLabels)
    (if pl_PreserveOnDelete pool then {[poolPreserveOnDeleteAnnotation := "true"]} else ∅)
    (if Contains builtinCephPools (pl_Name pool) then pl_Name pool else EmptyString)
    (CephPool_GetSpec pool).1 None.

Definition processBlockPools (process : objectProcess) (pool : BlockPool) : IO (option err) :=
  process_object "CephBlockPool" process (RBlockPool pool) (bpo_Namespace pool) (bpo_Name pool).

(** The pool as it is, with labels and spec of the new one, and whether something differs. *)
Definition aligned_pool (newPool presentPool : BlockPool) : BlockPool * bool :=
  let '(labels, changedBaseLabels) := AlignBaseLabels (bpo_Labels presentPool) (default ∅ (bpo_Labels newPool)) in
  let specUpdated := negb (bool_decide ((bpo_SpecName newPool, bpo_Spec newPool) = (bpo_SpecName presentPool, bpo_Spec presentPool))) in
  let presentPool := set_bpo_Labels (Some labels) presentPool in
  (if specUpdated then set_bpo_spec (bpo_SpecName newPool) (bpo_Spec newPool) presentPool else presentPool,
   specUpdated || changedBaseLabels).

(** The loop over the spec. *)
Definition pool_step : sync_state (O:=BlockPool) → CephPool → IO sync_state := λ acc cephDplPool,
  sync_step "CephBlockPool" rookNs bpo_Name bpo_Namespace bpo_Phase RBlockPool aligned_pool acc (generatePool cephDplPool rookNs).

Definition preserved (pool : BlockPool) : bool := bool_decide (bpo_Annotations pool !! poolPreserveOnDeleteAnnotation = Some "true").

(** The loop over the pools that are left. *)
Definition drop_step : list err * bool → string * BlockPool → IO (list err * bool) :=
  sync_drop "CephBlockPool" bpo_Name bpo_Namespace RBlockPool preserved.

Definition builtin_dropped (presentPools : gmap string BlockPool) : gmap string BlockPool :=
  foldl (λ m builtinPool, delete (getBuiltinPoolName builtinPool) m) presentPools builtinCephPools.

Definition ensurePools (c : deployConfig) : IO (bool * option err) :=
  let* r := read "CephBlockPoolList" rookNs EmptyString (λ h, w_blockpool_list h rookNs) in
  match r with
  | (_, Some e) => ret (false, Some (wrap_err "failed to get list pools" e))
  | (items, None) =>
      let presentPools : gmap string BlockPool := foldl (λ m pool, <[bpo_Name pool := pool]> m) ∅ items in
      let* acc := foldM pool_step (default [] (dsp_BlockStorage (cdp_Spec (dc_cephDpl c)))) (presentPools, [], false) in
      let '(presentPools, errMsg, poolsChanged) := acc in
      let* r := foldM drop_step (range 88 (builtin_dropped presentPools)) (errMsg, poolsChanged) in
      ret (ensured (wrap_err "failed to ensure CephBlockPools")
             "failed to ensure CephBlockPools, multiple errors during pools ensure" r.1 r.2)
  end.

(** All pools are removed; the errors are counted. *)
Definition delete_step (errMsgs : nat) (pool : BlockPool) : IO nat :=
  if decide (bpo_SpecName pool = ".rgw.root") then ret errMsgs
  else
    let* e := processBlockPools objectDelete pool in
    ret (match e with Some _ => S errMsgs | None => errMsgs end).

Definition deletePools : IO (bool * option err) :=
  let* r := read "CephBlockPoolList" rookNs EmptyString (λ h, w_blockpool_list h rookNs) in
  match r with
  | (_, Some e) => ret (false, Some (wrap_err "failed to list ceph block pools" e))
  | ([], None) => ret (true, None)
  | (items, None) =>
      let* errMsgs := foldM delete_step items O in
      match errMsgs with
      | O => ret (false, None)
      | S _ => ret (false, Some (new_err "some ceph block pools failed to delete"))
      end
  end.
End pools.

(** ** Block pools: what a pass does

    The writes of [ensurePools], one by one ([pool_changes]), and when it has nothing to do
    ([pools_converged]). *)

Section pools.
Context `{SpecDecoder} `{DeployWorld} `{ResourceWorld} `{MapRange}.
Variables (rookNs : string) (c : deployConfig) (h : history) (items : list BlockPool).
Let pools : list CephPool := default [] (dsp_BlockStorage (cdp_Spec (dc_cephDpl c))).
Let names : list string := buildPoolName <$> pools.

Hypothesis Hlist : w_blockpool_list h rookNs = (items, None).
Hypothesis Hitems : NoDup (bpo_Name <$> items).
Hypothesis Hnames : NoDup names.

Definition builtin_names : list string := getBuiltinPoolName <$> builtinCephPools.

(** A present pool that is ready to be updated. *)
Abbreviation pool_ready p := (ready "CephBlockPool" rookNs bpo_Name bpo_Phase p).

(** It is what the spec asks for. *)
Definition pool_as_specified (pool : CephPool) (p : BlockPool) : Prop :=
  bpo_SpecName p = bpo_SpecName (generatePool pool rookNs) ∧ bpo_Spec p = bpo_Spec (generatePool pool rookNs) ∧
  ∃ labels, bpo_Labels p = Some labels ∧ baseResourceLabels ⊆ labels.

Lemma aligned_flag pool p : (aligned_pool (generatePool pool rookNs) p).2 = false ↔ pool_as_specified pool p.
Proof.
  unfold aligned_pool, pool_as_specified. pose proof (align_flag (bpo_Labels p) baseResourceLabels) as Hl. simpl.
  destruct (AlignBaseLabels _ _) as [l b]. simpl in *. rewrite <-Hl, orb_false_iff, negb_false_iff, bool_decide_eq_true.
  split; [intros [[= Hn Hs] Hb]; auto|]. intros (Hn & Hs & Hb). by rewrite Hn, Hs.
Qed.

Let present : gmap string BlockPool := foldl (λ m pool, <[bpo_Name pool := pool]> m) ∅ items.

Lemma present_lookup k p : present !! k = Some p ↔ p ∈ items ∧ bpo_Name p = k.
Proof. by apply by_name_lookup. Qed.

Lemma present_none k : present !! k = None ↔ k ∉ bpo_Name <$> items.
Proof.
  rewrite eq_None_not_Some. apply not_iff_compat. rewrite list_elem_of_fmap. split.
  - intros [p Hp%present_lookup]. naive_solver.
  - intros (p & -> & Hp). exists p. by apply present_lookup.
Qed.

Let news : list BlockPool := (λ pool, generatePool pool rookNs) <$> pools.

Lemma news_names : bpo_Name <$> news = names.
Proof. unfold news, names. rewrite <-list_fmap_compose. done. Qed.

(** The pools that are left to be removed, unless they are preserved. *)
Definition surplus : gmap string BlockPool := builtin_dropped (left_over bpo_Name present news).

Lemma surplus_lookup k p :
  surplus !! k = Some p ↔ (p ∈ items ∧ bpo_Name p = k) ∧ k ∉ names ∧ k ∉ builtin_names.
Proof.
  unfold surplus. change (builtin_dropped ?m) with (delete (getBuiltinPoolName ".rgw.root") (delete (getBuiltinPoolName ".mgr") m)).
  rewrite !lookup_delete_Some, left_over_lookup, news_names. unfold builtin_names.
  cbn [builtinCephPools fmap list_fmap]. rewrite !not_elem_of_cons, <-present_lookup.
  destruct (decide (k ∈ names)); rewrite ?elem_of_nil; naive_solver.
Qed.

(** The writes of a pass. *)
Definition pool_writes : list event :=
  (news ≫= change_of "CephBlockPool" rookNs bpo_Name bpo_Phase RBlockPool aligned_pool present) ++
  (range 88 surplus ≫= λ entry, if preserved entry.2 then [] else [EvDelete "CephBlockPool" (bpo_Namespace entry.2) (bpo_Name entry.2)]).

Lemma ensurePools_run :
  (ensurePools rookNs c h).2 = EvRead "CephBlockPoolList" rookNs EmptyString :: pool_writes ∧
  ((ensurePools rookNs c h).1 = (false, None) ↔
   Forall (settled "CephBlockPool" rookNs bpo_Name bpo_Phase aligned_pool present) news ∧
   Forall (λ entry, preserved entry.2 = true) (range 88 surplus)).
Proof.
  set (step := sync_step "CephBlockPool" rookNs bpo_Name bpo_Namespace bpo_Phase RBlockPool aligned_pool).
  assert (Hfold : ∀ h1, foldM (pool_step rookNs) pools (present, [], false) h1 = foldM step news (present, [], false) h1).
  { intros h1. symmetry. apply (foldM_fmap step). }
  unfold ensurePools, read, mbind'. simpl. rewrite Hlist. fold present pools. rewrite Hfold. clear Hfold.
  set (h1 := h ++ _). pose proof news_names as Hnn. rewrite <-Hnn in Hnames.
  pose proof (sync_events "CephBlockPool" rookNs bpo_Name bpo_Namespace bpo_Phase RBlockPool aligned_pool present [] false news h1 Hnames) as Hev.
  destruct (sync_exact "CephBlockPool" rookNs bpo_Name bpo_Namespace bpo_Phase RBlockPool aligned_pool present news [] false Hnames h1)
    as [[Hleft Hquiet] _]. fold step in Hev, Hleft, Hquiet.
  destruct (foldM step news (present, [], false) h1) as [[[m errs] changed] evs]. simpl in *. subst m evs. fold surplus.
  unfold drop_step. rewrite drop_events, app_nil_r. split; [done|].
  destruct (drop_exact "CephBlockPool" bpo_Name bpo_Namespace RBlockPool preserved (range 88 surplus) errs changed (h1 ++ (news ≫= change_of "CephBlockPool" rookNs bpo_Name bpo_Phase RBlockPool aligned_pool present)))
    as [Hdrop _]. destruct (foldM _ (range 88 surplus) _ _) as [[errs' changed'] evs']. simpl in *.
  trans (quiet (errs', changed')); [|rewrite Hdrop, Hquiet; unfold quiet; naive_solver].
  unfold quiet, ensured. destruct errs' as [|e1 [|e2 errs']]; naive_solver.
Qed.

(** C24: With pools of different names in the spec, what a pass over the block pools writes is
    exactly this: a pool of the spec that is not there is created; one that is there, ready
    and different is updated; and a pool that is there, not in the spec, not builtin and not
    marked to be preserved is deleted.  Nothing else is written, whatever the API server
    answers to the writes. *)
Theorem pool_changes e :
  e ∈ (ensurePools rookNs c h).2 ↔
  e = EvRead "CephBlockPoolList" rookNs EmptyString ∨
  (∃ pool, pool ∈ pools ∧ buildPoolName pool ∉ bpo_Name <$> items ∧ e = EvApply objectCreate (RBlockPool (generatePool pool rookNs))) ∨
  (∃ pool p, pool ∈ pools ∧ p ∈ items ∧ bpo_Name p = buildPoolName pool ∧ pool_ready p ∧ ¬ pool_as_specified pool p ∧
     e = EvApply objectUpdate (RBlockPool (aligned_pool (generatePool pool rookNs) p).1)) ∨
  (∃ p, p ∈ items ∧ bpo_Name p ∉ names ∧ bpo_Name p ∉ builtin_names ∧ preserved p = false ∧
     e = EvDelete "CephBlockPool" (bpo_Namespace p) (bpo_Name p)).
Proof.
  rewrite (proj1 ensurePools_run), elem_of_cons. unfold pool_writes. rewrite elem_of_app, !list_elem_of_bind.
  apply or_iff_compat_l. apply or_iff_both; [|split].
  - setoid_rewrite elem_of_change. split.
    + intros (new & [[Hn ->]|(p & Hp & Hr & Ha & ->)] & (pool & -> & Hpool)%list_elem_of_fmap).
      * left. exists pool. by rewrite <-present_none.
      * right. exists pool, p. apply present_lookup in Hp as [Hp Hname]. split_and!; [done|done|done|done| |done].
        by rewrite <-aligned_flag, Ha.
    + intros [(pool & Hpool & Hn & ->)|(pool & p & Hpool & Hp & Hname & Hr & Ha & ->)];
        exists (generatePool pool rookNs); (split; [|apply list_elem_of_fmap; by exists pool]).
      * left. split; [|done]. by apply present_none.
      * right. exists p. split_and!; [by apply present_lookup|done| |done]. apply not_false_iff_true. by rewrite aligned_flag.
  - intros ([k p] & Hin & Hk%elem_of_range%surplus_lookup). simpl in Hin. destruct (preserved p) eqn:Hpr; [by apply elem_of_nil in Hin|].
    apply list_elem_of_singleton in Hin as ->. destruct Hk as ((Hp & <-) & Hn & Hb). by exists p.
  - intros (p & Hp & Hn & Hb & Hpr & ->). exists (bpo_Name p, p). simpl. rewrite Hpr. split; [left|].
    apply elem_of_range, surplus_lookup. auto.
Qed.

(** With pools of different names in the spec, a pass over the block pools reports neither
    a change nor an error exactly if every pool of the spec is there, ready, with the
    specified settings and the labels of the controller, and every other pool is a builtin
    one or marked to be preserved. *)
Theorem pools_converged :
  (ensurePools rookNs c h).1 = (false, None) ↔
  (∀ pool, pool ∈ pools → ∃ p, p ∈ items ∧ bpo_Name p = buildPoolName pool ∧ pool_ready p ∧ pool_as_specified pool p) ∧
  (∀ p, p ∈ items → bpo_Name p ∈ names ∨ bpo_Name p ∈ builtin_names ∨ preserved p = true).
Proof.
  rewrite (proj2 ensurePools_run), !Forall_forall. apply and_iff_both; split.
  - intros Hs pool Hpool. destruct (Hs (generatePool pool rookNs)) as (p & [Hp Hn]%present_lookup & Hr & Ha); [apply list_elem_of_fmap; by exists pool|].
    exists p. by rewrite <-aligned_flag.
  - intros Hs new (pool & -> & Hpool)%list_elem_of_fmap. destruct (Hs pool Hpool) as (p & Hp & Hn & Hr & Ha).
    exists p. split_and!; [by apply present_lookup|done|by apply aligned_flag].
  - intros Hs p Hp. destruct (decide (bpo_Name p ∈ names)); [by left|]. destruct (decide (bpo_Name p ∈ builtin_names)); [by right; left|].
    right; right. apply (Hs (bpo_Name p, p)). apply elem_of_range, surplus_lookup. auto.
  - intros Hs [k p] Hk%elem_of_range%surplus_lookup. destruct Hk as ((Hp & <-) & Hn & Hb). destruct (Hs p Hp) as [?|[?|?]]; done.
Qed.
End pools.

(** A pass that has nothing to do has found the names of the spec different. *)
Lemma pools_distinct `{SpecDecoder} `{DeployWorld} `{ResourceWorld} `{MapRange} rookNs c h :
  (ensurePools rookNs c h).1 = (false, None) → NoDup (buildPoolName <$> default [] (dsp_BlockStorage (cdp_Spec (dc_cephDpl c)))).
Proof.
  unfold ensurePools, read, mbind'. simpl. destruct (w_blockpool_list h rookNs) as [items [e|]]; [done|].
  set (present := foldl _ _ items). set (pools := default [] _). set (h1 := h ++ _).
  set (step := sync_step "CephBlockPool" rookNs bpo_Name bpo_Namespace bpo_Phase RBlockPool aligned_pool).
  assert (Hfold : foldM (pool_step rookNs) pools (present, [], false) h1 = foldM step ((λ pool, generatePool pool rookNs) <$> pools) (present, [], false) h1).
  { symmetry. apply (foldM_fmap step). }
  rewrite Hfold. clear Hfold.
  destruct (sync_distinct "CephBlockPool" rookNs bpo_Name bpo_Namespace bpo_Phase RBlockPool aligned_pool present
    ((λ pool, generatePool pool rookNs) <$> pools) [] false h1) as [Hd _]. fold step in Hd.
  destruct (foldM step _ _ h1) as [[[m errs] changed] evs]. simpl in *.
  destruct (drop_exact "CephBlockPool" bpo_Name bpo_Namespace RBlockPool preserved (range 88 (builtin_dropped m)) errs changed (h1 ++ evs)) as [Hdrop _].
  unfold drop_step. destruct (foldM _ (range 88 _) _ _) as [[errs' changed'] evs']. simpl in *. intros Hr.
  assert (Hq : quiet (errs', changed')) by (revert Hr; unfold quiet, ensured; destruct errs' as [|e1 [|e2 errs']]; naive_solver).
  apply Hdrop in Hq as [Hq _]. destruct (Hd Hq) as (_ & Hnd & _). by rewrite <-list_fmap_compose in Hnd.
Qed.
