(* ===== verification/Clients.v ===== *)
(** * Ceph clients

    pkg/controller/deployment/client.go.  A CephClient is made for every client of the spec
    and, on a cluster for OpenStack, for every service that has none in the spec; the keys of
    the latter are rotated: clients of earlier rotations are kept as asked, and the last one
    that is ready as long as the new one is not.

    Rotation numbers are 16-bit integers. *)

From S2P Require Import Prelude GoTime Types HealthTypes DeployTypes World CleanupJob Config HealthWorld Extensions Validate DeployWorld Resources.
Open Scope Z_scope.

Definition cephDeploymentClientRoleLabel : string := "cephdeployment.lcm.mirantis.com/client-role".
Definition cephDeploymentClientRotationLabel : string := "cephdeployment.lcm.mirantis.com/client-rotation".
Definition cephDeploymentClientLatestLabel : string := "cephdeployment.lcm.mirantis.com/client-latest".

(** ** Making a client *)

Definition generateClient (namespace : string) (clientSpec : ClientSpec) (role : string) : RookClient :=
  mkRookClient (ToLower (ReplaceAll (cls_Name clientSpec) "_" "-")) namespace
    (Some (if decide (role = "") then DeployWorld.baseResourceLabels
           else ExtendLabels {[cephDeploymentClientRoleLabel := role]} DeployWorld.baseResourceLabels))
    clientSpec None.

Definition set_rcl_names (name specName : string) (c : RookClient) : RookClient :=
  mkRookClient name (rcl_Namespace c) (rcl_Labels c) (set_cls_Name specName (rcl_Spec c)) (rcl_Phase c).

(** Names of pools by the role OpenStack gives them. *)
Definition pools_by_role (pools : list (CephPool * string)) : gmap string (list string) :=
  foldl (λ m '(pool, poolName),
    match pl_Role pool with
    | "images" => <["images" := [poolName]]> m
    | "vms" => <["vms" := [poolName]]> m
    | "backup" => <["backup" := [poolName]]> m
    | "volumes" | "volumes-backend" => <["volumes" := default [] (m !! "volumes") ++ [poolName]]> m
    | _ => m
    end) {["vms" := []; "volumes" := []; "images" := []; "backup" := []]} pools.

Section clients.
Context `{SpecDecoder} `{DeployWorld} `{ResourceWorld} `{MapRange}.
Variable rookNs : string.

Fixpoint check_pool_names (client : string) (names : list string) : IO (option err) :=
  match names with
  | [] => ret None
  | pool :: names' =>
      let* r := read "CephBlockPool" rookNs pool (λ h, w_blockpool_get h rookNs pool) in
      match r with
      | (_, Some e) => ret (Some (wrap_err ("failed to get one of the required cephblockpools for " +:+ client +:+ " client") e))
      | (_, None) => check_pool_names client names'
      end
  end.

Fixpoint checkPoolsFn (pools : gmap string (list string)) (client : string) (poolTypes : list string) : IO (option err) :=
  match poolTypes with
  | [] => ret None
  | poolType :: poolTypes' =>
      match default [] (pools !! poolType) with
      | [] => ret (Some (new_err ("ceph block pool with role " +:+ poolType +:+ " not found in pools")))
      | names =>
          let* e := check_pool_names client names in
          match e with
          | Some e => ret (Some e)
          | None => checkPoolsFn pools client poolTypes'
          end
      end
  end.

(** The pools a service needs, and its capabilities once they are there. *)
Definition client_pools (client : string) : option (list string) :=
  match client with
  | "cinder" => Some ["volumes"; "images"; "backup"]
  | "glance" => Some ["images"]
  | "nova" => Some ["vms"; "images"; "volumes"]
  | "manila" => Some []
  | _ => None
  end.

Definition client_caps (pools : gmap string (list string)) (client : string) : gmap string string :=
  let first role := match pools !! role with Some (p :: _) => p | _ => EmptyString end in
  let volumes := Join ((λ v, "profile rbd pool=" +:+ v) <$> default [] (pools !! "volumes")) ", " in
  match client with
  | "cinder" => {["mon" := "allow profile rbd";
                  "osd" := volumes +:+ ", profile rbd-read-only pool=" +:+ first "images" +:+ ", profile rbd pool=" +:+ first "backup"]}
  | "glance" => {["mon" := "allow profile rbd"; "osd" := "profile rbd pool=" +:+ first "images"]}
  | "nova" => {["mon" := "allow profile rbd";
                "osd" := "profile rbd pool=" +:+ first "vms" +:+ ", profile rbd pool=" +:+ first "images" +:+ ", " +:+ volumes]}
  | "manila" => {["mds" := "allow rw"; "mgr" := "allow rw"; "osd" := "allow rw tag cephfs *=*";
                  "mon" := tq "allow r, allow command ~auth del~, allow command ~auth caps~, allow command ~auth get~, allow command ~auth get-or-create~"]}
  | _ => ∅
  end.
Definition generateOpenStackClient (c : deployConfig) (name : string) : IO (ClientSpec + err) :=
  let pools := pools_by_role (zip (default [] (dsp_BlockStorage (cdp_Spec (dc_cephDpl c)))) (dc_pools c)) in
  match client_pools name with
  | None => ret (inr (new_err ("failed to find pool type for '" +:+ name +:+ "' client")))
  | Some poolTypes =>
      let* e := checkPoolsFn pools name poolTypes in
      match e with
      | Some e => ret (inr e)
      | None =>
          let* clientName := call EvClock (λ h, w_random_name h name) in
          ret (inl (mkClientSpec clientName (client_caps pools name) EmptyString))
      end
  end.

(** The services that have no client in the spec. *)
Definition default_services (c : deployConfig) : gmap string unit :=
  let services : gmap string unit := {["cinder" := tt; "glance" := tt; "nova" := tt; "manila" := tt]} in
  let services :=
    match default [] (dsp_SharedFilesystem (cdp_Spec (dc_cephDpl c))) with [] => delete "manila" services | _ => services end in
  foldl (λ m client, delete (cl_Role client) m) services (dsp_Clients (cdp_Spec (dc_cephDpl c))).

Definition service_step (c : deployConfig) (acc : gmap string ClientSpec * bool) (entry : string * unit)
    : IO (gmap string ClientSpec * bool) :=
  let* r := generateOpenStackClient c entry.1 in
  match r with
  | inl spec => ret (<[entry.1 := spec]> acc.1, acc.2)
  | inr _ => ret (acc.1, true)
  end.

Definition defaultOpenstackClients (c : deployConfig) : IO (gmap string ClientSpec + err) :=
  let* r := foldM (service_step c) (range 89 (default_services c)) (∅, false) in
  if (r.2 : bool) then ret (inr (new_err "failed to generate default Openstack Ceph client(s)")) else ret (inl r.1).

(** ** Rotation *)

Definition client_label (client : RookClient) (label : string) : option string := rcl_Labels client ≫= λ l, l !! label.

Definition is_ready (client : RookClient) : bool := bool_decide (rcl_Phase client = Some "Ready").

(** The rotation of a client, -1 without one; [None] when the label is not a number. *)
Definition client_rotation (client : RookClient) : option Z :=
  match client_label client cephDeploymentClientRotationLabel with
  | None => Some (-1)
  | Some rotationStr => wrap 16 <$> Atoi rotationStr
  end.

(** The state of the search for the clients of a service. *)
Record rotation_state := mkRotation {
  rot_client : RookClient;                (** [defaultOsClient] *)
  rot_present : gmap string RookClient;   (** [presentClients] *)
  rot_newReady : bool;                    (** [newRotationForRoleReady] *)
  rot_last : option (string * Z);         (** [lastRotationForRoleReady] *)
}.

Section service.
Variables (role : string) (expectedRotation keepPrevious : Z).

(** The last ready rotation so far. *)
Definition newer_ready (client : RookClient) (rotation : Z) (last : option (string * Z)) : option (string * Z) :=
  if is_ready client then
    match last with
    | Some (_, lastRotation) => if decide (lastRotation < rotation) then Some (rcl_Name client, rotation) else last
    | None => Some (rcl_Name client, rotation)
    end
  else last.

(** A client that carries the label of the service and a rotation. *)
Definition rotation_step (st : rotation_state) (client : RookClient) (rotation : Z) : rotation_state :=
  if decide (rotation = expectedRotation) then
    mkRotation (set_rcl_names (rcl_Name client) (cls_Name (rcl_Spec client)) (rot_client st)) (rot_present st)
      (rot_newReady st || is_ready client) (rot_last st)
  else
    let present :=
      if decide (rotation < expectedRotation ∧ expectedRotation - rotation ≤ keepPrevious)
      then delete (rcl_Name client) (rot_present st) else rot_present st in
    mkRotation (rot_client st) present (rot_newReady st) (newer_ready client rotation (rot_last st)).

(** The loop over the clients that are there; it ends at a client from before the labels. *)
Fixpoint scan_clients (items : list RookClient) (st : rotation_state) : rotation_state + err :=
  match items with
  | [] => inl st
  | client :: items' =>
      match client_rotation client with
      | None =>
          inr (new_err ("failed to check rotation '" +:+ rcl_Namespace client +:+ "/" +:+ rcl_Name client +:+ "' CephClient: label '"
            +:+ cephDeploymentClientRotationLabel +:+ "' must be of int value: "
            +:+ default EmptyString (client_label client cephDeploymentClientRotationLabel ≫= Atoi_error)))
      | Some rotation =>
          let label := default EmptyString (client_label client cephDeploymentClientRoleLabel) in
          if decide (label = role) then
            scan_clients items' (if decide (0 ≤ rotation) then rotation_step st client rotation else st)
          else if decide (cls_Name (rcl_Spec client) = role ∧ label = "") then
            inl (mkRotation (set_rcl_names (rcl_Name client) (cls_Name (rcl_Spec client)) (rot_client st)) (rot_present st)
                   (rot_newReady st) (rot_last st))
          else scan_clients items' st
      end
  end.
End service.

(** The rotation that is asked for, and how many earlier ones are kept. *)
Definition rotation_params (c : deployConfig) : Z * Z :=
  default (0, 1) (dsp_ExtraOpts (cdp_Spec (dc_cephDpl c)) ≫= eo_RotateOsClients).

(** The client of one service, and the present clients without those that are kept. *)
Definition service_client (c : deployConfig) (items : list RookClient) (acc : list RookClient * gmap string RookClient)
    (service : string * ClientSpec) : (list RookClient * gmap string RookClient) + err :=
  let '(role, spec) := service in
  let '(expectedRotation, keepPrevious) := rotation_params c in
  let client := generateClient rookNs spec role in
  let client := set_rcl_Labels (Some (ExtendLabels {[cephDeploymentClientRotationLabel := pretty expectedRotation]}
                                        (default ∅ (rcl_Labels client)))) client in
  match scan_clients role expectedRotation keepPrevious items (mkRotation client acc.2 false None) with
  | inr e => inr e
  | inl st =>
      let present :=
        match rot_last st with
        | Some (name, _) => if rot_newReady st then rot_present st else delete name (rot_present st)
        | None => rot_present st
        end in
      inl (acc.1 ++ [rot_client st], present)
  end.

Fixpoint service_clients (c : deployConfig) (items : list RookClient) (services : list (string * ClientSpec))
    (acc : list RookClient * gmap string RookClient) : (list RookClient * gmap string RookClient) + err :=
  match services with
  | [] => inl acc
  | service :: services' =>
      match service_client c items acc service with
      | inr e => inr e
      | inl acc => service_clients c items services' acc
      end
  end.

(** ** The expected clients *)

(** The clients of the spec; the last one of every role is marked. *)
Definition spec_clients (c : deployConfig) : list RookClient :=
  let clients := dsp_Clients (cdp_Spec (dc_cephDpl c)) in
  imap (λ idx client,
    let rc := generateClient rookNs (CephClient_GetSpec client).1 (cl_Role client) in
    if bool_decide (cl_Role client ≠ "") && bool_decide (cl_Role client ∉ cl_Role <$> drop (S idx) clients)
    then set_rcl_Labels (<[cephDeploymentClientLatestLabel := "true"]> <$> rcl_Labels rc) rc
    else rc) clients.

(** A label the expected client does not have is removed. *)
Definition unset_label (expected : gmap string string) (acc : gmap string string * bool) (label : string) : gmap string string * bool :=
  match expected !! label, acc.1 !! label with
  | None, Some _ => (delete label acc.1, true)
  | _, _ => acc
  end.

Definition aligned_client (cephClient presentClient : RookClient) : RookClient * bool :=
  let expected := default ∅ (rcl_Labels cephClient) in
  let '(labels, labelsUpdated) := foldl (unset_label expected) (AlignBaseLabels (rcl_Labels presentClient) expected)
    [cephDeploymentClientRotationLabel; cephDeploymentClientLatestLabel; cephDeploymentClientRoleLabel] in
  (mkRookClient (rcl_Name presentClient) (rcl_Namespace presentClient) (Some labels) (rcl_Spec cephClient) (rcl_Phase presentClient),
   negb (bool_decide (rcl_Spec cephClient = rcl_Spec presentClient)) || labelsUpdated).

Definition client_step : sync_state (O:=RookClient) → RookClient → IO sync_state :=
  sync_step "CephClient" rookNs rcl_Name rcl_Namespace rcl_Phase RClient aligned_client.

(** The expected clients and those that are there and not kept. *)
Definition expected_clients (c : deployConfig) (items : list RookClient) : IO ((list RookClient * gmap string RookClient) + err) :=
  let present : gmap string RookClient := foldl (λ m client, <[rcl_Name client := client]> m) ∅ items in
  let external := match dc_clusterSpec c with Some cs => csp_External cs | None => false end in
  if negb external && dc_openstackSetup c then
    let* r := defaultOpenstackClients c in
    match r with
    | inr e => ret (inr (wrap_err "failed to verify default OpenStack CephClients" e))
    | inl osClients =>
        let roles := SortStrings (range 90 osClients).*1 in
        ret (service_clients c items (omap (λ role, (λ spec, (role, spec)) <$> osClients !! role) roles) (spec_clients c, present))
    end
  else ret (inl (spec_clients c, present)).

Definition ensureCephClients (c : deployConfig) : IO (bool * option err) :=
  let* r := read "CephClientList" rookNs EmptyString (λ h, w_client_list h rookNs) in
  match r with
  | (_, Some e) => ret (false, Some (wrap_err ("failed to list CephClients in " +:+ rookNs +:+ " namespace") e))
  | (items, None) =>
      let* r := expected_clients c items in
      match r with
      | inr e => ret (false, Some e)
      | inl (expected, present) =>
          let* acc := foldM client_step expected (present, [], false) in
          let '(present, errMsg, clientsChanged) := acc in
          let* r := foldM (sync_drop "CephClient" rcl_Name rcl_Namespace RClient (λ _, false)) (range 91 present) (errMsg, clientsChanged) in
          ret (ensured (wrap_err "failed to ensure CephClients")
                 "failed to ensure CephClients, multiple errors during CephClients ensure" r.1 r.2)
      end
  end.

Definition delete_client (errMsg : nat) (client : RookClient) : IO nat :=
  let* e := process_object "CephClient" objectDelete (RClient client) (rcl_Namespace client) (rcl_Name client) in
  ret (match e with Some _ => S errMsg | None => errMsg end).

Definition deleteCephClients : IO (bool * option err) :=
  let* r := read "CephClientList" rookNs EmptyString (λ h, w_client_list h rookNs) in
  match r with
  | (_, Some e) => ret (false, Some (wrap_err "failed to list ceph clients" e))
  | ([], None) => ret (true, None)
  | (items, None) =>
      let* errMsg := foldM delete_client items O in
      match errMsg with
      | O => ret (false, None)
      | S _ => ret (false, Some (new_err "some CephClients failed to delete"))
      end
  end.
End clients.

(** ** Ceph clients: which keys a rotation keeps

    A pass over the clients never takes away the last usable key of an OpenStack service
    ([rotation_keeps_keys]). *)

(** ** The search for the clients of a service *)

Section scan.
Variables (role : string) (expected keep : Z).

(** A client of the service with a rotation. *)
Definition has_rotation (client : RookClient) (rotation : Z) : Prop :=
  default EmptyString (client_label client cephDeploymentClientRoleLabel) = role ∧ client_rotation client = Some rotation ∧ 0 ≤ rotation.

(** A client from before the labels. *)
Definition legacy (client : RookClient) : Prop :=
  default EmptyString (client_label client cephDeploymentClientRoleLabel) = "" ∧ cls_Name (rcl_Spec client) = role.

(** What the search has found among the clients it has seen. *)
Definition found (present : gmap string RookClient) (seen : list RookClient) (st : rotation_state) : Prop :=
  rot_present st ⊆ present ∧
  (∀ client, client ∈ seen → has_rotation client expected → rcl_Name (rot_client st) = rcl_Name client) ∧
  (∀ client r, client ∈ seen → has_rotation client r → r < expected → expected - r ≤ keep → rot_present st !! rcl_Name client = None) ∧
  (rot_newReady st = true → ∃ client, client ∈ seen ∧ has_rotation client expected ∧ is_ready client = true) ∧
  (∀ name r, rot_last st = Some (name, r) → ∃ client r', client ∈ seen ∧ has_rotation client r' ∧ is_ready client = true ∧ rcl_Name client = name) ∧
  (∀ client r, client ∈ seen → has_rotation client r → r ≠ expected → is_ready client = true → rot_last st ≠ None).

Lemma found_skip present seen st client :
  (∀ r, ¬ has_rotation client r) → found present seen st → found present (seen ++ [client]) st.
Proof.
  intros Hno (H1 & H2 & H3 & H4 & H5 & H6). split_and!; [done| | | | |].
  - intros c' [Hin| ->%list_elem_of_singleton]%elem_of_app Hr; [by apply H2|by destruct (Hno _ Hr)].
  - intros c' r [Hin| ->%list_elem_of_singleton]%elem_of_app Hr; [by apply H3|by destruct (Hno _ Hr)].
  - intros Hn. destruct (H4 Hn) as (c' & Hin & ?). exists c'. split; [apply elem_of_app; by left|done].
  - intros name r Hl. destruct (H5 name r Hl) as (c' & r' & Hin & ?). exists c', r'. split; [apply elem_of_app; by left|done].
  - intros c' r [Hin| ->%list_elem_of_singleton]%elem_of_app Hr; [by eapply H6|by destruct (Hno _ Hr)].
Qed.

Lemma newer_ready_some client r last : is_ready client = true → newer_ready client r last ≠ None.
Proof. intros Hr. unfold newer_ready. rewrite Hr. destruct last as [[n r']|]; [|done]. by destruct (decide _). Qed.

Lemma newer_ready_keeps client r last : last ≠ None → newer_ready client r last ≠ None.
Proof. intros Hl. unfold newer_ready. destruct (is_ready client), last as [[n r']|]; try done. by destruct (decide _). Qed.

Lemma newer_ready_from client r last name r' :
  newer_ready client r last = Some (name, r') → last = Some (name, r') ∨ is_ready client = true ∧ rcl_Name client = name.
Proof.
  unfold newer_ready. destruct (is_ready client); [|auto]. destruct last as [[n r1]|]; [destruct (decide _)|]; naive_solver.
Qed.

Lemma found_step present seen st client r :
  has_rotation client r →
  (∀ c', c' ∈ seen → has_rotation c' expected → has_rotation client expected → rcl_Name c' = rcl_Name client) →
  found present seen st → found present (seen ++ [client]) (rotation_step expected keep st client r).
Proof.
  intros Hc Huniq (H1 & H2 & H3 & H4 & H5 & H6).
  assert (Hfun : ∀ r', has_rotation client r' → r' = r) by (intros r' (_ & Hr' & _); destruct Hc as (_ & Hr & _); congruence).
  unfold rotation_step. destruct (decide (r = expected)) as [->|Hne]; unfold found; simpl.
  - split_and!; [done| | | | |].
    + intros c' [Hin| ->%list_elem_of_singleton]%elem_of_app Hr; [symmetry; by apply Huniq|done].
    + intros c' r' [Hin| ->%list_elem_of_singleton]%elem_of_app Hr; [by apply H3|]. apply Hfun in Hr. lia.
    + intros [Hn|Hn]%orb_true_iff; [|exists client; split_and!; [apply elem_of_app; right; left|done|done]].
      destruct (H4 Hn) as (c' & Hin & ?). exists c'. split; [apply elem_of_app; by left|done].
    + intros name r' Hl. destruct (H5 name r' Hl) as (c' & r1 & Hin & ?). exists c', r1. split; [apply elem_of_app; by left|done].
    + intros c' r' [Hin| ->%list_elem_of_singleton]%elem_of_app Hr; [by eapply H6|]. by apply Hfun in Hr as ->.
  - assert (Hsub : (if decide (r < expected ∧ expected - r ≤ keep) then delete (rcl_Name client) (rot_present st) else rot_present st) ⊆ rot_present st).
    { destruct (decide _); [apply delete_subseteq|done]. }
    split_and!; [by etrans| | | | |].
    + intros c' [Hin| ->%list_elem_of_singleton]%elem_of_app Hr; [by apply H2|]. by apply Hfun in Hr.
    + intros c' r' [Hin| ->%list_elem_of_singleton]%elem_of_app Hr Hlt Hk.
      * eapply lookup_weaken_None; [by eapply H3|done].
      * apply Hfun in Hr as ->. rewrite decide_True by done. apply lookup_delete_eq.
    + intros Hn. destruct (H4 Hn) as (c' & Hin & ?). exists c'. split; [apply elem_of_app; by left|done].
    + intros name r' [Hl|[Hr Hn]]%newer_ready_from; [|exists client, r; split_and!; [apply elem_of_app; right; left|done|done|done]].
      destruct (H5 name r' Hl) as (c' & r1 & Hin & ?). exists c', r1. split; [apply elem_of_app; by left|done].
    + intros c' r' [Hin| ->%list_elem_of_singleton]%elem_of_app Hr Hnr Hready; [eapply newer_ready_keeps, H6; eauto|].
      by apply newer_ready_some.
Qed.

(** The search as a whole, when there is no client from before the labels and no two clients
    of the service have the expected rotation. *)
Lemma scan_found present items seen st st' :
  (∀ client, client ∈ items → ¬ legacy client) →
  (∀ c1 c2, c1 ∈ seen ++ items → c2 ∈ seen ++ items → has_rotation c1 expected → has_rotation c2 expected → rcl_Name c1 = rcl_Name c2) →
  found present seen st → scan_clients role expected keep items st = inl st' → found present (seen ++ items) st'.
Proof.
  revert seen st. induction items as [|client items IH]; intros seen st Hleg Huniq Hf Hs; simpl in Hs.
  { injection Hs as <-. by rewrite app_nil_r. }
  destruct (client_rotation client) as [r|] eqn:Hr; [|done].
  replace (seen ++ client :: items) with ((seen ++ [client]) ++ items) in * by by rewrite <-app_assoc.
  assert (Hleg' : ∀ c', c' ∈ items → ¬ legacy c') by (intros c' Hc'; apply Hleg; by right).
  destruct (decide _) as [Hl|Hl].
  - apply (IH _ _ Hleg' Huniq) in Hs; [done|]. destruct (decide (0 ≤ r)) as [Hr0|Hr0].
    + apply found_step; [done| |done]. intros c' Hc' Hr1 Hr2. apply Huniq; [rewrite !elem_of_app; auto| |done|done].
      rewrite !elem_of_app. left; right. left.
    + apply found_skip; [|done]. intros r' (_ & Hr' & Hpos). rewrite Hr in Hr'. injection Hr' as <-. done.
  - destruct (decide _) as [[Hn He]|_]; [destruct (Hleg client); [left|done]|].
    apply (IH _ _ Hleg' Huniq) in Hs; [done|]. apply found_skip; [|done]. by intros r' [Hl' _].
Qed.
End scan.

(** The search only takes clients out of those that may be removed. *)
Lemma scan_shrinks role expected keep items st st' :
  scan_clients role expected keep items st = inl st' → rot_present st' ⊆ rot_present st.
Proof.
  revert st. induction items as [|client items IH]; intros st Hs; simpl in Hs; [by simplify_eq|].
  destruct (client_rotation client) as [r|]; [|done]. destruct (decide _).
  - apply IH in Hs. etrans; [exact Hs|]. destruct (decide (0 ≤ r)); [|done]. unfold rotation_step. destruct (decide _); [done|].
    simpl. destruct (decide _); [apply delete_subseteq|done].
  - destruct (decide _); [by simplify_eq|by apply IH].
Qed.

(** ** The clients of all services *)

Section services.
Context `{SpecDecoder} `{DeployWorld} `{ResourceWorld} `{MapRange}.
Variables (rookNs : string) (c : deployConfig) (items : list RookClient).
Let expected : Z := (rotation_params c).1.
Let keep : Z := (rotation_params c).2.

(** The keys of a service that a pass keeps: those of the expected rotation, as many earlier
    ones as asked, and a ready one if there is one. *)
Definition keys_kept (role : string) (acc : list RookClient * gmap string RookClient) : Prop :=
  (∀ client, client ∈ items → has_rotation role client expected → rcl_Name client ∈ rcl_Name <$> acc.1) ∧
  (∀ client r, client ∈ items → has_rotation role client r → r < expected → expected - r ≤ keep → acc.2 !! rcl_Name client = None) ∧
  (∀ client r, client ∈ items → has_rotation role client r → is_ready client = true →
    ∃ other r', other ∈ items ∧ has_rotation role other r' ∧ is_ready other = true ∧
      (rcl_Name other ∈ rcl_Name <$> acc.1 ∨ acc.2 !! rcl_Name other = None)).

Lemma keys_kept_mono role acc acc' :
  acc.1 `prefix_of` acc'.1 → acc'.2 ⊆ acc.2 → keys_kept role acc → keys_kept role acc'.
Proof.
  intros [l Hl] Hsub (Hk1 & Hk2 & Hk3).
  assert (Hin : ∀ name, name ∈ rcl_Name <$> acc.1 → name ∈ rcl_Name <$> acc'.1).
  { intros name Hn. rewrite Hl, fmap_app. apply elem_of_app. by left. }
  split_and!.
  - intros client Hc Hr. by apply Hin, Hk1.
  - intros client r Hc Hr Hlt Hk. eapply lookup_weaken_None; [by eapply Hk2|done].
  - intros client r Hc Hr Hready. destruct (Hk3 client r Hc Hr Hready) as (o & r' & Ho & Hor & Hoready & Hkept).
    exists o, r'. split_and!; [done|done|done|]. destruct Hkept; [left; auto|right; by eapply lookup_weaken_None].
Qed.

Lemma service_client_grows acc service acc' :
  service_client rookNs c items acc service = inl acc' → acc.1 `prefix_of` acc'.1 ∧ acc'.2 ⊆ acc.2.
Proof.
  unfold service_client. destruct service as [role spec]. destruct (rotation_params c) as [e k].
  destruct (scan_clients _ _ _ _ _) as [st|] eqn:Hs; [|done]. apply scan_shrinks in Hs. simpl in Hs. intros [= <-]. simpl.
  split; [by eexists|]. destruct (rot_last st) as [[name r]|]; [|done]. destruct (rot_newReady st); [done|].
  etrans; [apply delete_subseteq|done].
Qed.

Lemma service_clients_grow services acc acc' :
  service_clients rookNs c items services acc = inl acc' → acc.1 `prefix_of` acc'.1 ∧ acc'.2 ⊆ acc.2.
Proof.
  revert acc. induction services as [|s services IH]; intros acc; simpl; [by intros [= <-]|].
  destruct (service_client _ _ _ _ _) as [acc1|] eqn:Hs; [|done]. intros Hall.
  apply service_client_grows in Hs as [Hp1 Hs1]. apply IH in Hall as [Hp2 Hs2]. split; by etrans.
Qed.

Definition regular (role : string) : Prop :=
  (∀ client, client ∈ items → ¬ legacy role client) ∧
  (∀ c1 c2, c1 ∈ items → c2 ∈ items → has_rotation role c1 expected → has_rotation role c2 expected → rcl_Name c1 = rcl_Name c2).

Lemma service_client_keeps acc role spec acc' :
  regular role → service_client rookNs c items acc (role, spec) = inl acc' → keys_kept role acc'.
Proof.
  intros [Hleg Huniq]. unfold service_client, keys_kept, expected, keep in *. destruct (rotation_params c) as [e k]. simpl in Huniq |- *.
  destruct (scan_clients _ _ _ _ _) as [st|] eqn:Hs; [|done].
  eapply (scan_found role e k acc.2 items []) in Hs; [|done|done|].
  2: { split_and!; simpl; try done; [by intros ? ?%elem_of_nil|by intros ?? ?%elem_of_nil..]. }
  destruct Hs as (_ & Hname & Hprev & Hnew & Hlast & Hsome). simpl in *. intros [= <-]. simpl.
  assert (Hexp : ∀ client, client ∈ items → has_rotation role client e → rcl_Name client ∈ rcl_Name <$> acc.1 ++ [rot_client st]).
  { intros client Hc Hr. rewrite fmap_app. apply elem_of_app. right. rewrite <-(Hname client Hc Hr). left. }
  split_and!; [done| |].
  - intros client r Hc Hr Hlt Hk. specialize (Hprev client r Hc Hr Hlt Hk). destruct (rot_last st) as [[n r']|]; [|done].
    destruct (rot_newReady st); [done|]. by rewrite lookup_delete_None; right.
  - intros client r Hc Hr Hready. destruct (rot_newReady st) eqn:Hn.
    + destruct (Hnew eq_refl) as (o & Ho & Hor & Hoready). exists o, e. split_and!; [done|done|done|]. left. by apply Hexp.
    + destruct (decide (r = e)) as [->|Hne]; [exists client, e; split_and!; [done|done|done|]; left; by apply Hexp|].
      destruct (rot_last st) as [[name r']|] eqn:Hl; [|by destruct (Hsome client r Hc Hr Hne Hready)].
      destruct (Hlast name r' eq_refl) as (o & r1 & Ho & Hor & Hoready & <-). exists o, r1. split_and!; [done|done|done|].
      right. apply lookup_delete_eq.
Qed.

Lemma service_clients_keep services acc role spec acc' :
  regular role → (role, spec) ∈ services → service_clients rookNs c items services acc = inl acc' → keys_kept role acc'.
Proof.
  intros Hreg. revert acc. induction services as [|s services IH]; intros acc Hin; [by apply elem_of_nil in Hin|]. simpl.
  destruct (service_client _ _ _ _ _) as [acc1|] eqn:Hs; [|done]. intros Hall. apply elem_of_cons in Hin as [<-|Hin]; [|by eapply IH].
  apply service_clients_grow in Hall as [Hp Hsub]. eapply keys_kept_mono; [done|done|]. by eapply service_client_keeps.
Qed.

(** Every service without a client in the spec gets one. *)
Lemma default_clients_all role :
  is_Some (default_services c !! role) →
  spec (λ _, True) (defaultOpenstackClients rookNs c) (λ r, ∀ m, r = inl m → is_Some (m !! role)).
Proof.
  intros [[] Hrole%(elem_of_range 89)]. unfold defaultOpenstackClients. eapply spec_bind.
  - apply (spec_foldM _ _ (λ l acc, acc.2 = true ∨ is_Some (acc.1 !! role) ∨ (role, tt) ∈ l) _ (∅, false)); [by right; right|].
    intros [role' []] l [m b] Hinv. simpl in Hinv. unfold service_step. eapply spec_bind_any; [apply spec_triv|].
    intros [spec|e]; apply spec_ret; simpl; [|by left]. destruct Hinv as [Hb|[Hm|Hin]]; [by left| |].
    + right; left. destruct (decide (role = role')) as [->|]; [by rewrite lookup_insert_eq|by rewrite lookup_insert_ne].
    + apply elem_of_cons in Hin as [[= <-]|Hin]; [right; left; by rewrite lookup_insert_eq|by right; right].
  - intros [m b] Hinv. simpl in *. destruct b; apply spec_ret; intros m' Hm'; simplify_eq.
    destruct Hinv as [?|[?|Hin]]; [done|done|by apply elem_of_nil in Hin].
Qed.
End services.

(** ** A pass over the clients *)

Section pass.
Context `{SpecDecoder} `{DeployWorld} `{ResourceWorld} `{MapRange}.
Variables (rookNs : string) (c : deployConfig) (h : history) (items : list RookClient).

Hypothesis Hlist : w_client_list h rookNs = (items, None).
Hypothesis Hitems : NoDup (rcl_Name <$> items).

Definition removed (name : string) : Prop := ∃ ns, EvDelete "CephClient" ns name ∈ (ensureCephClients rookNs c h).2.

Abbreviation asking := (λ e : event, match e with EvRead _ _ _ | EvClock => True | _ => False end).

Lemma pool_names_asking client names : spec asking (check_pool_names rookNs client names) (λ _, True).
Proof.
  induction names as [|n names IH]; simpl; [by apply spec_ret|]. apply spec_bind_any; [by apply spec_call|].
  intros [p [e|]]; [by apply spec_ret|done].
Qed.

Lemma pools_asking pools client types : spec asking (checkPoolsFn rookNs pools client types) (λ _, True).
Proof.
  induction types as [|t types IH]; simpl; [by apply spec_ret|]. destruct (default [] _) as [|n names]; [by apply spec_ret|].
  apply spec_bind_any; [apply (pool_names_asking client (n :: names))|]. intros [e|]; [by apply spec_ret|done].
Qed.

Lemma expected_asking : spec asking (expected_clients rookNs c items) (λ _, True).
Proof.
  unfold expected_clients. destruct (_ && _); [|by apply spec_ret]. apply spec_bind_any; [|intros [m|e]; by apply spec_ret].
  unfold defaultOpenstackClients. apply spec_bind_any; [|intros [m b]; destruct b; by apply spec_ret].
  apply spec_foldM_inv; [done|]. intros [role []] acc _ _. unfold service_step, generateOpenStackClient.
  apply spec_bind_any; [|intros [s|e]; by apply spec_ret]. destruct (client_pools _); [|by apply spec_ret].
  apply spec_bind_any; [apply pools_asking|]. intros [e|]; [by apply spec_ret|]. apply spec_bind_any; [by apply spec_call|].
  intros n. by apply spec_ret.
Qed.

Let h1 : history := h ++ [EvRead "CephClientList" rookNs EmptyString].

(** A client that is removed is there, is not kept and is not expected. *)
Lemma removed_from name :
  removed name →
  ∃ expected present, (expected_clients rookNs c items h1).1 = inl (expected, present) ∧
    ∃ k client, present !! k = Some client ∧ rcl_Name client = name ∧ k ∉ rcl_Name <$> expected.
Proof.
  intros [ns Hev]. unfold ensureCephClients, read, mbind' in Hev. simpl in Hev. rewrite Hlist in Hev. fold h1 in Hev.
  apply elem_of_cons in Hev as [Hev|Hev]; [done|].
  destruct (expected_asking h1) as [_ Hask]. destruct (expected_clients rookNs c items h1) as [[[expected present]|e] evs]; simpl in *.
  2: { rewrite app_nil_r in Hev. rewrite Forall_forall in Hask. by apply Hask in Hev. }
  apply elem_of_app in Hev as [Hev|Hev]; [rewrite Forall_forall in Hask; by apply Hask in Hev|].
  unfold client_step in Hev. revert Hev.
  destruct (sync_left "CephClient" rookNs rcl_Name rcl_Namespace rcl_Phase RClient aligned_client present expected [] false (h1 ++ evs)) as [Hl Happ].
  destruct (foldM _ expected _ _) as [[[present' errs] changed] evs']. simpl in *. subst present'. rewrite drop_events, app_nil_r.
  intros [Hev|([k client] & Hev & Hk)%list_elem_of_bind]%elem_of_app.
  { rewrite Forall_forall in Happ. apply Happ in Hev as (p & r & Hev). done. }
  simpl in Hev. apply list_elem_of_singleton in Hev as [= -> ->]. apply elem_of_range in Hk. rewrite left_over_lookup in Hk.
  exists expected, present. split; [done|]. exists k, client. destruct (decide _); done.
Qed.

(** The clients that may be removed are clients that are there, by name. *)
Lemma expected_present expected present k client :
  (expected_clients rookNs c items h1).1 = inl (expected, present) → present !! k = Some client → client ∈ items ∧ rcl_Name client = k.
Proof.
  intros He Hk. rewrite <-(by_name_lookup rcl_Name items k client Hitems). revert He. unfold expected_clients.
  destruct (_ && _); [|intros [= _ Heq]; by rewrite Heq]. unfold mbind'.
  destruct (defaultOpenstackClients rookNs c h1) as [[m|e] evs]; simpl; [|done].
  intros [_ Hsub]%service_clients_grow. by eapply lookup_weaken.
Qed.

(** A cluster for OpenStack, a service that has no client in the spec. *)
Definition served (role : string) : Prop :=
  (∃ cs, dc_clusterSpec c = Some cs ∧ csp_External cs = false) ∧ dc_openstackSetup c = true ∧ is_Some (default_services c !! role).

Lemma expected_keeps role expected present :
  served role → regular c items role →
  (expected_clients rookNs c items h1).1 = inl (expected, present) → keys_kept c items role (expected, present).
Proof.
  intros ((cs & Hcs & Hext) & Hos & Hrole) Hreg. unfold expected_clients. rewrite Hcs, Hext, Hos. unfold mbind'. cbn [negb andb].
  destruct (default_clients_all rookNs c role Hrole h1) as [Hm _].
  destruct (defaultOpenstackClients rookNs c h1) as [[m|e] evs]; simpl in *; [|done].
  destruct (Hm m eq_refl) as [spec Hspec]. apply (service_clients_keep _ _ _ _ _ role spec); [done|].
  apply list_elem_of_omap. exists role. split; [|by rewrite Hspec]. rewrite SortStrings_perm. apply list_elem_of_fmap.
  exists (role, spec). split; [done|by apply elem_of_range].
Qed.

(** C22: For an OpenStack service without a client in the spec, with labelled clients whose
    rotations differ, a pass over the Ceph clients does not remove the client of the expected
    rotation, nor one of the earlier rotations that are to be kept; and as long as the service
    has a ready client at all, a ready one stays: the key a service uses is not taken away
    before the next one works. *)
Theorem rotation_keeps_keys role client r :
  served role → regular c items role → client ∈ items → has_rotation role client r →
  (let '(expected, keepPrevious) := rotation_params c in
   r = expected ∨ r < expected ∧ expected - r ≤ keepPrevious → ¬ removed (rcl_Name client)) ∧
  (is_ready client = true → ∃ other r', other ∈ items ∧ has_rotation role other r' ∧ is_ready other = true ∧ ¬ removed (rcl_Name other)).
Proof.
  intros Hserved Hreg Hc Hr. split.
  - destruct (rotation_params c) as [e keep] eqn:Hrp.
    intros Hk (expected & present & He & k & o & Ho & Hname & Hnk)%removed_from.
    destruct (expected_present _ _ _ _ He Ho) as [_ Hok]. rewrite Hname in Hok. subst k.
    destruct (expected_keeps _ _ _ Hserved Hreg He) as (Hexp & Hprev & _). rewrite Hrp in Hexp, Hprev. simpl in *.
    destruct Hk as [->|[Hlt Hk]]; [by apply Hnk, Hexp|]. by rewrite (Hprev client r) in Ho.
  - intros Hready. destruct (expected_clients rookNs c items h1).1 as [[expected present]|e] eqn:He.
    + destruct (expected_keeps _ _ _ Hserved Hreg He) as (_ & _ & Hex).
      destruct (Hex client r Hc Hr Hready) as (other & r' & Ho & Hor & Hoready & Hkept). exists other, r'. split_and!; [done|done|done|].
      intros (expected' & present' & He' & k & o & Hk & Hname & Hnk)%removed_from. rewrite He in He'. injection He' as <- <-.
      destruct (expected_present _ _ _ _ He Hk) as [_ Hok]. rewrite Hname in Hok. subst k. simpl in Hkept. destruct Hkept; congruence.
    + exists client, r. split_and!; [done|done|done|]. intros (expected & present & He' & _)%removed_from. congruence.
Qed.
End pass.
