(* ===== verification/StorageClasses.v ===== *)
(** * Storage classes

    pkg/controller/deployment/storageclass.go.  A StorageClass is made for every pool of the
    spec that asks for one and for every data pool of a file system; labelled classes that are
    not in the spec are removed unless they are in use.

    The loops work on copies of the listed classes that share the maps of labels and
    annotations with the list: [sc_items] is the list with its maps as they are,
    [resolve] what an earlier copy has become. *)

From S2P Require Import Prelude GoTime Types HealthTypes DeployTypes World CleanupJob HealthWorld Extensions Validate Trace DeployWorld Resources.
Open Scope Z_scope.

Definition rookStorageClassLabelKey : string := "rook-ceph-storage-class".
Definition rookDefaultSCAnnotationKey : string := "storageclass.kubernetes.io/is-default-class".
Definition rookStorageClassKeepOnSpecRemove : string := "rook-ceph-storage-class-keep-on-spec-remove".
Definition rookRBDProvisionerName : string := "rook-ceph.rbd.csi.ceph.com".
Definition rookCephFSProvisionerName : string := "rook-ceph.cephfs.csi.ceph.com".

(** ** Making a class *)

Definition getStorageClassNameCephFS (cephFsName poolName : string) : string :=
  if decide (poolName = "data0") then cephFsName +:+ "-cephfs" else cephFsName +:+ "-" +:+ poolName.

Definition generateStorageClassPoolBased (clusterid poolName : string) (storageOpts : CephStorageClassSpec) (namespace : string)
    (isExternal : bool) : StorageClass :=
  let volumeExpansion := scs_AllowVolumeExpansion storageOpts || isExternal in
  let params : gmap string string :=
    {["clusterID" := clusterid; "pool" := poolName; "imageFormat" := "2";
      "csi.storage.k8s.io/provisioner-secret-name" := "rook-csi-rbd-provisioner";
      "csi.storage.k8s.io/provisioner-secret-namespace" := namespace;
      "csi.storage.k8s.io/node-stage-secret-name" := "rook-csi-rbd-node";
      "csi.storage.k8s.io/node-stage-secret-namespace" := namespace]} in
  let params :=
    if volumeExpansion then
      <["csi.storage.k8s.io/controller-expand-secret-name" := "rook-csi-rbd-provisioner"]>
        (<["csi.storage.k8s.io/controller-expand-secret-namespace" := namespace]>
           (<["csi.storage.k8s.io/fstype" := "ext4"]> params))
    else params in
  let params := if decide (scs_MapOptions storageOpts = "") then params else <["mapOptions" := scs_MapOptions storageOpts]> params in
  let params := if decide (scs_UnmapOptions storageOpts = "") then params else <["unmapOptions" := scs_UnmapOptions storageOpts]> params in
  let params := <["imageFeatures" := if decide (scs_ImageFeatures storageOpts = "") then "layering" else scs_ImageFeatures storageOpts]> params in
  mkStorageClass poolName (Some (ExtendLabels {[rookStorageClassLabelKey := "true"]} baseResourceLabels))
    (Some {[rookDefaultSCAnnotationKey := bool_str (scs_Default storageOpts)]}) rookRBDProvisionerName params
    (if decide (scs_ReclaimPolicy storageOpts = "") then None else Some (scs_ReclaimPolicy storageOpts))
    (if volumeExpansion then Some true else None).

Definition generateStorageClassCephFSBased (clusterID cephFsName dataPool namespace : string) (keepAfterRemove : bool) : StorageClass :=
  mkStorageClass (getStorageClassNameCephFS cephFsName dataPool)
    (Some (ExtendLabels {[rookStorageClassLabelKey := "true"; rookStorageClassKeepOnSpecRemove := bool_str keepAfterRemove]} baseResourceLabels))
    None rookCephFSProvisionerName
    {["clusterID" := clusterID; "pool" := cephFsName +:+ "-" +:+ dataPool; "fsName" := cephFsName;
      "csi.storage.k8s.io/provisioner-secret-name" := "rook-csi-cephfs-provisioner";
      "csi.storage.k8s.io/provisioner-secret-namespace" := namespace;
      "csi.storage.k8s.io/node-stage-secret-name" := "rook-csi-cephfs-node";
      "csi.storage.k8s.io/node-stage-secret-namespace" := namespace;
      "csi.storage.k8s.io/controller-expand-secret-name" := "rook-csi-cephfs-provisioner";
      "csi.storage.k8s.io/controller-expand-secret-namespace" := namespace]}
    (Some "Delete") (Some true).

(** ** Comparing with the classes that are there *)

Record sc_state := mkScState {
  sc_items : list StorageClass;            (** [storageClassesList.Items] *)
  sc_create : list StorageClass;           (** [storageClassesToCreate] *)
  sc_update : list (nat * StorageClass);   (** [storageClassesToUpdate]: copies of elements of the list *)
  sc_delete : gmap string bool;            (** [storageClassesToDelete] *)
}.

(** An element of the list whose copy was changed: maps that exist are shared, others belong
    to the copy. *)
Definition share_maps (copy class : StorageClass) : StorageClass :=
  set_sto_Labels (match sto_Labels class with Some _ => sto_Labels copy | None => None end)
    (set_sto_Annotations (match sto_Annotations class with Some _ => sto_Annotations copy | None => None end) class).

Definition resolve (items : list StorageClass) (u : nat * StorageClass) : StorageClass :=
  match items !! u.1 with
  | None => u.2
  | Some class =>
      set_sto_Labels (match sto_Labels class with Some l => Some l | None => sto_Labels u.2 end)
        (set_sto_Annotations (match sto_Annotations class with Some a => Some a | None => sto_Annotations u.2 end) u.2)
  end.

(** The copy [storageClass] of element [i] is changed, and to be written if [updated]. *)
Definition sc_copied (i : nat) (class copy : StorageClass) (updated : bool) (st : sc_state) : sc_state :=
  mkScState (<[i := share_maps copy class]> (sc_items st)) (sc_create st)
    (sc_update st ++ (if updated then [(i, copy)] else [])) (sc_delete st).

Definition sc_expect (name : string) (st : sc_state) : sc_state :=
  mkScState (sc_items st) (sc_create st) (sc_update st) (delete name (sc_delete st)).

Definition sc_new (class : StorageClass) (st : sc_state) : sc_state :=
  mkScState (sc_items st) (sc_create st ++ [class]) (sc_update st) (sc_delete st).

Definition class_label (class : StorageClass) (label : string) : string :=
  default EmptyString (sto_Labels class ≫= λ l, l !! label).

Definition listed_classes (items : list StorageClass) : gmap string bool :=
  foldl (λ m class,
    if decide (class_label class rookStorageClassLabelKey = "true" ∧ class_label class rookStorageClassKeepOnSpecRemove ≠ "true")
    then <[sto_Name class := true]> m else m) ∅ items.

Section classes.
Context `{World} `{HealthWorld} `{SpecDecoder} `{DeployWorld} `{ResourceWorld} `{MapRange}.
Variable rookNs : string.

(** A round of the loop over the listed classes, for the class of a pool. *)
Definition pool_class_item (resource : StorageClass) (isDefault : bool) (st : sc_state) (i : nat) : sc_state :=
  match sc_items st !! i with
  | None => st
  | Some class =>
      if decide (sto_Name resource = sto_Name class) then
        let st := sc_expect (sto_Name class) st in
        let '(labels, labelsUpdated) := AlignBaseLabels (sto_Labels class) (default ∅ (sto_Labels resource)) in
        let annotations := default ∅ (sto_Annotations class) in
        let differs := negb (bool_decide (default EmptyString (annotations !! rookDefaultSCAnnotationKey) = bool_str isDefault)) in
        let annotations := if differs then <[rookDefaultSCAnnotationKey := bool_str isDefault]> annotations else annotations in
        sc_copied i class (set_sto_Labels (Some labels) (set_sto_Annotations (Some annotations) class)) (labelsUpdated || differs) st
      else st
  end.

Definition class_found (name : string) (items : list StorageClass) : bool := bool_decide (name ∈ sto_Name <$> items).

Definition external (c : deployConfig) : bool := match dc_clusterSpec c with Some cs => csp_External cs | None => false end.

Definition pool_class (c : deployConfig) (st : sc_state) (entry : CephPool * string) : sc_state :=
  let '(cephDplPool, poolName) := entry in
  if scs_SkipCreate (pl_StorageClassOpts cephDplPool) then st
  else if Contains builtinCephPools (pl_Name cephDplPool) then st
  else
    let storageResource := generateStorageClassPoolBased rookNs poolName (pl_StorageClassOpts cephDplPool) rookNs (external c) in
    let st' := foldl (pool_class_item storageResource (scs_Default (pl_StorageClassOpts cephDplPool))) st (seq 0 (length (sc_items st))) in
    if class_found poolName (sc_items st) then st' else sc_new storageResource st'.

(** The class of a data pool of a file system; the search ends at the first match. *)
Definition fs_class (st : sc_state) (storageResource : StorageClass) : sc_state :=
  let st := sc_expect (sto_Name storageResource) st in
  match list_find (λ class, sto_Name class = sto_Name storageResource) (sc_items st) with
  | None => sc_new storageResource st
  | Some (i, class) =>
      let '(labels, changedBaseLabels) := AlignBaseLabels (sto_Labels class) (default ∅ (sto_Labels storageResource)) in
      sc_copied i class (set_sto_Labels (Some labels) class) changedBaseLabels st
  end.

Definition fs_classes (cephFS : DplFilesystem) : list StorageClass :=
  let castedSpec := (CephFilesystem_GetSpec cephFS).1 in
  (λ dataPool, generateStorageClassCephFSBased rookNs (dfs_Name cephFS) dataPool.1 rookNs (fss_PreserveFilesystemOnDelete castedSpec))
    <$> fss_DataPools castedSpec.

(** What is to be created, updated and deleted. *)
Definition class_changes (c : deployConfig) (items : list StorageClass) : sc_state :=
  let spec := cdp_Spec (dc_cephDpl c) in
  let st := foldl (pool_class c) (mkScState items [] [] (listed_classes items)) (zip (default [] (dsp_BlockStorage spec)) (dc_pools c)) in
  foldl fs_class st (default [] (dsp_SharedFilesystem spec) ≫= fs_classes).

(** ** Writing *)

Definition isCephPoolReady (poolName : string) : IO bool :=
  let* r := read "CephBlockPool" rookNs poolName (λ h, w_blockpool_get h rookNs poolName) in
  ret (match r with (_, Some _) => false | (pool, None) => bool_decide (bpo_Phase pool = Some "Ready") end).

Definition isCephFsReady (cephFsName : string) : IO bool :=
  let* r := read "CephFilesystem" rookNs cephFsName (λ h, w_filesystem_get h rookNs cephFsName) in
  ret (match r with (_, Some _) => false | (fs, None) => bool_decide (fso_Phase fs = Some "Ready") end).

(** Why a class can not be created yet. *)
Definition class_blocked (class : StorageClass) : IO (option string) :=
  let param key := default EmptyString (sto_Parameters class !! key) in
  let msg := "failed to create StorageClass " +:+ sto_Name class in
  if decide (sto_Provisioner class = rookRBDProvisionerName) then
    let* ready := isCephPoolReady (param "pool") in
    ret (if (ready : bool) then None else Some (msg +:+ " since corresponding " +:+ param "pool" +:+ " pool is not ready yet"))
  else if decide (sto_Provisioner class = rookCephFSProvisionerName) then
    let* ready := isCephFsReady (param "fsName") in
    ret (if (ready : bool) then None else Some (msg +:+ " since corresponding " +:+ param "fsName" +:+ " CephFs is not ready yet"))
  else ret (Some (msg +:+ ", unknown provisioner '" +:+ sto_Provisioner class +:+ "' name")).

Definition apply_class (process : objectProcess) (class : StorageClass) : IO (list err) :=
  let* e := call (EvApply process (RStorageClass class)) (λ h, w_apply h process (RStorageClass class)) in
  ret (match e with
       | Some e => [wrap_err ("failed to " +:+ objectProcess_str process +:+ " StorageClass " +:+ Quote (sto_Name class)) e]
       | None => []
       end).

(** The error of a list of errors. *)
Definition collected_error (multiple : string) (errs : list err) : option err :=
  match errs with [] => None | [e] => Some e | _ => Some (new_err multiple) end.

Definition create_class (isExternal : bool) (errMsg : list err) (class : StorageClass) : IO (list err) :=
  let* blocked := if isExternal then ret None else class_blocked class in
  match blocked with
  | Some msg => ret (errMsg ++ [new_err msg])
  | None => let* errs := apply_class objectCreate class in ret (errMsg ++ errs)
  end.

Definition createStorageClasses (classes : list StorageClass) (isExternal : bool) : IO (option err) :=
  let* errMsg := foldM (create_class isExternal) classes [] in
  ret (collected_error "multiple errors during storageclasses create" errMsg).

Definition update_class (errMsg : list err) (class : StorageClass) : IO (list err) :=
  let* errs := apply_class objectUpdate class in ret (errMsg ++ errs).

Definition updateStorageClasses (classes : list StorageClass) : IO (option err) :=
  let* errMsg := foldM update_class classes [] in
  ret (collected_error "multiple errors during storageclasses update" errMsg).

(** A class in use must not be removed. *)
Definition mark_used (classes : gmap string bool) (name : string) : gmap string bool :=
  match classes !! name with Some _ => <[name := false]> classes | None => classes end.

Definition claim_used (classes : gmap string bool) (pvc : string * string * option string) : gmap string bool :=
  if decide (pvc.1.2 = "Bound") then
    match pvc.2 with
    | None | Some "" => classes
    | Some class => mark_used classes class
    end
  else classes.

Definition volume_used (classes : gmap string bool) (pv : string * string * string) : gmap string bool :=
  if decide (pv.1.2 = "Bound") then mark_used classes pv.2 else classes.

Definition getStorageClassesUsage (classes : gmap string bool) : IO (gmap string bool * option err) :=
  let* r := read "PersistentVolumeClaimList" rookNs EmptyString (λ h, w_pvc_list h rookNs) in
  match r with
  | (_, Some e) => ret (classes, Some (wrap_err "failed to get list of pvc" e))
  | (pvcs, None) =>
      let classes := foldl claim_used classes pvcs in
      let* r := read "PersistentVolumeList" EmptyString EmptyString w_pv_list in
      match r with
      | (_, Some e) => ret (classes, Some (wrap_err "failed to get list of pv" e))
      | (pvs, None) => ret (foldl volume_used classes pvs, None)
      end
  end.

Definition remove_class (errMsg : nat) (entry : string * bool) : IO nat :=
  let '(name, canRemove) := entry in
  if negb canRemove then ret (S errMsg)
  else
    let* e := call (EvDelete "StorageClass" EmptyString name) (λ h, w_object_delete h "StorageClass" EmptyString name) in
    ret (match e with Some e => if is_not_found e then errMsg else S errMsg | None => errMsg end).

Definition removeStorageClasses (classes : gmap string bool) : IO (option err) :=
  if decide (classes = ∅) then ret None
  else
    let* r := getStorageClassesUsage classes in
    match r with
    | (_, Some e) => ret (Some (wrap_err "failed to check storage classes usage" e))
    | (classes, None) =>
        let* errMsg := foldM remove_class (range 92 classes) O in
        ret (match errMsg with O => None | S _ => Some (new_err "delete storageclass(es) failed") end)
    end.

(** ** The operations *)

Definition storageclass_list (label : string) : IO (list StorageClass * option err) :=
  read "StorageClassList" EmptyString label (λ h, w_storageclass_list h label).

Definition ensureStorageClasses (c : deployConfig) : IO (bool * option err) :=
  let* r := storageclass_list EmptyString in
  match r with
  | (_, Some e) => ret (false, Some (wrap_err "failed to get storage classes list" e))
  | (items, None) =>
      let st := class_changes c items in
      let updated := negb (bool_decide (sc_create st = [])) || negb (bool_decide (sc_update st = [])) || negb (bool_decide (sc_delete st = ∅)) in
      let* e1 := createStorageClasses (sc_create st) (external c) in
      let* e2 := updateStorageClasses (resolve (sc_items st) <$> sc_update st) in
      let* e3 := removeStorageClasses (sc_delete st) in
      let errMsg := option_list (wrap_err "failed to create storageclasses" <$> e1) ++
        option_list (wrap_err "failed to update storageclasses" <$> e2) ++ option_list (wrap_err "failed to delete storageclasses" <$> e3) in
      match collected_error "multiple errors during storageclasses ensure" errMsg with
      | Some e => ret (false, Some e)
      | None => ret (updated, None)
      end
  end.

Definition deleteStorageClasses : IO (bool * option err) :=
  let* r := storageclass_list rookStorageClassLabelKey in
  match r with
  | (_, Some e) => ret (false, Some (wrap_err "failed to get storage classes list" e))
  | (items, None) =>
      let toRemove : gmap string bool := foldl (λ m class, <[sto_Name class := true]> m) ∅ items in
      if decide (toRemove = ∅) then ret (true, None)
      else
        let* e := removeStorageClasses toRemove in
        ret (false, e)
  end.
End classes.

(** ** Storage classes: what a pass may write

    Which classes are created, updated and removed, and what was asked before
    ([class_writes_safe]). *)

Section classes.
Context `{World} `{HealthWorld} `{SpecDecoder} `{DeployWorld} `{ResourceWorld} `{MapRange}.
Variables (rookNs : string) (c : deployConfig).

(** ** The classes of the spec *)

Definition pool_classes (entry : CephPool * string) : list StorageClass :=
  let opts := pl_StorageClassOpts entry.1 in
  if scs_SkipCreate opts || Contains builtinCephPools (pl_Name entry.1) then []
  else [generateStorageClassPoolBased rookNs entry.2 opts rookNs (external c)].

Definition spec_classes : list StorageClass :=
  (zip (default [] (dsp_BlockStorage (cdp_Spec (dc_cephDpl c)))) (dc_pools c) ≫= pool_classes) ++
  (default [] (dsp_SharedFilesystem (cdp_Spec (dc_cephDpl c))) ≫= fs_classes rookNs).

(** ** The comparison *)

Section compare.
Variable items : list StorageClass.

(** After the classes [seen] of the spec. *)
Definition compared (seen : list StorageClass) (st : sc_state) : Prop :=
  sto_Name <$> sc_items st = sto_Name <$> items ∧
  (∀ k b, sc_delete st !! k = Some b ↔ listed_classes items !! k = Some b ∧ k ∉ sto_Name <$> seen) ∧
  (∀ class, class ∈ sc_create st ↔ class ∈ seen ∧ sto_Name class ∉ sto_Name <$> items) ∧
  (∀ u, u ∈ sc_update st → sto_Name u.2 ∈ sto_Name <$> seen ∧ sto_Name u.2 ∈ sto_Name <$> items).

Lemma listed_lookup k b :
  listed_classes items !! k = Some b →
  b = true ∧ ∃ class, class ∈ items ∧ sto_Name class = k ∧ class_label class rookStorageClassLabelKey = "true" ∧
    class_label class rookStorageClassKeepOnSpecRemove ≠ "true".
Proof.
  unfold listed_classes. induction items as [|class l IH] using rev_ind; [done|]. rewrite foldl_app. simpl.
  destruct (decide _) as [[Hl Hk]|_].
  - rewrite lookup_insert_Some. intros [[<- <-]|[_ Hin]].
    + split; [done|]. exists class. split; [apply elem_of_app; right; left|done].
    + destruct (IH Hin) as (-> & o & Ho & ?). split; [done|]. exists o. split; [apply elem_of_app; by left|done].
  - intros Hin. destruct (IH Hin) as (-> & o & Ho & ?). split; [done|]. exists o. split; [apply elem_of_app; by left|done].
Qed.

Lemma listed_name k b : listed_classes items !! k = Some b → k ∈ sto_Name <$> items.
Proof. intros (_ & class & Hc & <- & _)%listed_lookup. by apply list_elem_of_fmap_2. Qed.

Lemma copied_names i class copy updated st :
  sc_items st !! i = Some class → sto_Name <$> sc_items (sc_copied i class copy updated st) = sto_Name <$> sc_items st.
Proof.
  intros Hi. simpl. rewrite list_fmap_insert. apply list_insert_id. by rewrite list_lookup_fmap, Hi.
Qed.

(** The loop over the listed classes for the class of a pool. *)
Lemma pool_items_fold resource d st l :
  let st' := foldl (pool_class_item resource d) st l in
  sto_Name <$> sc_items st' = sto_Name <$> sc_items st ∧ sc_create st' = sc_create st ∧
  (∀ u, u ∈ sc_update st' → u ∈ sc_update st ∨ sto_Name u.2 = sto_Name resource ∧ sto_Name resource ∈ sto_Name <$> sc_items st) ∧
  sc_delete st' = if decide (sto_Name resource ∈ omap (λ i, (sto_Name <$> sc_items st) !! i) l)
                  then delete (sto_Name resource) (sc_delete st) else sc_delete st.
Proof.
  induction l as [|i l (Hn & Hc & Hu & Hd)] using rev_ind; [split_and!; by auto|]. rewrite foldl_app, omap_app. cbn [foldl].
  set (st1 := foldl _ st l) in *. unfold pool_class_item.
  assert (Hi : (sto_Name <$> sc_items st) !! i = sto_Name <$> sc_items st1 !! i) by by rewrite <-Hn, list_lookup_fmap.
  cbn [omap list_omap]. rewrite Hi. destruct (sc_items st1 !! i) as [class|] eqn:Hcl; cbn [fmap option_fmap option_map].
  2: { rewrite app_nil_r. by split_and!. }
  destruct (decide (sto_Name resource = sto_Name class)) as [Heq|Hne].
  - destruct (AlignBaseLabels _ _) as [labels lu]. split_and!; [by rewrite copied_names|done| |].
    + intros u [Hin|Hin]%elem_of_app; [by apply Hu|]. right. destruct (_ || _); [|by apply elem_of_nil in Hin].
      apply list_elem_of_singleton in Hin as ->. split; [done|]. rewrite <-Hn, Heq. by eapply list_elem_of_fmap_2, list_elem_of_lookup_2.
    + cbn [sc_copied sc_expect sc_delete]. rewrite Hd, (decide_True (P := sto_Name resource ∈ _ ++ _)) by (rewrite Heq; apply elem_of_app; right; left).
      rewrite <-Heq. destruct (decide _); [apply delete_delete_eq|done].
  - split_and!; [done|done|done|]. rewrite Hd. destruct (decide (_ ∈ omap _ l)) as [Hin|Hin].
    + by rewrite decide_True by (apply elem_of_app; by left).
    + rewrite decide_False; [done|]. rewrite elem_of_app, list_elem_of_singleton. tauto.
Qed.

Lemma omap_lookup_seq {A} (l : list A) x : x ∈ omap (λ i, l !! i) (seq 0 (length l)) ↔ x ∈ l.
Proof.
  rewrite list_elem_of_omap. split.
  - intros (i & _ & Hi). by eapply list_elem_of_lookup_2.
  - intros (i & Hi)%list_elem_of_lookup. exists i. split; [|done]. apply elem_of_seq. apply lookup_lt_Some in Hi. lia.
Qed.

Lemma not_seen k (seen : list StorageClass) resource :
  k ∉ sto_Name <$> seen ++ [resource] ↔ k ∉ sto_Name <$> seen ∧ sto_Name resource ≠ k.
Proof. rewrite fmap_app, not_elem_of_app. cbn [fmap list_fmap]. rewrite not_elem_of_cons. pose proof (not_elem_of_nil k). naive_solver. Qed.

Lemma pool_step_compared seen st entry :
  compared seen st → compared (seen ++ pool_classes entry) (pool_class rookNs c st entry).
Proof.
  intros Hcmp. destruct entry as [pool name]. unfold pool_class, pool_classes. cbn [fst snd].
  destruct (scs_SkipCreate _); cbn [orb]; [by rewrite app_nil_r|]. destruct (Contains builtinCephPools _); [by rewrite app_nil_r|].
  set (resource := generateStorageClassPoolBased _ _ _ _ _). set (d := scs_Default _). change name with (sto_Name resource).
  destruct Hcmp as (Hn & Hd & Hc & Hu).
  destruct (pool_items_fold resource d st (seq 0 (length (sc_items st)))) as (Hn' & Hc' & Hu' & Hd').
  pose proof (omap_lookup_seq (sto_Name <$> sc_items st) (sto_Name resource)) as Hom. rewrite length_fmap in Hom. set (st' := foldl _ st _) in *.
  assert (Hd1 : ∀ k b, sc_delete st' !! k = Some b ↔ listed_classes items !! k = Some b ∧ k ∉ sto_Name <$> seen ++ [resource]).
  { intros k b. rewrite Hd', not_seen. destruct (decide _) as [_|Hnin]; [rewrite lookup_delete_Some, Hd; tauto|].
    rewrite Hom, Hn in Hnin. rewrite Hd. split; [|tauto]. intros [Hk Hs]. split_and!; [done|done|].
    intros <-. by destruct Hnin; eapply listed_name. }
  assert (Hu1 : ∀ u, u ∈ sc_update st' → sto_Name u.2 ∈ sto_Name <$> seen ++ [resource] ∧ sto_Name u.2 ∈ sto_Name <$> items).
  { intros u Hin. rewrite fmap_app, elem_of_app. destruct (Hu' u Hin) as [Hold|[-> Hold]].
    - destruct (Hu u Hold). auto.
    - rewrite Hn in Hold. split; [right; left|done]. }
  unfold class_found. rewrite Hn. case_bool_decide as Hf; split_and!; simpl; try (by rewrite Hn', Hn); try done.
  - intros class. rewrite Hc', Hc, elem_of_app, list_elem_of_singleton. naive_solver.
  - intros class. rewrite Hc', elem_of_app, Hc, elem_of_app, list_elem_of_singleton. naive_solver.
Qed.

Lemma fs_step_compared seen st resource : compared seen st → compared (seen ++ [resource]) (fs_class st resource).
Proof.
  intros (Hn & Hd & Hc & Hu). unfold fs_class.
  assert (Hd1 : ∀ k b, delete (sto_Name resource) (sc_delete st) !! k = Some b ↔
                 listed_classes items !! k = Some b ∧ k ∉ sto_Name <$> seen ++ [resource]).
  { intros k b. rewrite lookup_delete_Some, Hd, not_seen. tauto. }
  assert (Hu1 : ∀ u, u ∈ sc_update st → sto_Name u.2 ∈ sto_Name <$> seen ++ [resource] ∧ sto_Name u.2 ∈ sto_Name <$> items).
  { intros u Hin. rewrite fmap_app, elem_of_app. destruct (Hu u Hin). auto. }
  cbn [sc_items sc_expect]. destruct (list_find _ _) as [[i class]|] eqn:Hf.
  - apply list_find_Some in Hf as (Hi & Hname & _).
    assert (Hin : sto_Name resource ∈ sto_Name <$> items).
    { rewrite <-Hn, <-Hname. by eapply list_elem_of_fmap_2, list_elem_of_lookup_2. }
    destruct (AlignBaseLabels _ _) as [labels changed]. split_and!; [by rewrite copied_names|done| |]; cbn [sc_copied sc_create sc_update sc_expect].
    + intros class'. rewrite Hc, elem_of_app, list_elem_of_singleton. naive_solver.
    + intros u [Hold|Hnew]%elem_of_app; [by apply Hu1|]. destruct changed; [|by apply elem_of_nil in Hnew].
      apply list_elem_of_singleton in Hnew as ->. cbn [snd]. change (sto_Name (set_sto_Labels _ _)) with (sto_Name class).
      rewrite Hname, fmap_app, elem_of_app. split; [right; left|done].
  - apply list_find_None in Hf. assert (Hin : sto_Name resource ∉ sto_Name <$> items).
    { rewrite <-Hn. intros (class & Heq & Hcl)%list_elem_of_fmap. rewrite Forall_forall in Hf. by destruct (Hf class Hcl). }
    split_and!; simpl; [done|done| |done]. intros class. rewrite elem_of_app, Hc, elem_of_app, list_elem_of_singleton. naive_solver.
Qed.

Lemma changes_compared : compared spec_classes (class_changes rookNs c items).
Proof.
  unfold class_changes, spec_classes. set (pools := zip _ _). set (fss := default [] (dsp_SharedFilesystem _)).
  assert (Hpools : ∀ l seen st, compared seen st → compared (seen ++ (l ≫= pool_classes)) (foldl (pool_class rookNs c) st l)).
  { induction l as [|e l IH]; intros seen st Hst; [by rewrite app_nil_r|]. cbn [mbind list_bind foldl]. rewrite (assoc_L (++)).
    by apply IH, pool_step_compared. }
  assert (Hfs : ∀ l seen st, compared seen st → compared (seen ++ l) (foldl fs_class st l)).
  { induction l as [|r l IH]; intros seen st Hst; [by rewrite app_nil_r|]. cbn [foldl]. rewrite cons_middle, (assoc_L (++)).
    by apply IH, fs_step_compared. }
  apply Hfs, (Hpools pools []). split_and!; simpl; [done| |set_solver|set_solver].
  intros k b. split; [|by intros []]. intros Hk. split; [done|apply not_elem_of_nil].
Qed.
End compare.

(** ** Classes in use *)

Lemma mark_used_true m n name : mark_used m n !! name = Some true → m !! name = Some true ∧ n ≠ name.
Proof.
  unfold mark_used. destruct (m !! n) eqn:Hn; [rewrite lookup_insert_Some; naive_solver|]. intros Hm. split; [done|]. intros ->. congruence.
Qed.

Lemma claims_true m pvcs name :
  foldl claim_used m pvcs !! name = Some true →
  m !! name = Some true ∧ ∀ claim, claim ∈ pvcs → claim.1.2 = "Bound" → claim.2 = Some name → name = "".
Proof.
  revert m. induction pvcs as [|claim pvcs IH]; intros m Hm; [split; [done|]; by intros ? ?%elem_of_nil|]. cbn [foldl] in Hm.
  apply IH in Hm as [Hm Hall]. unfold claim_used in Hm. destruct (decide _) as [Hb|Hb].
  - destruct (claim.2) as [cl|] eqn:Hcl.
    + destruct (decide (cl = "")) as [->|Hne].
      * split; [done|]. intros cl' [->|Hin]%elem_of_cons; [congruence|by apply Hall].
      * destruct cl as [|a cl]; [done|]. apply mark_used_true in Hm as [Hm Hn]. split; [done|].
        intros cl' [->|Hin]%elem_of_cons; [congruence|by apply Hall].
    + split; [done|]. intros cl' [->|Hin]%elem_of_cons; [congruence|by apply Hall].
  - split; [done|]. intros cl' [->|Hin]%elem_of_cons; [congruence|by apply Hall].
Qed.

Lemma volumes_true m pvs name :
  foldl volume_used m pvs !! name = Some true →
  m !! name = Some true ∧ ∀ pv, pv ∈ pvs → pv.1.2 = "Bound" → pv.2 ≠ name.
Proof.
  revert m. induction pvs as [|pv pvs IH]; intros m Hm; [split; [done|]; by intros ? ?%elem_of_nil|]. cbn [foldl] in Hm.
  apply IH in Hm as [Hm Hall]. unfold volume_used in Hm. destruct (decide _) as [Hb|Hb].
  - apply mark_used_true in Hm as [Hm Hn]. split; [done|]. intros pv' [->|Hin]%elem_of_cons; [done|by apply Hall].
  - split; [done|]. intros pv' [->|Hin]%elem_of_cons; [done|by apply Hall].
Qed.

(** ** The writes of a pass *)

Section pass.
Variables (h0 : history) (items : list StorageClass).

(** No bound claim or volume has the class. *)
Definition class_unused (name : string) (h : history) : Prop :=
  ∃ pvcs pvs,
    asked h0 (EvRead "PersistentVolumeClaimList" rookNs EmptyString) (λ h, w_pvc_list h rookNs) (pvcs, None) h ∧
    asked h0 (EvRead "PersistentVolumeList" EmptyString EmptyString) w_pv_list (pvs, None) h ∧
    (∀ claim, claim ∈ pvcs → claim.1.2 = "Bound" → claim.2 = Some name → name = "") ∧
    (∀ pv, pv ∈ pvs → pv.1.2 = "Bound" → pv.2 ≠ name).

(** The pool or the file system of the class is ready. *)
Definition backend_ready (class : StorageClass) (h : history) : Prop :=
  let param key := default EmptyString (sto_Parameters class !! key) in
  (sto_Provisioner class = rookRBDProvisionerName ∧
   ∃ pool, asked h0 (EvRead "CephBlockPool" rookNs (param "pool")) (λ h, w_blockpool_get h rookNs (param "pool")) (pool, None) h ∧
     bpo_Phase pool = Some "Ready") ∨
  (sto_Provisioner class = rookCephFSProvisionerName ∧
   ∃ fs, asked h0 (EvRead "CephFilesystem" rookNs (param "fsName")) (λ h, w_filesystem_get h rookNs (param "fsName")) (fs, None) h ∧
     fso_Phase fs = Some "Ready").

Definition class_write_ok (h : history) (e : event) : Prop :=
  match e with
  | EvApply objectCreate (RStorageClass class) =>
      class ∈ spec_classes ∧ sto_Name class ∉ sto_Name <$> items ∧ (external c = false → backend_ready class h)
  | EvApply objectUpdate (RStorageClass class) => sto_Name class ∈ sto_Name <$> spec_classes ∧ sto_Name class ∈ sto_Name <$> items
  | EvDelete "StorageClass" "" name =>
      name ∉ sto_Name <$> spec_classes ∧ class_unused name h ∧
      ∃ class, class ∈ items ∧ sto_Name class = name ∧ class_label class rookStorageClassLabelKey = "true" ∧
        class_label class rookStorageClassKeepOnSpecRemove ≠ "true"
  | EvRead _ _ _ => True
  | _ => False
  end.

Abbreviation begun := (λ h : history, h0 `prefix_of` h).

Lemma class_blocked_traced class :
  traced class_write_ok begun (class_blocked rookNs class) (λ r h, begun h ∧ (r = None → backend_ready class h)).
Proof.
  unfold class_blocked, isCephPoolReady, isCephFsReady. destruct (decide _) as [Hp|_]; [|destruct (decide _) as [Hp|_]].
  - eapply traced_bind; [eapply traced_bind; [by apply traced_ask; [apply prefix_lasting|..]|]|].
    + intros [pool e]. apply (traced_ret _ _ _ (λ r h, begun h ∧ (r = true → backend_ready class h))).
      intros h [Ha Hh]. split; [done|]. destruct e; [done|]. intros Hr%bool_decide_eq_true. left. eauto.
    + intros [|]; apply traced_ret; intros h [Hh Hr]; split; auto. done.
  - eapply traced_bind; [eapply traced_bind; [by apply traced_ask; [apply prefix_lasting|..]|]|].
    + intros [pool e]. apply (traced_ret _ _ _ (λ r h, begun h ∧ (r = true → backend_ready class h))).
      intros h [Ha Hh]. split; [done|]. destruct e; [done|]. intros Hr%bool_decide_eq_true. right. eauto.
    + intros [|]; apply traced_ret; intros h [Hh Hr]; split; auto. done.
  - apply traced_ret. intros h Hh. by split.
Qed.

Lemma class_apply_traced (F : history → Prop) process class :
  lasting F → (∀ h, F h → class_write_ok h (EvApply process (RStorageClass class))) →
  traced class_write_ok F (apply_class process class) (λ _ h, F h).
Proof.
  intros HF Hw. unfold apply_class. apply (traced_bind _ _ _ _ (λ _ h, F h)); [|intros e; by apply traced_ret].
  apply traced_call. intros h Hh. split; [by apply Hw|by apply HF].
Qed.

Lemma create_traced classes :
  (∀ class, class ∈ classes → class ∈ spec_classes ∧ sto_Name class ∉ sto_Name <$> items) →
  traced class_write_ok begun (createStorageClasses rookNs classes (external c)) (λ _ h, begun h).
Proof.
  intros Hcl. unfold createStorageClasses. apply (traced_bind _ _ _ _ (λ _ h, begun h)); [|intros e; by apply traced_ret].
  apply (traced_foldM_inv _ _ (λ _ h, begun h)). intros class errs Hin. unfold create_class.
  set (F := λ h, begun h ∧ (external c = false → backend_ready class h)).
  assert (HF : lasting F).
  { apply and_lasting; [apply prefix_lasting|]. apply impl_lasting. unfold backend_ready. auto 10 with lasting. }
  apply (traced_bind _ _ _ _ (λ r h, begun h ∧ (r = None → F h))).
  - destruct (external c) eqn:He; [apply traced_ret; intros h Hh; split; [done|]; by split; rewrite ?He|].
    eapply traced_weaken; [apply class_blocked_traced|done|]. intros r h [Hh Hr]. split; [done|]. intros Hn. split; auto.
  - intros [msg|]; [apply traced_ret; by intros h []|].
    apply (traced_weaken _ F _ _ (λ _ h, begun h)); [|intros h [_ Hf]; auto|done].
    eapply traced_bind; [apply class_apply_traced; [exact HF|]|intros es; apply traced_ret; by intros h []].
    intros h [_ Hb]. destruct (Hcl class Hin). by split_and!.
Qed.

Lemma update_all_traced classes :
  (∀ class, class ∈ classes → sto_Name class ∈ sto_Name <$> spec_classes ∧ sto_Name class ∈ sto_Name <$> items) →
  traced class_write_ok begun (updateStorageClasses classes) (λ _ h, begun h).
Proof.
  intros Hcl. unfold updateStorageClasses. apply (traced_bind _ _ _ _ (λ _ h, begun h)); [|intros e; by apply traced_ret].
  apply (traced_foldM_inv _ _ (λ _ h, begun h)). intros class errs Hin. unfold update_class.
  apply (traced_bind _ _ _ _ (λ _ h, begun h)); [|intros e; by apply traced_ret].
  apply class_apply_traced; [apply prefix_lasting|]. intros h _. by apply Hcl.
Qed.

(** The usage is known before anything is removed. *)
Lemma usage_traced m :
  traced class_write_ok begun (getStorageClassesUsage rookNs m)
    (λ r h, begun h ∧ (r.2 = None → ∀ name, r.1 !! name = Some true → m !! name = Some true ∧ class_unused name h)).
Proof.
  unfold getStorageClassesUsage. eapply traced_bind; [by apply traced_ask; [apply prefix_lasting|..]|].
  intros [pvcs [e|]]; [apply traced_ret; by intros h []|].
  eapply traced_bind; [apply traced_ask; [apply and_lasting; [apply asked_lasting|apply prefix_lasting]|by intros h []|done]|].
  intros [pvs [e|]]; apply traced_ret; [by intros h (_ & _ & Hh)|].
  intros h (Hpv & Hpvc & Hh). split; [done|]. intros _ name Hname. simpl in Hname.
  apply volumes_true in Hname as [Hname Hpvs]. apply claims_true in Hname as [Hname Hpvcs]. split; [done|]. by exists pvcs, pvs.
Qed.

Lemma unused_lasting name : lasting (class_unused name).
Proof. unfold class_unused. auto 10 with lasting. Qed.

Lemma remove_classes_traced m :
  (∀ name, m !! name = Some true → name ∉ sto_Name <$> spec_classes ∧ ∃ class, class ∈ items ∧ sto_Name class = name ∧
     class_label class rookStorageClassLabelKey = "true" ∧ class_label class rookStorageClassKeepOnSpecRemove ≠ "true") →
  traced class_write_ok begun (removeStorageClasses rookNs m) (λ _ h, begun h).
Proof.
  intros Hm. unfold removeStorageClasses. destruct (decide _); [by apply traced_ret|].
  eapply traced_bind; [apply usage_traced|]. intros [m' [e|]]; [apply traced_ret; by intros h []|]. simpl.
  set (F := λ h, begun h ∧ ∀ name, m' !! name = Some true → m !! name = Some true ∧ class_unused name h).
  assert (HF : lasting F).
  { apply and_lasting; [apply prefix_lasting|]. intros h evs Hh name Hn. destruct (Hh name Hn). split; [done|by apply unused_lasting]. }
  apply (traced_weaken _ F _ _ (λ _ h, begun h)); [|intros h [Hh Hn]; split; auto|done].
  apply (traced_bind _ _ _ _ (λ _, F)); [|intros cnt; apply traced_ret; by intros h []].
  apply (traced_foldM_inv _ _ (λ _, F)). intros [name b] errs Hin%elem_of_range. unfold remove_class.
  destruct b; [|by apply traced_ret]. apply (traced_bind _ _ _ _ (λ _, F)); [|intros e; by apply traced_ret].
  apply traced_call. intros h Hh. split; [|by apply HF]. destruct Hh as [_ Hh]. destruct (Hh name Hin) as [Hmn Hu].
  destruct (Hm name Hmn) as [Hspec Hclass]. by split_and!.
Qed.
End pass.

(** C23: In a pass over the storage classes, a class is created only if it belongs to the
    spec, is not there and (unless the cluster is external) its pool or file system was found
    ready; only classes of the spec that are there are updated; and a class is removed only
    if it is labelled as made for Rook, not to be kept, not in the spec, and neither a bound
    claim of Rook's namespace nor a bound volume was found to use it.  Nothing else is
    written. *)
Theorem class_writes_safe h items evs1 e evs2 :
  w_storageclass_list h EmptyString = (items, None) →
  (ensureStorageClasses rookNs c h).2 = evs1 ++ e :: evs2 → class_write_ok h items (h ++ evs1) e.
Proof.
  intros Hlist Hev. pose proof (changes_compared items) as (_ & Hd & Hc & Hu).
  assert (Ht : traced (class_write_ok h items) (λ h1, h1 = h) (ensureStorageClasses rookNs c) (λ _ _, True)).
  { unfold ensureStorageClasses, storageclass_list.
    apply (traced_bind _ _ _ _ (λ r h1, r = (items, None) ∧ h `prefix_of` h1)).
    { apply traced_call. intros h1 ->. split; [done|]. split; [done|by eexists]. }
    intros [items' [e'|]]; apply traced_pure; intros ?; simplify_eq.
    eapply traced_bind; [apply create_traced; intros class; by rewrite Hc|]. intros e1.
    eapply traced_bind; [apply update_all_traced|].
    { intros class (u & -> & Hin)%list_elem_of_fmap. replace (sto_Name (resolve _ u)) with (sto_Name u.2); [by apply Hu|].
      unfold resolve. by destruct (_ !! u.1). }
    intros e2. eapply traced_bind; [apply remove_classes_traced|].
    { intros name Hn. apply Hd in Hn as [Hn Hs]. split; [done|]. by apply listed_lookup in Hn as [_ Hn]. }
    intros e3. by destruct (collected_error _ _); apply traced_ret. }
  destruct (Ht h eq_refl) as [_ HP]. exact (HP _ _ _ Hev).
Qed.
End classes.
