(* ===== verification/CastSpec.v ===== *)
(** * Preparing the spec of a CephDeployment

    What a round does with the spec before it is validated: the deprecated fields
    (pkg/controller/deployment/deprecation.go), decoding the raw parts
    ([castExtensions] of extension.go) and expanding groups and labels of nodes
    and labels of devices (pkg/common/cephdeployment_utils.go).

    The expansion works on the slice of nodes of the object itself: for an entry that
    names one node, the device list, which is shared with the object, is rewritten
    in place.  The model returns the nodes of the object as they are afterwards. *)

From S2P Require Import Prelude GoTime Types HealthTypes DeployTypes World HealthWorld Extensions Validate DeployWorld.
Open Scope Z_scope.

(** ** Expansion of devices and nodes *)

(** One round of the loop of [GetExpandedCephNodeDevicesList]. *)
Definition expand_device (nodeDeviceLabels : gmap string string) (device : CephDevice) : CephDevice :=
  let device :=
    match nodeDeviceLabels !! cd_Name device with
    | Some realDevLink =>
        if HasPrefix realDevLink "/dev/disk/by-path/" then mkCephDevice EmptyString realDevLink (cd_Config device)
        else mkCephDevice realDevLink EmptyString (cd_Config device)
    | None => device
    end in
  match cd_Config device !! "metadataDevice" ≫= λ metadataDev, nodeDeviceLabels !! metadataDev with
  | Some metaLink => mkCephDevice (cd_Name device) (cd_FullPath device) (<["metadataDevice" := metaLink]> (cd_Config device))
  | None => device
  end.

(** [GetExpandedCephNodeDevicesList]; a node without labels has the empty map. *)
Definition GetExpandedCephNodeDevicesList (nodeDevices : list CephDevice) (nodeDeviceLabels : gmap string string)
    : list CephDevice :=
  if decide (nodeDeviceLabels = ∅) then nodeDevices else expand_device nodeDeviceLabels <$> nodeDevices.

Definition set_node_name (name : string) (n : CephDeploymentNode) : CephDeploymentNode :=
  let node := dn_Node n in
  mkDplNode (mkCephNode name (cn_Config node) (cn_Devices node) (cn_DeviceFilter node) (cn_DevicePathFilter node)
               (cn_UseAllDevices node) (cn_VolumeClaimTemplates node))
    (dn_Roles n) (dn_Crush n) (dn_NodeGroup n) (dn_NodesByLabel n) (dn_MonitorIP n).

Definition clear_group (n : CephDeploymentNode) : CephDeploymentNode :=
  mkDplNode (dn_Node n) (dn_Roles n) (dn_Crush n) [] (dn_NodesByLabel n) (dn_MonitorIP n).

(** The devices of a node expanded with the labels given for its name; [deviceLabels] is
    [None] without extra options or without device labels. *)
Definition expand_devices (deviceLabels : option (gmap string (gmap string string))) (n : CephDeploymentNode)
    : CephDeploymentNode :=
  match deviceLabels with
  | None => n
  | Some labels =>
      let node := dn_Node n in
      let devices := GetExpandedCephNodeDevicesList (cn_Devices node) (default ∅ (labels !! cn_Name node)) in
      mkDplNode (mkCephNode (cn_Name node) (cn_Config node) devices (cn_DeviceFilter node) (cn_DevicePathFilter node)
                   (cn_UseAllDevices node) (cn_VolumeClaimTemplates node))
        (dn_Roles n) (dn_Crush n) (dn_NodeGroup n) (dn_NodesByLabel n) (dn_MonitorIP n)
  end.

Section expansion.
Context `{DeployWorld}.

(** The nodes one entry stands for, an error, and the entry afterwards. *)
Definition expand_node (deviceLabels : option (gmap string (gmap string string))) (idx : nat) (node : CephDeploymentNode)
    : IO (list CephDeploymentNode * option err * CephDeploymentNode) :=
  if decide (dn_Name node = "") then
    ret ([], Some (new_err ("name missed for node (group) item #" +:+ pretty idx)), node)
  else
    match dn_NodeGroup node, dn_NodesByLabel node with
    | _ :: _, String _ _ =>
        ret ([], Some (new_err ("labels and node groups used simultaneously for node (group) " +:+ dn_Name node)), node)
    | group, EmptyString =>
        match group with
        | [] => let node' := expand_devices deviceLabels node in ret ([node'], None, node')
        | _ =>
            ret ((λ nodeName, expand_devices deviceLabels (clear_group (set_node_name nodeName node))) <$> group, None, node)
        end
    | [], label =>
        let selector := if labels_parses label then Some label else None in
        let* r := read "NodeList" EmptyString label (λ h, w_nodes_selected h selector) in
        match r with
        | (_, Some e) => ret ([], Some (wrap_err ("failed to get nodes with label: " +:+ label) e), node)
        | (items, None) => ret ((λ n, expand_devices deviceLabels (set_node_name (kn_Name n) node)) <$> items, None, node)
        end
    end.

Fixpoint expand_nodes (deviceLabels : option (gmap string (gmap string string))) (idx : nat) (nodes : list CephDeploymentNode)
    : IO (list CephDeploymentNode * option err * list CephDeploymentNode) :=
  match nodes with
  | [] => ret ([], None, [])
  | node :: nodes' =>
      let* r := expand_node deviceLabels idx node in
      match r with
      | (_, Some e, node') => ret ([], Some e, node' :: nodes')
      | (expanded, None, node') =>
          let* r := expand_nodes deviceLabels (S idx) nodes' in
          match r with (rest, e, nodes'') => ret (expanded ++ rest, e, node' :: nodes'') end
      end
  end.

(** The expanded list, the error, and the nodes of the spec afterwards.  (With an error the
    code also returns the part expanded so far, which no caller uses.) *)
Definition GetExpandedCephDeploymentNodeList (spec : CephDeploymentSpec)
    : IO (list CephDeploymentNode * option err * list CephDeploymentNode) :=
  expand_nodes (dsp_ExtraOpts spec ≫= eo_DeviceLabels) 0 (dsp_Nodes spec).
End expansion.

(** ** Decoding the raw parts *)

Section cast.
Context `{SpecDecoder} `{DeployWorld}.

(** The message for every element of a list that cannot be decoded. *)
Definition cast_all {A T} (get : A → T * option err) (msg : nat → A → string) (l : list A) : list string :=
  concat (imap (λ idx x, match (get x).2 with Some _ => [msg idx x] | None => [] end) l).

Definition cast_csi (csi : CephCSI) : list string :=
  match csr_OperatorConfig csi with
  | Some operatorConfig =>
      match (OperatorConfig_GetSpec operatorConfig).2 with
      | Some _ => ["failed to cast CSI operatorConfig to CephCSI API"]
      | None => []
      end
  | None => []
  end ++ cast_all CSIDriver_GetSpec (λ idx _, "failed to cast CSI driver #" +:+ pretty idx +:+ " to CephCSI API") (csr_Drivers csi).

Definition cast_msg (what name api : string) : string := "failed to cast " +:+ what +:+ " '" +:+ name +:+ "' " +:+ api.

Definition cast_storage (storage : CephObjectStorage) : list string :=
  cast_all CephObjectStore_GetSpec (λ _ x, cast_msg "rgw" (dos_Name x) "to Rook API") (cos_Rgws storage) ++
  cast_all CephObjectStoreUser_GetSpec (λ _ x, cast_msg "user" (osu_Name x) "to Rook API") (cos_Users storage) ++
  cast_all CephObjectRealm_GetSpec (λ _ x, cast_msg "realm" (dor_Name x) "to Rook API") (cos_Realms storage) ++
  cast_all CephObjectZonegroup_GetSpec (λ _ x, cast_msg "zonegroup" (dzg_Name x) "to Rook API") (cos_Zonegroups storage) ++
  cast_all CephObjectZone_GetSpec (λ _ x, cast_msg "zone" (doz_Name x) "to Rook API") (cos_Zones storage) ++
  cast_all HTTPRoute_GetSpec (λ _ x, cast_msg "http route" (dhr_Name x) "to Gateway API") (cos_GatewayHTTPRoutes storage).

(** The names of the pools; a pool that cannot be decoded leaves its place empty. *)
Definition pool_names (pools : list CephPool) : list string :=
  (λ pool, match (CephPool_GetSpec pool).2 with Some _ => EmptyString | None => buildPoolName pool end) <$> pools.

Definition castExtensions (c : deployConfig) : IO (deployConfig * option err) :=
  let spec := cdp_Spec (dc_cephDpl c) in
  let csi_errs := default [] (cast_csi <$> dsp_CSIResources spec) in
  let '(cluster_errs, c) :=
    match CephCluster_GetSpec (dsp_Cluster spec) with
    | (_, Some _) => (["failed to cast cephdeployment fields to Rook API"], c)
    | (castedClusterSpec, None) => ([], set_dc_clusterSpec (Some castedClusterSpec) c)
    end in
  let '(pool_errs, c) :=
    match dsp_BlockStorage spec with
    | None => ([], c)
    | Some pools =>
        (cast_all CephPool_GetSpec (λ _ pool, cast_msg "block storage pool" (pl_Name pool) "fields to Rook API") pools,
         set_dc_pools (pool_names pools) (set_dc_openstackSetup (IsOpenStackPoolsPresent pools) c))
    end in
  let client_errs := cast_all CephClient_GetSpec (λ idx _, "failed to cast client #" +:+ pretty idx +:+ " to Rook API") (dsp_Clients spec) in
  let storage_errs := default [] (cast_storage <$> dsp_ObjectStorage spec) in
  let fs_errs := default [] (cast_all CephFilesystem_GetSpec (λ _ x, cast_msg "ceph filesystem" (dfs_Name x) "to Rook API")
                               <$> dsp_SharedFilesystem spec) in
  let* r := GetExpandedCephDeploymentNodeList spec in
  let '(expandedNodes, e, nodes') := r in
  let c := set_dc_cephDpl (set_cdp_Spec (set_dsp_Nodes nodes' spec) (dc_cephDpl c)) c in
  let '(node_errs, c) :=
    match e with
    | Some _ => (["failed to expand nodes list"], c)
    | None => ([], set_dc_nodesListExpanded expandedNodes c)
    end in
  match csi_errs ++ cluster_errs ++ pool_errs ++ client_errs ++ storage_errs ++ fs_errs ++ node_errs with
  | [] => ret (c, None)
  | errs => ret (c, Some (new_err ("failed to cast spec fields: " +:+ Join errs ", ")))
  end.

(** ** Deprecated fields *)

(** A client of the deprecated list: clients of OpenStack services get their role. *)
Definition migrate_client (client : RawExtension ClientSpec) : option CephClient :=
  match CephClient_GetSpec (mkCephClient EmptyString client) with
  | (_, Some _) => None
  | (spec, None) =>
      let name := cls_Name spec in
      Some (mkCephClient (if decide (name ∈ ["nova"; "glance"; "cinder"; "manila"]) then name else EmptyString) client)
  end.

(** The spec with the clients moved ([None]: nothing to move), or an error. *)
Definition isMigrationRequired (spec : CephDeploymentSpec) : option CephDeploymentSpec * option err :=
  let failed := Some (new_err "failed to verify spec for deprecated fields") in
  match dsp_OldClients spec, dsp_Clients spec with
  | [], _ => (None, None)
  | _ :: _, _ :: _ => (None, failed)
  | oldClients, [] =>
      match mapM migrate_client oldClients with
      | None => (None, failed)
      | Some newClients => (Some (set_dsp_OldClients [] (set_dsp_Clients newClients spec)), None)
      end
  end.

Definition dpl_update (dpl : CephDeployment) : IO (option err) := call (EvDplUpdate dpl) (λ h, w_dpl_update h dpl).

Definition ensureDeprecatedFields (c : deployConfig) : IO (deployConfig * bool * option err) :=
  match isMigrationRequired (cdp_Spec (dc_cephDpl c)) with
  | (_, Some e) => ret (c, false, Some e)
  | (None, None) => ret (c, false, None)
  | (Some spec, None) =>
      let c := set_dc_cephDpl (set_cdp_Spec spec (dc_cephDpl c)) c in
      let* e := dpl_update (dc_cephDpl c) in
      match e with
      | Some e => ret (c, false, Some (wrap_err "failed to update CephDeployment spec" e))
      | None => ret (c, true, None)
      end
  end.
End cast.
