(* ===== verification/NodeLabels.v ===== *)
(** * Labels and annotations of the nodes

    pkg/controller/deployment/label.go, [buildCephNodeAnnotations] and [isKubeCrush] of
    its utils.go, and of pkg/common [BuildCephNodeLabels] and the expansion of the
    nodes of a CephDeployment (cephdeployment_utils.go).  [c] is the state of the round,
    [ns] the namespace of Rook. *)

From S2P Require Import Prelude GoTime Types HealthTypes DeployTypes World HealthWorld Extensions Validate ValidateFacts Trace DeployWorld.
Open Scope Z_scope.

(** ** Labels of one node *)

Definition CephDaemonKeys : list string := ["mds"; "mgr"; "mon"; "osd"; "rgw"].

(** [CephNodeLabels[role]], from [CephNodeLabelTemplate]. *)
Definition CephNodeLabel (role : string) : string := "ceph_role_" +:+ role.

(** One round of the loop of [BuildCephNodeLabels]. *)
Definition role_label (roles : list string) (acc : gmap string string * bool) (baseRole : string)
    : gmap string string * bool :=
  let '(newLabels, changed) := acc in
  let label := CephNodeLabel baseRole in
  if negb (Contains roles baseRole) then
    match newLabels !! label with
    | Some _ => (delete label newLabels, true)
    | None => (newLabels, changed)
    end
  else if decide (default EmptyString (newLabels !! label) = "true") then (newLabels, changed)
  else (<[label := "true"]> newLabels, true).

Definition BuildCephNodeLabels (currentNodeLabels : gmap string string) (roles : list string)
    : gmap string string * bool :=
  foldl (role_label roles) (currentNodeLabels, false) CephDaemonKeys.

Definition isKubeCrush (key : string) : bool := bool_decide (key = "region") || bool_decide (key = "zone").

(** The label that keeps the value a topology label had before
    ([cephKubeTopologyLabelTemplate]). *)
Definition prev_label (topology : string) : string := "cephdpl-prev-" +:+ topology.

(** One round of the first loop of [buildNodeLabels]. *)
Definition set_topology (acc : gmap string string * bool) (entry : string * string) : gmap string string * bool :=
  let '(newLabels, updated) := acc in
  let '(crushroot, crushtopology) := entry in
  let topology := default EmptyString (crushTopologyAllowedKeys !! crushroot) in
  match newLabels !! topology with
  | None =>
      let newLabels := if isKubeCrush crushroot then <[prev_label topology := EmptyString]> newLabels else newLabels in
      (<[topology := crushtopology]> newLabels, true)
  | Some currentTopology =>
      let '(newLabels, updated) :=
        if isKubeCrush crushroot then
          match newLabels !! prev_label topology with
          | None => (<[prev_label topology := currentTopology]> newLabels, true)
          | Some _ => (newLabels, updated)
          end
        else (newLabels, updated) in
      if decide (currentTopology = crushtopology) then (newLabels, updated)
      else (<[topology := crushtopology]> newLabels, true)
  end.

(** One round of the second loop: topology labels that are no longer in the spec. *)
Definition drop_topology (newNodeTopology : gmap string string) (acc : gmap string string * bool)
    (entry : string * string) : gmap string string * bool :=
  let '(newLabels, updated) := acc in
  let '(allowedKey, topologyPath) := entry in
  match newNodeTopology !! allowedKey with
  | Some _ => (newLabels, updated)
  | None =>
      match newLabels !! topologyPath with
      | None => (newLabels, updated)
      | Some _ =>
          if isKubeCrush allowedKey then
            match newLabels !! prev_label topologyPath with
            | None => (newLabels, updated)
            | Some originalValue =>
                let newLabels :=
                  if decide (originalValue = "") then delete topologyPath newLabels
                  else <[topologyPath := originalValue]> newLabels in
                (delete (prev_label topologyPath) newLabels, true)
            end
          else (delete topologyPath newLabels, true)
      end
  end.

Definition buildNodeLabels `{MapRange} (currentLabels : gmap string string) (nodeRoles : list string)
    (newNodeTopology : gmap string string) : gmap string string * bool :=
  let acc := BuildCephNodeLabels currentLabels nodeRoles in
  let acc := foldl set_topology acc (range 85 newNodeTopology) in
  foldl (drop_topology newNodeTopology) acc (range 86 crushTopologyAllowedKeys).

Definition monIPAnnotation : string := "network.rook.io/mon-ip".
Definition cephNodeAnnotationKeys : list string := [monIPAnnotation].

Definition buildCephNodeAnnotations (current desired : gmap string string) : gmap string string * bool :=
  foldl (λ '(newAnnotations, changed) annotation,
    match desired !! annotation with
    | None =>
        match newAnnotations !! annotation with
        | Some _ => (delete annotation newAnnotations, true)
        | None => (newAnnotations, changed)
        end
    | Some value =>
        if decide (default EmptyString (newAnnotations !! annotation) = value) then (newAnnotations, changed)
        else (<[annotation := value]> newAnnotations, true)
    end) (current, false) cephNodeAnnotationKeys.

(** ** The nodes of the cluster *)

Section nodes.
Context `{World} `{HealthWorld} `{DeployWorld} `{MapRange}.

Definition annotateNode (annotations : gmap string string) (node : K8sNode) : IO (bool * option err) :=
  let '(newAnnotations, updateAnnotations) := buildCephNodeAnnotations (kn_Annotations node) annotations in
  if (updateAnnotations : bool) then
    let* e := node_update (set_kn_Annotations newAnnotations node) in
    match e with
    | Some e => ret (false, Some (wrap_err ("failed to update '" +:+ kn_Name node +:+ "' node annotations") e))
    | None => ret (true, None)
    end
  else ret (false, None).

(** The loop over the nodes all these functions have: [step] tells for one node whether it
    was changed and whether an error was counted; the result is whether there were errors
    and changes. *)
Definition for_nodes (step : K8sNode → IO (bool * bool)) (nodes : list K8sNode) : IO (bool * bool) :=
  foldM (λ acc node, let* r := step node in ret (acc.1 || r.1, acc.2 || r.2)) nodes (false, false).

(** The static addresses of the monitors: the last entry of a node counts. *)
Definition nodeMonitorIPs (nodes : list CephDeploymentNode) : gmap string string :=
  foldl (λ m node, if decide (dn_MonitorIP node = "") then m else <[dn_Name node := dn_MonitorIP node]> m) ∅ nodes.

Definition annotate_step (ips : gmap string string) (node : K8sNode) : IO (bool * bool) :=
  let annotations := match ips !! kn_Name node with Some ip => {[monIPAnnotation := ip]} | None => ∅ end in
  let* r := annotateNode annotations node in
  ret (r.1, match r.2 with Some _ => true | None => false end).

Definition ensureNodesAnnotation (c : deployConfig) : IO (bool * option err) :=
  let* r := GetNodeList in
  match r with
  | (_, Some e) => ret (false, Some (wrap_err "failed to list nodes" e))
  | (nodes, None) =>
      let* r := for_nodes (annotate_step (nodeMonitorIPs (dc_nodesListExpanded c))) nodes in
      let '(changedNodes, failed) := r in
      if (failed : bool) then ret (false, Some (new_err "failed to verify node(s) annotations"))
      else ret (changedNodes, None)
  end.

(** The maps [nodesRoles] and [nodesCrushTopology] of [ensureLabelNodes]. *)
Definition nodesRoles (nodes : list CephDeploymentNode) : gmap string (list string) :=
  foldl (λ m node,
    <[dn_Name node := if IsCephOsdNode (dn_Node node) then dn_Roles node ++ ["osd"] else dn_Roles node]> m) ∅ nodes.

Definition nodesCrushTopology (nodes : list CephDeploymentNode) : gmap string (gmap string string) :=
  foldl (λ m node, if IsCephOsdNode (dn_Node node) then <[dn_Name node := dn_Crush node]> m else m) ∅ nodes.

(** The roles of a node, [osd] included when OSDs still run on it; [None] when that cannot
    be checked. *)
Definition node_roles (ns : string) (roles : gmap string (list string)) (topology : gmap string (gmap string string))
    (node : K8sNode) : IO (option (list string)) :=
  let nodeRoles := default [] (roles !! kn_Name node) in
  match kn_Labels node !! CephNodeLabel "osd", topology !! kn_Name node with
  | Some _, None =>
      let labelSelector := "app=rook-ceph-osd,failure-domain=" +:+ kn_Name node in
      let* r := read "DeploymentList" ns labelSelector (λ h, w_deployments_selected h ns labelSelector) in
      match r with
      | (_, Some _) => ret None
      | (O, None) => ret (Some nodeRoles)
      | (S _, None) => ret (Some (nodeRoles ++ ["osd"]))
      end
  | _, _ => ret (Some nodeRoles)
  end.

(** Writing the labels of a node when they have changed: whether they have, and
    whether the update has failed. *)
Definition update_labels (node : K8sNode) (new : gmap string string * bool) : IO (bool * bool) :=
  let '(newLabels, updated) := new in
  if (updated : bool) then
    let* e := node_update (set_kn_Labels newLabels node) in
    ret (true, match e with Some _ => true | None => false end)
  else ret (false, false).

Definition label_step (ns : string) (roles : gmap string (list string)) (topology : gmap string (gmap string string))
    (node : K8sNode) : IO (bool * bool) :=
  let* nodeRoles := node_roles ns roles topology node in
  match nodeRoles with
  | None => ret (false, true)
  | Some nodeRoles =>
      update_labels node (buildNodeLabels (kn_Labels node) nodeRoles (default ∅ (topology !! kn_Name node)))
  end.

Definition ensureLabelNodes (ns : string) (c : deployConfig) : IO (bool * option err) :=
  let specNodes := dc_nodesListExpanded c in
  let* r := GetNodeList in
  match r with
  | (_, Some e) => ret (false, Some (wrap_err "failed to list nodes" e))
  | (nodes, None) =>
      let* r := for_nodes (label_step ns (nodesRoles specNodes) (nodesCrushTopology specNodes)) nodes in
      let '(labelsUpdated, failed) := r in
      if (failed : bool) then ret (false, Some (new_err "failed to verify node(s) labels"))
      else ret (labelsUpdated, None)
  end.

(** The deletions: nothing was left to change. *)
Definition delete_from_nodes (step : K8sNode → IO (bool * bool)) (failure : string) : IO (bool * option err) :=
  let* r := GetNodeList in
  match r with
  | (_, Some e) => ret (false, Some (wrap_err "failed to list nodes" e))
  | (nodes, None) =>
      let* r := for_nodes step nodes in
      let '(changed, failed) := r in
      if (failed : bool) then ret (false, Some (new_err failure)) else ret (negb changed, None)
  end.

Definition deleteLabelNodes : IO (bool * option err) :=
  delete_from_nodes (λ node, update_labels node (buildNodeLabels (kn_Labels node) [] ∅))
    "failed to delete ceph role or crush topology labels from obsolete node(s)".

Definition deleteNodesAnnotations : IO (bool * option err) :=
  delete_from_nodes (annotate_step ∅) "failed to delete rook annotations from obsolete node(s)".

Definition cephDaemonsetLabel : string := "ceph-daemonset-available-node".

Definition deleteDaemonSetLabels : IO (bool * option err) :=
  delete_from_nodes (λ node,
      update_labels node (delete cephDaemonsetLabel (kn_Labels node),
                          bool_decide (is_Some (kn_Labels node !! cephDaemonsetLabel))))
    "failed to delete daemonset labels from some nodes".
End nodes.

(** ** What the labels of a node become

    [buildNodeLabels] is a pass over the roles, over the topology of the spec and over
    all topology keys, in any order.  Every round works on labels of its own, so the
    result is given label by label ([desired_label]) and reported exactly
    ([labels_exact]).  Dropping a node from the spec gives it back the labels it had
    before it was used ([labels_restored]), and a pass over the nodes of the cluster
    touches nothing else ([label_updates_safe]). *)

(** ** Loops whose rounds work on keys of their own *)

Section local_fold.
Context {V E : Type} `{EqDecision V}.
Implicit Types m : gmap string V.
Variable step : gmap string V * bool → E → gmap string V * bool.
Variable keys : E → list string.
Variable ok : E → Prop.

(** A round changes and reads the keys of its entry only, and reports a change exactly. *)
Record local_step : Prop := {
  step_frame : ∀ m u e x, ok e → x ∉ keys e → (step (m, u) e).1 !! x = m !! x;
  step_local : ∀ m1 m2 u1 u2 e x, ok e → x ∈ keys e → (∀ y, y ∈ keys e → m1 !! y = m2 !! y) →
    (step (m1, u1) e).1 !! x = (step (m2, u2) e).1 !! x;
  step_flag : ∀ m u e, ok e → (step (m, u) e).2 = u || bool_decide ((step (m, u) e).1 ≠ m);
}.
Hypothesis Hstep : local_step.

(** No two entries have a key in common. *)
Fixpoint disjoint_entries (l : list E) : Prop :=
  match l with
  | [] => True
  | e :: l' => (∀ e' x, e' ∈ l' → x ∈ keys e → x ∉ keys e') ∧ disjoint_entries l'
  end.

Lemma fold_frame l acc x : Forall ok l → (∀ e, e ∈ l → x ∉ keys e) → (foldl step acc l).1 !! x = acc.1 !! x.
Proof.
  intros Hok. revert acc. induction Hok as [|e l He Hok IH]; intros [m u] Hx; simpl; [done|].
  rewrite IH by (intros; apply Hx; by right). apply Hstep; [done|]. apply Hx. left.
Qed.

Lemma fold_at l m u e x :
  Forall ok l → disjoint_entries l → e ∈ l → x ∈ keys e → (foldl step (m, u) l).1 !! x = (step (m, u) e).1 !! x.
Proof.
  intros Hok. revert m u. induction Hok as [|e0 l H0 Hok IH]; intros m u Hd He Hx; [by apply elem_of_nil in He|].
  destruct Hd as [Hd0 Hd]. simpl. apply elem_of_cons in He as [->|He].
  - rewrite fold_frame; [done|done|]. intros e' He'. by apply Hd0.
  - destruct (step (m, u) e0) as [m1 u1] eqn:Hs. rewrite IH by done.
    apply Hstep; [by eapply Forall_forall in Hok|done|].
    intros y Hy. pose proof (step_frame Hstep m u e0 y) as Hf. rewrite Hs in Hf. apply Hf; [done|].
    intros Hy0. by destruct (Hd0 e y He Hy0).
Qed.

Lemma fold_flag l m u :
  Forall ok l → disjoint_entries l →
  (foldl step (m, u) l).2 = u || bool_decide ((foldl step (m, u) l).1 ≠ m).
Proof.
  intros Hok. revert m u. induction Hok as [|e l He Hok IH]; intros m u Hd; simpl.
  { rewrite bool_decide_eq_false_2 by (intros []; done). by rewrite orb_false_r. }
  destruct Hd as [Hd0 Hd]. pose proof (step_flag Hstep m u e He) as Hf.
  destruct (step (m, u) e) as [m1 u1] eqn:Hs. simpl in Hf. rewrite IH by done. rewrite Hf.
  destruct (decide (m1 = m)) as [->|Hne].
  { rewrite (bool_decide_eq_false_2 (m ≠ m)) by (intros []; done). by rewrite orb_false_r. }
  rewrite (bool_decide_eq_true_2 (m1 ≠ m)) by done. rewrite (bool_decide_eq_true_2 (_ ≠ m)).
  { by rewrite !orb_true_r. }
  intros Heq. apply Hne, map_eq. intros x. destruct (decide (x ∈ keys e)) as [Hx|Hx].
  - rewrite <-Heq. symmetry. apply (fold_frame l (m1, _)); [done|]. intros e' He'. by apply Hd0.
  - change m1 with ((m1, u1).1). rewrite <-Hs. by apply Hstep.
Qed.
End local_fold.

(** ** The rounds of [buildNodeLabels] *)

Inductive label_entry := LRole (role : string) | LSet (crush topology : string) | LDrop (crush path : string).
Inductive label_owner := KRole (role : string) | KCrush (crush : string).

#[global] Instance label_owner_eq_dec : EqDecision label_owner.
Proof. solve_decision. Defined.

(** The role or topology key that a label belongs to, if any. *)
Definition path_owner (x : string) : option label_owner :=
  KCrush <$> (list_find (λ kp : string * string, x = kp.2 ∨ x = prev_label kp.2 ∧ isKubeCrush kp.1 = true)
                (map_to_list crushTopologyAllowedKeys) ≫= λ r, Some r.2.1).
Definition owner (x : string) : option label_owner :=
  match list_find (λ r, x = CephNodeLabel r) CephDaemonKeys with
  | Some (_, r) => Some (KRole r)
  | None => path_owner x
  end.

Definition path (crush : string) : string := default EmptyString (crushTopologyAllowedKeys !! crush).
Definition crush_keys (crush : string) : list string :=
  if isKubeCrush crush then [path crush; prev_label (path crush)] else [path crush].

Lemma crush_cases crush p :
  crushTopologyAllowedKeys !! crush = Some p → (crush, p) ∈ map_to_list crushTopologyAllowedKeys.
Proof. apply elem_of_map_to_list. Qed.

Lemma owner_role r : r ∈ CephDaemonKeys → owner (CephNodeLabel r) = Some (KRole r).
Proof. unfold CephDaemonKeys. intros Hr. mem_inv Hr; subst; reflexivity. Qed.

Definition crush_owned (kp : string * string) : bool :=
  forallb (λ x, bool_decide (owner x = Some (KCrush kp.1))) (crush_keys kp.1).

Lemma owner_crush crush x :
  is_Some (crushTopologyAllowedKeys !! crush) → x ∈ crush_keys crush → owner x = Some (KCrush crush).
Proof.
  intros [p Hp] Hx. apply crush_cases in Hp.
  assert (Hall : forallb crush_owned (map_to_list crushTopologyAllowedKeys) = true) by (vm_compute; reflexivity).
  rewrite forallb_forall in Hall. specialize (Hall _ (proj1 (list_elem_of_In _ _) Hp)). unfold crush_owned in Hall.
  rewrite forallb_forall in Hall. apply list_elem_of_In, Hall in Hx. by apply bool_decide_eq_true in Hx.
Qed.

Section build.
Context `{MapRange}.
Implicit Types labels : gmap string string.
Variable roles : list string.
Variable topo : gmap string string.

Definition label_round (acc : gmap string string * bool) (e : label_entry) : gmap string string * bool :=
  match e with
  | LRole r => role_label roles acc r
  | LSet k v => set_topology acc (k, v)
  | LDrop k p => drop_topology topo acc (k, p)
  end.

Definition entry_keys (e : label_entry) : list string :=
  match e with
  | LRole r => [CephNodeLabel r]
  | LSet k _ => crush_keys k
  | LDrop k p =>
      match topo !! k with
      | Some _ => []
      | None => if isKubeCrush k then [p; prev_label p] else [p]
      end
  end.

Definition rounds : list label_entry :=
  (LRole <$> CephDaemonKeys) ++ ((λ kv, LSet kv.1 kv.2) <$> range 85 topo) ++
  ((λ kp, LDrop kp.1 kp.2) <$> range 86 crushTopologyAllowedKeys).

Lemma build_rounds labels : buildNodeLabels labels roles topo = foldl label_round (labels, false) rounds.
Proof.
  unfold rounds. rewrite !foldl_app. unfold buildNodeLabels, BuildCephNodeLabels.
  assert (Hf : ∀ {A} (g : A → label_entry) f (l : list A) acc,
    (∀ acc a, f acc a = label_round acc (g a)) → foldl label_round acc (g <$> l) = foldl f acc l).
  { intros A g f l. induction l as [|a l IH]; intros acc Hg; simpl; [done|]. rewrite <-Hg. by apply IH. }
  rewrite (Hf _ LRole (role_label roles)) by done.
  rewrite (Hf _ (λ kv, LSet kv.1 kv.2) set_topology) by (by intros ? []).
  by rewrite (Hf _ (λ kp, LDrop kp.1 kp.2) (drop_topology topo)) by (by intros ? []).
Qed.

Lemma prev_label_ne p : prev_label p ≠ p.
Proof. intros Heq. apply (f_equal String.length) in Heq. unfold prev_label in Heq. simpl in Heq.
  change (EmptyString +:+ p) with p in Heq. lia.
Qed.

Lemma insert_changed labels k v : labels !! k ≠ Some v → <[k := v]> labels ≠ labels.
Proof. intros Hk Heq. apply Hk. rewrite <-Heq. apply lookup_insert_eq. Qed.

Lemma delete_changed labels k v : labels !! k = Some v → delete k labels ≠ labels.
Proof. intros Hk Heq. rewrite <-Heq, lookup_delete_eq in Hk. done. Qed.

Lemma orb_changed (u : bool) (P : Prop) `{Decision P} : P → true = u || bool_decide P.
Proof. intros HP. by rewrite bool_decide_eq_true_2, orb_true_r. Qed.

Lemma orb_unchanged (u : bool) labels : u = u || bool_decide (labels ≠ labels).
Proof. rewrite bool_decide_eq_false_2 by (intros []; done). by rewrite orb_false_r. Qed.

Ltac round_cases :=
  repeat (case_match || case_decide || case_bool_decide); simplify_eq/=.

Lemma role_local r : ∀ labels u x,
  ((role_label roles (labels, u) r).1 !! x =
     if decide (x = CephNodeLabel r) then (if Contains roles r then Some "true" else None) else labels !! x) ∧
  (role_label roles (labels, u) r).2 = u || bool_decide ((role_label roles (labels, u) r).1 ≠ labels).
Proof.
  intros labels u x. unfold role_label.
  destruct (Contains roles r); simpl.
  - destruct (decide (default "" (labels !! CephNodeLabel r) = "true")) as [Ht|Ht]; simpl.
    + split; [|apply orb_unchanged]. case_decide; [|done]. subst.
      destruct (labels !! CephNodeLabel r); simpl in Ht; congruence.
    + split; [case_decide; simplify_map_eq; done|]. apply orb_changed, insert_changed.
      intros Heq. by rewrite Heq in Ht.
  - destruct (labels !! CephNodeLabel r) eqn:Hr; simpl.
    + split; [case_decide; simplify_map_eq; done|]. by eapply orb_changed, delete_changed.
    + split; [case_decide; by subst|apply orb_unchanged].
Qed.

(** What the labels of a topology key become: its path and its previous value. *)
Definition crush_label labels (k x : string) : option string :=
  let p := path k in
  match topo !! k with
  | Some v =>
      if decide (x = p) then Some v
      else match labels !! p with
           | None => Some EmptyString
           | Some current => Some (default current (labels !! prev_label p))
           end
  | None =>
      match labels !! p with
      | None => labels !! x
      | Some current =>
          if isKubeCrush k then
            match labels !! prev_label p with
            | None => labels !! x
            | Some original => if decide (x = p) then (if decide (original = "") then None else Some original) else None
            end
          else None
      end
  end.

Lemma set_local k v : topo !! k = Some v → ∀ labels u x,
  ((set_topology (labels, u) (k, v)).1 !! x =
     if decide (x ∈ crush_keys k) then crush_label labels k x else labels !! x) ∧
  (set_topology (labels, u) (k, v)).2 = u || bool_decide ((set_topology (labels, u) (k, v)).1 ≠ labels).
Proof.
  intros Hk labels u x. unfold crush_label, set_topology, crush_keys. rewrite Hk. fold (path k).
  pose proof (prev_label_ne (path k)) as Hne.
  destruct (labels !! path k) as [current|] eqn:Hp; simpl.
  2: { split.
       - destruct (isKubeCrush k); case_decide as Hx; set_unfold; round_cases;
           destruct_or?; simplify_map_eq; try done; tauto.
       - apply orb_changed. intros Heq. rewrite <-Heq in Hp.
         destruct (isKubeCrush k); by rewrite lookup_insert_eq in Hp. }
  destruct (isKubeCrush k); [destruct (labels !! prev_label (path k)) as [o|] eqn:Ho|];
    (destruct (decide (current = v)) as [->|Hv]; simpl;
     (split; [case_decide as Hx; set_unfold; round_cases; destruct_or?; simplify_map_eq; try done; tauto|]));
    try apply orb_unchanged; apply orb_changed; intros Heq.
  - apply Hv. rewrite <-Heq, lookup_insert_eq in Hp. congruence.
  - rewrite <-Heq in Ho. by rewrite lookup_insert_eq in Ho.
  - apply Hv. rewrite <-Heq, lookup_insert_eq in Hp. congruence.
  - apply Hv. rewrite <-Heq, lookup_insert_eq in Hp. congruence.
Qed.

Lemma drop_local k p : crushTopologyAllowedKeys !! k = Some p → ∀ labels u x,
  ((drop_topology topo (labels, u) (k, p)).1 !! x =
     if decide (x ∈ entry_keys (LDrop k p)) then crush_label labels k x else labels !! x) ∧
  (drop_topology topo (labels, u) (k, p)).2 = u || bool_decide ((drop_topology topo (labels, u) (k, p)).1 ≠ labels).
Proof.
  intros Hp labels u x. unfold crush_label, drop_topology, entry_keys.
  assert (Hpath : path k = p) by (unfold path; by rewrite Hp). rewrite Hpath.
  pose proof (prev_label_ne p) as Hne.
  destruct (topo !! k); simpl.
  { split; [done|apply orb_unchanged]. }
  destruct (labels !! p) as [current|] eqn:Hl; simpl.
  2: { split; [by case_decide|apply orb_unchanged]. }
  destruct (isKubeCrush k); [destruct (labels !! prev_label p) as [o|] eqn:Ho|]; simpl.
  - split.
    + destruct (decide (o = "")); case_decide as Hx; set_unfold; destruct_or?; simplify_map_eq; try done; tauto.
    + apply orb_changed. intros Heq. rewrite <-Heq in Ho. by rewrite lookup_delete_eq in Ho.
  - split; [by case_decide|apply orb_unchanged].
  - split; [case_decide as Hx; set_unfold; destruct_or?; simplify_map_eq; try done; tauto|].
    by eapply orb_changed, delete_changed.
Qed.

Lemma crush_label_local labels1 labels2 k x :
  x ∈ crush_keys k → (∀ y, y ∈ crush_keys k → labels1 !! y = labels2 !! y) →
  crush_label labels1 k x = crush_label labels2 k x.
Proof.
  intros Hx Heq. unfold crush_label. unfold crush_keys in *.
  rewrite (Heq (path k)) by (destruct (isKubeCrush k); mem).
  destruct (isKubeCrush k); [rewrite (Heq (prev_label (path k))) by mem; by rewrite (Heq x)|].
  rewrite (Heq x) by done. destruct (topo !! k); [|done].
  apply list_elem_of_singleton in Hx as ->. by destruct (decide (path k = path k)).
Qed.

(** The entries that occur. *)
Definition entry_ok (e : label_entry) : Prop :=
  match e with
  | LRole r => r ∈ CephDaemonKeys
  | LSet k v => topo !! k = Some v ∧ is_Some (crushTopologyAllowedKeys !! k)
  | LDrop k p => crushTopologyAllowedKeys !! k = Some p
  end.

Lemma round_local : local_step label_round entry_keys entry_ok.
Proof.
  split.
  - intros m u [r|k v|k p] x Hok Hx; unfold label_round; simpl in Hok, Hx.
    + rewrite (proj1 (role_local r m u x)). case_decide; [|done]. subst. destruct Hx. left.
    + destruct Hok as [Hok _]. rewrite (proj1 (set_local k v Hok m u x)). by rewrite decide_False.
    + rewrite (proj1 (drop_local k p Hok m u x)). by rewrite decide_False.
  - intros m1 m2 u1 u2 [r|k v|k p] x Hok Hx Heq; unfold label_round.
    + rewrite (proj1 (role_local r m1 u1 x)), (proj1 (role_local r m2 u2 x)).
      apply list_elem_of_singleton in Hx as ->. by rewrite !decide_True.
    + destruct Hok as [Hok _]. rewrite (proj1 (set_local k v Hok m1 u1 x)), (proj1 (set_local k v Hok m2 u2 x)).
      rewrite !decide_True by done. by apply crush_label_local.
    + rewrite (proj1 (drop_local k p Hok m1 u1 x)), (proj1 (drop_local k p Hok m2 u2 x)).
      rewrite !decide_True by done. apply crush_label_local.
      * revert Hx. simpl. unfold crush_keys, path. simpl in Hok. rewrite Hok.
        destruct (topo !! k); [by intros ?%elem_of_nil|done].
      * revert Heq Hx. simpl. unfold crush_keys, path. simpl in Hok. rewrite Hok. simpl.
        destruct (topo !! k); [by intros _ ?%elem_of_nil|done].
  - intros m u [r|k v|k p] Hok; unfold label_round.
    + apply (role_local r m u EmptyString).
    + by apply (set_local k v (proj1 Hok) m u EmptyString).
    + by apply (drop_local k p Hok m u EmptyString).
Qed.

Hypothesis Hallowed : ∀ k, is_Some (topo !! k) → is_Some (crushTopologyAllowedKeys !! k).

Lemma rounds_ok : Forall entry_ok rounds.
Proof.
  unfold rounds. rewrite !Forall_app, !Forall_fmap. split_and!; apply Forall_forall; [done|..].
  - intros [k v] Hkv%elem_of_range. simpl. split; [done|]. apply Hallowed. eauto.
  - by intros [k p] Hkp%elem_of_range.
Qed.

Definition entry_owner (e : label_entry) : label_owner :=
  match e with LRole r => KRole r | LSet k _ | LDrop k _ => KCrush k end.

Lemma entry_owned e x : entry_ok e → x ∈ entry_keys e → owner x = Some (entry_owner e).
Proof.
  destruct e as [r|k v|k p]; simpl.
  - intros Hr ->%list_elem_of_singleton. by apply owner_role.
  - intros [_ Hk] Hx. by apply owner_crush.
  - intros Hp Hx. apply owner_crush; [eauto|]. revert Hx. unfold crush_keys, path. rewrite Hp.
    by destruct (topo !! k); [intros ?%elem_of_nil|].
Qed.

(** Every label is worked on in at most one round. *)
Lemma entry_unique e1 e2 x :
  entry_ok e1 → entry_ok e2 → x ∈ entry_keys e1 → x ∈ entry_keys e2 → e1 = e2.
Proof.
  intros Hok1 Hok2 Hx1 Hx2. pose proof (entry_owned _ _ Hok1 Hx1) as Ho1. pose proof (entry_owned _ _ Hok2 Hx2) as Ho2.
  rewrite Ho1 in Ho2. destruct e1 as [r1|k1 v1|k1 p1], e2 as [r2|k2 v2|k2 p2]; simplify_eq/=; try done.
  - destruct Hok1, Hok2. congruence.
  - destruct Hok1 as [Hk _]. rewrite Hk in Hx2. by apply elem_of_nil in Hx2.
  - destruct Hok2 as [Hk _]. rewrite Hk in Hx1. by apply elem_of_nil in Hx1.
Qed.

Lemma rounds_NoDup : NoDup rounds.
Proof.
  unfold rounds. apply NoDup_app. split_and!.
  - apply NoDup_fmap_2; [by intros ?? [=]|]. apply (bool_decide_unpack _). vm_compute. exact I.
  - intros e (r & -> & _)%list_elem_of_fmap [(?&?&_)%list_elem_of_fmap|(?&?&_)%list_elem_of_fmap]%elem_of_app; done.
  - apply NoDup_app. split_and!.
    + apply NoDup_fmap_2; [by intros [] [] [=]; simplify_eq/=|]. apply NoDup_range.
    + by intros e (?&->&_)%list_elem_of_fmap (?&?&_)%list_elem_of_fmap.
    + apply NoDup_fmap_2; [by intros [] [] [=]; simplify_eq/=|]. apply NoDup_range.
Qed.

Lemma rounds_disjoint : disjoint_entries entry_keys rounds.
Proof.
  pose proof rounds_ok as Hok. pose proof rounds_NoDup as Hnd.
  induction rounds as [|e l IH]; simpl; [done|].
  apply Forall_cons in Hok as [He Hok]. apply NoDup_cons in Hnd as [Hnin Hnd]. split; [|by apply IH].
  intros e' x He' Hx Hx'. apply Hnin. rewrite Forall_forall in Hok.
  by rewrite (entry_unique e e' x He (Hok _ He') Hx Hx').
Qed.

(** ** The labels, one by one *)

Definition desired_label labels (x : string) : option string :=
  match owner x with
  | None => labels !! x
  | Some (KRole r) => if Contains roles r then Some "true" else None
  | Some (KCrush k) => crush_label labels k x
  end.

Lemma owner_inv x :
  match owner x with
  | None => True
  | Some (KRole r) => r ∈ CephDaemonKeys ∧ x = CephNodeLabel r
  | Some (KCrush k) => is_Some (crushTopologyAllowedKeys !! k) ∧ x ∈ crush_keys k
  end.
Proof.
  unfold owner. destruct (list_find _ CephDaemonKeys) as [[i r]|] eqn:Hr.
  { apply list_find_Some in Hr as (Hi & -> & _). split; [by eapply list_elem_of_lookup_2|done]. }
  unfold path_owner. destruct (list_find _ (map_to_list _)) as [[i [k p]]|] eqn:Hk; simpl; [|done].
  apply list_find_Some in Hk as (Hi & Hx & _). apply list_elem_of_lookup_2, elem_of_map_to_list in Hi.
  split; [eauto|]. unfold crush_keys, path. rewrite Hi. simpl in Hx |- *.
  destruct Hx as [->|[-> ->]]; [destruct (isKubeCrush k)|]; mem.
Qed.

Lemma build_lookup labels x : (buildNodeLabels labels roles topo).1 !! x = desired_label labels x.
Proof.
  rewrite build_rounds. pose proof rounds_ok as Hok. pose proof rounds_disjoint as Hd.
  pose proof (owner_inv x) as Hown. unfold desired_label.
  destruct (owner x) as [[r|k]|] eqn:Ho.
  - destruct Hown as [Hr ->].
    rewrite (fold_at _ _ _ round_local rounds labels false (LRole r)); [|done|done| |simpl; mem].
    + unfold label_round. rewrite (proj1 (role_local r labels false _)). by rewrite decide_True.
    + unfold rounds. apply elem_of_app. left. by apply list_elem_of_fmap_2.
  - destruct Hown as [[p Hp] Hx]. destruct (topo !! k) as [v|] eqn:Hk.
    + rewrite (fold_at _ _ _ round_local rounds labels false (LSet k v)); [|done|done| |done].
      * unfold label_round. rewrite (proj1 (set_local k v Hk labels false x)). by rewrite decide_True.
      * unfold rounds. rewrite !elem_of_app. right. left. apply list_elem_of_fmap. exists (k, v).
        by rewrite elem_of_range.
    + assert (Hxk : x ∈ entry_keys (LDrop k p)).
      { revert Hx. simpl. unfold crush_keys, path. by rewrite Hk, Hp. }
      rewrite (fold_at _ _ _ round_local rounds labels false (LDrop k p)); [|done|done| |done].
      * unfold label_round. rewrite (proj1 (drop_local k p Hp labels false x)). by rewrite decide_True.
      * unfold rounds. rewrite !elem_of_app. right. right. apply list_elem_of_fmap. exists (k, p).
        by rewrite elem_of_range.
  - rewrite (fold_frame _ _ _ round_local); [done|done|]. intros e He Hx.
    rewrite Forall_forall in Hok. by rewrite (entry_owned e x (Hok e He) Hx) in Ho.
Qed.

Lemma build_flag labels :
  (buildNodeLabels labels roles topo).2 = bool_decide ((buildNodeLabels labels roles topo).1 ≠ labels).
Proof. rewrite build_rounds. by rewrite (fold_flag _ _ _ round_local) by (apply rounds_ok || apply rounds_disjoint). Qed.
End build.

(** The keys of a topology are ones Rook knows. *)
Definition topology_allowed (topo : gmap string string) : Prop :=
  ∀ k, is_Some (topo !! k) → is_Some (crushTopologyAllowedKeys !! k).

Lemma topology_allowed_empty : topology_allowed ∅.
Proof. intros k [v Hv]. by rewrite lookup_empty in Hv. Qed.

(** C18: For every order in which Go visits the two maps, the labels computed for a node are
    given label by label by [desired_label]: a role label is there exactly when the node has
    the role, a topology label has the value of the spec, or is removed, or gets back the
    value it had before, and any other label is left alone; an update is reported exactly
    when some label changes. *)
Theorem labels_exact `{MapRange} labels roles topo :
  topology_allowed topo →
  (∀ x, (buildNodeLabels labels roles topo).1 !! x = desired_label roles topo labels x) ∧
  (buildNodeLabels labels roles topo).2 = bool_decide ((buildNodeLabels labels roles topo).1 ≠ labels).
Proof. intros Ht. split; [intros x; by apply build_lookup|by apply build_flag]. Qed.

Definition demo_labels : gmap string string :=
  {["kubernetes.io/hostname" := "node-1"; "topology.kubernetes.io/zone" := "eu-1"]}.
Definition demo_topology : gmap string string := {["zone" := "z1"; "rack" := "r7"]}.

Lemma demo_topology_allowed : topology_allowed demo_topology.
Proof.
  intros k [v Hv]. apply elem_of_map_to_list in Hv. change (map_to_list demo_topology) with [("zone", "z1"); ("rack", "r7")] in Hv.
  mem_inv Hv; injection Hv as -> ->; eexists; vm_compute; reflexivity.
Qed.

Lemma labels_exact_witness :
  let new := buildNodeLabels (H := default_range) demo_labels ["mon"] demo_topology in
  new.1 !! "topology.kubernetes.io/zone" = Some "z1" ∧ new.1 !! "cephdpl-prev-topology.kubernetes.io/zone" = Some "eu-1" ∧
  new.2 = true.
Proof.
  pose proof (labels_exact (H := default_range) demo_labels ["mon"] demo_topology) as Ht.
  destruct Ht as [Hl Hf].
  { apply demo_topology_allowed. }
  cbv zeta. rewrite !Hl, Hf. split_and!; vm_compute; reflexivity.
Defined.

(** ** Giving the labels back *)

(** The labels of a node that the controller has not used yet: no label of Ceph, no topology
    label of Rook, no remembered topology; a topology label of Kubernetes has a value. *)
Definition untouched (labels : gmap string string) : Prop :=
  (∀ r, r ∈ CephDaemonKeys → labels !! CephNodeLabel r = None) ∧
  ∀ k, is_Some (crushTopologyAllowedKeys !! k) →
    if isKubeCrush k then labels !! prev_label (path k) = None ∧ labels !! path k ≠ Some EmptyString
    else labels !! path k = None.

(** The labels of a node in use: the value from before is remembered for every
    topology label of Kubernetes that was set. *)
Definition managed (labels0 labels : gmap string string) : Prop :=
  (∀ x, owner x = None → labels !! x = labels0 !! x) ∧
  ∀ k, isKubeCrush k = true →
    match labels !! prev_label (path k) with
    | None => labels !! path k = labels0 !! path k
    | Some original => is_Some (labels !! path k) ∧ original = default EmptyString (labels0 !! path k)
    end.

Lemma kube_allowed k : isKubeCrush k = true → is_Some (crushTopologyAllowedKeys !! k).
Proof.
  intros [Hk|Hk]%orb_true_iff; apply bool_decide_eq_true in Hk as ->; eexists; vm_compute; reflexivity.
Qed.

Lemma kube_owner k : isKubeCrush k = true →
  owner (path k) = Some (KCrush k) ∧ owner (prev_label (path k)) = Some (KCrush k).
Proof. intros Hk. split; (apply owner_crush; [by apply kube_allowed|unfold crush_keys; rewrite Hk; mem]). Qed.

Lemma managed_init labels : untouched labels → managed labels labels.
Proof.
  intros [_ Hu]. split; [done|]. intros k Hk. specialize (Hu k (kube_allowed k Hk)). rewrite Hk in Hu.
  by destruct Hu as [-> _].
Qed.

Section restore.
Context `{MapRange}.
Implicit Types labels : gmap string string.

Lemma managed_step labels0 labels roles topo :
  untouched labels0 → topology_allowed topo → managed labels0 labels →
  managed labels0 (buildNodeLabels labels roles topo).1.
Proof.
  intros [_ Hu] Ht [Hother Hkube]. split.
  { intros x Hx. rewrite build_lookup by done. unfold desired_label. rewrite Hx. by apply Hother. }
  intros k Hk. specialize (Hkube k Hk). specialize (Hu k (kube_allowed k Hk)). rewrite Hk in Hu. destruct Hu as [_ Hne].
  destruct (kube_owner k Hk) as [Hp Hprev]. rewrite !build_lookup by done. unfold desired_label.
  rewrite Hp, Hprev. unfold crush_label. rewrite Hk.
  clear Hp Hprev. revert Hkube Hne. generalize (path k). intros p Hkube Hne. pose proof (prev_label_ne p) as Hnp.
  destruct (decide (p = p)) as [_|[]]; [|reflexivity]. destruct (decide (prev_label p = p)) as [|_]; [done|].
  destruct (topo !! k) as [v|].
  - destruct (labels !! prev_label p) as [o|], (labels !! p) as [c|]; simpl in *;
      rewrite <-?Hkube; naive_solver.
  - destruct (labels !! p) as [c|] eqn:Hc, (labels !! prev_label p) as [o|] eqn:Ho; rewrite ?Ho, ?Hc; try naive_solver.
    destruct Hkube as [_ ->]. destruct (labels0 !! p) as [o|]; simpl; try case_decide; naive_solver.
Qed.

Lemma managed_cleared labels0 labels :
  untouched labels0 → managed labels0 labels → (buildNodeLabels labels [] ∅).1 = labels0.
Proof.
  intros Hu Hm. pose proof (managed_step labels0 labels [] ∅ Hu topology_allowed_empty Hm) as [Hother Hkube].
  destruct Hu as [Hroles Hu]. apply map_eq. intros x. pose proof (owner_inv x) as Hown.
  destruct (owner x) as [[r|k]|] eqn:Hx; [..|by apply Hother].
  - destruct Hown as [Hr ->]. rewrite build_lookup by apply topology_allowed_empty. unfold desired_label. rewrite Hx.
    symmetry. by apply Hroles.
  - destruct Hown as [Hk Hxk]. specialize (Hu k Hk). unfold crush_keys in Hxk.
    assert (Hprev : isKubeCrush k = true → (buildNodeLabels labels [] ∅).1 !! prev_label (path k) = None).
    { intros Hkk. rewrite build_lookup by apply topology_allowed_empty. unfold desired_label.
      rewrite (proj2 (kube_owner k Hkk)). unfold crush_label. rewrite lookup_empty, Hkk.
      destruct (decide (prev_label (path k) = path k)) as [Heq|_]; [by apply prev_label_ne in Heq|].
      destruct Hm as [_ Hm]. specialize (Hm k Hkk). destruct (labels !! path k), (labels !! prev_label (path k)) eqn:Ho; naive_solver. }
    destruct (isKubeCrush k) eqn:Hkk.
    + destruct Hu as [Hu _]. specialize (Hkube k Hkk). rewrite Hprev in Hkube by done.
      mem_inv Hxk; subst x; [done|]. by rewrite Hprev, Hu.
    + apply list_elem_of_singleton in Hxk as ->. rewrite Hu, build_lookup by apply topology_allowed_empty.
      unfold desired_label. rewrite Hx. unfold crush_label. rewrite lookup_empty, Hkk. by destruct (labels !! path k) eqn:Hl.
Qed.

(** The labels after a history of changes of the spec: the roles and the topology of a node
    in each of them. *)
Definition relabel (labels : gmap string string) (changes : list (list string * gmap string string)) : gmap string string :=
  foldl (λ labels '(roles, topo), (buildNodeLabels labels roles topo).1) labels changes.

(** C35: A node that has none of the labels the controller manages (no label of a role, none of
    topology.rook.io, no remembered value) and whose topology labels of Kubernetes, where it has
    them, are not empty, and that was then given any roles and any topologies with allowed keys in
    turn, over any number of reconciliations, gets back exactly the labels it had at the start when
    it is dropped from the spec, the values of the topology labels of the cloud provider
    included. *)
Theorem labels_restored labels changes :
  untouched labels →
  Forall (λ change, topology_allowed change.2) changes →
  (buildNodeLabels (relabel labels changes) [] ∅).1 = labels.
Proof.
  intros Hu Hch. apply managed_cleared; [done|]. pose proof (managed_init labels Hu) as Hm. revert Hm.
  unfold relabel. generalize labels at 2 4. induction Hch as [|[roles topo] changes Ht Hch IH]; intros l Hm; simpl; [done|].
  apply IH. by apply managed_step.
Qed.
End restore.

Lemma demo_untouched : untouched demo_labels.
Proof.
  split.
  - unfold CephDaemonKeys. intros r Hr. mem_inv Hr; subst; vm_compute; reflexivity.
  - intros k [p Hp]. apply elem_of_map_to_list in Hp.
    assert (Hall : Forall (λ kp : string * string,
        demo_labels !! path kp.1 ≠ Some EmptyString ∧ demo_labels !! prev_label (path kp.1) = None ∧
        (isKubeCrush kp.1 = true ∨ demo_labels !! path kp.1 = None)) (map_to_list crushTopologyAllowedKeys)).
    { apply (bool_decide_unpack _). vm_compute. exact I. }
    rewrite Forall_forall in Hall. destruct (Hall _ Hp) as (? & ? & Hk). simpl in *.
    destruct (isKubeCrush k); [done|]. by destruct Hk.
Qed.

Lemma labels_restored_witness :
  (buildNodeLabels (H := default_range)
     (relabel (H := default_range) demo_labels [(["mon"; "osd"], demo_topology); (["mgr"], {["zone" := "z2"]})]) [] ∅).1 = demo_labels.
Proof.
  apply (labels_restored (H := default_range)).
  - apply demo_untouched.
  - repeat constructor; simpl; [apply demo_topology_allowed|].
    intros k [v Hv]. apply lookup_singleton_Some in Hv as [<- _]. eexists. vm_compute. reflexivity.
Defined.

(** ** A pass over the nodes *)

Section pass.
Context `{World} `{HealthWorld} `{DeployWorld} `{MapRange}.

Definition osd_label : string := CephNodeLabel "osd".

(** The OSD deployments of a node. *)
Definition osd_selector (node : K8sNode) : string := "app=rook-ceph-osd,failure-domain=" +:+ kn_Name node.

(** What a pass begun at [h0] may do after [h]: read, and update a node it has listed, leaving
    alone all but the labels it owns; the label of the disk daemons is removed only from a
    node that this pass has found without OSDs. *)
Definition label_event (h0 : history) (ns : string) (nodes : list K8sNode) (h : history) (e : event) : Prop :=
  match e with
  | EvNodeList | EvRead _ _ _ => True
  | EvNodeUpdate node' =>
      ∃ node, node ∈ nodes ∧ node' = set_kn_Labels (kn_Labels node') node ∧ kn_Labels node' ≠ kn_Labels node ∧
        (∀ x, owner x = None → kn_Labels node' !! x = kn_Labels node !! x) ∧
        (is_Some (kn_Labels node !! osd_label) → kn_Labels node' !! osd_label = None →
         asked h0 (EvRead "DeploymentList" ns (osd_selector node))
           (λ h, w_deployments_selected h ns (osd_selector node)) (O, None) h)
  | _ => False
  end.

(** The topologies of the spec are allowed ones. *)
Definition crush_allowed (nodes : list CephDeploymentNode) : Prop := Forall (λ n, topology_allowed (dn_Crush n)) nodes.

Lemma topology_of_spec nodes name :
  crush_allowed nodes → topology_allowed (default ∅ (nodesCrushTopology nodes !! name)).
Proof.
  intros Hall. unfold nodesCrushTopology.
  assert (Hgen : ∀ m : gmap string (gmap string string), topology_allowed (default ∅ (m !! name)) →
    topology_allowed (default ∅ (foldl (λ m node, if IsCephOsdNode (dn_Node node) then <[dn_Name node := dn_Crush node]> m else m)
      m nodes !! name))); [|apply Hgen; rewrite lookup_empty; apply topology_allowed_empty].
  induction Hall as [|n nodes Hn Hall IH]; intros m Hm; simpl; [done|]. apply IH. destruct (IsCephOsdNode _); [|done].
  destruct (decide (dn_Name n = name)) as [->|]; [by rewrite lookup_insert_eq|by rewrite lookup_insert_ne].
Qed.

(** An OSD node of the spec has the role [osd], when no node is listed twice. *)
Lemma osd_role nodes name topo :
  NoDup (dn_Name <$> nodes) → nodesCrushTopology nodes !! name = Some topo →
  "osd" ∈ default [] (nodesRoles nodes !! name).
Proof.
  unfold nodesCrushTopology, nodesRoles.
  assert (Hgen : ∀ (mt : gmap string (gmap string string)) (mr : gmap string (list string)),
    NoDup (dn_Name <$> nodes) → (name ∈ dn_Name <$> nodes → mt !! name = None) →
    (is_Some (mt !! name) → "osd" ∈ default [] (mr !! name)) →
    is_Some (foldl (λ m node, if IsCephOsdNode (dn_Node node) then <[dn_Name node := dn_Crush node]> m else m) mt nodes !! name) →
    "osd" ∈ default [] (foldl (λ m node, <[dn_Name node := if IsCephOsdNode (dn_Node node) then dn_Roles node ++ ["osd"]
                                                         else dn_Roles node]> m) mr nodes !! name)).
  2: { intros Hnd Ht. apply (Hgen ∅ ∅); [done|done| |by eexists]. intros [? Hs]. by rewrite lookup_empty in Hs. }
  induction nodes as [|n nodes IH]; intros mt mr Hnd Hfresh Hm Ht; simpl in *; [by apply Hm|].
  apply NoDup_cons in Hnd as [Hnin Hnd]. eapply IH; [done| | |exact Ht].
  - intros Hin. destruct (decide (dn_Name n = name)) as [<-|Hne]; [done|].
    destruct (IsCephOsdNode _); rewrite ?lookup_insert_ne by done; apply Hfresh; by right.
  - destruct (decide (dn_Name n = name)) as [<-|Hne].
    + rewrite lookup_insert_eq. simpl. destruct (IsCephOsdNode _); [set_solver|].
      rewrite Hfresh by left. by intros [].
    + rewrite lookup_insert_ne by done. destruct (IsCephOsdNode _); by rewrite ?lookup_insert_ne by done.
Qed.

Lemma osd_owner : owner osd_label = Some (KRole "osd").
Proof. vm_compute. reflexivity. Qed.

(** The roles computed for a node: [osd] is missing only if the node has no label of the disk
    daemons or was found without OSDs. *)
Lemma node_roles_traced h0 ns nodes0 nodes node :
  NoDup (dn_Name <$> nodes) →
  traced (label_event h0 ns nodes0) (λ h, h0 `prefix_of` h)
    (node_roles ns (nodesRoles nodes) (nodesCrushTopology nodes) node)
    (λ r h, (∀ roles, r = Some roles → is_Some (kn_Labels node !! osd_label) → Contains roles "osd" = false →
       asked h0 (EvRead "DeploymentList" ns (osd_selector node))
         (λ h, w_deployments_selected h ns (osd_selector node)) (O, None) h) ∧ h0 `prefix_of` h).
Proof.
  intros Hnd. unfold node_roles. fold osd_label (osd_selector node).
  destruct (kn_Labels node !! osd_label) eqn:Hl.
  2: { apply traced_ret. intros h Hh. split; [by intros ? _ []|done]. }
  destruct (nodesCrushTopology nodes !! kn_Name node) as [topo|] eqn:Ht.
  { apply traced_ret. intros h Hh. split; [|done]. intros roles [= <-] _ Hc. exfalso. apply osd_role in Ht; [|done].
    revert Hc. by rewrite (proj2 (Contains_spec _ _) Ht). }
  eapply traced_bind; [by apply traced_ask; auto with lasting|].
  intros [[|n] [e|]]; apply traced_ret; intros h [Hask Hh]; (split; [|done]); try done.
  intros roles [= <-] _ Hc. exfalso. revert Hc.
  rewrite (proj2 (Contains_spec _ _)); [done|]. apply elem_of_app. right. mem.
Qed.

Lemma label_step_traced h0 ns nodes spec_nodes node :
  NoDup (dn_Name <$> spec_nodes) → crush_allowed spec_nodes → node ∈ nodes →
  traced (label_event h0 ns nodes) (λ h, h0 `prefix_of` h)
    (label_step ns (nodesRoles spec_nodes) (nodesCrushTopology spec_nodes) node) (λ _ h, h0 `prefix_of` h).
Proof.
  intros Hnd Hall Hnode. unfold label_step. eapply traced_bind; [by apply node_roles_traced|].
  intros [roles|]; [|apply traced_ret; by intros h [_ Hh]].
  pose proof (topology_of_spec spec_nodes (kn_Name node) Hall) as Ht. unfold update_labels.
  pose proof (build_flag roles _ Ht (kn_Labels node)) as Hflag.
  pose proof (build_lookup roles _ Ht (kn_Labels node)) as Hlookup.
  destruct (buildNodeLabels _ _ _) as [new [|]]; [|apply traced_ret; by intros h [_ Hh]].
  symmetry in Hflag. apply bool_decide_eq_true in Hflag. simpl in *.
  apply (traced_bind _ _ _ _ (λ _ h, h0 `prefix_of` h)); [|intros e; by apply traced_ret]. apply traced_call. intros h [Hroles Hh].
  split; [|by apply prefix_app_r]. exists node. simpl. split_and!; [done|done|done|..].
  - intros x Hx. rewrite Hlookup. unfold desired_label. by rewrite Hx.
  - intros Hosd. rewrite Hlookup. unfold desired_label. rewrite osd_owner.
    destruct (Contains roles "osd") eqn:Hc; [done|]. intros _. by eapply Hroles.
Qed.

(** Whatever the API server answers, a pass over the labels of the nodes only reads, and
    updates nodes it was given: of those it changes the labels of Ceph roles and of the
    topology, only when they change, and nothing else.  The label under which the disk
    daemon runs is removed from a node only after its OSD deployments were listed in the
    same pass and there was none. *)
Theorem label_updates_safe ns c h0 :
  NoDup (dn_Name <$> dc_nodesListExpanded c) → crush_allowed (dc_nodesListExpanded c) →
  ∀ evs1 e evs2, (ensureLabelNodes ns c h0).2 = evs1 ++ e :: evs2 →
    label_event h0 ns (w_node_list h0).1 (h0 ++ evs1) e.
Proof.
  intros Hnd Hall.
  assert (Ht : traced (label_event h0 ns (w_node_list h0).1) (λ h, h = h0) (ensureLabelNodes ns c) (λ _ _, True));
    [|by destruct (Ht h0 eq_refl)].
  unfold ensureLabelNodes, GetNodeList.
  eapply traced_bind; [apply (traced_call _ _ _ _ (λ r h, r = w_node_list h0 ∧ h0 `prefix_of` h))|].
  { intros h ->. split_and!; [exact I|done|by apply prefix_app_r]. }
  intros [nodes [e|]]; [by apply traced_ret|].
  apply traced_pure. intros Hn. rewrite <-Hn. simpl.
  apply (traced_bind _ _ _ _ (λ _ _, True)); [|by intros [updated [|]]; apply traced_ret].
  eapply traced_weaken; [|done|by intros]. apply (traced_foldM_inv _ _ (λ _ h, h0 `prefix_of` h)).
  intros node acc Hnode. eapply traced_bind; [by apply label_step_traced|]. intros r. by apply traced_ret.
Qed.
End pass.
