(* ===== verification/CsiEvict.v ===== *)
(** * Eviction of the CSI driver from nodes

    pkg/controller/deployment/csi_evict.go.  A node that is asked to be drained loses the
    label that places the pods of the CSI driver once no volume is in use on it, and is marked
    as ready to be drained once the pods are gone.  Other nodes get the label, unless they are
    excluded.

    An empty map of a node that was read is the nil map: writing to it panics ([None]). *)

From Stdlib Require Import Ascii.
From S2P Require Import Prelude GoTime Types HealthTypes DeployTypes World Helpers HealthWorld Extensions Validate Trace DeployWorld Resources NodeLabels.
Open Scope Z_scope.

Definition cephVolumeAttachmentType : string := "rook-ceph.rbd.csi.ceph.com".

(** A mounted volume: the first word of a line of [mount]. *)
Definition rbd_volumes (stdout : string) : list string :=
  filter (λ rbdVolume, HasPrefix rbdVolume "/dev/rbd" = true) ((λ line, hd EmptyString (Split line " ")) <$> Split stdout (ascii_of_nat 10)).

Section evict.
Context `{World} `{HealthWorld} `{DeployWorld} `{ResourceWorld}.
Variable (rookNs : string) (params : DeployParams).

Definition csi_pods : IO (list (string * string) * option err) :=
  read "PodList" rookNs "app=csi-rbdplugin" (λ h, w_csi_pods h rookNs).

Definition getCSIPodForNode (nodeName : string) : IO (option string + err) :=
  let* r := csi_pods in
  match r with
  | (_, Some e) => ret (inr (wrap_err ("failed to list pods in " +:+ Quote rookNs +:+ " namespace with app=csi-rbdplugin label") e))
  | (items, None) => ret (inl (fst <$> head (filter (λ pod, pod.2 = nodeName) items)))
  end.

Definition pod_cmd (pod command : string) : IO (string * string * option err) :=
  RunPodCmdAndCheckError command "" (call (EvPodExec rookNs pod command) (λ h, w_pod_exec h rookNs pod command)).

Definition umount (pod : string) (_ : unit) (rbdVolume : string) : IO unit :=
  let* _ := pod_cmd pod ("umount " +:+ rbdVolume) in ret tt.

(** One attempt of [verifyRBDVolumesMounts]; with [umountFound] it succeeds only when nothing
    is mounted. *)
Definition mounts_attempt (pod : string) (umountFound : bool) : IO (option bool) :=
  let* r := pod_cmd pod "mount" in
  match r with
  | (_, _, Some _) => ret None
  | (stdout, _, None) =>
      let volumes := rbd_volumes stdout in
      let foundMount := negb (bool_decide (volumes = [])) in
      if umountFound then
        let* _ := foldM (umount pod) volumes tt in
        ret (if foundMount then None else Some foundMount)
      else ret (Some foundMount)
  end.

Definition verifyRBDVolumesMounts (nodeName pod : string) (umountFound : bool) : IO (bool + err) :=
  let* r := PollUntil (mounts_attempt pod umountFound) in
  match r with
  | None => ret (inr (wrap_err ("failed to wait verifying mounts for rbd volumes on node '" +:+ nodeName +:+ "'") deadline))
  | Some mountsPresent => ret (inl mountsPresent)
  end.

Definition delete_attachment (_ : unit) (va : string * string * string) : IO unit :=
  let* _ := call (EvDelete "VolumeAttachment" EmptyString va.1.1) (λ h, w_object_delete h "VolumeAttachment" EmptyString va.1.1) in ret tt.

(** The attachments of the volumes of Ceph to a node. *)
Definition rbd_attachments (nodeName : string) (vas : list (string * string * string)) : list (string * string * string) :=
  filter (λ va, va.1.2 = cephVolumeAttachmentType ∧ va.2 = nodeName) vas.

Definition attachments_attempt (nodeName : string) (umountFound : bool) : IO (option bool) :=
  let* r := read "VolumeAttachmentList" EmptyString EmptyString w_attachments in
  match r with
  | (_, Some _) => ret None
  | (vas, None) =>
      let attached := rbd_attachments nodeName vas in
      let found := negb (bool_decide (attached = [])) in
      if umountFound then
        let* _ := foldM delete_attachment attached tt in
        ret (if found then None else Some found)
      else ret (Some found)
  end.

Definition verifyRBDVolumeAttachments (nodeName : string) (umountFound : bool) : IO (bool + err) :=
  let* r := PollUntil (attachments_attempt nodeName umountFound) in
  match r with
  | None => ret (inr (wrap_err ("timeout to check volumeattachments for node '" +:+ nodeName +:+ "'") deadline))
  | Some found => ret (inl found)
  end.

(** One attempt of [checkCSIVolumes]; without a pod nothing is looked at. *)
Definition volumes_attempt (nodeName : string) (umountFound : bool) : IO (option bool) :=
  let* r := getCSIPodForNode nodeName in
  match r with
  | inr _ => ret None
  | inl None => ret (Some false)
  | inl (Some csiPod) =>
      let* r := verifyRBDVolumesMounts nodeName csiPod umountFound in
      match r with
      | inr _ => ret None
      | inl foundVolumes =>
          let* r := verifyRBDVolumeAttachments nodeName umountFound in
          match r with
          | inr _ => ret None
          | inl foundAttachments => ret (Some (foundVolumes || foundAttachments))
          end
      end
  end.

Definition checkCSIVolumes (nodeName : string) (umountFound : bool) : IO (bool + err) :=
  let* r := PollUntil (volumes_attempt nodeName umountFound) in
  match r with
  | None => ret (inr (wrap_err ("timeout to check volumes for node '" +:+ nodeName +:+ "'") deadline))
  | Some foundMounted => ret (inl foundMounted)
  end.

(** The pod is deleted until it is not found. *)
Definition delete_attempt (pod : string) : IO (option unit) :=
  let* e := call (EvDelete "Pod" rookNs pod) (λ h, w_object_delete h "Pod" rookNs pod) in
  ret (match e with Some e => if is_not_found e then Some tt else None | None => None end).

Definition verifyCSIPodEvicted (nodeName : string) : IO (option err) :=
  let* r := getCSIPodForNode nodeName in
  match r with
  | inr e => ret (Some (wrap_err ("failed to get CSI pod for node '" +:+ nodeName +:+ "'") e))
  | inl None => ret None
  | inl (Some csiPod) =>
      let* r := PollUntil (delete_attempt csiPod) in
      match r with
      | None => ret (Some (wrap_err ("timeout to delete CSI pod " +:+ rookNs +:+ "/" +:+ csiPod) deadline))
      | Some _ => ret None
      end
  end.

Definition pods_attempt (nodeName : string) (shouldBeFound : bool) : IO (option unit) :=
  let* r := csi_pods in
  match r with
  | (_, Some _) => ret None
  | (items, None) =>
      let found := bool_decide (nodeName ∈ items.*2) in
      ret (if decide (shouldBeFound = found) then Some tt else None)
  end.

Definition waitForDaemonsetsPods (nodeName : string) (shouldBeFound : bool) : IO (option err) :=
  let* r := PollUntil (pods_attempt nodeName shouldBeFound) in
  match r with
  | None => ret (Some (wrap_err ("timeout to wait daemonset pods in " +:+ Quote rookNs +:+ " namespace updated") deadline))
  | Some _ => ret None
  end.

(** ** Nodes *)

(** The label is removed when no volume is in use; whether to go on. *)
Definition release_node (name : string) : IO bool :=
  let* r := checkCSIVolumes name true in
  match r with
  | inr _ => ret false
  | inl _ =>
      let* r := GetNode name in
      match r with
      | (_, Some _) => ret false
      | (node, None) =>
          let* e := node_update (set_kn_Labels (delete cephDaemonsetLabel (kn_Labels node)) node) in
          ret (match e with Some _ => false | None => true end)
      end
  end.

(** The node is marked as ready to be drained. *)
Definition mark_ready (name : string) : IO (option unit) :=
  let* r := GetNode name in
  match r with
  | (_, Some _) => ret (Some tt)
  | (node, None) =>
      if decide (default EmptyString (kn_Annotations node !! dp_DrainReadyLabelKey params) = "true") then ret (Some tt)
      else if decide (kn_Annotations node = ∅) then ret None
      else
        let* _ := node_update (set_kn_Annotations (<[dp_DrainReadyLabelKey params := "true"]> (kn_Annotations node)) node) in
        ret (Some tt)
  end.

Definition drain_node (node : K8sNode) : IO (option unit) :=
  let name := kn_Name node in
  let* released :=
    if decide (default EmptyString (kn_Labels node !! cephDaemonsetLabel) = "") then ret true else release_node name in
  if (released : bool) then
    let* e := verifyCSIPodEvicted name in
    match e with
    | Some _ => ret (Some tt)
    | None =>
        let* e := waitForDaemonsetsPods name false in
        match e with
        | Some _ => ret (Some tt)
        | None => mark_ready name
        end
    end
  else ret (Some tt).

(** [updateNode] *)
Definition updateNode (nodeName : string) (setLabel : bool) : IO (option unit) :=
  let* r := GetNode nodeName in
  match r with
  | (_, Some _) => ret (Some tt)
  | (node, None) =>
      if setLabel && bool_decide (kn_Labels node = ∅) then ret None
      else
        let labels := if setLabel then <[cephDaemonsetLabel := "true"]> (kn_Labels node) else delete cephDaemonsetLabel (kn_Labels node) in
        let* _ := node_update (set_kn_Labels labels node) in
        ret (Some tt)
  end.

(** A node that is excluded. *)
Definition exclude_node (node : K8sNode) : IO (option unit) :=
  match kn_Labels node !! cephDaemonsetLabel with
  | None => ret (Some tt)
  | Some _ =>
      let* r := checkCSIVolumes (kn_Name node) false in
      match r with
      | inr _ | inl true => ret (Some tt)
      | inl false => updateNode (kn_Name node) false
      end
  end.

Definition label_node (node : K8sNode) : IO (option unit) :=
  if decide (default EmptyString (kn_Labels node !! cephDaemonsetLabel) = "true") then ret (Some tt)
  else updateNode (kn_Name node) true.

(** A round of the loop; a selector that is not valid is a nil pointer. *)
Definition daemonset_node (node : K8sNode) : IO (option unit) :=
  let selector := dp_CephDaemonsetPlacementLabelExclude params in
  if decide (kn_Annotations node !! dp_DrainRequestLabelKey params = Some "true") then drain_node node
  else if decide (selector = "") then label_node node
  else if negb (labels_parses selector) then ret None
  else if labels_match selector (kn_Labels node) then exclude_node node
  else label_node node.

Fixpoint daemonset_nodes (nodes : list K8sNode) : IO (option unit) :=
  match nodes with
  | [] => ret (Some tt)
  | node :: nodes' =>
      let* r := daemonset_node node in
      match r with
      | None => ret None
      | Some _ => daemonset_nodes nodes'
      end
  end.

Definition ensureDaemonsetLabels : IO (option unit) :=
  let* r := call EvNodeList w_node_list in
  match r with
  | (_, Some _) => ret (Some tt)
  | (items, None) => daemonset_nodes items
  end.
End evict.

(** ** Eviction of the CSI driver: the order of its steps

    Why a node may lose its label and why it may be marked as ready to be drained
    ([drain_order]). *)

Section poll.
Context `{DeployWorld}.

(** What holds when an attempt succeeds holds when polling does. *)
Lemma poll_traced {A} P Pre n (condition : IO (option A)) (Q : A → history → Prop) :
  traced P Pre condition (λ r h, Pre h ∧ ∀ a, r = Some a → Q a h) → traced P Pre (poll n condition) (λ r h, Pre h ∧ ∀ a, r = Some a → Q a h).
Proof.
  intros Hc. induction n as [|n IH]; simpl; [by apply traced_ret|].
  eapply traced_bind; [exact Hc|]. intros [a|]; [by apply traced_ret|].
  eapply traced_weaken; [exact IH|by intros h []|done].
Qed.

Lemma poll_until_traced {A} P Pre (condition : IO (option A)) (Q : A → history → Prop) :
  lasting Pre → (∀ h, P h EvClock) →
  traced P Pre condition (λ r h, Pre h ∧ ∀ a, r = Some a → Q a h) → traced P Pre (PollUntil condition) (λ r h, Pre h ∧ ∀ a, r = Some a → Q a h).
Proof.
  intros Hl HP Hc. apply (traced_bind _ _ _ _ (λ _ h, Pre h)); [|intros n; by apply poll_traced].
  apply traced_call. intros h Hh. split; [done|by apply Hl].
Qed.
End poll.

Section evict.
Context `{World} `{HealthWorld} `{DeployWorld} `{ResourceWorld}.
Variables (rookNs : string) (params : DeployParams) (h0 : history).

(** ** What the round has been told *)

Abbreviation asked_pods r := (asked h0 (EvRead "PodList" rookNs "app=csi-rbdplugin") (λ h, w_csi_pods h rookNs) r).
Abbreviation asked_node name r := (asked h0 (EvRead "Node" EmptyString name) (λ h, w_node_get h name) r).

(** No pod of the driver runs on the node. *)
Definition csi_gone (name : string) (h : history) : Prop :=
  ∃ pods, asked_pods (pods, None) h ∧ name ∉ pods.*2.

(** Its pod there has no volume mounted, and no volume is attached to the node. *)
Definition unmounted (pod : string) (h : history) : Prop :=
  ∃ stdout stderr, asked h0 (EvPodExec rookNs pod "mount") (λ h, w_pod_exec h rookNs pod "mount") (stdout, stderr, None) h ∧
    rbd_volumes stdout = [].
Definition unattached (name : string) (h : history) : Prop :=
  ∃ vas, asked h0 (EvRead "VolumeAttachmentList" EmptyString EmptyString) w_attachments (vas, None) h ∧ rbd_attachments name vas = [].
Definition csi_pod (name pod : string) (h : history) : Prop :=
  ∃ pods, asked_pods (pods, None) h ∧ (pod, name) ∈ pods.

Definition volumes_free (name : string) (h : history) : Prop :=
  csi_gone name h ∨ ∃ pod, csi_pod name pod h ∧ unmounted pod h ∧ unattached name h.

(** Why a node that was listed may be written. *)
Definition node_written (node : K8sNode) (h : history) (n : K8sNode) : Prop :=
  let label := default EmptyString (kn_Labels node !! cephDaemonsetLabel) in
  let requested := kn_Annotations node !! dp_DrainRequestLabelKey params = Some "true" in
  ∃ current, asked_node (kn_Name node) (current, None) h ∧
    ((n = set_kn_Labels (delete cephDaemonsetLabel (kn_Labels current)) current ∧ volumes_free (kn_Name node) h) ∨
     (n = set_kn_Annotations (<[dp_DrainReadyLabelKey params := "true"]> (kn_Annotations current)) current ∧
      requested ∧ csi_gone (kn_Name node) h ∧ (label ≠ "" → volumes_free (kn_Name node) h)) ∨
     (n = set_kn_Labels (<[cephDaemonsetLabel := "true"]> (kn_Labels current)) current ∧ ¬ requested)).

Definition write_ok (listed : list K8sNode) (h : history) (e : event) : Prop :=
  match e with
  | EvNodeUpdate n => ∃ node, node ∈ listed ∧ node_written node h n
  | _ => True
  end.

(** ** The steps *)

Section steps.
Variable listed : list K8sNode.
Abbreviation P := (write_ok listed).
Variable F : history → Prop.
Hypothesis HF : lasting F.
Hypothesis Hh0 : ∀ h, F h → h0 `prefix_of` h.

Lemma ask {A} (e : event) (f : history → A) :
  (∀ h, write_ok listed h e) → traced P F (call e f) (λ a h, asked h0 e f a h ∧ F h).
Proof. intros He. apply traced_ask; [done|done|]. intros h _. apply He. Qed.

Lemma pod_traced name :
  traced P F (getCSIPodForNode rookNs name) (λ r h, F h ∧
    match r with inl None => csi_gone name h | inl (Some pod) => csi_pod name pod h | inr _ => True end).
Proof.
  unfold getCSIPodForNode, csi_pods. eapply traced_bind; [by apply ask|]. intros [pods [e|]]; apply traced_ret.
  { by intros h [_ Hh]. }
  intros h [Hpods Hh]. split; [done|]. destruct (head (filter _ _)) as [[pod n]|] eqn:Hp; simpl.
  - apply head_Some_elem_of in Hp. apply list_elem_of_filter in Hp as [Hn Hp]. simpl in Hn. subst n. by exists pods.
  - exists pods. split; [done|]. intros ([pod n] & -> & Hin)%list_elem_of_fmap.
    assert ((pod, n) ∈ filter (λ p : string * string, p.2 = n) pods) as Hx by by apply list_elem_of_filter.
    apply head_None in Hp. simpl in *. rewrite Hp in Hx. by apply elem_of_nil in Hx.
Qed.

Lemma pod_cmd_traced pod cmd :
  traced P F (pod_cmd rookNs pod cmd) (λ r h, F h ∧
    (r.2 = None → asked h0 (EvPodExec rookNs pod cmd) (λ h, w_pod_exec h rookNs pod cmd) r h)).
Proof.
  unfold pod_cmd, RunPodCmdAndCheckError. eapply traced_bind; [by apply ask|].
  intros [[out er] [e|]]; apply traced_ret; by intros h [Ha Hh].
Qed.

(** Loops whose answers do not matter. *)
Lemma harmless_loop {A} (f : unit → A → IO unit) l :
  (∀ a, traced P F (f tt a) (λ _ h, F h)) → traced P F (foldM f l tt) (λ _ h, F h).
Proof. intros Hf. apply (traced_foldM_inv _ _ (λ _, F)). intros a [] _. apply Hf. Qed.

(** What is left to do after a question of an attempt; [U] is known if nothing was found. *)
Lemma attempt_traced (U : history → Prop) (found b : bool) (cleanup : IO unit) :
  traced P F cleanup (λ _, F) → (∀ h, found = false → F h → U h) →
  traced P F (if b then (let* _ := cleanup in ret (if found then None else Some found)) else ret (Some found))
    (λ r h, F h ∧ ∀ found, r = Some found → (b = true → found = false) ∧ (found = false → U h)).
Proof.
  intros Hc HU. destruct b.
  - eapply traced_bind; [exact Hc|]. intros []. apply traced_ret. intros h Hh. split; [done|]. intros f Hf. destruct found; naive_solver.
  - apply traced_ret. intros h Hh. split; [done|]. intros f Hf. naive_solver.
Qed.
End steps.

Section attempts.
Variable listed : list K8sNode.
Abbreviation P := (write_ok listed).
Variable F : history → Prop.
Hypothesis HF : lasting F.
Hypothesis Hh0 : ∀ h, F h → h0 `prefix_of` h.

(** An attempt, or polling: nothing is known after a failure. *)
Abbreviation checked b U := (λ r h, F h ∧ ∀ found : bool, r = Some found → (b = true → found = false) ∧ (found = false → U h)).

Lemma mounts_traced pod b : traced P F (mounts_attempt rookNs pod b) (checked b (unmounted pod)).
Proof.
  unfold mounts_attempt. eapply traced_bind; [by apply pod_cmd_traced|]. intros [[out er] [e|]]; [apply traced_ret; by intros h []|]. simpl.
  set (G := λ h, asked h0 (EvPodExec rookNs pod "mount") (λ h, w_pod_exec h rookNs pod "mount") (out, er, None) h ∧ F h).
  assert (HG : lasting G) by (apply and_lasting; [apply asked_lasting|done]).
  eapply (traced_weaken _ G); [apply (attempt_traced listed G (unmounted pod))| |].
  - apply (harmless_loop listed G). intros v. unfold umount. eapply traced_bind; [apply (pod_cmd_traced listed G HG)|].
    + intros h [_ Hh]. by apply Hh0.
    + intros ?. apply traced_ret. by intros h [].
  - intros h Hb%negb_false_iff%bool_decide_eq_true [Ha _]. by exists out, er.
  - intros h [Hh Ha]. split; auto.
  - intros r h [[_ Hh] Hr]. by split.
Qed.

Lemma attachments_traced name b : traced P F (attachments_attempt name b) (checked b (unattached name)).
Proof.
  unfold attachments_attempt. eapply traced_bind; [by apply ask|]. intros [vas [e|]]; [apply traced_ret; by intros h []|].
  set (G := λ h, asked h0 (EvRead "VolumeAttachmentList" EmptyString EmptyString) w_attachments (vas, None) h ∧ F h).
  assert (HG : lasting G) by (apply and_lasting; [apply asked_lasting|done]).
  eapply (traced_weaken _ G); [apply (attempt_traced listed G (unattached name))|done|].
  - apply (harmless_loop listed G). intros va. unfold delete_attachment. eapply traced_bind; [|intros ?; apply traced_ret; intros h Hh; exact Hh].
    apply traced_call. intros h Hh. split; [done|]. by apply HG.
  - intros h Hb%negb_false_iff%bool_decide_eq_true [Ha _]. by exists vas.
  - intros r h [[_ Hh] Hr]. by split.
Qed.

(** Polling, with the error of the timeout. *)
Abbreviation verified b U := (λ (r : bool + err) h, F h ∧ ∀ found : bool, r = inl found → (b = true → found = false) ∧ (found = false → U h)).

Lemma verified_traced b U (condition : IO (option bool)) e :
  traced P F condition (checked b U) →
  traced P F (let* r := PollUntil condition in match r with None => ret (inr e) | Some found => ret (inl found) end) (verified b U).
Proof.
  intros Hc. eapply traced_bind; [apply (poll_until_traced _ _ _ (λ found h, (b = true → found = false) ∧ (found = false → U h)) HF); [done|exact Hc]|].
  intros [f|]; apply traced_ret; intros h [Hh Hf]; (split; [done|]); [|done]. intros f' [= <-]. by apply Hf.
Qed.
End attempts.

Section volumes.
Variable listed : list K8sNode.
Abbreviation P := (write_ok listed).
Variable F : history → Prop.
Hypothesis HF : lasting F.
Hypothesis Hh0 : ∀ h, F h → h0 `prefix_of` h.

Lemma volumes_traced name b :
  traced P F (volumes_attempt rookNs name b)
    (λ r h, F h ∧ ∀ found : bool, r = Some found → (b = true → found = false) ∧ (found = false → volumes_free name h)).
Proof.
  unfold volumes_attempt. eapply traced_bind; [by apply pod_traced|].
  intros [[pod|]|e]; [| |apply traced_ret; by intros h []].
  2: { apply traced_ret. intros h [Hh Hg]. split; [done|]. intros f [= <-]. split; [done|]. intros _. by left. }
  set (G := λ h, F h ∧ csi_pod name pod h).
  assert (HG : lasting G) by (apply and_lasting; [done|unfold csi_pod; auto with lasting]).
  assert (HG0 : ∀ h, G h → h0 `prefix_of` h) by (intros h [? _]; auto).
  eapply traced_bind; [apply (verified_traced listed G HG), (mounts_traced listed G HG HG0)|].
  intros [f1|e]; [|apply traced_ret; by intros h [[Hh _] _]].
  set (K := λ h, G h ∧ (b = true → f1 = false) ∧ (f1 = false → unmounted pod h)).
  assert (HK : lasting K) by (apply and_lasting; [done|]; apply and_lasting; [auto with lasting|apply impl_lasting; unfold unmounted; auto with lasting]).
  assert (HK0 : ∀ h, K h → h0 `prefix_of` h) by (intros h [? _]; auto).
  apply (traced_weaken _ K _ _ (λ r h, F h ∧ ∀ found : bool, r = Some found → (b = true → found = false) ∧ (found = false → volumes_free name h)));
    [|intros h [Hg Hf]; split; [done|by apply Hf]|done].
  eapply traced_bind; [apply (verified_traced listed K HK), (attachments_traced listed K HK HK0)|].
  intros [f2|e]; apply traced_ret; intros h [[[Hh Hp] [Hb Hm]] Ha]; (split; [done|]); [|done]. intros f [= <-].
  destruct (Ha f2 eq_refl) as [Hb2 Ha2]. split; [intros Ht; by rewrite Hb, Hb2|].
  intros [-> ->]%orb_false_iff. right. exists pod. auto.
Qed.

Lemma check_volumes_traced name b :
  traced P F (checkCSIVolumes rookNs name b)
    (λ r h, F h ∧ ∀ found : bool, r = inl found → (b = true → found = false) ∧ (found = false → volumes_free name h)).
Proof. apply (verified_traced listed F HF), volumes_traced. Qed.

Lemma evicted_traced name : traced P F (verifyCSIPodEvicted rookNs name) (λ _ h, F h).
Proof.
  unfold verifyCSIPodEvicted. eapply traced_bind; [by apply pod_traced|].
  intros [[pod|]|e]; [|apply traced_ret; by intros h []..].
  apply (traced_weaken _ F _ _ (λ _ h, F h)); [|by intros h []|done].
  apply (traced_bind _ _ _ _ (λ _, F)); [|intros [[]|]; by apply traced_ret].
  eapply traced_weaken; [apply poll_until_traced with (Q := λ _ _, True); [done|done|]|done|by intros r h []].
  unfold delete_attempt. eapply traced_bind; [by apply ask|]. intros e. apply traced_ret. by intros h [].
Qed.

Lemma pods_traced name :
  traced P F (waitForDaemonsetsPods rookNs name false) (λ r h, F h ∧ (r = None → csi_gone name h)).
Proof.
  unfold waitForDaemonsetsPods.
  eapply traced_bind; [apply poll_until_traced with (Q := λ _ h, csi_gone name h); [done|done|]|].
  - unfold pods_attempt, csi_pods. eapply traced_bind; [by apply ask|]. intros [pods [e|]]; apply traced_ret; [by intros h []|].
    intros h [Hp Hh]. split; [done|]. intros u Hu. exists pods. split; [done|].
    destruct (decide _) as [Hb|]; [|done]. symmetry in Hb. by apply bool_decide_eq_false in Hb.
  - intros [u|]; apply traced_ret; intros h [Hh Hu]; (split; [done|]); [|done]. intros _. by apply (Hu u).
Qed.
End volumes.

(** ** Nodes *)

Section nodes.
Variable listed : list K8sNode.
Abbreviation P := (write_ok listed).
Abbreviation begun := (λ h : history, h0 `prefix_of` h).

(** A node that was read is written. *)
Lemma write_traced F n :
  lasting F → (∀ h, F h → ∃ node, node ∈ listed ∧ node_written node h n) → traced P F (node_update n) (λ _ h, F h).
Proof. intros HF Hw. apply traced_call. intros h Hh. split; [by apply Hw|by apply HF]. Qed.

Lemma free_lasting name : lasting (volumes_free name).
Proof. unfold volumes_free, csi_gone, csi_pod, unmounted, unattached. auto 10 with lasting. Qed.

Lemma gone_lasting name : lasting (csi_gone name).
Proof. unfold csi_gone. auto with lasting. Qed.

(** A node is read and then written. *)
Lemma get_traced F name :
  lasting F → (∀ h, F h → h0 `prefix_of` h) → traced P F (GetNode name) (λ r h, asked_node name r h ∧ F h).
Proof. intros HF Hh0. by apply ask. Qed.

Lemma release_traced node :
  node ∈ listed → traced P begun (release_node rookNs (kn_Name node)) (λ r h, begun h ∧ (r = true → volumes_free (kn_Name node) h)).
Proof.
  intros Hn. unfold release_node. eapply traced_bind; [apply (check_volumes_traced listed begun); [apply prefix_lasting|done]|].
  intros [found|e]; [|apply traced_ret; by intros h []].
  apply (traced_weaken _ (λ h, begun h ∧ volumes_free (kn_Name node) h) _ _ (λ r h, begun h ∧ (r = true → volumes_free (kn_Name node) h)));
    [|intros h [Hh Hf]; split; [done|]; destruct (Hf found eq_refl) as [Ht Hf']; auto|done].
  assert (HF : lasting (λ h, begun h ∧ volumes_free (kn_Name node) h)) by (apply and_lasting; [apply prefix_lasting|apply free_lasting]).
  eapply traced_bind; [apply get_traced; [exact HF|by intros h []]|]. intros [current [e|]]; [apply traced_ret; by intros h [_ []]|].
  eapply traced_bind; [apply write_traced; [by apply and_lasting; [apply asked_lasting|]|]|].
  - intros h [Ha [Hh Hf]]. exists node. split; [done|]. exists current. split; [done|]. by left.
  - intros e. apply traced_ret. intros h [_ [Hh Hf]]. destruct e; by split.
Qed.

Lemma node_update_traced node set :
  node ∈ listed → (set = true → kn_Annotations node !! dp_DrainRequestLabelKey params ≠ Some "true") →
  traced P (λ h, begun h ∧ (set = false → volumes_free (kn_Name node) h)) (updateNode (kn_Name node) set) (λ _ h, begun h).
Proof.
  intros Hn Hset. unfold updateNode. set (F := λ h, begun h ∧ (set = false → volumes_free (kn_Name node) h)).
  assert (HF : lasting F) by (apply and_lasting; [apply prefix_lasting|apply impl_lasting, free_lasting]).
  eapply traced_bind; [apply get_traced; [exact HF|by intros h []]|]. intros [current [e|]]; [apply traced_ret; by intros h [_ []]|].
  destruct (_ && _); [apply traced_ret; by intros h [_ []]|].
  eapply traced_bind; [apply write_traced; [by apply and_lasting; [apply asked_lasting|exact HF]|]|intros e; apply traced_ret; by intros h [_ []]].
  intros h [Ha [Hh Hf]]. exists node. split; [done|]. exists current. split; [done|]. destruct set; [right; right|left]; auto.
Qed.

Lemma ready_traced node :
  node ∈ listed → kn_Annotations node !! dp_DrainRequestLabelKey params = Some "true" →
  let label := default EmptyString (kn_Labels node !! cephDaemonsetLabel) in
  traced P (λ h, begun h ∧ (label ≠ "" → volumes_free (kn_Name node) h) ∧ csi_gone (kn_Name node) h)
    (mark_ready params (kn_Name node)) (λ _ h, begun h).
Proof.
  intros Hn Hreq label. unfold mark_ready. set (F := λ h, _).
  assert (HF : lasting F) by (repeat apply and_lasting; [apply prefix_lasting|apply impl_lasting, free_lasting|apply gone_lasting]).
  eapply traced_bind; [apply get_traced; [exact HF|by intros h []]|]. intros [current [e|]]; [apply traced_ret; by intros h [_ []]|].
  destruct (decide _); [apply traced_ret; by intros h [_ []]|]. destruct (decide _); [apply traced_ret; by intros h [_ []]|].
  eapply traced_bind; [apply write_traced; [by apply and_lasting; [apply asked_lasting|exact HF]|]|intros e; apply traced_ret; by intros h [_ []]].
  intros h (Ha & Hh & Hf & Hg). exists node. split; [done|]. exists current. split; [done|]. right. left. auto.
Qed.

Lemma drain_traced node :
  node ∈ listed → kn_Annotations node !! dp_DrainRequestLabelKey params = Some "true" →
  traced P begun (drain_node rookNs params node) (λ _ h, begun h).
Proof.
  intros Hn Hreq. unfold drain_node. set (label := default EmptyString (kn_Labels node !! cephDaemonsetLabel)).
  set (F := λ h, begun h ∧ (label ≠ "" → volumes_free (kn_Name node) h)).
  assert (HF : lasting F) by (apply and_lasting; [apply prefix_lasting|apply impl_lasting, free_lasting]).
  assert (HF0 : ∀ h, F h → h0 `prefix_of` h) by by intros h [].
  apply (traced_bind _ _ _ _ (λ r h, begun h ∧ (r = true → F h))).
  - destruct (decide _) as [Hl|Hl]; [apply traced_ret; intros h Hh; split; [done|]; by split|].
    eapply traced_weaken; [by apply release_traced|done|]. intros r h [Hh Hr]. split; [done|]. intros Ht. split; auto.
  - intros [|]; [|apply traced_ret; by intros h []].
    apply (traced_weaken _ F _ _ (λ _ h, begun h)); [|intros h [_ Hh]; auto|done].
    eapply traced_bind; [by apply evicted_traced|]. intros [e|]; [apply traced_ret; by intros h []|].
    eapply traced_bind; [by apply pods_traced|]. intros [e|]; [apply traced_ret; by intros h [[] _]|].
    eapply traced_weaken; [by apply ready_traced| |done]. intros h [[Hh Hf] Hg]. auto.
Qed.

Lemma node_step_traced node : node ∈ listed → traced P begun (daemonset_node rookNs params node) (λ _ h, begun h).
Proof.
  intros Hn. unfold daemonset_node. destruct (decide _) as [Hreq|Hreq]; [by apply drain_traced|].
  assert (Hlabel : traced P begun (label_node node) (λ _ h, begun h)).
  { unfold label_node. destruct (decide _); [by apply traced_ret|]. eapply traced_weaken; [by apply node_update_traced| |done]. by intros h Hh. }
  destruct (decide _); [done|]. destruct (negb _); [by apply traced_ret|]. destruct (labels_match _ _); [|done].
  unfold exclude_node. destruct (kn_Labels node !! _); [|by apply traced_ret].
  eapply traced_bind; [apply (check_volumes_traced listed begun); [apply prefix_lasting|done]|].
  intros [[|]|e]; [apply traced_ret; by intros h []| |apply traced_ret; by intros h []].
  eapply traced_weaken; [by apply node_update_traced| |done]. intros h [Hh Hf]. split; [done|]. intros _. by apply (Hf false).
Qed.

Lemma nodes_traced nodes : nodes ⊆ listed → traced P begun (daemonset_nodes rookNs params nodes) (λ _ h, begun h).
Proof.
  induction nodes as [|node nodes IH]; intros Hsub; simpl; [by apply traced_ret|].
  eapply traced_bind; [apply node_step_traced, Hsub; left|]. intros [u|]; [|by apply traced_ret]. apply IH.
  intros n Hn. apply Hsub. by right.
Qed.
End nodes.

(** C20: A node is only written for three reasons.  It loses the label of the CSI driver when
    the driver does not run there, or its pod has reported no mounted volume and no volume
    is attached to the node.  It is marked as ready to be drained when that was asked for, no
    pod of the driver is left on it and, if it had the label, its volumes were free.  It gets
    the label when no drain was asked for. *)
Theorem drain_order listed evs1 n evs2 :
  w_node_list h0 = (listed, None) →
  (ensureDaemonsetLabels rookNs params h0).2 = evs1 ++ EvNodeUpdate n :: evs2 →
  ∃ node, node ∈ listed ∧ node_written node (h0 ++ evs1) n.
Proof.
  intros Hlist Hev. assert (Ht : traced (write_ok listed) (λ h, h = h0) (ensureDaemonsetLabels rookNs params) (λ _ _, True)).
  { unfold ensureDaemonsetLabels. apply (traced_bind _ _ _ _ (λ r h, r = (listed, None) ∧ h0 `prefix_of` h)).
    - apply traced_call. intros h ->. split; [done|]. split; [done|by eexists].
    - intros [items [e|]]; apply traced_pure; intros ?; simplify_eq. eapply traced_weaken; [by apply nodes_traced|done|done]. }
  destruct (Ht h0 eq_refl) as [_ HP]. exact (HP _ _ _ Hev).
Qed.
End evict.

(** ** Panics *)

(** With a valid selector, and as long as the nodes that are read have labels and annotations,
    the labelling ends without a panic. *)
Lemma daemonset_labels_end `{World} `{HealthWorld} `{DeployWorld} `{ResourceWorld} rookNs params h :
  (dp_CephDaemonsetPlacementLabelExclude params = "" ∨ labels_parses (dp_CephDaemonsetPlacementLabelExclude params) = true) →
  (∀ h name node, w_node_get h name = (node, None) → kn_Labels node ≠ ∅ ∧ kn_Annotations node ≠ ∅) →
  is_Some (ensureDaemonsetLabels rookNs params h).1.
Proof.
  intros Hsel Hget. assert (Hread : ∀ name, spec (λ _, True) (GetNode name) (λ r, r.2 = None → kn_Labels r.1 ≠ ∅ ∧ kn_Annotations r.1 ≠ ∅)).
  { intros name h1. split; [|by apply Forall_true]. simpl. intros Hn. apply (Hget h1 name). by destruct (w_node_get h1 name) as [? ?]; simplify_eq/=. }
  assert (Hend : spec (λ _, True) (ensureDaemonsetLabels rookNs params) is_Some); [|by apply Hend].
  assert (Hupd : ∀ name b, spec (λ _, True) (updateNode name b) is_Some).
  { intros name b. unfold updateNode. eapply spec_bind; [apply Hread|]. intros [node [e|]] Hn; [by apply spec_ret; eexists|].
    destruct (Hn eq_refl) as [Hl _]. simpl in Hl. rewrite bool_decide_eq_false_2, andb_false_r by done.
    apply spec_bind_any; [apply spec_triv|]. intros e. apply spec_ret. by eexists. }
  assert (Hlabel : ∀ node, spec (λ _, True) (label_node node) is_Some).
  { intros node. unfold label_node. destruct (decide _); [apply spec_ret; by eexists|apply Hupd]. }
  assert (Hready : ∀ name, spec (λ _, True) (mark_ready params name) is_Some).
  { intros name. unfold mark_ready. eapply spec_bind; [apply Hread|]. intros [node [e|]] Hn; [by apply spec_ret; eexists|].
    destruct (Hn eq_refl) as [_ Ha]. simpl in Ha. destruct (decide (default _ _ = _)) as [_|_]; [by apply spec_ret; eexists|]. rewrite decide_False by done.
    apply spec_bind_any; [apply spec_triv|]. intros e. apply spec_ret. by eexists. }
  unfold ensureDaemonsetLabels. apply spec_bind_any; [apply spec_triv|]. intros [nodes [e|]]; [by apply spec_ret; eexists|].
  induction nodes as [|node nodes IH]; simpl; [by apply spec_ret; eexists|].
  apply (spec_bind _ _ _ is_Some); [|intros r [u ->]; done]. unfold daemonset_node. destruct (decide _) as [_|_].
  - unfold drain_node. apply spec_bind_any; [apply spec_triv|]. intros [|]; [|by apply spec_ret; eexists].
    apply spec_bind_any; [apply spec_triv|]. intros [e|]; [by apply spec_ret; eexists|].
    apply spec_bind_any; [apply spec_triv|]. intros [e|]; [by apply spec_ret; eexists|apply Hready].
  - destruct (decide (_ = "")) as [_|Hne]; [apply Hlabel|]. destruct Hsel as [|Hsel]; [done|]. rewrite Hsel. simpl. destruct (labels_match _ _); [|apply Hlabel].
    unfold exclude_node. destruct (kn_Labels node !! _); [|by apply spec_ret; eexists]. apply spec_bind_any; [apply spec_triv|].
    intros [[|]|e]; [by apply spec_ret; eexists|apply Hupd|by apply spec_ret; eexists].
Qed.
