(* ===== verification/SharedFilesystem.v ===== *)
(** * Shared file systems

    pkg/controller/deployment/shared_filesystem.go and the commands on file systems of its
    utils.go.  [ts] is [resourceUpdateTimestamps.cephConfigMap], the times at which sections
    of the Ceph configuration were changed: state of the controller that outlives a round.
    Specs are decoded from their raw form whenever they are needed. *)

From S2P Require Import Prelude GoTime Types HealthTypes DeployTypes World HealthWorld Extensions Validate Trace DeployWorld Resources NodeLabels.
Open Scope Z_scope.

Definition subVolumeGroupName : string := "csi".
Abbreviation timestamps := (gmap string string).

(** The time of a section, if there is one. *)
Definition stamp (ts : timestamps) (section : string) (annotations : gmap string string) : gmap string string :=
  match ts !! section with
  | None | Some "" => annotations
  | Some t => <[cephConfigParametersUpdateTimestampLabel section := t]> annotations
  end.

Section filesystems.
Context `{World} `{HealthWorld} `{SpecDecoder} `{DeployWorld} `{ResourceWorld} `{MapRange}.
Variable rookNs : string.

Definition generateCephFS (ts : timestamps) (cephDplCephFS : DplFilesystem) (namespace : string) : Filesystem :=
  let name := dfs_Name cephDplCephFS in
  let label := CephNodeLabel "mds" in
  let castedSpec := (CephFilesystem_GetSpec cephDplCephFS).1 in
  let mds := fss_MetadataServer castedSpec in
  let annotations := <[cephConfigParametersUpdateTimestampLabel "global" := default EmptyString (ts !! "global")]> (mss_Annotations mds) in
  let annotations := stamp ts ("mds." +:+ name) (stamp ts "mds" annotations) in
  let mds := mkMetadataServer (mss_ActiveCount mds) (Some (AffinityLabel label)) (Some (AffinityFilesystem name))
    (TolerationExists label :: mss_Tolerations mds) (Some (default DefaultCephProbe (mss_LivenessProbe mds))) annotations (mss_Rest mds) in
  mkFilesystem name namespace (Some baseResourceLabels)
    (mkFilesystemSpec (fss_MetadataPool castedSpec) (fss_DataPools castedSpec) mds (fss_PreserveFilesystemOnDelete castedSpec) (fss_Rest castedSpec))
    None.

(** ** Commands *)

Definition cephFsPresent (cephFsName : string) : IO (bool * option err) :=
  let* r := RunCephToolboxCLI rookNs "ceph fs ls -f json" in
  match r with
  | (_, Some e) => ret (false, Some e)
  | (output, None) =>
      match json_FsLs output with
      | (_, Some e) => ret (false, Some (wrap_err "failed to parse 'ceph fs ls' command output" e))
      | (names, None) => ret (Contains names cephFsName, None)
      end
  end.

Definition subvolumegroup_cmd (op cephFsName : string) : string :=
  let command := "ceph fs subvolumegroup -f json " +:+ op +:+ " " +:+ cephFsName in
  if decide (op = "create" ∨ op = "rm") then command +:+ " " +:+ subVolumeGroupName else command.

Definition cephFSSubvolumegroupCommand (op cephFsName : string) : IO (string * option err) :=
  let* r := RunCephToolboxCLI rookNs (subvolumegroup_cmd op cephFsName) in
  match r with
  | (_, Some e) => ret (EmptyString, Some e)
  | (output, None) =>
      if decide (op = "ls") then
        match json_SubvolumeGroups output with
        | (_, Some e) => ret (EmptyString, Some (wrap_err "failed to parse 'ceph fs subvolumegroup' command output" e))
        | ([], None) => ret (EmptyString, None)
        | (group :: _, None) => ret (default EmptyString (group !! "name"), None)
        end
      else ret (EmptyString, None)
  end.

(** ** Removal *)

(** The subvolume group is removed first, if the file system is there and has one. *)
Definition remove_group (cephfs : string) : IO (option err) :=
  let* r := cephFsPresent cephfs in
  match r with
  | (_, Some e) => ret (Some (wrap_err ("failed to check CephFilesytem '" +:+ cephfs +:+ "' presence in cluster") e))
  | (false, None) => ret None
  | (true, None) =>
      let* r := cephFSSubvolumegroupCommand "ls" cephfs in
      match r with
      | (_, Some e) => ret (Some (wrap_err ("failed to list CephFilesytem '" +:+ cephfs +:+ "' subvolumegroups") e))
      | (group, None) =>
          if decide (group = "") then ret None
          else
            let* r := cephFSSubvolumegroupCommand "rm" cephfs in
            ret (wrap_err ("failed to remove CephFS '" +:+ cephfs +:+ "' subvolumegroups") <$> r.2)
      end
  end.

Definition removeCephFilesystem (ts : timestamps) (cephfs : string) : IO (option err * timestamps) :=
  let* e := remove_group cephfs in
  match e with
  | Some e => ret (Some e, ts)
  | None =>
      let* e := call (EvDelete "CephFilesystem" rookNs cephfs) (λ h, w_object_delete h "CephFilesystem" rookNs cephfs) in
      match e with
      | Some e =>
          if is_not_found e then ret (None, delete ("mds." +:+ cephfs) ts)
          else ret (Some (wrap_err ("failed to remove CephFilesytem '" +:+ rookNs +:+ "/" +:+ cephfs +:+ "'") e), ts)
      | None => ret (None, delete ("mds." +:+ cephfs) ts)
      end
  end.

Definition filesystem_list : IO (list Filesystem * option err) :=
  read "CephFilesystemList" rookNs EmptyString (λ h, w_filesystem_list h rookNs).

Definition delete_fs_step (acc : nat * timestamps) (cephFs : Filesystem) : IO (nat * timestamps) :=
  let* r := removeCephFilesystem acc.2 (fso_Name cephFs) in
  ret (match r.1 with Some _ => S acc.1 | None => acc.1 end, r.2).

Definition deleteSharedFilesystems (ts : timestamps) : IO ((bool * option err) * timestamps) :=
  let* r := filesystem_list in
  match r with
  | (_, Some e) => ret ((false, Some (wrap_err "failed to get CephFilesytems list" e)), ts)
  | ([], None) => ret ((true, None), delete "mds" ts)
  | (items, None) =>
      let* r := foldM delete_fs_step items (O, ts) in
      match r.1 with
      | O => ret ((false, None), r.2)
      | S _ => ret ((false, Some (new_err "some CephFilesytem(s) failed to delete")), r.2)
      end
  end.

(** ** The file systems of the spec *)

(** Errors and changes so far. *)
Abbreviation fs_state := (list string * bool)%type.

(** The subvolume group of the CSI driver is made if there is none. *)
Definition ensure_group (name : string) (acc : fs_state) : IO fs_state :=
  let '(fsErrors, changed) := acc in
  let* r := cephFSSubvolumegroupCommand "ls" name in
  match r with
  | (_, Some _) => ret (fsErrors ++ ["failed to list CephFS '" +:+ name +:+ "' subvolumegroups"], changed)
  | (group, None) =>
      if decide (group = "") then
        let* r := cephFSSubvolumegroupCommand "create" name in
        match r.2 with
        | Some _ => ret (fsErrors ++ ["failed to create CephFS '" +:+ name +:+ "' subvolumegroup"], changed)
        | None => ret (fsErrors, true)
        end
      else ret (fsErrors, changed)
  end.

Definition fs_failed (what name : string) : string := "failed to " +:+ what +:+ " CephFilesytem '" +:+ rookNs +:+ "/" +:+ name +:+ "'".

Definition aligned_fs (resource cephFs : Filesystem) : Filesystem * bool :=
  let '(labels, changedBaseLabels) := AlignBaseLabels (fso_Labels cephFs) (default ∅ (fso_Labels resource)) in
  (mkFilesystem (fso_Name cephFs) (fso_Namespace cephFs) (Some labels) (fso_Spec resource) (fso_Phase cephFs),
   negb (bool_decide (fso_Spec resource = fso_Spec cephFs)) || changedBaseLabels).

Definition apply_fs (process : objectProcess) (fs : Filesystem) : IO (option err) :=
  call (EvApply process (RFilesystem fs)) (λ h, w_apply h process (RFilesystem fs)).

Definition fs_step (ts : timestamps) (acc : fs_state) (cephDplCephFS : DplFilesystem) : IO fs_state :=
  let '(fsErrors, changed) := acc in
  let name := dfs_Name cephDplCephFS in
  let resource := generateCephFS ts cephDplCephFS rookNs in
  let* r := read "CephFilesystem" rookNs name (λ h, w_filesystem_get h rookNs name) in
  match r with
  | (_, Some e) =>
      if is_not_found e then
        let* e := apply_fs objectCreate resource in
        match e with
        | Some _ => ret (fsErrors ++ [fs_failed "create" name], changed)
        | None => ret (fsErrors, true)
        end
      else ret (fsErrors ++ [fs_failed "get" name], changed)
  | (cephFs, None) =>
      let '(cephFs, differs) := aligned_fs resource cephFs in
      if (differs : bool) then
        let* e := apply_fs objectUpdate cephFs in
        match e with
        | Some _ => ret (fsErrors ++ [fs_failed "update" name], changed)
        | None => ensure_group name (fsErrors, true)
        end
      else ensure_group name (fsErrors, changed)
  end.

Definition drop_fs_step (acc : fs_state * timestamps) (entry : string * bool) : IO (fs_state * timestamps) :=
  let* r := removeCephFilesystem acc.2 entry.1 in
  ret ((acc.1.1 ++ match r.1 with Some _ => ["failed to remove CephFilesytem '" +:+ entry.1 +:+ "'"] | None => [] end, true), r.2).

Definition ensureCephFS (ts : timestamps) (filesystems : list DplFilesystem) : IO ((bool * option err) * timestamps) :=
  let* r := filesystem_list in
  match r with
  | (_, Some e) => ret ((false, Some (wrap_err "failed to get CephFS list" e)), ts)
  | (items, None) =>
      let dropFS : gmap string bool := foldl (λ m cephFs, <[fso_Name cephFs := true]> m) ∅ items in
      let dropFS := foldl (λ m fs, delete (dfs_Name fs) m) dropFS filesystems in
      let* acc := foldM (fs_step ts) filesystems ([], false) in
      let* r := foldM drop_fs_step (range 93 dropFS) (acc, ts) in
      let '(fsErrors, changed) := r.1 in
      match fsErrors with
      | [] => ret ((changed, None), r.2)
      | _ => ret ((false, Some (new_err ("error(s) during CephFilesytem(s) ensure: " +:+ Join fsErrors ", "))), r.2)
      end
  end.

Definition ensureSharedFilesystem (c : deployConfig) (ts : timestamps) : IO ((bool * option err) * timestamps) :=
  let* r :=
    match dsp_SharedFilesystem (cdp_Spec (dc_cephDpl c)) with
    | Some filesystems => ensureCephFS ts filesystems
    | None => let* r := deleteSharedFilesystems ts in ret ((negb r.1.1, r.1.2), r.2)
    end in
  match r.1.2 with
  | Some _ => ret ((false, Some (new_err "errors faced during Ceph shared filesystems ensure")), r.2)
  | None => ret r
  end.
End filesystems.

(** ** Shared file systems: removal

    A file system is removed only when it is not in the spec, and after its subvolume group
    ([filesystem_removal]). *)

Section filesystems.
Context `{World} `{HealthWorld} `{SpecDecoder} `{DeployWorld} `{ResourceWorld} `{MapRange}.
Variables (rookNs : string) (c : deployConfig) (h0 : history) (items : list Filesystem).

(** A command of Ceph that has succeeded, with its output. *)
Definition command_done (cmd out : string) (h : history) : Prop :=
  ∃ stderr, asked h0 (EvCeph rookNs cmd) (λ h, w_exec_ceph h rookNs cmd) (out, stderr, None) h.

(** Ceph does not have the file system, or it has no subvolume group any more. *)
Definition group_gone (name : string) (h : history) : Prop :=
  (∃ out names, command_done "ceph fs ls -f json" out h ∧ json_FsLs out = (names, None) ∧ name ∉ names) ∨
  (∃ out groups, command_done (subvolumegroup_cmd "ls" name) out h ∧ json_SubvolumeGroups out = (groups, None) ∧
     default EmptyString (head groups ≫= λ g, g !! "name") = "") ∨
  (∃ out, command_done (subvolumegroup_cmd "rm" name) out h).

(** A file system to be removed: it is there and not in the spec. *)
Definition unwanted (name : string) : Prop :=
  name ∈ fso_Name <$> items ∧ ∀ fss, dsp_SharedFilesystem (cdp_Spec (dc_cephDpl c)) = Some fss → name ∉ dfs_Name <$> fss.

Definition fs_write_ok (h : history) (e : event) : Prop :=
  match e with
  | EvDelete kind ns name => kind = "CephFilesystem" ∧ ns = rookNs ∧ unwanted name ∧ group_gone name h
  | EvRead _ _ _ | EvCeph _ _ | EvApply _ (RFilesystem _) => True
  | _ => False
  end.

Abbreviation begun := (λ h : history, h0 `prefix_of` h).

Lemma done_lasting cmd out : lasting (command_done cmd out).
Proof. unfold command_done. auto with lasting. Qed.

Lemma group_lasting name : lasting (group_gone name).
Proof. unfold group_gone, command_done. auto 10 with lasting. Qed.

Lemma cli_traced cmd :
  traced fs_write_ok begun (RunCephToolboxCLI rookNs cmd) (λ r h, begun h ∧ (r.2 = None → command_done cmd r.1 h)).
Proof.
  unfold RunCephToolboxCLI, RunPodCmdAndCheckError.
  apply (traced_bind _ _ _ _ (λ r h, begun h ∧ (r.2 = None → asked h0 (EvCeph rookNs cmd) (λ h, w_exec_ceph h rookNs cmd) r h))).
  - eapply traced_bind; [by apply traced_ask; [apply prefix_lasting|..]|].
    intros [[out er] [e|]]; apply traced_ret; by intros h [Ha Hh].
  - intros [[out er] [e|]]; apply traced_ret; intros h [Hh Ha]; (split; [done|]); [done|]. intros _. exists er. by apply Ha.
Qed.

Lemma fs_present_traced name :
  traced fs_write_ok begun (cephFsPresent rookNs name) (λ r h, begun h ∧ (r = (false, None) → group_gone name h)).
Proof.
  unfold cephFsPresent. eapply traced_bind; [apply cli_traced|]. intros [out [e|]]; [apply traced_ret; by intros h []|]. simpl.
  destruct (json_FsLs out) as [names [e|]] eqn:Hj; apply traced_ret; intros h [Hh Hd]; (split; [done|]); [done|].
  intros [= Hc]. left. exists out, names. split_and!; [by apply Hd|done|]. intros Hin. apply Contains_spec in Hin. congruence.
Qed.

Lemma group_cmd_traced op name :
  traced fs_write_ok begun (cephFSSubvolumegroupCommand rookNs op name) (λ r h, begun h ∧
    (r.2 = None → (op = "rm" ∨ op = "ls" ∧ r.1 = "") → group_gone name h)).
Proof.
  unfold cephFSSubvolumegroupCommand. eapply traced_bind; [apply cli_traced|]. intros [out [e|]]; [apply traced_ret; by intros h []|]. simpl.
  destruct (decide (op = "ls")) as [->|Hop].
  - destruct (json_SubvolumeGroups out) as [groups e] eqn:Hj.
    assert (Hg : ∀ h, command_done (subvolumegroup_cmd "ls" name) out h → e = None → default EmptyString (head groups ≫= λ g, g !! "name") = "" → group_gone name h).
    { intros h Hd -> Hn. right; left. by exists out, groups. }
    destruct groups as [|g groups], e as [e|]; apply traced_ret; intros h [Hh Hd]; (split; [done|]); try done;
      intros _ [?|[_ Hn]]; try done; by apply Hg; [apply Hd|..].
  - apply traced_ret. intros h [Hh Hd]. split; [done|]. intros _ [->|[? _]]; [|done]. right; right. exists out. by apply Hd.
Qed.

Lemma remove_group_traced name :
  traced fs_write_ok begun (remove_group rookNs name) (λ r h, begun h ∧ (r = None → group_gone name h)).
Proof.
  unfold remove_group. eapply traced_bind; [apply fs_present_traced|].
  intros [[|] [e|]]; [apply traced_ret; by intros h []| |apply traced_ret; by intros h []|].
  2: { apply traced_ret. intros h [Hh Hg]. auto. }
  apply (traced_weaken _ begun _ _ (λ r h, begun h ∧ (r = None → group_gone name h))); [|by intros h []|done].
  eapply traced_bind; [apply group_cmd_traced|]. intros [g [e|]]; [apply traced_ret; by intros h []|].
  destruct (decide (g = "")) as [->|_]; [apply traced_ret; intros h [Hh Hg]; auto|].
  apply (traced_weaken _ begun _ _ (λ r h, begun h ∧ (r = None → group_gone name h))); [|by intros h []|done].
  eapply traced_bind; [apply group_cmd_traced|]. intros [g' [e|]]; apply traced_ret; intros h [Hh Hg]; by auto.
Qed.

Lemma remove_fs_traced ts name :
  unwanted name → traced fs_write_ok begun (removeCephFilesystem rookNs ts name) (λ _ h, begun h).
Proof.
  intros Hn. unfold removeCephFilesystem. eapply traced_bind; [apply remove_group_traced|].
  intros [e|]; [apply traced_ret; by intros h []|].
  apply (traced_bind _ _ _ _ (λ _ h, begun h)).
  - apply traced_call. intros h [Hh Hg]. split; [by split_and!; auto|by apply prefix_lasting].
  - intros [e|]; [|by apply traced_ret]. by destruct (is_not_found e); apply traced_ret.
Qed.

Lemma ensure_group_traced name acc : traced fs_write_ok begun (ensure_group rookNs name acc) (λ _ h, begun h).
Proof.
  unfold ensure_group. destruct acc as [errs changed]. eapply traced_bind; [apply group_cmd_traced|].
  intros [g [e|]]; [apply traced_ret; by intros h []|]. apply (traced_weaken _ begun _ _ (λ _ h, begun h)); [|by intros h []|done].
  destruct (decide _); [|by apply traced_ret]. eapply traced_bind; [apply group_cmd_traced|].
  intros [g' [e'|]]; apply traced_ret; by intros h [].
Qed.

Lemma fs_step_traced ts acc fs : traced fs_write_ok begun (fs_step rookNs ts acc fs) (λ _ h, begun h).
Proof.
  assert (Hcall : ∀ A e (f : history → A), (∀ h, fs_write_ok h e) → traced fs_write_ok begun (call e f) (λ _ h, begun h)).
  { intros A e f He. apply traced_call. intros h Hh. split; [by apply He|by apply prefix_lasting]. }
  unfold fs_step. destruct acc as [errs changed]. apply (traced_bind _ _ _ _ (λ _ h, begun h)); [by apply Hcall|]. intros [fs' [e|]].
  - destruct (is_not_found e); [|by apply traced_ret]. apply (traced_bind _ _ _ _ (λ _ h, begun h)); [by apply Hcall|].
    intros [e'|]; by apply traced_ret.
  - destruct (aligned_fs _ _) as [fs1 [|]]; [|apply ensure_group_traced].
    apply (traced_bind _ _ _ _ (λ _ h, begun h)); [by apply Hcall|]. intros [e'|]; [by apply traced_ret|apply ensure_group_traced].
Qed.

(** The file systems that are dropped by a pass over those of the spec. *)
Lemma drop_lookup fss k b :
  foldl (λ m fs, delete (dfs_Name fs) m) (foldl (λ m cephFs, <[fso_Name cephFs := true]> m) (∅ : gmap string bool) items) fss !! k = Some b →
  k ∈ fso_Name <$> items ∧ k ∉ dfs_Name <$> fss.
Proof.
  set (m0 := foldl _ ∅ items). assert (Hm0 : ∀ b, m0 !! k = Some b → k ∈ fso_Name <$> items).
  { unfold m0. clear. induction items as [|fs l IH] using rev_ind; intros b; [done|]. rewrite foldl_app, fmap_app, elem_of_app. simpl.
    rewrite lookup_insert_Some. intros [[<- _]|[_ Hin]]; [right; left|left; by eapply IH]. }
  induction fss as [|fs fss IH] using rev_ind; [split; [by eapply Hm0|apply not_elem_of_nil]|].
  rewrite foldl_app, fmap_app, not_elem_of_app. simpl. rewrite lookup_delete_Some. intros [Hne Hk]. apply IH in Hk as [Hin Hnin].
  split_and!; [done|done|]. apply not_elem_of_cons. split; [done|apply not_elem_of_nil].
Qed.
End filesystems.

(** C40: In a pass over the shared file systems, a file system is removed only if it is there
    and the spec does not have it (or has no shared file systems at all), and only after Ceph
    has reported that it does not know the file system, that it has no named subvolume group,
    or that the group was removed. *)
Theorem filesystem_removal `{World} `{SpecDecoder} `{DeployWorld} `{ResourceWorld} `{MapRange}
    rookNs c ts h items evs1 kind ns name evs2 :
  w_filesystem_list h rookNs = (items, None) →
  (ensureSharedFilesystem rookNs c ts h).2 = evs1 ++ EvDelete kind ns name :: evs2 →
  kind = "CephFilesystem" ∧ ns = rookNs ∧ unwanted c items name ∧ group_gone rookNs h name (h ++ evs1).
Proof.
  intros Hlist Hev.
  assert (Hlisted : traced (fs_write_ok rookNs c h items) (λ h1, h1 = h) (filesystem_list rookNs) (λ r h1, r = (items, None) ∧ h `prefix_of` h1)).
  { apply traced_call. intros h1 ->. split; [done|]. split; [done|by eexists]. }
  assert (Ht : traced (fs_write_ok rookNs c h items) (λ h1, h1 = h) (ensureSharedFilesystem rookNs c ts) (λ _ _, True)).
  { unfold ensureSharedFilesystem. apply (traced_bind _ _ _ _ (λ _ h1, h `prefix_of` h1)); [|intros r; destruct (r.1.2); by apply traced_ret].
    destruct (dsp_SharedFilesystem _) as [fss|] eqn:Hfs.
    - unfold ensureCephFS. eapply traced_bind; [exact Hlisted|]. intros [items' [e|]]; apply traced_pure; intros ?; simplify_eq.
      eapply traced_bind; [apply (traced_foldM_inv _ _ (λ _ h1, h `prefix_of` h1)); intros fs acc _; apply fs_step_traced|].
      intros acc. eapply traced_bind; [apply (traced_foldM_inv _ _ (λ _ h1, h `prefix_of` h1))|].
      + intros [k b] acc' [Hk Hnk]%elem_of_range%drop_lookup. unfold drop_fs_step.
        eapply traced_bind; [apply remove_fs_traced; split; [done|]; rewrite Hfs; by intros fss' [= <-]|]. intros r. by apply traced_ret.
      + intros [[[|e errs] changed] ts']; by apply traced_ret.
    - apply (traced_bind _ _ _ _ (λ _ h1, h `prefix_of` h1)); [|intros r; by apply traced_ret]. unfold deleteSharedFilesystems.
      eapply traced_bind; [exact Hlisted|]. intros [items' [e|]]; apply traced_pure; intros ?; simplify_eq.
      assert (Hfold : ∀ l acc, l ⊆ items → traced (fs_write_ok rookNs c h items) (λ h1, h `prefix_of` h1) (foldM (delete_fs_step rookNs) l acc) (λ _ h1, h `prefix_of` h1)).
      { intros l acc Hsub. apply (traced_foldM_inv _ _ (λ _ h1, h `prefix_of` h1)). intros fs acc' Hin. unfold delete_fs_step.
        eapply traced_bind; [apply remove_fs_traced; split; [by apply list_elem_of_fmap_2, Hsub|congruence]|]. intros r. by apply traced_ret. }
      destruct items as [|fs items]; [by apply traced_ret|]. eapply traced_bind; [by apply Hfold|]. intros [[|n] ts']; by apply traced_ret. }
  destruct (Ht h eq_refl) as [_ HP]. exact (HP _ _ _ Hev).
Qed.
