(* ===== verification/Versions.v ===== *)
(** * Versions of Ceph

    pkg/common/version.go (the supported releases and the parser of version strings),
    pkg/controller/deployment/version.go (which image and version a round works with,
    the updates of the images of Rook and of the CephCluster), [getCephVersion] and
    [getCephVersions] of its utils.go, and [cephUpgradeAllowed] with
    [getOpenstackDeploymentStatus] of its maintenance.go. *)

From Stdlib Require Import Ascii.
From S2P Require Import Prelude GoTime Types HealthTypes DeployTypes World Config HealthWorld Extensions Validate Trace DeployWorld.
Open Scope Z_scope.

(** ** Supported releases *)

Definition Tentacle : CephVersion := mkVersion "Tentacle" "v20.2" 0 20 [0; 1; 2; 3; 4].
Definition Squid : CephVersion := mkVersion "Squid" "v19.2" 0 19 [3; 4; 5; 6; 7].
Definition AvailableCephVersions : list CephVersion := [Tentacle; Squid].
Definition LatestRelease : CephVersion := Tentacle.

(** [strings.EqualFold], for letters of ASCII. *)
Fixpoint EqualFold (s t : string) : bool :=
  match s, t with
  | EmptyString, EmptyString => true
  | String a s', String b t' => bool_decide (lower a = lower b) && EqualFold s' t'
  | _, _ => false
  end.

Definition GetCephVersionByReleaseName (releaseName : string) : CephVersion + err :=
  if decide (releaseName = "") then inl LatestRelease
  else
    match find (λ version, EqualFold (ver_Name version) releaseName) AvailableCephVersions with
    | Some version => inl version
    | None => inr (new_err ("specified not supported Ceph release '" +:+ releaseName +:+ "'. Is version correct?"))
    end.

(** ** The pattern [ceph version (\d+)\.(\d+)\.(\d+)] *)

Definition is_digit (a : ascii) : bool := bool_decide (48 ≤ nat_of_ascii a ≤ 57)%nat.

(** The digits at the start of a string, and what follows. *)
Fixpoint span_digits (s : string) : string * string :=
  match s with
  | EmptyString => (EmptyString, EmptyString)
  | String a s' => if is_digit a then let '(d, rest) := span_digits s' in (String a d, rest) else (EmptyString, s)
  end.

(** [\d+] and [\d+\.] at the start of a string: a digit is never a dot, so there is one way
    to match. *)
Definition match_number (s : string) : option (string * string) :=
  match span_digits s with
  | (EmptyString, _) => None
  | r => Some r
  end.
Definition match_number_dot (s : string) : option (string * string) :=
  match match_number s with
  | Some (d, String "." rest) => Some (d, rest)
  | _ => None
  end.

Definition version_prefix : string := "ceph version ".

(** The three submatches at the start of a string. *)
Definition match_version (s : string) : option (string * string * string) :=
  if HasPrefix s version_prefix then
    '(d1, s1) ← match_number_dot (CutPrefix s version_prefix);
    '(d2, s2) ← match_number_dot s1;
    '(d3, _) ← match_number s2;
    Some (d1, d2, d3)
  else None.

(** [FindStringSubmatch]: the leftmost match. *)
Fixpoint find_version (s : string) : option (string * string * string) :=
  match match_version s with
  | Some m => Some m
  | None => match s with EmptyString => None | String _ s' => find_version s' end
  end.

(** A slice of strings with the verb [%v]. *)
Definition fmt_strings (l : list string) : string := "[" +:+ Join l " " +:+ "]".

(** A version as it is reported, [major.minor]. *)
Definition version_str (v : CephVersion) : string := ver_MajorVersion v +:+ "." +:+ pretty (ver_MinorVersion v).

Definition ParseCephVersion (cephVersion : string) : CephVersion + err :=
  match find_version cephVersion with
  | None => inr (new_err ("failed to parse version '" +:+ cephVersion +:+ "', expected format 'ceph version x.x.x'"))
  | Some (d1, d2, d3) =>
      let major := "v" +:+ d1 +:+ "." +:+ d2 in
      match Atoi d3 with
      | None => inr (new_err ("failed to parse ceph version minor part: '" +:+ Quote d3 +:+ "'"))
      | Some minor =>
          match find (λ supported, bool_decide (ver_MajorVersion supported = major)) AvailableCephVersions with
          | Some supported =>
              if Contains (ver_SupportedMinors supported) minor
              then inl (mkVersion (ver_Name supported) major minor (ver_Order supported) [])
              else
                inr (new_err ("specified Ceph version '" +:+ major +:+ "." +:+ pretty minor
                  +:+ "' is not supported. Please use one of: "
                  +:+ fmt_strings ((λ minor, ver_MajorVersion supported +:+ "." +:+ pretty minor) <$> ver_SupportedMinors supported)))
          | None =>
              inr (new_err ("unsupported Ceph major version '" +:+ major +:+ "' provided. Supported are: "
                +:+ fmt_strings ((λ v, ver_Name v +:+ " (" +:+ ver_MajorVersion v +:+ ")") <$> AvailableCephVersions)))
          end
      end
  end.

Definition CephVersionGreaterOrEqual (currentVersion requiredVersion : CephVersion) : bool :=
  if decide (ver_Name currentVersion = "") then false
  else bool_decide (ver_Order requiredVersion ≤ ver_Order currentVersion).

(** ** Whether an upgrade adds the cipher aes256k *)

Definition upgradeWithNewAes256 (currentV newV : CephVersion) : bool :=
  if bool_decide (ver_Order newV = ver_Order Tentacle) && bool_decide (3 < ver_MinorVersion newV) ||
     bool_decide (ver_Order newV = ver_Order Squid) && bool_decide (5 < ver_MinorVersion newV) ||
     bool_decide (ver_Order Tentacle < ver_Order newV)
  then
    if bool_decide (ver_Order currentV = ver_Order Tentacle) && bool_decide (3 < ver_MinorVersion currentV) then false
    else if bool_decide (ver_Order currentV = ver_Order Squid) && bool_decide (5 < ver_MinorVersion currentV) then false
    else true
  else false.

(** ** Versions of the cluster and of images *)

Section versions.
Context `{World} `{HealthWorld} `{DeployWorld} `{MapRange}.
Variables (rookNs : string) (params : DeployParams).

Definition pelagiaVersionCheckDpl : string := "pelagia-check-ceph-version".

(** [getCephVersion]: [ceph --version] in the version-check pod. *)
Definition getCephVersion (namespace : string) : IO (string * option err) :=
  let* r := RunPodCmdAndCheckError "ceph --version" EmptyString
              (read "Exec" namespace pelagiaVersionCheckDpl (λ h, w_exec_version h namespace "ceph --version")) in
  match r with (output, _, e) => ret (output, e) end.

Definition getCephVersions : IO (gmap string Z * option err) :=
  RunAndParseCephToolboxCLI ∅ json_CephVersions rookNs "ceph versions --format json".

(** The loop of [getClusterCephVersion] over the versions of the daemons: the strings for
    the status and the version with the lowest release so far. *)
Definition cluster_version_step (acc : (list string * option CephVersion) + err) (version : string)
    : (list string * option CephVersion) + err :=
  match acc with
  | inr e => inr e
  | inl (strs, lowest) =>
      match ParseCephVersion version with
      | inr e => inr (wrap_err "failed to verify Ceph version in cluster" e)
      | inl v =>
          inl (strs ++ [version_str v],
               match lowest with
               | None => Some v
               | Some low => if bool_decide (ver_Order v < ver_Order low) then Some v else Some low
               end)
      end
  end.

(** The version of the cluster ([None] when no daemon has one), and the status string. *)
Definition getClusterCephVersion : IO ((option CephVersion * string) + err) :=
  let* r := getCephVersions in
  match r with
  | (_, Some e) => ret (inr (wrap_err "failed to get current Ceph versions" e))
  | (overall, None) =>
      match foldl cluster_version_step (inl ([], None)) (range 87 overall).*1 with
      | inr e => ret (inr e)
      | inl (strs, lowest) => ret (inl (lowest, Join (SortStrings strs) ","))
      end
  end.

(** Polling for the version-check deployment, at most [n] times. *)
Fixpoint poll_ready (n : nat) (namespace : string) : IO bool :=
  match n with
  | O => ret false
  | S n' =>
      let* r := read "Deployment" namespace pelagiaVersionCheckDpl
                  (λ h, w_deployment_object h namespace pelagiaVersionCheckDpl) in
      match r with
      | (dpl, None) => if IsDeploymentReady dpl then ret true else poll_ready n' namespace
      | (_, Some _) => poll_ready n' namespace
      end
  end.

(** [prepareVersionCheckDeployment]: the deployment is made or changed, then awaited. *)
Definition prepareVersionCheckDeployment (dpl : CephDeployment) (targetImage : string) : IO (option err) :=
  let ns := cdp_Namespace dpl in
  let obj := "'" +:+ ns +:+ "/" +:+ pelagiaVersionCheckDpl +:+ "' deployment" in
  match GetObjectOwnerRef w_gvk_dpl (cdp_Name dpl) (cdp_UID dpl) with
  | (_, Some e) => ret (Some e)
  | (_, None) =>
      let* r := read "Deployment" ns pelagiaVersionCheckDpl (λ h, w_version_dpl_get h ns) in
      let* failed :=
        match r with
        | (_, Some e) =>
            if is_not_found e then
              let* e := call (EvCreate "Deployment" ns pelagiaVersionCheckDpl)
                          (λ h, w_object_create h "Deployment" ns pelagiaVersionCheckDpl) in
              ret (wrap_err ("failed to create " +:+ obj) <$> e)
            else ret (Some (wrap_err ("failed to get " +:+ obj) e))
        | (image, same, None) =>
            if decide (image = targetImage ∧ same = true) then ret None
            else
              let* e := call (EvImageUpdate "Deployment" rookNs pelagiaVersionCheckDpl targetImage)
                          (λ h, w_image_update h "Deployment" rookNs pelagiaVersionCheckDpl targetImage) in
              ret (wrap_err ("failed to update " +:+ obj) <$> e)
        end in
      match failed with
      | Some e => ret (Some e)
      | None =>
          let* n := call EvClock w_poll_attempts in
          let* ready := poll_ready n ns in
          if (ready : bool) then ret None
          else ret (Some (new_err "timeout reached for waiting version-check deployment ready: context deadline exceeded"))
      end
  end.

Definition deleteVersionCheckDeployment (dpl : CephDeployment) : IO (bool * option err) :=
  let ns := cdp_Namespace dpl in
  let* e := call (EvDelete "Deployment" ns pelagiaVersionCheckDpl)
              (λ h, w_object_delete h "Deployment" ns pelagiaVersionCheckDpl) in
  match e with
  | Some e =>
      if is_not_found e then ret (true, None)
      else ret (false, Some (wrap_err ("failed to delete '" +:+ ns +:+ "/" +:+ pelagiaVersionCheckDpl +:+ "' deployment") e))
  | None => ret (true, None)
  end.

Definition getCephVersionFromImage (dpl : CephDeployment) (image : string) : IO (CephVersion + err) :=
  let* e := prepareVersionCheckDeployment dpl image in
  match e with
  | Some e => ret (inr (wrap_err "failed to prepare version-check deployment" e))
  | None =>
      let* r := getCephVersion (cdp_Namespace dpl) in
      match r with
      | (_, Some e) => ret (inr e)
      | (cephVersionCLI, None) => ret (ParseCephVersion cephVersionCLI)
      end
  end.

(** ** Whether the version may change now *)

Definition controllerClusterReleaseVar : string := "CEPH_CONTROLLER_CLUSTER_RELEASE".

(** State and release of the OpenStack deployment, empty without one, from the answer of the
    API server. *)
Definition openstack_state (r : list (option (string * string)) * option err) : (string * string) + err :=
  let items :=
    match r with
    | (items, None) => inl items
    | (items, Some e) =>
        match err_kind e with
        | ErrNotFound => inl items
        | ErrNoMatch | ErrNotRegistered => inl []
        | ErrOther => inr (wrap_err "failed to list openstackdeploymentstatus objects" e)
        end
    end in
  match items with
  | inr e => inr e
  | inl [] => inl (EmptyString, EmptyString)
  | inl [Some (state, release)] => inl (state, release)
  | inl [None] => inr (new_err "OpenstackDeploymentStatus required values in status.osdpl not found")
  | inl items => inr (new_err ("expected number of openstackdeploymentstatus objects is 1, but found " +:+ pretty (length items)))
  end.

Definition getOpenstackDeploymentStatus : IO ((string * string) + err) :=
  let* r := read "OpenStackDeploymentStatusList" "openstack" EmptyString w_openstack_status in
  ret (openstack_state r).

Definition cephUpgradeAllowed : IO (bool + err) :=
  match w_env controllerClusterReleaseVar with
  | None => ret (inr (new_err ("required env variable '" +:+ controllerClusterReleaseVar +:+ "' is not set")))
  | Some clusterRelease =>
      let* r := getOpenstackDeploymentStatus in
      match r with
      | inr e => ret (inr (wrap_err "failed to get openstackdeploymentstatus state and release" e))
      | inl (osState, osRelease) =>
          if decide (osRelease = "" ∧ osState = "") then ret (inl true)
          else if decide (osRelease = clusterRelease) then ret (inl (bool_decide (osState = "APPLIED")))
          else ret (inl false)
      end
  end.

(** ** The version and the image of a round *)

(** The answer of [verifyCephVersions]: the version of the cluster ([None]: not known), the
    image to use, the string for the status, and whether the upgrade brings aes256k. *)
Record versions := mkVersions {
  vs_version : option CephVersion;
  vs_image : string;
  vs_status : string;
  vs_aes256k : bool;
}.

(** What the cluster says: its image (empty without a cluster), its version, the status. *)
Definition current_versions (dpl : CephDeployment) : IO ((string * option CephVersion * string) + err) :=
  let* r := call (EvClusterGet rookNs (cdp_Name dpl)) (λ h, w_rookcluster_get h rookNs (cdp_Name dpl)) in
  match r with
  | (_, Some e) =>
      if is_not_found e then ret (inl (EmptyString, None, EmptyString))
      else ret (inr (wrap_err ("failed to get " +:+ rookNs +:+ "/" +:+ cdp_Name dpl +:+ " cephcluster") e))
  | (cephCluster, None) =>
      let image := rkc_Image cephCluster in
      let* deployed := isCephDeployed rookNs in
      if (deployed : bool) then
        let* available := IsCephToolboxCLIAvailable rookNs in
        if (available : bool) then
          let* v := getClusterCephVersion in
          match v with
          | inr e => ret (inr e)
          | inl (version, status) => ret (inl (image, version, status))
          end
        else ret (inr (new_err ("Pelagia toolbox deployment '" +:+ rookNs +:+ "/" +:+ PelagiaToolBox
               +:+ "' is not ready, waiting before proceed any actions")))
      else ret (inl (image, None, EmptyString))
  end.

(** The case of another image than the one of the cluster, [current] being the version of the
    cluster if there is one. *)
Definition change_image (dpl : CephDeployment) (currentImage : string) (current : option CephVersion) (status : string)
    : IO (versions + err) :=
  let target := dp_CephImage params in
  match GetCephVersionByReleaseName (dp_CephRelease params) with
  | inr e => ret (inr e)
  | inl expected =>
      let* r := getCephVersionFromImage dpl target in
      match r with
      | inr e => ret (inr (wrap_err ("failed to check 'ceph --version' for provided image '" +:+ target +:+ "'") e))
      | inl new =>
          if negb (bool_decide (ver_Name new = ver_Name expected)) then
            ret (inr (new_err ("expected Ceph release " +:+ ver_Name expected +:+ " '" +:+ ver_MajorVersion expected
              +:+ "' version, but specified " +:+ ver_Name new +:+ " '" +:+ ver_MajorVersion new +:+ "' version (image: "
              +:+ target +:+ ")")))
          else
            match current with
            | None => ret (inl (mkVersions (Some new) target status false))
            | Some cur =>
                let change := "from '" +:+ version_str cur +:+ "' to '" +:+ version_str new +:+ "': " in
                if bool_decide (ver_Order new < ver_Order cur) then
                  ret (inr (new_err ("detected Ceph version downgrade " +:+ change +:+ "major downgrade is not possible")))
                else if bool_decide (1 < ver_Order new - ver_Order cur) then
                  ret (inr (new_err ("detected Ceph version upgrade " +:+ change
                    +:+ "upgrade with step over one major version is not possible")))
                else if bool_decide (ver_Order new ≠ ver_Order cur) || bool_decide (ver_MinorVersion new ≠ ver_MinorVersion cur) then
                  let* allowed := cephUpgradeAllowed in
                  match allowed with
                  | inr e => ret (inr (wrap_err "failed to check is Ceph upgrade allowed" e))
                  | inl true => ret (inl (mkVersions (Some cur) target status (upgradeWithNewAes256 cur new)))
                  | inl false => ret (inl (mkVersions (Some cur) currentImage status false))
                  end
                else ret (inl (mkVersions (Some cur) target status false))
            end
      end
  end.

Definition verifyCephVersions (dpl : CephDeployment) : IO (versions + err) :=
  if decide (dp_CephImage params = "") then
    ret (inr (new_err "Pelagia lcmconfig has no required 'DEPLOYMENT_CEPH_IMAGE' parameter set"))
  else
    let* r := current_versions dpl in
    match r with
    | inr e => ret (inr e)
    | inl (currentImage, current, status) =>
        if bool_decide (is_Some current) && bool_decide (currentImage ≠ dp_CephImage params) || bool_decide (currentImage = "")
        then change_image dpl currentImage current status
        else
          match current with
          | None =>
              let* r := getCephVersionFromImage dpl currentImage in
              match r with
              | inr e =>
                  ret (inr (wrap_err ("failed to check 'ceph --version' for used in cluster image '" +:+ currentImage +:+ "'") e))
              | inl new => ret (inl (mkVersions (Some new) currentImage status false))
              end
          | Some cur =>
              let* _ := deleteVersionCheckDeployment dpl in
              ret (inl (mkVersions (Some cur) currentImage status false))
          end
    end.

(** ** Updating the images *)

Definition aes256kApplied : string := "cephdeployment.lcm.mirantis.com/aes256kApplied".
Definition cephRestartOsdLabel : string := "cephdeployment.lcm.mirantis.com/restart-osd-reason".
Definition cephRestartOsdTimestampLabel : string := "cephdeployment.lcm.mirantis.com/restart-osd-requested".

(** The keys of the daemons are rotated to aes256k, those of CSI stay. *)
Definition rotate_keys (cx : CephxConfig) : CephxConfig :=
  let gen :=
    if bool_decide (0 < cx_DaemonKeyGeneration cx) && bool_decide (cx_DaemonKeyRotationPolicy cx = "KeyGeneration")
    then cx_DaemonKeyGeneration cx + 1 else 2 in
  mkCephx gen "KeyGeneration" "aes256k" ["aes"; "aes256k"] "aes" 1.

(** The cluster with the new image. *)
Definition updated_cluster (c : deployConfig) (cluster : RookCluster) : RookCluster :=
  let cluster :=
    if dc_aes256kUpgrade c
    then set_rkc_Labels (<[aes256kApplied := "true"]> (rkc_Labels cluster)) (set_rkc_CephX (rotate_keys (rkc_CephX cluster)) cluster)
    else cluster in
  let cluster := set_rkc_HostNetwork false (set_rkc_Image (dc_currentCephImage c) cluster) in
  if decide (default EmptyString (eo_OsdRestartReason <$> dsp_ExtraOpts (cdp_Spec (dc_cephDpl c))) = "") then
    set_rkc_SpecAnnotations (delete "osd" (rkc_SpecAnnotations cluster))
      (set_rkc_Annotations (delete cephRestartOsdTimestampLabel (delete cephRestartOsdLabel (rkc_Annotations cluster))) cluster)
  else cluster.

Definition ensureCephClusterVersion (c : deployConfig) : IO (option err) :=
  let name := cdp_Name (dc_cephDpl c) in
  let* r := call (EvClusterGet rookNs name) (λ h, w_rookcluster_get h rookNs name) in
  match r with
  | (_, Some e) =>
      if is_not_found e then ret None
      else ret (Some (wrap_err ("failed to get " +:+ rookNs +:+ "/" +:+ name +:+ " CephCluster") e))
  | (cephCluster, None) =>
      if decide (rkc_Image cephCluster = dc_currentCephImage c) then ret None
      else
        let new := updated_cluster c cephCluster in
        let obj := "CephCluster " +:+ rkc_Namespace cephCluster +:+ "/" +:+ rkc_Name cephCluster +:+ " version" in
        let* e := call (EvClusterUpdate new) (λ h, w_rookcluster_update h new) in
        match e with
        | Some e => ret (Some (wrap_err ("failed to update " +:+ obj) e))
        | None => ret (Some (new_err ("update " +:+ obj +:+ " is in progress")))
        end
  end.

Definition RookDiscoverName : string := "rook-discover".

(** The image of the daemonset that discovers devices; [None] is a panic: there is no
    container. *)
Definition ensure_discover_image : IO (option (option err)) :=
  let image := dp_RookImage params in
  let discover_ref := "daemonset " +:+ rookNs +:+ "/" +:+ RookDiscoverName in
  let* r := read "DaemonSet" rookNs RookDiscoverName (λ h, w_daemonset_image h rookNs RookDiscoverName) in
  match r with
  | (_, Some e) => ret (Some (Some (wrap_err ("failed to get " +:+ rookNs +:+ "/" +:+ RookDiscoverName +:+ " daemonset") e)))
  | (_, None, None) => ret None
  | (discover, Some current, None) =>
      if negb (bool_decide (current = image)) then
        let* e := call (EvImageUpdate "DaemonSet" rookNs RookDiscoverName image)
                    (λ h, w_image_update h "DaemonSet" rookNs RookDiscoverName image) in
        match e with
        | Some e => ret (Some (Some (wrap_err ("failed to update " +:+ rookNs +:+ "/" +:+ RookDiscoverName
                                 +:+ " daemonset with new rook image") e)))
        | None => ret (Some (Some (new_err (discover_ref +:+ " rook image update is in progress"))))
        end
      else if IsDaemonSetReady discover || bool_decide (dms_DesiredNumberScheduled discover = 0) then ret (Some None)
      else ret (Some (Some (new_err (discover_ref +:+ " rook image update still is in progress"))))
  end.

(** [ensureRookImage]; [None] is a panic: the operator has no replicas set or no container. *)
Definition ensureRookImage : IO (option (option err)) :=
  let image := dp_RookImage params in
  let operator_ref := "deployment " +:+ rookNs +:+ "/" +:+ RookCephOperatorName in
  let* r := read "Deployment" rookNs RookCephOperatorName (λ h, w_deployment_image h rookNs RookCephOperatorName) in
  match r with
  | (_, Some e) => ret (Some (Some (wrap_err ("failed to get " +:+ rookNs +:+ "/" +:+ RookCephOperatorName +:+ " deployment") e)))
  | (operator, container, None) =>
      match dpl_SpecReplicas operator with
      | None => ret None
      | Some replicas =>
          if decide (replicas = 0) then ret (Some None)
          else
            match container with
            | None => ret None
            | Some current =>
                if negb (bool_decide (current = image)) then
                  let* e := call (EvImageUpdate "Deployment" rookNs RookCephOperatorName image)
                              (λ h, w_image_update h "Deployment" rookNs RookCephOperatorName image) in
                  match e with
                  | Some e => ret (Some (Some (wrap_err ("failed to update " +:+ rookNs +:+ "/" +:+ RookCephOperatorName
                                           +:+ " deployment with new rook image") e)))
                  | None => ret (Some (Some (new_err (operator_ref +:+ " rook image update is in progress"))))
                  end
                else if negb (IsDeploymentReady operator) then
                  ret (Some (Some (new_err (operator_ref +:+ " rook image update still is in progress"))))
                else
                  let* deployed := isCephDeployed rookNs in
                  if negb deployed then ret (Some None) else ensure_discover_image
            end
      end
  end.
End versions.

(** ** Which version of Ceph is deployed

    Version strings: what is accepted, and that supported versions are read back
    ([version_roundtrip]).  The image a round works with: never an older major release than
    that of any daemon, never more than one major release ahead of the lowest, and no change of
    version while an OpenStack on top is not ready for it ([version_step_safe]). *)

(** ** Version strings *)

(** A version Pelagia can work with. *)
Definition supported_version (v : CephVersion) : Prop :=
  ∃ release, release ∈ AvailableCephVersions ∧ ver_MinorVersion v ∈ ver_SupportedMinors release ∧
    v = mkVersion (ver_Name release) (ver_MajorVersion release) (ver_MinorVersion v) (ver_Order release) [].

Lemma parse_supported s v : ParseCephVersion s = inl v → supported_version v.
Proof.
  unfold ParseCephVersion. destruct (find_version s) as [[[d1 d2] d3]|]; [|done].
  destruct (Atoi d3) as [minor|]; [|done].
  destruct (find _ _) as [release|] eqn:Hf; [|done]. apply find_some in Hf as [Hin Hmajor%bool_decide_eq_true].
  destruct (Contains _ _) eqn:Hc; [|done]. intros [= <-]. exists release. simpl.
  split_and!; [by apply list_elem_of_In|by apply Contains_spec|by rewrite Hmajor].
Qed.

Fixpoint all_digits (s : string) : bool :=
  match s with EmptyString => true | String a s' => is_digit a && all_digits s' end.

Definition no_digit_first (s : string) : bool :=
  match s with EmptyString => true | String a _ => negb (is_digit a) end.

Lemma span_digits_app d s : all_digits d = true → no_digit_first s = true → span_digits (d +:+ s) = (d, s).
Proof.
  intros Hd Hs. induction d as [|a d IH].
  - change (EmptyString +:+ s) with s. destruct s as [|a s]; [done|]. simpl in *. by destruct (is_digit a).
  - change (String a d +:+ s) with (String a (d +:+ s)). simpl in *. apply andb_true_iff in Hd as [Ha Hd].
    by rewrite Ha, IH.
Qed.

Lemma match_number_app d s :
  d ≠ EmptyString → all_digits d = true → no_digit_first s = true → match_number (d +:+ s) = Some (d, s).
Proof. intros Hne Hd Hs. unfold match_number. rewrite span_digits_app by done. by destruct d. Qed.

Lemma match_version_app d1 d2 d3 rest :
  d1 ≠ EmptyString → d2 ≠ EmptyString → d3 ≠ EmptyString →
  all_digits d1 = true → all_digits d2 = true → all_digits d3 = true → no_digit_first rest = true →
  match_version (version_prefix +:+ (d1 +:+ String "." (d2 +:+ String "." (d3 +:+ rest)))) = Some (d1, d2, d3).
Proof.
  intros H1 H2 H3 D1 D2 D3 Hr. unfold match_version, match_number_dot.
  assert (Hp : ∀ s, HasPrefix (version_prefix +:+ s) version_prefix = true ∧
    CutPrefix (version_prefix +:+ s) version_prefix = s) by (intros s; by destruct s).
  destruct (Hp (d1 +:+ String "." (d2 +:+ String "." (d3 +:+ rest)))) as [-> ->].
  rewrite match_number_app by done. simpl. rewrite match_number_app by done. simpl. by rewrite match_number_app.
Qed.

Lemma find_version_match s m : match_version s = Some m → find_version s = Some m.
Proof. intros Hm. destruct s; cbn [find_version]; by rewrite Hm. Qed.

Lemma str_app_assoc (s1 s2 s3 : string) : (s1 +:+ s2) +:+ s3 = s1 +:+ (s2 +:+ s3).
Proof.
  induction s1 as [|a s1 IH]; [done|].
  change (String a ((s1 +:+ s2) +:+ s3) = String a (s1 +:+ (s2 +:+ s3))). by rewrite IH.
Qed.

(** A version number as it is printed is found whole. *)
Lemma version_found number d1 d2 d3 rest :
  number = d1 +:+ String "." (d2 +:+ String "." d3) →
  d1 ≠ EmptyString ∧ d2 ≠ EmptyString ∧ d3 ≠ EmptyString →
  all_digits d1 && all_digits d2 && all_digits d3 = true → no_digit_first rest = true →
  find_version (version_prefix +:+ number +:+ rest) = Some (d1, d2, d3).
Proof.
  intros -> (H1 & H2 & H3) [[D1 D2]%andb_true_iff D3]%andb_true_iff Hr. apply find_version_match.
  rewrite <-(match_version_app d1 d2 d3 rest) by done. f_equal. f_equal. rewrite str_app_assoc. f_equal.
  change (String "." ((d2 +:+ String "." d3) +:+ rest) = String "." (d2 +:+ String "." (d3 +:+ rest))).
  by rewrite str_app_assoc.
Qed.

(** Reading a version with concrete numbers. *)
Ltac parse_version major :=
  match goal with
  | |- context [CutPrefix ?n "v"] =>
      let number := eval vm_compute in (CutPrefix n "v") in change (CutPrefix n "v") with number
  end;
  match goal with
  | |- context [mkVersion _ _ ?m _ _] =>
      let d := eval vm_compute in (pretty m : string) in
      erewrite (version_found _ major "2" d) by (done || (vm_compute; reflexivity))
  end; vm_compute; reflexivity.

(** Every supported version is read back from the line Ceph prints for it, whatever follows
    the number (that it is not a digit). *)
Theorem version_roundtrip v rest :
  supported_version v → no_digit_first rest = true →
  ParseCephVersion (version_prefix +:+ CutPrefix (version_str v) "v" +:+ rest) = inl v.
Proof.
  intros (release & Hr & Hm & Hv) Hrest. unfold AvailableCephVersions in Hr. rewrite Hv. clear Hv. unfold ParseCephVersion.
  mem_inv Hr; subst release; simpl in Hm.
  - mem_inv Hm; rewrite Hm; parse_version "20".
  - mem_inv Hm; rewrite Hm; parse_version "19".
Qed.

Lemma version_roundtrip_witness :
  ParseCephVersion "ceph version 19.2.7 (1a2b3c) squid (stable)" = inl (mkVersion "Squid" "v19.2" 7 19 []).
Proof.
  apply (version_roundtrip (mkVersion "Squid" "v19.2" 7 19 []) " (1a2b3c) squid (stable)"); [|reflexivity].
  exists Squid. split_and!; [mem|simpl; mem|reflexivity].
Defined.

(** ** The version of the cluster *)

(** The lowest release of a list of versions, if all are supported. *)
Lemma cluster_version_lowest l strs lowest :
  foldl cluster_version_step (inl ([], None)) l = inl (strs, lowest) →
  (∀ s, s ∈ l → ∃ v, ParseCephVersion s = inl v ∧ ∃ low, lowest = Some low ∧ ver_Order low ≤ ver_Order v) ∧
  ∀ low, lowest = Some low → ∃ s, s ∈ l ∧ ParseCephVersion s = inl low.
Proof.
  revert strs lowest. induction l as [|s l IH] using rev_ind; intros strs lowest Hf.
  { simpl in Hf. injection Hf as <- <-. split; [by intros s ?%elem_of_nil|done]. }
  rewrite foldl_app in Hf. simpl in Hf.
  destruct (foldl cluster_version_step (inl ([], None)) l) as [[strs0 low0]|e]; [|done].
  simpl in Hf. destruct (ParseCephVersion s) as [v|] eqn:Hs; [|done]. injection Hf as <- <-.
  destruct (IH _ _ eq_refl) as [Hall Hsome]. split.
  - intros s' [Hs'| ->%list_elem_of_singleton]%elem_of_app.
    + destruct (Hall s' Hs') as (v' & Hv' & low & -> & Hle). exists v'. split; [done|].
      case_bool_decide; eexists; (split; [done|lia]).
    + exists v. split; [done|]. destruct low0 as [low|]; [case_bool_decide|]; eexists; (split; [done|lia]).
  - intros low Hlow. destruct low0 as [low0|]; [case_bool_decide|]; simplify_eq.
    + exists s. split; [apply elem_of_app; right; mem|done].
    + destruct (Hsome low eq_refl) as (s' & Hs' & Hp). exists s'. split; [apply elem_of_app; by left|done].
    + exists s. split; [apply elem_of_app; right; mem|done].
Qed.

Section decision.
Context `{World} `{HealthWorld} `{DeployWorld} `{MapRange}.
Variables (rookNs : string) (params : DeployParams) (dpl : CephDeployment) (h0 : history).

(** The daemons of the cluster were asked for their versions, all are supported, and [cur]
    is one with the lowest release. *)
Definition cluster_version_is (cur : CephVersion) (h : history) : Prop :=
  ∃ out stdErr overall,
    asked h0 (EvCeph rookNs "ceph versions --format json") (λ h, w_exec_ceph h rookNs "ceph versions --format json")
      (out, stdErr, None) h ∧
    json_CephVersions out = (overall, None) ∧
    (∃ s, is_Some (overall !! s) ∧ ParseCephVersion s = inl cur) ∧
    ∀ s, is_Some (overall !! s) → ∃ v, ParseCephVersion s = inl v ∧ ver_Order cur ≤ ver_Order v.

(** No version of a daemon is known: Ceph is not deployed, or no daemon reports one. *)
Definition version_unknown (h : history) : Prop :=
  passed h0 (isCephDeployed rookNs) false h ∨
  ∃ out stdErr,
    asked h0 (EvCeph rookNs "ceph versions --format json") (λ h, w_exec_ceph h rookNs "ceph versions --format json")
      (out, stdErr, None) h ∧
    json_CephVersions out = (∅, None).

(** The pod of the version check has answered with version [new]. *)
Definition image_version (new : CephVersion) (h : history) : Prop :=
  ∃ out stdErr,
    asked h0 (EvRead "Exec" (cdp_Namespace dpl) pelagiaVersionCheckDpl)
      (λ h, w_exec_version h (cdp_Namespace dpl) "ceph --version") (out, stdErr, None) h ∧
    ParseCephVersion out = inl new.

(** The release the operator of the controller has asked for. *)
Definition expected_release (new : CephVersion) : Prop :=
  ∃ expected, GetCephVersionByReleaseName (dp_CephRelease params) = inl expected ∧ ver_Name new = ver_Name expected.

(** There is no OpenStack on top, or it has finished its change to the release of the
    controller. *)
Definition openstack_ready (h : history) : Prop :=
  ∃ answer state release,
    asked h0 (EvRead "OpenStackDeploymentStatusList" "openstack" EmptyString) w_openstack_status answer h ∧
    openstack_state answer = inl (state, release) ∧
    (state = EmptyString ∧ release = EmptyString ∨
     state = "APPLIED" ∧ w_env controllerClusterReleaseVar = Some release).

(** What the change of the image of an existing cluster needs. *)
Definition change_allowed (cur new : CephVersion) (h : history) : Prop :=
  cluster_version_is cur h ∧ ver_Order cur ≤ ver_Order new ≤ ver_Order cur + 1 ∧
  (ver_Order new = ver_Order cur ∧ ver_MinorVersion new = ver_MinorVersion cur ∨ openstack_ready h).

(** The decision on the image, for the answer about the CephCluster. *)
Definition image_decision (vs : versions) (h : history) : Prop :=
  ∃ answer,
    asked h0 (EvClusterGet rookNs (cdp_Name dpl)) (λ h, w_rookcluster_get h rookNs (cdp_Name dpl)) answer h ∧
    match answer with
    | (cluster, None) =>
        vs_image vs = rkc_Image cluster ∨
        vs_image vs = dp_CephImage params ∧ ∃ new, image_version new h ∧ expected_release new ∧
          ((∃ cur, vs_version vs = Some cur ∧ change_allowed cur new h) ∨
           rkc_Image cluster = EmptyString ∧ vs_version vs = Some new ∧ version_unknown h)
    | (_, Some e) =>
        is_not_found e = true ∧ vs_image vs = dp_CephImage params ∧
        ∃ new, vs_version vs = Some new ∧ image_version new h ∧ expected_release new
    end.

Lemma cluster_version_lasting cur : lasting (cluster_version_is cur).
Proof. apply exists_lasting; intros out; apply exists_lasting; intros se; apply exists_lasting; intros o; auto with lasting. Qed.

Lemma version_unknown_lasting : lasting version_unknown.
Proof. apply or_lasting; [auto with lasting|]. apply exists_lasting; intros out; apply exists_lasting; intros se; auto with lasting. Qed.

Lemma image_version_lasting new : lasting (image_version new).
Proof. apply exists_lasting; intros out; apply exists_lasting; intros se; auto with lasting. Qed.

Lemma openstack_ready_lasting : lasting openstack_ready.
Proof. apply exists_lasting; intros a; apply exists_lasting; intros s; apply exists_lasting; intros r; auto with lasting. Qed.

(** ** The steps of the decision *)

Abbreviation any := (λ (_ : history) (_ : event), True).

Section steps.
Variable Pre : history → Prop.
Hypothesis Hlast : lasting Pre.
Hypothesis Hpre : ∀ h, Pre h → h0 `prefix_of` h.

Lemma exec_traced command node e f :
  traced any Pre (RunPodCmdAndCheckError command node (call e f)) (λ r h,
    (∀ out stdErr, r = (out, stdErr, None) → asked h0 e f (out, stdErr, None) h) ∧ Pre h).
Proof.
  eapply traced_bind; [by apply (traced_ask _ _ h0)|].
  intros [[out se] [e'|]]; apply traced_ret; intros h [Hask Hh]; (split; [|done]); [done|].
  by intros out' se' [= <- <-].
Qed.

Lemma getCephVersion_traced :
  traced any Pre (getCephVersion (cdp_Namespace dpl)) (λ r h,
    (∀ out, r = (out, None) → ∃ stdErr, asked h0 (EvRead "Exec" (cdp_Namespace dpl) pelagiaVersionCheckDpl)
       (λ h, w_exec_version h (cdp_Namespace dpl) "ceph --version") (out, stdErr, None) h) ∧ Pre h).
Proof.
  unfold getCephVersion. eapply traced_bind; [apply exec_traced|]. intros [[out se] e].
  apply traced_ret. intros h [Hask Hh]. split; [|done]. intros out' [= <- ->]. exists se. by apply Hask.
Qed.

Lemma image_traced image :
  traced any Pre (getCephVersionFromImage rookNs dpl image) (λ r h,
    (∀ new, r = inl new → image_version new h) ∧ Pre h).
Proof.
  unfold getCephVersionFromImage. eapply traced_bind; [by apply traced_any|].
  intros [e|]; [by apply traced_ret|]. eapply traced_bind; [apply getCephVersion_traced|].
  intros [out [e|]]; apply traced_ret; intros h [Hask Hh]; (split; [|done]); [done|].
  intros new Hnew. destruct (Hask out eq_refl) as [se Hse]. by exists out, se.
Qed.

Lemma cluster_traced :
  traced any Pre (getClusterCephVersion rookNs) (λ r h,
    (∀ current status, r = inl (current, status) →
       match current with Some cur => cluster_version_is cur h | None => version_unknown h end) ∧ Pre h).
Proof.
  unfold getClusterCephVersion, getCephVersions, RunAndParseCephToolboxCLI, RunCephToolboxCLI.
  apply (traced_bind _ _ _ _ (λ r h, (∀ overall, r = (overall, None) → ∃ out se,
    asked h0 (EvCeph rookNs "ceph versions --format json") (λ h, w_exec_ceph h rookNs "ceph versions --format json")
      (out, se, None) h ∧ json_CephVersions out = (overall, None)) ∧ Pre h)).
  - eapply traced_bind; [eapply traced_bind; [apply exec_traced|]|].
    + intros [[out se] [e|]]; apply (traced_ret _ _ _ (λ r h, (∀ out, r = (out, None) → ∃ se,
        asked h0 (EvCeph rookNs "ceph versions --format json") (λ h, w_exec_ceph h rookNs "ceph versions --format json")
          (out, se, None) h) ∧ Pre h)); intros h [Hask Hh]; (split; [|done]); [done|].
      intros out' [= <-]. exists se. by apply Hask.
    + intros [out [e|]]; [apply traced_ret; by intros h [_ Hh]|].
      destruct (json_CephVersions out) as [overall [e|]] eqn:Hjson; apply traced_ret; intros h [Hask Hh]; (split; [|done]); [done|].
      intros overall' [= <-]. destruct (Hask out eq_refl) as [se Hse]. by exists out, se.
  - intros [overall [e|]]; [apply traced_ret; by intros h [_ Hh]|].
    destruct (foldl _ _ _) as [[strs lowest]|e] eqn:Hf; apply traced_ret; intros h [Hask Hh]; (split; [|done]); [|done].
    intros current status [= -> _]. destruct (Hask overall eq_refl) as (out & se & Hse & Hjson).
    destruct (cluster_version_lowest _ _ _ Hf) as [Hall Hsome].
    assert (Hin : ∀ s, s ∈ (range 87 overall).*1 ↔ is_Some (overall !! s)).
    { intros s. rewrite list_elem_of_fmap. split.
      - intros ([s' n] & -> & Hs%elem_of_range). simpl. eauto.
      - intros [n Hn]. exists (s, n). by rewrite elem_of_range. }
    destruct current as [cur|].
    2: { right. exists out, se. split; [done|]. rewrite Hjson. f_equal. apply map_empty. intros s.
      destruct (overall !! s) eqn:Hs; [|done]. destruct (Hall s) as (v & _ & low & Hlow & _); [|done]. apply Hin. by eexists. }
    exists out, se, overall. split_and!; [done|done|..].
    + destruct (Hsome cur eq_refl) as (s & Hs%Hin & Hp). by exists s.
    + intros s Hs%Hin. destruct (Hall s Hs) as (v & Hv & low & [= <-] & Hle). by exists v.
Qed.

Lemma upgrade_traced :
  traced any Pre cephUpgradeAllowed (λ r h, (r = inl true → openstack_ready h) ∧ Pre h).
Proof.
  unfold cephUpgradeAllowed. destruct (w_env _) as [clusterRelease|] eqn:Henv; [|by apply traced_ret].
  eapply traced_bind; [eapply traced_bind; [by apply (traced_ask _ _ h0)|]|].
  { intros answer. apply (traced_ret _ _ _ (λ r h, (∃ answer, asked h0 (EvRead "OpenStackDeploymentStatusList" "openstack" EmptyString)
      w_openstack_status answer h ∧ openstack_state answer = r) ∧ Pre h)). intros h [Hask Hh]. split; [by exists answer|done]. }
  intros [[state release]|e]; [|apply traced_ret; by intros h [_ Hh]].
  destruct (decide (release = "" ∧ state = "")) as [[-> ->]|Hne].
  { apply traced_ret. intros h [(answer & Hask & Hst) Hh]. split; [|done]. intros _.
    exists answer, EmptyString, EmptyString. split_and!; [done|done|by left]. }
  destruct (decide (release = clusterRelease)) as [<-|]; apply traced_ret; intros h [(answer & Hask & Hst) Hh]; (split; [|done]); [|done].
  intros [= Happ%bool_decide_eq_true]. exists answer, state, release. split_and!; [done|done|by right].
Qed.
End steps.

(** Changing the image of a cluster whose version is [cur], or of a new one. *)
Lemma change_traced Pre currentImage current status :
  lasting Pre → (∀ h, Pre h → h0 `prefix_of` h) →
  (∀ cur h, current = Some cur → Pre h → cluster_version_is cur h) →
  traced any Pre (change_image rookNs params dpl currentImage current status) (λ r h,
    (∀ vs, r = inl vs →
       (vs_image vs = currentImage ∧ is_Some current) ∨
       vs_image vs = dp_CephImage params ∧ ∃ new, image_version new h ∧ expected_release new ∧
         match current with
         | Some cur => vs_version vs = Some cur ∧ change_allowed cur new h
         | None => vs_version vs = Some new
         end) ∧ Pre h).
Proof.
  intros Hlast Hpre Hcur. unfold change_image.
  destruct (GetCephVersionByReleaseName _) as [expected|e] eqn:Hrel; [|by apply traced_ret].
  eapply traced_bind; [by apply image_traced|]. intros [new|e]; [|apply traced_ret; by intros h [_ Hh]].
  destruct (bool_decide (ver_Name new = ver_Name expected)) eqn:Hname; simpl; [|apply traced_ret; by intros h [_ Hh]].
  apply bool_decide_eq_true in Hname. assert (Hexp : expected_release new) by (by exists expected).
  destruct current as [cur|].
  2: { apply traced_ret. intros h [Hnew Hh]. split; [|done]. intros vs [= <-]. right. split; [done|]. exists new. auto. }
  case_bool_decide as Hdown; [apply traced_ret; by intros h [_ Hh]|].
  case_bool_decide as Hstep; [apply traced_ret; by intros h [_ Hh]|].
  destruct (bool_decide (ver_Order new ≠ ver_Order cur) || _) eqn:Hdiff.
  - eapply traced_bind; [apply (upgrade_traced (λ h, (∀ new', inl new = inl new' → image_version new' h) ∧ Pre h))|].
    { intros h evs [Hnew Hh]. split; [|by apply Hlast]. intros new' Hnew'. by apply image_version_lasting, Hnew. }
    { intros h [_ Hh]. by apply Hpre. }
    intros [[|]|e]; apply traced_ret; intros h (Hos & Hnew & Hh); (split; [|done]); [| |done]; intros vs [= <-].
    + right. split; [done|]. exists new. unfold change_allowed. split_and!; [by apply Hnew|done|done|by apply Hcur|lia|lia|right; by apply Hos].
    + by left.
  - apply orb_false_iff in Hdiff as [Ho%bool_decide_eq_false Hm%bool_decide_eq_false].
    apply traced_ret. intros h [Hnew Hh]. split; [|done]. intros vs [= <-]. right. split; [done|]. exists new.
    unfold change_allowed. split_and!; [by apply Hnew|done|done|by apply Hcur|lia|lia|left].
    split; [destruct (decide (ver_Order new = ver_Order cur)); tauto|].
    destruct (decide (ver_MinorVersion new = ver_MinorVersion cur)); tauto.
Qed.

(** What the cluster says about itself. *)
Definition cluster_state (r : (string * option CephVersion * string) + err) (h : history) : Prop :=
  ∀ image current status, r = inl (image, current, status) →
    (∀ cur, current = Some cur → cluster_version_is cur h) ∧
    ∃ answer, asked h0 (EvClusterGet rookNs (cdp_Name dpl)) (λ h, w_rookcluster_get h rookNs (cdp_Name dpl)) answer h ∧
      match answer with
      | (cluster, None) => image = rkc_Image cluster ∧ (current = None → version_unknown h)
      | (_, Some e) => is_not_found e = true ∧ image = EmptyString ∧ current = None
      end.

Lemma current_traced :
  traced any (λ h, h0 `prefix_of` h) (current_versions rookNs dpl) (λ r h, cluster_state r h ∧ h0 `prefix_of` h).
Proof.
  unfold current_versions. eapply traced_bind; [apply (traced_ask _ _ h0); auto with lasting|].
  intros [cluster [e|]].
  { destruct (is_not_found e) eqn:He; apply traced_ret; intros h [Hask Hh]; (split; [|done]); [|done].
    intros image current status [= <- <- <-]. split; [done|]. by eexists. }
  set (Pre := λ h, asked h0 (EvClusterGet rookNs (cdp_Name dpl)) (λ h, w_rookcluster_get h rookNs (cdp_Name dpl)) (cluster, None) h ∧
    h0 `prefix_of` h).
  assert (Hlast : lasting Pre) by (apply and_lasting; auto with lasting).
  eapply traced_bind; [apply (traced_passed _ Pre (λ _, True) h0); [done|by intros h [_ Hh]|apply spec_triv|done]|]. intros [|].
  2: { apply traced_ret. intros h [Hrun [Hask Hh]]. split; [|done]. intros image current status [= <- <- <-]. split; [done|].
    eexists. split; [done|]. split; [done|]. intros _. by left. }
  eapply traced_bind; [eapply traced_weaken; [by apply (traced_any Pre)|by intros h [_ Hh]|intros x h Hh; exact Hh]|].
  intros [|]; [|apply traced_ret; by intros h [_ Hh]].
  eapply traced_bind; [by apply (cluster_traced Pre); [|by intros h [_ Hh]]|].
  intros [[version status]|e]; apply traced_ret; intros h (Hver & Hask & Hh); (split; [|done]); [|done].
  intros image current status' [= <- <- <-]. specialize (Hver _ _ eq_refl). split; [by intros cur ->|].
  eexists. split; [done|]. split; [done|]. by intros ->.
Qed.

Lemma cluster_state_lasting r : lasting (cluster_state r).
Proof.
  intros h evs Hr image current status Hres. destruct (Hr _ _ _ Hres) as (Hcur & answer & Hask & Hans).
  split; [intros cur ->; by apply cluster_version_lasting, Hcur|]. exists answer. split; [by apply asked_lasting|].
  destruct answer as [cluster [e|]]; [done|]. destruct Hans as [Hi Hu]. split; [done|]. intros Hn. by apply version_unknown_lasting, Hu.
Qed.

(** C16: The image a round decides to work with is the one the CephCluster has, or the one of
    the configuration; the latter only if the pod of the version check has answered with a
    version of the release the controller expects, and, for a cluster whose daemons report
    versions, only if the major release of that version is neither below the lowest major release
    among the daemons nor more than one ahead of it, and, when it differs in major release or
    minor number from the version the cluster counts as its own (one with that lowest release),
    OpenStack (if it is there) is applied and at the release of the controller. Minor numbers are
    compared for that difference only: an older minor of the same release is not refused. A
    cluster that is there but reports no version keeps its image; only if it has none at all the
    configured one is taken without the comparison. *)
Theorem version_step_safe vs :
  (verifyCephVersions rookNs params dpl h0).1 = inl vs →
  image_decision vs (h0 ++ (verifyCephVersions rookNs params dpl h0).2).
Proof.
  assert (Ht : traced any (λ h, h0 `prefix_of` h) (verifyCephVersions rookNs params dpl) (λ r h, ∀ vs, r = inl vs → image_decision vs h)).
  2: { intros Hvs. by apply (Ht h0). }
  unfold verifyCephVersions. destruct (decide _); [by apply traced_ret|].
  eapply traced_bind; [apply current_traced|]. intros [[[image current] status]|e]; [|by apply traced_ret].
  set (Pre := λ h, cluster_state (inl (image, current, status)) h ∧ h0 `prefix_of` h).
  assert (Hlast : lasting Pre) by (apply and_lasting; auto using cluster_state_lasting with lasting).
  assert (Hpre : ∀ h, Pre h → h0 `prefix_of` h) by (by intros h [_ Hh]).
  destruct (_ || _) eqn:Hcase.
  - eapply traced_weaken; [apply (change_traced Pre); [done|done|]|done|].
    { intros cur h -> [Hst _]. by apply (proj1 (Hst _ _ _ eq_refl)). }
    intros r h (Hr & Hst & Hh) vs' ->. destruct (Hst _ _ _ eq_refl) as (Hcur & answer & Hask & Hans).
    exists answer. split; [done|]. destruct answer as [cluster [e|]].
    + destruct Hans as (He & -> & ->). split; [done|].
      destruct (Hr vs' eq_refl) as [[_ []]|(Himg & new & Hnew & Hexp & Hv)]; [done|]. split; [done|]. by exists new.
    + destruct Hans as [-> Hunknown]. destruct (Hr vs' eq_refl) as [[Himg _]|(Himg & new & Hnew & Hexp & Hv)]; [by left|]. right.
      split; [done|]. exists new. split_and!; [done|done|]. destruct current as [cur|]; [left; by exists cur|right].
      simpl in Hcase. apply bool_decide_eq_true in Hcase. auto.
  - apply orb_false_iff in Hcase as [_ Hne%bool_decide_eq_false].
    assert (Hkeep : ∀ vs' h, vs_image vs' = image → Pre h → image_decision vs' h).
    { intros vs' h Himg [Hst Hh]. destruct (Hst _ _ _ eq_refl) as (Hcur & answer & Hask & Hans). exists answer. split; [done|].
      destruct answer as [cluster [e|]]; [by destruct Hans as (_ & -> & _)|]. left. destruct Hans as [-> _]. congruence. }
    destruct current as [cur|].
    + eapply traced_bind; [by apply (traced_any Pre)|]. intros r. apply traced_ret. intros h Hh vs' [= <-]. by apply Hkeep.
    + eapply traced_bind; [by apply (traced_any Pre)|]. intros [new|e]; apply traced_ret; [|done].
      intros h Hh vs' [= <-]. by apply Hkeep.
Qed.
End decision.
