(* ===== verification/NetworkPolicies.v ===== *)
(** * Network policies

    pkg/controller/deployment/netpol.go: a policy for every kind of daemon that accepts
    connections, with the ports it listens on. *)

From S2P Require Import Prelude GoTime Types HealthTypes DeployTypes World HealthWorld Extensions Validate CleanupJob DeployWorld Resources.
Open Scope Z_scope.

Definition rookNetworkPolicyLabel : string := "cephdeployment.lcm.mirantis.com/networkpolicy".

(** One port, or the ports from the first to the last. *)
Abbreviation policy_port := (Z * option Z)%type.
Definition daemon_ports : policy_port := (6800, Some 7300).

Section policies.
Context `{World} `{HealthWorld} `{DeployWorld} `{SpecDecoder} `{ResourceWorld} `{MapRange}.
Variables (rookNs : string) (params : DeployParams).

Definition rgw_ports (rgw : DplObjectStore) : list policy_port :=
  let spec := (CephObjectStore_GetSpec rgw).1 in
  (if decide (ost_Port spec = 0) then [] else [(ost_Port spec, None)]) ++
  (if decide (ost_SecurePort spec = 0) then [] else [(ost_SecurePort spec, None)]).

Definition getPortsForPolicies (c : deployConfig) : gmap string (list policy_port) :=
  let spec := cdp_Spec (dc_cephDpl c) in
  {["rook-ceph-mgr" := [(9283, None); daemon_ports];
    "rook-ceph-mon" := [(3300, None); (6789, None)];
    "rook-ceph-osd" := [daemon_ports];
    "rook-ceph-rgw" := match dsp_ObjectStorage spec with Some storage => cos_Rgws storage ≫= rgw_ports | None => [] end;
    "rook-ceph-mds" := match dsp_SharedFilesystem spec with Some (_ :: _) => [daemon_ports] | _ => [] end]}.

Definition generateNetworkPolicy (name namespace appName : string) (ports : list policy_port) : NetworkPolicy :=
  mkNetworkPolicy name namespace (Some (ExtendLabels {[rookNetworkPolicyLabel := "managed"]} baseResourceLabels))
    (mkNetworkPolicySpec ports appName EmptyString).

Definition manageNetworkPolicy (policy : NetworkPolicy) : IO (bool * option err) :=
  let obj := "'" +:+ rookNs +:+ "/" +:+ npo_Name policy +:+ "' networkpolicy" in
  let* r := read "NetworkPolicy" rookNs (npo_Name policy) (λ h, w_netpol_get h rookNs (npo_Name policy)) in
  match r with
  | (_, Some netPolErr) =>
      if is_not_found netPolErr then
        let* e := apply_resource objectCreate (RNetworkPolicy policy) in
        match e with
        | Some e => ret (false, Some (wrap_err ("failed to create " +:+ obj) e))
        | None => ret (true, None)
        end
      else ret (false, Some (wrap_err ("failed to check " +:+ obj) netPolErr))
  | (netPol, None) =>
      let '(labels, changedBaseLabels) := AlignBaseLabels (npo_Labels netPol) (default ∅ (npo_Labels policy)) in
      let changedSpec := negb (bool_decide (npo_Spec netPol = npo_Spec policy)) in
      if changedSpec || changedBaseLabels then
        let new := set_npo_Spec (npo_Spec policy) (set_npo_Labels (Some labels) netPol) in
        let* e := apply_resource objectUpdate (RNetworkPolicy new) in
        match e with
        | Some e => ret (false, Some (wrap_err ("failed to update " +:+ obj) e))
        | None => ret (true, None)
        end
      else ret (false, None)
  end.

(** Whether a policy was there and is removed now. *)
Definition deleteNetworkPolicy (policyName : string) : IO (bool * option err) :=
  let* e := call (EvDelete "NetworkPolicy" rookNs policyName) (λ h, w_object_delete h "NetworkPolicy" rookNs policyName) in
  match e with
  | None => ret (true, None)
  | Some e =>
      if is_not_found e then ret (false, None)
      else ret (false, Some (wrap_err ("failed to remove rgw network policy " +:+ rookNs +:+ "/" +:+ policyName) e))
  end.

Definition cleanup_step (acc : bool * bool) (policy : string) : IO (bool * bool) :=
  let* r := deleteNetworkPolicy policy in
  ret ((acc.1 && negb r.1)%bool, (acc.2 || bool_decide (is_Some r.2))%bool).

Definition cleanupNetworkPolicy : IO (bool * option err) :=
  let* r := read "NetworkPolicyList" rookNs rookNetworkPolicyLabel (λ h, w_netpol_list h rookNs) in
  match r with
  | (_, Some e) => ret (false, Some e)
  | (policies, None) =>
      let* acc := foldM cleanup_step policies (true, false) in
      if (acc.2 : bool) then ret (false, Some (new_err "networkpolicies remove failed")) else ret (acc.1, None)
  end.

(** One policy: managed if it has ports, removed otherwise. *)
Definition policy_step (portsMap : gmap string (list policy_port)) (acc : bool * bool) (app : string) : IO (bool * bool) :=
  let policyName := app +:+ "-policy" in
  let* r :=
    match default [] (portsMap !! app) with
    | [] => deleteNetworkPolicy policyName
    | ports => manageNetworkPolicy (generateNetworkPolicy policyName rookNs app ports)
    end in
  ret ((acc.1 || r.1)%bool, (acc.2 || bool_decide (is_Some r.2))%bool).

Definition ensureNetworkPolicy (c : deployConfig) : IO (bool * option err) :=
  if dp_NetPolEnabled params then
    let portsMap := getPortsForPolicies c in
    let* acc := foldM (policy_step portsMap) (SortStrings (range 101 portsMap).*1) (false, false) in
    if (acc.2 : bool) then ret (false, Some (new_err "failed to manage network policies")) else ret (acc.1, None)
  else
    let* r := cleanupNetworkPolicy in
    match r with
    | (_, Some _) => ret (false, Some (new_err "failed to clean up network policies"))
    | (removed, None) => ret (negb removed, None)
    end.
End policies.
