(* ===== verification/CephConfig.v ===== *)
(** * The configuration of Ceph

    pkg/controller/deployment/ceph_config.go.  Options come from the controller and from the
    section [rookConfig] of the spec, which may override them unless they are static.  Most end
    up in the config map [rook-config-override], in sections, and daemons are restarted when
    the hash of their section changes; passwords and what concerns OSDs or the cluster log is
    set at run time.

    A Go map that is updated in a loop is a fold over its visiting order. *)

From Stdlib Require Import Ascii.
From S2P Require Import Prelude GoTime Types HealthTypes DeployTypes World HealthWorld Extensions Validate Config DeployWorld Resources Versions.
Open Scope Z_scope.

(** ** Options *)

Record configOption := mkOption {
  co_confFile : bool;
  co_static : bool;
  co_key : string;
  co_value : string;
  co_section : string;
  co_availableFrom : option CephVersion;
  co_availableTo : option CephVersion;
}.

Definition option_of (section key value : string) : configOption := mkOption false false key value section None None.
Definition static_option (section key value : string) : configOption := mkOption false true key value section None None.
Definition file_option (section key value : string) : configOption := mkOption true false key value section None None.

Definition sectionDelimiter : ascii := "|"%char.

Definition exceptionParams : gmap string string := {["rgw_thread_pool_size" := "256"]}.

Definition generalConfigOptions : list configOption :=
  [option_of "global" "mon_target_pg_per_osd" "100";
   option_of "global" "mon_max_pg_per_osd" "300";
   option_of "mon" "mon_warn_on_insecure_global_id_reclaim" "false";
   option_of "mon" "mon_warn_on_insecure_global_id_reclaim_allowed" "false";
   file_option "osd" "osd_class_dir" "/usr/lib64/rados-classes";
   option_of "osd" "bdev_enable_discard" "true";
   option_of "osd" "bdev_async_discard_threads" "1"].

Definition defaultRgwConfigOptions (rgwSectionName : string) : list configOption :=
  [option_of rgwSectionName "rgw_data_log_backing" "omap";
   option_of rgwSectionName "rgw_max_attr_name_len" "64";
   option_of rgwSectionName "rgw_max_attrs_num_in_req" "32";
   option_of rgwSectionName "rgw_max_attr_size" "1024";
   option_of rgwSectionName "rgw_bucket_quota_ttl" "30";
   option_of rgwSectionName "rgw_user_quota_bucket_sync_interval" "30";
   option_of rgwSectionName "rgw_user_quota_sync_interval" "30";
   option_of rgwSectionName "rgw_trust_forwarded_https" "true";
   option_of rgwSectionName "rgw_thread_pool_size" (default EmptyString (exceptionParams !! "rgw_thread_pool_size"))].

(** The value of a key in a Go map of strings. *)
Definition value_of (m : gmap string string) (k : string) : string := default EmptyString (m !! k).

Definition getDefaultRgwKeystoneConfig (rgwSectionName : string) (keystoneSecret : gmap string string) : list configOption :=
  [static_option rgwSectionName "rgw_keystone_api_version" "3";
   option_of rgwSectionName "rgw_keystone_url" (value_of keystoneSecret "auth_url");
   option_of rgwSectionName "rgw_keystone_admin_user" (value_of keystoneSecret "username");
   option_of rgwSectionName "rgw_keystone_admin_password" (value_of keystoneSecret "password");
   option_of rgwSectionName "rgw_keystone_admin_domain" (value_of keystoneSecret "project_domain_name");
   option_of rgwSectionName "rgw_keystone_admin_project" (value_of keystoneSecret "project_name")].

Definition getDefaultRgwBarbicanConfig (rgwSectionName : string) (keystoneSecret : gmap string string) : list configOption :=
  [static_option rgwSectionName "rgw_crypt_s3_kms_backend" "barbican";
   option_of rgwSectionName "rgw_barbican_url" (value_of keystoneSecret "barbican_url");
   option_of rgwSectionName "rgw_keystone_barbican_user" (value_of keystoneSecret "username");
   option_of rgwSectionName "rgw_keystone_barbican_password" (value_of keystoneSecret "password");
   option_of rgwSectionName "rgw_keystone_barbican_domain" (value_of keystoneSecret "project_domain_name");
   option_of rgwSectionName "rgw_keystone_barbican_project" (value_of keystoneSecret "project_name")].

Definition getDefaultRgwOpenStackConfig (rgwSectionName : string) : list configOption :=
  [option_of rgwSectionName "rgw_swift_account_in_url" "true";
   option_of rgwSectionName "rgw_keystone_accepted_roles" "'_member_, Member, member, swiftoperator'";
   option_of rgwSectionName "rgw_keystone_accepted_admin_roles" "'admin, service'";
   option_of rgwSectionName "rgw_keystone_implicit_tenants" "true";
   option_of rgwSectionName "rgw_swift_versioning_enabled" "true";
   option_of rgwSectionName "rgw_enforce_swift_acls" "true";
   option_of rgwSectionName "rgw_s3_auth_use_keystone" "true";
   option_of rgwSectionName "rgw_enable_usage_log" "true";
   option_of rgwSectionName "rgw_usage_log_tick_interval" "30";
   option_of rgwSectionName "rgw_usage_log_flush_threshold" "1024";
   option_of rgwSectionName "rgw_usage_max_shards" "32";
   option_of rgwSectionName "rgw_usage_max_user_shards" "1"].

Definition passwordKeys : list string := ["rgw_keystone_admin_password"; "rgw_keystone_barbican_password"].
Definition runtimeKeys : list string := passwordKeys.

(** ** Keys with sections *)

Definition getSectionAndKey (inputKey : string) : string * string :=
  match Split inputKey sectionDelimiter with
  | keySection :: key :: _ => (keySection, key)
  | _ => (EmptyString, inputKey)
  end.

Definition getFullKeyWithSection (section key : string) : string := section +:+ "|" +:+ key.

Definition noSpaceHyphen (rawKey : string) : string := ReplaceAll (ReplaceAll rawKey " " "_") "-" "_".

Definition isParamForRuntime (section key : string) : bool :=
  Contains runtimeKeys key || HasPrefix key "osd" || HasPrefix key "clog" || HasPrefix section "osd".

(** ** The target configuration *)

(** Sections with their options. *)
Abbreviation sections := (gmap string (gmap string string)).

Definition put_option (section key value : string) (m : sections) : sections :=
  <[section := <[key := value]> (default ∅ (m !! section))]> m.

Section target.
Context `{MapRange}.

(** An option that the version of the cluster does not have.  No option of this file is bound
    to versions, so that the version is not looked at when it is not known. *)
Definition skipped_by_version (currentCephVersion : CephVersion) (paramOpt : configOption) : bool :=
  match co_availableTo paramOpt with
  | Some v => negb (CephVersionGreaterOrEqual v currentCephVersion)
  | None => false
  end ||
  match co_availableFrom paramOpt with
  | Some v => negb (CephVersionGreaterOrEqual currentCephVersion v)
  | None => false
  end.

(** Options for the config map and at run time. *)
Definition default_step (currentCephVersion : CephVersion) (acc : sections * gmap string string) (entry : string * configOption)
    : sections * gmap string string :=
  let '(param, paramOpt) := entry in
  if skipped_by_version currentCephVersion paramOpt then acc
  else if negb (co_static paramOpt) && negb (co_confFile paramOpt) && isParamForRuntime (co_section paramOpt) (co_key paramOpt)
  then (acc.1, <[param := co_value paramOpt]> acc.2)
  else (put_option (co_section paramOpt) (co_key paramOpt) (co_value paramOpt) acc.1, acc.2).

(** The section of an option of the spec that has none: that of some default with this key. *)
Definition found_section (baseConfig : gmap string configOption) (key : string) : string :=
  match list_find (λ entry, co_key entry.2 = key) (range 94 baseConfig) with
  | Some (_, (_, opt)) => co_section opt
  | None => "global"
  end.

Definition spec_key (baseConfig : gmap string configOption) (param : string) : string * string :=
  let '(keySection, rawKey) := getSectionAndKey param in
  let key := noSpaceHyphen rawKey in
  (if decide (keySection = EmptyString) then found_section baseConfig key else keySection, key).

(** The limit of [rgw_thread_pool_size]. *)
Definition restricted_value (key value : string) : string :=
  match exceptionParams !! key with
  | Some exceptionDefaultValue =>
      if decide (key = "rgw_thread_pool_size") then
        match Atoi value with
        | None => exceptionDefaultValue
        | Some size => if decide (256 < size) then exceptionDefaultValue else value
        end
      else value
  | None => value
  end.

Definition override_step (baseConfig : gmap string configOption) (acc : sections * gmap string string) (entry : string * string)
    : sections * gmap string string :=
  let '(param, value) := entry in
  let '(keySection, key) := spec_key baseConfig param in
  let static :=
    match baseConfig !! getFullKeyWithSection keySection key with
    | Some baseOpt => bool_decide (co_section baseOpt = keySection) && co_static baseOpt
    | None => false
    end in
  if (static : bool) then acc
  else
    let value := restricted_value key value in
    if isParamForRuntime keySection key then (acc.1, <[getFullKeyWithSection keySection key := value]> acc.2)
    else (put_option keySection key value acc.1, acc.2).

Definition getTargetConfigAndRuntime (currentCephVersion : CephVersion) (rookConfigFromSpec : gmap string string)
    (baseConfig : gmap string configOption) : sections * gmap string string :=
  foldl (override_step baseConfig)
    (foldl (default_step currentCephVersion) (∅, ∅) (range 95 baseConfig))
    (range 96 rookConfigFromSpec).
End target.

(** ** The text of the config map *)

Fixpoint remove_first (x : string) (l : list string) : list string :=
  match l with
  | [] => []
  | y :: l' => if decide (y = x) then l' else y :: remove_first x l'
  end.

Definition reorder_step (acc : list string * list string) (priorityKey : string) : list string * list string :=
  let '(newKeys, keys) := acc in
  if decide (priorityKey ∈ keys) then (newKeys ++ [priorityKey], remove_first priorityKey keys) else (newKeys, keys).

Definition reorderKeys (keys priorityKeys : list string) : list string :=
  let '(newKeys, keys) := foldl reorder_step ([], keys) priorityKeys in newKeys ++ keys.

(** The group of daemons whose restart depends on a section. *)
Definition hash_section (section : string) : option string :=
  if decide (section = "global") then Some "global"
  else if HasPrefix section "mon" then Some "mon"
  else if HasPrefix section "mgr" then Some "mgr"
  else if HasPrefix section "mds" then Some section
  else if HasPrefix section "client.rgw" then Some section
  else None.

Definition option_line (key value : string) : string := key +:+ " = " +:+ value +:+ newline.

Section text.
Context `{MapRange} `{ResourceWorld}.

Definition SortedMapKeys {A} (m : gmap string A) : list string := SortStrings (range 97 m).*1.

(** The keys of a section in the order of the text. *)
Definition section_keys (section : string) (sectionOpts : gmap string string) : list string :=
  if decide (section = "global") then reorderKeys (SortedMapKeys sectionOpts) ["cluster_network"; "public_network"]
  else SortedMapKeys sectionOpts.

Definition section_step (cephConfigMap : sections) (acc : string * gmap string string) (section : string)
    : string * gmap string string :=
  let sectionOpts := default ∅ (cephConfigMap !! section) in
  let head := (if decide (section = "global") then EmptyString else newline) +:+ "[" +:+ section +:+ "]" +:+ newline in
  foldl (λ '(text, hashes) key,
           let s := option_line key (value_of sectionOpts key) in
           (text +:+ s,
            match hash_section section with
            | Some group => <[group := value_of hashes group +:+ s]> hashes
            | None => hashes
            end))
    (acc.1 +:+ head, acc.2) (section_keys section sectionOpts).

Definition sections_text (cephConfigMap : sections) : string * gmap string string :=
  foldl (section_step cephConfigMap) (EmptyString, ∅)
    (reorderKeys (SortedMapKeys cephConfigMap) ["global"; "mon"; "mgr"]).

Definition getCephOverrideConfigStringAndHashes (cephConfigMap : sections) : string * gmap string string :=
  let '(text, hashes) := sections_text cephConfigMap in (text, GetStringSha256 <$> hashes).
End text.

(** ** Building the configuration *)

(** What the sources call of package rook: lists of networks as text, and the annotations of
    daemons. *)
Class RookLib := {
  CIDRList_String : list string → string;
  GetMonAnnotations : gmap string (gmap string string) → gmap string string;
  GetMgrAnnotations : gmap string (gmap string string) → gmap string string;
  Annotations_Merge : gmap string string → gmap string string → gmap string string;
  Placement_All : gmap string Placement → Placement;
}.

Definition openstackRgwCredsName : string := "openstack-rgw-creds".
Definition rookConfigOverrideName : string := "rook-config-override".
Definition cephConfigMapUpdateTimestampLabel : string := "cephdeployment.lcm.mirantis.com/config-generated".
Definition cephRuntimeRgwParametersUpdateTimestampLabel : string := "cephdeployment.lcm.mirantis.com/runtime-rgw-params-updated".
Definition cephRuntimeOsdParametersUpdateTimestampLabel : string := "cephdeployment.lcm.mirantis.com/runtime-osd-params-updated".
Definition cephConfigSectionHashLabel (section : string) : string :=
  "cephdeployment.lcm.mirantis.com/config-" +:+ section +:+ "-hash".

Definition rgwConfigSectionName (rgwName : string) : string := "client.rgw." +:+ ReplaceAll rgwName "-" "." +:+ ".a".

Definition checkOpenstackNamespaceSetForRgw (rgw ns : string) : option err :=
  if decide (ns = EmptyString) then
    Some (new_err ("CephRGW object storage '" +:+ rgw +:+ "' has specified for Openstack usage, but Pelagia lcmconfig has no var 'DEPLOYMENT_OPENSTACK_CEPH_SHARED_NAMESPACE' set"))
  else None.

Definition getIngressTLS (cephDpl : CephDeployment) : option CephDeploymentIngressTLSConfig :=
  dsp_IngressConfig (cdp_Spec cephDpl) ≫= icf_TLSConfig.

Definition mergeConfig (baseCephConfig : gmap string configOption) (options : list configOption) : gmap string configOption :=
  foldl (λ m opt, <[getFullKeyWithSection (co_section opt) (co_key opt) := opt]> m) baseCephConfig options.

Section ensure.
Context `{World} `{HealthWorld} `{DeployWorld} `{SpecDecoder} `{ResourceWorld} `{RookLib} `{MapRange}.
Variables (rookNs : string) (params : DeployParams).

(** What OpenStack adds for a store: DNS names and options, from its credentials. *)
Definition openstack_options (ingressTLS : option CephDeploymentIngressTLSConfig) (rgwStore : DplObjectStore)
    (acc : list string * gmap string configOption) : IO ((list string * gmap string configOption) + err) :=
  match checkOpenstackNamespaceSetForRgw (dos_Name rgwStore) (dp_OpenstackCephSharedNamespace params) with
  | Some e => ret (inr e)
  | None =>
      let* r := data_get "Secret" (dp_OpenstackCephSharedNamespace params) openstackRgwCredsName in
      match r with
      | (_, Some e) => ret (if is_not_found e then inl acc else inr e)
      | (openstackSecrets, None) =>
          let secretConfig := dob_Data openstackSecrets in
          let rgwSectionName := rgwConfigSectionName (dos_Name rgwStore) in
          let names :=
            match secretConfig !! "public_domain", ingressTLS with
            | Some domain, None => acc.1 ++ [dos_Name rgwStore +:+ "." +:+ domain]
            | _, _ => acc.1
            end in
          let base := mergeConfig acc.2 (getDefaultRgwOpenStackConfig rgwSectionName) in
          let base := mergeConfig base (getDefaultRgwKeystoneConfig rgwSectionName secretConfig) in
          let base :=
            if bool_decide (is_Some (secretConfig !! "barbican_url"))
            then mergeConfig base (getDefaultRgwBarbicanConfig rgwSectionName secretConfig) else base in
          ret (inl (names, base))
      end
  end.

Definition gateway_options (c : deployConfig) (baseCephConfig : gmap string configOption) (rgwStore : DplObjectStore)
    : IO (gmap string configOption + err) :=
  let rgwSectionName := rgwConfigSectionName (dos_Name rgwStore) in
  let base := mergeConfig baseCephConfig (defaultRgwConfigOptions rgwSectionName) in
  let names := ["rook-ceph-rgw-" +:+ dos_Name rgwStore +:+ "." +:+ rookNs +:+ ".svc"] in
  let* r :=
    if dos_ServedByIngress rgwStore || dos_UsedForOpenstack rgwStore then
      let ingressTLS := getIngressTLS (dc_cephDpl c) in
      let names :=
        match ingressTLS with
        | Some tls =>
            if cp_KeepIngress (dc_commonParams c) then
              names ++ [(if decide (itc_Hostname tls = EmptyString) then dos_Name rgwStore else itc_Hostname tls) +:+ "." +:+ itc_Domain tls]
            else names
        | None => names
        end in
      if dos_UsedForOpenstack rgwStore then openstack_options ingressTLS rgwStore (names, base) else ret (inl (names, base))
    else ret (inl (names, base)) in
  match r with
  | inr e => ret (inr e)
  | inl (names, base) =>
      let rgwCasted := (CephObjectStore_GetSpec rgwStore).1 in
      ret (inl (if negb (ost_Hosting rgwCasted) && negb (bool_decide (ost_SecurePort rgwCasted = 0))
                then mergeConfig base [option_of rgwSectionName "rgw_dns_name" (Join names ",")] else base))
  end.

Fixpoint rgws_options (c : deployConfig) (rgws : list DplObjectStore) (base : gmap string configOption)
    : IO (gmap string configOption + err) :=
  match rgws with
  | [] => ret (inl base)
  | rgwStore :: rgws' =>
      let* r := gateway_options c base rgwStore in
      match r with
      | inl base => rgws_options c rgws' base
      | inr e => ret (inr e)
      end
  end.

(** The network options; an error without address ranges. *)
Definition network_options (network : NetworkSpec) : list configOption + err :=
  if bool_decide (ns_Provider network = EmptyString) || bool_decide (ns_Provider network = "host") then
    match ns_AddressRanges network with
    | None => inr (new_err "network ranges for public and cluster are not provided")
    | Some (public, cluster) =>
        inl [static_option "global" "cluster_network" (CIDRList_String cluster);
             static_option "global" "public_network" (CIDRList_String public)]
    end
  else inl [].

(** A version that is not known has no name. *)
Definition zero_CephVersion : CephVersion := mkVersion EmptyString EmptyString 0 0 [].

(** The options of the controller; then text, run-time options and hashes. *)
Definition base_config (c : deployConfig) (clusterSpec : ClusterSpec) : IO (gmap string configOption + err) :=
  match network_options (csp_Network clusterSpec) with
  | inr e => ret (inr e)
  | inl options =>
      let base := mergeConfig (mergeConfig ∅ options) generalConfigOptions in
      match dsp_ObjectStorage (cdp_Spec (dc_cephDpl c)) with
      | Some storage => rgws_options c (cos_Rgws storage) base
      | None => ret (inl base)
      end
  end.

Definition buildCephConfig (c : deployConfig) (clusterSpec : ClusterSpec)
    : IO (string * gmap string string * gmap string string + err) :=
  let* r := base_config c clusterSpec in
  match r with
  | inr e => ret (inr e)
  | inl base =>
      let '(configMap, runtimeParams) :=
        getTargetConfigAndRuntime (default zero_CephVersion (dc_currentCephVersion c)) (dsp_RookConfig (cdp_Spec (dc_cephDpl c))) base in
      let '(text, hashes) := getCephOverrideConfigStringAndHashes configMap in
      ret (inl (text, runtimeParams, hashes))
  end.

(** ** Options at run time *)

Definition getCephConfigDump : IO (list (string * string * string) * option err) :=
  let* r := RunAndParseCephToolboxCLI [] json_ConfigDump rookNs "ceph config dump --format json" in
  match r with
  | (_, Some e) => ret ([], Some e)
  | _ => ret r
  end.

(** The value Ceph has for an option; the empty string without one. *)
Definition dumped_value (configDump : list (string * string * string)) (section key : string) : string :=
  match list_find (λ '(s, k, _), k = key ∧ s = section) configDump with
  | Some (_, (_, _, value)) => value
  | None => EmptyString
  end.

Definition runtime_command (section key value : string) : string :=
  if decide (value = EmptyString) then "ceph config rm " +:+ section +:+ " " +:+ key
  else "ceph config set " +:+ section +:+ " " +:+ key +:+ " " +:+ value.

(** The time of the change of an option is remembered. *)
Definition runtime_stamp (section key : string) : IO unit :=
  if HasPrefix section "client.rgw" then
    let* now := GetCurrentTimeString in
    let* stamps := get_stamps in put_stamps (set_ut_rgwRuntimeParams now stamps)
  else if HasPrefix section "osd" || HasPrefix key "osd" then
    let* now := GetCurrentTimeString in
    let* stamps := get_stamps in put_stamps (set_ut_osdRuntimeParams now stamps)
  else ret tt.

Fixpoint runtime_loop (configDump : list (string * string * string)) (entries : list (string * string)) (runtimeUpdated : bool)
    : IO (bool * option err) :=
  match entries with
  | [] => ret (runtimeUpdated, None)
  | (sectionKey, value) :: entries' =>
      let '(section, key) := getSectionAndKey sectionKey in
      if decide (dumped_value configDump section key = value) then runtime_loop configDump entries' runtimeUpdated
      else
        let* r := RunCephToolboxCLI rookNs (runtime_command section key value) in
        match r with
        | (_, Some e) => ret (false, Some (wrap_err ("failed to update '" +:+ key +:+ "' parameter") e))
        | (_, None) => runtime_stamp section key ;;; runtime_loop configDump entries' true
        end
  end.

Definition updateRuntimeParameters (runtimeConfig : gmap string string) : IO (bool * option err) :=
  if decide (runtimeConfig = ∅) then ret (false, None)
  else
    let* r := getCephConfigDump in
    match r with
    | (_, Some e) => ret (false, Some e)
    | (configDump, None) => runtime_loop configDump (range 98 runtimeConfig) false
    end.

(** ** The config map *)

(** Run-time options as they are shown; passwords are not. *)
Definition runtime_text (runtimeConfig : gmap string string) : string :=
  foldr (λ k s,
           (if Contains passwordKeys (getSectionAndKey k).2 then k +:+ " = *" +:+ newline else option_line k (value_of runtimeConfig k)) +:+ s)
    EmptyString (SortedMapKeys runtimeConfig).

Definition new_config_map (cephOverrideConfig : string) (runtimeConfig configHashes : gmap string string) (currentGenTime : string)
    : DataObject :=
  mkDataObject rookConfigOverrideName rookNs (Some baseResourceLabels)
    (foldl (λ annotations '(section, hash),
              <[cephConfigParametersUpdateTimestampLabel section := currentGenTime]> (<[cephConfigSectionHashLabel section := hash]> annotations))
       {[cephConfigMapUpdateTimestampLabel := currentGenTime]} (range 99 configHashes))
    [] {["config" := cephOverrideConfig; "runtime" := runtime_text runtimeConfig]}.

(** Options that were set at run time earlier are to be unset. *)
Definition dropped_runtime (current : string) (runtimeConfig : gmap string string) : gmap string string :=
  foldl (λ m line,
           let curKey := TrimSpace (hd EmptyString (Split line "="%char)) in
           match m !! curKey with Some _ => m | None => <[curKey := EmptyString]> m end)
    runtimeConfig (Split current "010"%char).

Definition pickTimestamp (currentGenTime timestamp : string) : string :=
  if decide (timestamp = EmptyString) then currentGenTime else timestamp.

(** The annotations of a section and the time of its last change. *)
Definition section_annotations (currentGenTime : string) (current : gmap string string)
    (acc : gmap string string * gmap string string) (entry : string * string) : gmap string string * gmap string string :=
  let '(newAnnotations, actualTimestamps) := acc in
  let '(section, hash) := entry in
  let hashLabel := cephConfigSectionHashLabel section in
  let timestampLabel := cephConfigParametersUpdateTimestampLabel section in
  if decide (hash = value_of current hashLabel) then
    let timestamp := pickTimestamp currentGenTime (value_of current timestampLabel) in
    (<[timestampLabel := timestamp]> (<[hashLabel := pickTimestamp currentGenTime (value_of current hashLabel)]> newAnnotations),
     <[section := timestamp]> actualTimestamps)
  else
    (<[timestampLabel := currentGenTime]> (<[hashLabel := hash]> newAnnotations), <[section := currentGenTime]> actualTimestamps).

(** A time of run-time changes: the one remembered, or the one of the config map after a
    restart of the controller. *)
Definition restored (remembered previous : string) : string :=
  if decide (remembered = EmptyString) then previous else remembered.

Definition with_runtime (label stamp : string) (annotations : gmap string string) : gmap string string :=
  if decide (stamp = EmptyString) then annotations else <[label := stamp]> annotations.

Definition create_config_map (newRookCm : DataObject) (configHashes : gmap string string) (currentGenTime : string) : IO (bool * option err) :=
  let* e := apply_resource objectCreate (RConfigMap newRookCm) in
  match e with
  | Some e => ret (false, Some e)
  | None =>
      let* stamps := get_stamps in
      put_stamps (set_ut_cephConfigMap ((const currentGenTime <$> configHashes) ∪ ut_cephConfigMap stamps) stamps) ;;;
      ret (true, None)
  end.

(** The config map that is there is brought up to date. *)
Definition update_config_map (currentRookCm newRookCm : DataObject) (configHashes : gmap string string) (currentGenTime : string)
    (stateChanged : bool) : IO (bool * option err) :=
  let current := dob_Annotations currentRookCm in
  let '(newAnnotations, actualTimestamps) :=
    foldl (section_annotations currentGenTime current)
      ({[cephConfigMapUpdateTimestampLabel := pickTimestamp currentGenTime (value_of current cephConfigMapUpdateTimestampLabel)]}, ∅)
      (range 100 configHashes) in
  let* stamps := get_stamps in
  let stamps :=
    set_ut_osdRuntimeParams (restored (ut_osdRuntimeParams stamps) (value_of current cephRuntimeOsdParametersUpdateTimestampLabel))
      (set_ut_rgwRuntimeParams (restored (ut_rgwRuntimeParams stamps) (value_of current cephRuntimeRgwParametersUpdateTimestampLabel)) stamps) in
  put_stamps stamps ;;;
  let newAnnotations :=
    with_runtime cephRuntimeOsdParametersUpdateTimestampLabel (ut_osdRuntimeParams stamps)
      (with_runtime cephRuntimeRgwParametersUpdateTimestampLabel (ut_rgwRuntimeParams stamps) newAnnotations) in
  let configMapUpdated := negb (bool_decide (dob_Data currentRookCm = dob_Data newRookCm)) in
  let annotationsUpdated := negb (bool_decide (current = newAnnotations)) in
  let '(labels, labelsUpdated) := AlignBaseLabels (dob_Labels currentRookCm) baseResourceLabels in
  let done := put_stamps (set_ut_cephConfigMap actualTimestamps stamps) in
  if configMapUpdated || annotationsUpdated || labelsUpdated then
    let newAnnotations :=
      if configMapUpdated
      then <[cephConfigMapUpdateTimestampLabel := value_of (dob_Annotations newRookCm) cephConfigMapUpdateTimestampLabel]> newAnnotations
      else newAnnotations in
    let cm := set_dob_Labels (Some labels) currentRookCm in
    let cm := if configMapUpdated then set_dob_Data (dob_Data newRookCm) cm else cm in
    let cm := if annotationsUpdated then set_dob_Annotations newAnnotations cm else cm in
    let* e := apply_resource objectUpdate (RConfigMap cm) in
    match e with
    | Some e => ret (false, Some e)
    | None => done ;;; ret (true, None)
    end
  else done ;;; ret (stateChanged, None).

Definition ensureCephConfig (c : deployConfig) (clusterSpec : ClusterSpec) (cephClusterPresent : bool) : IO (bool * option err) :=
  let* r := buildCephConfig c clusterSpec in
  match r with
  | inr e => ret (false, Some (wrap_err "failed to prepare ceph config map" e))
  | inl (cephOverrideConfig, runtimeConfig, configHashes) =>
      let* currentGenTime := GetCurrentTimeString in
      let newRookCm := new_config_map cephOverrideConfig runtimeConfig configHashes currentGenTime in
      let* r := data_get "ConfigMap" rookNs rookConfigOverrideName in
      match r with
      | (_, Some e) =>
          if is_not_found e then create_config_map newRookCm configHashes currentGenTime else ret (false, Some e)
      | (currentRookCm, None) =>
          let* r :=
            if cephClusterPresent then
              let current := value_of (dob_Data currentRookCm) "runtime" in
              updateRuntimeParameters
                (if decide (value_of (dob_Data newRookCm) "runtime" = current) then runtimeConfig
                 else dropped_runtime current runtimeConfig)
            else ret (false, None) in
          match r with
          | (_, Some e) => ret (false, Some e)
          | (stateChanged, None) => update_config_map currentRookCm newRookCm configHashes currentGenTime stateChanged
          end
      end
  end.
End ensure.
