(* ===== verification/CephConfigFacts.v ===== *)
(** * The configuration of Ceph: what ends up where

    The target configuration option by option ([target_exact]), the limit of the thread pool
    ([thread_pool_bounded]), passwords ([passwords_hidden]), restarts ([restart_exact]) and the
    commands at run time ([runtime_exact]). *)

From Stdlib Require Import Ascii.
From S2P Require Import Prelude GoTime Types HealthTypes DeployTypes World HealthWorld Extensions Validate Config Trace DeployWorld Resources Versions CephConfig.
Open Scope Z_scope.

(** ** Folds that write *)

Section writes.
Context {E S V : Type} (step : S → E → S) (look : S → option V) (w : E → option V).

Lemma foldl_writes l s :
  (∀ s e, e ∈ l → look (step s e) = match w e with Some v => Some v | None => look s end) →
  look (foldl step s l) = match last (omap w l) with Some v => Some v | None => look s end.
Proof.
  revert s. induction l as [|e l IH]; intros s Hstep; [done|]. simpl.
  rewrite IH by (intros s' e' He'; apply Hstep; by right). rewrite (Hstep s e) by left.
  destruct (w e) as [v|]; [|done]. rewrite last_cons. change (list_omap E V w l) with (omap w l). by destruct (last (omap w l)).
Qed.

Lemma last_write l e v :
  e ∈ l → w e = Some v → (∀ e' v', e' ∈ l → w e' = Some v' → v' = v) → last (omap w l) = Some v.
Proof.
  intros He Hw Hu. assert (Hin : v ∈ omap w l) by (apply list_elem_of_omap; by exists e).
  assert (Hall : ∀ v', v' ∈ omap w l → v' = v).
  { intros v' (e' & He' & Hw')%list_elem_of_omap. by apply (Hu e'). }
  destruct (omap w l) as [|v0 l0] eqn:Ho using rev_ind; [by apply elem_of_nil in Hin|].
  rewrite last_snoc. f_equal. apply Hall, elem_of_app. right. by left.
Qed.

Lemma last_no_write l : (∀ e, e ∈ l → w e = None) → last (omap w l) = None.
Proof.
  intros Hn. assert (Ho : omap w l = []); [|by rewrite Ho].
  destruct (omap w l) as [|v l'] eqn:Ho; [done|]. assert (Hin : v ∈ omap w l) by (rewrite Ho; left).
  apply list_elem_of_omap in Hin as (e & He & Hw). by rewrite Hn in Hw.
Qed.
End writes.

(** ** Keys *)

Definition bar_free (s : string) : Prop := "|"%char ∉ String.list_ascii_of_string s.
#[global] Instance bar_free_dec s : Decision (bar_free s).
Proof. unfold bar_free. apply _. Defined.

Lemma list_app s t : String.list_ascii_of_string (s +:+ t) = String.list_ascii_of_string s ++ String.list_ascii_of_string t.
Proof. induction s as [|a s IH]; [done|]. simpl. by rewrite IH. Qed.

Lemma list_inj s t : String.list_ascii_of_string s = String.list_ascii_of_string t → s = t.
Proof. intros Heq. by rewrite <-(String.string_of_list_ascii_of_string s), Heq, String.string_of_list_ascii_of_string. Qed.

Lemma full_inj s k s' k' : bar_free s → bar_free s' → getFullKeyWithSection s k = getFullKeyWithSection s' k' → s = s' ∧ k = k'.
Proof.
  unfold bar_free, getFullKeyWithSection. revert s'. induction s as [|a s IH]; intros [|a' s'] Hs Hs' Heq; simpl in *.
  - by injection Heq.
  - injection Heq as <- _. by destruct Hs'; left.
  - injection Heq as -> _. by destruct Hs; left.
  - injection Heq as <- Heq. destruct (IH s') as [-> ->]; [by intros ?; apply Hs; right|by intros ?; apply Hs'; right|done|done].
Qed.

Lemma split_free s : match Split s "|"%char with s0 :: _ => bar_free s0 | [] => False end.
Proof.
  induction s as [|a s IH]; simpl; [apply not_elem_of_nil|]. case_decide as Ha; [apply not_elem_of_nil|].
  destruct (Split s _) as [|w ws]; [done|]. unfold bar_free in *. simpl. apply not_elem_of_cons. by split.
Qed.

Lemma section_free param : bar_free (getSectionAndKey param).1.
Proof.
  unfold getSectionAndKey. pose proof (split_free param) as Hs. unfold sectionDelimiter.
  destruct (Split param _) as [|s0 [|k ws]]; [done|apply not_elem_of_nil|done].
Qed.

(** ** The target *)

Definition option_at (m : sections) (section key : string) : option string := m !! section ≫= (.!! key).

Lemma option_at_put s k v m s' k' :
  option_at (put_option s k v m) s' k' = if decide (s = s' ∧ k = k') then Some v else option_at m s' k'.
Proof.
  unfold option_at, put_option. destruct (decide (s = s')) as [->|Hs].
  - rewrite lookup_insert_eq. simpl. destruct (decide (k = k')) as [->|Hk].
    + rewrite lookup_insert_eq. by rewrite decide_True.
    + rewrite lookup_insert_ne by done. rewrite decide_False by tauto. by destruct (m !! s').
  - rewrite lookup_insert_ne by done. by rewrite decide_False by tauto.
Qed.

(** Options under their full keys, in sections that can be told from keys. *)
Definition well_keyed (base : gmap string configOption) : Prop :=
  map_Forall (λ k o, k = getFullKeyWithSection (co_section o) (co_key o) ∧ bar_free (co_section o)) base.

Lemma merge_keyed base options :
  well_keyed base → Forall (λ o, bar_free (co_section o)) options → well_keyed (mergeConfig base options).
Proof.
  unfold mergeConfig. revert base. induction options as [|o options IH]; intros base Hb Ho; [done|]. apply Forall_cons in Ho as [Ho Hos].
  simpl. apply IH; [|done]. by apply map_Forall_insert_2.
Qed.

(** An option for which the controller does not accept another value. *)
Definition fixed (base : gmap string configOption) (s k : string) : bool :=
  match base !! getFullKeyWithSection s k with
  | Some o => bool_decide (co_section o = s) && co_static o
  | None => false
  end.

(** The value of the controller, in the config map or at run time. *)
Definition at_runtime (o : configOption) : bool := negb (co_static o) && negb (co_confFile o) && isParamForRuntime (co_section o) (co_key o).
Definition default_value (version : CephVersion) (base : gmap string configOption) (runtime : bool) (s k : string) : option string :=
  match base !! getFullKeyWithSection s k with
  | Some o => if bool_decide (co_section o = s) && negb (skipped_by_version version o) && Bool.eqb (at_runtime o) runtime then Some (co_value o) else None
  | None => None
  end.

(** The value of an option, in the config map or at run time. *)
Definition configured (runtime : bool) (target : sections * gmap string string) (s k : string) : option string :=
  if runtime then target.2 !! getFullKeyWithSection s k else option_at target.1 s k.

Lemma full_cancel s k k' : getFullKeyWithSection s k = getFullKeyWithSection s k' → k = k'.
Proof. unfold getFullKeyWithSection. induction s as [|a s IH]; simpl; intros Heq; injection Heq as Heq; auto. Qed.

Section target.
Context `{MapRange}.
Variables (version : CephVersion) (base : gmap string configOption) (spec : gmap string string).
Hypothesis Hbase : well_keyed base.

(** The value the spec asks for. *)
Definition asks (s k v : string) : Prop := ∃ param, spec !! param = Some v ∧ spec_key base param = (s, k).
Definition unambiguous : Prop := ∀ s k v v', asks s k v → asks s k v' → v = v'.

Lemma spec_key_free param : bar_free (spec_key base param).1.
Proof.
  unfold spec_key. pose proof (section_free param) as Hs. destruct (getSectionAndKey param) as [s k]. simpl in *.
  case_decide; [|done]. unfold found_section. destruct (list_find _ _) as [[i [p o]]|] eqn:Hf; [|by vm_compute; set_solver].
  apply list_find_Some in Hf as (Hl & _ & _). apply list_elem_of_lookup_2 in Hl. apply elem_of_range in Hl. by apply Hbase in Hl as [_ ?].
Qed.

(** What a default writes. *)
Definition default_write (runtime : bool) (s k : string) (entry : string * configOption) : option string :=
  let o := entry.2 in
  if bool_decide (co_section o = s ∧ co_key o = k) && negb (skipped_by_version version o) && Bool.eqb (at_runtime o) runtime
  then Some (co_value o) else None.

Lemma default_look runtime s k acc param o :
  bar_free s → base !! param = Some o →
  configured runtime (default_step version acc (param, o)) s k =
  match default_write runtime s k (param, o) with Some v => Some v | None => configured runtime acc s k end.
Proof.
  intros Hs Hp. destruct (Hbase _ _ Hp) as [-> Ho]. unfold default_write, default_step. simpl. fold (at_runtime o).
  destruct (skipped_by_version version o); simpl; [by rewrite andb_false_r|]. rewrite andb_true_r.
  destruct (bool_decide_reflect (co_section o = s ∧ co_key o = k)) as [[<- <-]|Hne], (at_runtime o), runtime; simpl; try done.
  - by rewrite lookup_insert_eq.
  - by rewrite option_at_put, decide_True.
  - rewrite lookup_insert_ne; [done|]. intros Heq. apply Hne. by apply full_inj.
  - by rewrite option_at_put, decide_False.
Qed.

Lemma defaults_exact runtime s k :
  bar_free s → configured runtime (foldl (default_step version) (∅, ∅) (range 95 base)) s k = default_value version base runtime s k.
Proof.
  intros Hs. rewrite (foldl_writes _ (λ acc, configured runtime acc s k) (default_write runtime s k)).
  2: { intros acc [param o] Hin%elem_of_range. by apply default_look. }
  assert (Hempty : configured runtime (∅, ∅) s k = None) by (destruct runtime; [apply lookup_empty|done]). rewrite Hempty.
  unfold default_value. destruct (base !! getFullKeyWithSection s k) as [o|] eqn:Hb.
  - pose proof (Hbase _ _ Hb) as [Hfull Ho]. apply full_inj in Hfull as [-> ->]; [|done|done].
    assert (Hu : ∀ e, e ∈ range 95 base → co_section e.2 = co_section o ∧ co_key e.2 = co_key o → e.2 = o).
    { intros [p o'] Hin%elem_of_range [Hs' Hk']. simpl in *. destruct (Hbase _ _ Hin) as [-> _]. rewrite Hs', Hk', Hb in Hin. by injection Hin. }
    rewrite bool_decide_eq_true_2 by done. simpl.
    destruct (negb _ && Bool.eqb _ _) eqn:Hc.
    + rewrite (last_write _ _ (getFullKeyWithSection (co_section o) (co_key o), o) (co_value o)); [done|by apply elem_of_range| |].
      * unfold default_write. simpl. rewrite bool_decide_eq_true_2 by done. simpl. by rewrite Hc.
      * intros e v He. unfold default_write. destruct (bool_decide_reflect (co_section e.2 = co_section o ∧ co_key e.2 = co_key o)) as [Hsk|]; [|done].
        rewrite (Hu e He Hsk). simpl. rewrite Hc. by intros [= <-].
    + rewrite last_no_write; [done|]. intros e He. unfold default_write.
      destruct (bool_decide_reflect (co_section e.2 = co_section o ∧ co_key e.2 = co_key o)) as [Hsk|]; [|done].
      rewrite (Hu e He Hsk). simpl. by rewrite Hc.
  - rewrite last_no_write; [done|]. intros [p o] Hin%elem_of_range. unfold default_write. simpl.
    rewrite bool_decide_eq_false_2; [done|]. intros [<- <-]. destruct (Hbase _ _ Hin) as [-> _]. by rewrite Hb in Hin.
Qed.

(** What an entry of the spec writes. *)
Definition override_write (runtime : bool) (s k : string) (entry : string * string) : option string :=
  if bool_decide (spec_key base entry.1 = (s, k)) && negb (fixed base s k) && Bool.eqb (isParamForRuntime s k) runtime
  then Some (restricted_value k entry.2) else None.

Lemma override_look runtime s k acc entry :
  bar_free s →
  configured runtime (override_step base acc entry) s k =
  match override_write runtime s k entry with Some v => Some v | None => configured runtime acc s k end.
Proof.
  intros Hs. destruct entry as [param v]. unfold override_step, override_write. simpl.
  pose proof (spec_key_free param) as Hfree. destruct (spec_key base param) as [s' k'] eqn:Hk. simpl in Hfree. fold (fixed base s' k').
  destruct (bool_decide_reflect ((s', k') = (s, k))) as [[= -> ->]|Hne]; simpl.
  - destruct (fixed base s k); simpl; [done|]. destruct (isParamForRuntime s k), runtime; simpl; try done.
    + by rewrite lookup_insert_eq.
    + by rewrite option_at_put, decide_True.
  - destruct (fixed base s' k'); [done|]. destruct (isParamForRuntime s' k'), runtime; simpl; try done.
    + rewrite lookup_insert_ne; [done|]. intros Heq. apply full_inj in Heq as [-> ->]; done.
    + rewrite option_at_put, decide_False; [done|]. by intros [-> ->].
Qed.

(** C11: Every option has the value the spec asks for, within the limits, unless it is one the
    controller does not give up: at run time if it concerns OSDs, the cluster log or a password,
    and in the config map otherwise; and every other option has the value of the controller,
    provided the spec does not ask for two values of one option. *)
Theorem target_exact s k :
  bar_free s → unambiguous →
  let target := getTargetConfigAndRuntime version spec base in
  (∀ v, asks s k v → fixed base s k = false → configured (isParamForRuntime s k) target s k = Some (restricted_value k v)) ∧
  (∀ runtime, fixed base s k = true ∨ isParamForRuntime s k ≠ runtime ∨ (∀ v, ¬ asks s k v) →
     configured runtime target s k = default_value version base runtime s k).
Proof.
  intros Hs Hu target. unfold target, getTargetConfigAndRuntime.
  assert (Hlook : ∀ runtime, configured runtime (foldl (override_step base) (foldl (default_step version) (∅, ∅) (range 95 base)) (range 96 spec)) s k =
    match last (omap (override_write runtime s k) (range 96 spec)) with Some v => Some v | None => default_value version base runtime s k end).
  { intros runtime. rewrite (foldl_writes _ (λ acc, configured runtime acc s k) (override_write runtime s k)).
    - by rewrite defaults_exact.
    - intros acc e _. by apply override_look. }
  split.
  - intros v (param & Hp & Hk) Hf. rewrite Hlook. rewrite (last_write _ _ (param, v) (restricted_value k v)); [done|by apply elem_of_range| |].
    + unfold override_write. simpl. by rewrite (bool_decide_eq_true_2 _ Hk), Hf, eqb_reflx.
    + intros [p' v'] w' Hin%elem_of_range. unfold override_write. simpl. destruct (bool_decide_reflect (spec_key base p' = (s, k))) as [Hk'|]; [|done].
      simpl. rewrite Hf, eqb_reflx. intros [= <-]. f_equal. by apply (Hu s k); [exists p'|exists param].
  - intros runtime Hcase. rewrite Hlook, last_no_write; [done|]. intros [p v] Hin%elem_of_range. unfold override_write. simpl.
    destruct (bool_decide_reflect (spec_key base p = (s, k))) as [Hk|]; [|done].
    destruct Hcase as [->|[Hr|Hno]]; [done| |destruct (Hno v); by exists p].
    rewrite (proj2 (eqb_false_iff _ _) Hr). by rewrite andb_false_r.
Qed.
End target.

(** ** Options of the controller *)

Definition within_limit (v : string) : Prop := ∃ n, Atoi v = Some n ∧ n ≤ 256.

(** Passwords are not bound to the config map, and the size of thread pools is limited. *)
Definition good_option (o : configOption) : Prop :=
  (co_key o ∈ passwordKeys → co_static o = false ∧ co_confFile o = false) ∧
  (co_key o = "rgw_thread_pool_size" → within_limit (co_value o)).
Definition good_base (base : gmap string configOption) : Prop := map_Forall (λ _, good_option) base.

Lemma merge_good base options : good_base base → Forall good_option options → good_base (mergeConfig base options).
Proof.
  unfold mergeConfig. revert base. induction options as [|o options IH]; intros base Hb Ho; [done|]. apply Forall_cons in Ho as [Ho Hos].
  simpl. apply IH; [|done]. by apply map_Forall_insert_2.
Qed.

Lemma conditional_good (b : bool) base options :
  good_base base → Forall good_option options → good_base (if b then mergeConfig base options else base).
Proof. intros Hb Ho. destruct b; [by apply merge_good|exact Hb]. Qed.

Ltac good_options :=
  repeat (apply Forall_cons; split); try apply Forall_nil; try done;
  (split; [first [by intros _|intros Hin; mem_inv Hin; discriminate Hin]|first [discriminate|intros _; by exists 256]]).

Lemma general_good : Forall good_option generalConfigOptions.
Proof. unfold generalConfigOptions. good_options. Qed.
Lemma rgw_good section : Forall good_option (defaultRgwConfigOptions section).
Proof. unfold defaultRgwConfigOptions. good_options. Qed.
Lemma keystone_good section secret : Forall good_option (getDefaultRgwKeystoneConfig section secret).
Proof. unfold getDefaultRgwKeystoneConfig. good_options. Qed.
Lemma barbican_good section secret : Forall good_option (getDefaultRgwBarbicanConfig section secret).
Proof. unfold getDefaultRgwBarbicanConfig. good_options. Qed.
Lemma openstack_good section : Forall good_option (getDefaultRgwOpenStackConfig section).
Proof. unfold getDefaultRgwOpenStackConfig. good_options. Qed.

(** ** What the config map never holds *)

Definition no_password (file : sections) : Prop := ∀ s k, k ∈ passwordKeys → option_at file s k = None.
Definition pools_limited (file : sections) : Prop := ∀ s v, option_at file s "rgw_thread_pool_size" = Some v → within_limit v.
Definition fine_file (file : sections) : Prop := no_password file ∧ pools_limited file.

Lemma put_fine s k v file :
  k ∉ passwordKeys → (k = "rgw_thread_pool_size" → within_limit v) → fine_file file → fine_file (put_option s k v file).
Proof.
  intros Hk Hv [Hn Hp]. split.
  - intros s' k' Hin. rewrite option_at_put, decide_False; [by apply Hn|]. by intros [_ ->].
  - intros s' v'. rewrite option_at_put. case_decide as Hd; [|apply Hp]. intros [= <-]. by apply Hv, Hd.
Qed.

Lemma runtime_password s k : k ∈ passwordKeys → isParamForRuntime s k = true.
Proof. intros Hin. unfold isParamForRuntime. by rewrite (proj2 (Contains_spec _ _) Hin). Qed.

Lemma restricted_limit v : within_limit (restricted_value "rgw_thread_pool_size" v).
Proof.
  unfold restricted_value. change (exceptionParams !! "rgw_thread_pool_size") with (Some "256"). cbv beta iota. rewrite decide_True by done. destruct (Atoi v) as [n|] eqn:Hn; [|by exists 256].
  case_decide; [by exists 256|]. exists n. split; [done|lia].
Qed.

Lemma target_fine `{MapRange} version base spec : good_base base → fine_file (getTargetConfigAndRuntime version spec base).1.
Proof.
  intros Hb. unfold getTargetConfigAndRuntime.
  assert (Hfold : ∀ {E} (step : sections * gmap string string → E → sections * gmap string string) l acc,
    (∀ acc e, e ∈ l → fine_file acc.1 → fine_file (step acc e).1) → fine_file acc.1 → fine_file (foldl step acc l).1).
  { intros E step l. induction l as [|e l IH]; intros acc Hstep Hacc; [done|]. simpl. apply IH; [intros; apply Hstep; [by right|done]|].
    apply Hstep; [left|done]. }
  apply Hfold; [|apply Hfold].
  - intros acc [param v] _ Hacc. unfold override_step. destruct (spec_key base param) as [s k]. destruct (match _ with Some _ => _ | None => _ end); [done|].
    destruct (isParamForRuntime s k) eqn:Hr; [done|]. simpl. apply put_fine; [|intros ->; apply restricted_limit|done].
    intros Hin%(runtime_password s). by rewrite Hr in Hin.
  - intros acc [param o] Hin%elem_of_range Hacc. destruct (Hb _ _ Hin) as [Hpw Hlim]. unfold default_step.
    destruct (skipped_by_version version o); [done|]. destruct (_ && _) eqn:Hr; [done|]. simpl. apply put_fine; [|done|done].
    intros Hk. destruct (Hpw Hk) as [Hst Hcf]. rewrite Hst, Hcf, (runtime_password _ _ Hk) in Hr. done.
  - split; [done|]. intros s v. by unfold option_at.
Qed.

(** ** The run *)

Section run.
Context `{World} `{HealthWorld} `{DeployWorld} `{SpecDecoder} `{ResourceWorld} `{RookLib} `{MapRange}.
Variables (rookNs : string) (params : DeployParams).

(** Keys that are shown in the same way. *)
Definition shown_alike (runtime runtime' : gmap string string) : Prop :=
  dom runtime = dom runtime' ∧
  ∀ k, (getSectionAndKey k).2 ∉ passwordKeys → value_of runtime k = value_of runtime' k.

Lemma sorted_keys {A} (m m' : gmap string A) : dom m = dom m' → SortedMapKeys m = SortedMapKeys m'.
Proof.
  intros Hd. unfold SortedMapKeys, SortStrings. apply (Sorted_unique String.le); [apply Sorted_merge_sort; apply _|apply Sorted_merge_sort; apply _|].
  rewrite !merge_sort_Permutation. apply NoDup_Permutation; [apply NoDup_range_keys|apply NoDup_range_keys|]. intros k.
  assert (Hk : ∀ m0 : gmap string A, k ∈ (range 97 m0).*1 ↔ k ∈ dom m0).
  { intros m0. rewrite list_elem_of_fmap, elem_of_dom. split.
    - intros ([k' v] & -> & Hin%elem_of_range). by exists v.
    - intros [v Hv]. exists (k, v). split; [done|by apply elem_of_range]. }
  by rewrite !Hk, Hd.
Qed.

Lemma shown_text runtime runtime' : shown_alike runtime runtime' → runtime_text runtime = runtime_text runtime'.
Proof.
  intros [Hd Hv]. unfold runtime_text. rewrite (sorted_keys _ _ Hd). apply foldr_ext; [|done|done]. intros k s.
  destruct (Contains passwordKeys (getSectionAndKey k).2) eqn:Hc; [done|].
  rewrite (Hv k); [done|]. intros Hin%Contains_spec. by rewrite Hc in Hin.
Qed.

(** The data of a config map that shows no password. *)
Definition hidden_data (data : gmap string string) : Prop :=
  ∃ file runtime, data = {["config" := (sections_text file).1; "runtime" := runtime_text runtime]} ∧ fine_file file.

Definition config_write (e : event) : Prop :=
  match e with
  | EvApply _ (RConfigMap cm) => hidden_data (dob_Data cm)
  | EvApply _ _ => False
  | _ => True
  end.

Create HintDb config_events.
Ltac cv_step :=
  match goal with
  | |- spec _ (mret' _) _ => by apply spec_ret
  | |- spec _ (call _ _) _ => by apply spec_call
  | |- spec _ (read _ _ _ _) _ => by apply spec_call
  | |- spec _ get_stamps _ => by intros ?; split
  | |- spec _ (mbind' _ _) _ => apply spec_bind_any; [|intros ?]
  | |- spec _ (let '(_, _) := ?x in _) _ => destruct x
  | |- spec _ (match ?x with _ => _ end) _ => destruct x
  | |- spec _ (if ?x then _ else _) _ => destruct x
  | |- spec _ _ _ => first [assumption|solve [eauto with config_events]]
  end.
Ltac cv := repeat cv_step.
Abbreviation writes m := (spec config_write m (λ _, True)).

Lemma command_writes ns cmd : writes (RunCephToolboxCLI ns cmd).
Proof. unfold RunCephToolboxCLI, RunPodCmdAndCheckError. cv. Qed.
Hint Resolve command_writes : config_events.

Lemma runtime_writes dump entries b : writes (runtime_loop rookNs dump entries b).
Proof.
  revert b. induction entries as [|[k v] entries IH]; intros b; simpl; [by apply spec_ret|].
  unfold runtime_stamp, GetCurrentTimeString, put_stamps. cv; apply IH.
Qed.
Hint Resolve runtime_writes : config_events.

Abbreviation built m := (spec config_write m (λ r, ∀ base, r = inl base → good_base base)).

Lemma openstack_built tls rgw names base :
  good_base base → spec config_write (openstack_options params tls rgw (names, base)) (λ r, ∀ a, r = inl a → good_base a.2).
Proof.
  intros Hb. unfold openstack_options. destruct (checkOpenstackNamespaceSetForRgw _ _); [by apply spec_ret|].
  apply spec_bind_any; [by apply spec_call|]. intros [secret [e|]]; apply spec_ret.
  - destruct (is_not_found e); [by intros a [= <-]|done].
  - intros a Ha. apply inl_inj in Ha as <-. cbn [snd]. apply conditional_good; [|apply barbican_good].
    apply merge_good; [|apply keystone_good]. apply merge_good; [exact Hb|apply openstack_good].
Qed.

Lemma rgw_built c base rgw : good_base base → built (gateway_options rookNs params c base rgw).
Proof.
  intros Hb. unfold gateway_options. assert (Hb' := merge_good _ _ Hb (rgw_good (rgwConfigSectionName (dos_Name rgw)))).
  apply (spec_bind _ _ _ (λ r, ∀ a, r = inl a → good_base a.2)).
  - destruct (_ || _); [|by apply spec_ret; intros a [= <-]]. destruct (dos_UsedForOpenstack rgw); [by apply openstack_built|by apply spec_ret; intros a [= <-]].
  - intros [[names base']|e] Ha; [|by apply spec_ret]. apply spec_ret. intros a Hr. apply inl_inj in Hr as <-.
    apply conditional_good; [exact (Ha _ eq_refl)|]. good_options.
Qed.

Lemma rgws_built c rgws base : good_base base → built (rgws_options rookNs params c rgws base).
Proof.
  revert base. induction rgws as [|rgw rgws IH]; intros base Hb; simpl; [apply spec_ret; by intros a [= <-]|].
  eapply spec_bind; [by apply rgw_built|]. intros [base'|e] Ha; [by apply IH, Ha|by apply spec_ret].
Qed.

Lemma base_built c cs : built (base_config rookNs params c cs).
Proof.
  unfold base_config. destruct (network_options _) as [options|e] eqn:Hn; [|by apply spec_ret].
  assert (Hb : good_base (mergeConfig (mergeConfig ∅ options) generalConfigOptions)).
  { apply merge_good; [|apply general_good]. apply merge_good; [apply map_Forall_empty|]. revert Hn. unfold network_options.
    destruct (_ || _); [|by intros [= <-]]. destruct (ns_AddressRanges _) as [[public cluster]|]; [|done]. intros [= <-]. good_options. }
  destruct (dsp_ObjectStorage _); [by apply rgws_built|]. apply spec_ret. by intros a [= <-].
Qed.

Lemma config_built c cs :
  spec config_write (buildCephConfig rookNs params c cs)
    (λ r, ∀ text runtime hashes, r = inl (text, runtime, hashes) → ∃ file, text = (sections_text file).1 ∧ fine_file file).
Proof.
  unfold buildCephConfig. eapply spec_bind; [apply base_built|]. intros [base|e] Hb; [|by apply spec_ret].
  pose proof (target_fine (default zero_CephVersion (dc_currentCephVersion c)) base (dsp_RookConfig (cdp_Spec (dc_cephDpl c))) (Hb _ eq_refl)) as Hfine.
  destruct (getTargetConfigAndRuntime _ _ _) as [file runtime]. unfold getCephOverrideConfigStringAndHashes.
  destruct (sections_text file) as [text hashes] eqn:Ht. apply spec_ret. intros t r hs [= <- <- <-]. exists file. by rewrite Ht.
Qed.

Lemma written_data (current cm : DataObject) (b : bool) labels annotations :
  let changed := negb (bool_decide (dob_Data current = dob_Data cm)) in
  let cm' := set_dob_Labels labels current in
  let cm' := if changed then set_dob_Data (dob_Data cm) cm' else cm' in
  dob_Data (if b then set_dob_Annotations annotations cm' else cm') = dob_Data cm.
Proof. simpl. destruct (bool_decide_reflect (dob_Data current = dob_Data cm)), b; done. Qed.

Lemma config_writes c cs present : writes (ensureCephConfig rookNs params c cs present).
Proof.
  unfold ensureCephConfig. eapply spec_bind; [apply config_built|]. intros [[[text runtime] hashes]|e] Hr; [|by apply spec_ret].
  destruct (Hr _ _ _ eq_refl) as (file & -> & Hfine). apply spec_bind_any; [by apply spec_call|]. intros now.
  set (cm := new_config_map _ _ _ _ _). assert (Hcm : hidden_data (dob_Data cm)) by (by exists file, runtime).
  apply spec_bind_any; [by apply spec_call|]. intros [current [e|]].
  { destruct (is_not_found e); [|by apply spec_ret]. unfold create_config_map, apply_resource, put_stamps.
    apply spec_bind_any; [by apply spec_call|]. intros [e'|]; cv. }
  apply spec_bind_any; [unfold updateRuntimeParameters, getCephConfigDump, RunAndParseCephToolboxCLI; cv|].
  intros [changed [e|]]; [by apply spec_ret|]. unfold update_config_map, put_stamps, apply_resource.
  destruct (foldl _ _ _) as [annotations times]. apply spec_bind_any; [by intros ?; split|]. intros stamps.
  apply spec_bind_any; [by apply spec_call|]. intros _u. destruct (AlignBaseLabels _ _) as [labels updated].
  destruct (_ || _); [|cv]. apply spec_bind_any; [|intros [e|]; cv]. apply spec_call; [|done].
  cbn [config_write]. by rewrite written_data.
Qed.

(** C12: The config map the controller writes is the text of sections in which no option holds a
    password and no thread pool of a gateway is larger than 256, with a list of the run-time
    options which is the same whatever the passwords are. *)
Theorem passwords_hidden c cs present h process cm :
  EvApply process (RConfigMap cm) ∈ (ensureCephConfig rookNs params c cs present h).2 →
  ∃ file runtime, dob_Data cm = {["config" := (sections_text file).1; "runtime" := runtime_text runtime]} ∧
    (∀ s k, k ∈ passwordKeys → option_at file s k = None) ∧
    (∀ s v, option_at file s "rgw_thread_pool_size" = Some v → ∃ n, Atoi v = Some n ∧ n ≤ 256) ∧
    (∀ runtime', shown_alike runtime runtime' → runtime_text runtime' = runtime_text runtime).
Proof.
  intros Hin. destruct (config_writes c cs present h) as [_ Hall]. rewrite Forall_forall in Hall.
  destruct (Hall _ Hin) as (file & runtime & Hd & Hn & Hp). exists file, runtime. split_and!; [done|done|done|].
  intros runtime' Hs. symmetry. by apply shown_text.
Qed.
End run.
