(* ===== verification/External.v ===== *)
(** * External clusters

    pkg/controller/deployment/external.go: for a cluster that somebody else runs, the
    connection data of a secret become the config map and the secrets Rook and the CSI drivers
    read. *)

From Stdlib Require Import Ascii.
From S2P Require Import Prelude GoTime Types HealthTypes DeployTypes World HealthWorld Extensions Validate DeployWorld Resources.
Open Scope Z_scope.

Definition externalStringSecretName : string := "pelagia-external-connection".
Definition rookCephMonEndpointsMapName : string := "rook-ceph-mon-endpoints".
Definition rgwAdminUserSecretName : string := "rgw-admin-ops-user".
Definition RookCephMonSecretName : string := "rook-ceph-mon".
Definition CephCSIRBDNodeClientName : string := "csi-rbd-node".
Definition CephCSIRBDProvisionerClientName : string := "csi-rbd-provisioner".
Definition CephCSICephFSNodeClientName : string := "csi-cephfs-node".
Definition CephCSICephFSProvisionerClientName : string := "csi-cephfs-provisioner".

Section external.
Context `{World} `{HealthWorld} `{DeployWorld} `{ResourceWorld} `{MapRange}.
Variable rookNs : string.

(** ** Objects that are brought in line *)

(** The object with labels, owners and data as wanted, and whether they differed. *)
Definition aligned_object (wanted present : DataObject) : DataObject * bool :=
  let '(labels, updated) := AlignBaseLabels (dob_Labels present) (default ∅ (dob_Labels wanted)) in
  (set_dob_Data (dob_Data wanted) (set_dob_OwnerReferences (dob_OwnerReferences wanted) (set_dob_Labels (Some labels) present)),
   updated || negb (bool_decide (dob_OwnerReferences present = dob_OwnerReferences wanted)) ||
   negb (bool_decide (dob_Data present = dob_Data wanted))).

(** One secret: what was changed, and the error. *)
Definition manage_secret (secret : DataObject) : IO (bool * option err) :=
  let* r := data_get "Secret" (dob_Namespace secret) (dob_Name secret) in
  match r with
  | (_, Some e) =>
      if is_not_found e then
        let* e := apply_resource objectCreate (RSecret secret) in
        ret (match e with Some e => (false, Some e) | None => (true, None) end)
      else ret (false, Some e)
  | (rookSecret, None) =>
      let '(rookSecret, secretUpdated) := aligned_object secret rookSecret in
      if (secretUpdated : bool) then
        let* e := apply_resource objectUpdate (RSecret rookSecret) in
        ret (match e with Some e => (false, Some e) | None => (true, None) end)
      else ret (false, None)
  end.

Definition secret_step (acc : bool * list string) (secret : DataObject) : IO (bool * list string) :=
  let* r := manage_secret secret in
  ret ((acc.1 || r.1)%bool, acc.2 ++ option_list (err_msg <$> r.2)).

Definition manageSecrets (secrets : list DataObject) : IO (bool * option err) :=
  let* r := foldM secret_step secrets (false, []) in
  match r with
  | (updated, []) => ret (updated, None)
  | (_, errs) => ret (false, Some (new_err ("failed to manage secrets for external cluster: " +:+ Join errs ", ")))
  end.

Definition manageConfigMap (configMap : DataObject) : IO (bool * option err) :=
  let obj := dob_Namespace configMap +:+ "/" +:+ dob_Name configMap +:+ " config map" in
  let* r := data_get "ConfigMap" (dob_Namespace configMap) (dob_Name configMap) in
  match r with
  | (_, Some e) =>
      if is_not_found e then
        let* e := apply_resource objectCreate (RConfigMap configMap) in
        ret (match e with Some e => (false, Some (wrap_err ("failed to create " +:+ obj) e)) | None => (true, None) end)
      else ret (false, Some (wrap_err ("failed to get " +:+ obj) e))
  | (rookConfigMap, None) =>
      let '(rookConfigMap, updated) := aligned_object configMap rookConfigMap in
      if (updated : bool) then
        let* e := apply_resource objectUpdate (RConfigMap rookConfigMap) in
        ret (match e with Some e => (false, Some (wrap_err ("failed to update " +:+ obj) e)) | None => (true, None) end)
      else ret (false, None)
  end.

(** ** Connection data *)

Definition createCephExternalSecret (ownerRefs : list OwnerReference) (secretName : string) (data : gmap string string) : DataObject :=
  mkDataObject secretName rookNs (Some baseResourceLabels) ∅ ownerRefs data.

Definition mon_endpoints (ownerRefs : list OwnerReference) (cephCon : CephConnection) : DataObject :=
  mkDataObject rookCephMonEndpointsMapName rookNs (Some baseResourceLabels) ∅ ownerRefs
    {["data" := cco_MonEndpoints cephCon; "mapping" := "{}";
      "maxMonId" := pretty (length (Split (cco_MonEndpoints cephCon) ","%char))]}.

(** The secrets of one CSI driver. *)
Definition csi_secrets (ownerRefs : list OwnerReference) (node provisioner : string) (keyring : CSIKeyring) : list DataObject :=
  [createCephExternalSecret ownerRefs ("rook-" +:+ node) {["userID" := ckr_NodeUser keyring; "userKey" := ckr_NodeKey keyring]};
   createCephExternalSecret ownerRefs ("rook-" +:+ provisioner)
     {["userID" := ckr_ProvisionerUser keyring; "userKey" := ckr_ProvisionerKey keyring]}].

(** The secret of the client; the one that is called admin has all rights. *)
Definition client_secret (ownerRefs : list OwnerReference) (cephCon : CephConnection) : DataObject :=
  let admin := bool_decide (cco_ClientName cephCon = "admin") in
  createCephExternalSecret ownerRefs RookCephMonSecretName
    {["cluster-name" := rookNs; "fsid" := cco_FSID cephCon;
      "admin-secret" := (if admin then cco_ClientKeyring cephCon else "admin-secret");
      "ceph-username" := (if admin then "client.admin" else "client." +:+ cco_ClientName cephCon);
      "ceph-secret" := cco_ClientKeyring cephCon; "mon-secret" := "mon-secret";
      "ceph-args" := (if admin then EmptyString else "-n client." +:+ cco_ClientName cephCon)]}.

(** The secrets for the CSI drivers; [None] is a nil pointer. *)
Definition driver_secrets (dpl : CephDeployment) (ownerRefs : list OwnerReference) (cephCon : CephConnection) : option (list DataObject) :=
  if bool_decide (cco_ClientName cephCon = "admin") || bool_decide (cco_ClientName cephCon = "client.admin") then Some []
  else
    rbd ← cco_RBDKeyring cephCon;
    cephfs ← cco_CephFSKeyring cephCon;
    let use := negb (bool_decide (ckr_NodeKey cephfs = EmptyString)) && negb (bool_decide (ckr_ProvisionerKey cephfs = EmptyString)) &&
               bool_decide (is_Some (dsp_SharedFilesystem (cdp_Spec dpl))) in
    Some (csi_secrets ownerRefs CephCSIRBDNodeClientName CephCSIRBDProvisionerClientName rbd ++
          if (use : bool) then csi_secrets ownerRefs CephCSICephFSNodeClientName CephCSICephFSProvisionerClientName cephfs else []).

Definition rgw_secret (dpl : CephDeployment) (ownerRefs : list OwnerReference) (cephCon : CephConnection) : list DataObject :=
  match cco_RgwAdminUserKeys cephCon, dsp_ObjectStorage (cdp_Spec dpl) with
  | Some keys, Some _ =>
      [createCephExternalSecret ownerRefs rgwAdminUserSecretName {["accessKey" := ruk_AccessKey keys; "secretKey" := ruk_SecretKey keys]}]
  | _, _ => []
  end.

(** The connection data of the secret. *)
Definition connection_data (namespace : string) (stringSecret : DataObject) : CephConnection + err :=
  let obj := "secret '" +:+ namespace +:+ "/" +:+ externalStringSecretName +:+ "'" in
  match dob_Data stringSecret !! "connection" with
  | None | Some "" =>
      inr (new_err ("required for connection to external cluster parameters ('connection' field) is not specified in " +:+ obj))
  | Some v =>
      match json_CephConnection v with
      | (_, Some e) => inr (wrap_err ("failed to parse external connection string from " +:+ obj) e)
      | (cephCon, None) => inl cephCon
      end
  end.

(** [addExternalResources]; [None] is a panic. *)
Definition addExternalResources (dpl : CephDeployment) (ownerRefs : list OwnerReference) : IO (option (bool * option err)) :=
  let namespace := cdp_Namespace dpl in
  let* r := data_get "Secret" namespace externalStringSecretName in
  match r with
  | (_, Some e) =>
      ret (Some (false, Some (wrap_err ("failed to get secret '" +:+ namespace +:+ "/" +:+ externalStringSecretName +:+ "' with external connection info") e)))
  | (stringSecret, None) =>
      match connection_data namespace stringSecret with
      | inr e => ret (Some (false, Some e))
      | inl cephCon =>
          let* r := manageConfigMap (mon_endpoints ownerRefs cephCon) in
          match r with
          | (_, Some e) => ret (Some (false, Some (wrap_err "failed to manage config map for external cluster" e)))
          | (configMapUpdated, None) =>
              match driver_secrets dpl ownerRefs cephCon with
              | None => ret None
              | Some drivers =>
                  let* r := manageSecrets (client_secret ownerRefs cephCon :: drivers ++ rgw_secret dpl ownerRefs cephCon) in
                  match r with
                  | (_, Some e) => ret (Some (false, Some e))
                  | (secretsUpdated, None) => ret (Some ((configMapUpdated || secretsUpdated)%bool, None))
                  end
              end
          end
      end
  end.

Definition deleteExternalConnectionSecret (dpl : CephDeployment) : IO (bool * option err) :=
  let* e := call (EvDelete "Secret" (cdp_Namespace dpl) externalStringSecretName)
              (λ h, w_object_delete h "Secret" (cdp_Namespace dpl) externalStringSecretName) in
  match e with
  | None => ret (false, None)
  | Some e =>
      if is_not_found e then ret (true, None)
      else ret (false, Some (wrap_err ("failed to delete external connection secret " +:+ rookNs +:+ "/" +:+ externalStringSecretName) e))
  end.
End external.
