(* ===== verification/StoreWorld.v ===== *)
(** * What object storage and its surroundings ask of their environment

    The objects of Rook and Kubernetes that only the object storage of a deployment reads
    (multisite.go, rgw.go, gateway.go of pkg/controller/deployment), the commands of
    radosgw-admin, and the libraries for certificates and label selectors ([StoreWorld]); and
    what mirroring, the CSI operator, the secret for OpenStack, the ingress and the check of the
    cluster's state read ([ServiceWorld]). *)

From S2P Require Import Prelude Types HealthTypes DeployTypes World.
Open Scope Z_scope.

Class StoreWorld := {
  (** the objects of a namespace *)
  w_realm_list : history → string → list RookRealm * option err;
  w_zonegroup_list : history → string → list RookZoneGroup * option err;
  w_zone_list : history → string → list RookZone * option err;
  w_store_list : history → string → list RookStore * option err;
  w_store_get : history → string → string → RookStore * option err;
  w_user_list : history → string → list RookUser * option err;
  (** bucket claims: name and storage class *)
  w_bucket_list : history → string → list (string * string) * option err;
  w_storageclass_get : history → string → StorageClass * option err;
  w_service_get : history → string → string → Service * option err;
  (** secrets that have a label *)
  w_secret_list : history → string → string → list DataObject * option err;
  (** routes, and names of ingresses, with all labels of a set *)
  w_route_list : history → string → gmap string string → list HTTPRoute * option err;
  w_ingress_list : history → string → gmap string string → list string * option err;
  (** the names [radosgw-admin zonegroup list] and [radosgw-admin realm list] print *)
  json_ZoneGroupNames : string → list string * option err;
  json_RealmNames : string → list string * option err;
  (** [metav1.ParseToLabelSelector]: the labels that must match *)
  ParseToLabelSelector : string → gmap string string;
  (** the first block of packages encoding/pem and the end of validity crypto/x509 reads from it *)
  pem_Decode : string → option string;
  x509_NotAfter : string → Z + err;
  (** [GenerateSelfSignedCert]: key, certificate and CA certificate *)
  w_self_signed : history → string → string → list string → (string * string * string) * option err;
}.

Class ServiceWorld := {
  (** [alignSpecForAES256k]: the raw spec of the CephDeployment gets the new keys; [None] is a
      panic at a part of another type *)
  w_align_aes256k : history → CephDeployment → option (bool * option err);
  w_mirror_list : history → string → list RookMirror * option err;
  (** names of the secrets of type [RBDPeer] *)
  w_peer_secrets : history → string → list string * option err;
  w_vsclass_get : history → string → SnapshotClass * option err;
  (** names of the snapshot classes with all labels of a set *)
  w_vsclass_list : history → gmap string string → list string * option err;
  w_driver_get : history → string → string → CsiDriver * option err;
  w_driver_list : history → string → list CsiDriver * option err;
  w_opconfig_get : history → string → string → CsiOperatorConfig * option err;
  w_opconfig_list : history → string → list CsiOperatorConfig * option err;
  (** names of the objects of the CSI operator *)
  w_profile_list : history → string → list string * option err;
  w_connection_list : history → string → list string * option err;
  w_crd_get : history → string → option err;
  w_ingress_get : history → string → string → Ingress * option err;
  (** names of the ingresses that have a label *)
  w_ingress_labelled : history → string → string → list string * option err;
  (** clients that have a label *)
  w_client_labelled : history → string → string → list RookClient * option err;
  w_user_get : history → string → string → RookUser * option err;
  (** [ceph osd pool ls]; [ceph mgr module ls]: modules that are always on, and those enabled *)
  json_PoolNames : string → list string * option err;
  json_MgrModules : string → (list string * list string) * option err;
  (** [json.Marshal] *)
  json_of_ClientInfo : OpenstackClientInfo → string;
}.
