(* ===== verification/Multisite.v ===== *)
(** * Object storage on several sites

    pkg/controller/deployment/multisite.go: realms, zone groups and zones of the spec are
    created and updated, and those that are left over removed unless something still uses
    them: a zone group its realm, a zone its zone group, an object store its zone.

    The three kinds share one loop.  The objects of a list are copied by the loops of the code,
    but the copies share the map of labels, which is changed in place. *)

From S2P Require Import Prelude GoTime Types HealthTypes DeployTypes World HealthWorld Extensions Validate DeployWorld Resources CephConfig StoreWorld.
Open Scope Z_scope.

(** Names of users by what they use; the empty string stands for none. *)
Definition users_of {A} (used user : A → string) (l : list A) : gmap string string :=
  foldl (λ m x, <[used x := user x]> m) ∅ l.

(** ** The loop over objects of one kind *)

Section sites.
Context `{DeployWorld} `{ResourceWorld} `{MapRange}.
Context {C O : Type} (kind ns : string) (c_name : C → string) (o_name : O → string) (o_labels : O → option (gmap string string))
  (set_labels : option (gmap string string) → O → O) (inj : O → resource)
  (** errors that keep an object of the spec from being looked at, its changes, its object *)
  (check : C → IO (list string)) (align : C → O → O * bool) (make : C → O)
  (** removing an object by its name *)
  (remove : string → IO (option err)).

Record sites := mkSites {
  si_found : bool;
  si_items : list O;
  si_errs : list string;
  si_create : list O;
  si_update : list O;
  si_delete : gmap string bool;
}.

(** An object of the list beside one of the spec. *)
Definition match_step (new : C) (acc : sites) (existing : O) : IO sites :=
  if decide (c_name new = o_name existing) then
    let toDelete := delete (c_name new) (si_delete acc) in
    let* errs := check new in
    match errs with
    | _ :: _ => ret (mkSites true (si_items acc ++ [existing]) (si_errs acc ++ errs) (si_create acc) (si_update acc) toDelete)
    | [] =>
        let '(labels, labelsChanged) := AlignBaseLabels (o_labels existing) baseResourceLabels in
        let '(updated, specChanged) := align new (set_labels (Some labels) existing) in
        let shared := match o_labels existing with Some _ => set_labels (Some labels) existing | None => existing end in
        ret (mkSites true (si_items acc ++ [shared]) (si_errs acc) (si_create acc)
               (si_update acc ++ (if labelsChanged || specChanged then [updated] else [])) toDelete)
    end
  else ret (mkSites (si_found acc) (si_items acc ++ [existing]) (si_errs acc) (si_create acc) (si_update acc) (si_delete acc)).

Definition spec_step (acc : sites) (new : C) : IO sites :=
  let* acc := foldM (match_step new) (si_items acc)
                (mkSites false [] (si_errs acc) (si_create acc) (si_update acc) (si_delete acc)) in
  ret (mkSites false (si_items acc) (si_errs acc) (if si_found acc then si_create acc else si_create acc ++ [make new])
         (si_update acc) (si_delete acc)).

Definition write_step (process : objectProcess) (errs : list string) (o : O) : IO (list string) :=
  let* e := apply_resource process (inj o) in
  match e with
  | Some e => ret (errs ++ ["failed to " +:+ objectProcess_str process +:+ " " +:+ kind +:+ " '" +:+ ns +:+ "/" +:+ o_name o +:+ "': " +:+ err_msg e])
  | None => ret errs
  end.

(** What nobody uses is removed. *)
Definition leftover_step (inUse : gmap string string) (acc : list string * bool) (entry : string * bool) : IO (list string * bool) :=
  if decide (value_of inUse entry.1 = EmptyString) then
    let* e := remove entry.1 in
    ret (acc.1 ++ option_list (err_msg <$> e), true)
  else ret acc.

Definition ensure_sites (inUse : gmap string string) (items : list O) (specs : list C) : IO (bool * option err) :=
  let toDelete := list_to_map ((λ o, (o_name o, true)) <$> items) in
  let* acc := foldM spec_step specs (mkSites false items [] [] [] toDelete) in
  let changed := negb (bool_decide (si_create acc = [])) || negb (bool_decide (si_update acc = [])) in
  let* errs := foldM (write_step objectCreate) (si_create acc) (si_errs acc) in
  let* errs := foldM (write_step objectUpdate) (si_update acc) errs in
  let* r := foldM (leftover_step inUse) (range 102 (si_delete acc)) (errs, changed) in
  match r with
  | ([], changed) => ret (changed, None)
  | (errs, _) => ret (false, Some (new_err (Join errs ", ")))
  end.

(** Removing all objects of a list that nobody uses; also who they use. *)
Definition remove_step (inUse : gmap string string) (errs : list string) (o : O) : IO (list string) :=
  if decide (value_of inUse (o_name o) = EmptyString) then
    let* e := remove (o_name o) in
    ret (errs ++ option_list (err_msg <$> e))
  else ret errs.
End sites.

Section multisite.
Context `{World} `{DeployWorld} `{SpecDecoder} `{ResourceWorld} `{StoreWorld} `{MapRange}.
Variable rookNs : string.

(** ** Removing objects, from Ceph as well *)

Definition delete_object (kind name : string) : IO (option err) :=
  let* e := call (EvDelete kind rookNs name) (λ h, w_object_delete h kind rookNs name) in
  match e with
  | None => ret None
  | Some e => ret (if is_not_found e then None else Some (wrap_err ("failed to delete " +:+ kind +:+ " '" +:+ rookNs +:+ "/" +:+ name +:+ "'") e))
  end.

Definition deleteZone (zone : string) : IO (option err) := delete_object "CephObjectZone" zone.

(** [cmd] for every entry that is the given one; the first error. *)
Fixpoint admin_remove (name cmd msg : string) (present : list string) : IO (option err) :=
  match present with
  | [] => ret None
  | p :: present' =>
      if decide (p = name) then
        let* r := RunCephToolboxCLI rookNs cmd in
        match r.2 with
        | Some e => ret (Some (wrap_err msg e))
        | None => admin_remove name cmd msg present'
        end
      else admin_remove name cmd msg present'
  end.

Definition deleteZoneGroup (zoneGroup : string) : IO (option err) :=
  let* r := RunAndParseCephToolboxCLI [] json_ZoneGroupNames rookNs "radosgw-admin zonegroup list" in
  match r with
  | (_, Some e) => ret (Some (wrap_err "failed to check zonegroup list" e))
  | (present, None) =>
      let* e := admin_remove zoneGroup ("radosgw-admin zonegroup delete --rgw-zonegroup=" +:+ zoneGroup)
                  ("failed to remove zonegroup '" +:+ zoneGroup +:+ "'") present in
      match e with
      | Some e => ret (Some e)
      | None => delete_object "CephObjectZoneGroup" zoneGroup
      end
  end.

Definition realm_keys (realm : string) : string := realm +:+ "-keys".

(** Once the secret with the keys of the realm is gone. *)
Definition delete_realm (realm : string) : IO (option err) :=
  let* r := RunAndParseCephToolboxCLI [] json_RealmNames rookNs "radosgw-admin realm list" in
  match r with
  | (_, Some e) => ret (Some (wrap_err "failed to check realm list" e))
  | (present, None) =>
      let* e := admin_remove realm ("radosgw-admin realm rm --rgw-realm=" +:+ realm)
                  ("failed to remove realm '" +:+ realm +:+ "'") present in
      match e with
      | Some e => ret (Some e)
      | None => delete_object "CephObjectRealm" realm
      end
  end.

Definition deleteRealm (realm : string) : IO (option err) :=
  let secretKey := realm_keys realm in
  let* e := call (EvDelete "Secret" rookNs secretKey) (λ h, w_object_delete h "Secret" rookNs secretKey) in
  match e with
  | None => delete_realm realm
  | Some e =>
      if is_not_found e then delete_realm realm
      else ret (Some (wrap_err ("failed to delete Secret '" +:+ rookNs +:+ "/" +:+ secretKey +:+ "' for CephObjectRealm '" +:+
                                rookNs +:+ "/" +:+ realm +:+ "'") e))
  end.

(** ** Lists *)

Definition list_failed (kinds : string) (e : err) : err :=
  wrap_err ("failed to get list " +:+ kinds +:+ " in '" +:+ rookNs +:+ "' namespace") e.
Definition realm_list : IO (list RookRealm * option err) :=
  read "CephObjectRealmList" rookNs EmptyString (λ h, w_realm_list h rookNs).
Definition zonegroup_list : IO (list RookZoneGroup * option err) :=
  read "CephObjectZoneGroupList" rookNs EmptyString (λ h, w_zonegroup_list h rookNs).
Definition zone_list : IO (list RookZone * option err) :=
  read "CephObjectZoneList" rookNs EmptyString (λ h, w_zone_list h rookNs).
Definition store_list : IO (list RookStore * option err) :=
  read "CephObjectStoreList" rookNs EmptyString (λ h, w_store_list h rookNs).

(** A store without a zone uses the one of its own name. *)
Definition store_zone (rgw : RookStore) : string :=
  if decide (ost_ZoneName (rst_Spec rgw) = EmptyString) then rst_Name rgw else ost_ZoneName (rst_Spec rgw).

Definition getZonesInUse : IO (gmap string string * option err) :=
  let* r := store_list in
  match r with
  | (_, Some e) => ret (∅, Some e)
  | (rgws, None) => ret (users_of store_zone rst_Name rgws, None)
  end.

(** ** Realms *)

Definition missing_data (secret : DataObject) (key : string) : bool :=
  bool_decide (value_of (dob_Data secret) key = EmptyString).

(** The keys with which a realm is pulled from another site. *)
Definition check_realm (realm : DplObjectRealm) : IO (list string) :=
  if decide (rls_PullEndpoint (CephObjectRealm_GetSpec realm).1 = EmptyString) then ret []
  else
    let secretName := realm_keys (dor_Name realm) in
    let obj := "secret '" +:+ rookNs +:+ "/" +:+ secretName +:+ "' for CephObjectRealm '" +:+ dor_Name realm +:+ "'" in
    let* r := data_get "Secret" rookNs secretName in
    match r with
    | (_, Some e) => ret ["failed to get " +:+ obj +:+ " with user keys: " +:+ err_msg e]
    | (secret, None) =>
        ret ((if missing_data secret "access-key" then [obj +:+ " has no access-key data provided"] else []) ++
             (if missing_data secret "secret-key" then [obj +:+ " has no secret-key data provided"] else []))
    end.

Definition align_realm (realm : DplObjectRealm) (existing : RookRealm) : RookRealm * bool :=
  let spec := (CephObjectRealm_GetSpec realm).1 in
  let endpointChanged := negb (bool_decide (rls_PullEndpoint spec = rls_PullEndpoint (rrm_Spec existing))) in
  let defaultChanged := negb (eqb (rls_DefaultRealm spec) (rls_DefaultRealm (rrm_Spec existing))) in
  (set_rrm_Spec (set_rls_DefaultRealm (rls_DefaultRealm spec) (set_rls_PullEndpoint (rls_PullEndpoint spec) (rrm_Spec existing))) existing,
   endpointChanged || defaultChanged).

Definition make_realm (realm : DplObjectRealm) : RookRealm :=
  mkRookRealm (dor_Name realm) rookNs (Some baseResourceLabels) (CephObjectRealm_GetSpec realm).1.

Definition ensureRealms (storage : CephObjectStorage) : IO (bool * option err) :=
  let* r := realm_list in
  match r with
  | (_, Some e) => ret (false, Some (list_failed "CephObjectRealms" e))
  | (realmsReal, None) =>
      let* r := zonegroup_list in
      match r with
      | (_, Some e) => ret (false, Some (list_failed "CephObjectZoneGroups" e))
      | (zoneGroupsReal, None) =>
          ensure_sites "CephObjectRealm" rookNs dor_Name rrm_Name rrm_Labels set_rrm_Labels RRealm check_realm align_realm make_realm
            deleteRealm (users_of rzg_Realm rzg_Name zoneGroupsReal) realmsReal (cos_Realms storage)
      end
  end.

(** ** Zone groups *)

Definition make_zonegroup (zoneGroup : CephObjectZonegroup) : RookZoneGroup :=
  mkRookZoneGroup (dzg_Name zoneGroup) rookNs (Some baseResourceLabels) (CephObjectZonegroup_GetSpec zoneGroup).1.

Definition ensureZoneGroups (storage : CephObjectStorage) : IO (bool * option err) :=
  let* r := zonegroup_list in
  match r with
  | (_, Some e) => ret (false, Some (list_failed "CephObjectZoneGroups" e))
  | (zoneGroupsReal, None) =>
      let* r := zone_list in
      match r with
      | (_, Some e) => ret (false, Some (list_failed "CephObjectZones" e))
      | (zonesReal, None) =>
          ensure_sites "CephObjectZoneGroup" rookNs dzg_Name rzg_Name rzg_Labels set_rzg_Labels RZoneGroup (λ _, ret [])
            (λ _ existing, (existing, false)) make_zonegroup deleteZoneGroup
            (users_of (λ zone, ozs_ZoneGroup (rzo_Spec zone)) rzo_Name zonesReal) zoneGroupsReal (cos_Zonegroups storage)
      end
  end.

(** ** Zones *)

Definition make_zone (zone : DplObjectZone) : RookZone :=
  mkRookZone (doz_Name zone) rookNs (Some baseResourceLabels) (CephObjectZone_GetSpec zone).1.

Definition align_zone (zone : DplObjectZone) (existing : RookZone) : RookZone * bool :=
  let spec := (CephObjectZone_GetSpec zone).1 in
  (set_rzo_Spec spec existing, negb (bool_decide (spec = rzo_Spec existing))).

Definition ensureZones (storage : CephObjectStorage) : IO (bool * option err) :=
  let* r := zone_list in
  match r with
  | (_, Some e) => ret (false, Some (list_failed "CephObjectZones" e))
  | (zonesReal, None) =>
      let* r := getZonesInUse in
      match r with
      | (_, Some e) => ret (false, Some (wrap_err "failed to check zones in use" e))
      | (zonesInUse, None) =>
          ensure_sites "CephObjectZone" rookNs doz_Name rzo_Name rzo_Labels set_rzo_Labels RZone (λ _, ret [])
            align_zone make_zone deleteZone zonesInUse zonesReal (cos_Zones storage)
      end
  end.

(** ** All of them *)

Definition ensureRgwMultiSite (storage : CephObjectStorage) : IO (bool * option err) :=
  let* r := ensureRealms storage in
  match r with
  | (_, Some e) => ret (false, Some (wrap_err "failed to ensure realms" e))
  | (realmsChanged, None) =>
      let* r := ensureZoneGroups storage in
      match r with
      | (_, Some e) => ret (false, Some (wrap_err "failed to ensure zone groups" e))
      | (groupsChanged, None) =>
          let* r := ensureZones storage in
          match r with
          | (_, Some e) => ret (false, Some (wrap_err "failed to ensure zones" e))
          | (zonesChanged, None) => ret (realmsChanged || groupsChanged || zonesChanged, None)
          end
      end
  end.

(** What is deleted of the lists of zones, zone groups and realms. *)
Definition delete_sites (zonesInUse : gmap string string) (zones : list RookZone) (zoneGroups : list RookZoneGroup) (realms : list RookRealm)
    : IO (bool * option err) :=
  let* errs := foldM (remove_step rzo_Name deleteZone zonesInUse) zones [] in
  let* errs := foldM (remove_step rzg_Name deleteZoneGroup (users_of (λ zone, ozs_ZoneGroup (rzo_Spec zone)) rzo_Name zones)) zoneGroups errs in
  let* errs := foldM (remove_step rrm_Name deleteRealm (users_of rzg_Realm rzg_Name zoneGroups)) realms errs in
  match errs with
  | [] => ret (bool_decide (zones = []) && bool_decide (zoneGroups = []) && bool_decide (realms = []), None)
  | _ => ret (false, Some (new_err ("failed to cleanup multisite: " +:+ Join errs ", ")))
  end.

Definition deleteMultiSite : IO (bool * option err) :=
  let* r := zone_list in
  match r with
  | (_, Some e) => ret (false, Some (list_failed "CephObjectZones" e))
  | (zones, None) =>
      let* r := zonegroup_list in
      match r with
      | (_, Some e) => ret (false, Some (list_failed "CephObjectZoneGroups" e))
      | (zoneGroups, None) =>
          let* r := realm_list in
          match r with
          | (_, Some e) => ret (false, Some (list_failed "CephObjectRealms" e))
          | (realms, None) =>
              let* r := getZonesInUse in
              match r with
              | (_, Some e) => ret (false, Some (wrap_err "failed to check zones in use" e))
              | (zonesInUse, None) => delete_sites zonesInUse zones zoneGroups realms
              end
          end
      end
  end.
End multisite.
