(* ===== verification/Rgw.v ===== *)
(** * Certificates of gateways

    pkg/controller/deployment/rgw.go, from [ensureRgwSslCert] on, and
    [VerifyCertificateExpireDate] of pkg/common/certs.go.  A gateway with a secure port has a
    certificate, given by the spec or made by the controller, and a bundle of CA certificates
    that it and its clients trust; when the controller changes one of them, it remembers the
    time, which is put into the annotations of the gateway and restarts it.

    Reading and making certificates is left to libraries ([StoreWorld]).  [None] is a panic:
    data is written to the map of a secret that has none. *)

From S2P Require Import Prelude GoTime Types HealthTypes DeployTypes World CleanupJob HealthWorld Extensions Validate DeployWorld Resources NodeLabels CephConfig External StoreWorld Multisite.
Open Scope Z_scope.

Definition sslCertGenerationTimestampLabel : string := "cephdeployment.lcm.mirantis.com/ssl-cert-generated".
Definition selfSignedCertLabel : string := "cephdeployment.lcm.mirantis.com/self-signed-ssl-cert-for".

Definition getRgwDefaultSSLCertificateName (rgwName : string) : string := rgwName +:+ "-ssl-cert".

(** A change of [resourceUpdateTimestamps]. *)
Definition update_stamps (f : updateTimestamps → updateTimestamps) : IO unit := let* s := get_stamps in put_stamps (f s).
Definition set_cert_time (rgwName t : string) : IO unit := update_stamps (λ s, set_ut_rgwSSLCert (<[rgwName := t]> (ut_rgwSSLCert s)) s).
Definition drop_cert_time (rgwName : string) : IO unit := update_stamps (λ s, set_ut_rgwSSLCert (delete rgwName (ut_rgwSSLCert s)) s).

Section certs.
Context `{World} `{HealthWorld} `{DeployWorld} `{SpecDecoder} `{ResourceWorld} `{StoreWorld} `{MapRange}.
Variables (rookNs : string) (params : DeployParams).

Definition VerifyCertificateExpireDate (cacert : string) : IO (option err) :=
  match pem_Decode cacert with
  | None => ret (Some (new_err "pem block in cacert is not found"))
  | Some block =>
      match x509_NotAfter block with
      | inr e => ret (Some (wrap_err "failed to parse pkg cacert data" e))
      | inl notAfter =>
          let* now := call EvClock w_clock in
          ret (if decide (notAfter < now) then Some (new_err "pkg cacert is expired") else None)
      end
  end.

(** ** The certificate of the gateway *)

Definition failed (msg : string) (e : err) : option (bool * option err) := Some (false, Some (wrap_err msg e)).
Definition failed_new (msg : string) : option (bool * option err) := Some (false, Some (new_err msg)).

(** Key, certificate and CA certificate as they are stored. *)
Definition cert_data (cert : string * string * string) (data : gmap string string) : gmap string string :=
  let '(tlsKey, tlsCert, caCert) := cert in
  <["cacert" := caCert]> (<["cert" := tlsKey +:+ tlsCert +:+ caCert]> data).

(** A new self-signed certificate, for a secret that is there or not. *)
Definition self_signed (rgwName secretName : string) (present : option DataObject) : IO (option (bool * option err)) :=
  let* r := call EvClock (λ h, w_self_signed h "kubernetes-rgw" ("*." +:+ rookNs +:+ ".svc.cluster.local")
                                 ["*." +:+ rookNs +:+ ".svc"; "*." +:+ rookNs +:+ ".svc.cluster.local"]) in
  match r with
  | (_, Some e) => ret (failed "failed to generate rgw ssl cert" e)
  | (cert, None) =>
      let* newTime := GetCurrentTimeString in
      let secretLabels := ExtendLabels {[selfSignedCertLabel := rgwName]} DeployWorld.baseResourceLabels in
      match present with
      | None =>
          let* e := apply_resource objectCreate
            (RSecret (mkDataObject secretName rookNs (Some secretLabels) {[sslCertGenerationTimestampLabel := newTime]} [] (cert_data cert ∅))) in
          match e with
          | Some e => ret (failed "failed to create rgw ssl cert secret" e)
          | None => set_cert_time rgwName newTime ;;; ret (Some (true, None))
          end
      | Some secret =>
          if decide (dob_Data secret = ∅) then ret None
          else
            let secret := set_dob_Labels (Some (AlignBaseLabels (dob_Labels secret) secretLabels).1) secret in
            let secret := set_dob_Annotations (<[sslCertGenerationTimestampLabel := newTime]> (dob_Annotations secret)) secret in
            let* e := apply_resource objectUpdate (RSecret (set_dob_Data (cert_data cert (dob_Data secret)) secret)) in
            match e with
            | Some e => ret (failed "failed to update rgw ssl cert secret" e)
            | None => set_cert_time rgwName newTime ;;; ret (Some (true, None))
            end
      end
  end.

(** A certificate that is valid: the time it was made at, if the controller made it. *)
Definition keep_cert (rgwName : string) (secret : DataObject) : IO (option (bool * option err)) :=
  match dob_Annotations secret !! sslCertGenerationTimestampLabel with
  | Some t => set_cert_time rgwName t
  | None => drop_cert_time rgwName
  end ;;;
  ret (Some (false, None)).

Definition ensureRgwBackendSSLCert (rgwName certRef : string) : IO (option (bool * option err)) :=
  let secretName := if decide (certRef = EmptyString) then getRgwDefaultSSLCertificateName rgwName else certRef in
  let given := bool_decide (certRef ≠ EmptyString) in
  let* r := data_get "Secret" rookNs secretName in
  match r with
  | (_, Some e) =>
      if negb (is_not_found e) || given then ret (failed ("failed to get secret " +:+ rookNs +:+ "/" +:+ secretName) e)
      else self_signed rgwName secretName None
  | (secret, None) =>
      match dob_Data secret !! "cacert", dob_Data secret !! "cert" with
      | Some cacert, Some _ =>
          let* e := VerifyCertificateExpireDate cacert in
          match e with
          | None => keep_cert rgwName secret
          | Some e =>
              if given then
                ret (failed ("ssl verification failed for rgw '" +:+ rgwName +:+ "' ssl certs provided in '" +:+ certRef +:+ "' secret, update manually") e)
              else self_signed rgwName secretName (Some secret)
          end
      | _, _ =>
          if given then
            ret (failed_new ("rgw '" +:+ rgwName +:+ "' ssl certs provided in '" +:+ certRef +:+ "' secret has no required 'cert' and 'cacert' fields"))
          else self_signed rgwName secretName (Some secret)
      end
  end.

(** ** The bundle of CA certificates *)

(** The CA certificate of OpenStack, if the gateway serves it. *)
Definition openstack_cacert (rgwName : string) (usedForOpenstack : bool) : IO (string + err) :=
  if usedForOpenstack then
    let ns := dp_OpenstackCephSharedNamespace params in
    match checkOpenstackNamespaceSetForRgw rgwName ns with
    | Some e => ret (inr e)
    | None =>
        let* r := data_get "Secret" ns openstackRgwCredsName in
        match r with
        | (_, Some e) =>
            ret (if is_not_found e then inl EmptyString
                 else inr (wrap_err ("failed to get rgw creds secret '" +:+ ns +:+ "/" +:+ openstackRgwCredsName +:+ "'") e))
        | (secret, None) => ret (inl (value_of (dob_Data secret) "ca_cert"))
        end
    end
  else ret (inl EmptyString).

(** The CA certificate of what serves the gateway to the public. *)
Definition public_cacert (c : deployConfig) (rgwName : string) (servedByIngress usedForOpenstack : bool) : IO (string + err) :=
  if servedByIngress || usedForOpenstack then
    match dsp_IngressConfig (cdp_Spec (dc_cephDpl c)) with
    | Some _ =>
        if cp_KeepIngress (dc_commonParams c) then
          match getIngressTLS (dc_cephDpl c) with
          | None => ret (inl EmptyString)
          | Some tlsConfig =>
              match itc_TLSCerts tlsConfig with
              | Some (cacert, _, _) => ret (inl cacert)
              | None =>
                  if decide (itc_TLSSecretRefName tlsConfig = EmptyString) then ret (inl EmptyString)
                  else
                    let* r := data_get "Secret" rookNs (itc_TLSSecretRefName tlsConfig) in
                    match r with
                    | (_, Some e) => ret (inr (wrap_err ("failed to get ingress secret '" +:+ rookNs +:+ "/" +:+ itc_TLSSecretRefName tlsConfig +:+ "'") e))
                    | (secret, None) => ret (inl (value_of (dob_Data secret) "ca.crt"))
                    end
              end
          end
        else openstack_cacert rgwName usedForOpenstack
    | None => openstack_cacert rgwName usedForOpenstack
    end
  else ret (inl EmptyString).

(** The chain for a gateway whose secret is there; [None] without any certificate. *)
Definition bundle_chain (secret : DataObject) (publicCacert : string) : option string :=
  match option_list (dob_Data secret !! "cacert") ++ (if decide (publicCacert = EmptyString) then [] else [publicCacert]) with
  | [] => None
  | caCerts => Some (Join caCerts newline +:+ newline)
  end.

(** The secret that holds the bundle is there. *)
Definition update_bundle (rgwName publicCacert newCertTime : string) (secret : DataObject) : IO (option (bool * option err)) :=
  match bundle_chain secret publicCacert with
  | None => ret (failed_new ("rgw '" +:+ rgwName +:+ "' seems to be must have cabundle, but it is not found"))
  | Some bundleChain =>
      if decide (dob_Data secret !! "cabundle" = Some bundleChain) then
        set_cert_time rgwName (value_of (dob_Annotations secret) sslCertGenerationTimestampLabel) ;;; ret (Some (false, None))
      else if decide (dob_Data secret = ∅) then ret None
      else
        let secret := set_dob_Annotations (<[sslCertGenerationTimestampLabel := newCertTime]> (dob_Annotations secret)) secret in
        let* e := apply_resource objectUpdate (RSecret (set_dob_Data (<["cabundle" := bundleChain]> (dob_Data secret)) secret)) in
        match e with
        | Some e => ret (failed "failed to update rgw cabundle cert secret" e)
        | None => set_cert_time rgwName newCertTime ;;; ret (Some (true, None))
        end
  end.

(** A bundle that the spec names. *)
Definition given_bundle (rgwName caBundleRef : string) : IO (option (bool * option err)) :=
  let* r := data_get "Secret" rookNs caBundleRef in
  match r with
  | (_, Some e) => ret (failed ("failed to get secret '" +:+ rookNs +:+ "/" +:+ caBundleRef +:+ "' with cabundle") e)
  | (secret, None) =>
      match dob_Data secret !! "cabundle" with
      | None => ret (failed_new ("rgw '" +:+ rgwName +:+ "' secret '" +:+ rookNs +:+ "/" +:+ caBundleRef +:+
                                 "' used for as cabundle has no required field 'cabundle'"))
      | Some _ => ret (Some (false, None))
      end
  end.

Definition ensureRgwCaBundleCert (c : deployConfig) (rgwName certRef caBundleRef : string) (servedByIngress usedForOpenstack : bool)
    : IO (option (bool * option err)) :=
  if decide (caBundleRef = EmptyString) then
    let* r := public_cacert c rgwName servedByIngress usedForOpenstack in
    match r with
    | inr e => ret (Some (false, Some e))
    | inl publicCacert =>
        let secretName := if decide (certRef = EmptyString) then getRgwDefaultSSLCertificateName rgwName else certRef in
        let* newCertTime := GetCurrentTimeString in
        let* r := data_get "Secret" rookNs secretName in
        match r with
        | (_, Some e) =>
            if negb (is_not_found e) || bool_decide (certRef ≠ EmptyString)
            then ret (failed ("failed to get secret '" +:+ rookNs +:+ "/" +:+ secretName +:+ "'") e)
            else if decide (publicCacert = EmptyString) then ret (Some (false, None))
            else
              let* e := apply_resource objectCreate
                (RSecret (mkDataObject secretName rookNs (Some DeployWorld.baseResourceLabels) {[sslCertGenerationTimestampLabel := newCertTime]} []
                            {["cabundle" := publicCacert +:+ newline]})) in
              match e with
              | Some e => ret (failed "failed to create rgw cabundle cert secret" e)
              | None => set_cert_time rgwName newCertTime ;;; ret (Some (true, None))
              end
        | (secret, None) => update_bundle rgwName publicCacert newCertTime secret
        end
    end
  else given_bundle rgwName caBundleRef.

(** ** Both *)

Definition wrapped (msg : string) (r : option (bool * option err)) : option ((bool + err)) :=
  (λ r, match r with (_, Some e) => inr (wrap_err msg e) | (changed, None) => inl changed end) <$> r.

(** After the certificate of the gateway, which was changed or not. *)
Definition ensure_bundle (c : deployConfig) (rgw : DplObjectStore) (changed noCerts : bool) : IO (option (bool * option err)) :=
  let rgwName := dos_Name rgw in
  let spec := (CephObjectStore_GetSpec rgw).1 in
  if negb (bool_decide (ost_SecurePort spec = 0)) || dos_ServedByIngress rgw || dos_UsedForOpenstack rgw ||
     negb (bool_decide (ost_CaBundleRef spec = EmptyString)) then
    let* r := ensureRgwCaBundleCert c rgwName (ost_SSLCertificateRef spec) (ost_CaBundleRef spec) (dos_ServedByIngress rgw) (dos_UsedForOpenstack rgw) in
    match wrapped ("failed to ensure rgw '" +:+ rgwName +:+ "' cabundle certificate") r with
    | None => ret None
    | Some (inr e) => ret (Some (false, Some e))
    | Some (inl changedCa) => ret (Some (changed || changedCa, None))
    end
  else when' noCerts (drop_cert_time rgwName) ;;; ret (Some (changed, None)).

Definition ensureRgwSslCert (c : deployConfig) (rgw : DplObjectStore) : IO (option (bool * option err)) :=
  let rgwName := dos_Name rgw in
  let spec := (CephObjectStore_GetSpec rgw).1 in
  if decide (ost_SecurePort spec = 0) then
    if decide (ost_SSLCertificateRef spec = EmptyString) then ensure_bundle c rgw false true
    else ret (failed_new ("rgw '" +:+ rgwName +:+ "' has provided sslCertificateRef, but no secure port specified"))
  else
    let* r := ensureRgwBackendSSLCert rgwName (ost_SSLCertificateRef spec) in
    match wrapped ("failed to ensure rgw '" +:+ rgwName +:+ "' ssl certificate") r with
    | None => ret None
    | Some (inr e) => ret (Some (false, Some e))
    | Some (inl changedCert) => ensure_bundle c rgw changedCert false
    end.

(** ** Secrets that are not needed any more *)

Fixpoint delete_certs (presentRgws : option (list string)) (secrets : list DataObject) (removed : bool) : IO (bool * option err) :=
  match secrets with
  | [] => ret (removed, None)
  | secret :: secrets' =>
      let kept :=
        match presentRgws with
        | Some rgws => bool_decide (value_of (default ∅ (dob_Labels secret)) selfSignedCertLabel ∈ rgws)
        | None => false
        end in
      if (kept : bool) then delete_certs presentRgws secrets' removed
      else
        let* e := call (EvDelete "Secret" rookNs (dob_Name secret)) (λ h, w_object_delete h "Secret" rookNs (dob_Name secret)) in
        match e with
        | Some e => ret (false, Some (wrap_err ("failed to delete rgw default self-signed ssl secret " +:+ rookNs +:+ "/" +:+ dob_Name secret) e))
        | None => delete_certs presentRgws secrets' false
        end
  end.

(** The names of gateways that exist; [None] removes all. *)
Definition deleteSelfSignedCerts (presentRgws : option (list string)) : IO (bool * option err) :=
  let* r := read "SecretList" rookNs selfSignedCertLabel (λ h, w_secret_list h rookNs selfSignedCertLabel) in
  match r with
  | (_, Some e) => ret (false, Some (wrap_err "failed to get check rgw self-signed certs to remove" e))
  | (secrets, None) => delete_certs presentRgws secrets true
  end.
End certs.

(** ** Gateways of object storage

    pkg/controller/deployment/rgw.go: object stores, their users, storage classes and external
    services are kept as the spec says; a store that is not in the spec any more is removed with
    all that belongs to it, users and buckets first.  Certificates are in RgwCerts.

    [None] is a panic. *)

Definition rgwMetricsUser : string := "rgw-ceilometer".

Definition buildRGWName (name suffix : string) : string :=
  if decide (suffix = EmptyString) then "rook-ceph-rgw-" +:+ name else "rook-ceph-rgw-" +:+ name +:+ "-" +:+ suffix.

Definition getRgwStorageClass (rgwName : string) : string := rgwName +:+ "-bucket".

Definition generateRgwStorageClass (storeName storageClassName namespace : string) : StorageClass :=
  mkStorageClass storageClassName (Some baseResourceLabels) None "rook-ceph.ceph.rook.io/bucket"
    {["objectStoreName" := storeName; "objectStoreNamespace" := namespace; "region" := storeName]} None None.

(** ** The object of a store *)

(** The defaults for a secure port. *)
Definition with_certs (name : string) (spec : ObjectStoreSpec) : ObjectStoreSpec :=
  if decide (ost_SecurePort spec = 0) then spec
  else
    let spec := if decide (ost_SSLCertificateRef spec = EmptyString) then set_ost_SSLCertificateRef (getRgwDefaultSSLCertificateName name) spec else spec in
    if decide (ost_CaBundleRef spec = EmptyString) then set_ost_CaBundleRef (ost_SSLCertificateRef spec) spec else spec.

(** [generateRgw] with the remembered times. *)
Definition generateRgw (stamps : updateTimestamps) (spec : ObjectStoreSpec) (name namespace : string) (useDedicatedNodes : bool) : RookStore :=
  let label := CephNodeLabel (if useDedicatedNodes then "rgw" else "mon") in
  let section := rgwConfigSectionName name in
  let annotations := ost_Annotations spec in
  let annotations :=
    match ut_rgwSSLCert stamps !! name with Some t => <[sslCertGenerationTimestampLabel := t]> annotations | None => annotations end in
  let annotations :=
    <[cephConfigParametersUpdateTimestampLabel section := value_of (ut_cephConfigMap stamps) section]>
      (<[cephConfigParametersUpdateTimestampLabel "global" := value_of (ut_cephConfigMap stamps) "global"]> annotations) in
  let spec := with_certs name (set_ost_Annotations annotations spec) in
  let spec := set_ost_NodeAffinity (Some (AffinityLabel label)) spec in
  let spec := set_ost_Tolerations (TolerationExists label :: ost_Tolerations spec) spec in
  let spec := if decide (ost_ZoneName spec = EmptyString) then set_ost_DefaultRealm true spec else spec in
  mkRookStore name namespace (Some baseResourceLabels) spec None.

Definition generateRgwExternal (spec : ObjectStoreSpec) (name namespace : string) : RookStore + err :=
  if decide (ost_ExternalRgwEndpoints spec = []) then inr (new_err "external RGW endpoints is not specified for external ceph cluster")
  else inl (mkRookStore name namespace (Some baseResourceLabels) spec None).

Section rgw.
Context `{World} `{HealthWorld} `{DeployWorld} `{SpecDecoder} `{ResourceWorld} `{StoreWorld} `{MapRange}.
Variables (rookNs : string) (params : DeployParams).

Definition store_get (name : string) : IO (RookStore * option err) :=
  read "CephObjectStore" rookNs name (λ h, w_store_get h rookNs name).

Definition statusRgw (rgwName : string) : IO (option err) :=
  let* r := store_get rgwName in
  match r with
  | (_, Some e) => ret (if is_not_found e then None else Some (wrap_err "failed to get object store" e))
  | (rgw, None) =>
      ret (match rst_Phase rgw with
           | Some phase => if isTypeReadyToUpdate phase then None else Some (new_err ("rgw is not ready to be updated, current phase is " +:+ phase))
           | None => None
           end)
  end.

(** The store that is wanted. *)
Definition wanted_store (c : deployConfig) (storage : CephObjectStorage) (external : bool) (rgw : DplObjectStore) : IO (RookStore + err) :=
  let spec := (CephObjectStore_GetSpec rgw).1 in
  if external then
    let* r := data_get "Secret" rookNs rgwAdminUserSecretName in
    match r with
    | (_, Some e) => ret (inr (wrap_err ("failed to get rgw admin user secret " +:+ rookNs +:+ "/" +:+ rgwAdminUserSecretName) e))
    | (_, None) =>
        ret (match generateRgwExternal spec (dos_Name rgw) rookNs with
             | inl store => inl store
             | inr e => inr (wrap_err "failed to generate external rgw" e)
             end)
    end
  else if bool_decide (ost_ZoneName spec ≠ EmptyString) && negb (bool_decide (ost_ZoneName spec ∈ doz_Name <$> cos_Zones storage)) then
    ret (inr (new_err ("failed to generate rgw with unknown " +:+ ost_ZoneName spec +:+ " zone")))
  else
    let* stamps := get_stamps in
    ret (inl (generateRgw stamps spec (dos_Name rgw) rookNs
                (existsb (λ node, Contains (dn_Roles node) "rgw") (dsp_Nodes (cdp_Spec (dc_cephDpl c)))))).

Definition ensureRgwObject (c : deployConfig) (storage : CephObjectStorage) (external : bool) (rgw : DplObjectStore) : IO (bool * option err) :=
  let* r := wanted_store c storage external rgw in
  match r with
  | inr e => ret (false, Some e)
  | inl rgwStore =>
      let* r := store_get (rst_Name rgwStore) in
      match r with
      | (_, Some e) =>
          if is_not_found e then
            let* e := apply_resource objectCreate (RStore rgwStore) in
            ret (match e with Some e => (false, Some (wrap_err "failed to create rgw" e)) | None => (true, None) end)
          else ret (false, Some (wrap_err "failed to get rgw" e))
      | (rgw, None) =>
          let specUpdated := negb (bool_decide (rst_Spec rgw = rst_Spec rgwStore)) in
          let '(labels, labelsChanged) := AlignBaseLabels (rst_Labels rgw) (default ∅ (rst_Labels rgwStore)) in
          if specUpdated && negb (bool_decide (ost_ZoneName (rst_Spec rgw) = ost_ZoneName (rst_Spec rgwStore))) &&
             negb (bool_decide (ost_ZoneName (rst_Spec rgw) = EmptyString))
          then ret (false, Some (new_err "failed to update rgw, zone change is not supported"))
          else if specUpdated || labelsChanged then
            let rgw := set_rst_Labels (Some labels) rgw in
            let rgw := if specUpdated then set_rst_Spec (rst_Spec rgwStore) rgw else rgw in
            let* e := apply_resource objectUpdate (RStore rgw) in
            ret (match e with Some e => (false, Some (wrap_err "failed to update rgw" e)) | None => (true, None) end)
          else ret (false, None)
      end
  end.

(** ** The storage class of buckets *)

Definition ensureRgwStorageClass (rgwName : string) : IO (bool * option err) :=
  let scName := getRgwStorageClass rgwName in
  let* r := read "StorageClass" EmptyString scName (λ h, w_storageclass_get h scName) in
  match r with
  | (_, Some e) =>
      if is_not_found e then
        let* e := apply_resource objectCreate (RStorageClass (generateRgwStorageClass rgwName scName rookNs)) in
        ret (match e with Some e => (false, Some (wrap_err "failed to create rgw storage class" e)) | None => (true, None) end)
      else ret (false, Some e)
  | (sc, None) =>
      let '(labels, labelsChanged) := AlignBaseLabels (sto_Labels sc) baseResourceLabels in
      if (labelsChanged : bool) then
        let* e := apply_resource objectUpdate (RStorageClass (set_sto_Labels (Some labels) sc)) in
        ret (match e with Some e => (false, Some (wrap_err "failed to update rgw storage class" e)) | None => (true, None) end)
      else ret (false, None)
  end.

(** ** Users *)

Definition user_list : IO (list RookUser * option err) :=
  read "CephObjectStoreUserList" rookNs EmptyString (λ h, w_user_list h rookNs).

Definition processRgwUsers (process : objectProcess) (user : RookUser) : IO (option err) :=
  process_object "CephObjectStoreUser" process (RUser user) (rus_Namespace user) (rus_Name user).

Definition new_user (user : CephObjectStoreUser) : RookUser :=
  let spec := (CephObjectStoreUser_GetSpec user).1 in
  let spec := if decide (sus_DisplayName spec = EmptyString) then set_sus_DisplayName (osu_Name user) spec else spec in
  mkRookUser (osu_Name user) rookNs (Some baseResourceLabels) spec None ∅.

Definition align_user (new present : RookUser) : RookUser * bool :=
  let '(labels, labelsChanged) := AlignBaseLabels (rus_Labels present) (default ∅ (rus_Labels new)) in
  (set_rus_Spec (rus_Spec new) (set_rus_Labels (Some labels) present),
   negb (bool_decide (rus_Spec present = rus_Spec new)) || labelsChanged).

(** A user without a status is not ready; its phase is not looked at. *)
Definition user_phase (user : RookUser) : option string := const EmptyString <$> rus_Phase user.

Definition user_step (rgwName : string) (acc : gmap string RookUser * list err * bool) (user : CephObjectStoreUser)
    : IO (gmap string RookUser * list err * bool) :=
  if decide (sus_Store (CephObjectStoreUser_GetSpec user).1 = rgwName) then
    sync_step "CephObjectStoreUser" rookNs rus_Name rus_Namespace user_phase RUser align_user acc (new_user user)
  else ret acc.

Definition ensureRgwUsers (storage : CephObjectStorage) (rgwName : string) : IO (bool * option err) :=
  let* r := user_list in
  match r with
  | (_, Some e) => ret (false, Some (wrap_err "failed to list rgw users" e))
  | (users, None) =>
      let present : gmap string RookUser :=
        foldl (λ m user, if decide (sus_Store (rus_Spec user) = rgwName) then <[rus_Name user := user]> m else m) ∅ users in
      let* acc := foldM (user_step rgwName) (cos_Users storage) (present, [], false) in
      let '(present, errMsg, changed) := acc in
      let* r := foldM (sync_drop "CephObjectStoreUser" rus_Name rus_Namespace RUser (λ _, false)) (range 103 present) (errMsg, changed) in
      ret (ensured (wrap_err "failed to ensure CephObjectStoreUsers")
             "failed to ensure CephObjectStoreUsers, multiple errors during users ensure" r.1 r.2)
  end.

(** ** The external service *)

Definition generateRgwExternalService (name namespace externalAccessLabel : string) (port securePort : Z) : Service :=
  mkService (buildRGWName name "external") namespace
    (Some (ParseToLabelSelector externalAccessLabel ∪
           ExtendLabels {["app" := "rook-ceph-rgw"; "rook_object_store" := name]} baseResourceLabels))
    [mkServicePort "http" 80 "TCP" port; mkServicePort "https" 443 "TCP" securePort]
    {["app" := "rook-ceph-rgw"; "rook_cluster" := namespace; "rook_object_store" := name]} "LoadBalancer" "None".

(** A wanted port among those of the service, compared by its number. *)
Fixpoint align_port (newPort : ServicePort) (ports : list ServicePort) : list ServicePort * bool :=
  match ports with
  | [] => ([newPort], true)
  | curPort :: ports' =>
      if decide (svp_Port newPort = svp_Port curPort) then
        if bool_decide (svp_Name newPort = svp_Name curPort) && bool_decide (svp_TargetPort newPort = svp_TargetPort curPort)
        then (ports, false)
        else (set_svp_TargetPort (svp_TargetPort newPort) (set_svp_Name (svp_Name newPort) curPort) :: ports', true)
      else let '(ports', changed) := align_port newPort ports' in (curPort :: ports', changed)
  end.

Definition align_ports (new ports : list ServicePort) : list ServicePort * bool :=
  foldl (λ '(ports, changed) newPort, let '(ports, c) := align_port newPort ports in (ports, changed || c)) (ports, false) new.

(** Labels are aligned only when the ports are as wanted. *)
Definition align_service (new svc : Service) : Service * bool :=
  let '(ports, portsChanged) := align_ports (svc_Ports new) (svc_Ports svc) in
  if (portsChanged : bool) then (set_svc_Ports ports svc, true)
  else let '(labels, labelsChanged) := AlignBaseLabels (svc_Labels svc) (default ∅ (svc_Labels new)) in
       (set_svc_Labels (Some labels) svc, labelsChanged).

Definition getBaseHTTPRouteLabels (rgwName externalAccessLabel : string) : gmap string string :=
  ParseToLabelSelector externalAccessLabel ∪ {["app" := "rook-ceph-rgw"; "rook_object_store" := rgwName]}.

Definition cephIngressLabel : string := "cephdeployment.lcm.mirantis.com/ingress".
Definition getBaseIngressLabels (rgwName externalAccessLabel : string) : gmap string string :=
  ParseToLabelSelector externalAccessLabel ∪
  {[cephIngressLabel := "ceph-object-store-ingress"; "app" := "rook-ceph-rgw"; "rook_object_store" := rgwName]}.

Definition route_list (selector : gmap string string) : IO (list HTTPRoute * option err) :=
  read "HTTPRouteList" rookNs EmptyString (λ h, w_route_list h rookNs selector).

(** Whether a route or an ingress serves the gateway. *)
Definition served_otherwise (common : CommonParams) (rgwName : string) : IO (bool + err) :=
  let label := cp_RgwPublicAccessLabel common in
  if decide (label = EmptyString) then ret (inl false)
  else
    let* routes :=
      if cp_GatewayAPIEnabled common then
        let* r := route_list (getBaseHTTPRouteLabels rgwName label) in
        ret (match r with
             | (_, Some e) => inr (wrap_err "failed to list rgw gateway httproutes to ensure rgw httproutes" e)
             | (routes, None) => inl (negb (bool_decide (routes = [])))
             end)
      else ret (inl false) in
    match routes with
    | inr e => ret (inr e)
    | inl routeFound =>
        if cp_KeepIngress common then
          let* r := read "IngressList" rookNs EmptyString (λ h, w_ingress_list h rookNs (getBaseIngressLabels rgwName label)) in
          ret (match r with
               | (_, Some e) => inr (wrap_err "failed to find ingress to remove" e)
               | (ingresses, None) => inl (routeFound || negb (bool_decide (ingresses = [])))
               end)
        else ret (inl routeFound)
    end.

Definition drop_service (svcName : string) : IO (bool * option err) :=
  let* e := object_delete "Service" rookNs svcName in
  match e with
  | None => ret (true, None)
  | Some e => ret (false, if is_not_found e then None else Some (wrap_err ("failed to cleanup rgw external service '" +:+ rookNs +:+ "/" +:+ svcName +:+ "'") e))
  end.

Definition ensureExternalService (common : CommonParams) (rgw : DplObjectStore) : IO (bool * option err) :=
  let rgwName := dos_Name rgw in
  let label := cp_RgwPublicAccessLabel common in
  let* r := served_otherwise common rgwName in
  match r with
  | inr e => ret (false, Some e)
  | inl served =>
      let svcName := buildRGWName rgwName "external" in
      if served || bool_decide (label = EmptyString) then drop_service svcName
      else
        let spec := (CephObjectStore_GetSpec rgw).1 in
        let* r := read "Service" rookNs svcName (λ h, w_service_get h rookNs svcName) in
        let new := generateRgwExternalService rgwName rookNs label (ost_Port spec) (ost_SecurePort spec) in
        match r with
        | (_, Some e) =>
            if is_not_found e then
              let* e := apply_resource objectCreate (RService new) in
              ret (match e with Some e => (false, Some (wrap_err "failed to create rgw external service" e)) | None => (true, None) end)
            else ret (false, Some (wrap_err "failed to get rgw external service" e))
        | (svc, None) =>
            let '(svc, updateRequired) := align_service new svc in
            if (updateRequired : bool) then
              let* e := apply_resource objectUpdate (RService svc) in
              ret (match e with Some e => (false, Some (wrap_err "failed to update rgw external service" e)) | None => (true, None) end)
            else ret (false, None)
        end
  end.

(** ** Removal *)

(** [rgwToRemove] is the empty string when everything is to be removed. *)
Definition concerns (rgwToRemove name : string) : bool := bool_decide (rgwToRemove = EmptyString) || bool_decide (name = rgwToRemove).

(** What is left to delete, and the number of errors. *)
Definition drop_user (rgwToRemove : string) (acc : bool * nat) (user : RookUser) : IO (bool * nat) :=
  if concerns rgwToRemove (sus_Store (rus_Spec user)) then
    let* e := processRgwUsers objectDelete user in
    ret (false, match e with Some _ => S acc.2 | None => acc.2 end)
  else ret acc.

Definition drop_bucket (rgwToRemove : string) (acc : bool * nat) (bucket : string * string) : IO (bool * nat) :=
  if bool_decide (rgwToRemove = EmptyString) || bool_decide (bucket.2 = getRgwStorageClass rgwToRemove) then
    let* e := object_delete "ObjectBucketClaim" rookNs bucket.1 in
    ret (false, match e with Some _ => S acc.2 | None => acc.2 end)
  else ret acc.

(** Whether the object was there, or an error. *)
Definition was_there (e : option err) : bool + err :=
  match e with
  | None => inl true
  | Some e => if is_not_found e then inl false else inr e
  end.

(** The times of a store are forgotten. *)
Definition forget_store (name : string) : IO unit :=
  update_stamps (λ s, set_ut_rgwSSLCert (delete name (ut_rgwSSLCert s))
                        (set_ut_cephConfigMap (delete (rgwConfigSectionName name) (ut_cephConfigMap s)) s)).

(** One store: its service and its class go first, the store itself in a round in which both
    are gone. *)
Definition drop_store (external : bool) (acc : bool * nat) (rgw : RookStore) : IO (bool * nat) :=
  let name := rst_Name rgw in
  let* svc := if external then ret (inl false) else let* e := object_delete "Service" rookNs (buildRGWName name "external") in ret (was_there e) in
  match svc with
  | inr _ => ret (false, S acc.2)
  | inl svcFound =>
      let* e := object_delete "StorageClass" EmptyString (getRgwStorageClass name) in
      match was_there e with
      | inr _ => ret (false, S acc.2)
      | inl classFound =>
          if svcFound || classFound then ret (false, acc.2)
          else
            let* e := object_delete "CephObjectStore" rookNs name in
            forget_store name ;;; ret (false, match e with Some _ => S acc.2 | None => acc.2 end)
      end
  end.

Definition drop_stores (external : bool) (rgwToRemove : string) : IO (bool * option err) :=
  let* r := store_list rookNs in
  match r with
  | (_, Some e) => ret (false, Some (wrap_err "failed to list rgw object stores" e))
  | (stores, None) =>
      let* acc := foldM (λ acc rgw, if concerns rgwToRemove (rst_Name rgw) then drop_store external acc rgw else ret acc) stores (true, O) in
      when' (bool_decide (rgwToRemove = EmptyString)) (update_stamps (set_ut_rgwRuntimeParams EmptyString)) ;;;
      match acc.2 with
      | O => ret (acc.1, None)
      | S _ => ret (false, Some (new_err "failed to cleanup rgw object store resources"))
      end
  end.

Definition deleteRgw (external : bool) (rgwToRemove : string) : IO (bool * option err) :=
  let* r := user_list in
  match r with
  | (_, Some e) => ret (false, Some (wrap_err "failed to get list of rgw users" e))
  | (users, None) =>
      let* r := read "ObjectBucketClaimList" rookNs EmptyString (λ h, w_bucket_list h rookNs) in
      match r with
      | (_, Some e) => ret (false, Some (wrap_err "failed to get list of rgw buckets" e))
      | (buckets, None) =>
          let* acc := foldM (drop_user rgwToRemove) users (true, O) in
          let* acc := foldM (drop_bucket rgwToRemove) buckets acc in
          match acc with
          | (_, S _) => ret (false, Some (new_err "failed to remove some rgw user/buckets"))
          | (false, O) => ret (false, None)
          | (true, O) => drop_stores external rgwToRemove
          end
      end
  end.

Definition deleteRgwAdminOpsSecret : IO (bool * option err) :=
  let* e := object_delete "Secret" rookNs rgwAdminUserSecretName in
  match e with
  | None => ret (false, None)
  | Some e =>
      ret (if is_not_found e then (true, None)
           else (false, Some (wrap_err ("failed to delete rgw admin ops secret " +:+ rookNs +:+ "/" +:+ rgwAdminUserSecretName) e)))
  end.

Definition deleteRgwBuiltInPool (c : deployConfig) (fullCleanup : bool) : IO (bool * option err) :=
  if negb fullCleanup && existsb (λ pool, bool_decide (pl_Name pool = ".rgw.root")) (default [] (dsp_BlockStorage (cdp_Spec (dc_cephDpl c))))
  then ret (true, None)
  else
    let poolName := getBuiltinPoolName ".rgw.root" in
    let* e := object_delete "CephBlockPool" rookNs poolName in
    match e with
    | None => ret (false, None)
    | Some e =>
        ret (if is_not_found e then (true, None)
             else (false, Some (wrap_err ("failed to delete builtin rgw pool " +:+ rookNs +:+ "/" +:+ poolName) e)))
    end.

(** ** Stores that are not in the spec *)

(** A store that does not take part in the synchronisation of a zone that is still in use. *)
Definition held_store (zonesInUse : list string) (rgw : RookStore) : bool :=
  ost_DisableMultisiteSyncTraffic (rst_Spec rgw) && bool_decide (ost_ZoneName (rst_Spec rgw) ∈ zonesInUse).

(** The stores that exist; [false] when one is left over. *)
Fixpoint odd_stores (external : bool) (rgwInSpec zonesInUse : list string) (stores : list RookStore) (consistent : bool) : IO (bool + err) :=
  match stores with
  | [] => ret (inl consistent)
  | rgw :: stores' =>
      if decide (rst_Name rgw ∈ rgwInSpec) then odd_stores external rgwInSpec zonesInUse stores' consistent
      else if held_store zonesInUse rgw then odd_stores external rgwInSpec zonesInUse stores' false
      else
        let* r := deleteRgw external (rst_Name rgw) in
        match r.2 with
        | Some e => ret (inr (wrap_err "failed to cleanup inconsistent rgw resources" e))
        | None => odd_stores external rgwInSpec zonesInUse stores' false
        end
  end.

Definition spec_zones (rgws : list DplObjectStore) : list string :=
  filter (λ zone, zone ≠ EmptyString) ((λ rgw, ost_ZoneName (CephObjectStore_GetSpec rgw).1) <$> rgws).

Definition ensureRgwConsistence (storage : CephObjectStorage) (external : bool) : IO (bool * option err) :=
  let* r := store_list rookNs in
  match r with
  | (_, Some e) => ret (false, Some (wrap_err "failed to list rgw object store" e))
  | (stores, None) =>
      let* r := odd_stores external (dos_Name <$> cos_Rgws storage) (spec_zones (cos_Rgws storage)) stores true in
      match r with
      | inr e => ret (false, Some e)
      | inl consistent =>
          let* r := deleteSelfSignedCerts rookNs (Some (rst_Name <$> stores)) in
          match r with
          | (_, Some e) => ret (false, Some (wrap_err "failed to cleanup odd rgw secrets" e))
          | (removedSsl, None) => ret (consistent && removedSsl, None)
          end
      end
  end.

(** ** Everything about gateways *)

(** The user with which OpenStack reads the usage of the store; the code writes its spec as
    JSON, to be decoded again. *)
Definition metrics_user (rgwName : string) : CephObjectStoreUser :=
  mkStoreUser rgwMetricsUser (mkRaw None (Some (Some (mkStoreUserSpec rgwName rgwMetricsUser
    {["user" := "read"; "bucket" := "read"; "metadata" := "read"; "usage" := "read"]} EmptyString)))).

(** The state of the loop: object storage, whose users grow; the store of OpenStack, if any;
    changes; messages. *)
Record rgw_state := mkRgwState {
  rgs_storage : CephObjectStorage;
  rgs_rockoon : string;
  rgs_changed : bool;
  rgs_errs : list string;
}.
Definition rgs_fail (msg : string) (s : rgw_state) : rgw_state :=
  mkRgwState (rgs_storage s) (rgs_rockoon s) (rgs_changed s) (rgs_errs s ++ [msg]).
Definition rgs_result (msg : string) (r : bool * option err) (s : rgw_state) : rgw_state :=
  mkRgwState (rgs_storage s) (rgs_rockoon s) (rgs_changed s || r.1)
    (rgs_errs s ++ match r.2 with Some _ => [msg] | None => [] end).

(** A store that is ensured: its class, its service and its users. *)
Definition rgw_parts (c : deployConfig) (external : bool) (rgw : DplObjectStore) (s : rgw_state) : IO rgw_state :=
  let name := dos_Name rgw in
  let quoted what := "failed to ensure rgw '" +:+ name +:+ "' " +:+ what in
  let* s :=
    if dos_AuxiliaryService rgw then ret s
    else
      let* r := ensureRgwStorageClass name in
      let s := rgs_result (quoted "storage class") r s in
      if external then ret s
      else
        let* r := ensureExternalService (dc_commonParams c) rgw in
        ret (rgs_result (quoted "external service") r s) in
  let s :=
    if dos_UsedForOpenstack rgw && bool_decide (rgs_rockoon s = EmptyString) && negb external then
      mkRgwState (set_cos_Users (metrics_user name :: cos_Users (rgs_storage s)) (rgs_storage s)) name (rgs_changed s) (rgs_errs s)
    else s in
  let* r := ensureRgwUsers (rgs_storage s) name in
  ret (rgs_result (quoted "users") r s).

(** The store itself, once its certificates are there. *)
Definition rgw_object (c : deployConfig) (external : bool) (rgw : DplObjectStore) (s : rgw_state) : IO rgw_state :=
  let* r := ensureRgwObject c (rgs_storage s) external rgw in
  match r with
  | (_, Some _) => ret (rgs_fail ("failed to ensure rgw object store '" +:+ dos_Name rgw +:+ "'") s)
  | (changed, None) =>
      rgw_parts c external rgw (mkRgwState (rgs_storage s) (rgs_rockoon s) (rgs_changed s || changed) (rgs_errs s))
  end.

Definition rgw_step (c : deployConfig) (external : bool) (s : rgw_state) (rgw : DplObjectStore) : IO (option rgw_state) :=
  let name := dos_Name rgw in
  let* e := statusRgw name in
  match e with
  | Some _ => ret (Some (rgs_fail ("failed to check rgw '" +:+ name +:+ "' state") s))
  | None =>
      if external then let* s := rgw_object c external rgw s in ret (Some s)
      else
        let* r := ensureRgwSslCert rookNs params c rgw in
        match r with
        | None => ret None
        | Some (_, Some _) => ret (Some (rgs_fail ("failed to ensure rgw ssl cert for rgw '" +:+ name +:+ "'") s))
        | Some (changed, None) =>
            let* s := rgw_object c external rgw (mkRgwState (rgs_storage s) (rgs_rockoon s) (rgs_changed s || changed) (rgs_errs s)) in
            ret (Some s)
        end
  end.

Definition ensureRgw (c : deployConfig) (storage : CephObjectStorage) (external : bool) : IO (option (bool * option err)) :=
  let* r := ensureRgwConsistence storage external in
  match r with
  | (_, Some e) => ret (Some (false, Some e))
  | (consistent, None) =>
      let* s := foldMo (rgw_step c external) (cos_Rgws storage) (mkRgwState storage EmptyString (negb consistent) []) in
      match s with
      | None => ret None
      | Some s =>
          match rgs_errs s with
          | [] => ret (Some (rgs_changed s, None))
          | errs => ret (failed_new ("error(s) during rgw ensure: " +:+ Join errs ", "))
          end
      end
  end.
End rgw.
