(* ===== verification/ObjectStorage.v ===== *)
(** * Object storage

    pkg/controller/deployment/gateway.go (routes of the Gateway API) and object_storage.go (the
    order in which sites, gateways and routes are ensured and removed).

    [None] is a panic.  The pointer to the spec of the cluster is set before any operation runs
    ([DeployFacts.about]); where it is read here, a missing one counts as that of a cluster of
    its own. *)

From S2P Require Import Prelude GoTime Types HealthTypes DeployTypes World HealthWorld CleanupJob Extensions Validate DeployWorld Resources NodeLabels CephConfig External StoreWorld Multisite Rgw.
Open Scope Z_scope.

(** ** Routes *)

(** Defaults of a rule: everything under [/] goes to the service of the store. *)
Definition with_rule_defaults (store : string) (port : Z) (rule : HTTPRouteRule) : HTTPRouteRule :=
  let rule := if decide (hrr_Matches rule = []) then set_hrr_Matches [MatchPathPrefix "/"] rule else rule in
  if decide (hrr_BackendRefs rule = []) then set_hrr_BackendRefs [BackendService (buildRGWName store EmptyString) port 1] rule else rule.

Section routes.
Context `{World} `{HealthWorld} `{DeployWorld} `{SpecDecoder} `{ResourceWorld} `{StoreWorld} `{MapRange}.
Variables (rookNs : string) (params : DeployParams).

Definition store_port (storage : CephObjectStorage) (name : string) : Z :=
  match list_find (λ rgw, dos_Name rgw = name) (cos_Rgws storage) with
  | Some (_, rgw) => ost_Port (CephObjectStore_GetSpec rgw).1
  | None => 0
  end.

Definition generateHTTPRoute (common : CommonParams) (storage : CephObjectStorage) (route : CephDeploymentHTTPRoute) : HTTPRoute :=
  let store := dhr_ObjectStoreName route in
  let spec := (HTTPRoute_GetSpec route).1 in
  let parents :=
    if decide (hrs_ParentRefs spec = []) then [ParentGateway (cp_BaseGatewayName common) (cp_BaseGatewayNamespace common)] else hrs_ParentRefs spec in
  let rules := if decide (hrs_Rules spec = []) then [mkRouteRule (Some "default") [] [] EmptyString] else hrs_Rules spec in
  mkHTTPRoute (dhr_Name route) rookNs
    (Some (ExtendLabels (getBaseHTTPRouteLabels store (cp_RgwPublicAccessLabel common)) DeployWorld.baseResourceLabels))
    (mkRouteSpec parents (hrs_Hostnames spec) (with_rule_defaults store (store_port storage store) <$> rules)).

(** The route of a gateway for OpenStack; the code writes its spec as JSON, to be decoded
    again. *)
Definition openstack_route (rgwName domain : string) : CephDeploymentHTTPRoute :=
  mkDplRoute (rgwName +:+ "-openstack-route") rgwName (mkRaw None (Some (Some (mkRouteSpec [] [rgwName +:+ "." +:+ domain] [])))).

(** Default routes, and whether a secret could not be read. *)
Fixpoint openstack_routes (rgws : list DplObjectStore) (acc : list CephDeploymentHTTPRoute * bool)
    : IO ((list CephDeploymentHTTPRoute * bool) + err) :=
  match rgws with
  | [] => ret (inl acc)
  | rgw :: rgws' =>
      if dos_UsedForOpenstack rgw then
        let ns := dp_OpenstackCephSharedNamespace params in
        match checkOpenstackNamespaceSetForRgw (dos_Name rgw) ns with
        | Some e => ret (inr e)
        | None =>
            let* r := data_get "Secret" ns openstackRgwCredsName in
            match r with
            | (_, Some e) => openstack_routes rgws' (if is_not_found e then acc else (acc.1, true))
            | (secret, None) =>
                openstack_routes rgws' (acc.1 ++ [openstack_route (dos_Name rgw) (value_of (dob_Data secret) "public_domain")], acc.2)
            end
        end
      else openstack_routes rgws' acc
  end.

Definition routes_to_manage (storage : CephObjectStorage) : IO (list CephDeploymentHTTPRoute + err) :=
  if decide (cos_GatewayHTTPRoutes storage = []) then
    let* r := openstack_routes (cos_Rgws storage) ([], false) in
    ret (match r with
         | inr e => inr e
         | inl (_, true) => inr (new_err "failed to ensure default rgw gateway httproute")
         | inl (routes, false) => inl routes
         end)
  else ret (inl (cos_GatewayHTTPRoutes storage)).

(** A write and what it leads to: changes and failures. *)
Definition route_result (acc : bool * bool) (e : option err) : bool * bool :=
  match e with Some _ => (acc.1, true) | None => (true, acc.2) end.

Definition route_step (common : CommonParams) (storage : CephObjectStorage) (acc : gmap string HTTPRoute * (bool * bool)) (route : CephDeploymentHTTPRoute)
    : IO (gmap string HTTPRoute * (bool * bool)) :=
  let new := generateHTTPRoute common storage route in
  match acc.1 !! dhr_Name route with
  | Some cur =>
      let present := delete (dhr_Name route) acc.1 in
      let '(labels, labelsUpdated) := AlignBaseLabels (htr_Labels cur) (default ∅ (htr_Labels new)) in
      let specUpdated := negb (bool_decide (htr_Spec new = htr_Spec cur)) in
      if specUpdated || labelsUpdated then
        let cur := set_htr_Labels (Some labels) cur in
        let* e := apply_resource objectUpdate (RHTTPRoute (if specUpdated then set_htr_Spec (htr_Spec new) cur else cur)) in
        ret (present, route_result acc.2 e)
      else ret (present, acc.2)
  | None =>
      let* e := apply_resource objectCreate (RHTTPRoute new) in
      ret (acc.1, route_result acc.2 e)
  end.

Definition drop_route (acc : bool * bool) (entry : string * HTTPRoute) : IO (bool * bool) :=
  let* e := object_delete "HTTPRoute" rookNs entry.1 in
  ret (route_result acc e).

Definition ensureGatewayHTTPRoutes (common : CommonParams) (storage : CephObjectStorage) : IO (bool * option err) :=
  if cp_GatewayAPIEnabled common then
    let* r := route_list rookNs ∅ in
    match r with
    | (_, Some e) => ret (false, Some (wrap_err "failed to list rgw gateway httproutes to ensure rgw httproutes" e))
    | (items, None) =>
        let present : gmap string HTTPRoute := foldl (λ m route, <[htr_Name route := route]> m) ∅ items in
        let* r := routes_to_manage storage in
        match r with
        | inr e => ret (false, Some e)
        | inl routes =>
            let* acc :=
              if decide (cp_RgwPublicAccessLabel common = EmptyString) then ret (present, (false, false))
              else foldM (route_step common storage) routes (present, (false, false)) in
            let* r := foldM drop_route (range 104 acc.1) acc.2 in
            ret (if r.2 then (false, Some (new_err "failed to ensure rgw gateway httproute(s)")) else (r.1, None))
        end
    end
  else ret (false, None).

Definition delete_route (acc : bool * nat) (route : HTTPRoute) : IO (bool * nat) :=
  let* e := object_delete "HTTPRoute" (htr_Namespace route) (htr_Name route) in
  ret (match e with Some _ => (acc.1, S acc.2) | None => (false, acc.2) end).

Definition deleteGatewayHTTPRoutes (common : CommonParams) : IO (bool * option err) :=
  if cp_GatewayAPIEnabled common then
    let* r := route_list rookNs DeployWorld.baseResourceLabels in
    match r with
    | (_, Some e) => ret (false, Some (wrap_err "failed to list rgw gateway httproutes to ensure rgw httproutes" e))
    | (routes, None) =>
        let* acc := foldM delete_route routes (true, O) in
        match acc.2 with
        | O => ret (acc.1, None)
        | S _ => ret (false, Some (new_err "failed to delete gateway httproutes"))
        end
    end
  else ret (false, None).

(** ** Ensuring object storage *)

Definition external_cluster (c : deployConfig) : bool :=
  match dc_clusterSpec c with Some cs => csp_External cs | None => false end.

Definition no_storage : CephObjectStorage := mkObjectStorage [] [] [] [] [] [].

(** Changes and messages of a step. *)
Definition collect_step (msg : string) (acc : bool * list string) (r : bool * option err) : bool * list string :=
  (acc.1 || r.1, acc.2 ++ match r.2 with Some _ => [msg] | None => [] end).

(** What is removed once nothing needs it. *)
Definition ensure_unused (c : deployConfig) (storage : CephObjectStorage) (external : bool) : IO (bool * list string) :=
  if external then
    if decide (cos_Rgws storage = []) then
      let* r := deleteRgwAdminOpsSecret rookNs in
      ret (negb r.1, match r.2 with Some _ => ["failed to delete external rgw admin ops secret"] | None => [] end)
    else ret (false, [])
  else if decide (cos_Rgws storage = [] ∧ cos_Zones storage = []) then
    let* r := deleteRgwBuiltInPool rookNs c false in
    ret (negb r.1, match r.2 with Some _ => ["failed to delete builtin .rgw.root pool"] | None => [] end)
  else ret (false, []).

Definition storage_result (acc : bool * list string) : bool * option err :=
  match acc.2 with
  | [] => (acc.1, None)
  | errs => (false, Some (new_err ("error(s) during object storage ensure: " +:+ Join errs ", ")))
  end.

Definition ensureObjectStorage (c : deployConfig) : IO (option (bool * option err)) :=
  let storage := default no_storage (dsp_ObjectStorage (cdp_Spec (dc_cephDpl c))) in
  let external := external_cluster c in
  let* acc :=
    if external then ret (false, [])
    else let* r := ensureRgwMultiSite rookNs storage in ret (collect_step "failed to ensure object storage multisite" (false, []) r) in
  let* r := ensureRgw rookNs params c storage external in
  match r with
  | None => ret None
  | Some r =>
      let acc := collect_step "failed to ensure ceph rgw" acc r in
      let* acc :=
        if external then ret acc
        else let* r := ensureGatewayHTTPRoutes (dc_commonParams c) storage in ret (collect_step "failed to ensure gateway httproutes" acc r) in
      let* acc :=
        match acc with
        | (false, []) => ensure_unused c storage external
        | _ => ret acc
        end in
      ret (Some (storage_result acc))
  end.

(** ** Removing object storage *)

(** What is left, and the number of errors. *)
Definition removed_step (acc : bool * nat) (r : bool * option err) : bool * nat :=
  (acc.1 && r.1, match r.2 with Some _ => S acc.2 | None => acc.2 end).

(** After the gateways are gone. *)
Definition delete_rest (c : deployConfig) (external : bool) (acc : bool * nat) : IO (bool * nat) :=
  let* r := deleteSelfSignedCerts rookNs None in
  let acc := removed_step acc r in
  if external then
    let* r := deleteRgwAdminOpsSecret rookNs in ret (removed_step acc r)
  else
    let* r := deleteMultiSite rookNs in
    let acc := removed_step acc r in
    if r.1 then let* r := deleteRgwBuiltInPool rookNs c true in ret (removed_step acc r) else ret acc.

Definition deleteObjectStorage (c : deployConfig) : IO (bool * option err) :=
  let external := external_cluster c in
  let* acc :=
    if external then ret (true, O)
    else let* r := deleteGatewayHTTPRoutes (dc_commonParams c) in ret (removed_step (true, O) r) in
  let* r := deleteRgw rookNs external EmptyString in
  let acc := removed_step acc r in
  let* acc := if r.1 then delete_rest c external acc else ret acc in
  match acc.2 with
  | O => ret (acc.1, None)
  | S _ => ret (false, Some (new_err "failed to cleanup object storage"))
  end.
End routes.
