(* ===== verification/CsiOperator.v ===== *)
(** * Objects of the CSI operator and snapshot classes

    pkg/controller/deployment/csi_operator.go: the configuration of the CSI operator and the
    drivers, made from the parameters of the controller and the spec, and their removal; and
    vsclass.go: the classes of volume snapshots of the drivers that exist.

    Specs of drivers are given by the fields that are set ([DriverSpec]).  [None] is a panic. *)

From S2P Require Import Prelude GoTime Types HealthTypes DeployTypes World HealthWorld Extensions Validate DeployWorld Resources NodeLabels CephConfig StoreWorld.
Open Scope Z_scope.

Definition cephCsiOperatorConfigName : string := "ceph-csi-operator-config".
Definition cephCsiOperatorImageConfigMapName : string := "rook-csi-operator-image-set-configmap".
Definition driver_name (ns driverType : string) : string := ns +:+ "." +:+ driverType +:+ ".csi.ceph.com".

(** ** Merging *)

(** The fields that are merged. *)
Definition driver_keys : list string :=
  ["Log"; "ImageSet"; "ClusterName"; "GRpcTimeout"; "SnapshotPolicy"; "GenerateOMapInfo"; "EnableFencing"; "FsGroupPolicy"; "Encryption";
   "AttachRequired"; "Liveness"; "LeaderElection"; "DeployCsiAddons"; "KernelMountOptions"; "FuseMountOptions"; "CephFsClientType"].
Definition pod_keys : list string :=
  ["ServiceAccountName"; "PrioritylClassName"; "Labels"; "Annotations"; "Affinity"; "Tolerations"; "Volumes"; "ImagePullPolicy"].
Definition node_keys : list string :=
  pod_keys ++ ["UpdateStrategy"; "KubeletDirPath"; "EnableSeLinuxHostMount"; "Resources.Registrar"; "Resources.Liveness"; "Resources.Plugin";
               "Resources.LogRotator"; "Resources.Addons"; "ContainerExtraArgs"].
Definition controller_keys : list string :=
  pod_keys ++ ["Replicas"; "Privileged"; "Resources.Attacher"; "Resources.Snapshotter"; "Resources.Resizer"; "Resources.Provisioner";
               "Resources.OMapGenerator"; "Resources.Liveness"; "Resources.Plugin"; "Resources.LogRotator"; "Resources.Addons"; "ContainerExtraArgs"].

Abbreviation driver_fields := (gmap string driver_value).

Definition merge_fields (keys : list string) (dest src : driver_fields) : driver_fields := dest ∪ filter (λ '(k, _), k ∈ keys) src.
Definition merge_plugin (keys : list string) (dest src : option driver_fields) : option driver_fields :=
  match src, dest with
  | None, _ => dest
  | Some src, None => Some src
  | Some src, Some dest => Some (merge_fields keys dest src)
  end.

(** The fields of [dest] that are not set are taken from [src]. *)
Definition mergeDriverSpecs (dest src : DriverSpec) : DriverSpec :=
  mkDriverSpec (merge_fields driver_keys (drs_Fields dest) (drs_Fields src))
    (merge_plugin node_keys (drs_NodePlugin dest) (drs_NodePlugin src))
    (merge_plugin controller_keys (drs_ControllerPlugin dest) (drs_ControllerPlugin src)).

(** A field that counts as not set when it is empty. *)
Definition set_text (k v : string) (m : driver_fields) : driver_fields := if decide (v = EmptyString) then m else <[k := FieldText v]> m.
Definition set_tolerations (l : list Toleration) (m : driver_fields) : driver_fields :=
  if decide (l = []) then m else <["Tolerations" := FieldTolerations l]> m.

Definition bool_text (b : bool) : string := if b then "true" else "false".

(** The deletion of listed objects one by one: [false] once one was deleted, and done as soon as
    one is found to be gone already if [absent_ends]. *)
Fixpoint delete_listed `{DeployWorld} (kind ns : string) (absent_ends : bool) (failed : string → string) (names : list string) (removed : bool)
    : IO (bool * option err) :=
  match names with
  | [] => ret (removed, None)
  | name :: names' =>
      let* e := object_delete kind ns name in
      match e with
      | Some e => ret (if absent_ends && is_not_found e then (true, None) else (false, Some (wrap_err (failed name) e)))
      | None => delete_listed kind ns absent_ends failed names' false
      end
  end.

Section csi.
Context `{DeployWorld} `{SpecDecoder} `{ResourceWorld} `{ServiceWorld} `{MapRange}.
Variables (rookNs : string) (params : DeployParams).
Let csi : CSIDeployParams := dp_CSIParams params.

(** ** The configuration of the operator *)

Definition generateDefaultDriverSpec (c : deployConfig) : DriverSpec :=
  let pod affinity tolerations :=
    set_tolerations tolerations (<["Affinity" := FieldAffinity affinity]> {["PrioritylClassName" := FieldText EmptyString]}) in
  mkDriverSpec
    {["ImageSet" := FieldText cephCsiOperatorImageConfigMapName; "ClusterName" := FieldText (cdp_Name (dc_cephDpl c));
      "GenerateOMapInfo" := FieldText "false"; "FsGroupPolicy" := FieldText "File"; "DeployCsiAddons" := FieldText (bool_text (csi_DeployCSIAddons csi));
      "CephFsClientType" := FieldText "kernel"]}
    (Some (set_text "KubeletDirPath" (csi_KubeletPath csi)
             (<["EnableSeLinuxHostMount" := FieldText "true"]> (pod (csi_NodePluginNodeAffinity csi) (csi_NodePluginToleration csi)))))
    (Some (<["Replicas" := FieldText "2"]> (pod (csi_ControllerPluginNodeAffinity csi) (csi_ControllerPluginToleration csi)))).

Definition spec_config (c : deployConfig) : option CephCSIOperatorConfig := dsp_CSIResources (cdp_Spec (dc_cephDpl c)) ≫= csr_OperatorConfig.

(** The wanted spec, beside the object that is there. *)
Definition wanted_config (c : deployConfig) (present : option CsiOperatorConfig) : option OperatorConfigSpec :=
  let defaults := generateDefaultDriverSpec c in
  match spec_config c with
  | None => Some (mkOperatorConfigSpec (Some defaults) EmptyString)
  | Some config =>
      let fromSpec := (OperatorConfig_GetSpec config).1 in
      match ocs_DriverSpecDefaults fromSpec with
      | None => None
      | Some dest =>
          if coc_FullOverride config then
            Some (mkOperatorConfigSpec
                    (Some (set_drs_Fields (drs_Fields dest ∪ {["ClusterName" := FieldText (cdp_Name (dc_cephDpl c))]}) dest)) (ocs_Rest fromSpec))
          else
            let src := match present with
                       | Some opConfig => if csi_KeepExisting csi then ocs_DriverSpecDefaults (cof_Spec opConfig) else Some defaults
                       | None => Some defaults
                       end in
            (λ src, mkOperatorConfigSpec (Some (mergeDriverSpecs dest src)) (ocs_Rest fromSpec)) <$> src
      end
  end.

Definition config_at (name : string) : string := "'" +:+ rookNs +:+ "/" +:+ name +:+ "'".

Definition write_config (c : deployConfig) (present : option CsiOperatorConfig) : IO (option (bool * option err)) :=
  match wanted_config c present with
  | None => ret None
  | Some spec =>
      match present with
      | Some opConfig =>
          let '(labels, labelsUpdated) := AlignBaseLabels (cof_Labels opConfig) baseResourceLabels in
          let specUpdated := negb (bool_decide (spec = cof_Spec opConfig)) in
          if specUpdated || labelsUpdated then
            let* e := apply_resource objectUpdate (RCsiConfig (set_cof_Spec spec (set_cof_Labels (Some labels) opConfig))) in
            ret (Some (match e with
                       | Some e => (false, Some (wrap_err ("failed to update cephcsi OperatorConfig " +:+ config_at (cof_Name opConfig)) e))
                       | None => (true, None)
                       end))
          else ret (Some (false, None))
      | None =>
          let* e := apply_resource objectCreate
                      (RCsiConfig (mkCsiOperatorConfig cephCsiOperatorConfigName rookNs (Some baseResourceLabels) spec)) in
          ret (Some (match e with
                     | Some e => (false, Some (wrap_err ("failed to create cephcsi OperatorConfig " +:+ config_at cephCsiOperatorConfigName) e))
                     | None => (true, None)
                     end))
      end
  end.

(** An object of somebody else, which the parameters of the controller ask to keep. *)
Definition foreign (labels : option (gmap string string)) : bool := csi_KeepExisting csi && negb (resourceCreatedByPelagia (default ∅ labels)).

Definition ensureCsiOperatorConfig (c : deployConfig) : IO (option (bool * option err)) :=
  let* r := read "OperatorConfig" rookNs cephCsiOperatorConfigName (λ h, w_opconfig_get h rookNs cephCsiOperatorConfigName) in
  match r with
  | (_, Some e) =>
      if is_not_found e then write_config c None
      else ret (Some (false, Some (wrap_err ("failed to verify cephcsi OperatorConfig " +:+ config_at cephCsiOperatorConfigName) e)))
  | (opConfig, None) =>
      if foreign (cof_Labels opConfig) && bool_decide (spec_config c = None) then ret (Some (false, None))
      else write_config c (Some opConfig)
  end.

(** ** Drivers *)

(** The drivers to have, by type; [None] is a default one. *)
Definition drivers_to_have (c : deployConfig) : gmap string (option CephCSIDriver) :=
  let default_driver (b : bool) (t : CSIDriverType) (m : gmap string (option CephCSIDriver)) := if b then <[CSIDriverType_str t := None]> m else m in
  foldl (λ m driver, <[CSIDriverType_str (cdr_Type driver) := Some driver]> m)
    (default_driver (csi_CreateDefaultNFSDriver csi) NFSCSIDriver
       (default_driver (csi_CreateDefaultCephFSDriver csi) CephFSCSIDriver
          (default_driver (csi_CreateDefaultRBDDriver csi) RBDCSIDriver ∅)))
    (default [] (csr_Drivers <$> dsp_CSIResources (cdp_Spec (dc_cephDpl c)))).

(** The number of errors, and whether something was updated. *)
Definition count_error (acc : nat * bool) : nat * bool := (S acc.1, acc.2).

Definition groupSnapshotCRD : string := "volumegroupsnapshotclasses.groupsnapshot.storage.k8s.io".

(** The wanted spec: with group snapshots, where the cluster has them. *)
Definition wanted_driver (driverType : string) (driver : option CephCSIDriver) (acc : nat * bool) : IO (DriverSpec * (nat * bool)) :=
  let spec := match driver with Some d => (CSIDriver_GetSpec d).1 | None => zero_DriverSpec end in
  if decide (driverType = CSIDriverType_str CephFSCSIDriver) then
    let* e := read "CustomResourceDefinition" EmptyString groupSnapshotCRD (λ h, w_crd_get h groupSnapshotCRD) in
    match e with
    | Some e => ret (spec, if is_not_found e then acc else count_error acc)
    | None => ret (set_drs_Fields (<["SnapshotPolicy" := FieldText "volumeGroupSnapshot"]> (drs_Fields spec)) spec, acc)
    end
  else ret (spec, acc).

Definition write_driver (driver : option CephCSIDriver) (spec : DriverSpec) (cephDriver : CsiDriver) (errs : nat) : IO (nat * bool) :=
  let '(labels, labelsUpdated) := AlignBaseLabels (cdv_Labels cephDriver) baseResourceLabels in
  let spec := match driver with
              | Some d => if cdr_FullOverride d then spec else mergeDriverSpecs spec (cdv_Spec cephDriver)
              | None => spec
              end in
  let updated := negb (bool_decide (spec = cdv_Spec cephDriver)) || labelsUpdated in
  if (updated : bool) then
    let* e := apply_resource objectUpdate (RCsiDriver (set_cdv_Spec spec (set_cdv_Labels (Some labels) cephDriver))) in
    ret (match e with Some _ => S errs | None => errs end, true)
  else ret (errs, false).

(** What one driver says about updates replaces what was said about an earlier one. *)
Definition driver_step (acc : nat * bool) (entry : string * option CephCSIDriver) : IO (nat * bool) :=
  let '(driverType, driver) := entry in
  let name := driver_name rookNs driverType in
  let* r := read "Driver" rookNs name (λ h, w_driver_get h rookNs name) in
  match r with
  | (_, Some e) =>
      if is_not_found e then
        let* r := wanted_driver driverType driver acc in
        let '(spec, acc) := r in
        let* e := apply_resource objectCreate (RCsiDriver (mkCsiDriver name rookNs (Some baseResourceLabels) spec)) in
        ret (match e with Some _ => count_error acc | None => (acc.1, true) end)
      else ret (count_error acc)
  | (cephDriver, None) =>
      if foreign (cdv_Labels cephDriver) && bool_decide (driver = None) then ret acc
      else
        let* r := wanted_driver driverType driver acc in
        let '(spec, acc) := r in
        write_driver driver spec cephDriver acc.1
  end.

Definition drop_driver (names : list string) (acc : nat * bool) (driver : CsiDriver) : IO (nat * bool) :=
  if decide (cdv_Name driver ∈ names) then ret acc
  else if foreign (cdv_Labels driver) then ret acc
  else
    let* e := object_delete "Driver" (cdv_Namespace driver) (cdv_Name driver) in
    ret (match e with Some _ => count_error acc | None => (acc.1, true) end).

Definition driver_list : IO (list CsiDriver * option err) := read "DriverList" rookNs EmptyString (λ h, w_driver_list h rookNs).

Definition ensureCsiDrivers (c : deployConfig) : IO (bool * option err) :=
  let driversToHave := drivers_to_have c in
  let* acc := foldM driver_step (range 105 driversToHave) (O, false) in
  let* r := driver_list in
  let* acc :=
    match r with
    | (_, Some _) => ret (count_error acc)
    | (items, None) => foldM (drop_driver ((λ '(t, _), driver_name rookNs t) <$> map_to_list driversToHave)) items acc
    end in
  ret (match acc.1 with
       | O => (acc.2, None)
       | S _ => (false, Some (new_err "failed to ensure CephCSI Drivers"))
       end).

Definition ensureCsiResources (c : deployConfig) : IO (option (bool * option err)) :=
  if csi_Manage csi then
    let* r := ensureCsiOperatorConfig c in
    match r with
    | None => ret None
    | Some (_, Some e) => ret (Some (false, Some e))
    | Some (updatedOpConfig, None) =>
        let* r := ensureCsiDrivers c in
        ret (Some (match r with
                   | (_, Some e) => (false, Some e)
                   | (updatedDrivers, None) => (updatedOpConfig || updatedDrivers, None)
                   end))
    end
  else ret (Some (false, None)).

(** ** Removal *)

Definition csi_failed (kind name : string) : string := "failed to delete csi " +:+ kind +:+ " " +:+ config_at name.
Definition csi_unlisted (kinds : string) : string := "failed to list csi " +:+ kinds +:+ " in '" +:+ rookNs +:+ "' namespace".

Definition deleteCsiClientProfile : IO (bool * option err) :=
  let* r := read "ClientProfileList" rookNs EmptyString (λ h, w_profile_list h rookNs) in
  match r with
  | (_, Some e) => ret (false, Some (wrap_err (csi_unlisted "ClientProfiles") e))
  | (names, None) => delete_listed "ClientProfile" rookNs true (csi_failed "ClientProfile") names true
  end.

Definition deleteCsiCephConnection : IO (bool * option err) :=
  let* r := read "CephConnectionList" rookNs EmptyString (λ h, w_connection_list h rookNs) in
  match r with
  | (_, Some e) => ret (false, Some (wrap_err (csi_unlisted "CephConnections") e))
  | (names, None) => delete_listed "CephConnection" rookNs true (csi_failed "CephConnection") names true
  end.

(** Configurations for a named cluster. *)
Definition cluster_named (config : CsiOperatorConfig) : bool :=
  bool_decide (is_Some (ocs_DriverSpecDefaults (cof_Spec config) ≫= λ spec, drs_Fields spec !! "ClusterName")).

Definition deleteCsiOperatorConfig : IO (bool * option err) :=
  let* r := read "OperatorConfigList" rookNs EmptyString (λ h, w_opconfig_list h rookNs) in
  match r with
  | (_, Some e) => ret (false, Some (wrap_err (csi_unlisted "OperatorConfigs") e))
  | (configs, None) =>
      delete_listed "OperatorConfig" rookNs true (csi_failed "OperatorConfig") (cof_Name <$> List.filter cluster_named configs) true
  end.

Definition deleteCsiDrivers : IO (bool * option err) :=
  let* r := driver_list in
  match r with
  | (_, Some e) => ret (false, Some (wrap_err (csi_unlisted "Drivers") e))
  | (drivers, None) => delete_listed "Driver" rookNs false (csi_failed "Driver") (cdv_Name <$> drivers) true
  end.

(** A step, and the errors so far. *)
Definition with_errors (errs : nat) (m : IO (bool * option err)) : IO (bool * nat) :=
  let* r := m in ret (r.1, match r.2 with Some _ => S errs | None => errs end).

Definition deleteCsiOperatorResources : IO (bool * option err) :=
  if csi_Manage csi then
    let* r := with_errors O deleteCsiClientProfile in
    let* r :=
      if r.1 then
        let* r1 := with_errors r.2 deleteCsiCephConnection in
        let* r2 := with_errors r1.2 deleteCsiDrivers in
        let* r3 := with_errors r2.2 deleteCsiOperatorConfig in
        ret (r1.1 && r2.1 && r3.1, r3.2)
      else ret r in
    ret (match r.2 with
         | O => (r.1, None)
         | S _ => (false, Some (new_err "failed to cleanup CSI Operator resources"))
         end)
  else ret (true, None).

(** ** Snapshot classes *)

Definition rbdVSClassName : string := "csi-rbdplugin-snapclass".
Definition cephfsVSClassName : string := "csi-cephfsplugin-snapclass".

Definition generateVSClass (vsclassName clusterNamespace driverName : string) : SnapshotClass :=
  let secretMapping : gmap string string :=
    {[rbdVSClassName := "rook-csi-rbd-provisioner"; cephfsVSClassName := "rook-csi-cephfs-provisioner"]} in
  mkSnapshotClass vsclassName (Some baseResourceLabels) driverName
    {["clusterID" := clusterNamespace; "csi.storage.k8s.io/snapshotter-secret-name" := value_of secretMapping vsclassName;
      "csi.storage.k8s.io/snapshotter-secret-namespace" := clusterNamespace]} "Delete".

Definition vs_result (acc : nat * bool) (e : option err) : nat * bool :=
  match e with Some _ => count_error acc | None => (acc.1, true) end.

(** A class is there exactly when its driver is. *)
Definition vsclass_step (acc : nat * bool) (entry : string * string) : IO (nat * bool) :=
  let '(vsclassName, pluginName) := entry in
  let* r := read "VolumeSnapshotClass" EmptyString vsclassName (λ h, w_vsclass_get h vsclassName) in
  let unreadable := match r.2 with Some e => negb (is_not_found e) | None => false end in
  if (unreadable : bool) then ret (count_error acc)
  else
    let* d := read "Driver" rookNs pluginName (λ h, w_driver_get h rookNs pluginName) in
    match d.2, r with
    | Some e, (vsclass, missing) =>
        if is_not_found e then
          match missing with
          | Some _ => ret acc
          | None => let* e := object_delete "VolumeSnapshotClass" EmptyString vsclassName in ret (vs_result acc e)
          end
        else ret (count_error acc)
    | None, (_, Some _) =>
        let* e := apply_resource objectCreate (RSnapshotClass (generateVSClass vsclassName rookNs pluginName)) in
        ret (vs_result acc e)
    | None, (vsclass, None) =>
        let '(labels, updateRequired) := AlignBaseLabels (vsc_Labels vsclass) baseResourceLabels in
        if (updateRequired : bool) then
          let* e := apply_resource objectUpdate (RSnapshotClass (set_vsc_Labels (Some labels) vsclass)) in
          ret (vs_result acc e)
        else ret acc
    end.

Definition vsclasses : gmap string string :=
  {[rbdVSClassName := driver_name rookNs (CSIDriverType_str RBDCSIDriver); cephfsVSClassName := driver_name rookNs (CSIDriverType_str CephFSCSIDriver)]}.

Definition ensureVSCResources : IO (bool * option err) :=
  if dp_ManageVolumeSnapshotClasses params then
    let* acc := foldM vsclass_step (range 106 vsclasses) (O, false) in
    ret (match acc.1 with
         | O => (acc.2, None)
         | S _ => (false, Some (new_err "failed to ensure VolumeSnapshotClasses"))
         end)
  else ret (false, None).

Definition deleteVolumeSnapshotClasses : IO (bool * option err) :=
  if dp_ManageVolumeSnapshotClasses params then
    let* r := read "VolumeSnapshotClassList" EmptyString EmptyString (λ h, w_vsclass_list h baseResourceLabels) in
    match r with
    | (_, Some e) => ret (false, Some (wrap_err "failed to list VolumeSnapshotClasses" e))
    | (names, None) =>
        delete_listed "VolumeSnapshotClass" EmptyString false (λ name, "failed to delete VolumeSnapshotClass '" +:+ name +:+ "'") names true
    end
  else ret (true, None).
End csi.
