(* ===== verification/RbdMirror.v ===== *)
(** * Mirroring of block devices

    pkg/controller/deployment/rbd_mirror.go: one CephRBDMirror with the name of the deployment,
    and a secret with the token of a peer for every pool that is mirrored.

    [None] is a panic. *)

From S2P Require Import Prelude GoTime Types HealthTypes DeployTypes World HealthWorld Extensions Validate DeployWorld Resources Pools StoreWorld.
Open Scope Z_scope.

Definition secretName (site pool : string) : string := "rbd-mirror-token-" +:+ site +:+ "-" +:+ pool.

Definition buildRBDMirrorSecretName (peers : list CephRBDMirrorSecret) : list string :=
  mjoin ((λ peer, secretName (rms_Site peer) <$> rms_Pools peer) <$> peers).

Section mirror.
Context `{World} `{HealthWorld} `{DeployWorld} `{ResourceWorld} `{ServiceWorld} `{MapRange}.
Variable rookNs : string.

Definition generateRBDMirroring (name : string) (spec : CephRBDMirrorSpec) : RookMirror :=
  mkRookMirror name rookNs (Some baseResourceLabels) (rbm_Count spec) (buildRBDMirrorSecretName (rbm_Peers spec)) EmptyString None.

Definition generateRBDSecret (site token pool : string) : DataObject :=
  mkDataObject (secretName site pool) rookNs (Some baseResourceLabels) ∅ [] {["pool" := pool; "token" := token]}.

(** ** Secrets *)

Definition peer_selector : string := "type=RBDPeer".

Definition deleteRBDSecrets : IO (bool * option err) :=
  let* r := read "SecretList" rookNs peer_selector (λ h, w_peer_secrets h rookNs) in
  match r with
  | (_, Some e) => ret (false, Some (wrap_err "failed to get list rbd secrets to remove" e))
  | ([], None) => ret (true, None)
  | (_, None) =>
      let* e := object_delete "SecretCollection" rookNs peer_selector in
      ret (false, match e with
                  | Some e => if is_not_found e then None else Some (new_err ("failed to remove rbd secrets: " +:+ err_msg e))
                  | None => None
                  end)
  end.

(** The secret of one pool and one peer; the error ends the loop. *)
Definition ensure_peer_secret (peer : CephRBDMirrorSecret) (pool : string) : IO (bool + err) :=
  let name := secretName (rms_Site peer) pool in
  let gen := generateRBDSecret (rms_Site peer) (rms_Token peer) pool in
  let* r := data_get "Secret" rookNs name in
  match r with
  | (_, Some e) =>
      if is_not_found e then
        let* e := apply_resource objectCreate (RPeerSecret gen) in
        ret (match e with Some e => inr (wrap_err ("failed to create " +:+ name +:+ " secret") e) | None => inl true end)
      else ret (inr (wrap_err ("failed to get " +:+ name +:+ " secret") e))
  | (secret, None) =>
      let '(labels, changedBaseLabels) := AlignBaseLabels (dob_Labels secret) baseResourceLabels in
      let secretUpdated := negb (bool_decide (dob_Data gen = dob_Data secret)) in
      if secretUpdated || changedBaseLabels then
        let secret := set_dob_Labels (Some labels) secret in
        let* e := apply_resource objectUpdate (RSecret (if secretUpdated then set_dob_Data (dob_Data gen) secret else secret)) in
        ret (match e with Some e => inr (wrap_err ("failed to update " +:+ name +:+ " secret") e) | None => inl true end)
      else ret (inl false)
  end.

Fixpoint peer_secrets (pairs : list (CephRBDMirrorSecret * string)) (changed : bool) : IO (bool * option err) :=
  match pairs with
  | [] => ret (changed, None)
  | (peer, pool) :: pairs' =>
      let* r := ensure_peer_secret peer pool in
      match r with
      | inr e => ret (false, Some e)
      | inl changed' => peer_secrets pairs' (changed || changed')
      end
  end.

Definition peer_pools (peers : list CephRBDMirrorSecret) : list (CephRBDMirrorSecret * string) :=
  mjoin ((λ peer, (peer,.) <$> rms_Pools peer) <$> peers).

(** The pools of the spec are looked at for a warning only, without a check that there is a
    section for them. *)
Definition ensureRBDSecrets (c : deployConfig) (spec : CephRBDMirrorSpec) : IO (option (bool * option err)) :=
  match rbm_Peers spec with
  | [] =>
      let* r := deleteRBDSecrets in
      ret (Some (match r with (_, Some e) => (false, Some e) | (removed, None) => (negb removed, None) end))
  | peers =>
      match peer_pools peers, dsp_BlockStorage (cdp_Spec (dc_cephDpl c)) with
      | _ :: _, None => ret None
      | pairs, _ => let* r := peer_secrets pairs false in ret (Some r)
      end
  end.

(** ** The mirror *)

Definition deleteRBDMirroring (c : deployConfig) : IO (bool * option err) :=
  let* e := object_delete "CephRBDMirror" rookNs (cdp_Name (dc_cephDpl c)) in
  let next (rbdRemoved : bool) : IO (bool * option err) :=
    let* r := deleteRBDSecrets in ret (rbdRemoved && r.1, r.2) in
  match e with
  | Some e => if is_not_found e then next true else ret (false, Some (wrap_err "failed to remove CephRBDMirroring" e))
  | None => next false
  end.

(** The mirror of the deployment among those listed; others are removed. *)
Fixpoint scan_mirrors (name : string) (mirrors : list RookMirror) (acc : option RookMirror * bool) : IO ((option RookMirror * bool) + err) :=
  match mirrors with
  | [] => ret (inl acc)
  | mirror :: mirrors' =>
      if decide (rmi_Name mirror = name) then scan_mirrors name mirrors' (Some mirror, acc.2)
      else
        let* e := object_delete "CephRBDMirror" rookNs (rmi_Name mirror) in
        match e with
        | Some e =>
            if is_not_found e then scan_mirrors name mirrors' (acc.1, true)
            else ret (inr (wrap_err ("failed to remove unspecified " +:+ rmi_Name mirror +:+ " CephRBDMirror") e))
        | None => scan_mirrors name mirrors' (acc.1, true)
        end
  end.

Definition mirror_spec (mirror : RookMirror) : Z * list string * string := (rmi_Count mirror, rmi_SecretNames mirror, rmi_Rest mirror).

Definition update_mirror (new mirror : RookMirror) (changed : bool) : IO (bool * option err) :=
  let ready := match rmi_Phase mirror with Some phase => negb (bool_decide (phase = EmptyString)) && isTypeReadyToUpdate phase | None => false end in
  if (ready : bool) then
    let '(labels, changedBaseLabels) := AlignBaseLabels (rmi_Labels mirror) (default ∅ (rmi_Labels new)) in
    let specUpdated := negb (bool_decide (mirror_spec mirror = mirror_spec new)) in
    if specUpdated || changedBaseLabels then
      let updated :=
        mkRookMirror (rmi_Name mirror) (rmi_Namespace mirror) (Some labels) (rmi_Count new) (rmi_SecretNames new) (rmi_Rest new) (rmi_Phase mirror) in
      let* e := apply_resource objectUpdate (RMirror (if specUpdated then updated else set_rmi_Labels (Some labels) mirror)) in
      ret (match e with Some e => (false, Some (wrap_err "failed to update CephRBDMirror" e)) | None => (true, None) end)
    else ret (changed, None)
  else ret (false, Some (new_err ("resource RBDMirror is not ready, status is " +:+ default "not available" (rmi_Phase mirror) +:+ ", waiting"))).

Definition ensure_mirror (c : deployConfig) (spec : CephRBDMirrorSpec) : IO (option (bool * option err)) :=
  let name := cdp_Name (dc_cephDpl c) in
  let* r := read "CephRBDMirrorList" rookNs EmptyString (λ h, w_mirror_list h rookNs) in
  match r with
  | (_, Some e) => ret (Some (false, Some (wrap_err "failed to get list of CephRBDMirrors" e)))
  | (mirrors, None) =>
      let* r := scan_mirrors name mirrors (None, false) in
      match r with
      | inr e => ret (Some (false, Some e))
      | inl (rbdMirror, changed) =>
          let* r := ensureRBDSecrets c spec in
          match r with
          | None => ret None
          | Some (_, Some e) => ret (Some (false, Some e))
          | Some (secretsChanged, None) =>
              let new := generateRBDMirroring name spec in
              match rbdMirror with
              | None =>
                  let* e := apply_resource objectCreate (RMirror new) in
                  ret (Some (match e with
                             | Some e => (false, Some (wrap_err ("failed to create " +:+ name +:+ " CephRBDMirror") e))
                             | None => (true, None)
                             end))
              | Some mirror => let* r := update_mirror new mirror (changed || secretsChanged) in ret (Some r)
              end
          end
      end
  end.

Definition ensureRBDMirroring (c : deployConfig) : IO (option (bool * option err)) :=
  match dsp_RBDMirror (cdp_Spec (dc_cephDpl c)) with
  | None =>
      let* r := deleteRBDMirroring c in
      ret (Some (match r with
                 | (_, Some e) => (false, Some (wrap_err "failed to cleanup CephRBDMirrors" e))
                 | (removed, None) => (negb removed, None)
                 end))
  | Some spec => ensure_mirror c spec
  end.
End mirror.
