(* ===== verification/Openstack.v ===== *)
(** * The secret for OpenStack

    pkg/controller/deployment/openstack.go: once the pools and the clients of OpenStack are
    ready, their names and keys are written to a secret that OpenStack reads, with the
    endpoints of monitors and of the gateway.

    [None] is a panic.  The branch for an external cluster is never reached by the controller,
    which does not run this operation for one. *)

From Stdlib Require Import Ascii.
From S2P Require Import Prelude GoTime Types HealthTypes DeployTypes World HealthWorld CleanupJob Config Extensions Validate DeployWorld Resources NodeLabels CephConfig External StorageClasses Clients StoreWorld Multisite Rgw ObjectStorage.
Open Scope Z_scope.

Definition openstackSharedSecret : string := "openstack-ceph-keys".
Definition MonMapConfigMapName : string := "rook-ceph-mon-endpoints".
Definition adminSecretName : string := "rook-ceph-mon".

(** [regexp] [([a-z]=)], every match removed *)
Fixpoint strip_names (s : string) : string :=
  match s with
  | String a ((String b s') as t) =>
      if (97 <=? nat_of_ascii a)%nat && (nat_of_ascii a <=? 122)%nat && bool_decide (b = "="%char) then strip_names s' else String a (strip_names t)
  | _ => s
  end.

(** The endpoints of the monitors without their names, sorted. *)
Definition mon_addresses (data : string) : string := Join (SortStrings (Split (strip_names data) ","%char)) ",".

Record openstackSecretData := mkSecretData {
  osd_clientsInfo : gmap string OpenstackClientInfo;
  osd_monMap : DataObject;
  osd_adminSecret : DataObject;
  osd_rgwSecret : option DataObject;
  osd_rgwInternalCert : option DataObject;
  osd_rgwMetricsSecret : option DataObject;
}.

(** ** Pools *)

(** Nova, glance and cinder. *)
Record openstack_clients := mkClients {
  opc_nova : OpenstackClientInfo;
  opc_glance : OpenstackClientInfo;
  opc_cinder : OpenstackClientInfo;
}.

Definition add_pool (description : string) (info : OpenstackClientInfo) : OpenstackClientInfo := set_oci_Pools (oci_Pools info ++ [description]) info.

Definition pool_role (pool : CephPool) : string := if decide (pl_Role pool = "volumes-backend") then "volumes" else pl_Role pool.

Definition add_role (role description : string) (cs : openstack_clients) : openstack_clients :=
  let add := add_pool description in
  if decide (role = "volumes") then mkClients (add (opc_nova cs)) (opc_glance cs) (add (opc_cinder cs))
  else if decide (role = "vms") then mkClients (add (opc_nova cs)) (opc_glance cs) (opc_cinder cs)
  else if decide (role = "images") then mkClients (add (opc_nova cs)) (add (opc_glance cs)) (add (opc_cinder cs))
  else if decide (role = "backup") then mkClients (opc_nova cs) (opc_glance cs) (add (opc_cinder cs))
  else cs.

Section openstack.
Context `{World} `{HealthWorld} `{DeployWorld} `{SpecDecoder} `{ResourceWorld} `{StoreWorld} `{ServiceWorld} `{MapRange}.
Variables (rookNs : string) (params : DeployParams).
Let sharedNs : string := dp_OpenstackCephSharedNamespace params.

(** The pools of the spec with their names in Ceph. *)
Fixpoint describe_pools (pools : list CephPool) (names : list string) (cs : openstack_clients) : option openstack_clients :=
  match pools with
  | [] => Some cs
  | pool :: pools' =>
      match names with
      | [] => None
      | name :: names' =>
          let description := name +:+ ":" +:+ pool_role pool +:+ ":" +:+ ps_DeviceClass (CephPool_GetSpec pool).1 in
          describe_pools pools' names' (add_role (pool_role pool) description cs)
      end
  end.

Definition openstack_role (pool : CephPool) : bool := bool_decide (pl_Role pool ∈ ["images"; "vms"; "backup"; "volumes"]).

(** The pools of OpenStack that are not ready. *)
Fixpoint unready_pools (pools : list CephPool) (names : list string) (acc : list string) : IO (option (list string)) :=
  match pools with
  | [] => ret (Some acc)
  | pool :: pools' =>
      if openstack_role pool then
        match names with
        | [] => ret None
        | name :: names' =>
            let* ready := isCephPoolReady rookNs name in
            unready_pools pools' names' (if (ready : bool) then acc else acc ++ [name])
        end
      else unready_pools pools' (tail names) acc
  end.

(** ** Clients *)

(** The services that need a client, without one. *)
Definition openstack_services (c : deployConfig) : gmap string (option RookClient) :=
  let services : gmap string (option RookClient) := {["cinder" := None; "glance" := None; "nova" := None]} in
  match dsp_SharedFilesystem (cdp_Spec (dc_cephDpl c)) with
  | Some (_ :: _) => <["manila" := None]> services
  | _ => services
  end.

(** The last client of a service that is current: by its rotation, or marked as the latest one. *)
Definition scan_step (currentRotation : Z) (services : gmap string (option RookClient)) (client : RookClient) : gmap string (option RookClient) :=
  let labels := default ∅ (rcl_Labels client) in
  match labels !! cephDeploymentClientRoleLabel with
  | None => services
  | Some role =>
      if bool_decide (is_Some (services !! role)) then
        let current :=
          match labels !! cephDeploymentClientRotationLabel with
          | Some rotation => bool_decide (rotation = pretty currentRotation)
          | None => bool_decide (labels !! cephDeploymentClientLatestLabel = Some "true")
          end in
        if (current : bool) then <[role := Some client]> services else services
      else services
  end.

Definition current_rotation (c : deployConfig) : Z :=
  match dsp_ExtraOpts (cdp_Spec (dc_cephDpl c)) ≫= eo_RotateOsClients with Some (rotation, _) => rotation | None => 0 end.

(** The name in Ceph of a client that is ready. *)
Definition ready_client (client : option RookClient) : option string :=
  client ≫= λ client, if decide (rcl_Phase client = Some "Ready") then Some (cls_Name (rcl_Spec client)) else None.

Definition getOpenstackClientNames (c : deployConfig) : IO (gmap string string + err) :=
  let* r := read "CephClientList" rookNs cephDeploymentClientRoleLabel (λ h, w_client_labelled h rookNs cephDeploymentClientRoleLabel) in
  match r with
  | (_, Some e) => ret (inr (wrap_err ("failed to list CephClients in namespace '" +:+ rookNs +:+ "'") e))
  | (clients, None) =>
      let services := foldl (scan_step (current_rotation c)) (openstack_services c) clients in
      let authNames := omap ready_client services in
      ret (if decide (dom authNames = dom services) then inl authNames else inr (new_err "failed to find some OpenStack CephClient(s)"))
  end.

Definition key_step (acc : gmap string OpenstackClientInfo * list string) (entry : string * string) : IO (gmap string OpenstackClientInfo * list string) :=
  let '(service, client) := entry in
  let clientName := "client." +:+ client in
  let cmd := "ceph auth get-key " +:+ clientName in
  let* r := RunCephToolboxCLI rookNs cmd in
  ret (match r with
       | (_, Some _) => (acc.1, acc.2 ++ ["failed to run '" +:+ cmd +:+ "' command"])
       | (key, None) =>
           if decide (key = EmptyString) then (acc.1, acc.2 ++ ["command '" +:+ cmd +:+ "' output is empty"])
           else (<[service := mkClientInfo clientName client key []]> acc.1, acc.2)
       end).

Definition getCephClientAuthKeys (authNames : gmap string string) : IO (gmap string OpenstackClientInfo + err) :=
  let* acc := foldM key_step (range 107 authNames) (∅, []) in
  ret (match acc.2 with
       | [] => inl acc.1
       | errs => inr (new_err ("some auth keys failed to get: " +:+ Join (SortStrings errs) ", "))
       end).

(** ** Other objects *)

Definition getMonMapConfigmap : IO (DataObject + err) :=
  let* r := data_get "ConfigMap" rookNs MonMapConfigMapName in
  ret (match r with
       | (_, Some e) => inr (wrap_err ("failed to get " +:+ rookNs +:+ "/" +:+ MonMapConfigMapName +:+ " configmap") e)
       | (monMap, None) => inl monMap
       end).

Definition getAdminSecret : IO (DataObject + err) :=
  let* r := data_get "Secret" rookNs adminSecretName in
  ret (match r with
       | (_, Some e) => inr (wrap_err ("failed to get " +:+ rookNs +:+ "/" +:+ adminSecretName +:+ " admin secret") e)
       | (secret, None) => inl secret
       end).

Definition getRgwMetricsUserSecrets : IO (DataObject + err) :=
  let* r := read "CephObjectStoreUser" rookNs rgwMetricsUser (λ h, w_user_get h rookNs rgwMetricsUser) in
  match r with
  | (_, Some e) => ret (inr e)
  | (rgwUser, None) =>
      if decide (rus_Phase rgwUser = Some "Ready") then
        let secretName := value_of (rus_Info rgwUser) "secretName" in
        if decide (secretName = EmptyString) then ret (inr (new_err ("rgw metrics user " +:+ rgwMetricsUser +:+ " secret is not ready yet")))
        else
          let* r := data_get "Secret" rookNs secretName in
          ret (match r with
               | (_, Some e) => inr (wrap_err ("failed to get secret '" +:+ rookNs +:+ "/" +:+ secretName +:+ "' for user " +:+ rgwMetricsUser) e)
               | (secret, None) => inl secret
               end)
      else ret (inr (new_err ("rgw metrics user " +:+ rgwMetricsUser +:+ " is not ready")))
  end.

Definition getRgwExternalEndpoint (spec : ObjectStoreSpec) : string :=
  match ost_ExternalRgwEndpoints spec with
  | [] => EmptyString
  | (ip, hostname) :: _ =>
      let address := if decide (hostname = EmptyString) then ip else hostname in
      if decide (ost_SecurePort spec = 0) then "http://" +:+ address +:+ ":" +:+ pretty (ost_Port spec)
      else "https://" +:+ address +:+ ":" +:+ pretty (ost_SecurePort spec)
  end.

(** ** The secret *)

Abbreviation secret_data := (gmap string string).

(** Where the gateway is reached from inside the cluster. *)
Definition internal_endpoint (d : openstackSecretData) (rgw : DplObjectStore) (spec : ObjectStoreSpec) (data : secret_data) : secret_data :=
  let fqdn := buildRGWName (dos_Name rgw) EmptyString +:+ "." +:+ rookNs +:+ ".svc" in
  let url := if decide (ost_SecurePort spec = 0) then "http://" +:+ fqdn +:+ ":" +:+ pretty (ost_Port spec) +:+ "/"
             else "https://" +:+ fqdn +:+ ":" +:+ pretty (ost_SecurePort spec) +:+ "/" in
  let data := <["rgw_internal" := url]> data in
  match osd_rgwInternalCert d with
  | Some cert => <["rgw_internal_cacert" := value_of (dob_Data cert) "cacert"]> data
  | None => data
  end.

(** The endpoint of an external cluster, with the bundle of the gateway's secret. *)
Definition external_endpoint (d : openstackSecretData) (spec : ObjectStoreSpec) (data : secret_data) : secret_data :=
  let rgwExternal := getRgwExternalEndpoint spec in
  if decide (rgwExternal = EmptyString) then data
  else
    let data := <["rgw_external" := rgwExternal]> data in
    match osd_rgwInternalCert d ≫= λ cert, dob_Data cert !! "cabundle" with
    | Some bundle => <["rgw_external_custom_cacert" := bundle]> data
    | None => data
    end.

(** The first route to the gateway; one without hosts makes the code panic. *)
Definition route_endpoint (routes : list CephDeploymentHTTPRoute) (rgw : DplObjectStore) (data : secret_data) : option secret_data :=
  match list_find (λ route, dhr_ObjectStoreName route = dos_Name rgw) routes with
  | None => Some data
  | Some (_, route) =>
      match hrs_Hostnames (HTTPRoute_GetSpec route).1 with
      | [] => None
      | hostname :: _ => Some (<["rgw_external" := "https://" +:+ hostname +:+ "/"]> data)
      end
  end.

Definition ingress_endpoint (tls : CephDeploymentIngressTLSConfig) (rgw : DplObjectStore) (data : secret_data) : IO secret_data :=
  let host := if decide (itc_Hostname tls = EmptyString) then dos_Name rgw else itc_Hostname tls in
  let data := <["rgw_external" := "https://" +:+ host +:+ "." +:+ itc_Domain tls +:+ "/"]> data in
  match itc_TLSCerts tls with
  | Some (cacert, _, _) => ret (<["rgw_external_custom_cacert" := cacert]> data)
  | None =>
      if decide (itc_TLSSecretRefName tls = EmptyString) then ret data
      else
        let* r := data_get "Secret" rookNs (itc_TLSSecretRefName tls) in
        ret (match r with
             | (_, Some _) => data
             | (secret, None) =>
                 match dob_Data secret !! "ca.crt" with Some cacert => <["rgw_external_custom_cacert" := cacert]> data | None => data end
             end)
  end.

(** The domain OpenStack gives itself. *)
Definition domain_endpoint (rgwSecret : DataObject) (rgw : DplObjectStore) (data : secret_data) : secret_data :=
  let domain := value_of (dob_Data rgwSecret) "public_domain" in
  let protocol := if decide (is_Some (dob_Data rgwSecret !! "tls_crt")) then "https" else "http" in
  if decide (domain = EmptyString) then data else <["rgw_external" := protocol +:+ "://" +:+ dos_Name rgw +:+ "." +:+ domain +:+ "/"]> data.

Definition public_endpoint (c : deployConfig) (d : openstackSecretData) (storage : CephObjectStorage) (rgw : DplObjectStore) (data : secret_data)
    : IO (option secret_data) :=
  match cos_GatewayHTTPRoutes storage with
  | (_ :: _) as routes => ret (route_endpoint routes rgw data)
  | [] =>
      match getIngressTLS (dc_cephDpl c), cp_KeepIngress (dc_commonParams c), osd_rgwSecret d with
      | Some tls, true, _ => let* data := ingress_endpoint tls rgw data in ret (Some data)
      | _, _, Some rgwSecret => ret (Some (domain_endpoint rgwSecret rgw data))
      | _, _, None => ret (Some data)
      end
  end.

(** What is said about the first gateway for OpenStack. *)
Definition rgw_endpoints (c : deployConfig) (d : openstackSecretData) (storage : CephObjectStorage) (data : secret_data) : IO (option secret_data) :=
  match list_find (λ rgw, dos_UsedForOpenstack rgw = true) (cos_Rgws storage) with
  | None => ret (Some data)
  | Some (_, rgw) =>
      let spec := (CephObjectStore_GetSpec rgw).1 in
      let* data :=
        if external_cluster c then ret (Some (external_endpoint d spec data))
        else public_endpoint c d storage rgw (internal_endpoint d rgw spec data) in
      ret ((λ data, match osd_rgwMetricsSecret d with
                    | Some metrics =>
                        <["rgw_metrics_user_secret_key" := value_of (dob_Data metrics) "SecretKey"]>
                          (<["rgw_metrics_user_access_key" := value_of (dob_Data metrics) "AccessKey"]> data)
                    | None => data
                    end) <$> data)
  end.

Definition client_info (d : openstackSecretData) (service : string) : OpenstackClientInfo :=
  default (mkClientInfo "" "" "" []) (osd_clientsInfo d !! service).

Definition generateOpenstackSecret (c : deployConfig) (d : openstackSecretData) : IO (option DataObject) :=
  let spec := cdp_Spec (dc_cephDpl c) in
  match dsp_BlockStorage spec ≫= λ pools,
          describe_pools pools (dc_pools c) (mkClients (client_info d "nova") (client_info d "glance") (client_info d "cinder")) with
  | None => ret None
  | Some cs =>
      let data : secret_data :=
        {["client.admin" := value_of (dob_Data (osd_adminSecret d)) (if external_cluster c then "admin-secret" else "ceph-secret");
          "glance" := json_of_ClientInfo (opc_glance cs); "nova" := json_of_ClientInfo (opc_nova cs);
          "cinder" := json_of_ClientInfo (opc_cinder cs); "mon_endpoints" := mon_addresses (value_of (dob_Data (osd_monMap d)) "data")]} in
      let data := match osd_clientsInfo d !! "manila" with Some manila => <["manila" := json_of_ClientInfo manila]> data | None => data end in
      let* data := match dsp_ObjectStorage spec with Some storage => rgw_endpoints c d storage data | None => ret (Some data) end in
      ret (mkDataObject openstackSharedSecret sharedNs (Some baseResourceLabels) ∅ [] <$> data)
  end.

(** ** The operation *)

(** What is known about the first gateway for OpenStack; what can not be read is left out. *)
Definition rgw_secrets (c : deployConfig) (clients : gmap string OpenstackClientInfo) (monMap adminSecret : DataObject) : IO openstackSecretData :=
  let none := mkSecretData clients monMap adminSecret None None None in
  match dsp_ObjectStorage (cdp_Spec (dc_cephDpl c)) ≫= λ storage, list_find (λ rgw, dos_UsedForOpenstack rgw = true) (cos_Rgws storage) with
  | None => ret none
  | Some (_, rgw) =>
      let ref := ost_SSLCertificateRef (CephObjectStore_GetSpec rgw).1 in
      let secretName := if decide (ref = EmptyString) then getRgwDefaultSSLCertificateName (dos_Name rgw) else ref in
      let found (r : DataObject * option err) : option DataObject := match r with (secret, None) => Some secret | (_, Some _) => None end in
      let* r1 := data_get "Secret" sharedNs openstackRgwCredsName in
      let* r2 := data_get "Secret" rookNs secretName in
      let* r3 := getRgwMetricsUserSecrets in
      ret (mkSecretData clients monMap adminSecret (found r1) (found r2) (match r3 with inl secret => Some secret | inr _ => None end))
  end.

Definition shared_secret_at : string := sharedNs +:+ "/" +:+ openstackSharedSecret.

Definition write_shared_secret (osSecret : DataObject) : IO (bool * option err) :=
  let* r := data_get "Secret" sharedNs openstackSharedSecret in
  match r with
  | (_, Some e) =>
      if is_not_found e then
        let* e := apply_resource objectCreate (RSecret osSecret) in
        ret (match e with Some e => (false, Some (wrap_err ("failed to create " +:+ shared_secret_at +:+ " secret") e)) | None => (true, None) end)
      else ret (false, Some (wrap_err ("failed to get " +:+ shared_secret_at +:+ " secret") e))
  | (currentSecret, None) =>
      let dataUpdated := negb (bool_decide (dob_Data currentSecret = dob_Data osSecret)) in
      let '(labels, changedBaseLabels) := AlignBaseLabels (dob_Labels currentSecret) (default ∅ (dob_Labels osSecret)) in
      if dataUpdated || changedBaseLabels then
        let currentSecret := set_dob_Labels (Some labels) currentSecret in
        let* e := apply_resource objectUpdate (RSecret (if dataUpdated then set_dob_Data (dob_Data osSecret) currentSecret else currentSecret)) in
        ret (match e with Some e => (false, Some (wrap_err ("failed to update " +:+ shared_secret_at +:+ " secret") e)) | None => (true, None) end)
      else ret (false, None)
  end.

Definition refused (msg : string) (e : err) : option (bool * option err) := Some (false, Some (wrap_err msg e)).

(** The pools are ready. *)
Definition share_keys (c : deployConfig) : IO (option (bool * option err)) :=
  let* r := getOpenstackClientNames c in
  match r with
  | inr e => ret (refused "failed to verify Openstack CephClient(s)" e)
  | inl authNames =>
      let* r := getCephClientAuthKeys authNames in
      match r with
      | inr e => ret (refused "failed to get auth keys for ceph clients" e)
      | inl clientsInfo =>
          let* r := getMonMapConfigmap in
          match r with
          | inr e => ret (refused "failed to get ceph monitor endpoints" e)
          | inl monMap =>
              let* r := getAdminSecret in
              match r with
              | inr e => ret (refused "failed to get ceph admin secret" e)
              | inl adminSecret =>
                  let* d := rgw_secrets c clientsInfo monMap adminSecret in
                  let* osSecret := generateOpenstackSecret c d in
                  match osSecret with
                  | None => ret None
                  | Some osSecret => let* r := write_shared_secret osSecret in ret (Some r)
                  end
              end
          end
      end
  end.

Definition keys_disabled (c : deployConfig) : bool :=
  match dsp_ExtraOpts (cdp_Spec (dc_cephDpl c)) with Some opts => eo_DisableOsKeys opts | None => false end.

Definition ensureOpenstackSecret (c : deployConfig) : IO (option (bool * option err)) :=
  if bool_decide (sharedNs = EmptyString) || keys_disabled c || negb (dc_openstackSetup c) then ret (Some (false, None))
  else
    match dsp_BlockStorage (cdp_Spec (dc_cephDpl c)) with
    | None => ret None
    | Some pools =>
        let* notReady := unready_pools pools (dc_pools c) [] in
        match notReady with
        | None => ret None
        | Some [] => share_keys c
        | Some names =>
            ret (Some (false, Some (new_err ("skip openstack secret ensure since the following required OpenStack pools are not ready yet: [" +:+
                                             Join names " " +:+ "]"))))
        end
    end.

Definition deleteOpenstackSecret : IO (bool * option err) :=
  if decide (sharedNs = EmptyString) then ret (true, None)
  else
    let* e := object_delete "Secret" sharedNs openstackSharedSecret in
    ret (match e with
         | None => (false, None)
         | Some e => if is_not_found e then (true, None) else (false, Some (wrap_err ("failed to delete openstack secret " +:+ shared_secret_at) e))
         end).
End openstack.
