(* ===== verification/IngressProxy.v ===== *)
(** * The ingress of the gateways

    pkg/controller/deployment/ingress.go: an Ingress with a secret for TLS for every gateway
    that is served to the public or used for OpenStack.

    The settings are those of the spec itself, which the loop over gateways changes: the next
    gateway finds them as the last one has left them.  Without a section in the spec every
    gateway starts from empty settings.  [None] is a panic. *)

From S2P Require Import Prelude GoTime Types HealthTypes DeployTypes World HealthWorld CleanupJob Extensions Validate DeployWorld Resources NodeLabels CephConfig External StoreWorld Multisite Rgw ObjectStorage.
Open Scope Z_scope.

Definition buildHostName (rgwName rgwOverrideName domain : string) : string :=
  (if decide (rgwOverrideName = EmptyString) then rgwName else rgwOverrideName) +:+ "." +:+ domain.

Definition defaultIngressClass : string := "openstack-ingress-nginx".

(** [time.Now().Unix()] *)
Definition GetCurrentUnixTimeString `{World} : IO string := call EvClock (λ h, pretty (w_clock h / second)).

Section ingress.
Context `{World} `{HealthWorld} `{DeployWorld} `{SpecDecoder} `{ResourceWorld} `{StoreWorld} `{ServiceWorld} `{MapRange}.
Variables (rookNs : string) (params : DeployParams).
Let sharedNs : string := dp_OpenstackCephSharedNamespace params.

(** ** Whether there is an ingress *)

Definition served (rgw : DplObjectStore) : bool := dos_ServedByIngress rgw || dos_UsedForOpenstack rgw.
Definition spec_rgws (c : deployConfig) : list DplObjectStore := default [] (cos_Rgws <$> dsp_ObjectStorage (cdp_Spec (dc_cephDpl c))).

Definition has_tls (tls : CephDeploymentIngressTLSConfig) : bool :=
  bool_decide (is_Some (itc_TLSCerts tls)) || negb (bool_decide (itc_TLSSecretRefName tls = EmptyString)).

(** Certificates of OpenStack. *)
Definition openstack_tls (c : deployConfig) : IO (bool + err) :=
  if negb (dc_openstackSetup c) || bool_decide (sharedNs = EmptyString) then ret (inl false)
  else
    let* r := data_get "Secret" sharedNs openstackRgwCredsName in
    ret (match r with
         | (_, Some e) => if is_not_found e then inl false else inr (wrap_err ("failed to get " +:+ openstackRgwCredsName +:+ " secret to ensure ingress") e)
         | (secret, None) =>
             inl (forallb (λ key, bool_decide (is_Some (dob_Data secret !! key))) ["ca_cert"; "tls_crt"; "tls_key"])
         end).

Definition canDeployIngressProxy (c : deployConfig) : IO (bool + err) :=
  if negb (cp_KeepIngress (dc_commonParams c)) || negb (existsb served (spec_rgws c)) ||
     bool_decide (cp_RgwPublicAccessLabel (dc_commonParams c) = EmptyString) then ret (inl false)
  else
    match getIngressTLS (dc_cephDpl c) with
    | None => openstack_tls c
    | Some tls =>
        if has_tls tls then ret (inl true)
        else
          let class := default EmptyString (icf_ControllerClassName <$> dsp_IngressConfig (cdp_Spec (dc_cephDpl c))) in
          if decide (class = defaultIngressClass ∨ class = EmptyString) then openstack_tls c else ret (inl false)
    end.

(** ** The ingress *)

Definition upstream_vhost : string := "nginx.ingress.kubernetes.io/upstream-vhost".
Definition class_annotation : string := "kubernetes.io/ingress.class".

Definition generateIngress (rgwName tlsSecretName : string) (config : CephDeploymentIngressConfig) (tls : CephDeploymentIngressTLSConfig) (label : string)
    : Ingress :=
  let class := icf_ControllerClassName config in
  let hostName := buildHostName rgwName (itc_Hostname tls) (itc_Domain tls) in
  mkIngress (buildRGWName rgwName "ingress") rookNs
    (Some (ExtendLabels (<["ingress-type" := class +:+ "-rgw"]> (getBaseIngressLabels rgwName label)) DeployWorld.baseResourceLabels))
    (<[class_annotation := class]> (icf_Annotations config))
    (mkIngressSpec [mkIngressRule hostName "/" "ImplementationSpecific" (buildRGWName rgwName EmptyString) "http"] [([hostName], tlsSecretName)] EmptyString).

(** Class and annotations with their defaults. *)
Definition with_class (config : CephDeploymentIngressConfig) : CephDeploymentIngressConfig :=
  let config := if decide (icf_ControllerClassName config = EmptyString) then set_icf_ControllerClassName defaultIngressClass config else config in
  let defaults : gmap string string :=
    if decide (icf_ControllerClassName config = defaultIngressClass) then
      {["nginx.ingress.kubernetes.io/proxy-body-size" := "0"; "nginx.ingress.kubernetes.io/rewrite-target" := "/"]}
    else ∅ in
  set_icf_Annotations (icf_Annotations config ∪ defaults) config.

(** The certificates of OpenStack, when the settings have none. *)
Definition with_tls (c : deployConfig) (config : CephDeploymentIngressConfig) : IO (CephDeploymentIngressConfig + err) :=
  let missing := match icf_TLSConfig config with Some tls => negb (has_tls tls) | None => true end in
  if dc_openstackSetup c && missing then
    let* r := data_get "Secret" sharedNs openstackRgwCredsName in
    ret (match r with
         | (_, Some e) => inr (wrap_err ("failed to get " +:+ openstackRgwCredsName +:+ " secret to ensure ingress") e)
         | (secret, None) =>
             let data := value_of (dob_Data secret) in
             let certs := Some (data "ca_cert", data "tls_crt", data "tls_key") in
             inl (set_icf_TLSConfig (Some (match icf_TLSConfig config with
                                           | None => mkIngressTLS EmptyString (data "public_domain") certs EmptyString
                                           | Some tls => set_itc_TLSCerts certs tls
                                           end)) config)
         end)
  else ret (inl config).

(** The host is always that of the gateway. *)
Definition with_vhost (rgwName : string) (tls : CephDeploymentIngressTLSConfig) (config : CephDeploymentIngressConfig) : CephDeploymentIngressConfig :=
  if decide (icf_ControllerClassName config = defaultIngressClass) then
    set_icf_Annotations (<[upstream_vhost := buildHostName rgwName (itc_Hostname tls) (itc_Domain tls)]> (icf_Annotations config)) config
  else config.

(** The secret for TLS: the one the settings name, or a new one. *)
Definition tls_secret (rgwName : string) (tls : CephDeploymentIngressTLSConfig) : IO (option (DataObject + err)) :=
  let ref := itc_TLSSecretRefName tls in
  if decide (ref = EmptyString) then
    let* now := GetCurrentUnixTimeString in
    let name := buildRGWName (if decide (itc_Hostname tls = EmptyString) then rgwName else itc_Hostname tls) ("tls-public-" +:+ now) in
    ret ((λ '(cacert, tlsCert, tlsKey), inl (mkDataObject name rookNs
            (Some (ExtendLabels {["objectStore" := rgwName; "ingress" := buildRGWName rgwName "ingress"; cephIngressLabel := "ceph-object-store-ingress"]}
                     DeployWorld.baseResourceLabels)) ∅ []
            {["ca.crt" := cacert; "tls.crt" := tlsCert; "tls.key" := tlsKey]})) <$> itc_TLSCerts tls)
  else
    let* r := data_get "Secret" rookNs ref in
    ret (Some (match r with
               | (_, Some e) => inr (wrap_err ("failed to get specified ingress tls certs secret '" +:+ rookNs +:+ "/" +:+ ref +:+ "'") e)
               | (secret, None) => inl secret
               end)).

(** What the ingress that is there says about its secret: the name to use, whether a new secret
    is needed, the old one to be deleted, changes. *)
Record tls_plan := mkTlsPlan {
  tlp_name : string;
  tlp_create : bool;
  tlp_delete : string;
  tlp_changed : bool;
}.

Definition match_secret (resource : DataObject) (name toDelete secretName : string) : IO (tls_plan + err) :=
  let* r := data_get "Secret" rookNs secretName in
  match r with
  | (_, Some e) =>
      ret (if is_not_found e then inl (mkTlsPlan name true toDelete false)
           else inr (wrap_err ("failed to get ingress cert secret '" +:+ rookNs +:+ "/" +:+ secretName +:+ "'") e))
  | (secret, None) =>
      if decide (dob_Data secret = dob_Data resource) then
        let '(labels, updateLabels) := AlignBaseLabels (dob_Labels secret) (default ∅ (dob_Labels resource)) in
        if (updateLabels : bool) then
          let* e := apply_resource objectUpdate (RSecret (set_dob_Labels (Some labels) secret)) in
          ret (match e with
               | Some e => inr (wrap_err ("failed to update labels for secret " +:+ rookNs +:+ "/" +:+ dob_Name secret) e)
               | None => inl (mkTlsPlan (dob_Name secret) false toDelete true)
               end)
        else ret (inl (mkTlsPlan (dob_Name secret) false toDelete false))
      else ret (inl (mkTlsPlan name true secretName false))
  end.

Fixpoint plan_tls (hostName ref : string) (resource : DataObject) (name toDelete : string) (entries : list (list string * string)) : IO (tls_plan + err) :=
  match entries with
  | [] => ret (inl (mkTlsPlan name true toDelete false))
  | (hosts, secretName) :: entries' =>
      if Contains hosts hostName then
        if decide (ref = EmptyString) then match_secret resource name toDelete secretName
        else ret (inl (mkTlsPlan name true (if decide (secretName = ref) then toDelete else secretName) false))
      else plan_tls hostName ref resource name secretName entries'
  end.

(** The ingress is there. *)
Definition update_ingress (new ingress : Ingress) (plan : tls_plan) (changed : bool) : IO (bool + err) :=
  let '(labels, labelsChanged) := AlignBaseLabels (ing_Labels ingress) (default ∅ (ing_Labels new)) in
  let annotationsChanged := negb (bool_decide (ing_Annotations ingress = ing_Annotations new)) in
  let specChanged := negb (bool_decide (ing_Spec ingress = ing_Spec new)) in
  if labelsChanged || annotationsChanged || specChanged then
    let updated := set_ing_Spec (ing_Spec new) (set_ing_Annotations (ing_Annotations new) (set_ing_Labels (Some labels) ingress)) in
    let* e := apply_resource objectUpdate (RIngress updated) in
    match e with
    | Some e => ret (inr (wrap_err ("failed to update ingress " +:+ ing_Namespace ingress +:+ "/" +:+ ing_Name ingress) e))
    | None =>
        if decide (tlp_delete plan = EmptyString) then ret (inl true)
        else
          let* e := object_delete "Secret" rookNs (tlp_delete plan) in
          ret (match e with
               | Some e => inr (wrap_err ("failed to delete old ingress cert secret " +:+ tlp_delete plan) e)
               | None => inl true
               end)
    end
  else ret (inl changed).

(** The end of a gateway's turn: the operation ends, or goes on with changes and settings. *)
Definition turn : Type := (bool * option CephDeploymentIngressConfig) + option (bool * option err).
Definition fails (e : err) : turn := inr (Some (false, Some e)).

(** The secret is there or made, and the ingress follows. *)
Definition write_ingress (rgwName : string) (config : CephDeploymentIngressConfig) (tls : CephDeploymentIngressTLSConfig) (resource : DataObject)
    (ingress : option Ingress) (plan : tls_plan) (label : string) (changed : bool) : IO (turn) :=
  let* e :=
    if tlp_create plan && bool_decide (itc_TLSSecretRefName tls = EmptyString) then
      let* e := apply_resource objectCreate (RSecret resource) in
      ret (match e with Some e => inr (wrap_err ("failed to create ingress cert secret " +:+ tlp_name plan) e) | None => inl true end)
    else ret (inl (changed || tlp_changed plan)) in
  match e with
  | inr e => ret (fails e)
  | inl changed =>
      let new := generateIngress rgwName (tlp_name plan) config tls label in
      match ingress with
      | None =>
          let* e := apply_resource objectCreate (RIngress new) in
          ret (match e with
               | Some e => fails (wrap_err ("failed to create ingress " +:+ rookNs +:+ "/" +:+ ing_Name new) e)
               | None => inr (Some (true, None))
               end)
      | Some ingress =>
          let* r := update_ingress new ingress plan changed in
          ret (match r with
               | inr e => fails e
               | inl changed => inl (changed, Some (set_icf_Annotations (ing_Annotations new) config))
               end)
      end
  end.

(** One gateway, its ingress having been read. *)
Definition ensure_ingress (c : deployConfig) (rgwName : string) (spec : option CephDeploymentIngressConfig) (ingress : option Ingress) (changed : bool)
    : IO turn :=
  let* r := with_tls c (with_class (default (mkIngressConfig EmptyString ∅ None) spec)) in
  match r with
  | inr e => ret (fails e)
  | inl config =>
      match icf_TLSConfig config with
      | None => ret (inr None)
      | Some tls =>
          let config := with_vhost rgwName tls config in
          let* r := tls_secret rgwName tls in
          match r with
          | None => ret (inr None)
          | Some (inr e) => ret (fails e)
          | Some (inl resource) =>
              let ref := itc_TLSSecretRefName tls in
              let name := if decide (ref = EmptyString) then dob_Name resource else ref in
              let* r :=
                match ingress with
                | None => ret (inl (mkTlsPlan name true EmptyString false))
                | Some ingress => plan_tls (buildHostName rgwName (itc_Hostname tls) (itc_Domain tls)) ref resource name EmptyString (ins_TLS (ing_Spec ingress))
                end in
              match r with
              | inr e => ret (fails e)
              | inl plan =>
                  let* r := write_ingress rgwName config tls resource ingress plan (cp_RgwPublicAccessLabel (dc_commonParams c)) changed in
                  ret (match r with
                       | inl (changed, config) => inl (changed, match spec with Some _ => config | None => None end)
                       | inr r => inr r
                       end)
              end
          end
      end
  end.

Fixpoint ingress_loop (c : deployConfig) (rgws : list DplObjectStore) (spec : option CephDeploymentIngressConfig) (changed : bool)
    : IO (option (bool * option err)) :=
  match rgws with
  | [] => ret (Some (changed, None))
  | rgw :: rgws' =>
      if served rgw then
        let ingressName := buildRGWName (dos_Name rgw) "ingress" in
        let* r := read "Ingress" rookNs ingressName (λ h, w_ingress_get h rookNs ingressName) in
        let ingress :=
          match r with
          | (_, Some e) => if is_not_found e then inl None else inr (wrap_err ("failed to get " +:+ ingressName +:+ " ingress") e)
          | (ingress, None) => inl (Some ingress)
          end in
        match ingress with
        | inr e => ret (Some (false, Some e))
        | inl ingress =>
            let* r := ensure_ingress c (dos_Name rgw) spec ingress changed in
            match r with
            | inr r => ret r
            | inl (changed, spec) => ingress_loop c rgws' spec changed
            end
        end
      else ingress_loop c rgws' spec changed
  end.

(** ** Removal *)

Fixpoint drop_ingresses (names : list string) (removed : bool) : IO (bool + err) :=
  match names with
  | [] => ret (inl removed)
  | name :: names' =>
      let* e := object_delete "Ingress" rookNs name in
      match e with
      | Some e => if is_not_found e then drop_ingresses names' false else ret (inr (wrap_err ("failed to delete ingress " +:+ name) e))
      | None => drop_ingresses names' false
      end
  end.

Definition deleteIngressProxy : IO (bool * option err) :=
  let* r := read "IngressList" rookNs cephIngressLabel (λ h, w_ingress_labelled h rookNs cephIngressLabel) in
  match r with
  | (_, Some e) => ret (false, Some (wrap_err "failed to find ingress to remove" e))
  | (names, None) =>
      let* r := drop_ingresses names true in
      match r with
      | inr e => ret (false, Some e)
      | inl removed =>
          let* r := read "SecretList" rookNs cephIngressLabel (λ h, w_secret_list h rookNs cephIngressLabel) in
          match r with
          | (_, Some e) => ret (false, Some (wrap_err "failed to get list ingress secrets to remove" e))
          | ([], None) => ret (removed, None)
          | (_, None) =>
              let* e := object_delete "SecretCollection" rookNs cephIngressLabel in
              ret (false, match e with
                          | Some e => if is_not_found e then None else Some (wrap_err "failed to delete tls secrets for ingress" e)
                          | None => None
                          end)
          end
      end
  end.

Definition ensureIngressProxy (c : deployConfig) : IO (option (bool * option err)) :=
  let* r := canDeployIngressProxy c in
  match r with
  | inr e => ret (Some (false, Some (wrap_err "failed to check possibility to deploy ingress proxy" e)))
  | inl false =>
      let* r := deleteIngressProxy in
      ret (Some (match r with
                 | (_, Some e) => (false, Some (wrap_err "deletion not complete for ingress proxy" e))
                 | (removed, None) => (negb removed, None)
                 end))
  | inl true => ingress_loop c (spec_rgws c) (dsp_IngressConfig (cdp_Spec (dc_cephDpl c))) false
  end.
End ingress.
