(* ===== verification/ObjectStorageFacts.v ===== *)
(** * Sites of object storage: removal

    Realms, zone groups and zones are removed only when they are not in the spec and nothing
    that was listed uses them ([multisite_removal_safe]). *)

From S2P Require Import Prelude GoTime Types HealthTypes DeployTypes World HealthWorld Extensions Validate Trace DeployWorld Resources CephConfig StoreWorld Multisite Rgw ObjectStorage.
Open Scope Z_scope.

(** None of the objects uses the name, provided that all of them are named. *)
Definition nobody_uses {A} (used user : A → string) (l : list A) (name : string) : Prop :=
  (∀ x, x ∈ l → user x ≠ EmptyString) → ∀ x, x ∈ l → used x ≠ name.

Lemma users_lookup {A} (used user : A → string) l name :
  (∀ x, x ∈ l → user x ≠ EmptyString) → (∃ x, x ∈ l ∧ used x = name) → value_of (users_of used user l) name ≠ EmptyString.
Proof.
  intros Hn (x & Hx & <-). unfold users_of, value_of. induction l as [|y l IH] using rev_ind; [by apply elem_of_nil in Hx|].
  rewrite foldl_app. simpl. destruct (decide (used y = used x)) as [->|Hne].
  - rewrite lookup_insert_eq. simpl. apply Hn, elem_of_app. right; left.
  - rewrite lookup_insert_ne by done. apply IH; [intros z Hz; apply Hn, elem_of_app; by left|].
    apply elem_of_app in Hx as [Hx|Hx]; [done|]. apply list_elem_of_singleton in Hx as ->. done.
Qed.

Lemma unused_nobody {A} (used user : A → string) l name :
  value_of (users_of used user l) name = EmptyString → nobody_uses used user l name.
Proof. intros He Hn x Hx Hu. apply (users_lookup used user l name Hn); [by exists x|done]. Qed.

(** ** The loop *)

Section sites.
Context `{DeployWorld} `{ResourceWorld} `{MapRange}.
Context {C O : Type} (kind ns : string) (c_name : C → string) (o_name : O → string) (o_labels : O → option (gmap string string))
  (set_labels : option (gmap string string) → O → O) (inj : O → resource)
  (check : C → IO (list string)) (align : C → O → O * bool) (make : C → O) (remove : string → IO (option err)).
Context (P' : event → Prop) (Hcheck : ∀ new, spec P' (check new) (λ _, True)) (Hname : ∀ l o, o_name (set_labels l o) = o_name o).

Abbreviation names acc := (o_name <$> si_items acc).

Lemma match_kept new items acc :
  spec P' (foldM (match_step c_name o_name o_labels set_labels check align new) items acc) (λ acc',
    names acc' = names acc ++ (o_name <$> items) ∧ si_delete acc' ⊆ si_delete acc ∧
    (c_name new ∈ o_name <$> items → si_delete acc' !! c_name new = None)).
Proof.
  revert acc. induction items as [|o items IH]; intros acc; simpl.
  - apply spec_ret. rewrite app_nil_r. split_and!; [done|done|by intros ?%elem_of_nil].
  - eapply (spec_bind _ _ _ (λ acc', names acc' = names acc ++ [o_name o] ∧ si_delete acc' ⊆ si_delete acc ∧
      (c_name new = o_name o → si_delete acc' !! c_name new = None))).
    + unfold match_step. destruct (decide _) as [Heq|Hne]; [|apply spec_ret; simpl; rewrite fmap_app; done].
      apply spec_bind_any; [apply Hcheck|]. intros [|e errs].
      * destruct (AlignBaseLabels _ _) as [labels lc]. destruct (align _ _) as [updated sc]. apply spec_ret. simpl. rewrite fmap_app.
        split_and!; [by destruct (o_labels o); simpl; rewrite ?Hname|apply delete_subseteq|intros _; apply lookup_delete_eq].
      * apply spec_ret. simpl. rewrite fmap_app. split_and!; [done|apply delete_subseteq|intros _; apply lookup_delete_eq].
    + intros acc1 (Hn1 & Hs1 & Hd1). eapply spec_post; [apply IH|]. intros acc2 (Hn2 & Hs2 & Hd2). split_and!.
      * by rewrite Hn2, Hn1, <-(assoc_L (++)).
      * by trans (si_delete acc1).
      * intros [Heq|Hin]%elem_of_cons; [|by apply Hd2]. destruct (si_delete acc2 !! c_name new) as [b|] eqn:Hb; [|done].
        apply (lookup_weaken _ (si_delete acc1)) in Hb; [|done]. rewrite Hd1 in Hb; done.
Qed.

Lemma specs_kept specs acc :
  spec P' (foldM (spec_step c_name o_name o_labels set_labels check align make) specs acc) (λ acc',
    names acc' = names acc ∧ si_delete acc' ⊆ si_delete acc ∧
    (∀ new, new ∈ specs → c_name new ∈ names acc → si_delete acc' !! c_name new = None)).
Proof.
  revert acc. induction specs as [|new specs IH]; intros acc; simpl.
  - apply spec_ret. split_and!; [done|done|by intros new ?%elem_of_nil].
  - eapply (spec_bind _ _ _ (λ acc', names acc' = names acc ∧ si_delete acc' ⊆ si_delete acc ∧
      (c_name new ∈ names acc → si_delete acc' !! c_name new = None))).
    + unfold spec_step. eapply spec_bind; [apply match_kept|]. intros acc' (Hn & Hs & Hd). apply spec_ret. done.
    + intros acc1 (Hn1 & Hs1 & Hd1). eapply spec_post; [apply IH|]. intros acc2 (Hn2 & Hs2 & Hd2). split_and!.
      * by rewrite Hn2.
      * by trans (si_delete acc1).
      * intros x [->|Hx]%elem_of_cons Hin; [|apply Hd2; [done|by rewrite Hn1]].
        destruct (si_delete acc2 !! c_name new) as [b|] eqn:Hb; [|done].
        apply (lookup_weaken _ (si_delete acc1)) in Hb; [|done]. rewrite Hd1 in Hb; done.
Qed.

Lemma site_listed items k b :
  (list_to_map ((λ o, (o_name o, true)) <$> items) : gmap string bool) !! k = Some b → k ∈ o_name <$> items.
Proof. intros Hk%elem_of_list_to_map_2. apply list_elem_of_fmap in Hk as (o & [= -> ->] & Ho). by apply list_elem_of_fmap_2. Qed.

Context (P : history → event → Prop) (Pre : history → Prop) (Hpre : lasting Pre).
Context (HP : ∀ h e, P' e → P h e) (Hinj : ∀ process o, P' (EvApply process (inj o))).

Lemma writes_traced process l errs :
  traced P Pre (foldM (write_step kind ns o_name inj process) l errs) (λ _, Pre).
Proof.
  apply (traced_foldM_inv _ _ (λ _, Pre)). intros o errs' _. unfold write_step.
  apply (traced_bind _ _ _ _ (λ _, Pre)); [apply traced_call; intros h Hh; split; [apply HP, Hinj|by apply Hpre]|]. intros [e|]; by apply traced_ret.
Qed.

Lemma sites_traced inUse items specs :
  (∀ name, name ∈ o_name <$> items → name ∉ c_name <$> specs → value_of inUse name = EmptyString → traced P Pre (remove name) (λ _, Pre)) →
  traced P Pre (ensure_sites kind ns c_name o_name o_labels set_labels inj check align make remove inUse items specs) (λ _, Pre).
Proof.
  intros Hremove. unfold ensure_sites. eapply traced_bind; [apply (traced_spec _ _ P'); [done|apply specs_kept|auto]|].
  intros acc. apply traced_pure. intros (_ & Hs & Hd). simpl in Hs, Hd.
  eapply traced_bind; [apply writes_traced|]. intros errs. eapply traced_bind; [apply writes_traced|]. intros errs'.
  eapply traced_bind; [apply (traced_foldM_inv _ _ (λ _, Pre))|intros [[|e es] changed]; by apply traced_ret].
  intros [k b] acc' Hk%elem_of_range. unfold leftover_step. simpl. destruct (decide _) as [He|]; [|by apply traced_ret].
  assert (Hin : k ∈ o_name <$> items) by (by eapply site_listed, lookup_weaken).
  eapply traced_bind; [apply Hremove; [done| |done]|intros e; by apply traced_ret].
  intros (new & -> & Hnew)%list_elem_of_fmap. by rewrite Hd in Hk.
Qed.

(** Only a part of what is known is needed afterwards. *)
Lemma sites_ended (Q : history → Prop) inUse items specs :
  (∀ name, name ∈ o_name <$> items → name ∉ c_name <$> specs → value_of inUse name = EmptyString → traced P Pre (remove name) (λ _, Pre)) →
  (∀ h, Pre h → Q h) →
  traced P Pre (ensure_sites kind ns c_name o_name o_labels set_labels inj check align make remove inUse items specs) (λ _, Q).
Proof. intros Hr HQ. eapply traced_weaken; [by apply sites_traced|done|]. intros a h. apply HQ. Qed.

Lemma removes_traced inUse items errs :
  (∀ name, name ∈ o_name <$> items → value_of inUse name = EmptyString → traced P Pre (remove name) (λ _, Pre)) →
  traced P Pre (foldM (remove_step o_name remove inUse) items errs) (λ _, Pre).
Proof.
  intros Hremove. apply (traced_foldM_inv _ _ (λ _, Pre)). intros o errs' Ho. unfold remove_step.
  destruct (decide _) as [He|]; [|by apply traced_ret].
  eapply traced_bind; [apply Hremove; [by apply list_elem_of_fmap_2|done]|intros e; by apply traced_ret].
Qed.
End sites.

(** ** What may be removed *)

Section multisite.
Context `{World} `{DeployWorld} `{SpecDecoder} `{ResourceWorld} `{StoreWorld} `{MapRange}.
Variables (rookNs : string) (storage : CephObjectStorage) (h0 : history).

Definition realms_read := asked h0 (EvRead "CephObjectRealmList" rookNs EmptyString) (λ h, w_realm_list h rookNs).
Definition groups_read := asked h0 (EvRead "CephObjectZoneGroupList" rookNs EmptyString) (λ h, w_zonegroup_list h rookNs).
Definition zones_read := asked h0 (EvRead "CephObjectZoneList" rookNs EmptyString) (λ h, w_zone_list h rookNs).
Definition stores_read := asked h0 (EvRead "CephObjectStoreList" rookNs EmptyString) (λ h, w_store_list h rookNs).

(** It was listed, is not in the spec, and a list of what may use it has no user. *)
Definition zone_removable (name : string) (h : history) : Prop :=
  name ∉ doz_Name <$> cos_Zones storage ∧
  ∃ zones stores, zones_read (zones, None) h ∧ stores_read (stores, None) h ∧
    name ∈ rzo_Name <$> zones ∧ nobody_uses store_zone rst_Name stores name.
Definition group_removable (name : string) (h : history) : Prop :=
  name ∉ dzg_Name <$> cos_Zonegroups storage ∧
  ∃ groups zones, groups_read (groups, None) h ∧ zones_read (zones, None) h ∧
    name ∈ rzg_Name <$> groups ∧ nobody_uses (λ zone, ozs_ZoneGroup (rzo_Spec zone)) rzo_Name zones name.
Definition realm_removable (name : string) (h : history) : Prop :=
  name ∉ dor_Name <$> cos_Realms storage ∧
  ∃ realms groups, realms_read (realms, None) h ∧ groups_read (groups, None) h ∧
    name ∈ rrm_Name <$> realms ∧ nobody_uses rzg_Realm rzg_Name groups name.

(** Interactions that remove nothing. *)
Definition site_quiet (e : event) : Prop :=
  match e with
  | EvRead _ _ _ | EvApply _ (RRealm _) | EvApply _ (RZoneGroup _) | EvApply _ (RZone _) => True
  | EvCeph ns cmd => ns = rookNs ∧ (cmd = "radosgw-admin zonegroup list" ∨ cmd = "radosgw-admin realm list")
  | _ => False
  end.

Definition site_event (h : history) (e : event) : Prop :=
  site_quiet e ∨
  (∃ name, e = EvDelete "CephObjectZone" rookNs name ∧ zone_removable name h) ∨
  (∃ name, (e = EvDelete "CephObjectZoneGroup" rookNs name ∨
            e = EvCeph rookNs ("radosgw-admin zonegroup delete --rgw-zonegroup=" +:+ name)) ∧ group_removable name h) ∨
  (∃ name, (e = EvDelete "CephObjectRealm" rookNs name ∨ e = EvDelete "Secret" rookNs (realm_keys name) ∨
            e = EvCeph rookNs ("radosgw-admin realm rm --rgw-realm=" +:+ name)) ∧ realm_removable name h).

Lemma cli_event Pre cmd :
  lasting Pre → (∀ h, Pre h → site_event h (EvCeph rookNs cmd)) → traced site_event Pre (RunCephToolboxCLI rookNs cmd) (λ _, Pre).
Proof.
  intros Hl He. unfold RunCephToolboxCLI, RunPodCmdAndCheckError.
  apply (traced_bind _ _ _ _ (λ _, Pre)); [|intros [[out er] [e|]]; by apply traced_ret].
  apply (traced_bind _ _ _ _ (λ _, Pre)); [|intros [[out er] [e|]]; by apply traced_ret].
  apply traced_call. intros h Hh. auto.
Qed.

Lemma listing_event {A} Pre zero (decode : string → A * option err) cmd :
  lasting Pre → cmd = "radosgw-admin zonegroup list" ∨ cmd = "radosgw-admin realm list" →
  traced site_event Pre (RunAndParseCephToolboxCLI zero decode rookNs cmd) (λ _, Pre).
Proof.
  intros Hl Hc. unfold RunAndParseCephToolboxCLI. eapply traced_bind; [apply cli_event; [done|]; intros h _; by left|].
  intros [out [e|]]; [by apply traced_ret|]. destruct (decode out) as [d [e|]]; by apply traced_ret.
Qed.

Lemma admin_event Pre name cmd msg present :
  lasting Pre → (∀ h, Pre h → site_event h (EvCeph rookNs cmd)) →
  traced site_event Pre (admin_remove rookNs name cmd msg present) (λ _, Pre).
Proof.
  intros Hl He. induction present as [|p present IH]; simpl; [by apply traced_ret|]. destruct (decide _) as [_|_]; [|done].
  eapply traced_bind; [by apply cli_event|]. intros [out [e|]]; [by apply traced_ret|done].
Qed.

Lemma delete_event Pre kind name :
  lasting Pre → (∀ h, Pre h → site_event h (EvDelete kind rookNs name)) →
  traced site_event Pre (delete_object rookNs kind name) (λ _, Pre).
Proof.
  intros Hl He. unfold delete_object. apply (traced_bind _ _ _ _ (λ _, Pre)); [apply traced_call; intros h Hh; auto|].
  intros [e|]; by apply traced_ret.
Qed.

Lemma zone_event Pre name :
  lasting Pre → (∀ h, Pre h → zone_removable name h) → traced site_event Pre (deleteZone rookNs name) (λ _, Pre).
Proof. intros Hl Hz. apply delete_event; [done|]. intros h Hh. right; left. exists name. auto. Qed.

Lemma group_event Pre name :
  lasting Pre → (∀ h, Pre h → group_removable name h) → traced site_event Pre (deleteZoneGroup rookNs name) (λ _, Pre).
Proof.
  intros Hl Hz. unfold deleteZoneGroup. eapply traced_bind; [apply listing_event; [done|by left]|].
  intros [present [e0|]]; [by apply traced_ret|].
  eapply traced_bind; [apply admin_event; [done|]|intros [e|]; [by apply traced_ret|apply delete_event; [done|]]];
    intros h Hh; do 2 right; left; exists name; auto.
Qed.

Lemma realm_event Pre name :
  lasting Pre → (∀ h, Pre h → realm_removable name h) → traced site_event Pre (deleteRealm rookNs name) (λ _, Pre).
Proof.
  intros Hl Hz. assert (Hr : traced site_event Pre (delete_realm rookNs name) (λ _, Pre)).
  { unfold delete_realm. eapply traced_bind; [apply listing_event; [done|by right]|]. intros [present [e0|]]; [by apply traced_ret|].
    eapply traced_bind; [apply admin_event; [done|]|intros [e|]; [by apply traced_ret|apply delete_event; [done|]]];
      intros h Hh; do 3 right; exists name; auto. }
  unfold deleteRealm. apply (traced_bind _ _ _ _ (λ _, Pre)).
  - apply traced_call. intros h Hh. split; [|by apply Hl]. do 3 right. exists name. auto.
  - intros [e|]; [|done]. destruct (is_not_found e); [done|by apply traced_ret].
Qed.

(** ** The operations *)

Ltac lasts := unfold stores_read; auto 10 with lasting.

Lemma ask_list {A} Pre kind (f : history → A) :
  lasting Pre → (∀ h, Pre h → h0 `prefix_of` h) →
  traced site_event Pre (read kind rookNs EmptyString f) (λ a h, asked h0 (EvRead kind rookNs EmptyString) f a h ∧ Pre h).
Proof. intros Hl Hp. apply traced_ask; [done|done|]. intros h _. by left. Qed.

Abbreviation begun := (λ h : history, h0 `prefix_of` h).

Lemma zones_used_traced Pre :
  lasting Pre → (∀ h, Pre h → begun h) →
  traced site_event Pre (getZonesInUse rookNs) (λ r h, (r.2 = None → ∃ stores, r.1 = users_of store_zone rst_Name stores ∧ stores_read (stores, None) h) ∧ Pre h).
Proof.
  intros Hl Hp. unfold getZonesInUse. eapply traced_bind; [by apply ask_list|].
  intros [stores [e|]]; apply traced_ret; intros h [Ha Hh]; (split; [|done]); [done|]. intros _. by exists stores.
Qed.

Lemma check_quiet realm : spec site_quiet (check_realm rookNs realm) (λ _, True).
Proof.
  unfold check_realm. destruct (decide _); [by apply spec_ret|]. apply spec_bind_any; [by apply spec_call|].
  intros [secret [e|]]; by apply spec_ret.
Qed.

Lemma realms_traced : traced site_event begun (ensureRealms rookNs storage) (λ _, begun).
Proof.
  unfold ensureRealms. eapply traced_bind; [apply ask_list; [apply prefix_lasting|done]|]. intros [realms [e|]]; [apply traced_ret; by intros h []|].
  eapply traced_bind; [apply ask_list; [lasts|by intros h []]|].
  intros [groups [e|]]; [apply traced_ret; by intros h (_ & _ & ?)|].
  apply (sites_ended _ _ _ _ _ _ _ _ _ _ _ site_quiet check_quiet).
  - done.
  - lasts.
  - intros h e He. by left.
  - done.
  - intros name Hin Hnot Hu. apply realm_event; [lasts|].
    intros h (Hg & Hr & _). split; [done|]. exists realms, groups. split_and!; [done|done|done|by apply unused_nobody].
  - by intros h (_ & _ & ?).
Qed.

Lemma groups_traced : traced site_event begun (ensureZoneGroups rookNs storage) (λ _, begun).
Proof.
  unfold ensureZoneGroups. eapply traced_bind; [apply ask_list; [apply prefix_lasting|done]|]. intros [groups [e|]]; [apply traced_ret; by intros h []|].
  eapply traced_bind; [apply ask_list; [lasts|by intros h []]|].
  intros [zones [e|]]; [apply traced_ret; by intros h (_ & _ & ?)|].
  apply (sites_ended _ _ _ _ _ _ _ _ _ _ _ site_quiet).
  - intros new. by apply spec_ret.
  - done.
  - lasts.
  - intros h e He. by left.
  - done.
  - intros name Hin Hnot Hu. apply group_event; [lasts|].
    intros h (Hg & Hr & _). split; [done|]. exists groups, zones. split_and!; [done|done|done|by apply unused_nobody].
  - by intros h (_ & _ & ?).
Qed.

Lemma zones_traced : traced site_event begun (ensureZones rookNs storage) (λ _, begun).
Proof.
  unfold ensureZones. eapply traced_bind; [apply ask_list; [apply prefix_lasting|done]|]. intros [zones [e|]]; [apply traced_ret; by intros h []|].
  eapply traced_bind; [apply zones_used_traced; [lasts|by intros h []]|].
  intros [used [e|]]; [apply traced_ret; by intros h (_ & _ & ?)|]. simpl.
  apply (sites_ended _ _ _ _ _ _ _ _ _ _ _ site_quiet).
  - intros new. by apply spec_ret.
  - done.
  - lasts.
  - intros h e He. by left.
  - done.
  - intros name Hin Hnot Hu. apply zone_event; [lasts|].
    intros h (Hs & Hr & _). destruct (Hs eq_refl) as (stores & -> & Hst). split; [done|]. exists zones, stores.
    split_and!; [done|done|done|by apply unused_nobody].
  - by intros h (_ & _ & ?).
Qed.

Lemma multisite_traced : traced site_event begun (ensureRgwMultiSite rookNs storage) (λ _, begun).
Proof.
  unfold ensureRgwMultiSite. eapply traced_bind; [apply realms_traced|]. intros [rc [e|]]; [by apply traced_ret|].
  eapply traced_bind; [apply groups_traced|]. intros [gc [e|]]; [by apply traced_ret|].
  eapply traced_bind; [apply zones_traced|]. intros [zc [e|]]; by apply traced_ret.
Qed.

Lemma sites_removed_traced zones groups realms stores Pre :
  storage = no_storage → lasting Pre →
  (∀ h, Pre h → zones_read (zones, None) h ∧ groups_read (groups, None) h ∧ realms_read (realms, None) h ∧ stores_read (stores, None) h) →
  traced site_event Pre (delete_sites rookNs (users_of store_zone rst_Name stores) zones groups realms) (λ _ _, True).
Proof.
  intros Hs Hl Hread. unfold delete_sites. eapply traced_bind; [apply removes_traced|intros e1; eapply traced_bind; [apply removes_traced|intros e2; eapply traced_bind;
    [apply removes_traced|intros [|e e3]; by apply traced_ret]]]; intros name Hin Hu.
  - apply zone_event; [done|]. intros h (? & ? & ? & ?)%Hread. split; [rewrite Hs; apply not_elem_of_nil|]. exists zones, stores.
    split_and!; [done..|by apply unused_nobody].
  - apply group_event; [done|]. intros h (? & ? & ? & ?)%Hread. split; [rewrite Hs; apply not_elem_of_nil|]. exists groups, zones.
    split_and!; [done..|by apply unused_nobody].
  - apply realm_event; [done|]. intros h (? & ? & ? & ?)%Hread. split; [rewrite Hs; apply not_elem_of_nil|]. exists realms, groups.
    split_and!; [done..|by apply unused_nobody].
Qed.

Lemma multisite_removed_traced : storage = no_storage → traced site_event begun (deleteMultiSite rookNs) (λ _ _, True).
Proof.
  intros Hs. unfold deleteMultiSite. eapply traced_bind; [apply ask_list; [lasts|done]|]. intros [zones [e|]]; [by apply traced_ret|].
  eapply traced_bind; [apply ask_list; [lasts|by intros h []]|]. intros [groups [e|]]; [by apply traced_ret|].
  eapply traced_bind; [apply ask_list; [lasts|by intros h (_ & _ & ?)]|]. intros [realms [e|]]; [by apply traced_ret|].
  eapply traced_bind; [apply zones_used_traced; [lasts|by intros h (_ & _ & _ & ?)]|]. intros [used [e|]]; [by apply traced_ret|]. simpl.
  intros h (Hu & Hr & Hg & Hz & Hh). destruct (Hu eq_refl) as (stores & -> & Hst).
  eapply (sites_removed_traced zones groups realms stores
    (λ h, zones_read (zones, None) h ∧ groups_read (groups, None) h ∧ realms_read (realms, None) h ∧ stores_read (stores, None) h)); [done| |done|done].
  unfold zones_read, groups_read, realms_read. lasts.
Qed.
End multisite.

(** C26: Realms, zone groups and zones of object storage.  When the spec is applied, an object
    is removed, from Kubernetes or from Ceph, only if it was listed, is not in the spec, and a
    list read in the same pass has nothing that uses it: no object store a zone, no zone a zone
    group, no zone group a realm; the keys of a realm go with the realm.  When object storage
    is deleted the same holds without a spec: what is still used is kept. *)
Theorem multisite_removal_safe `{World} `{DeployWorld} `{SpecDecoder} `{ResourceWorld} `{StoreWorld} `{MapRange} rookNs storage h :
  (∀ evs1 e evs2, (ensureRgwMultiSite rookNs storage h).2 = evs1 ++ e :: evs2 → site_event rookNs storage h (h ++ evs1) e) ∧
  (∀ evs1 e evs2, (deleteMultiSite rookNs h).2 = evs1 ++ e :: evs2 → site_event rookNs no_storage h (h ++ evs1) e).
Proof.
  split; intros evs1 e evs2 Hev.
  - destruct (multisite_traced rookNs storage h h) as [_ HP]; [done|]. exact (HP _ _ _ Hev).
  - destruct (multisite_removed_traced rookNs no_storage h eq_refl h) as [_ HP]; [done|]. exact (HP _ _ _ Hev).
Qed.

(** ** Object stores: removal

    A store is removed last, when neither users nor buckets, neither its service nor its storage
    class are left ([store_removed_last]); once object storage counts as deleted, nothing of it
    was listed ([storage_gone]); without the Gateway API it never does
    ([deletion_needs_gateway]). *)

Section removal.
Context `{World} `{DeployWorld} `{SpecDecoder} `{ResourceWorld} `{StoreWorld}.
Variables (rookNs : string) (external : bool) (h0 : history).

(** The API server answered that the object is not there. *)
Definition found_gone (kind ns name : string) (h : history) : Prop :=
  ∃ e, is_not_found e = true ∧ asked h0 (EvDelete kind ns name) (λ h, w_object_delete h kind ns name) (Some e) h.

Definition bucket_concerned (rgwToRemove : string) (bucket : string * string) : bool :=
  bool_decide (rgwToRemove = EmptyString) || bool_decide (bucket.2 = getRgwStorageClass rgwToRemove).

(** Users and buckets were listed, and none of them belongs to what is removed. *)
Definition deserted (rgwToRemove : string) (h : history) : Prop :=
  (∃ users, asked h0 (EvRead "CephObjectStoreUserList" rookNs EmptyString) (λ h, w_user_list h rookNs) (users, None) h ∧
     ∀ user, user ∈ users → concerns rgwToRemove (sus_Store (rus_Spec user)) = false) ∧
  (∃ buckets, asked h0 (EvRead "ObjectBucketClaimList" rookNs EmptyString) (λ h, w_bucket_list h rookNs) (buckets, None) h ∧
     ∀ bucket, bucket ∈ buckets → bucket_concerned rgwToRemove bucket = false).

(** What surrounds the store is gone as well. *)
Definition stripped (name : string) (h : history) : Prop :=
  (external = false → found_gone "Service" rookNs (buildRGWName name "external") h) ∧
  found_gone "StorageClass" EmptyString (getRgwStorageClass name) h.

(** Interactions that remove no store, and those that do. *)
Definition keeps_stores (e : event) : Prop :=
  match e with EvDelete kind _ _ => kind ≠ "CephObjectStore" | _ => True end.
Definition store_event (allowed : string → history → Prop) (h : history) (e : event) : Prop :=
  keeps_stores e ∨ ∃ name, e = EvDelete "CephObjectStore" rookNs name ∧ allowed name h.

Abbreviation begun := (λ h : history, h0 `prefix_of` h).

Lemma found_gone_lasting kind ns name : lasting (found_gone kind ns name).
Proof. unfold found_gone. auto 10 with lasting. Qed.
Lemma deserted_lasting rgwToRemove : lasting (deserted rgwToRemove).
Proof. unfold deserted. auto 20 with lasting. Qed.
Hint Resolve found_gone_lasting deserted_lasting : lasting.

(** A loop that ends with nothing left to remove has met nothing to remove. *)
Lemma clean_loop {A} P (f : bool * nat → A → IO (bool * nat)) (bad : A → bool) l acc :
  (∀ acc a, spec P (f acc a) (λ acc', acc'.1 = true → acc.1 = true ∧ bad a = false)) →
  spec P (foldM f l acc) (λ acc', acc'.1 = true → acc.1 = true ∧ ∀ a, a ∈ l → bad a = false).
Proof.
  intros Hf. revert acc. induction l as [|a l IH]; intros acc; simpl; [apply spec_ret; intros; split; [done|by intros u ?%elem_of_nil]|].
  eapply spec_bind; [apply Hf|]. intros acc1 Hs1. eapply spec_post; [apply IH|]. intros acc2 Hs2 Ht.
  destruct (Hs2 Ht) as [Ht1 Hu]. destruct (Hs1 Ht1) as [Ha Hc]. split; [done|]. by intros u [->|Hin]%elem_of_cons; [|apply Hu].
Qed.

Lemma drop_users_result rgwToRemove users acc :
  spec keeps_stores (foldM (drop_user rgwToRemove) users acc) (λ acc', acc'.1 = true →
    acc.1 = true ∧ ∀ user, user ∈ users → concerns rgwToRemove (sus_Store (rus_Spec user)) = false).
Proof.
  apply clean_loop. intros acc' user. unfold drop_user. destruct (concerns _ _); [|by apply spec_ret].
  apply spec_bind_any; [|intros e; by apply spec_ret]. apply spec_bind_any; [by apply spec_call|].
  intros [e|]; [destruct (_ && _)|]; by apply spec_ret.
Qed.

Lemma drop_buckets_result rgwToRemove buckets acc :
  spec keeps_stores (foldM (drop_bucket rookNs rgwToRemove) buckets acc) (λ acc', acc'.1 = true →
    acc.1 = true ∧ ∀ bucket, bucket ∈ buckets → bucket_concerned rgwToRemove bucket = false).
Proof.
  apply clean_loop. intros acc' bucket. unfold drop_bucket, bucket_concerned. destruct (_ || _); [|by apply spec_ret].
  apply spec_bind_any; [by apply spec_call|]. intros e. by apply spec_ret.
Qed.

Lemma drop_stores_result rgwToRemove stores acc :
  spec (λ _, True) (foldM (λ acc rgw, if concerns rgwToRemove (rst_Name rgw) then drop_store rookNs external acc rgw else ret acc) stores acc)
    (λ acc', acc'.1 = true → acc.1 = true ∧ ∀ store, store ∈ stores → concerns rgwToRemove (rst_Name store) = false).
Proof.
  apply clean_loop. intros acc' store. destruct (concerns _ _); [|by apply spec_ret]. unfold drop_store.
  apply spec_bind_any; [apply spec_triv|]. intros [svcFound|e]; [|by apply spec_ret].
  apply spec_bind_any; [apply spec_triv|]. intros e. destruct (was_there e) as [classFound|e']; [|by apply spec_ret].
  destruct (_ || _); [by apply spec_ret|]. apply spec_bind_any; [apply spec_triv|]. intros e'.
  apply spec_bind_any; [apply spec_triv|]. intros u. by apply spec_ret.
Qed.

Lemma delete_asked P Pre kind ns name :
  lasting Pre → (∀ h, Pre h → begun h) → (∀ h, Pre h → P h (EvDelete kind ns name)) →
  traced P Pre (object_delete kind ns name) (λ e h, (was_there e = inl false → found_gone kind ns name h) ∧ Pre h).
Proof.
  intros Hl Hp He. eapply traced_weaken; [by apply traced_ask|done|]. intros e h [Ha Hh]. split; [|done].
  destruct e as [e|]; simpl; [|done]. destruct (is_not_found e) eqn:Hn; [|done]. intros _. by exists e.
Qed.

(** ** One store *)

Section allowed.
Variables (allowed : string → history → Prop) (Pre : history → Prop).
Context (Hl : lasting Pre) (Hp : ∀ h, Pre h → begun h).

Lemma quiet_traced {A} (m : IO A) Q : spec keeps_stores m Q → traced (store_event allowed) Pre m (λ a h, Q a ∧ Pre h).
Proof. intros Hm. eapply traced_spec; [done|exact Hm|]. intros h e _ He. by left. Qed.

Lemma drop_store_traced acc store :
  (∀ h, Pre h → stripped (rst_Name store) h → allowed (rst_Name store) h) →
  traced (store_event allowed) Pre (drop_store rookNs external acc store) (λ _, Pre).
Proof.
  intros Hok. unfold drop_store.
  apply (traced_bind _ _ _ _ (λ svc h, (svc = inl false → external = false → found_gone "Service" rookNs (buildRGWName (rst_Name store) "external") h) ∧ Pre h)).
  - destruct external; [by apply traced_ret|]. eapply traced_bind; [apply delete_asked; [done|done|]; intros h _; by left|].
    intros e. apply traced_ret. intros h [Hg Hh]. by split; [intros ? _; apply Hg|].
  - intros [svcFound|e]; [|apply traced_ret; by intros h []].
    eapply traced_bind; [apply delete_asked; [auto with lasting|intros h []; auto|]; intros h _; by left|].
    intros e. destruct (was_there e) as [classFound|e1] eqn:Hw; [|apply traced_ret; by intros h (_ & _ & ?)].
    destruct svcFound, classFound; simpl; try (apply traced_ret; by intros h (_ & _ & ?)).
    apply (traced_bind _ _ _ _ (λ _, Pre)).
    + apply traced_call. intros h (Hc & Hs & Hh). split; [|by apply Hl]. right. exists (rst_Name store). split; [done|].
      apply Hok; [done|]. split; [by apply Hs|by apply Hc].
    + intros e2. eapply traced_bind; [apply (quiet_traced _ (λ _, True))|intros u; apply traced_ret; by intros h []].
      unfold forget_store, update_stamps. apply spec_bind_any; [intros h; by split|]. intros s. by apply spec_call.
Qed.

Lemma drop_stores_traced rgwToRemove :
  (∀ name h, Pre h → concerns rgwToRemove name = true → stripped name h → allowed name h) →
  traced (store_event allowed) Pre (drop_stores rookNs external rgwToRemove) (λ _, Pre).
Proof.
  intros Hok. unfold drop_stores. eapply traced_bind; [apply (quiet_traced _ (λ _, True)); by apply spec_call|].
  intros [stores [e|]]; [apply traced_ret; by intros h []|]. apply traced_pure. intros _.
  eapply traced_bind; [apply (traced_foldM_inv _ _ (λ _, Pre))|].
  - intros store acc _. destruct (concerns _ _) eqn:Hc; [|by apply traced_ret]. apply drop_store_traced. auto.
  - intros [done' [|n]]; (eapply traced_bind; [apply (quiet_traced _ (λ _, True))|intros u; apply traced_ret; by intros h []]);
      unfold when', update_stamps; (case_match; [|by apply spec_ret]);
      (apply spec_bind_any; [intros h; by split|intros s; by apply spec_call]).
Qed.

End allowed.

(** ** Users and buckets first *)

Lemma delete_rgw_traced allowed Pre rgwToRemove :
  lasting Pre → (∀ h, Pre h → begun h) →
  (∀ name h, Pre h → concerns rgwToRemove name = true → deserted rgwToRemove h → stripped name h → allowed name h) →
  traced (store_event allowed) Pre (deleteRgw rookNs external rgwToRemove) (λ _, Pre).
Proof.
  intros Hl Hp Hok. unfold deleteRgw.
  assert (Hread : ∀ A Pre' kind (f : history → A), lasting Pre' → (∀ h, Pre' h → begun h) →
    traced (store_event allowed) Pre' (read kind rookNs EmptyString f) (λ a h, asked h0 (EvRead kind rookNs EmptyString) f a h ∧ Pre' h)).
  { intros. apply traced_ask; [done|done|]. intros h _. by left. }
  eapply traced_bind; [by apply Hread|]. intros [users [e|]]; [apply traced_ret; by intros h []|].
  eapply traced_bind; [apply Hread; [auto with lasting|intros h []; auto]|]. intros [buckets [e|]]; [apply traced_ret; by intros h (_ & _ & ?)|].
  eapply traced_bind; [apply (traced_spec _ _ keeps_stores); [auto with lasting|apply drop_users_result|intros h e _ He; by left]|].
  intros acc. eapply traced_bind; [apply (traced_spec _ _ keeps_stores); [auto 10 with lasting|apply drop_buckets_result|intros h e _ He; by left]|].
  intros [[|] [|n]]; try (apply traced_ret; by intros h (_ & _ & _ & _ & ?)).
  eapply traced_weaken; [apply (drop_stores_traced allowed (λ h, deserted rgwToRemove h ∧ Pre h))| |by intros a h []].
  - auto with lasting.
  - intros h []. auto.
  - intros name h [Hd Hh] Hc Hs. auto.
  - intros h (Hb & Hu & Hab & Hau & Hh). destruct (Hb eq_refl) as [Ha Hb']. destruct (Hu Ha) as [_ Hu'].
    split; [|done]. split; eexists; split; eauto.
Qed.

(** ** Stores that are left over *)

Lemma odd_traced allowed Pre names zones stores consistent :
  lasting Pre → (∀ h, Pre h → begun h) →
  (∀ store h name, store ∈ stores → Pre h → rst_Name store ∉ names → held_store zones store = false →
     concerns (rst_Name store) name = true → deserted (rst_Name store) h → stripped name h → allowed name h) →
  traced (store_event allowed) Pre (odd_stores rookNs external names zones stores consistent) (λ _, Pre).
Proof.
  intros Hl Hp. revert consistent. induction stores as [|store stores IH]; intros consistent Hok; simpl; [by apply traced_ret|].
  assert (IH' := λ b, IH b (λ s h name Hs, Hok s h name (list_elem_of_further _ _ _ Hs))).
  destruct (decide _) as [|Hnot]; [done|]. destruct (held_store zones store) eqn:Hheld; [done|].
  eapply traced_bind; [apply delete_rgw_traced; [done|done|]|intros [b [e|]]; [by apply traced_ret|apply IH']].
  intros name h Hh Hc Hd Hs. apply (Hok store); [left|done..].
Qed.

Lemma certs_keep present : spec keeps_stores (deleteSelfSignedCerts rookNs present) (λ _, True).
Proof.
  unfold deleteSelfSignedCerts. apply spec_bind_any; [by apply spec_call|]. intros [secrets [e|]]; [by apply spec_ret|].
  generalize true. induction secrets as [|secret secrets IH]; intros b; simpl; [by apply spec_ret|].
  case_match; [apply IH|]. apply spec_bind_any; [by apply spec_call|]. intros [e|]; [by apply spec_ret|apply IH].
Qed.
End removal.

(** C25: In the pass that looks for object stores that are left over, a store is removed only if
    it was listed and is not in the spec, and is not held back as a gateway without
    synchronisation in a zone of the spec; and only after users and buckets were listed and
    none of them belonged to it, and the API server had answered that its storage class and,
    for a cluster of its own, its external service are gone. *)
Theorem store_removed_last `{DeployWorld} `{SpecDecoder} `{ResourceWorld} `{StoreWorld}
    rookNs storage external h stores evs1 ns name evs2 :
  w_store_list h rookNs = (stores, None) → (∀ store, store ∈ stores → rst_Name store ≠ EmptyString) →
  (ensureRgwConsistence rookNs storage external h).2 = evs1 ++ EvDelete "CephObjectStore" ns name :: evs2 →
  ns = rookNs ∧ name ∉ dos_Name <$> cos_Rgws storage ∧
  (∃ store, store ∈ stores ∧ rst_Name store = name ∧ held_store (spec_zones (cos_Rgws storage)) store = false) ∧
  deserted rookNs h name (h ++ evs1) ∧ stripped rookNs external h name (h ++ evs1).
Proof.
  intros Hlist Hnames Hev.
  set (allowed := λ name h', name ∉ dos_Name <$> cos_Rgws storage ∧
    (∃ store, store ∈ stores ∧ rst_Name store = name ∧ held_store (spec_zones (cos_Rgws storage)) store = false) ∧
    deserted rookNs h name h' ∧ stripped rookNs external h name h').
  assert (Ht : traced (store_event rookNs allowed) (λ h', h' = h) (ensureRgwConsistence rookNs storage external) (λ _ _, True)).
  { unfold ensureRgwConsistence. apply (traced_bind _ _ _ _ (λ r h', r = (stores, None) ∧ h `prefix_of` h')).
    { apply traced_call. intros h' ->. split; [by left|]. split; [done|by apply prefix_app_r]. }
    intros r. apply traced_pure. intros ->.
    eapply traced_bind; [apply (odd_traced rookNs external h allowed); [apply prefix_lasting|done|]|].
    - intros store h' name' Hs _ Hn Hheld Hc Hd Hst. assert (name' = rst_Name store) as ->.
      { apply orb_true_iff in Hc as [He|He]; apply bool_decide_eq_true in He; [by destruct (Hnames store)|done]. }
      split_and!; [done|by exists store|done|done].
    - intros [consistent|e]; [|by apply traced_ret].
      eapply traced_bind; [eapply traced_spec; [apply prefix_lasting|apply certs_keep|intros h' e _ He; by left]|].
      intros [removed [e|]]; by apply traced_ret. }
  destruct (Ht h eq_refl) as [_ HP]. destruct (HP _ _ _ Hev) as [Hk|(name' & [= -> ->] & Ha)]; [done|]. split; [done|exact Ha].
Qed.

(** ** The end of a deletion *)

Section deletion.
Context `{World} `{DeployWorld} `{SpecDecoder} `{ResourceWorld} `{StoreWorld}.
Variables (rookNs : string) (h0 : history).

Abbreviation begun := (λ h : history, h0 `prefix_of` h).
Abbreviation anything := (λ (_ : history) (_ : event), True).

(** A list was read and is empty. *)
Definition read_empty {A} (kind : string) (f : history → list A * option err) (h : history) : Prop :=
  asked h0 (EvRead kind rookNs EmptyString) f ([], None) h.

Definition stores_gone (h : history) : Prop :=
  read_empty "CephObjectStoreUserList" (λ h, w_user_list h rookNs) h ∧
  read_empty "ObjectBucketClaimList" (λ h, w_bucket_list h rookNs) h ∧
  read_empty "CephObjectStoreList" (λ h, w_store_list h rookNs) h.
Definition sites_gone (h : history) : Prop :=
  read_empty "CephObjectZoneList" (λ h, w_zone_list h rookNs) h ∧
  read_empty "CephObjectZoneGroupList" (λ h, w_zonegroup_list h rookNs) h ∧
  read_empty "CephObjectRealmList" (λ h, w_realm_list h rookNs) h.

Lemma stores_gone_lasting : lasting stores_gone.
Proof. unfold stores_gone, read_empty. auto 10 with lasting. Qed.
Lemma sites_gone_lasting : lasting sites_gone.
Proof. unfold sites_gone, read_empty. auto 10 with lasting. Qed.
Hint Resolve stores_gone_lasting sites_gone_lasting : lasting.

Lemma ask_any {A} Pre kind (f : history → A) :
  lasting Pre → (∀ h, Pre h → begun h) →
  traced anything Pre (read kind rookNs EmptyString f) (λ a h, asked h0 (EvRead kind rookNs EmptyString) f a h ∧ Pre h).
Proof. intros Hl Hp. by apply traced_ask. Qed.

(** With the empty name everything is to be removed, so that nothing may be listed. *)
Lemma none_listed {A} (l : list A) (bad : A → bool) : (∀ a, bad a = true) → (∀ a, a ∈ l → bad a = false) → l = [].
Proof. intros Hb Hl. destruct l as [|a l]; [done|]. specialize (Hl a (list_elem_of_here _ _)). by rewrite Hb in Hl. Qed.

Lemma rgw_deleted external :
  traced anything begun (deleteRgw rookNs external EmptyString) (λ r h, (r.1 = true → stores_gone h) ∧ begun h).
Proof.
  assert (Hno : ∀ (a : bool * option err) (Q : history → Prop), a.1 = false → (∀ h, Q h → begun h) →
    traced anything Q (ret a) (λ r h, (r.1 = true → stores_gone h) ∧ begun h)).
  { intros a Q Ha HQ. apply traced_ret. intros h Hh. split; [by rewrite Ha|by apply HQ]. }
  unfold deleteRgw. eapply traced_bind; [apply ask_any; [apply prefix_lasting|done]|].
  intros [users [e|]]; [apply Hno; [done|by intros h (_ & ?)]|].
  eapply traced_bind; [apply ask_any; [auto with lasting|by intros h []]|].
  intros [buckets [e|]]; [apply Hno; [done|by intros h (_ & _ & ?)]|].
  eapply traced_bind; [apply (traced_spec _ _ keeps_stores); [auto with lasting|apply drop_users_result|done]|].
  intros acc. eapply traced_bind; [apply (traced_spec _ _ keeps_stores); [auto 10 with lasting|apply drop_buckets_result|done]|].
  intros [[|] [|n]]; try (apply Hno; [done|by intros h (_ & _ & _ & _ & ?)]).
  unfold drop_stores. eapply traced_bind; [apply ask_any; [auto 20 with lasting|by intros h (_ & _ & _ & _ & ?)]|].
  intros [stores [e|]]; [apply Hno; [done|by intros h (_ & _ & _ & _ & _ & ?)]|].
  eapply traced_bind; [apply (traced_spec _ _ (λ _, True)); [auto 20 with lasting|apply drop_stores_result|done]|].
  intros acc2. eapply traced_bind; [apply traced_any; auto 20 with lasting|]. intros u.
  apply (traced_weaken _ (λ h, begun h ∧ (acc2.1 = true → stores_gone h)) _ _ (λ r h, (r.1 = true → stores_gone h) ∧ begun h)); [|clear Hno|done].
  { destruct (acc2.2); apply traced_ret; by intros h []. }
  intros h (Hs & Has & Hb & Hu & Hab & Hau & Hh). split; [done|]. intros Ht. destruct (Hb eq_refl) as [Ha Hb']. destruct (Hu Ha) as [_ Hu'].
  destruct (Hs Ht) as [_ Hs']. apply none_listed in Hu', Hb', Hs'; [|done..]. subst. done.
Qed.

Lemma multisite_deleted :
  traced anything begun (deleteMultiSite rookNs) (λ r h, (r.1 = true → sites_gone h) ∧ begun h).
Proof.
  unfold deleteMultiSite. eapply traced_bind; [apply ask_any; [apply prefix_lasting|done]|]. intros [zones [e|]]; [apply traced_ret; by intros h []|].
  eapply traced_bind; [apply ask_any; [auto with lasting|by intros h []]|]. intros [groups [e|]]; [apply traced_ret; by intros h (_ & _ & ?)|].
  eapply traced_bind; [apply ask_any; [auto with lasting|by intros h (_ & _ & ?)]|]. intros [realms [e|]]; [apply traced_ret; by intros h (_ & _ & _ & ?)|].
  eapply traced_bind; [apply traced_any; auto 10 with lasting|]. intros [used [e|]]; [apply traced_ret; by intros h (_ & _ & _ & ?)|].
  unfold delete_sites. do 3 (eapply traced_bind; [apply traced_any; auto 10 with lasting|intros ?]).
  case_match; apply traced_ret; intros h (Hr & Hg & Hz & Hh); (split; [|done]); [|done]. simpl. intros Ht.
  apply andb_true_iff in Ht as [[Hz' Hg']%andb_true_iff Hr']. apply bool_decide_eq_true in Hz', Hg', Hr'. by subst.
Qed.

Lemma rest_deleted c acc :
  traced anything (λ h, stores_gone h ∧ begun h) (delete_rest rookNs c (external_cluster c) acc)
    (λ acc' h, acc'.1 = true → stores_gone h ∧ (external_cluster c = false → sites_gone h)).
Proof.
  unfold delete_rest. eapply traced_bind; [apply traced_any; auto with lasting|]. intros r1. destruct (external_cluster c).
  - eapply traced_bind; [apply traced_any; auto with lasting|]. intros r2. apply traced_ret. by intros h [].
  - eapply traced_bind; [apply traced_frame; [auto with lasting|apply multisite_deleted]|]. intros [[|] e]; simpl.
    + eapply traced_bind; [apply traced_any; auto 10 with lasting|]. intros r2. apply traced_ret. intros h (Hh & Hs & _). auto.
    + apply traced_ret. intros h (Hh & _). simpl. by rewrite andb_false_r.
Qed.

Lemma storage_deleted c :
  traced anything begun (deleteObjectStorage rookNs c) (λ r h, r.1 = true → stores_gone h ∧ (external_cluster c = false → sites_gone h)).
Proof.
  unfold deleteObjectStorage. eapply traced_bind; [apply traced_any, prefix_lasting|]. intros acc.
  eapply traced_bind; [apply rgw_deleted|]. intros [[|] e]; simpl.
  - eapply traced_bind; [eapply traced_weaken; [apply rest_deleted|intros h [Hs Hh]; auto|done]|].
    intros acc'. destruct (acc'.2); apply traced_ret; simpl; [auto|done].
  - apply traced_bind_ret. destruct (removed_step _ _).2; apply traced_ret; simpl; [by rewrite andb_false_r|done].
Qed.
End deletion.

(** Object storage of a cluster of its own is never reported as deleted when the Gateway API
    is disabled: there are no routes to remove, but the step answers that they are not yet
    removed, in every round. *)
Theorem deletion_needs_gateway `{World} `{DeployWorld} `{ResourceWorld} `{StoreWorld} rookNs c h :
  external_cluster c = false → cp_GatewayAPIEnabled (dc_commonParams c) = false →
  (deleteObjectStorage rookNs c h).1.1 = false.
Proof.
  intros Hext Hgw. assert (Hs : spec (λ _, True) (deleteObjectStorage rookNs c) (λ r, r.1 = false)); [|apply Hs].
  unfold deleteObjectStorage. rewrite Hext. unfold deleteGatewayHTTPRoutes. rewrite Hgw.
  eapply (spec_bind _ _ _ (λ acc, acc.1 = false)); [apply spec_bind_ret; by apply spec_ret|]. intros acc0 Ha0.
  apply spec_bind_any; [apply spec_triv|]. intros [removed e].
  assert (Hstep : ∀ acc r, acc.1 = false → (removed_step acc r).1 = false) by (intros acc r Ha; simpl; by rewrite Ha).
  apply (spec_bind _ _ _ (λ acc, acc.1 = false)); [|intros acc Ha; destruct acc.2; by apply spec_ret].
  simpl. destruct removed; [|apply spec_ret; by apply Hstep]. unfold delete_rest. apply spec_bind_any; [apply spec_triv|]. intros r1.
  apply spec_bind_any; [apply spec_triv|]. intros [[|] e2]; simpl;
    [apply spec_bind_any; [apply spec_triv|]; intros r3|]; apply spec_ret; repeat apply Hstep; done.
Qed.
