(* ===== verification/DeployController.v ===== *)
(** * The deployment controller

    pkg/controller/deployment/controller.go, with [UpdateCephDeploymentStatus]
    (register.go of the API), [buildStorageNodes], [checkStorageSpecIsAligned] and
    [deleteCluster] of cluster.go.

    The operations on pools, file systems, gateways, clients, storage classes and so on,
    which [applyConfiguration] and [cleanCephDeployment] call, are those of the interface
    [ResourceOps]; each call is announced ([EvEnsure], [EvRemove], by the name the code
    gives it): which of them run, in which order and with which consequences is what this
    file is about.

    [tries] is the package variable [currentFailTry]. *)

From S2P Require Import Prelude GoTime Types HealthTypes DeployTypes World HealthWorld TaskUtils Controller Config Extensions Validate DeployWorld CastSpec NodeLabels Versions.
Open Scope Z_scope.

Definition deploy_finalizer : string := "cephdeployment.lcm.mirantis.com/finalizer".
Definition failTriesLeft : Z := 3.

(** ** The storage nodes of the CephCluster *)

Definition storage_device (dev : CephDevice) : CephDevice :=
  if HasPrefix (cd_FullPath dev) "/dev/disk/by-id" then mkCephDevice (cd_FullPath dev) EmptyString (cd_Config dev) else dev.

Definition set_cn_Devices (devices : list CephDevice) (n : CephNode) : CephNode :=
  mkCephNode (cn_Name n) (cn_Config n) devices (cn_DeviceFilter n) (cn_DevicePathFilter n) (cn_UseAllDevices n)
    (cn_VolumeClaimTemplates n).

(** Sorted by name; of two entries with one name the last is taken, twice. *)
Definition buildStorageNodes (cephDplNodes : list CephDeploymentNode) : list CephNode :=
  let osdNodes := filter (λ n, IsCephOsdNode (dn_Node n) = true) cephDplNodes in
  let nodeMap : gmap string CephNode := foldl (λ m n, <[dn_Name n := dn_Node n]> m) ∅ osdNodes in
  omap (λ name, (λ n, set_cn_Devices (storage_device <$> cn_Devices n) n) <$> nodeMap !! name)
    (SortStrings (dn_Name <$> osdNodes)).

Section controller.
Context `{World} `{HealthWorld} `{DeployWorld} `{ResourceOps} `{SpecDecoder} `{MapRange}.
Variables (rookNs : string) (params : DeployParams).

(** [checkStorageSpecIsAligned]; no storage nodes are stored as a missing list, which the
    comparison tells from the empty one. *)
Definition checkStorageSpecIsAligned (c : deployConfig) : IO (bool * option err) :=
  let name := cdp_Name (dc_cephDpl c) in
  let* r := call (EvClusterGet rookNs name) (λ h, w_rookcluster_get h rookNs name) in
  match r with
  | (_, Some e) => ret (false, Some e)
  | (cluster, None) =>
      let newNodes := buildStorageNodes (dc_nodesListExpanded c) in
      ret (bool_decide (rkc_StorageNodes cluster = newNodes) && bool_decide (newNodes ≠ []), None)
  end.

(** ** Status *)

Definition UpdateCephDeploymentStatus (cephDeploy : CephDeployment) (status : CephDeploymentStatus) : IO (option err) :=
  let ns := cdp_Namespace cephDeploy in
  let name := cdp_Name cephDeploy in
  let* e := call (EvDplStatusUpdate ns name status) (λ h, w_dpl_status_update h ns name status) in
  ret ((λ e, new_err ("failed to update status for the CephDeployment " +:+ ns +:+ "/" +:+ name +:+ ": " +:+ err_msg e)) <$> e).

(** A failure does not replace the phases other controllers rely on. *)
Definition guarded_status (current status : CephDeploymentStatus) : CephDeploymentStatus :=
  match dst_Phase status, dst_Phase current with
  | PhaseFailed, (PhaseOnHold | PhaseMaintenance) => current
  | _, _ => status
  end.

(** [updateCephDeploymentStatus]; it also resets [currentFailTry], see its callers. *)
Definition updateCephDeploymentStatus (name namespace : string) (status : CephDeploymentStatus) : IO (option err) :=
  let* r := read "CephDeployment" namespace name (λ h, w_dpl_cached h namespace name) in
  match r with
  | (_, Some e) =>
      ret (Some (wrap_err ("failed to get CephDeployment '" +:+ namespace +:+ "/" +:+ name +:+ "' to update status") e))
  | (cephDpl, None) =>
      let status := guarded_status (cdp_Status cephDpl) status in
      let* now := GetCurrentTimeString in
      let* e := UpdateCephDeploymentStatus cephDpl (set_dst_LastRun now status) in
      ret (wrap_err ("failed to update CephDeployment " +:+ cdp_Namespace cephDpl +:+ "/" +:+ cdp_Name cephDpl +:+ " status") <$> e)
  end.

(** [setCephDeploymentPhaseFailed]: the failure is written once there were enough of them. *)
Definition setCephDeploymentPhaseFailed (tries : Z) (name namespace : string) (status : CephDeploymentStatus) : IO Z :=
  if decide (tries < failTriesLeft) then ret (tries + 1)
  else updateCephDeploymentStatus name namespace status ;;; ret 0.

(** ** Child objects *)

Definition getRef (dpl : CephDeployment) (kind : string) : ObjectReference :=
  mkObjectReference kind (cdp_Name dpl) (cdp_Namespace dpl).

(** One child: references and issues. *)
Definition ensure_child (dpl : CephDeployment) (kind : string) : IO (list ObjectReference * list string) :=
  let ns := cdp_Namespace dpl in
  let name := cdp_Name dpl in
  let* r := read kind ns name (λ h, w_object_labels h kind ns name) in
  match r with
  | (_, Some e) =>
      if is_not_found e then
        let* e := call (EvCreate kind ns name) (λ h, w_object_create h kind ns name) in
        match e with
        | Some _ => ret ([], ["failed to create " +:+ kind])
        | None => ret ([getRef dpl kind], [])
        end
      else ret ([], ["failed to check " +:+ kind +:+ " presence"])
  | (labels, None) =>
      let '(newLabels, updated) := AlignBaseLabels labels baseResourceLabels in
      let* issues :=
        if (updated : bool) then
          let* e := call (EvLabelsUpdate kind ns name newLabels) (λ h, w_object_update h kind ns name newLabels) in
          ret (match e with Some _ => ["failed to update " +:+ kind +:+ " labels"] | None => [] end)
        else ret [] in
      ret ([getRef dpl kind], issues)
  end.

Definition createSubObjects (dpl : CephDeployment) : IO (list ObjectReference * string) :=
  match GetObjectOwnerRef w_gvk_dpl (cdp_Name dpl) (cdp_UID dpl) with
  | (_, Some _) =>
      ret ([], "failed to prepare ownerRefs for CephDeployment " +:+ cdp_Namespace dpl +:+ "/" +:+ cdp_Name dpl
               +:+ " related child resources")
  | (_, None) =>
      let* r1 := ensure_child dpl "CephDeploymentHealth" in
      let* r2 := ensure_child dpl "CephDeploymentSecret" in
      let* r3 := ensure_child dpl "CephDeploymentMaintenance" in
      ret (r1.1 ++ r2.1 ++ r3.1, Join (r1.2 ++ r2.2 ++ r3.2) ", ")
  end.

(** ** Setup and other activities *)

(** Operations, announced. *)
Definition ensure (c : deployConfig) (what : string) : IO (option (bool * option err)) :=
  call (EvEnsure what) (λ _, tt) ;;; op_ensure rookNs params c what.
Definition ensure_cluster (c : deployConfig) : IO (option ((bool * option err) * option CephxConfig)) :=
  call (EvEnsure "cephcluster") (λ _, tt) ;;; op_cluster rookNs params c.
Definition ensure_daemonsets : IO (option unit) :=
  call (EvEnsure "daemonset labels") (λ _, tt) ;;; op_daemonsets rookNs params.
Definition remove (c : deployConfig) (what : string) : IO (bool * option err) :=
  call (EvRemove what) (λ _, tt) ;;; op_remove rookNs params c what.

(** The images of Rook and of the cluster; [None] is a panic. *)
Definition verify_images (c : deployConfig) : IO (option (option err)) :=
  match dc_currentCephVersion c with
  | None => ret (Some (Some (new_err "current Ceph version is not detected")))
  | Some _ =>
      let* r := ensureRookImage rookNs params in
      match r with
      | None => ret None
      | Some (Some e) => ret (Some (Some (wrap_err "failed to ensure consistent Rook image version" e)))
      | Some None =>
          let* e := ensureCephClusterVersion rookNs c in
          ret (Some (wrap_err "failed to ensure consistent Ceph cluster version" <$> e))
      end
  end.

Definition verifySetup (c : deployConfig) : IO (option (option err)) :=
  let* r := ensure_daemonsets in
  match r with
  | None => ret None
  | Some _ => verify_images c
  end.

(** Whether a failed task failed while its removal was being processed and nobody has
    marked it as resolved. *)
Definition failed_processing (task : CephOsdRemoveTask) (status : CephOsdRemoveTaskStatus) : bool :=
  match reverse (st_Conditions status) with
  | _ :: cond :: _ =>
      bool_decide (cond_Phase cond = TaskPhaseProcessing) &&
      negb (match task_Spec task with Some spec => ts_Resolved spec | None => false end)
  | _ => false
  end.

(** The loop of [checkLcmState] over the tasks: whether one of them holds the reconcile. *)
Fixpoint tasks_hold (c : deployConfig) (tasks : list CephOsdRemoveTask) : IO (bool + err) :=
  match tasks with
  | [] => ret (inl false)
  | task :: tasks' =>
      match task_Status task with
      | None => tasks_hold c tasks'
      | Some status =>
          match st_Phase status with
          | TaskPhaseValidating =>
              if decide (dst_Phase (cdp_Status (dc_cephDpl c)) = PhaseOnHold) then ret (inl true)
              else
                let* r := checkStorageSpecIsAligned c in
                match r with
                | (_, Some e) => ret (inr (wrap_err "failed to check Ceph cluster state" e))
                | (aligned, None) => ret (inl aligned)
                end
          | TaskPhaseWaitingOperator | TaskPhaseApproveWaiting | TaskPhaseProcessing => ret (inl true)
          | TaskPhaseFailed => if failed_processing task status then ret (inl true) else tasks_hold c tasks'
          | _ => tasks_hold c tasks'
          end
      end
  end.

(** [checkLcmState]: the phase to switch to while another activity goes on. *)
Definition checkLcmState (c : deployConfig) (external : bool) : IO (option CephDeploymentPhase + err) :=
  let ns := cdp_Namespace (dc_cephDpl c) in
  let* held :=
    if external then ret (inl false)
    else
      let* r := call (EvTaskList ns) (λ h, w_task_list h ns) in
      match r with
      | (_, Some e) => ret (inr (wrap_err ("failed to list CephOsdRemoveTasks in " +:+ ns +:+ " namespace") e))
      | (tasks, None) => tasks_hold c tasks
      end in
  match held with
  | inr e => ret (inr e)
  | inl true => ret (inl (Some PhaseOnHold))
  | inl false =>
      let* r := IsClusterMaintenanceActing ns (cdp_Name (dc_cephDpl c)) in
      match r with
      | (_, Some e) => ret (inr (wrap_err "failed to check CephDeploymentMaintenance state" e))
      | (true, None) => ret (inl (Some PhaseMaintenance))
      | (false, None) => ret (inl None)
      end
  end.

(** ** Applying the configuration *)

(** [handleEnsureResult] on the failed and the changed resources so far. *)
Definition handleEnsureResult (acc : list string * list string) (what : string) (r : bool * option err)
    : list string * list string :=
  match r with
  | (_, Some _) => (acc.1 ++ [what], acc.2)
  | (true, None) => (acc.1, acc.2 ++ [what])
  | (false, None) => acc
  end.

Definition ensure_step (what : string) (op : IO (bool * option err)) (acc : list string * list string)
    : IO (list string * list string) :=
  let* r := op in ret (handleEnsureResult acc what r).

(** [None] is a panic. *)
Definition ensure_all (c : deployConfig) (whats : list string) (acc : list string * list string) : IO (option (list string * list string)) :=
  foldMo (λ acc what, let* r := ensure c what in ret (handleEnsureResult acc what <$> r)) whats acc.

(** The messages of changes in progress and of failures. *)
Definition apply_result (acc : list string * list string) : string * string :=
  (match acc.2 with [] => EmptyString | changed => "configuration apply is in progress: " +:+ Join changed ", " end,
   match acc.1 with [] => EmptyString | errs => "configuration apply is failed: failed to ensure " +:+ Join errs ", " end).

(** The resources ensured after the cluster, in order. *)
Definition later_resources (external : bool) : list string :=
  (if external then [] else ["cephblockpools"; "shared filesystems"]) ++
  ["storageclasses"; "cephclients"; "ceph object storage"] ++
  (if external then [] else ["RBD Mirroring"; "Openstack secret"; "ingress proxy"; "cluster state"]).

(** The cluster and what comes after it. *)
Definition apply_cluster (c : deployConfig) (external : bool) (acc : list string * list string)
    : IO (option (string * string * option CephxConfig)) :=
  let* acc := ensure_all c ["cephcsi"; "volumesnapshotclass"] acc in
  match acc with
  | None => ret None
  | Some acc =>
      let* r := ensure_cluster c in
      match r with
      | None => ret None
      | Some (r, keys) =>
          let* acc := ensure_all c (later_resources external) (handleEnsureResult acc "cephcluster" r) in
          ret ((λ acc, (apply_result acc, keys)) <$> acc)
      end
  end.

(** [applyConfiguration]; also the keys [ensureCluster] has found rotated.  [None] is a panic. *)
Definition applyConfiguration (c : deployConfig) (external : bool) : IO (option (string * string * option CephxConfig)) :=
  let* r :=
    if external then ret (Some ([], [], false))
    else
      let* acc := ensure_step "label nodes" (ensureLabelNodes rookNs c) ([], []) in
      let* acc := ensure_step "annotate nodes" (ensureNodesAnnotation c) acc in
      let* r := ensure c "network policies" in
      ret ((λ r, (handleEnsureResult acc "network policies" r, r.1)) <$> r) in
  match r with
  | None => ret None
  | Some (acc, netPoolChanged) =>
      if bool_decide (acc.1 = []) && negb netPoolChanged then apply_cluster c external acc
      else ret (Some (apply_result acc, None))
  end.

(** ** Deletion *)

Definition deleteCluster (dpl : CephDeployment) : IO (bool * option err) :=
  let name := cdp_Name dpl in
  let* r := call (EvClusterGet rookNs name) (λ h, w_rookcluster_get h rookNs name) in
  match r with
  | (_, Some e) =>
      if is_not_found e then call (EvStamps zero_stamps) (λ _, (true, None))
      else ret (false, Some (wrap_err "failed to get ceph cluster" e))
  | (cluster, None) =>
      let new := set_rkc_AllowUninstallWithVolumes true (set_rkc_CleanupConfirmation "yes-really-destroy-data" cluster) in
      let* e := call (EvClusterUpdate new) (λ h, w_rookcluster_update h new) in
      match e with
      | Some e => ret (false, Some (wrap_err "failed to update ceph cluster with cleanupPolicy" e))
      | None =>
          let* e := call (EvDelete "CephCluster" rookNs (rkc_Name cluster))
                      (λ h, w_object_delete h "CephCluster" rookNs (rkc_Name cluster)) in
          ret (false, wrap_err "failed to delete ceph cluster" <$> e)
      end
  end.

(** Deleting a child object. *)
Definition delete_child (dpl : CephDeployment) (kind : string) : IO (bool * option err) :=
  let* e := call (EvDelete kind (cdp_Namespace dpl) (cdp_Name dpl))
              (λ h, w_object_delete h kind (cdp_Namespace dpl) (cdp_Name dpl)) in
  match e with
  | Some e => if is_not_found e then ret (true, None) else ret (false, Some e)
  | None => ret (false, None)
  end.

(** [runRemoveState] on what is finished so far and the errors. *)
Definition runRemoveState (step : string) (removeStep : IO (bool * option err)) (acc : bool * list string)
    : IO (bool * list string) :=
  let* r := removeStep in
  match r with
  | (_, Some _) => ret (false, acc.2 ++ ["failed to remove " +:+ step])
  | (removed, None) => ret (acc.1 && removed, acc.2)
  end.

Definition remove_all (steps : list (string * IO (bool * option err))) (acc : bool * list string) : IO (bool * list string) :=
  foldM (λ acc '(step, op), runRemoveState step op acc) steps acc.

(** The resources removed before the cluster, in order. *)
Definition extra_resources (external disableOsKeys : bool) : list string :=
  (if external || disableOsKeys then [] else ["openstack shared secret"]) ++
  ["object storage"] ++
  (if external then [] else ["ingress proxy"; "rbd mirror"]) ++
  ["ceph clients"] ++
  (if external then [] else ["ceph block pools"; "ceph shared filesystem"]) ++
  ["storage classes"] ++
  (if external then ["external resources"] else []).

Definition disableOsKeys (dpl : CephDeployment) : bool :=
  match dsp_ExtraOpts (cdp_Spec dpl) with Some opts => eo_DisableOsKeys opts | None => false end.

Definition cleanCephDeployment (c : deployConfig) (external : bool) : IO (bool * option err) :=
  let dpl := dc_cephDpl c in
  let child kind := (kind +:+ " '" +:+ cdp_Namespace dpl +:+ "/" +:+ cdp_Name dpl +:+ "'", delete_child dpl kind) in
  let step (what : string) := (what, remove c what) in
  let* acc := remove_all
    ([child "CephDeploymentSecret"; child "CephDeploymentMaintenance"] ++
     (step <$> extra_resources external (disableOsKeys dpl))) (true, []) in
  let* acc :=
    if acc.1 then
      remove_all
        ([child "CephDeploymentHealth"; ("ceph cluster", deleteCluster dpl);
          step "ceph csi operator resources"; step "volumesnapshotclasses resources"] ++
         (if external then []
          else [step "network policies"; ("node ceph labels", deleteLabelNodes); ("node ceph annotations", deleteNodesAnnotations)]) ++
         [("daemonset ceph labels", deleteDaemonSetLabels)]) acc
    else ret acc in
  match acc.2 with
  | [] => ret (acc.1, None)
  | errs => ret (false, Some (new_err ("deletion is not completed for CephDeployment: " +:+ Join errs ", ")))
  end.

(** [AddFinalizer] and [RemoveFinalizer] of controller-runtime. *)
Definition change_finalizers (add : bool) (finalizers : list string) : list string :=
  if add then (if Contains finalizers deploy_finalizer then finalizers else finalizers ++ [deploy_finalizer])
  else filter (λ f, f ≠ deploy_finalizer) finalizers.

(** [updateFinalizer] writes the object as the round has it in memory. *)
Definition updateFinalizer (c : deployConfig) (add : bool) : IO (option err) :=
  dpl_update (set_cdp_Finalizers (change_finalizers add (cdp_Finalizers (dc_cephDpl c))) (dc_cephDpl c)).

(** ** The reconcile loop

    A round ends with a result and the new value of [currentFailTry]. *)

Definition round : Type := reconcile_result * Z.

Definition failed_status (status : CephDeploymentStatus) (msg : string) : CephDeploymentStatus :=
  set_dst_Message msg (set_dst_Phase PhaseFailed status).

Definition fail_round (tries : Z) (dpl : CephDeployment) (msg : string) : IO round :=
  let* tries := setCephDeploymentPhaseFailed tries (cdp_Name dpl) (cdp_Namespace dpl) (failed_status (cdp_Status dpl) msg) in
  ret (requeue_later, tries).

(** Writing a status in the middle of a round: the result depends on the error. *)
Definition status_round (dpl : CephDeployment) (status : CephDeploymentStatus) (ok : reconcile_result) : IO round :=
  let* e := updateCephDeploymentStatus (cdp_Name dpl) (cdp_Namespace dpl) status in
  ret (match e with Some _ => requeue_later | None => ok end, 0).

(** A round for an object that is being deleted. *)
Definition reconcile_delete (tries : Z) (c : deployConfig) (external : bool) : IO round :=
  let dpl := dc_cephDpl c in
  let status := cdp_Status dpl in
  let delMsgOk := "Ceph cluster deletion is in progress" in
  let written msg := status_round dpl (set_dst_Message msg status) requeue_later in
  if negb (Contains (cdp_Finalizers dpl) deploy_finalizer) then ret (no_requeue, tries)
  else if negb (bool_decide (dst_Phase status = PhaseDeleting)) then
    status_round dpl (set_dst_Message delMsgOk (set_dst_Phase PhaseDeleting status)) requeue_soon
  else
    let* r := cleanCephDeployment c external in
    match r with
    | (_, Some _) => written "Ceph cluster is failing to remove"
    | (true, None) =>
        let* e := updateFinalizer c false in
        match e with
        | None => ret (no_requeue, tries)
        | Some _ => written "Ceph cluster is removed, failed to cleanup CephDeployment"
        end
    | (false, None) => written delMsgOk
    end.

(** The end of a round: applying the configuration. *)
Definition reconcile_apply (c : deployConfig) (external : bool) : IO (option round) :=
  let dpl := dc_cephDpl c in
  let write status := updateCephDeploymentStatus (cdp_Name dpl) (cdp_Namespace dpl) status in
  let status := cdp_Status dpl in
  let status :=
    match dst_Phase status with
    | PhaseReady => set_dst_Message "Ceph cluster configuration is verifying" (set_dst_Phase PhaseValidation status)
    | PhaseDeploying => status
    | _ => set_dst_Message "Ceph cluster is deploying" (set_dst_Phase PhaseDeploying status)
    end in
  write status ;;;
  let* r := applyConfiguration c external in
  match r with
  | None => ret None
  | Some (applyInProgress, applyFailed, keys) =>
      let* aes256kSpec := match keys with Some _ => ensure c "aes256k spec" | None => ret (Some (false, None)) end in
      match aes256kSpec with
      | None => ret None
      | Some (_, aes256kErr) =>
          let msgs := nonempty applyInProgress ++ nonempty applyFailed ++
            (if bool_decide (is_Some aes256kErr) then ["spec CephDeployment alignment for aes256k config failed"] else []) in
          let status :=
            match msgs with
            | [] => set_dst_Message "Ceph cluster configuration successfully applied" (set_dst_Phase PhaseReady status)
            | _ => set_dst_Message ("Ceph cluster " +:+ Join msgs "; ") (set_dst_Phase PhaseDeploying status)
            end in
          write status ;;; ret (Some (requeue_later, 0))
      end
  end.

(** A round that ends without a panic. *)
Definition some_round (m : IO round) : IO (option round) := let* x := m in ret (Some x).

(** From the versions on; [None] is a panic. *)
Definition reconcile_setup (tries : Z) (c : deployConfig) (external : bool) : IO (option round) :=
  let dpl := dc_cephDpl c in
  let status := cdp_Status dpl in
  let* r := verifyCephVersions rookNs params dpl in
  match r with
  | inr e => some_round (fail_round tries dpl (err_msg e))
  | inl vs =>
      if negb (bool_decide (dst_ClusterVersion status = vs_status vs)) then
        some_round (status_round dpl (set_dst_ClusterVersion (vs_status vs) status) requeue_soon)
      else
        let c := set_dc_aes256kUpgrade (vs_aes256k vs)
                   (set_dc_currentCephImage (vs_image vs) (set_dc_currentCephVersion (vs_version vs) c)) in
        let* r := createSubObjects dpl in
        let '(objRefs, objRefsErr) := r in
        if negb (bool_decide (objRefsErr = "")) then some_round (fail_round tries dpl ("Ceph cluster " +:+ objRefsErr))
        else
          let dpl := set_cdp_Status (set_dst_ObjectsRefs objRefs status) dpl in
          let c := set_dc_cephDpl dpl c in
          let* r := verifySetup c in
          match r with
          | None => ret None
          | Some (Some e) => some_round (fail_round tries dpl (err_msg e))
          | Some None =>
              let* r := checkLcmState c external in
              match r with
              | inr e => some_round (fail_round tries dpl (err_msg e))
              | inl (Some lcmPhase) =>
                  if decide (lcmPhase = dst_Phase (cdp_Status dpl)) then ret (Some (requeue_later, tries))
                  else
                    let msg := if decide (lcmPhase = PhaseOnHold) then "Ceph cluster is under request processing"
                               else "Cluster maintenance (upgrade) detected, reconcile is paused" in
                    some_round (status_round dpl (set_dst_Message msg (set_dst_Phase lcmPhase (cdp_Status dpl))) requeue_later)
              | inl None => reconcile_apply c external
              end
          end
  end.

(** From the validation on. *)
Definition reconcile_validate (tries : Z) (c : deployConfig) (clusterSpec : ClusterSpec) : IO (option round) :=
  let dpl := dc_cephDpl c in
  let status := cdp_Status dpl in
  let* validationResult := validateSpec c clusterSpec in
  if negb (bool_decide (dst_Validation status = validationResult)) then
    let status := set_dst_Validation validationResult status in
    let status :=
      match val_Result validationResult with
      | ValidationFailed => failed_status status "Validation of CephDeployment spec is failed"
      | _ => set_dst_Message "Validation of CephDeployment spec is ok" status
      end in
    some_round (status_round dpl status requeue_soon)
  else if decide (val_Result (dst_Validation status) = ValidationFailed) then ret (Some (requeue_later, tries))
  else if negb (Contains (cdp_Finalizers dpl) deploy_finalizer) then
    let* e := updateFinalizer c true in
    ret (Some (match e with Some _ => requeue_later | None => requeue_soon end, tries))
  else reconcile_setup tries c (csp_External clusterSpec).

(** A round for the only CephDeployment of the namespace; [None] is a panic. *)
Definition reconcile_deployment (common : CommonParams) (tries : Z) (dpl : CephDeployment) : IO (option round) :=
  let c := mkDeployConfig dpl None false [] [] None EmptyString false None common in
  let obj := "for CephDeployment " +:+ cdp_Namespace dpl +:+ "/" +:+ cdp_Name dpl in
  let* r := ensureDeprecatedFields c in
  match r with
  | (c, _, Some _) => some_round (fail_round tries (dc_cephDpl c) ("failed to ensure deprecated fields " +:+ obj))
  | (_, true, None) => ret (Some (no_requeue, tries))
  | (c, false, None) =>
      let* r := castExtensions c in
      match r with
      | (c, Some _) => some_round (fail_round tries (dc_cephDpl c) ("failed to verify provided data " +:+ obj))
      | (c, None) =>
          match dc_clusterSpec c with
          | None => ret None
          | Some clusterSpec =>
              let prevented := match dsp_ExtraOpts (cdp_Spec dpl) with Some opts => eo_PreventClusterDestroy opts | None => false end in
              if bool_decide (is_Some (cdp_DeletionTimestamp dpl)) && negb prevented
              then some_round (reconcile_delete tries c (csp_External clusterSpec))
              else reconcile_validate tries c clusterSpec
          end
      end
  end.
End controller.

(** [Reconcile] of the deployment controller; the parameters of the controller are missing
    only if another controller runs in the process. *)
Definition ReconcileCephDeployment `{World} `{HealthWorld} `{DeployWorld} `{ResourceOps} `{SpecDecoder} `{MapRange}
    (lcmConfigs : lcm_configs) (r : request) (tries : Z) : IO (option round) :=
  let lcmConfig := GetConfiguration (req_Namespace r) lcmConfigs in
  match lc_DeployParams lcmConfig with
  | None => ret None
  | Some params =>
      let ns := req_Namespace r in
      let* l := call (EvDplList ns) (λ h, w_dpl_list h ns) in
      match l with
      | (_, Some e) =>
          ret (Some (mkResult requeueAfterInterval (Some (wrap_err ("failed to list CephDeployments " +:+ ns +:+ " namespace") e)), tries))
      | ([], None) => ret (Some (no_requeue, tries))
      | ([dpl], None) =>
          if decide (cdp_Name dpl = req_Name r) then reconcile_deployment (lc_RookNamespace lcmConfig) params (lc_CommonParams lcmConfig) tries dpl
          else ret (Some (mkResult requeueAfterInterval (Some (new_err "incorrect CephDeployment object")), tries))
      | (_, None) =>
          let msg := "incorrect number of CephDeployments in " +:+ ns +:+ " namespace" in
          let zero := mkDplStatus PhaseFailed msg (mkValidation ValidationUnset 0 []) EmptyString EmptyString [] in
          let* tries := setCephDeploymentPhaseFailed tries (req_Name r) ns zero in
          ret (Some (requeue_later, tries))
      end
  end.
