(* ===== verification/DeployFacts.v ===== *)
(** * What a round of the deployment controller does

    [round_event] says of every interaction of a round what must have happened before it in
    the same round; [round_traced] proves it for the whole of [Reconcile].  The theorems at
    the end read it for the interactions that matter: applying the configuration
    ([deployment_holds]), destroying the cluster ([cluster_destroyed_last]) and the phases
    that are written ([phases_written]).  [round_result] says where a round may panic. *)

From S2P Require Import Prelude GoTime Types HealthTypes DeployTypes World HealthWorld TaskUtils Controller Config Extensions Validate ValidateFacts Trace DeployWorld CastSpec NodeLabels Versions DeployController.
Open Scope Z_scope.

(** ** Interactions that prepare a round *)

(** The child objects of a CephDeployment. *)
Definition child_kinds : list string := ["CephDeploymentHealth"; "CephDeploymentSecret"; "CephDeploymentMaintenance"].

(** Reads, child objects, the images of Rook and the deployment of the version check; nothing
    of the configuration. *)
Definition preparing (e : event) : Prop :=
  match e with
  | EvRead _ _ _ | EvClusterGet _ _ | EvClock | EvNodeList | EvTaskList _ => True
  | EvCeph _ cmd => cmd = "ceph versions --format json"
  | EvCreate kind _ name => kind ∈ child_kinds ∨ kind = "Deployment" ∧ name = pelagiaVersionCheckDpl
  | EvLabelsUpdate kind _ _ _ => kind ∈ child_kinds
  | EvImageUpdate _ _ name _ => name ∈ [pelagiaVersionCheckDpl; RookCephOperatorName; RookDiscoverName]
  | EvDelete kind _ name => kind = "Deployment" ∧ name = pelagiaVersionCheckDpl
  | _ => False
  end.

Create HintDb prep.

Section preparing.
Context `{World} `{HealthWorld} `{DeployWorld} `{ResourceOps} `{SpecDecoder} `{MapRange}.
Abbreviation prep m := (spec preparing m (λ _, True)).

Lemma call_prep {A} e (f : history → A) : preparing e → prep (call e f).
Proof. intros. by apply spec_call. Qed.
Ltac prep_event := apply call_prep; first [done|by right|left; mem|simpl; mem].
Hint Extern 1 (spec preparing (call _ _) _) => prep_event : prep.
Hint Extern 1 (spec preparing (read _ _ _ _) _) => prep_event : prep.

Ltac prep_step :=
  match goal with
  | |- spec _ (mret' _) _ => by apply spec_ret
  | |- spec _ (mbind' _ _) _ => apply spec_bind_any; [|intros ?]
  | |- spec _ (let '(_, _) := ?x in _) _ => destruct x
  | |- spec _ (match ?x with _ => _ end) _ => destruct x
  | |- spec _ _ _ => solve [eauto with prep]
  end.
Ltac prep := repeat prep_step.

Lemma exec_prep cmd node (m : IO (string * string * option err)) : prep m → prep (RunPodCmdAndCheckError cmd node m).
Proof. intros. unfold RunPodCmdAndCheckError. prep_step; [done|]. prep. Qed.

Lemma toolbox_prep {A} (zero : A) decode ns : prep (RunAndParseCephToolboxCLI zero decode ns "ceph versions --format json").
Proof.
  unfold RunAndParseCephToolboxCLI, RunCephToolboxCLI. prep_step; [|prep]. prep_step; [|prep]. apply exec_prep. prep.
Qed.

Lemma deployed_prep ns : prep (isCephDeployed ns).
Proof. unfold isCephDeployed. prep. Qed.
Lemma toolbox_available_prep ns : prep (IsCephToolboxCLIAvailable ns).
Proof. unfold IsCephToolboxCLIAvailable. prep. Qed.
Hint Resolve toolbox_prep deployed_prep toolbox_available_prep : prep.

Lemma expand_prep labels idx nodes : prep (expand_nodes labels idx nodes).
Proof.
  revert idx. induction nodes as [|n nodes IH]; intros idx; simpl; [by apply spec_ret|].
  prep_step; [unfold expand_node; prep|]. prep.
Qed.
Hint Resolve expand_prep : prep.

Lemma cast_prep c : prep (castExtensions c).
Proof. unfold castExtensions, GetExpandedCephDeploymentNodeList. prep. Qed.

Lemma validate_prep c cs : prep (validateSpec c cs).
Proof. unfold validateSpec, validateClusterNodes, GetNodeList. prep. Qed.

Lemma poll_prep n ns : prep (poll_ready n ns).
Proof. induction n as [|n IH]; simpl; prep. Qed.
Hint Resolve poll_prep : prep.

Lemma image_prep rookNs dpl image : prep (getCephVersionFromImage rookNs dpl image).
Proof.
  unfold getCephVersionFromImage, prepareVersionCheckDeployment, getCephVersion. prep_step; [prep|].
  prep_step; [prep|]. prep_step; [|prep]. prep_step; [|prep]. apply exec_prep. prep.
Qed.

Lemma versions_prep rookNs params dpl : prep (verifyCephVersions rookNs params dpl).
Proof.
  pose proof image_prep. unfold verifyCephVersions, current_versions, getClusterCephVersion, getCephVersions, change_image,
    cephUpgradeAllowed, getOpenstackDeploymentStatus, deleteVersionCheckDeployment. prep.
Qed.

Lemma child_prep dpl kind : kind ∈ child_kinds → prep (ensure_child dpl kind).
Proof.
  intros Hk. unfold ensure_child. prep_step; [prep|]. destruct a as [labels [e|]].
  - destruct (is_not_found e); [|prep]. prep_step; [|prep]. apply call_prep. by left.
  - destruct (AlignBaseLabels _ _) as [new [|]]; prep_step; [|prep|prep|prep]. prep_step; [|prep]. by apply call_prep.
Qed.

Lemma children_prep dpl : prep (createSubObjects dpl).
Proof. unfold createSubObjects. destruct (GetObjectOwnerRef _ _ _) as [refs [e|]]; [prep|]. repeat (prep_step; [apply child_prep; unfold child_kinds; mem|]). prep. Qed.
End preparing.

(** ** What must come before an interaction *)

Section round.
Context `{World} `{HealthWorld} `{DeployWorld} `{ResourceOps} `{SpecDecoder} `{MapRange}.
Variables (rookNs : string) (params : DeployParams) (dpl : CephDeployment) (h0 : history).
Let ns : string := cdp_Namespace dpl.
Let name : string := cdp_Name dpl.

(** The cluster is an external one. *)
Definition is_external : bool := csp_External (CephCluster_GetSpec (dsp_Cluster (cdp_Spec dpl))).1.

(** A task that stops the deployment from being changed. *)
Definition holding (task : CephOsdRemoveTask) : bool :=
  match task_Status task with
  | None => false
  | Some status =>
      match st_Phase status with
      | TaskPhaseWaitingOperator | TaskPhaseApproveWaiting | TaskPhaseProcessing => true
      | TaskPhaseFailed => failed_processing task status
      | _ => false
      end
  end.

Definition validating (task : CephOsdRemoveTask) : bool :=
  match task_Status task with Some status => bool_decide (st_Phase status = TaskPhaseValidating) | None => false end.

(** The tasks the check looks at: up to the first one that is being validated. *)
Fixpoint until_validating (tasks : list CephOsdRemoveTask) : list CephOsdRemoveTask :=
  match tasks with
  | [] => []
  | task :: tasks' => if validating task then [] else task :: until_validating tasks'
  end.

(** The nodes of the deployment, one by one, and the deployment with the devices of its nodes
    filled in: what the spec says, expanded at the beginning of the round. *)
Definition expanded : list CephDeploymentNode := (GetExpandedCephDeploymentNodeList (cdp_Spec dpl) h0).1.1.1.
Definition decoded : CephDeployment :=
  set_cdp_Spec (set_dsp_Nodes (GetExpandedCephDeploymentNodeList (cdp_Spec dpl) h0).1.2 (cdp_Spec dpl)) dpl.

(** The tasks were listed and leave the deployment alone: none of those looked at holds it, and a
    task that is being validated waits for nodes of the deployment that are not in the CephCluster
    yet. *)
Definition tasks_free (h : history) : Prop :=
  ∃ tasks, asked h0 (EvTaskList ns) (λ h, w_task_list h ns) (tasks, None) h ∧
    Forall (λ task, holding task = false) (until_validating tasks) ∧
    (until_validating tasks = tasks ∨
     ∃ cluster, asked h0 (EvClusterGet rookNs name) (λ h, w_rookcluster_get h rookNs name) (cluster, None) h ∧
       ¬ (rkc_StorageNodes cluster = buildStorageNodes expanded ∧ rkc_StorageNodes cluster ≠ [])).

(** No maintenance of the cluster goes on. *)
Definition no_maintenance (h : history) : Prop :=
  ∃ state, asked h0 (EvRead "CephDeploymentMaintenance" ns name) (λ h, w_maintenance_get h ns name) (state, None) h ∧
    state ≠ MaintenanceActing ∧ state ≠ MaintenanceFailing.

Definition may_apply (h : history) : Prop :=
  (is_external = true ∨ tasks_free h) ∧ no_maintenance h.

(** The user has asked for the removal of the deployment, and the controller has announced it. *)
Definition destroy_prevented : bool :=
  match dsp_ExtraOpts (cdp_Spec dpl) with Some opts => eo_PreventClusterDestroy opts | None => false end.
Definition deleting : Prop :=
  is_Some (cdp_DeletionTimestamp dpl) ∧ destroy_prevented = false ∧
  deploy_finalizer ∈ cdp_Finalizers dpl ∧ dst_Phase (cdp_Status dpl) = PhaseDeleting.

(** The state of the round is what the object [dpl] says: the object itself with the devices of
    its nodes filled in and, at most, another status of the same phase, the decoded spec of the
    cluster, the names of the pools, whether they are for OpenStack, and the expanded nodes. *)
Definition cluster_spec : ClusterSpec := (CephCluster_GetSpec (dsp_Cluster (cdp_Spec dpl))).1.
Definition about (c : deployConfig) : Prop :=
  (∃ status, dc_cephDpl c = set_cdp_Status status decoded ∧ dst_Phase status = dst_Phase (cdp_Status dpl)) ∧
  dc_clusterSpec c = Some cluster_spec ∧
  dc_pools c = buildPoolName <$> default [] (dsp_BlockStorage (cdp_Spec dpl)) ∧
  dc_openstackSetup c = from_option IsOpenStackPoolsPresent false (dsp_BlockStorage (cdp_Spec dpl)) ∧
  dc_nodesListExpanded c = expanded.

(** The version and the image of the round are those that were decided on in it. *)
Definition decided (c : deployConfig) (h : history) : Prop :=
  ∃ vs, passed h0 (verifyCephVersions rookNs params decoded) (inl vs) h ∧
    dc_currentCephVersion c = vs_version vs ∧ dc_currentCephImage c = vs_image vs ∧ dc_aes256kUpgrade c = vs_aes256k vs.

(** The CephCluster that was read, with another image: of its spec at most the network and the
    annotations change besides, and, when the new version brings the cipher aes256k, the keys. *)
Definition image_only (c : deployConfig) (old new : RookCluster) : Prop :=
  rkc_Image new = dc_currentCephImage c ∧ rkc_Name new = rkc_Name old ∧ rkc_Namespace new = rkc_Namespace old ∧
  (dc_aes256kUpgrade c = false → rkc_CephX new = rkc_CephX old ∧ rkc_Labels new = rkc_Labels old) ∧
  ∃ network keys annotations, rkc_Spec new =
    set_csp_Annotations annotations (set_csp_CephX keys (set_csp_Network network (set_csp_Image (rkc_Image new) (rkc_Spec old)))).
Definition image_change (new : RookCluster) (h : history) : Prop :=
  ∃ c old, about c ∧ decided c h ∧
    asked h0 (EvClusterGet rookNs name) (λ h, w_rookcluster_get h rookNs name) (old, None) h ∧
    rkc_Image old ≠ dc_currentCephImage c ∧ image_only c old new.

(** A child object, or a resource, was found to be gone. *)
Definition child_gone (kind : string) (h : history) : Prop :=
  ∃ e, is_not_found e = true ∧ asked h0 (EvDelete kind ns name) (λ h, w_object_delete h kind ns name) (Some e) h.
Definition resource_gone (what : string) (h : history) : Prop :=
  ∃ c, about c ∧ ran h0 (EvRemove what) (op_remove rookNs params c what) (true, None) h.

(** Everything that uses the cluster is gone. *)
Definition cluster_unused (h : history) : Prop :=
  deleting ∧ child_gone "CephDeploymentSecret" h ∧ child_gone "CephDeploymentMaintenance" h ∧
  ∀ what, what ∈ extra_resources is_external (disableOsKeys dpl) → resource_gone what h.

(** The cluster itself is gone as well. *)
Definition cluster_gone (h : history) : Prop :=
  cluster_unused h ∧
  ∃ cluster e, is_not_found e = true ∧
    asked h0 (EvClusterGet rookNs name) (λ h, w_rookcluster_get h rookNs name) (cluster, Some e) h.

(** A resource needed no change. *)
Definition resource_ok (what : string) (h : history) : Prop :=
  ∃ c, about c ∧ decided c h ∧ ran h0 (EvEnsure what) (op_ensure rookNs params c what) (Some (false, None)) h.
Definition cluster_ok (h : history) : Prop :=
  ∃ c keys, about c ∧ decided c h ∧ ran h0 (EvEnsure "cephcluster") (op_cluster rookNs params c) (Some ((false, None), keys)) h.
Definition all_applied (h : history) : Prop :=
  (is_external = true ∨ resource_ok "network policies" h) ∧
  (∀ what, what ∈ ["cephcsi"; "volumesnapshotclass"] ++ later_resources is_external → resource_ok what h) ∧
  cluster_ok h.

(** The labelling of nodes for the CSI driver is going on. *)
Definition in_daemonsets (h : history) : Prop :=
  ∃ h1 evs, h0 `prefix_of` h1 ∧ h = h1 ++ EvEnsure "daemonset labels" :: evs ∧ Forall daemonset_event evs.

(** The phase the API server has is not one other controllers rely on. *)
Definition phase_free (h : history) : Prop :=
  ∃ current, asked h0 (EvRead "CephDeployment" ns name) (λ h, w_dpl_cached h ns name) (current, None) h ∧
    dst_Phase (cdp_Status current) ≠ PhaseOnHold ∧ dst_Phase (cdp_Status current) ≠ PhaseMaintenance.

Definition round_event (h : history) (e : event) : Prop :=
  match e with
  | EvEnsure what => what = "daemonset labels" ∨ may_apply h
  | EvNodeUpdate _ => deleting ∨ may_apply h ∨ in_daemonsets h
  | EvPodExec _ _ _ => in_daemonsets h
  | EvApply _ _ => deleting ∨ may_apply h
  | EvCeph _ _ | EvCreate _ _ _ | EvLabelsUpdate _ _ _ _ | EvImageUpdate _ _ _ _ => preparing e ∨ deleting ∨ may_apply h
  | EvClusterUpdate new => image_change new h ∨ deleting ∨ may_apply h
  | EvRemove _ => deleting
  | EvDelete kind _ _ =>
      (kind = "CephCluster" → cluster_unused h) ∧ (preparing e ∨ deleting ∨ may_apply h ∨ in_daemonsets h)
  | EvDplUpdate dpl' =>
      cdp_Name dpl' = name ∧ cdp_Namespace dpl' = ns ∧
      (deploy_finalizer ∈ cdp_Finalizers dpl → deploy_finalizer ∉ cdp_Finalizers dpl' → cluster_gone h)
  | EvDplStatusUpdate _ _ status =>
      (dst_Phase status = PhaseFailed → phase_free h) ∧
      (dst_Phase status = PhaseReady → dst_Phase (cdp_Status dpl) = PhaseReady ∨ all_applied h)
  | EvTaskStatusUpdate _ _ _ | EvTaskUpdate _ | EvTaskDelete _ _ | EvDeployScale _ _ _ | EvDeployDelete _ _ | EvJobCreate _ => False
  | _ => True
  end.

Lemma preparing_event h e : preparing e → round_event h e.
Proof. destruct e; simpl; try done; try (by left). intros [-> ->]. split; [done|by left]. Qed.

Lemma phase_free_lasting : lasting phase_free.
Proof. apply exists_lasting. intros current. auto with lasting. Qed.
Lemma tasks_free_lasting : lasting tasks_free.
Proof.
  apply exists_lasting. intros tasks. apply and_lasting; [auto with lasting|]. apply and_lasting; [auto with lasting|].
  apply or_lasting; [auto with lasting|]. apply exists_lasting. auto with lasting.
Qed.
Lemma no_maintenance_lasting : lasting no_maintenance.
Proof. apply exists_lasting. auto with lasting. Qed.
Lemma may_apply_lasting : lasting may_apply.
Proof.
  apply and_lasting; [|apply no_maintenance_lasting]. apply or_lasting; [auto with lasting|apply tasks_free_lasting].
Qed.
Lemma decided_lasting c : lasting (decided c).
Proof. apply exists_lasting. auto with lasting. Qed.
Lemma child_gone_lasting kind : lasting (child_gone kind).
Proof. apply exists_lasting. auto with lasting. Qed.
Lemma resource_gone_lasting what : lasting (resource_gone what).
Proof. apply exists_lasting. auto with lasting. Qed.
Lemma resource_ok_lasting what : lasting (resource_ok what).
Proof. apply exists_lasting. auto using decided_lasting with lasting. Qed.
Lemma cluster_ok_lasting : lasting cluster_ok.
Proof. do 2 (apply exists_lasting; intros ?). auto using decided_lasting with lasting. Qed.
Lemma cluster_unused_lasting : lasting cluster_unused.
Proof.
  intros h evs (Hd & Hs & Hm & Hr). split_and!; [done|by apply child_gone_lasting|by apply child_gone_lasting|].
  intros what Hwhat. by apply resource_gone_lasting, Hr.
Qed.
Lemma all_applied_lasting : lasting all_applied.
Proof.
  intros h evs (Hn & Hr & Hk). split_and!.
  - destruct Hn as [|Hn]; [by left|right]. by apply resource_ok_lasting.
  - intros what Hwhat. by apply resource_ok_lasting, Hr.
  - by apply cluster_ok_lasting.
Qed.

Hint Resolve phase_free_lasting tasks_free_lasting no_maintenance_lasting may_apply_lasting decided_lasting child_gone_lasting
  resource_gone_lasting resource_ok_lasting cluster_ok_lasting cluster_unused_lasting all_applied_lasting : lasting.

(** What is known throughout: the round began at [h0]. *)
Abbreviation begun := (λ h : history, h0 `prefix_of` h).

Lemma prep_traced {A} (Pre : history → Prop) (m : IO A) :
  lasting Pre → spec preparing m (λ _, True) → traced round_event Pre m (λ _ h, Pre h).
Proof.
  intros Hl Hm. eapply traced_weaken; [eapply traced_spec; [done|exact Hm|]|done|by intros a h [_ Hh]].
  intros h e _. apply preparing_event.
Qed.

(** Asking something harmless. *)
Lemma ask_traced {A} (Pre : history → Prop) e (f : history → A) :
  lasting Pre → (∀ h, Pre h → h0 `prefix_of` h) → preparing e →
  traced round_event Pre (call e f) (λ a h, asked h0 e f a h ∧ Pre h).
Proof. intros Hl Hpre He. apply traced_ask; [done|done|]. intros h _. by apply preparing_event. Qed.

Lemma update_traced (Pre : history → Prop) status :
  lasting Pre → (∀ h, Pre h → h0 `prefix_of` h) →
  (∀ h, dst_Phase status = PhaseReady → Pre h → dst_Phase (cdp_Status dpl) = PhaseReady ∨ all_applied h) →
  traced round_event Pre (updateCephDeploymentStatus name ns status) (λ _ h, Pre h).
Proof.
  intros Hl Hpre Hready. unfold updateCephDeploymentStatus. eapply traced_bind; [by apply (traced_ask _ _ h0)|].
  intros [current [e|]]; [apply traced_ret; by intros h [_ Hh]|].
  set (Pre' := λ h, asked h0 (EvRead "CephDeployment" ns name) (λ h, w_dpl_cached h ns name) (current, None) h ∧ Pre h).
  assert (Hl' : lasting Pre') by (apply and_lasting; auto with lasting).
  eapply traced_bind; [apply (prep_traced Pre'); [done|by apply spec_call]|]. intros now.
  apply (traced_bind _ _ _ _ (λ _ h, Pre' h)); [|intros e; apply traced_ret; by intros h [_ Hh]].
  unfold UpdateCephDeploymentStatus. apply (traced_bind _ _ _ _ (λ _ h, Pre' h)); [|by intros e; apply traced_ret].
  apply traced_call. intros h [Hask Hh]. split; [|by apply Hl'].
  simpl. unfold guarded_status. split.
  - intros Hf. exists current. split; [done|].
    destruct (dst_Phase status) eqn:Hs, (dst_Phase (cdp_Status current)) eqn:Hc; simpl in Hf; by try congruence.
  - destruct (dst_Phase status) eqn:Hs, (dst_Phase (cdp_Status current)) eqn:Hc; simpl; try congruence; intros _; by apply (Hready h).
Qed.

(** ** Other activities *)

Lemma about_fields c :
  about c →
  cdp_Name (dc_cephDpl c) = name ∧ cdp_Namespace (dc_cephDpl c) = ns ∧ cdp_Finalizers (dc_cephDpl c) = cdp_Finalizers dpl ∧
  dst_Phase (cdp_Status (dc_cephDpl c)) = dst_Phase (cdp_Status dpl) ∧ cdp_Spec (dc_cephDpl c) = cdp_Spec decoded.
Proof. by intros ((status & -> & Hp) & _). Qed.

Lemma about_keys c : about c → disableOsKeys (dc_cephDpl c) = disableOsKeys dpl.
Proof. intros (_ & _ & _ & _ & Hs)%about_fields. unfold disableOsKeys. by rewrite Hs. Qed.

Definition not_aligned (c : deployConfig) (h : history) : Prop :=
  ∃ cluster, asked h0 (EvClusterGet rookNs name) (λ h, w_rookcluster_get h rookNs name) (cluster, None) h ∧
    ¬ (rkc_StorageNodes cluster = buildStorageNodes (dc_nodesListExpanded c) ∧ rkc_StorageNodes cluster ≠ []).

Lemma hold_traced c tasks Pre :
  about c → lasting Pre → (∀ h, Pre h → h0 `prefix_of` h) →
  traced round_event Pre (tasks_hold rookNs c tasks) (λ r h,
    (r = inl false → Forall (λ task, holding task = false) (until_validating tasks) ∧
       (until_validating tasks = tasks ∨ not_aligned c h)) ∧ Pre h).
Proof.
  intros (Hname & _)%about_fields Hl Hpre. induction tasks as [|task tasks IH]; simpl.
  { apply traced_ret. intros h Hh. split; [|done]. intros _. split; [constructor|by left]. }
  assert (Hskip : validating task = false → holding task = false →
    traced round_event Pre (tasks_hold rookNs c tasks) (λ r h,
    (r = inl false → Forall (λ task, holding task = false) (if validating task then [] else task :: until_validating tasks) ∧
       ((if validating task then [] else task :: until_validating tasks) = task :: tasks ∨ not_aligned c h)) ∧ Pre h)).
  { intros -> Hh. eapply traced_weaken; [apply IH|done|]. intros r h [Hr Hh']. split; [|done].
    intros Hf. destruct (Hr Hf) as [Hall Hcase]. split; [by constructor|]. destruct Hcase as [->|]; [by left|by right]. }
  unfold validating, holding in Hskip |- *. destruct (task_Status task) as [status|]; [|by apply Hskip].
  destruct (st_Phase status) eqn:Hphase; rewrite ?Hphase in Hskip |- *; try (by apply Hskip); try (by apply traced_ret).
  - destruct (failed_processing task status); [by apply traced_ret|by apply Hskip].
  - destruct (decide _); [by apply traced_ret|]. unfold checkStorageSpecIsAligned. rewrite Hname.
    eapply traced_bind; [eapply traced_bind; [by apply (traced_ask _ _ h0)|]|].
    + intros [cluster [e|]]; apply (traced_ret _ _ _ (λ r h, (r = (false, None) → not_aligned c h) ∧ Pre h));
        intros h [Hask Hh]; (split; [|done]); [done|].
      intros [= Hf]. exists cluster. split; [done|]. intros [Heq Hne]. rewrite <-Heq in Hf.
      by rewrite !bool_decide_eq_true_2 in Hf.
    + intros [aligned [e|]]; apply traced_ret; intros h [Hal Hh]; (split; [|done]); [done|].
      intros [= ->]. rewrite bool_decide_eq_true_2 by done. split; [constructor|]. right. by apply Hal.
Qed.

Lemma maintenance_traced (Pre : history → Prop) :
  lasting Pre → (∀ h, Pre h → h0 `prefix_of` h) →
  traced round_event Pre (IsClusterMaintenanceActing ns name) (λ r h, (r = (false, None) → no_maintenance h) ∧ Pre h).
Proof.
  intros Hl Hpre. unfold IsClusterMaintenanceActing. eapply traced_bind; [by apply ask_traced|].
  intros [[] [e|]]; apply traced_ret; intros h [Hask Hh]; (split; [|done]); try done; intros _; by eexists.
Qed.

Lemma lcm_traced c external :
  about c →
  traced round_event begun (checkLcmState rookNs c external) (λ r h,
    (r = inl None → (external = true ∨ tasks_free h) ∧ no_maintenance h) ∧ begun h).
Proof.
  intros Hc. destruct (about_fields c Hc) as (Hname & Hns & _). pose proof Hc as (_ & _ & _ & _ & Hexp).
  unfold checkLcmState. rewrite Hns, Hname.
  apply (traced_bind _ _ _ _ (λ r h, (r = inl false → external = true ∨ tasks_free h) ∧ begun h)).
  - destruct external; [apply traced_ret; intros h Hh; auto|].
    eapply traced_bind; [apply ask_traced; [auto with lasting|done|done]|].
    intros [tasks [e|]]; [apply traced_ret; by intros h [_ Hh]|].
    set (Pre := λ h, asked h0 (EvTaskList ns) (λ h, w_task_list h ns) (tasks, None) h ∧ begun h).
    eapply traced_weaken; [apply (hold_traced c tasks Pre Hc)|done|].
    + apply and_lasting; auto with lasting.
    + by intros h [_ Hh].
    + intros r h (Hr & Hask & Hh). split; [|done]. intros Hf. right. destruct (Hr Hf) as [Hall Hcase]. unfold not_aligned in Hcase.
      rewrite Hexp in Hcase. exists tasks. auto.
  - intros [[|]|e]; [apply traced_ret; by intros h [_ Hh]| |apply traced_ret; by intros h [_ Hh]].
    set (Pre := λ h, (inl false = inl false (B := err) → external = true ∨ tasks_free h) ∧ begun h).
    assert (Hl : lasting Pre).
    { intros h evs [Hf Hh]. split; [intros Heq; destruct (Hf Heq); [by left|right; by apply tasks_free_lasting]|by apply prefix_app_r]. }
    eapply traced_bind; [apply (maintenance_traced Pre); [done|by intros h [_ Hh]]|].
    intros [[|] [e|]]; apply traced_ret; intros h (Hm & Hf & Hh); (split; [|done]); try done.
    intros _. split; [by apply Hf|by apply Hm].
Qed.

(** ** Applying *)

Definition applying (c : deployConfig) (h : history) : Prop := may_apply h ∧ decided c h ∧ begun h.
Lemma applying_lasting c : lasting (applying c).
Proof. apply and_lasting; [auto with lasting|]. apply and_lasting; auto with lasting. Qed.

Lemma applying_op c h : applying c h → h0 `prefix_of` h ∧ (deleting ∨ may_apply h).
Proof. intros (Hm & _ & Hh). auto. Qed.

(** Where a round may panic: in an operation on a resource or on the CephCluster, in the labelling
    of nodes for the CSI driver, and at the deployment of the operator of Rook or at the daemonset
    that discovers devices, when it has no container, or the deployment no number of replicas. *)
Definition may_panic : list string :=
  ["network policies"; "cephcsi"; "volumesnapshotclass"] ++ later_resources false ++ ["aes256k spec"].

Definition rook_unset (h : history) : Prop :=
  (∃ operator container,
     asked h0 (EvRead "Deployment" rookNs RookCephOperatorName) (λ h, w_deployment_image h rookNs RookCephOperatorName)
       ((operator, container), None) h ∧ (dpl_SpecReplicas operator = None ∨ container = None)) ∨
  ∃ discover,
    asked h0 (EvRead "DaemonSet" rookNs RookDiscoverName) (λ h, w_daemonset_image h rookNs RookDiscoverName) ((discover, None), None) h.

Definition panicked (h : history) : Prop :=
  (∃ c what, about c ∧ decided c h ∧ what ∈ may_panic ∧ ran h0 (EvEnsure what) (op_ensure rookNs params c what) None h) ∨
  (∃ c, about c ∧ decided c h ∧ ran h0 (EvEnsure "cephcluster") (op_cluster rookNs params c) None h) ∨
  ran h0 (EvEnsure "daemonset labels") (op_daemonsets rookNs params) None h ∨
  rook_unset h.

Lemma later_may_panic external what : what ∈ later_resources external → what ∈ may_panic.
Proof. intros Hw. unfold may_panic. do 3 right. apply elem_of_app. left. destruct external; [|done]. unfold later_resources in *. set_solver. Qed.

Definition node_event (e : event) : Prop :=
  match e with EvNodeList | EvRead _ _ _ | EvNodeUpdate _ => True | _ => False end.

Lemma for_nodes_events step nodes :
  (∀ node, spec node_event (step node) (λ _, True)) → spec node_event (for_nodes step nodes) (λ _, True).
Proof.
  intros Hs. apply (spec_foldM_inv _ _ (λ _, True)); [done|]. intros node acc _ _.
  apply spec_bind_any; [done|]. intros r. by apply spec_ret.
Qed.

Lemma update_labels_events node new : spec node_event (update_labels node new) (λ _, True).
Proof.
  unfold update_labels. destruct new as [labels [|]]; [|by apply spec_ret].
  apply spec_bind_any; [by apply spec_call|]. intros e. by apply spec_ret.
Qed.

Lemma annotate_events ips node : spec node_event (annotate_step ips node) (λ _, True).
Proof.
  unfold annotate_step, annotateNode. apply spec_bind_any; [|intros r; by apply spec_ret].
  destruct (buildCephNodeAnnotations _ _) as [new [|]]; [|by apply spec_ret].
  apply spec_bind_any; [by apply spec_call|]. intros [e|]; by apply spec_ret.
Qed.

Lemma labels_events c : spec node_event (ensureLabelNodes rookNs c) (λ _, True).
Proof.
  unfold ensureLabelNodes. apply spec_bind_any; [by apply spec_call|]. intros [nodes [e|]]; [by apply spec_ret|].
  apply spec_bind_any; [|intros [u [|]]; by apply spec_ret]. apply for_nodes_events. intros node.
  unfold label_step. apply spec_bind_any.
  - unfold node_roles. destruct (kn_Labels node !! _); [|by apply spec_ret].
    destruct (nodesCrushTopology _ !! _); [by apply spec_ret|]. apply spec_bind_any; [by apply spec_call|].
    intros [[|n] [e|]]; by apply spec_ret.
  - intros [roles|]; [apply update_labels_events|by apply spec_ret].
Qed.

Lemma annotations_events c : spec node_event (ensureNodesAnnotation c) (λ _, True).
Proof.
  unfold ensureNodesAnnotation. apply spec_bind_any; [by apply spec_call|]. intros [nodes [e|]]; [by apply spec_ret|].
  apply spec_bind_any; [|intros [u [|]]; by apply spec_ret]. apply for_nodes_events, annotate_events.
Qed.

Lemma node_traced {A} c (m : IO A) : spec node_event m (λ _, True) → traced round_event (applying c) m (λ _ h, applying c h).
Proof.
  intros Hm. eapply traced_weaken; [eapply (traced_spec _ (applying c)); [apply applying_lasting|exact Hm|]|done|by intros a h [_ Hh]].
  intros h e [Hm' _] He. destruct e; try done. right. by left.
Qed.

Lemma handle_nil acc what r : handleEnsureResult acc what r = ([], []) → acc = ([], []) ∧ r = (false, None).
Proof.
  destruct acc as [errs changed], r as [[|] [e|]]; simpl; intros [= He Hc]; simpl in *; try (by apply app_nil in He as [_ ?]);
    try (by apply app_nil in Hc as [_ ?]). by subst.
Qed.

(** What an operation does while the configuration is applied or removed. *)
Lemma operation_event h e : resource_event e → deleting ∨ may_apply h → round_event h e.
Proof. intros He Hh. destruct e; simpl in *; try done; try (by right). split; [done|right; tauto]. Qed.

Lemma operation_traced {A} (Pre : history → Prop) e (m : IO A) :
  lasting Pre → (∀ h, Pre h → h0 `prefix_of` h ∧ (deleting ∨ may_apply h)) → spec resource_event m (λ _, True) →
  (∀ h, Pre h → round_event h e) →
  traced round_event Pre (call e (λ _, tt) ;;; m) (λ a h, ran h0 e m a h ∧ Pre h).
Proof.
  intros Hl Hpre Hm He. apply (traced_run _ _ resource_event); [done|by intros h Hh; apply Hpre|done|done|].
  intros h evs e' Hh _ He'. apply operation_event; [done|]. destruct (Hpre h Hh) as [_ [Hd|Ha]]; [by left|right].
  by apply may_apply_lasting.
Qed.

Lemma ensure_traced c what :
  about c → traced round_event (applying c) (ensure rookNs params c what) (λ r h,
    (r = Some (false, None) → resource_ok what h) ∧ (r = None → what ∈ may_panic → panicked h) ∧ applying c h).
Proof.
  intros Hc. eapply traced_weaken;
    [apply (operation_traced (applying c)); [apply applying_lasting|apply applying_op|apply op_ensure_events|]|done|].
  - intros h [Hm _]. by right.
  - intros r h [Hran Hh]. pose proof Hh as (_ & Hdec & _). split_and!; [intros ->; by exists c| |done].
    intros -> Hw. left. by exists c, what.
Qed.

Lemma ensure_all_traced c whats acc :
  about c → (∀ what, what ∈ whats → what ∈ may_panic) →
  traced round_event (applying c) (ensure_all rookNs params c whats acc) (λ acc' h,
    (acc' = Some ([], []) → acc = ([], []) ∧ ∀ what, what ∈ whats → resource_ok what h) ∧ (acc' = None → panicked h) ∧ applying c h).
Proof.
  intros Hc. revert acc. induction whats as [|what whats IH]; intros acc Hin; simpl.
  { apply traced_ret. intros h Hh. split_and!; [intros [= ->]|done|done]. split; [done|]. by intros what ?%elem_of_nil. }
  set (Pre := λ (acc' : option (list string * list string)) h, (acc' = Some ([], []) → acc = ([], []) ∧ resource_ok what h) ∧
    (acc' = None → panicked h) ∧ applying c h).
  apply (traced_bind _ _ _ _ Pre).
  - eapply traced_bind; [by apply ensure_traced|]. intros r. apply traced_ret.
    intros h (Hr & Hp & Hh). split_and!; [|intros Hn; apply Hp; [by destruct r|apply Hin; left]|done].
    destruct r as [r|]; [|done]. intros [= Hn]. apply handle_nil in Hn as [-> ->]. auto.
  - intros [acc'|]; [|apply traced_ret; intros h (_ & Hp & Hh); split_and!; [done|by intros _; apply Hp|done]].
    intros h (Hacc & _ & Hh). destruct (IH acc' (λ w Hw, Hin w (list_elem_of_further _ _ _ Hw)) h Hh) as [(Hall & Hend) Hev].
    split; [|done]. split; [|done].
    intros Hn. destruct (Hall Hn) as [Hacc' Hwhats]. rewrite Hacc' in Hacc. destruct (Hacc eq_refl) as [Hacc0 Hwhat]. split; [done|].
    intros what' [->|Hin']%elem_of_cons; [by apply resource_ok_lasting|by apply Hwhats].
Qed.

Lemma apply_result_nil acc : apply_result acc = (EmptyString, EmptyString) → acc = ([], []).
Proof. by destruct acc as [[|] [|]]. Qed.

Lemma ensure_step_traced c what op acc :
  spec node_event op (λ _, True) →
  traced round_event (applying c) (ensure_step what op acc) (λ acc' h, (acc' = ([], []) → acc = ([], [])) ∧ applying c h).
Proof.
  intros Hop. unfold ensure_step. eapply traced_bind; [by apply node_traced|]. intros r. apply traced_ret.
  intros h Hh. split; [|done]. by intros [? _]%handle_nil.
Qed.

(** The first part of [applyConfiguration]: nodes and network policies. *)
Lemma apply_nodes_traced c external :
  about c → traced round_event (applying c)
    (if (external : bool) then ret (Some ([], [], false))
     else
       let* acc := ensure_step "label nodes" (ensureLabelNodes rookNs c) ([], []) in
       let* acc := ensure_step "annotate nodes" (ensureNodesAnnotation c) acc in
       let* r := ensure rookNs params c "network policies" in
       ret ((λ r, (handleEnsureResult acc "network policies" r, r.1)) <$> r))
    (λ r h, (∀ acc net, r = Some (acc, net) → (acc = ([], []) → external = true ∨ resource_ok "network policies" h) ∧
       (net = true → acc ≠ ([], []))) ∧ (r = None → panicked h) ∧ applying c h).
Proof.
  intros Hc. destruct external; [apply traced_ret; intros h Hh; split_and!; [by intros acc net [= <- <-]; auto|done|done]|].
  eapply traced_bind; [apply ensure_step_traced, labels_events|]. intros acc1.
  eapply traced_bind; [eapply traced_weaken; [apply ensure_step_traced, annotations_events|by intros h [_ Hh]|done]|]. intros acc2.
  eapply traced_bind; [eapply traced_weaken; [by apply ensure_traced|by intros h [_ Hh]|done]|]. intros r.
  apply traced_ret. intros h (Hr & Hp & Hh). split_and!; [|intros Hn; apply Hp; [by destruct r|unfold may_panic; mem]|done].
  destruct r as [r|]; [|done]. intros acc net [= <- <-]. split.
  - intros [_ ->]%handle_nil. right. by apply Hr.
  - intros Ht [_ Heq]%handle_nil. by subst r.
Qed.

Lemma cluster_ensured c :
  about c → traced round_event (applying c) (ensure_cluster rookNs params c) (λ r h,
    (∀ keys, r = Some ((false, None), keys) → cluster_ok h) ∧ (r = None → panicked h) ∧ applying c h).
Proof.
  intros Hc. eapply traced_weaken;
    [apply (operation_traced (applying c)); [apply applying_lasting|apply applying_op|apply op_cluster_events|]|done|].
  - intros h [Hm _]. by right.
  - intros r h [Hran Hh]. pose proof Hh as (_ & Hdec & _). split_and!; [intros keys ->; by exists c, keys| |done].
    intros ->. right; left. by exists c.
Qed.

(** The second part: the cluster between the other resources. *)
Lemma apply_resources_traced c acc external :
  about c →
  traced round_event (applying c)
    (apply_cluster rookNs params c external acc) (λ r h, (∀ keys, r = Some ((EmptyString, EmptyString), keys) → acc = ([], []) ∧
       (∀ what, what ∈ ["cephcsi"; "volumesnapshotclass"] ++ later_resources external → resource_ok what h) ∧ cluster_ok h) ∧
       (r = None → panicked h) ∧ applying c h).
Proof.
  intros Hc. unfold apply_cluster. eapply traced_bind; [apply ensure_all_traced; [done|]|].
  { intros what Hw. unfold may_panic. mem_inv Hw; subst what; mem. }
  intros [acc1|]; [|apply traced_ret; intros h (_ & Hp & Hh); split_and!; [done|by intros _; apply Hp|done]].
  set (F := λ h, acc1 = ([], []) → acc = ([], []) ∧ ∀ what, what ∈ ["cephcsi"; "volumesnapshotclass"] → resource_ok what h).
  assert (HF : lasting F).
  { apply impl_lasting, and_lasting; [auto with lasting|]. apply forall_lasting. intros what. apply impl_lasting, resource_ok_lasting. }
  eapply traced_bind; [eapply traced_weaken; [apply (traced_frame _ F); [exact HF|by apply cluster_ensured]| |done]|].
  { intros h (Hf & _ & Hh). split; [|done]. intros ->. by apply Hf. }
  intros [[r keys]|]; [|apply traced_ret; intros h (_ & _ & Hp & Hh); split_and!; [done|by intros _; apply Hp|done]].
  set (G := λ h, F h ∧ (r = (false, None) → cluster_ok h)).
  assert (HG : lasting G) by (apply and_lasting; [done|apply impl_lasting, cluster_ok_lasting]).
  eapply traced_bind; [eapply traced_weaken; [apply (traced_frame _ G); [exact HG|apply ensure_all_traced; [done|apply later_may_panic]]| |done]|].
  { intros h (HFh & Hcl & _ & Hh). split; [split; [done|]|done]. intros ->. by apply (Hcl keys). }
  intros acc2. apply traced_ret. intros h ([Hfirst Hcl] & Hlater & Hp & Hh). split_and!; [|by destruct acc2; [|intros _; apply Hp]|done].
  destruct acc2 as [acc2|]; [|done].
  intros keys' Hn. change (Some (apply_result acc2, keys) = Some ((EmptyString, EmptyString), keys')) in Hn.
  apply (f_equal (fmap fst)), (inj Some), apply_result_nil in Hn.
  destruct (Hlater (f_equal Some Hn)) as [Hhandle Hres]. apply handle_nil in Hhandle as [Hacc1 Hr]. cbn [fst] in Hr.
  destruct (Hfirst Hacc1) as [Hacc Hres1]. split_and!; [done| |by apply Hcl].
  intros what [Hin|Hin]%elem_of_app; [by apply Hres1|by apply Hres].
Qed.

Lemma apply_traced c external :
  about c → external = is_external →
  traced round_event (applying c) (applyConfiguration rookNs params c external) (λ r h,
    (∀ keys, r = Some ((EmptyString, EmptyString), keys) → all_applied h) ∧ (r = None → panicked h) ∧ applying c h).
Proof.
  intros Hc Hext. unfold applyConfiguration. eapply traced_bind; [by apply apply_nodes_traced|].
  intros [[acc net]|]; [|apply traced_ret; intros h (_ & Hp & Hh); split_and!; [done|by intros _; apply Hp|done]].
  destruct (_ && _) eqn:Hgo.
  2: { apply traced_ret. intros h (Hn0 & _ & Hh). destruct (Hn0 _ _ eq_refl) as [_ Hnet]. split_and!; [|done|done].
       intros keys Hn%(f_equal (fmap fst)). apply (inj Some), apply_result_nil in Hn. subst acc.
       destruct net; [by destruct (Hnet eq_refl)|]. by rewrite bool_decide_eq_true_2 in Hgo. }
  intros h (Hn0 & _ & Hh). destruct (Hn0 _ _ eq_refl) as [Hnp _]. destruct (apply_resources_traced c acc external Hc h Hh) as [(Hall & Hend) Hev].
  split; [|done]. split; [|done]. intros keys Hn.
  destruct (Hall keys Hn) as (Hacc & Hres & Hk). split_and!; [|by rewrite <-Hext|done].
  rewrite <-Hext. destruct (Hnp Hacc) as [|Hnet]; [by left|right]. by apply resource_ok_lasting.
Qed.

Lemma reconcile_apply_traced c external :
  about c → external = is_external →
  traced round_event (applying c) (reconcile_apply rookNs params c external) (λ r h, r = None → panicked h).
Proof.
  intros Hc Hext. destruct (about_fields c Hc) as (Hname & Hns & _ & Hphase & _). unfold reconcile_apply. rewrite Hname, Hns.
  set (status := match dst_Phase _ with PhaseReady => _ | PhaseDeploying => _ | _ => _ end).
  assert (Hst : dst_Phase status ≠ PhaseReady).
  { unfold status. destruct (dst_Phase (cdp_Status (dc_cephDpl c))) eqn:Hp; simpl; congruence. }
  eapply traced_bind; [apply (update_traced (applying c)); [apply applying_lasting|apply applying_op|done]|]. intros _e.
  eapply traced_bind; [by apply apply_traced|].
  intros [[[inProgress failed] keys]|]; [|apply traced_ret; intros h (_ & Hp & _) _; by apply Hp].
  set (Pre := λ h, ((inProgress, failed) = (EmptyString, EmptyString) → all_applied h) ∧ applying c h).
  assert (Hl : lasting Pre) by (apply and_lasting; [apply impl_lasting, all_applied_lasting|apply applying_lasting]).
  assert (Hpre : ∀ h, Pre h → h0 `prefix_of` h) by (intros h [_ Hh]; by apply (applying_op c)).
  eapply (traced_weaken _ Pre _ _ (λ r h, r = None → panicked h));
    [|by intros h (Hall & _ & Hh); split; [intros [= -> ->]; by apply (Hall keys)|]|done].
  apply (traced_bind _ _ _ _ (λ r h, (r = None → panicked h) ∧ Pre h)).
  { destruct keys; [|by apply traced_ret].
    eapply traced_weaken; [apply (operation_traced Pre); [done|intros h [_ Hh]; by apply (applying_op c)|apply op_ensure_events|]|done|].
    - intros h (_ & Hm & _). by right.
    - intros r h [Hran Hh]. split; [|done]. intros ->. left. exists c, "aes256k spec". pose proof Hh as (_ & _ & Hdec & _).
      split_and!; [done|done|unfold may_panic; apply elem_of_app; right; apply elem_of_app; right; mem|done]. }
  intros [[_b aes]|]; [|apply traced_ret; intros h [Hp _] _; by apply Hp].
  eapply traced_bind; [eapply traced_weaken; [apply (update_traced Pre); [done|done|]|by intros h [_ Hh]|intros a h Hh; exact Hh]|by intros r; apply traced_ret].
  intros h Hready [Hall _]. right. apply Hall. revert Hready. unfold nonempty.
  destruct (decide (inProgress = "")), (decide (failed = "")); simpl; [by subst|done|done|done].
Qed.

(** ** Deleting *)

Definition deletion (h : history) : Prop := deleting ∧ begun h.
Lemma deletion_lasting : lasting deletion.
Proof. apply and_lasting; auto with lasting. Qed.

(** A sequence of removals: when it is finished, every one of them has shown that its
    resource is gone. *)
Lemma remove_all_traced (Pre : history → Prop) steps goals acc :
  Forall2 (λ (step : string * IO (bool * option err)) (goal : history → Prop), lasting goal ∧
    traced round_event Pre step.2 (λ r h, (r = (true, None) → goal h) ∧ Pre h)) steps goals →
  traced round_event Pre (remove_all steps acc) (λ acc' h,
    (acc'.1 = true → acc.1 = true ∧ Forall (λ goal : history → Prop, goal h) goals) ∧ Pre h).
Proof.
  intros Hsteps. revert acc. induction Hsteps as [|[what op] goal steps goals [Hl Hop] Hsteps IH]; intros acc; simpl.
  { apply traced_ret. intros h Hh. split; [|done]. intros Ha. split; [done|constructor]. }
  set (G := λ (acc' : bool * list string) h, acc'.1 = true → acc.1 = true ∧ goal h).
  apply (traced_bind _ _ _ _ (λ (acc' : bool * list string) h, G acc' h ∧ Pre h)).
  - unfold runRemoveState. eapply traced_bind; [exact Hop|]. intros [removed [e|]]; apply traced_ret; intros h [Hr Hh]; (split; [|done]).
    + done.
    + intros [Ha ->]%andb_true_iff. split; [done|]. by apply Hr.
  - intros acc'. assert (HG : lasting (G acc')) by (apply impl_lasting, and_lasting; auto with lasting).
    eapply traced_weaken; [eapply (traced_frame _ (G acc')); [exact HG|apply (IH acc')]|done|].
    intros acc2 h (Hg & Hall & Hh). split; [|done]. intros Ha. destruct (Hall Ha) as [Ha' Hgoals].
    destruct (Hg Ha') as [Ha0 Hgoal]. split; [done|by constructor].
Qed.

Lemma child_traced (Pre : history → Prop) c kind :
  about c → lasting Pre → (∀ h, Pre h → deletion h) → kind ≠ "CephCluster" →
  traced round_event Pre (delete_child (dc_cephDpl c) kind) (λ r h, (r = (true, None) → child_gone kind h) ∧ Pre h).
Proof.
  intros (Hname & Hns & _)%about_fields Hl Hpre Hk. unfold delete_child. rewrite Hname, Hns.
  eapply traced_bind; [apply (traced_ask _ Pre h0); [done|by intros h Hh; apply (Hpre h Hh)|]|].
  { intros h Hh. simpl. split; [done|]. right; left. by apply (Hpre h Hh). }
  intros [e|]; [destruct (is_not_found e) eqn:He|]; apply traced_ret; intros h [Hask Hh]; (split; [|done]); try done.
  intros _. by exists e.
Qed.

Lemma remove_traced (Pre : history → Prop) c what :
  about c → lasting Pre → (∀ h, Pre h → deletion h) →
  traced round_event Pre (remove rookNs params c what) (λ r h, (r = (true, None) → resource_gone what h) ∧ Pre h).
Proof.
  intros Hc Hl Hpre. eapply traced_weaken; [apply (operation_traced Pre); [done| |apply op_remove_events|]|done|].
  - intros h Hh. destruct (Hpre h Hh). auto.
  - intros h Hh. exact (proj1 (Hpre h Hh)).
  - intros r h [Hran Hh]. split; [|done]. intros ->. by exists c.
Qed.

Lemma deleteCluster_traced c :
  about c →
  traced round_event (λ h, cluster_unused h ∧ begun h) (deleteCluster rookNs (dc_cephDpl c)) (λ r h,
    (r = (true, None) → ∃ cluster e, is_not_found e = true ∧
       asked h0 (EvClusterGet rookNs name) (λ h, w_rookcluster_get h rookNs name) (cluster, Some e) h) ∧
    cluster_unused h ∧ begun h).
Proof.
  intros (Hname & _)%about_fields. unfold deleteCluster. rewrite Hname.
  set (Pre := λ h, cluster_unused h ∧ begun h).
  assert (Hl : lasting Pre) by (apply and_lasting; auto with lasting).
  eapply traced_bind; [apply (ask_traced Pre); [done|by intros h [_ Hh]|done]|].
  intros [cluster [e|]].
  { destruct (is_not_found e) eqn:He; [|apply traced_ret; by intros h (Hask & Hh)].
    apply traced_call. intros h (Hask & Hh). split; [done|]. split; [|by apply Hl]. intros _. exists cluster, e. split; [done|].
    by apply asked_lasting. }
  apply (traced_bind _ _ _ _ (λ _ h, Pre h)).
  { apply traced_call. intros h [_ Hh]. split; [|by apply Hl]. right; left. apply Hh. }
  intros [e|]; [by apply traced_ret|].
  apply (traced_bind _ _ _ _ (λ _ h, Pre h)); [|by intros [e|]; apply traced_ret].
  apply traced_call. intros h Hh. split; [|by apply Hl]. simpl. split; [intros _; apply Hh|]. right; left. apply Hh.
Qed.

Lemma deletion_nodes_traced {A} (Pre : history → Prop) (m : IO A) :
  lasting Pre → (∀ h, Pre h → deletion h) → spec node_event m (λ _, True) →
  traced round_event Pre m (λ _ h, Pre h).
Proof.
  intros Hl Hpre Hm. eapply traced_weaken; [eapply (traced_spec _ Pre); [done|exact Hm|]|done|by intros a h [_ Hh]].
  intros h e Hh He. destruct e; try done. left. exact (proj1 (Hpre h Hh)).
Qed.

Lemma delete_nodes_events step msg :
  (∀ node, spec node_event (step node) (λ _, True)) → spec node_event (delete_from_nodes step msg) (λ _, True).
Proof.
  intros Hs. unfold delete_from_nodes. apply spec_bind_any; [by apply spec_call|]. intros [nodes [e|]]; [by apply spec_ret|].
  apply spec_bind_any; [by apply for_nodes_events|]. intros [u [|]]; by apply spec_ret.
Qed.

(** The first stage of the removal: everything that uses the cluster. *)
Lemma clean_extra_traced c external :
  about c → external = is_external →
  let child kind := (kind +:+ " '" +:+ cdp_Namespace (dc_cephDpl c) +:+ "/" +:+ cdp_Name (dc_cephDpl c) +:+ "'",
                     delete_child (dc_cephDpl c) kind) in
  traced round_event deletion
    (remove_all ([child "CephDeploymentSecret"; child "CephDeploymentMaintenance"] ++
       ((λ what, (what, remove rookNs params c what)) <$> extra_resources external (disableOsKeys (dc_cephDpl c)))) (true, []))
    (λ acc h, (acc.1 = true → cluster_unused h) ∧ deletion h).
Proof.
  intros Hc Hext child. rewrite (about_keys c Hc).
  eapply traced_weaken; [apply (remove_all_traced deletion _ ([child_gone "CephDeploymentSecret"; child_gone "CephDeploymentMaintenance"] ++
    (resource_gone <$> extra_resources external (disableOsKeys dpl))))|done|].
  - repeat (apply Forall2_cons; split; [split; [apply child_gone_lasting|
      apply child_traced; [done|apply deletion_lasting|done|done]]|]).
    apply Forall2_fmap, Forall_Forall2_diag, Forall_forall. intros what _. split; [apply resource_gone_lasting|].
    apply remove_traced; [done|apply deletion_lasting|done].
  - intros [finished errs] h [Hall Hh]. split; [|done]. intros Hf. destruct (Hall Hf) as [_ Hgoals].
    apply Forall_cons in Hgoals as [Hs Hgoals]. apply Forall_cons in Hgoals as [Hm Hgoals].
    split_and!; [apply Hh|done|done|]. rewrite <-Hext. rewrite Forall_fmap, Forall_forall in Hgoals. exact Hgoals.
Qed.

(** The second stage: the cluster and what belongs to it. *)
Lemma clean_cluster_traced c external acc :
  about c →
  let child kind := (kind +:+ " '" +:+ cdp_Namespace (dc_cephDpl c) +:+ "/" +:+ cdp_Name (dc_cephDpl c) +:+ "'",
                     delete_child (dc_cephDpl c) kind) in
  let step (what : string) := (what, remove rookNs params c what) in
  traced round_event (λ h, cluster_unused h ∧ begun h)
    (remove_all
       ([child "CephDeploymentHealth"; ("ceph cluster", deleteCluster rookNs (dc_cephDpl c));
         step "ceph csi operator resources"; step "volumesnapshotclasses resources"] ++
        (if (external : bool) then []
         else [step "network policies"; ("node ceph labels", deleteLabelNodes); ("node ceph annotations", deleteNodesAnnotations)]) ++
        [("daemonset ceph labels", deleteDaemonSetLabels)]) acc)
    (λ acc h, (acc.1 = true → cluster_gone h) ∧ deletion h).
Proof.
  intros Hc child step. set (Pre := λ h, cluster_unused h ∧ begun h).
  assert (Hl : lasting Pre) by (apply and_lasting; auto with lasting).
  assert (Hdel : ∀ h, Pre h → deletion h) by (by intros h [[Hd _] Hh]).
  assert (Hnodes : ∀ m : IO (bool * option err), spec node_event m (λ _, True) →
    lasting (λ _ : history, True) ∧ traced round_event Pre m (λ r h, (r = (true, None) → True) ∧ Pre h)).
  { intros m Hm. split; [done|]. eapply traced_weaken; [by apply (deletion_nodes_traced Pre)|done|done]. }
  assert (Hrem : ∀ what, lasting (resource_gone what) ∧
    traced round_event Pre (remove rookNs params c what) (λ r h, (r = (true, None) → resource_gone what h) ∧ Pre h)).
  { intros what. split; [apply resource_gone_lasting|by apply remove_traced]. }
  eapply traced_weaken; [apply (remove_all_traced Pre _
    ([child_gone "CephDeploymentHealth"; (λ h, ∃ cluster e, is_not_found e = true ∧
       asked h0 (EvClusterGet rookNs name) (λ h, w_rookcluster_get h rookNs name) (cluster, Some e) h);
      resource_gone "ceph csi operator resources"; resource_gone "volumesnapshotclasses resources"] ++
     (if external then [] else [resource_gone "network policies"; (λ _, True); (λ _, True)]) ++ [(λ _, True)]))|done|].
  - apply Forall2_app; [|apply Forall2_app].
    + apply Forall2_cons. split; [split; [apply child_gone_lasting|apply child_traced; [done|done|done|done]]|].
      apply Forall2_cons. split; [split; [do 2 (apply exists_lasting; intros ?); auto with lasting|by apply deleteCluster_traced]|].
      do 2 (apply Forall2_cons; split; [apply Hrem|]). constructor.
    + destruct external; [constructor|]. apply Forall2_cons. split; [apply Hrem|].
      apply Forall2_cons. split; [apply Hnodes, delete_nodes_events; intros; apply update_labels_events|].
      apply Forall2_cons. split; [apply Hnodes, delete_nodes_events, annotate_events|constructor].
    + apply Forall2_cons. split; [apply Hnodes, delete_nodes_events; intros; apply update_labels_events|constructor].
  - intros acc' h (Hall & Hu & Hh). split; [|by apply Hdel]. intros Ha. destruct (Hall Ha) as [_ Hgoals].
    apply Forall_app in Hgoals as [Hgoals _]. apply Forall_cons in Hgoals as [_ Hgoals]. apply Forall_cons in Hgoals as [Hcl _].
    by split.
Qed.

Lemma clean_traced c external :
  about c → external = is_external →
  traced round_event deletion (cleanCephDeployment rookNs params c external) (λ r h,
    (r = (true, None) → cluster_gone h) ∧ deletion h).
Proof.
  intros Hc Hext. unfold cleanCephDeployment. eapply traced_bind; [by apply clean_extra_traced|].
  intros [finished errs]. cbn [fst].
  apply (traced_bind _ _ _ _ (λ (acc : bool * list string) h, (acc.1 = true → cluster_gone h) ∧ deletion h)).
  2: { intros [fin errs']. destruct errs'; apply traced_ret; intros h [Hg Hh]; (split; [|done]); [|done]. intros [= ->]. by apply Hg. }
  destruct finished; [|apply traced_ret; by intros h [_ Hh]].
  eapply traced_weaken; [by apply clean_cluster_traced| |done]. intros h [Hu [_ Hh]]. split; [by apply Hu|done].
Qed.

(** ** The whole round *)

Lemma begun_lasting : lasting begun.
Proof. apply prefix_lasting. Qed.

Lemma fail_traced tries dpl' msg :
  cdp_Name dpl' = name → cdp_Namespace dpl' = ns →
  traced round_event begun (fail_round tries dpl' msg) (λ _ _, True).
Proof.
  intros Hname Hns. unfold fail_round, setCephDeploymentPhaseFailed. rewrite Hname, Hns.
  apply (traced_bind _ _ _ _ (λ _ _, True)); [|by intros t; apply traced_ret].
  destruct (decide _); [by apply traced_ret|].
  eapply traced_bind; [by apply (update_traced begun); [apply begun_lasting| |]|by intros r; apply traced_ret].
Qed.

Lemma status_traced (Pre : history → Prop) dpl' status ok :
  cdp_Name dpl' = name → cdp_Namespace dpl' = ns → (dst_Phase status = PhaseReady → dst_Phase (cdp_Status dpl) = PhaseReady) →
  lasting Pre → (∀ h, Pre h → h0 `prefix_of` h) →
  traced round_event Pre (status_round dpl' status ok) (λ _ _, True).
Proof.
  intros Hname Hns Hready Hl Hpre. unfold status_round. rewrite Hname, Hns.
  eapply traced_bind; [apply (update_traced Pre); [done|done|by intros h Hr _; left; apply Hready]|by intros r; apply traced_ret].
Qed.

Lemma finalizer_traced (Pre : history → Prop) c add :
  about c → lasting Pre → (∀ h, Pre h → add = false → cluster_gone h) →
  traced round_event Pre (updateFinalizer c add) (λ _ h, Pre h).
Proof.
  intros (Hname & Hns & Hfin & _)%about_fields Hl Hgone. unfold updateFinalizer, dpl_update. apply traced_call.
  intros h Hh. split; [|by apply Hl]. simpl. split_and!; [done|done|]. intros Hin Hnin. destruct add; [|by apply Hgone].
  exfalso. apply Hnin. rewrite Hfin. unfold change_finalizers.
  destruct (Contains _ _) eqn:Hc; [by apply Contains_spec|]. apply elem_of_app. right. mem.
Qed.

Lemma delete_traced tries c external :
  about c → external = is_external → is_Some (cdp_DeletionTimestamp dpl) → destroy_prevented = false →
  traced round_event begun (reconcile_delete rookNs params tries c external) (λ _ _, True).
Proof.
  intros Hc Hext Hts Hprev. destruct (about_fields c Hc) as (Hname & Hns & Hfin & Hphase & _). unfold reconcile_delete. rewrite Hfin.
  destruct (Contains _ _) eqn:Hcont; simpl; [|by apply traced_ret]. apply Contains_spec in Hcont.
  destruct (bool_decide (dst_Phase _ = PhaseDeleting)) eqn:Hd; simpl; [|by apply status_traced; [..|apply begun_lasting|]].
  apply bool_decide_eq_true in Hd. rewrite Hphase in Hd.
  assert (Hdel : deleting) by (by split_and!).
  assert (Hwritten : ∀ (Pre : history → Prop) msg, lasting Pre → (∀ h, Pre h → h0 `prefix_of` h) →
    traced round_event Pre (status_round (dc_cephDpl c) (set_dst_Message msg (cdp_Status (dc_cephDpl c))) requeue_later) (λ _ _, True)).
  { intros Pre msg Hl Hpre. apply status_traced; [done|done| |done|done]. simpl. congruence. }
  apply (traced_bind _ _ _ _ (λ r h, (r = (true, None) → cluster_gone h) ∧ deletion h)).
  { eapply traced_weaken; [by apply clean_traced|by intros h Hh; split|done]. }
  intros [[|] [e|]]; try (eapply traced_weaken; [apply (Hwritten deletion); [apply deletion_lasting|by intros h [_ Hh]]|by intros h [_ Hh]|done]).
  assert (Hl : lasting (λ h, cluster_gone h ∧ deletion h)).
  { apply and_lasting; [|apply deletion_lasting]. apply and_lasting; [apply cluster_unused_lasting|].
    do 2 (apply exists_lasting; intros ?). auto with lasting. }
  eapply traced_bind; [eapply traced_weaken; [apply (finalizer_traced (λ h, cluster_gone h ∧ deletion h) c false Hc Hl)| |]|].
  - by intros h [Hg _] _.
  - intros h [Hg Hh]. split; [by apply Hg|done].
  - intros a h Hh. exact Hh.
  - intros [e|]; [|by apply traced_ret]. eapply traced_weaken; [apply (Hwritten deletion); [apply deletion_lasting|by intros h [_ Hh]]|by intros h [_ Hh]|done].
Qed.

Lemma lcm_phase c external :
  spec (λ _, True) (checkLcmState rookNs c external) (λ r, ∀ phase, r = inl (Some phase) → phase ≠ PhaseReady).
Proof.
  unfold checkLcmState. apply spec_bind_any; [apply spec_triv|]. intros [[|]|e]; [by apply spec_ret; intros ? [= <-]| |by apply spec_ret].
  apply spec_bind_any; [apply spec_triv|]. intros [[|] [e|]]; apply spec_ret; by intros ? [= <-].
Qed.

(** A round with a certain result: a panic is one of those listed. *)
Abbreviation panic_known := (λ (r : option round) (h : history), r = None → panicked h).

Lemma some_known (Pre : history → Prop) m :
  traced round_event Pre m (λ _ _, True) → traced round_event Pre (some_round m) panic_known.
Proof. intros Hm. eapply traced_bind; [exact Hm|]. intros x. by apply traced_ret. Qed.

(** The operator of Rook and its daemonset. *)
Lemma discover_traced (Pre : history → Prop) :
  lasting Pre → (∀ h, Pre h → h0 `prefix_of` h) →
  traced round_event Pre (ensure_discover_image rookNs params) (λ r h, (r = None → rook_unset h) ∧ Pre h).
Proof.
  intros Hl Hpre. unfold ensure_discover_image. eapply traced_bind; [by apply (ask_traced Pre)|].
  intros [[discover [current|]] [e|]]; try (apply traced_ret; intros h [Hask Hh]; (split; [|done]); try done).
  - destruct (negb _); [|destruct (_ || _); by apply traced_ret; intros h [_ Hh]].
    apply (traced_bind _ _ _ _ (λ _ h, Pre h)); [|intros [e|]; by apply traced_ret].
    eapply traced_weaken; [apply (prep_traced Pre); [done|]|by intros h [_ Hh]|done]. apply call_prep. simpl. mem.
  - intros _. right. by exists discover.
Qed.

Lemma rook_traced (Pre : history → Prop) :
  lasting Pre → (∀ h, Pre h → h0 `prefix_of` h) →
  traced round_event Pre (ensureRookImage rookNs params) (λ r h, (r = None → rook_unset h) ∧ Pre h).
Proof.
  intros Hl Hpre. unfold ensureRookImage. eapply traced_bind; [by apply (ask_traced Pre)|].
  intros [[operator container] [e|]]; [by apply traced_ret; intros h [_ Hh]|].
  destruct (dpl_SpecReplicas operator) as [replicas|] eqn:Hrep.
  2: { apply traced_ret. intros h [Hask Hh]. split; [|done]. intros _. left. exists operator, container. auto. }
  destruct (decide (replicas = 0)); [by apply traced_ret; intros h [_ Hh]|]. destruct container as [current|].
  2: { apply traced_ret. intros h [Hask Hh]. split; [|done]. intros _. left. exists operator, None. auto. }
  eapply traced_weaken; [|intros h [_ Hh]; exact Hh|intros a h Hh; exact Hh]. destruct (negb _).
  - apply (traced_bind _ _ _ _ (λ _ h, Pre h)); [|intros [e|]; by apply traced_ret].
    apply (prep_traced Pre); [done|]. apply call_prep. simpl. mem.
  - destruct (negb _); [by apply traced_ret|].
    eapply traced_bind; [apply (prep_traced Pre); [done|apply deployed_prep]|]. intros [|]; simpl; [by apply discover_traced|by apply traced_ret].
Qed.

(** The image of the CephCluster. *)
Lemma updated_image_only c cluster : image_only c cluster (updated_cluster c cluster).
Proof.
  unfold image_only. split_and!; [..|exists (csp_Network (rkc_Spec (updated_cluster c cluster))), (rkc_CephX (updated_cluster c cluster)),
    (rkc_SpecAnnotations (updated_cluster c cluster))]; unfold updated_cluster; destruct (dc_aes256kUpgrade c), (decide _); done.
Qed.

Lemma cluster_version_traced c (Pre : history → Prop) :
  about c → lasting Pre → (∀ h, Pre h → decided c h ∧ h0 `prefix_of` h) →
  traced round_event Pre (ensureCephClusterVersion rookNs c) (λ _ h, Pre h).
Proof.
  intros Hc Hl Hpre. destruct (about_fields c Hc) as (Hname & _). unfold ensureCephClusterVersion. rewrite Hname.
  eapply traced_bind; [apply (ask_traced Pre); [done|by intros h Hh; apply (Hpre h Hh)|done]|].
  intros [cluster [e|]]; [destruct (is_not_found e); by apply traced_ret; intros h [_ Hh]|].
  destruct (decide (rkc_Image cluster = _)); [by apply traced_ret; intros h [_ Hh]|].
  apply (traced_bind _ _ _ _ (λ _ h, Pre h)); [|intros [e|]; by apply traced_ret].
  apply traced_call. intros h [Hask Hh]. split; [|by apply Hl]. left. exists c, cluster.
  split_and!; [done|by apply Hpre|done|done|apply updated_image_only].
Qed.

Lemma images_traced c (Pre : history → Prop) :
  about c → lasting Pre → (∀ h, Pre h → decided c h ∧ h0 `prefix_of` h) →
  traced round_event Pre (verify_images rookNs params c) (λ r h, (r = None → panicked h) ∧ Pre h).
Proof.
  intros Hc Hl Hpre. unfold verify_images. destruct (dc_currentCephVersion c); [|by apply traced_ret].
  eapply traced_bind; [apply (rook_traced Pre); [done|by intros h Hh; apply (Hpre h Hh)]|].
  intros [[e|]|].
  - by apply traced_ret; intros h [_ Hh].
  - apply (traced_bind _ _ _ _ (λ _ h, Pre h)); [|intros e; by apply traced_ret].
    eapply traced_weaken; [by apply (cluster_version_traced c Pre)|by intros h [_ Hh]|done].
  - apply traced_ret. intros h [Hp Hh]. split; [|done]. intros _. do 3 right. by apply Hp.
Qed.

(** The images are looked at after the nodes of the CSI driver. *)
Lemma verify_setup_traced c (Pre : history → Prop) :
  about c → lasting Pre → (∀ h, Pre h → decided c h ∧ h0 `prefix_of` h) →
  traced round_event Pre (verifySetup rookNs params c) (λ r h, (r = None → panicked h) ∧ Pre h).
Proof.
  intros Hc Hl Hpre. unfold verifySetup, ensure_daemonsets. eapply traced_bind.
  - apply (traced_run _ Pre daemonset_event h0); [done|by intros h Hh; apply (Hpre h Hh)|apply op_daemonsets_events|by intros h _; left|].
    intros h evs e Hh Hevs He.
    assert (Hin : in_daemonsets (h ++ EvEnsure "daemonset labels" :: evs)) by (exists h, evs; split_and!; [by apply (Hpre h Hh)|done|done]).
    destruct e; simpl in *; try done; [|tauto]. split; [done|tauto].
  - intros [u|]; [eapply traced_weaken; [by apply (images_traced c Pre)|by intros h [_ Hh]|done]|].
    apply traced_ret. intros h [Hran Hh]. split; [|done]. intros _. right; right; left. exact Hran.
Qed.

(** From the decision on the version on. *)
Definition deciding (c : deployConfig) (h : history) : Prop := decided c h ∧ begun h.
Lemma deciding_lasting c : lasting (deciding c).
Proof. apply and_lasting; auto with lasting. Qed.

Lemma lcm_decided c external :
  about c →
  traced round_event (deciding c) (checkLcmState rookNs c external) (λ r h,
    (∀ phase, r = inl (Some phase) → phase ≠ PhaseReady) ∧
    (r = inl None → (external = true ∨ tasks_free h) ∧ no_maintenance h) ∧ deciding c h).
Proof.
  intros Hc. eapply traced_weaken; [apply (traced_and_spec _ _ (λ _, True)); [apply lcm_phase|]|done|].
  - apply (traced_frame _ (decided c)); [apply decided_lasting|by apply lcm_traced].
  - intros r h (Hphase & Hdec & Hr & Hh). split_and!; [done|done|by split].
Qed.

Lemma checked_traced tries c external :
  about c → external = is_external →
  traced round_event (deciding c)
    (let* r := checkLcmState rookNs c external in
     match r with
     | inr e => some_round (fail_round tries (dc_cephDpl c) (err_msg e))
     | inl (Some lcmPhase) =>
         if decide (lcmPhase = dst_Phase (cdp_Status (dc_cephDpl c))) then ret (Some (requeue_later, tries))
         else
           let msg := if decide (lcmPhase = PhaseOnHold) then "Ceph cluster is under request processing"
                      else "Cluster maintenance (upgrade) detected, reconcile is paused" in
           some_round (status_round (dc_cephDpl c) (set_dst_Message msg (set_dst_Phase lcmPhase (cdp_Status (dc_cephDpl c)))) requeue_later)
     | inl None => reconcile_apply rookNs params c external
     end) panic_known.
Proof.
  intros Hc Hext. destruct (about_fields c Hc) as (Hname & Hns & _ & Hphase & _).
  eapply traced_bind; [by apply lcm_decided|]. intros [[phase|]|e].
  - apply traced_pure. intros Hp. destruct (decide (phase = _)); [by apply traced_ret|].
    eapply traced_weaken; [apply some_known, (status_traced begun); [done|done| |apply begun_lasting|done]|by intros h (_ & _ & Hh)|done].
    simpl. intros ->. by destruct (Hp PhaseReady).
  - eapply traced_weaken; [by apply reconcile_apply_traced| |done]. intros h (_ & Hf & Hdec & Hh).
    destruct (Hf eq_refl) as [Hfree Hm]. split_and!; [|done|done]. split; [by rewrite <-Hext|done].
  - eapply traced_weaken; [by apply some_known, fail_traced|by intros h (_ & _ & _ & Hh)|done].
Qed.

Lemma setup_traced tries c external :
  about c → dc_cephDpl c = decoded → external = is_external →
  traced round_event begun (reconcile_setup rookNs params tries c external) panic_known.
Proof.
  intros Hc Hdpl Hext. destruct (about_fields c Hc) as (Hname & Hns & _ & Hphase & _). unfold reconcile_setup. rewrite Hdpl.
  eapply traced_bind; [apply (traced_passed _ begun preparing h0); [apply begun_lasting|done|apply versions_prep|by intros h e _; apply preparing_event]|].
  intros [vs|e]; [|eapply traced_weaken; [by apply some_known, fail_traced|by intros h [_ Hh]|done]].
  destruct (bool_decide (dst_ClusterVersion _ = _)); simpl.
  2: { eapply traced_weaken; [apply some_known, (status_traced begun); [done|done|intros Hr; exact Hr|apply begun_lasting|done]|by intros h [_ Hh]|done]. }
  set (c1 := set_dc_aes256kUpgrade _ _).
  apply (traced_weaken _ (deciding c1) _ _ panic_known); [|by intros h [Hv Hh]; split; [exists vs|]|done].
  eapply traced_bind; [apply (prep_traced (deciding c1)); [apply deciding_lasting|apply children_prep]|].
  intros [refs issues]. destruct (bool_decide (issues = "")); simpl;
    [|eapply traced_weaken; [by apply some_known, fail_traced|by intros h [_ Hh]|done]].
  set (dpl1 := set_cdp_Status _ decoded). set (c2 := set_dc_cephDpl dpl1 c1).
  assert (Hc2 : about c2).
  { destruct Hc as (_ & Hrest). split; [|done]. by eexists. }
  eapply traced_bind; [apply (verify_setup_traced c2 (deciding c2) Hc2 (deciding_lasting c2)); by intros h Hh|].
  intros [[e|]|].
  - eapply traced_weaken; [by apply some_known, fail_traced|by intros h (_ & _ & Hh)|done].
  - eapply traced_weaken; [by apply (checked_traced tries c2)|by intros h [_ Hh]|done].
  - apply traced_ret. intros h [Hp _] _. by apply Hp.
Qed.

Lemma validate_traced tries c cs :
  about c → dc_cephDpl c = decoded → csp_External cs = is_external →
  traced round_event begun (reconcile_validate rookNs params tries c cs) panic_known.
Proof.
  intros Hc Hdpl Hext. destruct (about_fields c Hc) as (Hname & Hns & _ & Hphase & _). unfold reconcile_validate.
  eapply traced_bind; [apply (prep_traced begun); [apply begun_lasting|apply validate_prep]|]. intros v.
  destruct (bool_decide (dst_Validation _ = v)); simpl.
  2: { apply some_known, status_traced; [done|done| |apply begun_lasting|done]. destruct (val_Result v); simpl; congruence. }
  destruct (decide _); [by apply traced_ret|]. destruct (Contains _ _); simpl.
  - by apply setup_traced.
  - eapply traced_bind; [by apply (finalizer_traced begun); [|apply begun_lasting|]|]. intros e. by apply traced_ret.
Qed.

(** Decoding the spec at the beginning of the round. *)
Lemma cast_all_nil {A T} (get : A → T * option err) msg (l : list A) : cast_all get msg l = [] → Forall (λ x, (get x).2 = None) l.
Proof.
  unfold cast_all. revert msg. induction l as [|x l IH]; intros msg; simpl; [constructor|]. rewrite app_nil. intros [Hx Hl].
  constructor; [by destruct (get x).2|]. by apply (IH (msg ∘ S)).
Qed.

Lemma pool_names_decoded pools : Forall (λ pool, (CephPool_GetSpec pool).2 = None) pools → pool_names pools = buildPoolName <$> pools.
Proof. intros Hall. unfold pool_names. induction Hall as [|p l Hp _ IH]; simpl; [done|]. f_equal; [by rewrite Hp|exact IH]. Qed.

Lemma cast_known common :
  let r := (castExtensions (mkDeployConfig dpl None false [] [] None EmptyString false None common) h0).1 in
  (cdp_Name (dc_cephDpl r.1) = name ∧ cdp_Namespace (dc_cephDpl r.1) = ns) ∧ (r.2 = None → about r.1 ∧ dc_cephDpl r.1 = decoded).
Proof.
  cbv zeta. unfold castExtensions, about, cluster_spec, expanded, decoded. simpl.
  assert (Hst : ∀ x, set_cdp_Status (cdp_Status dpl) (set_cdp_Spec x dpl) = set_cdp_Spec x dpl) by (by intros x).
  destruct (CephCluster_GetSpec (dsp_Cluster (cdp_Spec dpl))) as [cs [e|]], (dsp_BlockStorage (cdp_Spec dpl)) as [pools|];
    unfold mbind'; simpl; destruct (GetExpandedCephDeploymentNodeList (cdp_Spec dpl) h0) as [[[nodes [e'|]] nodes'] evs]; simpl;
    match goal with |- context [match ?x with [] => ret _ | _ :: _ => _ end] => destruct x eqn:Herrs end; simpl;
    (split; [done|]); try done; intros _; repeat (apply app_nil in Herrs as [? Herrs]); try done;
    (split; [|done]); (split_and!; [by exists (cdp_Status dpl)|done| |done|done]); [|done].
  apply pool_names_decoded. by eapply cast_all_nil.
Qed.

Lemma cast_traced common :
  let c := mkDeployConfig dpl None false [] [] None EmptyString false None common in
  traced round_event (λ h, h = h0) (castExtensions c) (λ r h, r = (castExtensions c h0).1 ∧ begun h).
Proof.
  intros c h ->. split; [split; [done|by apply prefix_app_r]|]. intros evs1 e evs2 He. apply preparing_event.
  destruct (cast_prep c h0) as [_ Hall]. rewrite He in Hall. by apply Forall_app in Hall as [_ [Hev _]%Forall_cons].
Qed.

Lemma deployment_traced common tries :
  traced round_event (λ h, h = h0) (reconcile_deployment rookNs params common tries dpl) panic_known.
Proof.
  assert (Hbegin : ∀ (m : IO (option round)) Q, traced round_event begun m Q → traced round_event (λ h, h = h0) m Q).
  { intros m Q Hm. eapply traced_weaken; [exact Hm|by intros h ->|done]. }
  unfold reconcile_deployment.
  pose proof (cast_known common) as [Hc Hcs]. pose proof (cast_traced common) as Hcast. cbv zeta in Hc, Hcs, Hcast.
  set (c0 := mkDeployConfig dpl None false [] [] None EmptyString false None common) in *.
  unfold ensureDeprecatedFields. destruct (isMigrationRequired _) as [[spec|] [e|]].
  - apply traced_bind_ret. by apply Hbegin, some_known, fail_traced.
  - apply Hbegin. apply (traced_bind _ _ _ _ (λ r h, (r = (set_dc_cephDpl (set_cdp_Spec spec dpl) c0, true, None) ∨
      ∃ e, r = (set_dc_cephDpl (set_cdp_Spec spec dpl) c0, false, Some e)) ∧ begun h)).
    + apply (traced_bind _ _ _ _ (λ _ h, begun h)).
      * apply traced_call. intros h Hh. split; [|by apply prefix_app_r]. simpl. split_and!; [done|done|]. by intros ? [].
      * intros [e|]; apply traced_ret; intros h Hh; (split; [|done]); [right; by eexists|by left].
    + intros r. apply traced_pure. intros [->|[e ->]]; [by apply traced_ret|by apply some_known, fail_traced].
  - apply traced_bind_ret. by apply Hbegin, some_known, fail_traced.
  - apply traced_bind_ret. eapply traced_bind; [exact Hcast|]. intros [c e]. apply traced_pure. intros Heq. rewrite <-Heq in Hc, Hcs.
    simpl in Hc, Hcs. destruct e as [e|]; [destruct Hc as (? & ?); by apply some_known, fail_traced|].
    clear Hc. destruct (Hcs eq_refl) as [Hc Hdpl]. pose proof Hc as (_ & Hspec & _). rewrite Hspec. clear Hspec.
    fold destroy_prevented.
    destruct (bool_decide (is_Some (cdp_DeletionTimestamp dpl)) && negb destroy_prevented) eqn:Hdel.
    + apply andb_true_iff in Hdel as [Hts%bool_decide_eq_true Hp%negb_true_iff]. by apply some_known, delete_traced.
    + by apply validate_traced.
Qed.
End round.

(** ** Theorems *)

Section theorems.
Context `{World} `{HealthWorld} `{DeployWorld} `{ResourceOps} `{SpecDecoder} `{MapRange}.
Variables (lcmConfigs : lcm_configs) (r : request) (tries : Z) (h0 : history).
Let rookNs : string := lc_RookNamespace (GetConfiguration (req_Namespace r) lcmConfigs).
Let params : DeployParams := default defaultDeployParams (lc_DeployParams (GetConfiguration (req_Namespace r) lcmConfigs)).

(** The round once the CephDeployments are listed. *)
Definition listed : history := h0 ++ [EvDplList (req_Namespace r)].

Lemma round_traced dpl :
  w_dpl_list h0 (req_Namespace r) = ([dpl], None) →
  traced (round_event rookNs params dpl listed) (λ h, h = h0) (ReconcileCephDeployment lcmConfigs r tries)
    (λ x h, x = None → is_Some (lc_DeployParams (GetConfiguration (req_Namespace r) lcmConfigs)) → panicked rookNs params dpl listed h).
Proof.
  intros Hl. unfold ReconcileCephDeployment. fold rookNs. unfold params.
  destruct (lc_DeployParams _) as [p|]; [|apply traced_ret; by intros h _ _ []]. cbn [default].
  eapply traced_bind; [apply (traced_call _ _ _ _ (λ a h, a = ([dpl], None) ∧ h = listed))|].
  { intros h ->. split_and!; [exact I|done|done]. }
  intros l. apply traced_pure. intros ->. destruct (decide _); [|by apply traced_ret].
  eapply traced_weaken; [apply deployment_traced|done|]. intros x h Hx Hn _. by apply Hx.
Qed.

(** Every interaction of a round is as [round_event] says, for the CephDeployment that was listed. *)
Lemma round_events dpl evs1 e evs2 :
  w_dpl_list h0 (req_Namespace r) = ([dpl], None) →
  (ReconcileCephDeployment lcmConfigs r tries h0).2 = evs1 ++ e :: evs2 →
  round_event rookNs params dpl listed (h0 ++ evs1) e.
Proof. intros Hl. by apply (round_traced dpl Hl h0 eq_refl). Qed.


(** C7: The CephCluster is deleted only in a round for a CephDeployment that its user has
    deleted, that does not forbid it, that carries the finalizer and whose phase has been
    Deleting before the round; and only after, in this round, the secret and the maintenance
    object and every resource that uses the cluster were found to be gone. *)
Theorem cluster_destroyed_last dpl evs1 evs2 ns name :
  w_dpl_list h0 (req_Namespace r) = ([dpl], None) →
  (ReconcileCephDeployment lcmConfigs r tries h0).2 = evs1 ++ EvDelete "CephCluster" ns name :: evs2 →
  cluster_unused rookNs params dpl listed (h0 ++ evs1).
Proof. intros Hl Hev. by apply (round_events dpl evs1 _ evs2 Hl Hev). Qed.

(** C19: The finalizer, which keeps the CephDeployment, is given up only after the CephCluster
    itself was found to be gone, after everything that uses it. *)
Theorem finalizer_kept dpl evs1 dpl' evs2 :
  w_dpl_list h0 (req_Namespace r) = ([dpl], None) →
  (ReconcileCephDeployment lcmConfigs r tries h0).2 = evs1 ++ EvDplUpdate dpl' :: evs2 →
  deploy_finalizer ∈ cdp_Finalizers dpl → deploy_finalizer ∉ cdp_Finalizers dpl' →
  cluster_gone rookNs params dpl listed (h0 ++ evs1).
Proof. intros Hl Hev. apply (round_events dpl evs1 _ evs2 Hl Hev). Qed.

(** The phase Failed is never written over the phases OnHold and Maintenance, which other
    controllers rely on, and the phase Ready is written only over Ready or when, in this round,
    every resource was found to need no change. *)
Theorem phases_written dpl evs1 ns name status evs2 :
  w_dpl_list h0 (req_Namespace r) = ([dpl], None) →
  (ReconcileCephDeployment lcmConfigs r tries h0).2 = evs1 ++ EvDplStatusUpdate ns name status :: evs2 →
  (dst_Phase status = PhaseFailed → phase_free dpl listed (h0 ++ evs1)) ∧
  (dst_Phase status = PhaseReady → dst_Phase (cdp_Status dpl) = PhaseReady ∨ all_applied rookNs params dpl listed (h0 ++ evs1)).
Proof. intros Hl Hev. apply (round_events dpl evs1 _ evs2 Hl Hev). Qed.
End theorems.

(** ** The result of a round *)

Section result.
Context `{World} `{HealthWorld} `{DeployWorld} `{ResourceOps} `{SpecDecoder} `{MapRange}.

Definition tries_ok (t : Z) : Prop := 0 ≤ t ≤ failTriesLeft.
Abbreviation counted m := (spec (λ _, True) m (λ x : round, tries_ok x.2)).

Lemma tries_zero : tries_ok 0.
Proof. unfold tries_ok, failTriesLeft. lia. Qed.

Lemma set_failed_counted t name ns status :
  tries_ok t → spec (λ _, True) (setCephDeploymentPhaseFailed t name ns status) tries_ok.
Proof.
  intros Ht. unfold setCephDeploymentPhaseFailed. destruct (decide _).
  - apply spec_ret. unfold tries_ok, failTriesLeft in *. lia.
  - apply spec_bind_any; [apply spec_triv|]. intros _e. apply spec_ret, tries_zero.
Qed.

Lemma fail_counted t dpl msg : tries_ok t → counted (fail_round t dpl msg).
Proof. intros Ht. eapply spec_bind; [by apply set_failed_counted|]. intros t' Ht'. by apply spec_ret. Qed.

Lemma status_counted dpl status ok : counted (status_round dpl status ok).
Proof. apply spec_bind_any; [apply spec_triv|]. intros e. apply spec_ret, tries_zero. Qed.

Ltac counted_step :=
  match goal with
  | |- spec _ (mret' _) _ => apply spec_ret; auto using tries_zero
  | |- spec _ (fail_round _ _ _) _ => by apply fail_counted
  | |- spec _ (status_round _ _ _) _ => apply status_counted
  | |- spec _ (mbind' _ _) _ => apply spec_bind_any; [apply spec_triv|intros ?]
  | |- spec _ (let '(_, _) := ?x in _) _ => destruct x
  | |- spec _ (match ?x with _ => _ end) _ => destruct x
  end.

Lemma delete_counted rookNs params t c external : tries_ok t → counted (reconcile_delete rookNs params t c external).
Proof. intros Ht. unfold reconcile_delete. repeat counted_step. Qed.

(** A round that may panic. *)
Abbreviation bounded m := (spec (λ _, True) m (λ x : option round, ∀ result tries, x = Some (result, tries) → tries_ok tries)).

Lemma some_bounded m : counted m → bounded (some_round m).
Proof. intros Hm. eapply spec_bind; [exact Hm|]. intros [res t] Ht. apply spec_ret. by intros ? ? [= <- <-]. Qed.

Ltac bounded_step :=
  match goal with
  | |- spec _ (mret' _) _ => apply spec_ret; first [done|intros ? ? [= <- <-]; auto using tries_zero]
  | |- spec _ (some_round _) _ => apply some_bounded; first [by apply fail_counted|apply status_counted|by apply delete_counted]
  | |- spec _ (mbind' _ _) _ => apply spec_bind_any; [apply spec_triv|intros ?]
  | |- spec _ (let '(_, _) := ?x in _) _ => destruct x
  | |- spec _ (match ?x with _ => _ end) _ => destruct x
  end.

Lemma deployment_bounded rookNs params common t dpl : tries_ok t → bounded (reconcile_deployment rookNs params common t dpl).
Proof. intros Ht. unfold reconcile_deployment, reconcile_validate, reconcile_setup, reconcile_apply. repeat bounded_step. Qed.

Lemma round_bounded lcmConfigs r t : tries_ok t → bounded (ReconcileCephDeployment lcmConfigs r t).
Proof.
  intros Ht. unfold ReconcileCephDeployment. destruct (lc_DeployParams _); [|by bounded_step]. bounded_step.
  repeat first [by apply deployment_bounded|eapply spec_bind; [by apply set_failed_counted|intros t' Ht']|bounded_step].
Qed.

(** A round without a CephDeployment of its own to look at does not panic. *)
Lemma other_rounds lcmConfigs r t h :
  is_Some (lc_DeployParams (GetConfiguration (req_Namespace r) lcmConfigs)) →
  (∀ dpl, w_dpl_list h (req_Namespace r) ≠ ([dpl], None)) → is_Some (ReconcileCephDeployment lcmConfigs r t h).1.
Proof.
  intros [params Hp] Hl. unfold ReconcileCephDeployment, mbind'. rewrite Hp. simpl.
  destruct (w_dpl_list h (req_Namespace r)) as [[|dpl [|]] [e|]]; try (by eexists). by destruct (Hl dpl).
Qed.

(** The result of a round, or where it has panicked. *)
Lemma round_result lcmConfigs r tries h :
  let config := GetConfiguration (req_Namespace r) lcmConfigs in
  is_Some (lc_DeployParams config) → tries_ok tries →
  (∃ result tries', (ReconcileCephDeployment lcmConfigs r tries h).1 = Some (result, tries') ∧ tries_ok tries') ∨
  (ReconcileCephDeployment lcmConfigs r tries h).1 = None ∧
  ∃ dpl, w_dpl_list h (req_Namespace r) = ([dpl], None) ∧
    panicked (lc_RookNamespace config) (default defaultDeployParams (lc_DeployParams config)) dpl (listed r h)
      (h ++ (ReconcileCephDeployment lcmConfigs r tries h).2).
Proof.
  intros config Hp Ht. destruct (ReconcileCephDeployment lcmConfigs r tries h).1 as [[res t']|] eqn:Hres.
  { left. exists res, t'. split; [done|]. by apply (proj1 (round_bounded lcmConfigs r tries Ht h) res t'). }
  right. split; [done|]. destruct (w_dpl_list h (req_Namespace r)) as [l e] eqn:Hl.
  assert (Hone : ∃ dpl, (l, e) = ([dpl], None)).
  { destruct l as [|dpl [|dpl' l]], e as [e|]; try (by exists dpl);
      destruct (other_rounds lcmConfigs r tries h Hp) as [x Hx]; [by rewrite Hl|congruence..]. }
  destruct Hone as [dpl [= -> ->]]. exists dpl. split; [done|].
  destruct (round_traced lcmConfigs r tries h dpl Hl h eq_refl) as [Hq _]. by apply Hq.
Qed.
End result.
