(* ===== verification/Cluster.v ===== *)
(** * The CephCluster

    pkg/controller/deployment/cluster.go: the spec of the CephCluster is generated from that of
    the CephDeployment and written when it differs and the cluster is ready for it, after the
    configuration of Ceph (or the connection data of an external cluster) is in place.
    [buildStorageNodes], [checkStorageSpecIsAligned] and [deleteCluster] are in
    DeployController. *)

From S2P Require Import Prelude GoTime Types HealthTypes DeployTypes World HealthWorld Extensions Validate Config DeployWorld Resources CastSpec NodeLabels Versions CephConfig External DeployController.
Open Scope Z_scope.


(** The keys of Rook for groups of daemons. *)
Definition KeyAll : string := "all".
Definition KeyMon : string := "mon".
Definition KeyMgr : string := "mgr".
Definition KeyOSD : string := "osd".
Definition KeyOSDPrepare : string := "prepareosd".
Definition KeyCleanup : string := "cleanup".

(** ** The generated spec *)

(** The times of the last changes of the sections a daemon depends on. *)
Definition daemon_annotations (ts : gmap string string) (daemon : string) : gmap string string :=
  let annotations := {[cephConfigParametersUpdateTimestampLabel "global" := value_of ts "global"]} in
  if decide (value_of ts daemon = EmptyString) then annotations
  else <[cephConfigParametersUpdateTimestampLabel daemon := value_of ts daemon]> annotations.

(** Monitors and managers of the nodes; there are at most two managers. *)
Definition count_step (acc : Z * Z) (node : CephDeploymentNode) : Z * Z :=
  let '(mons, mgrs) := acc in
  (if Contains (dn_Roles node) "mon" then mons + 1 else mons,
   if Contains (dn_Roles node) "mgr" && bool_decide (mgrs < 2) then mgrs + 1 else mgrs).

Definition with_modules (modules : list (string * bool)) : list (string * bool) :=
  modules ++ ((λ name, (name, true)) <$> filter (λ name, name ∉ modules.*1) ["balancer"; "pg_autoscaler"]).

(** Daemons that run on nodes with a label. *)
Definition labelled_placement (role : string) (tolerations : list toleration) : Placement :=
  let label := CephNodeLabel role in
  mkPlacementOf (Some (AffinityLabel label)) (Some (AffinityOther EmptyString)) (Some (AffinityOther EmptyString))
    (TolerationExists label :: tolerations) EmptyString.

Definition tolerating (tolerations : list toleration) : Placement := mkPlacementOf None None None tolerations EmptyString.

Section generate.
Context `{RookLib}.

Definition generated_placement (placement : gmap string Placement) : gmap string Placement :=
  let tolerations key := match placement !! key with Some p => plc_Tolerations p | None => [] end in
  let new := {[KeyMon := labelled_placement "mon" (tolerations KeyMon); KeyMgr := labelled_placement "mgr" (tolerations KeyMgr)]} in
  let all := plc_Tolerations (Placement_All placement) in
  let new := if decide (all = []) then new else <[KeyAll := tolerating all]> new in
  let osd := tolerations KeyOSD in
  if decide (osd = []) then new
  else <[KeyCleanup := tolerating osd]> (<[KeyOSDPrepare := tolerating osd]> (<[KeyOSD := tolerating osd]> new)).

Definition with_probes (probes : gmap string probe) : gmap string probe :=
  foldl (λ probes daemon, match probes !! daemon with Some _ => probes | None => <[daemon := DefaultCephProbe]> probes end)
    probes ["mgr"; "mon"; "osd"].

(** The parts of the spec that an external cluster does not have. *)
Definition generate_internal (ts : gmap string string) (clusterSpec : ClusterSpec) (nodesExpanded : list CephDeploymentNode) : ClusterSpec :=
  let spec :=
    if decide (length nodesExpanded ≤ 3)%nat then set_csp_ContinueUpgrade true (set_csp_SkipUpgradeChecks true clusterSpec)
    else clusterSpec in
  let annotations := csp_Annotations spec in
  let annotations := <[KeyMon := Annotations_Merge (GetMonAnnotations annotations) (daemon_annotations ts "mon")]> annotations in
  let annotations := <[KeyMgr := Annotations_Merge (GetMgrAnnotations annotations) (daemon_annotations ts "mgr")]> annotations in
  let spec := set_csp_Annotations annotations spec in
  let '(mons, mgrs) := foldl count_step (0, 0) nodesExpanded in
  let spec := set_csp_MgrCount mgrs (set_csp_MonCount mons spec) in
  let spec := set_csp_Modules (with_modules (csp_Modules spec)) spec in
  let spec := set_csp_Storage (mkStorageScope false (Some false) (buildStorageNodes nodesExpanded) EmptyString) spec in
  let network := csp_Network spec in
  let spec := if decide (ns_Provider network = EmptyString) then set_csp_Network (set_ns_Provider "host" network) spec else spec in
  let spec := set_csp_Placement (generated_placement (csp_Placement spec)) spec in
  set_csp_LivenessProbe (with_probes (csp_LivenessProbe spec)) spec.

Definition generateCephClusterSpec (ts : gmap string string) (cephClusterSpec : ClusterSpec) (image : string)
    (nodesExpanded : list CephDeploymentNode) : ClusterSpec :=
  let clusterSpec := set_csp_Image image cephClusterSpec in
  let clusterSpec :=
    if decide (csp_DataDirHostPath cephClusterSpec = EmptyString) then set_csp_DataDirHostPath DefaultDataDirHostPath clusterSpec
    else clusterSpec in
  if csp_External clusterSpec then clusterSpec else generate_internal ts clusterSpec nodesExpanded.
End generate.

(** ** Ensuring the cluster *)

Section cluster.
Context `{World} `{HealthWorld} `{DeployWorld} `{SpecDecoder} `{ResourceWorld} `{RookLib} `{MapRange}.
Variables (rookNs : string) (params : DeployParams).

Definition cluster_get (name : string) : IO (RookCluster * option err) :=
  call (EvClusterGet rookNs name) (λ h, w_rookcluster_get h rookNs name).

(** Whether the cluster may be updated now. *)
Definition not_ready_to_update (name : string) (cluster : RookCluster) : option err :=
  match rkc_Health cluster with
  | None => None
  | Some health =>
      if isStateReadyToUpdate (rkc_State cluster) && isTypeReadyToUpdate (rkc_Phase cluster) then None
      else Some (new_err ("ceph cluster " +:+ rookNs +:+ "/" +:+ name +:+ " is not ready to be updated: cluster healthy = " +:+
                          bool_str (bool_decide (health = "HEALTH_OK")) +:+ ", cluster state = '" +:+ rkc_State cluster +:+
                          "', cluster phase = '" +:+ rkc_Phase cluster +:+ "'"))
  end.

Definition statusCluster (name : string) : IO (option err) :=
  let* r := cluster_get name in
  match r with
  | (_, Some _) => ret None
  | (cluster, None) => ret (not_ready_to_update name cluster)
  end.

(** What comes before the CephCluster: its connection data, or the configuration of Ceph.
    [None] is a panic. *)
Definition cluster_resources (c : deployConfig) (clusterSpec : ClusterSpec) (found : option RookCluster) : IO (option (bool * option err)) :=
  let name := cdp_Name (dc_cephDpl c) in
  if csp_External clusterSpec then
    let refs :=
      match found with
      | Some cluster => GetObjectOwnerRef w_gvk_cluster (rkc_Name cluster) (rkc_UID cluster)
      | None => ([], None)
      end in
    match refs with
    | (_, Some e) =>
        let obj := match found with Some cluster => rkc_Namespace cluster +:+ "/" +:+ rkc_Name cluster | None => EmptyString end in
        ret (Some (false, Some (wrap_err ("failed to prepare ownerRefs for CephCluster '" +:+ obj +:+ "' related external resources") e)))
    | (ownerRefs, None) =>
        let* r := addExternalResources rookNs (dc_cephDpl c) ownerRefs in
        match r with
        | None => ret None
        | Some (_, Some e) => ret (Some (false, Some (wrap_err "unable to create external cluster configuration" e)))
        | Some (changed, None) =>
            isCephDeployed rookNs ;;; ret (Some (changed, None))
        end
    end
  else
    let* cephDeployed := isCephDeployed rookNs in
    let* r := ensureCephConfig rookNs params c clusterSpec (bool_decide (is_Some found) && cephDeployed) in
    match r with
    | (_, Some e) => ret (Some (false, Some (wrap_err ("failed to ensure ceph config for " +:+ rookNs +:+ "/" +:+ name +:+ " cephcluster") e)))
    | (changed, None) => ret (Some (changed, None))
    end.

(** A reason to restart all OSDs, remembered in the annotations of the CephCluster. *)
Definition restart_reason (c : deployConfig) : string :=
  match dsp_ExtraOpts (cdp_Spec (dc_cephDpl c)) with Some opts => eo_OsdRestartReason opts | None => EmptyString end.

Definition with_restart (c : deployConfig) (cluster : RookCluster) : IO RookCluster :=
  let reason := restart_reason c in
  let annotations := rkc_Annotations cluster in
  if decide (reason = EmptyString) then ret cluster
  else if decide (value_of annotations cephRestartOsdLabel = reason) then ret cluster
  else
    let* now := GetCurrentTimeString in
    ret (set_rkc_Annotations (<[cephRestartOsdTimestampLabel := now]> (<[cephRestartOsdLabel := reason]> annotations)) cluster).

(** The annotations of the OSDs follow; [None] writes to the nil map. *)
Definition restart_annotations (cluster : RookCluster) (generated : ClusterSpec) : option ClusterSpec :=
  match rkc_Annotations cluster !! cephRestartOsdLabel with
  | None => Some generated
  | Some reason =>
      let annotations := csp_Annotations generated in
      if decide (annotations = ∅) then None
      else
        let osd := default ∅ (annotations !! KeyOSD) in
        let osd := <[cephRestartOsdTimestampLabel := value_of (rkc_Annotations cluster) cephRestartOsdTimestampLabel]>
                     (<[cephRestartOsdLabel := reason]> osd) in
        Some (set_csp_Annotations (<[KeyOSD := osd]> annotations) generated)
  end.

(** The keys of the cluster once all monitors have new ones. *)
Definition rotated_keys (cluster : RookCluster) : option CephxConfig :=
  match rkc_StatusVersion cluster with
  | Some (image, version) =>
      if bool_decide (image = rkc_Image cluster) && bool_decide (rkc_MonKeyVersion cluster = version)
      then Some (rkc_CephX cluster) else None
  | None => None
  end.

Definition create_cluster (c : deployConfig) (generated : ClusterSpec) : IO (bool * option err) :=
  let name := cdp_Name (dc_cephDpl c) in
  let new := mkRookCluster name rookNs EmptyString baseResourceLabels ∅ generated None EmptyString None EmptyString EmptyString in
  let* e := apply_resource objectCreate (RCluster new) in
  match e with
  | Some e => ret (false, Some (wrap_err ("failed to create cephcluster " +:+ rookNs +:+ "/" +:+ name) e))
  | None => ret (true, None)
  end.

(** The CephCluster that is there; the keys it has got (a pointer into its spec, which follows
    a spec that is replaced). *)
Definition update_cluster (c : deployConfig) (cluster : RookCluster) (generated : ClusterSpec) (changed : bool)
    : IO ((bool * option err) * option CephxConfig) :=
  let name := cdp_Name (dc_cephDpl c) in
  let '(labels, labelsUpdated) := AlignBaseLabels (Some (rkc_Labels cluster)) baseResourceLabels in
  let specUpdated := negb (bool_decide (rkc_Spec cluster = generated)) in
  let applied := bool_decide (is_Some (labels !! aes256kApplied)) in
  let keys := if applied then rotated_keys cluster else None in
  if applied && bool_decide (cdp_Labels (dc_cephDpl c) !! aes256kApplied = None) then ret ((false, None), keys)
  else if specUpdated || labelsUpdated || applied then
    let new := set_rkc_Labels (delete aes256kApplied labels) cluster in
    let new := if specUpdated then set_rkc_Spec generated new else new in
    let keys := (λ _, rkc_CephX new) <$> keys in
    let* e := call (EvClusterUpdate new) (λ h, w_rookcluster_update h new) in
    match e with
    | Some e => ret ((false, Some (wrap_err ("failed to update cephcluster " +:+ rookNs +:+ "/" +:+ name) e)), keys)
    | None => ret ((true, None), keys)
    end
  else ret ((changed, None), keys).

(** From the generated spec on; [None] is a panic. *)
Definition write_cluster (c : deployConfig) (found : option RookCluster) (generated : ClusterSpec) (changed : bool)
    : IO (option ((bool * option err) * option CephxConfig)) :=
  match found with
  | None => let* r := create_cluster c generated in ret (Some (r, None))
  | Some cluster =>
      let* cluster := with_restart c cluster in
      match restart_annotations cluster generated with
      | None => ret None
      | Some generated => let* r := update_cluster c cluster generated changed in ret (Some r)
      end
  end.

Definition cluster_found (r : RookCluster * option err) : option RookCluster + err :=
  match r with
  | (cluster, None) => inl (Some cluster)
  | (_, Some e) => if is_not_found e then inl None else inr e
  end.

(** After the CephCluster was looked up. *)
Definition ensure_found (c : deployConfig) (clusterSpec : ClusterSpec) (found : option RookCluster)
    : IO (option ((bool * option err) * option CephxConfig)) :=
  let name := cdp_Name (dc_cephDpl c) in
  let* r := cluster_resources c clusterSpec found in
  match r with
  | None => ret None
  | Some (_, Some e) => ret (Some ((false, Some e), None))
  | Some (changed, None) =>
      let* e := statusCluster name in
      match e with
      | Some e => ret (Some ((false, Some (wrap_err ("failed to ensure cephcluster " +:+ rookNs +:+ "/" +:+ name) e)), None))
      | None =>
          let* stamps := get_stamps in
          write_cluster c found
            (generateCephClusterSpec (ut_cephConfigMap stamps) clusterSpec (dc_currentCephImage c) (dc_nodesListExpanded c)) changed
      end
  end.

Definition ensureCluster (c : deployConfig) : IO (option ((bool * option err) * option CephxConfig)) :=
  let name := cdp_Name (dc_cephDpl c) in
  let* r := cluster_get name in
  match cluster_found r with
  | inr e => ret (Some ((false, Some (wrap_err ("failed to get " +:+ rookNs +:+ "/" +:+ name +:+ " cephcluster") e)), None))
  | inl found =>
      match dc_clusterSpec c with
      | None => ret None
      | Some clusterSpec => ensure_found c clusterSpec found
      end
  end.
End cluster.
