(* ===== verification/ClusterState.v ===== *)
(** * The state of the cluster

    pkg/controller/deployment/cluster_state.go: the prometheus module and the progress events
    of the managers, and CephBlockPools for the pools that Ceph makes itself, so that they get
    a device class.

    The loop over the listed pools works on copies that share the maps of labels. *)

From Stdlib Require Import Ascii QArith.
From S2P Require Import Prelude GoTime Types HealthTypes DeployTypes World HealthWorld Helpers Extensions Validate DeployWorld Resources Pools NodeLabels CephConfig External StoreWorld Cluster.
Open Scope Z_scope.

(** [strings.Trim] of newlines *)
Fixpoint drop_newlines (l : list ascii) : list ascii :=
  match l with
  | a :: l' => if bool_decide (nat_of_ascii a = 10%nat) then drop_newlines l' else l
  | [] => []
  end.
Definition TrimNewlines (s : string) : string :=
  String.string_of_list_ascii (reverse (drop_newlines (reverse (drop_newlines (String.list_ascii_of_string s))))).

Section state.
Context `{World} `{HealthWorld} `{DeployWorld} `{SpecDecoder} `{ResourceWorld} `{ServiceWorld} `{MapRange}.
Variable rookNs : string.

Definition verifyPrometheusEnabled : IO (bool * option err) :=
  let* r := RunAndParseCephToolboxCLI ([], []) json_MgrModules rookNs "ceph mgr module ls -f json" in
  match r with
  | (_, Some e) => ret (false, Some (wrap_err "failed to check mgr modules" e))
  | ((alwaysOn, enabled), None) =>
      if Contains (alwaysOn ++ enabled) "prometheus" then ret (false, None)
      else
        let* r := RunCephToolboxCLI rookNs "ceph mgr module enable prometheus" in
        ret (match r.2 with Some e => (false, Some (wrap_err "failed to enable mgr module 'prometheus'" e)) | None => (true, None) end)
  end.

Definition progress_option : string := "mgr/progress/allow_pg_recovery_event".

Definition verifyProgressEvents (c : deployConfig) : IO (bool * option err) :=
  let enable := match dsp_ExtraOpts (cdp_Spec (dc_cephDpl c)) with Some opts => eo_EnableProgressEvents opts | None => false end in
  let* r := RunCephToolboxCLI rookNs ("ceph config get mgr " +:+ progress_option) in
  match r with
  | (_, Some e) => ret (false, Some (wrap_err "failed to check mgr progress events" e))
  | (stdout, None) =>
      if decide (TrimNewlines stdout = if enable then "false" else "true") then
        let* r := RunCephToolboxCLI rookNs ("ceph config set mgr " +:+ progress_option +:+ " " +:+ (if enable then "true" else "false")) in
        ret (match r.2 with Some e => (false, Some (wrap_err "failed to mgr update progress events state" e)) | None => (true, None) end)
      else ret (false, None)
  end.

(** ** Builtin pools *)

(** The pool the gateways use for their metadata, if there are gateways. *)
Definition rgw_root_spec (storage : CephObjectStorage) : option PoolSpec + err :=
  match cos_Rgws storage with
  | [] => inl None
  | rgw :: _ =>
      let rgwCasted := (CephObjectStore_GetSpec rgw).1 in
      if decide (ost_ZoneName rgwCasted = EmptyString) then inl (Some (ost_MetadataPool rgwCasted))
      else
        match list_find (λ zone, doz_Name zone = ost_ZoneName rgwCasted) (cos_Zones storage) with
        | None => inl (Some zero_PoolSpec)
        | Some (_, zone) =>
            match CephObjectZone_GetSpec zone with
            | (_, Some e) => inr e
            | (zoneCasted, None) => inl (Some (ozs_MetadataPool zoneCasted))
            end
        end
  end.

(** The object for a pool of Ceph with the settings of another one; the code writes those of a
    gateway as JSON, to be decoded again. *)
Definition builtin_pool (name : string) (spec : RawExtension PoolSpec) : BlockPool :=
  let pool := generatePool (mkCephPool name true EmptyString false (mkStorageClassSpec false false "" "" "" "" false) spec) rookNs in
  set_bpo_spec (bpo_SpecName pool) (set_ps_EnableCrushUpdates (Some true) (bpo_Spec pool)) pool.

(** The ratio of the default pool is not taken over. *)
Definition without_ratio (pool : BlockPool) : BlockPool :=
  let spec := bpo_Spec pool in
  if bool_decide (0 < ps_ReplicatedSize spec)%N && (0 <? Qnum (ps_TargetSizeRatio spec)) then
    set_bpo_spec (bpo_SpecName pool) (set_ps_TargetSizeRatio 0%Q spec) pool
  else pool.

(** What is made for a pool of Ceph, if anything. *)
Definition pool_to_process (c : deployConfig) (cephpool : string) : option BlockPool + err :=
  let spec := cdp_Spec (dc_cephDpl c) in
  let pools := default [] (dsp_BlockStorage spec) in
  if negb (Contains builtinCephPools cephpool) || existsb (λ pool, bool_decide (pl_Name pool = cephpool)) pools then inl None
  else if decide (cephpool = ".rgw.root") then
    match rgw_root_spec (default (mkObjectStorage [] [] [] [] [] []) (dsp_ObjectStorage spec)) with
    | inr e => inr e
    | inl poolSpec => inl ((λ poolSpec, builtin_pool cephpool (mkRaw None (Some (Some poolSpec)))) <$> poolSpec)
    end
  else
    inl ((λ '(_, pool), without_ratio (builtin_pool cephpool (pl_PoolSpec pool))) <$>
         list_find (λ pool, scs_Default (pl_StorageClassOpts pool) = true) pools).

Fixpoint pools_to_process (c : deployConfig) (cephPools : list string) : list BlockPool + err :=
  match cephPools with
  | [] => inl []
  | cephpool :: cephPools' =>
      match pool_to_process c cephpool with
      | inr e => inr e
      | inl pool =>
          match pools_to_process c cephPools' with
          | inr e => inr e
          | inl pools => inl (option_list pool ++ pools)
          end
      end
  end.

(** The first listed pool for the same pool of Ceph: the list with its labels, the pool and
    whether it differs. *)
Fixpoint match_pool (new : BlockPool) (items : list BlockPool) : option (list BlockPool * BlockPool * bool) :=
  match items with
  | [] => None
  | present :: items' =>
      if decide (bpo_SpecName present = bpo_SpecName new) then
        let '(updated, differs) := aligned_pool new present in
        let shared := match bpo_Labels present with Some _ => set_bpo_Labels (bpo_Labels updated) present | None => present end in
        Some (shared :: items', updated, differs)
      else (λ '(items', updated, differs), (present :: items', updated, differs)) <$> match_pool new items'
  end.

(** The listed pools, messages, changes. *)
Definition builtin_step (acc : list BlockPool * (list string * bool)) (new : BlockPool) : IO (list BlockPool * (list string * bool)) :=
  let '(items, (errs, changed)) := acc in
  let outcome (what : string) (specName : string) (e : option err) : list string * bool :=
    match e with
    | Some e => (errs ++ [err_msg (wrap_err ("failed to " +:+ what +:+ " '" +:+ specName +:+ "' CephBlockPool override") e)], changed)
    | None => (errs, true)
    end in
  match match_pool new items with
  | Some (items, updated, true) =>
      let* e := processBlockPools objectUpdate updated in ret (items, outcome "update" (bpo_SpecName updated) e)
  | Some (items, _, false) => ret (items, (errs, changed))
  | None => let* e := processBlockPools objectCreate new in ret (items, outcome "create" (bpo_SpecName new) e)
  end.

Definition verifyBuiltinPools (c : deployConfig) : IO (bool * option err) :=
  let* r := RunAndParseCephToolboxCLI [] json_PoolNames rookNs "ceph osd pool ls -f json" in
  match r with
  | (_, Some e) => ret (false, Some (wrap_err "failed to check ceph pools" e))
  | (cephPools, None) =>
      match pools_to_process c cephPools with
      | inr e => ret (false, Some e)
      | inl [] => ret (false, None)
      | inl pools =>
          let* r := read "CephBlockPoolList" rookNs EmptyString (λ h, w_blockpool_list h rookNs) in
          match r with
          | (_, Some e) => ret (false, Some (wrap_err ("failed to list CephBlockPools in '" +:+ rookNs +:+ "' namespace") e))
          | (items, None) =>
              let* acc := foldM builtin_step pools (items, ([], false)) in
              ret (match acc.2 with
                   | ([], changed) => (changed, None)
                   | (errs, _) => (false, Some (new_err (Join errs "; ")))
                   end)
          end
      end
  end.

Definition ensureClusterState (c : deployConfig) : IO (bool * option err) :=
  let* deployed := isCephDeployed rookNs in
  if (deployed : bool) then
    let* r := verifyPrometheusEnabled in
    match r with
    | (_, Some e) => ret (false, Some (wrap_err "failed to verify mgr modules 'prometheus' enabled" e))
    | (prometheusChanged, None) =>
        let* r := verifyProgressEvents c in
        match r with
        | (_, Some e) => ret (false, Some (wrap_err "failed to verify mgr progress events state" e))
        | (eventsChanged, None) =>
            let* r := verifyBuiltinPools c in
            ret (match r with
                 | (_, Some e) => (false, Some (wrap_err "failed to verify builtin pools have corresponding CephBlockPools" e))
                 | (poolsChanged, None) => (prometheusChanged || eventsChanged || poolsChanged, None)
                 end)
        end
    end
  else ret (true, None).
End state.
