(* ===== verification/Infra.v ===== *)
(** * The infra controller

    pkg/controller/infra: controller.go, infra_types.go, operator.go, disk_daemon.go and
    tools-box.go.  Beside a CephDeploymentHealth it keeps the toolbox, in which the commands of
    Ceph are run, and the daemon set of the disk daemon, and it stops the operator of Rook while
    OSDs are removed or a maintenance is going on.

    Of a Deployment or a DaemonSet the model has the fields the controller sets; others, which
    it compares and keeps, are given by their text.  Whether they are ready is only logged. *)

From Stdlib Require Import Ascii.
From S2P Require Import Prelude GoTime Types HealthTypes DeployTypes World HealthWorld TaskUtils Controller Config Trace DeployWorld Resources CleanupJob CephConfig External StoreWorld.
Open Scope Z_scope.

Class InfraWorld := {
  (** a Deployment or a DaemonSet *)
  w_workload_get : history → string → string → string → Workload * option err;
  (** [labels.ConvertSelectorToLabelsMap], empty for what is no set of labels *)
  ConvertSelectorToLabelsMap : string → gmap string string;
}.

Definition infra_ControllerName : string := "pelagia-infra-controller".
Definition infra_labels : gmap string string :=
  {["app.kubernetes.io/part-of" := "ceph.pelagia.lcm"; "app.kubernetes.io/created-by" := infra_ControllerName;
    "app.kubernetes.io/managed-by" := infra_ControllerName]}.

Definition controllerImageVar : string := "CONTROLLER_IMAGE".
Definition infraRequeueAfterInterval : Z := 30 * second.
Definition revisionHistoryLimit : Z := 5.
Definition rootUserID : Z := 0.
Definition rookUserID : Z := 2016.

Record infraConfig := mkInfraConfig {
  inf_name : string;
  inf_namespace : string;
  inf_lcmOwnerRefs : list OwnerReference;
  inf_cephOwnerRefs : list OwnerReference;
  inf_externalCeph : bool;
  inf_osdTolerations : list toleration;
  inf_cephImage : string;
  inf_controllerImage : string;
}.

(** ** The script of the toolbox *)

Definition dquote : string := String (ascii_of_nat 34) EmptyString.

Definition toolBoxScript : string := Join
  ["#!/bin/bash -e";
   "# Replicate the script from toolbox.sh inline so the ceph image";
   "# can be run directly, instead of requiring the rook toolbox";
   "ENDPOINT_MOUNT=" +:+ dquote +:+ "/etc/rook/mon-endpoints" +:+ dquote;
   "KEYRING_MOUNT=" +:+ dquote +:+ "/var/lib/rook-ceph-mon/secret.keyring" +:+ dquote;
   "CONFIG_OVERRIDE_MOUNT=" +:+ dquote +:+ "/etc/rook-config-override/config" +:+ dquote;
   EmptyString;
   "# outputs";
   "CEPH_CONFIG=" +:+ dquote +:+ "/etc/ceph/ceph.conf" +:+ dquote;
   "KEYRING_FILE=" +:+ dquote +:+ "/etc/ceph/keyring" +:+ dquote;
   EmptyString;
   "config_override_exists() {";
   "  [ -f " +:+ dquote +:+ "${CONFIG_OVERRIDE_MOUNT}" +:+ dquote +:+ " ] && [ -s " +:+ dquote +:+ "${CONFIG_OVERRIDE_MOUNT}" +:+ dquote +:+ " ]";
   "}";
   EmptyString;
   "# create/update the ceph keyring file";
   "write_keyring() {";
   "  DATE=$(date)";
   EmptyString;
   "  # read the secret from an env var (for backward compatibility), or from the secret file";
   "  ceph_secret=${ROOK_CEPH_SECRET}";
   "  if [[ " +:+ dquote +:+ "$ceph_secret" +:+ dquote +:+ " == " +:+ dquote +:+ dquote +:+ " ]]; then";
   "    ceph_secret=$(cat ${KEYRING_MOUNT})";
   "  fi";
   EmptyString;
   "  echo " +:+ dquote +:+ "$DATE writing keyring to ${KEYRING_FILE}" +:+ dquote;
   "  cat <<EOF > ${KEYRING_FILE}";
   "[${ROOK_CEPH_USERNAME}]";
   "key = ${ceph_secret}";
   "EOF";
   EmptyString;
   "} # write_keyring()";
   EmptyString;
   "# create/update the ceph config file in its default location so ceph/rados tools can be used";
   "# without specifying any arguments";
   "write_conf() {";
   "  DATE=$(date)";
   EmptyString;
   "  # filter out the mon names";
   "  # external cluster can have numbers or hyphens in mon names, handling them in regex";
   "  # shellcheck disable=SC2001";
   "  mon_endpoints=$(cat ${ENDPOINT_MOUNT}| sed 's/[a-z0-9_-]\+=//g')";
   EmptyString;
   "  config_override=" +:+ dquote +:+ dquote;
   "  if config_override_exists; then";
   "    echo " +:+ dquote +:+ "$DATE merging config override from ${CONFIG_OVERRIDE_MOUNT}" +:+ dquote;
   "    config_override=$(cat " +:+ dquote +:+ "${CONFIG_OVERRIDE_MOUNT}" +:+ dquote +:+ ")";
   "  fi";
   EmptyString;
   "  echo " +:+ dquote +:+ "$DATE writing mon endpoints to ${CEPH_CONFIG}: ${mon_endpoints}" +:+ dquote;
   "  cat << EOF > ${CEPH_CONFIG}";
   "[global]";
   "mon_host = ${mon_endpoints}";
   EmptyString;
   "[client.admin]";
   "keyring = ${KEYRING_FILE}";
   EmptyString;
   "${config_override}";
   "EOF";
   EmptyString;
   "} # write_conf()";
   EmptyString;
   "# watch the ceph config directory and update if the mon endpoints or keyring change";
   "watch_etc_ceph() {";
   "  # get the timestamp for the targets of the soft links";
   "  keyring_mount_path=$(realpath " +:+ dquote +:+ "${KEYRING_MOUNT}" +:+ dquote +:+ ")";
   "  keyring_init_time=$(stat -c %Z " +:+ dquote +:+ "${keyring_mount_path}" +:+ dquote +:+ ")";
   EmptyString;
   "  endpoint_mount_path=$(realpath " +:+ dquote +:+ "${ENDPOINT_MOUNT}" +:+ dquote +:+ ")";
   "  endpoint_init_time=$(stat -c %Z " +:+ dquote +:+ "${endpoint_mount_path}" +:+ dquote +:+ ")";
   EmptyString;
   "  override_mount_path=" +:+ dquote +:+ dquote;
   "  override_init_time=" +:+ dquote +:+ dquote;
   "  if config_override_exists; then";
   "    override_mount_path=$(realpath " +:+ dquote +:+ "${CONFIG_OVERRIDE_MOUNT}" +:+ dquote +:+ ")";
   "    override_init_time=$(stat -c %Z " +:+ dquote +:+ "${override_mount_path}" +:+ dquote +:+ ")";
   "  fi";
   EmptyString;
   "  while true; do";
   "    sleep 10";
   "    DATE=$(date)";
   EmptyString;
   "    # keyring file";
   "    keyring_mount_path=$(realpath " +:+ dquote +:+ "${KEYRING_MOUNT}" +:+ dquote +:+ ")";
   "    keyring_latest_time=" +:+ dquote +:+ "$(stat -c %Z " +:+ dquote +:+ "${keyring_mount_path}" +:+ dquote +:+ ")" +:+ dquote;
   EmptyString;
   "    if [ " +:+ dquote +:+ "${keyring_latest_time}" +:+ dquote +:+ " != " +:+ dquote +:+ "${keyring_init_time}" +:+ dquote +:+ " ]; then";
   "      echo " +:+ dquote +:+ "$DATE keyring changed" +:+ dquote;
   "      write_keyring";
   "      keyring_init_time=" +:+ dquote +:+ "${keyring_latest_time}" +:+ dquote;
   "    fi";
   EmptyString;
   "    # ceph.conf file / config override";
   "    endpoint_mount_path=$(realpath " +:+ dquote +:+ "${ENDPOINT_MOUNT}" +:+ dquote +:+ ")";
   "    endpoint_latest_time=$(stat -c %Z " +:+ dquote +:+ "${endpoint_mount_path}" +:+ dquote +:+ ")";
   EmptyString;
   "    override_mount_path=" +:+ dquote +:+ dquote;
   "    override_latest_time=" +:+ dquote +:+ dquote;
   "    if config_override_exists; then";
   "      override_mount_path=$(realpath " +:+ dquote +:+ "${CONFIG_OVERRIDE_MOUNT}" +:+ dquote +:+ ")";
   "      override_latest_time=$(stat -c %Z " +:+ dquote +:+ "${override_mount_path}" +:+ dquote +:+ ")";
   "    fi";
   EmptyString;
   "    need_conf_update=false";
   EmptyString;
   "    if [ " +:+ dquote +:+ "${endpoint_latest_time}" +:+ dquote +:+ " != " +:+ dquote +:+ "${endpoint_init_time}" +:+ dquote +:+ " ]; then";
   "      echo " +:+ dquote +:+ "$DATE mon endpoints changed" +:+ dquote;
   "      need_conf_update=true";
   "    fi";
   EmptyString;
   "    if [ " +:+ dquote +:+ "${override_latest_time}" +:+ dquote +:+ " != " +:+ dquote +:+ "${override_init_time}" +:+ dquote +:+ " ]; then";
   "      echo " +:+ dquote +:+ "$DATE config override changed" +:+ dquote;
   "      need_conf_update=true";
   "    fi";
   EmptyString;
   "    if $need_conf_update; then";
   "      write_conf";
   "      endpoint_init_time=" +:+ dquote +:+ "${endpoint_latest_time}" +:+ dquote;
   "      override_init_time=" +:+ dquote +:+ "${override_latest_time}" +:+ dquote;
   "    fi";
   "  done";
   "}";
   EmptyString;
   "# write the initial config files";
   "write_keyring";
   "write_conf";
   EmptyString;
   "# continuously update the config files for mon failover and/or cephx key rotation";
   "if [ " +:+ dquote +:+ "$1" +:+ dquote +:+ " != " +:+ dquote +:+ "--skip-watch" +:+ dquote +:+ " ]; then";
   "  watch_etc_ceph";
   "fi";
   EmptyString] newline.

(** ** Labels and owners *)

(** Labels that have another value are left; when there are none, the new ones alone are no
    reason to write the object. *)
Definition checkLabelsAndOwnerRefs (cur expected : Workload) : Workload * bool :=
  let '(cur, updated) :=
    if decide (wkl_Labels cur = wkl_Labels expected) then (cur, false)
    else
      match wkl_Labels cur with
      | None => (set_wkl_Labels (wkl_Labels expected) cur, false)
      | Some labels =>
          let wanted := default ∅ (wkl_Labels expected) in
          (set_wkl_Labels (Some (labels ∪ wanted)) cur, negb (bool_decide (dom wanted ⊆ dom labels)))
      end in
  if decide (wkl_OwnerReferences cur = wkl_OwnerReferences expected) then (cur, updated)
  else (set_wkl_OwnerReferences (wkl_OwnerReferences expected) cur, true).

Definition workload_labels (name : string) : gmap string string := ExtendLabels {["app" := name]} infra_labels.

Definition with_mount (mount : VolumeMount) (container : Container) : Container :=
  set_ctr_VolumeMounts (ctr_VolumeMounts container ++ [mount]) container.
Definition with_volume (name : string) (source : volume_source) (pod : PodSpec) : PodSpec :=
  set_pod_Volumes (pod_Volumes pod ++ [(name, source)]) pod.

Section infra.
Context `{World} `{HealthWorld} `{DeployWorld} `{ResourceWorld} `{StoreWorld} `{InfraWorld} `{MapRange}.
Variables (rookNs : string) (common : CommonParams).

(** A Deployment or DaemonSet that should be there. *)
Definition ensure_workload (kind what ns name : string) (adapt : Workload → Workload) (new : Workload) : IO (option err) :=
  let at_name := "'" +:+ ns +:+ "/" +:+ name +:+ "'" in
  let* r := read kind ns name (λ h, w_workload_get h kind ns name) in
  match r with
  | (_, Some e) =>
      if is_not_found e then
        let* e := apply_resource objectCreate (RWorkload kind new) in
        ret (wrap_err ("failed to create " +:+ what +:+ " " +:+ at_name) <$> e)
      else ret (Some (wrap_err ("failed to check " +:+ what +:+ " " +:+ at_name) e))
  | (cur, None) =>
      let new := set_wkl_Spec (wkl_Spec (adapt cur)) new in
      let '(cur, updated) :=
        if decide (wkl_Spec cur = wkl_Spec new) then checkLabelsAndOwnerRefs cur new else (cur, true) in
      if (updated : bool) then
        let* e := apply_resource objectUpdate (RWorkload kind (set_wkl_Spec (wkl_Spec new) cur)) in
        ret (wrap_err ("failed to update " +:+ what +:+ " " +:+ at_name) <$> e)
      else ret None
  end.

(** ** The disk daemon *)

Definition diskDaemonGoPath : string := "/usr/local/bin".
Definition daemon_binary : string := diskDaemonGoPath +:+ "/" +:+ PelagiaDiskDaemon.

Definition daemon_args : list string :=
  [daemon_binary; "--daemon"; "--port"; pretty (cp_DiskDaemonPort common)] ++ (if cp_LcmFullMode common then [] else ["--no-raw"]).

Definition api_check (initialDelay : Z) : ExecProbe :=
  mkExecProbe [daemon_binary; "--api-check"; "--port"; pretty (cp_DiskDaemonPort common)] initialDelay 10 1 1 3.

Definition bin_downloader (c : infraConfig) : Container :=
  mkContainer "bin-downloader" (inf_controllerImage c) ["cp"] [daemon_binary; diskDaemonGoPath +:+ "/tini"; "/tmp/bin/"]
    (Some (mkSecurityContext ["ALL"] None None None None None)) [mkVolumeMount "pelagia-disk-daemon-bin" "/tmp/bin" false] [] None None
    "/dev/termination-log" "File" "IfNotPresent" EmptyString.

Definition daemon_container (c : infraConfig) : Container :=
  mkContainer PelagiaDiskDaemon (inf_cephImage c) [diskDaemonGoPath +:+ "/tini"; "--"] daemon_args
    (Some (mkSecurityContext ["ALL"] (Some true) (Some rootUserID) None None None))
    [mkVolumeMount "pelagia-disk-daemon-bin" diskDaemonGoPath false; mkVolumeMount "devices" "/dev" true; mkVolumeMount "run-udev" "/run/udev" true]
    [mkEnvVar "DM_DISABLE_UDEV" "0" None; mkEnvVar "NODE_NAME" EmptyString (Some (EnvField "v1" "spec.nodeName"))]
    (Some (api_check 5)) (Some (api_check 0)) "/dev/termination-log" "File" "IfNotPresent" EmptyString.

Definition generateDiskDaemon (c : infraConfig) : Workload :=
  mkWorkload PelagiaDiskDaemon (inf_namespace c) (Some (workload_labels PelagiaDiskDaemon)) (inf_lcmOwnerRefs c)
    (mkWorkloadSpec {["app" := PelagiaDiskDaemon]} None (Some revisionHistoryLimit) 5 None "RollingUpdate maxUnavailable=30% maxSurge=0"
       {["app" := PelagiaDiskDaemon]} ∅
       (mkPodSpec "ClusterFirstWithHostNet" EmptyString EmptyString (Some (rootUserID, rootUserID)) "Always" (Some 10)
          [bin_downloader c] [daemon_container c] (ConvertSelectorToLabelsMap (cp_DiskDaemonPlacementLabel common))
          [("pelagia-disk-daemon-bin", EmptyDirVolume); ("devices", HostPathVolume "/dev" "Directory"); ("run-udev", HostPathVolume "/run/udev" "Directory")]
          (inf_osdTolerations c) EmptyString EmptyString) EmptyString).

(** The name of the scheduler is the one that is there. *)
Definition with_scheduler (new cur : Workload) : Workload :=
  let spec := wkl_Spec new in
  set_wkl_Spec (set_wls_Pod (set_pod_SchedulerName (pod_SchedulerName (wls_Pod (wkl_Spec cur))) (wls_Pod spec)) spec) new.

Definition ensureDiskDaemon (c : infraConfig) : IO (option err) :=
  if inf_externalCeph c || bool_decide (inf_cephImage c = EmptyString) then ret None
  else
    let new := generateDiskDaemon c in
    ensure_workload "DaemonSet" "disk-daemon daemonset" (inf_namespace c) PelagiaDiskDaemon (with_scheduler new) new.

(** ** The toolbox *)

Definition rook_image (rookDeployment : Workload) : string :=
  default EmptyString (ctr_Image ∘ snd <$> list_find (λ container, ctr_Name container = "rook-ceph-operator") (pod_Containers (wls_Pod (wkl_Spec rookDeployment)))).

Definition rook_security (privileged : option bool) : SecurityContext :=
  mkSecurityContext ["ALL"] privileged (Some rookUserID) (Some rookUserID) (Some true) (Some false).

Definition toolbox_container (c : infraConfig) (imageName : string) : Container :=
  mkContainer PelagiaToolBox imageName ["/bin/bash"; "-c"] [toolBoxScript] (Some (rook_security None))
    [mkVolumeMount "ceph-config" "/etc/ceph" false; mkVolumeMount "mon-endpoint" "/etc/rook" false;
     mkVolumeMount "ceph-admin-secret" "/var/lib/rook-ceph-mon" true]
    (mkEnvVar "ROOK_CEPH_USERNAME" EmptyString (Some (EnvSecretKey RookCephMonSecretName "ceph-username")) ::
     if inf_externalCeph c then [mkEnvVar "CEPH_ARGS" EmptyString (Some (EnvSecretKey RookCephMonSecretName "ceph-args"))] else [])
    None None "/dev/termination-log" "File" "IfNotPresent" EmptyString.

Definition toolbox_volumes : list (string * volume_source) :=
  [("ceph-admin-secret", SecretVolume RookCephMonSecretName (Some 420) [mkKeyToPath "ceph-secret" "secret.keyring" None]);
   ("mon-endpoint", ConfigMapVolume "rook-ceph-mon-endpoints" (Some 420) [mkKeyToPath "data" "mon-endpoints" None]);
   ("ceph-config", EmptyDirVolume)].

(** The pod is that of the operator, with other containers and volumes and without accounts. *)
Definition toolbox_base (c : infraConfig) (rookDeployment : Workload) : Workload :=
  let rook := wkl_Spec rookDeployment in
  let pod := set_pod_DNSPolicy "ClusterFirstWithHostNet" (set_pod_DeprecatedServiceAccount EmptyString (set_pod_ServiceAccountName EmptyString
               (set_pod_InitContainers [] (set_pod_Containers [toolbox_container c (rook_image rookDeployment)]
                  (set_pod_Volumes toolbox_volumes (wls_Pod rook)))))) in
  mkWorkload PelagiaToolBox rookNs (Some (workload_labels PelagiaToolBox)) (inf_cephOwnerRefs c)
    (mkWorkloadSpec {["app" := PelagiaToolBox]} (Some 1) (Some revisionHistoryLimit) 0 (Some 60) (wls_Strategy rook)
       {["app" := PelagiaToolBox]} ∅ pod EmptyString).

(** The bundles of the stores: the secrets and the annotations with their hashes. *)
Fixpoint store_bundles (stores : list RookStore) (acc : list string * gmap string string) : IO ((list string * gmap string string) + err) :=
  match stores with
  | [] => ret (inl acc)
  | store :: stores' =>
      let ref := ost_CaBundleRef (rst_Spec store) in
      if decide (ref = EmptyString) then store_bundles stores' acc
      else
        let* r := data_get "Secret" rookNs ref in
        match r with
        | (_, Some e) =>
            ret (inr (wrap_err ("failed to get secret '" +:+ rookNs +:+ "/" +:+ ref +:+ "' with cabundle for CephObjectStore '" +:+
                                rst_Namespace store +:+ "/" +:+ rst_Name store +:+ "'") e))
        | (secret, None) =>
            let keyName := ref +:+ "/sha256" in
            store_bundles stores'
              (if decide (is_Some (acc.2 !! keyName)) then acc
               else (acc.1 ++ [ref], <[keyName := GetStringSha256 (value_of (dob_Data secret) "cabundle")]> acc.2))
        end
  end.

Definition bundle_item (secret : string) : list KeyToPath := [mkKeyToPath "cabundle" (secret +:+ ".crt") (Some 256)].

(** The trusted certificates are made anew from the bundles before the toolbox starts. *)
Definition with_bundles (imageName : string) (secrets : list string) (pod : PodSpec) : PodSpec :=
  match secrets with
  | [] => pod
  | secret :: others =>
      let update := mkContainer "cabundle-update" imageName ["/bin/bash"; "-c"] ["/usr/bin/update-ca-trust extract -o /tmp/new-ca-bundle/"]
                      (Some (rook_security (Some false)))
                      [mkVolumeMount "cabundle-secret" "/etc/pki/ca-trust/source/anchors/" true; mkVolumeMount "cabundle-updated" "/tmp/new-ca-bundle/" false]
                      [] None None "/dev/termination-log" "File" "IfNotPresent" EmptyString in
      let source := match others with
                    | [] => SecretVolume secret (Some 420) (bundle_item secret)
                    | _ => ProjectedSecrets ((λ secret, (secret, bundle_item secret)) <$> secrets)
                    end in
      let pod := set_pod_InitContainers [update] pod in
      let pod := set_pod_Containers (with_mount (mkVolumeMount "cabundle-updated" "/etc/pki/ca-trust/extracted/" true) <$> pod_Containers pod) pod in
      with_volume "cabundle-secret" source (with_volume "cabundle-updated" EmptyDirVolume pod)
  end.

Definition generateToolBox (c : infraConfig) : IO (Workload + err) :=
  let* r := read "Deployment" rookNs RookCephOperatorName (λ h, w_workload_get h "Deployment" rookNs RookCephOperatorName) in
  match r with
  | (_, Some e) => ret (inr (wrap_err ("failed to check '" +:+ rookNs +:+ "/" +:+ RookCephOperatorName +:+ "' deployment") e))
  | (rookDeployment, None) =>
      let* r := read "CephObjectStoreList" rookNs EmptyString (λ h, w_store_list h rookNs) in
      match r with
      | (_, Some e) => ret (inr (wrap_err "failed to check cephobjectstores" e))
      | (stores, None) =>
          let toolBox := toolbox_base c rookDeployment in
          if bool_decide (stores = []) || inf_externalCeph c then ret (inl toolBox)
          else
            let* r := store_bundles stores ([], ∅) in
            ret (match r with
                 | inr e => inr e
                 | inl (secrets, annotations) =>
                     let spec := set_wls_PodAnnotations annotations (wkl_Spec toolBox) in
                     inl (set_wkl_Spec (set_wls_Pod (with_bundles (rook_image rookDeployment) secrets (wls_Pod spec)) spec) toolBox)
                 end)
      end
  end.

Definition ensureToolBox (c : infraConfig) : IO (option err) :=
  let* r := generateToolBox c in
  match r with
  | inr e => ret (Some (wrap_err ("failed to generate toolbox deployment '" +:+ rookNs +:+ "/" +:+ PelagiaToolBox +:+ "'") e))
  | inl new => ensure_workload "Deployment" "toolbox deployment" rookNs PelagiaToolBox (λ _, new) new
  end.

(** ** The operator of Rook *)

(** A task for which the operator must not run. *)
Definition stops_operator (task : CephOsdRemoveTask) : bool :=
  match task_Status task with
  | None => false
  | Some status =>
      match st_Phase status with
      | TaskPhaseWaitingOperator | TaskPhaseProcessing => true
      | TaskPhaseFailed => negb (match task_Spec task with Some spec => ts_Resolved spec | None => false end)
      | _ => false
      end
  end.

Definition scale_operator (current desired : Z) : IO (option err) :=
  if decide (current = desired) then ret None
  else
    let* e := ScaleDeployment RookCephOperatorName rookNs desired in
    ret (wrap_err ("failed to scale rook operator '" +:+ rookNs +:+ "/" +:+ RookCephOperatorName +:+ "'") <$> e).

Definition checkRookOperatorReplicas (c : infraConfig) : IO (option err) :=
  let* r := read "Deployment" rookNs RookCephOperatorName (λ h, w_deployment_object h rookNs RookCephOperatorName) in
  match r with
  | (_, Some e) => ret (Some (wrap_err ("failed to check replicas for rook operator '" +:+ rookNs +:+ "/" +:+ RookCephOperatorName +:+ "'") e))
  | (rookOperator, None) =>
      let current := default 1 (dpl_SpecReplicas rookOperator) in
      let* r := IsClusterMaintenanceActing (inf_namespace c) (inf_name c) in
      match r with
      | (_, Some e) => ret (Some (wrap_err "failed to check CephDeploymentMaintenance state" e))
      | (true, None) => scale_operator current 0
      | (false, None) =>
          if inf_externalCeph c then scale_operator current 1
          else
            let* r := call (EvTaskList (inf_namespace c)) (λ h, w_task_list h (inf_namespace c)) in
            match r with
            | (_, Some e) => ret (Some (wrap_err "failed to check CephOsdRemoveTasks" e))
            | (tasks, None) => scale_operator current (if existsb stops_operator tasks then 0 else 1)
            end
      end
  end.
End infra.

(** ** A round *)

(** [cephHealthPredicate]: creations and deletions. *)
Inductive health_event := HealthCreated | HealthUpdated | HealthDeleted | HealthGeneric.
Definition cephHealthPredicate (e : health_event) : bool := match e with HealthCreated | HealthDeleted => true | _ => false end.

Section round.
Context `{World} `{HealthWorld} `{DeployWorld} `{ResourceWorld} `{StoreWorld} `{InfraWorld} `{MapRange}.
Variable lcmConfig : LcmConfig.
Let rookNs : string := lc_RookNamespace lcmConfig.

Definition infra_config (r : request) (lcmOwnerRefs cephOwnerRefs : list OwnerReference) (controllerImage : string) (cluster : RookCluster) : infraConfig :=
  let spec := rkc_Spec cluster in
  mkInfraConfig (req_Name r) (req_Namespace r) lcmOwnerRefs cephOwnerRefs (csp_External spec)
    (if csp_External spec then [] else default [] (plc_Tolerations <$> csp_Placement spec !! "osd"))
    (default EmptyString (fst <$> rkc_StatusVersion cluster)) controllerImage.

Definition infra_steps (c : infraConfig) : IO reconcile_result :=
  ensureToolBox rookNs c ;;; ensureDiskDaemon (lc_CommonParams lcmConfig) c ;;; checkRookOperatorReplicas rookNs c ;;;
  ret (mkResult infraRequeueAfterInterval None).

Definition infra_Reconcile (r : request) : IO reconcile_result :=
  let again := mkResult infraRequeueAfterInterval None in
  let* g := read "CephDeploymentHealth" (req_Namespace r) (req_Name r) (λ h, w_health_get h (req_Namespace r) (req_Name r)) in
  match g with
  | (_, Some e) => ret (if is_not_found e then mkResult 0 None else mkResult infraRequeueAfterInterval (Some e))
  | (health, None) =>
      match GetObjectOwnerRef w_gvk_health (chd_Name health) (chd_UID health) with
      | (_, Some _) => ret again
      | (lcmOwnerRefs, None) =>
          match w_env controllerImageVar with
          | None | Some "" => ret again
          | Some controllerImage =>
              let* g := call (EvClusterGet rookNs (req_Name r)) (λ h, w_rookcluster_get h rookNs (req_Name r)) in
              match g with
              | (_, Some _) => ret again
              | (cluster, None) =>
                  match GetObjectOwnerRef w_gvk_cluster (rkc_Name cluster) (rkc_UID cluster) with
                  | (_, Some _) => ret again
                  | (cephOwnerRefs, None) => infra_steps (infra_config r lcmOwnerRefs cephOwnerRefs controllerImage cluster)
                  end
              end
          end
      end
  end.
End round.

(** ** The operator runs exactly when it may *)

#[global] Instance MaintenanceState_eq_dec : EqDecision MaintenanceState.
Proof. solve_decision. Defined.

(** A removal that needs the operator to be stopped: it waits for that, is processed, or has
    failed and nobody has marked it as resolved. *)
Definition needs_stop (task : CephOsdRemoveTask) : Prop :=
  ∃ status, task_Status task = Some status ∧
    (st_Phase status ∈ [TaskPhaseWaitingOperator; TaskPhaseProcessing] ∨
     st_Phase status = TaskPhaseFailed ∧ ∀ spec, task_Spec task = Some spec → ts_Resolved spec = false).

Lemma stops_operator_spec task : stops_operator task = true ↔ needs_stop task.
Proof.
  unfold stops_operator, needs_stop. split.
  - destruct (task_Status task) as [status|]; [|done]. intros Hs. exists status. split; [done|].
    destruct (st_Phase status); try done; first [left; mem|right]. split; [done|]. intros spec Hspec. rewrite Hspec in Hs.
    by apply negb_true_iff in Hs.
  - intros (status & -> & [Hp|[-> Hr]]); [by mem_inv Hp; rewrite Hp|].
    destruct (task_Spec task) as [spec|]; [|done]. by rewrite (Hr spec eq_refl).
Qed.

Lemma any_needs_stop tasks : existsb stops_operator tasks = true ↔ ∃ task, task ∈ tasks ∧ needs_stop task.
Proof.
  rewrite existsb_exists. split; intros (task & Hin & Hs); exists task; [apply list_elem_of_In in Hin|apply list_elem_of_In in Hin];
    (split; [done|by apply stops_operator_spec]).
Qed.

Abbreviation no_scaling m := (spec (λ e, match e with EvDeployScale _ _ _ => False | _ => True end) m (λ _, True)).

Section operator.
Context `{World} `{HealthWorld} `{DeployWorld} `{ResourceWorld} `{StoreWorld} `{InfraWorld} `{MapRange}.
Variables (rookNs ns name : string) (h0 : history).

Definition operator_read := asked h0 (EvRead "Deployment" rookNs RookCephOperatorName) (λ h, w_deployment_object h rookNs RookCephOperatorName).
Definition maintenance_read := asked h0 (EvRead "CephDeploymentMaintenance" ns name) (λ h, w_maintenance_get h ns name).
Definition tasks_read := asked h0 (EvTaskList ns) (λ h, w_task_list h ns).

Lemma reads_lasting : (∀ a, lasting (operator_read a)) ∧ (∀ a, lasting (maintenance_read a)) ∧ (∀ a, lasting (tasks_read a)).
Proof. split_and!; intros a; apply asked_lasting. Qed.

(** The number of operators that maintenance and tasks ask for, as they were read. *)
Definition asked_for (external : bool) (n : Z) (h : history) : Prop :=
  ∃ state, maintenance_read (state, None) h ∧
    (n = 0 ∧ (state ∈ [MaintenanceActing; MaintenanceFailing] ∨
              external = false ∧ ∃ tasks task, tasks_read (tasks, None) h ∧ task ∈ tasks ∧ needs_stop task) ∨
     n = 1 ∧ state ∉ [MaintenanceActing; MaintenanceFailing] ∧
       (external = true ∨ ∃ tasks, tasks_read (tasks, None) h ∧ ∀ task, task ∈ tasks → ¬ needs_stop task)).

Lemma asked_for_lasting external n : lasting (asked_for external n).
Proof.
  apply exists_lasting. intros state. apply and_lasting; [apply asked_lasting|].
  apply or_lasting; (apply and_lasting; [apply pure_lasting|]).
  - apply or_lasting; [apply pure_lasting|]. apply and_lasting; [apply pure_lasting|].
    do 2 (apply exists_lasting; intros ?). apply and_lasting; [apply asked_lasting|apply pure_lasting].
  - apply and_lasting; [apply pure_lasting|]. apply or_lasting; [apply pure_lasting|].
    apply exists_lasting. intros tasks. apply and_lasting; [apply asked_lasting|apply pure_lasting].
Qed.

(** What is allowed after [h]: of all deployments only the operator is scaled, and to another
    number than it has, the one that is asked for. *)
Definition scaling_ok (external : bool) (h : history) (e : event) : Prop :=
  match e with
  | EvDeployScale ns' name' n =>
      ns' = rookNs ∧ name' = RookCephOperatorName ∧ asked_for external n h ∧
      ∃ operator, operator_read (operator, None) h ∧ default 1 (dpl_SpecReplicas operator) ≠ n
  | _ => True
  end.

(** The operator has the number that is asked for, or was given it. *)
Definition operator_right (external : bool) (h : history) : Prop :=
  ∃ n operator, asked_for external n h ∧ operator_read (operator, None) h ∧
    (default 1 (dpl_SpecReplicas operator) = n ∨
     asked h0 (EvDeployScale rookNs RookCephOperatorName n) (λ h, w_deploy_scale h rookNs RookCephOperatorName n) None h).

Abbreviation since := (λ h : history, h0 `prefix_of` h).

Lemma scale_traced external operator n :
  traced (scaling_ok external) (λ h, asked_for external n h ∧ operator_read (operator, None) h ∧ h0 `prefix_of` h)
    (scale_operator rookNs (default 1 (dpl_SpecReplicas operator)) n) (λ e h, e = None → operator_right external h).
Proof.
  unfold scale_operator. destruct (decide _) as [Heq|Hne].
  { apply traced_ret. intros h (Ha & Ho & _) _. exists n, operator. auto. }
  set (Pre := λ h, asked_for external n h ∧ operator_read (operator, None) h ∧ h0 `prefix_of` h).
  assert (Hl : lasting Pre) by (apply and_lasting; [apply asked_for_lasting|apply and_lasting; [apply asked_lasting|apply prefix_lasting]]).
  eapply traced_bind; [apply (traced_ask _ Pre h0); [done|by intros h (_ & _ & Hh)|]|].
  - intros h (Ha & Ho & _). split_and!; [done|done|done|]. by exists operator.
  - intros [e|]; apply traced_ret; [done|]. intros h (Hs & Ha & Ho & _) _. exists n, operator. auto.
Qed.

Lemma maintenance_asked external (Pre : history → Prop) :
  lasting Pre → (∀ h, Pre h → h0 `prefix_of` h) →
  traced (scaling_ok external) Pre (IsClusterMaintenanceActing ns name) (λ r h,
    (∀ b, r = (b, None) → ∃ state, maintenance_read (state, None) h ∧ b = bool_decide (state ∈ [MaintenanceActing; MaintenanceFailing])) ∧ Pre h).
Proof.
  intros Hl Hp. unfold IsClusterMaintenanceActing. eapply traced_bind; [by apply (traced_ask _ _ h0)|].
  intros [[] [e|]]; apply traced_ret; intros h [Hm Hh]; (split; [|done]); intros b [= <-];
    (eexists; split; [exact Hm|by vm_compute]).
Qed.

Lemma check_traced c :
  inf_namespace c = ns → inf_name c = name →
  traced (scaling_ok (inf_externalCeph c)) since (checkRookOperatorReplicas rookNs c) (λ e h, e = None → operator_right (inf_externalCeph c) h).
Proof.
  intros Hns Hname. unfold checkRookOperatorReplicas. rewrite Hns, Hname.
  eapply traced_bind; [apply (traced_ask _ _ h0); [apply prefix_lasting|done|done]|]. intros [operator [e|]]; [by apply traced_ret|].
  set (Pre := λ h, operator_read (operator, None) h ∧ h0 `prefix_of` h).
  assert (Hl : lasting Pre) by (apply and_lasting; [apply asked_lasting|apply prefix_lasting]).
  eapply traced_bind; [apply (maintenance_asked _ Pre); [done|by intros h []]|]. intros [acting [e|]]; [destruct acting; by apply traced_ret|].
  set (Pre' := λ h, (∃ state, maintenance_read (state, None) h ∧ acting = bool_decide (state ∈ [MaintenanceActing; MaintenanceFailing])) ∧ Pre h).
  assert (Hl' : lasting Pre').
  { apply and_lasting; [|done]. apply exists_lasting. intros state. apply and_lasting; [apply asked_lasting|apply pure_lasting]. }
  apply (traced_weaken _ Pre' _ _ (λ e h, e = None → operator_right (inf_externalCeph c) h)); [|by intros h [Hs Hh]; split; [apply Hs|]|done].
  destruct acting.
  { eapply traced_weaken; [apply scale_traced| |done]. intros h ((state & Hm & Hs) & Ho & Hh). split_and!; [|done|done].
    exists state. split; [done|]. left. split; [done|left]. by apply symmetry, bool_decide_eq_true in Hs. }
  destruct (inf_externalCeph c) eqn:Hext.
  { eapply traced_weaken; [apply scale_traced| |done]. intros h ((state & Hm & Hs) & Ho & Hh). split_and!; [|done|done].
    exists state. split; [done|]. right. split_and!; [done|by apply symmetry, bool_decide_eq_false in Hs|by left]. }
  eapply traced_bind; [apply (traced_ask _ Pre' h0); [done|by intros h (_ & _ & Hh)|done]|]. intros [tasks [e|]]; [by apply traced_ret|].
  eapply traced_weaken; [apply scale_traced| |done]. intros h (Ht & (state & Hm & Hs%symmetry%bool_decide_eq_false) & Ho & Hh).
  split_and!; [|done|done]. exists state. split; [done|]. destruct (existsb stops_operator tasks) eqn:He.
  - apply any_needs_stop in He as (task & Hin & Hn). left. split; [done|]. right. split; [done|]. by exists tasks, task.
  - right. split_and!; [done|done|]. right. exists tasks. split; [done|]. intros task Hin Hn.
    apply not_true_iff_false in He. apply He, any_needs_stop. by exists task.
Qed.

(** ** The rest of a round leaves deployments at their size *)

Lemma workload_no_scaling kind what ns' name' adapt new : no_scaling (ensure_workload kind what ns' name' adapt new).
Proof.
  unfold ensure_workload. apply spec_bind_any; [by apply spec_call|]. intros [cur [e|]].
  - destruct (is_not_found e); [|by apply spec_ret]. apply spec_bind_any; [by apply spec_call|]. intros e'. by apply spec_ret.
  - destruct (if decide _ then _ else _) as [cur' [|]]; [|by apply spec_ret].
    apply spec_bind_any; [by apply spec_call|]. intros e. by apply spec_ret.
Qed.

Lemma bundles_no_scaling stores acc : no_scaling (store_bundles rookNs stores acc).
Proof.
  revert acc. induction stores as [|store stores IH]; intros acc; simpl; [by apply spec_ret|].
  destruct (decide _); [done|]. apply spec_bind_any; [by apply spec_call|]. intros [secret [e|]]; [by apply spec_ret|done].
Qed.

Lemma toolbox_no_scaling c : no_scaling (ensureToolBox rookNs c).
Proof.
  unfold ensureToolBox, generateToolBox. apply spec_bind_any; [|intros [new|e]; [apply workload_no_scaling|by apply spec_ret]].
  apply spec_bind_any; [by apply spec_call|]. intros [rook [e|]]; [by apply spec_ret|].
  apply spec_bind_any; [by apply spec_call|]. intros [stores [e|]]; [by apply spec_ret|].
  destruct (_ || _); [by apply spec_ret|]. apply spec_bind_any; [apply bundles_no_scaling|]. intros r. by apply spec_ret.
Qed.

Lemma daemon_no_scaling common c : no_scaling (ensureDiskDaemon common c).
Proof. unfold ensureDiskDaemon. destruct (_ || _); [by apply spec_ret|apply workload_no_scaling]. Qed.
End operator.

(** ** A round and the operator *)

Section scaling.
Context `{World} `{HealthWorld} `{DeployWorld} `{ResourceWorld} `{StoreWorld} `{InfraWorld} `{MapRange}.
Variables (lcmConfig : LcmConfig) (r : request) (h0 : history).
Let rookNs : string := lc_RookNamespace lcmConfig.
Let ns : string := req_Namespace r.
Let name : string := req_Name r.

(** The CephCluster was read, and it is an external one or not. *)
Definition cluster_is (external : bool) (h : history) : Prop :=
  ∃ cluster, asked h0 (EvClusterGet rookNs name) (λ h, w_rookcluster_get h rookNs name) (cluster, None) h ∧
    csp_External (rkc_Spec cluster) = external.

Definition round_scaling_ok (h : history) (e : event) : Prop :=
  match e with EvDeployScale _ _ _ => ∃ external, cluster_is external h ∧ scaling_ok rookNs ns name h0 external h e | _ => True end.

Lemma steps_traced c :
  inf_namespace c = ns → inf_name c = name →
  traced round_scaling_ok (λ h, cluster_is (inf_externalCeph c) h ∧ h0 `prefix_of` h) (infra_steps lcmConfig c) (λ _ _, True).
Proof.
  intros Hns Hname. set (Pre := λ h, cluster_is (inf_externalCeph c) h ∧ h0 `prefix_of` h).
  assert (Hl : lasting Pre).
  { apply and_lasting; [|apply prefix_lasting]. apply exists_lasting. intros cluster. apply and_lasting; [apply asked_lasting|apply pure_lasting]. }
  assert (Hq : ∀ m : IO (option err), no_scaling m → traced round_scaling_ok Pre m (λ _ h, Pre h)).
  { intros m Hm. eapply traced_weaken; [apply (traced_spec _ Pre _ m _ Hl Hm)|done|by intros a h [_ Hh]]. intros h e _ He. by destruct e. }
  unfold infra_steps. eapply traced_bind; [apply Hq, toolbox_no_scaling|]. intros _e.
  eapply traced_bind; [apply Hq, daemon_no_scaling|]. intros _e'.
  apply (traced_bind _ _ _ _ (λ _ _, True)); [|intros e; by apply traced_ret].
  intros h [Hc Hh]. destruct (check_traced rookNs ns name h0 c Hns Hname h Hh) as [_ Hev]. split; [done|].
  intros evs1 e evs2 He. specialize (Hev _ _ _ He). destruct e; try done. exists (inf_externalCeph c). split; [|done].
  destruct Hc as (cluster & Ha & Hx). exists cluster. split; [by apply asked_lasting|done].
Qed.

(** C29: In a round of the infra controller no deployment is scaled but the operator of Rook,
    and that only to a number of replicas it has not got, after operator, maintenance and (for a
    cluster that is not external) tasks were read in this round: to 0 if a maintenance is acting or
    failing, or if a task waits for the operator, is processed, or has failed and is not marked as
    resolved; to 1 if there is no such maintenance, and the cluster is external or there is no such
    task.  And a check that ends without an error has found the operator with the number that is
    asked for in this way, or has scaled it to that. *)
Theorem operator_replicas_exact :
  (∀ evs1 ns' name' n evs2, (infra_Reconcile lcmConfig r h0).2 = evs1 ++ EvDeployScale ns' name' n :: evs2 →
     ns' = rookNs ∧ name' = RookCephOperatorName ∧
     ∃ external operator, cluster_is external (h0 ++ evs1) ∧ asked_for ns name h0 external n (h0 ++ evs1) ∧
       operator_read rookNs h0 (operator, None) (h0 ++ evs1) ∧ default 1 (dpl_SpecReplicas operator) ≠ n) ∧
  (∀ c, inf_namespace c = ns → inf_name c = name → (checkRookOperatorReplicas rookNs c h0).1 = None →
     operator_right rookNs ns name h0 (inf_externalCeph c) (h0 ++ (checkRookOperatorReplicas rookNs c h0).2)).
Proof.
  split.
  2: { intros c Hns Hname Hr. by apply (check_traced rookNs ns name h0 c Hns Hname h0). }
  assert (Ht : traced round_scaling_ok (λ h, h0 `prefix_of` h) (infra_Reconcile lcmConfig r) (λ _ _, True)).
  2: { intros evs1 ns' name' n evs2 He. destruct (Ht h0 (reflexivity h0)) as [_ Hev].
       destruct (Hev _ _ _ He) as (external & Hc & Hns & Hname & Ha & operator & Ho & Hne). split_and!; [done|done|]. by exists external, operator. }
  unfold infra_Reconcile. apply (traced_bind _ _ _ _ (λ _ h, h0 `prefix_of` h)); [apply traced_call; intros h Hh; split; [done|by apply prefix_app_r]|].
  intros [health [e|]]; [by apply traced_ret|]. destruct (GetObjectOwnerRef _ _ _) as [refs [e|]]; [by apply traced_ret|].
  destruct (w_env _) as [image|]; [|by apply traced_ret]. destruct image as [|a image]; [by apply traced_ret|].
  eapply traced_bind; [apply (traced_ask _ _ h0); [apply prefix_lasting|done|done]|]. intros [cluster [e|]]; [by apply traced_ret|].
  destruct (GetObjectOwnerRef _ _ _) as [refs' [e|]]; [by apply traced_ret|].
  eapply traced_weaken; [apply steps_traced; done| |done]. intros h [Ha Hh]. split; [|done]. by exists cluster.
Qed.
End scaling.

(** ** Workloads that are left alone *)

Section workloads.
Context `{ResourceWorld} `{InfraWorld}.
Variable h : history.

(** When a Deployment or DaemonSet that is there is left alone: its spec and owners are as
    wanted, and it has all labels, whatever their values, or none at all. *)
Theorem workload_settled kind what ns name adapt new cur :
  w_workload_get h kind ns name = (cur, None) →
  (ensure_workload kind what ns name adapt new h).2 = [EvRead kind ns name] ↔
  wkl_Spec cur = wkl_Spec (adapt cur) ∧ wkl_OwnerReferences cur = wkl_OwnerReferences new ∧
  (∀ labels, wkl_Labels cur = Some labels → dom (default ∅ (wkl_Labels new)) ⊆ dom labels).
Proof.
  intros Hg. unfold ensure_workload. unfold mbind' at 1. unfold read, call. cbn [fst snd]. rewrite Hg. cbn [fst snd].
  assert (Ha : ∀ l : list event, [EvRead kind ns name] ++ l = [EvRead kind ns name] ↔ l = []).
  { intros l. split; [by intros [= ->]|by intros ->]. }
  destruct (decide _) as [Hs|Hs]; cbn [wkl_Spec set_wkl_Spec] in Hs.
  2: { rewrite Ha. split; [done|]. by intros (? & _). }
  unfold checkLabelsAndOwnerRefs. cbn [wkl_Labels wkl_OwnerReferences set_wkl_Spec].
  destruct (decide (wkl_Labels cur = wkl_Labels new)) as [Hl|Hl].
  - destruct (decide _) as [Ho|Ho]; rewrite Ha; (split; [try done; intros _|by intros (_ & ? & _)]); [].
    split_and!; [done|done|]. intros labels Hlab. by rewrite <-Hl, Hlab.
  - destruct (wkl_Labels cur) as [labels|] eqn:Hlab; cbn [wkl_OwnerReferences set_wkl_Labels].
    + destruct (decide _) as [Ho|Ho]; [|rewrite Ha; split; [done|by intros (_ & ? & _)]].
      case_bool_decide as Hsub; rewrite Ha; simpl.
      * split; [intros _|done]. split_and!; [done|done|]. by intros ? [= <-].
      * split; [done|]. intros (_ & _ & Hx). by destruct Hsub; apply Hx.
    + destruct (decide _) as [Ho|Ho]; rewrite Ha; (split; [done|try done; by intros (_ & ? & _)]).
Qed.
End workloads.
