(* ===== verification/Secrets.v ===== *)
(** * The secret controller and the connector

    pkg/controller/secret (controller.go and secrets_info.go): the status of a
    CephDeploymentSecret lists the secrets of the clients of Ceph and of the users of object
    storage.  pkg/connector (connector.go and utils.go): the command that prints what another
    cluster needs to connect to this one, which [External] reads there. *)

From Stdlib Require Import Ascii.
From S2P Require Import Prelude GoTime Types HealthTypes DeployTypes World HealthWorld TaskUtils Controller Config Extensions Validate Trace DeployWorld Resources CephConfig External StoreWorld DeployController.
Open Scope Z_scope.

Class SecretWorld := {
  (** the object, from the API server and from the cache *)
  w_dplsecret_get : history → string → string → CephDeploymentSecret * option err;
  w_dplsecret_cached : history → string → string → CephDeploymentSecret * option err;
  w_dpl_get : history → string → string → CephDeployment * option err;
  (** clients of Ceph and users of object storage: name, and the info of the status *)
  w_client_infos : history → string → list (string * option (gmap string string)) * option err;
  w_user_infos : history → string → list (string * option (gmap string string)) * option err;
  (** the CephClusters of a namespace *)
  w_cluster_list : history → string → list CephCluster * option err;
  (** [radosgw-admin user info]: the user, and user, access key and secret key of the keys *)
  json_UserInfo : string → (string * list (string * string * string)) * option err;
  (** [json.Marshal] *)
  json_of_Connection : CephConnection → string;
}.

Definition cephAdminKeyringSecret : string := "rook-ceph-admin-keyring".
Definition secretRequeueAfterInterval : Z := 60 * second.

(** ** The secret controller *)

(** [cephDplSecretPredicate]: creations, and events that are none of the usual ones. *)
Inductive secret_event := SecretCreated | SecretUpdated | SecretDeleted | SecretGeneric.
Definition cephDplSecretPredicate (e : secret_event) : bool := match e with SecretCreated | SecretGeneric => true | _ => false end.

Section secrets.
Context `{World} `{HealthWorld} `{DeployWorld} `{SpecDecoder} `{ResourceWorld} `{SecretWorld}.
Variable lcmConfig : LcmConfig.
Let rookNs : string := lc_RookNamespace lcmConfig.

(** The secrets of objects, and the objects that have none. *)
Definition secret_step (object_name issue : string → string) (acc : list CephDeploymentSecretInfo * list string) (o : string * option (gmap string string))
    : list CephDeploymentSecretInfo * list string :=
  let secretName := value_of (default ∅ o.2) "secretName" in
  if decide (secretName = EmptyString) then (acc.1, acc.2 ++ [issue o.1])
  else (acc.1 ++ [mkSecretInfo (object_name o.1) secretName rookNs], acc.2).

Definition getClientSecrets (isExternal : bool) : IO (list CephDeploymentSecretInfo * list string) :=
  let* acc :=
    if isExternal then ret ([], [])
    else
      let* r := data_get "Secret" rookNs cephAdminKeyringSecret in
      ret (match r.2 with
           | Some e => ([], [err_msg (wrap_err "admin keyring secret is not available" e)])
           | None => ([mkSecretInfo "client.admin" cephAdminKeyringSecret rookNs], [])
           end) in
  let* r := read "CephClientList" rookNs EmptyString (λ h, w_client_infos h rookNs) in
  ret (match r with
       | (_, Some e) => (acc.1, acc.2 ++ [err_msg (wrap_err "failed to list ceph clients" e)])
       | (clients, None) => foldl (secret_step (λ name, "client." +:+ name) (λ name, "client " +:+ name +:+ " secret is not ready")) acc clients
       end).

Definition getRgwUserSecrets : IO (list CephDeploymentSecretInfo * list string) :=
  let* r := read "CephObjectStoreUserList" rookNs EmptyString (λ h, w_user_infos h rookNs) in
  ret (match r with
       | (_, Some e) => ([], [err_msg (wrap_err "failed to list ceph clients" e)])
       | (users, None) => foldl (secret_step (λ name, name) (λ name, "rgw user " +:+ name +:+ " secret is not ready")) ([], []) users
       end).

Definition getSecretsStatusInfo (cephDpl : CephDeployment) : IO (option CephDeploymentSecretsInfo * list string) :=
  match CephCluster_GetSpec (dsp_Cluster (cdp_Spec cephDpl)) with
  | (_, Some e) => ret (None, [err_msg e])
  | (spec, None) =>
      let* clients := getClientSecrets (csp_External spec) in
      let* users :=
        match dsp_ObjectStorage (cdp_Spec cephDpl) with
        | Some _ => getRgwUserSecrets
        | None => ret ([], [])
        end in
      ret (Some (mkSecretsInfo clients.1 users.1), clients.2 ++ users.2)
  end.

Definition buildCephDeploymentSecretStatus (secretsInfo : option CephDeploymentSecretsInfo) (issues : list string) : CephDeploymentSecretStatus :=
  mkSecretStatus (match issues with [] => "Ok" | _ => "Failed" end) EmptyString EmptyString secretsInfo issues.

(** The time of the last update changes only with the rest of the status. *)
Definition updateCephDeploymentSecretStatus (namespace name : string) (status : CephDeploymentSecretStatus) : IO (option err) :=
  let* r := read "CephDeploymentSecret" namespace name (λ h, w_dplsecret_cached h namespace name) in
  match r with
  | (_, Some e) => ret (Some (wrap_err ("failed to get CephDeploymentSecret '" +:+ namespace +:+ "/" +:+ name +:+ "' to update status") e))
  | (secret, None) =>
      let* timeNow := GetCurrentTimeString in
      let status :=
        match cdx_Status secret with
        | Some old => set_css_LastSecretCheck (css_LastSecretCheck old) (set_css_LastSecretUpdate (css_LastSecretUpdate old) status)
        | None => status
        end in
      let status := if decide (cdx_Status secret = Some status) then status else set_css_LastSecretUpdate timeNow status in
      let* e := apply_resource objectUpdate (RDplSecretStatus (set_cdx_Status (Some (set_css_LastSecretCheck timeNow status)) secret)) in
      let at_name := cdx_Namespace secret +:+ "/" +:+ cdx_Name secret in
      ret ((λ e, wrap_err ("failed to update CephDeploymentSecret " +:+ at_name +:+ " status")
                   (new_err ("failed to update status for the CephDeploymentSecret " +:+ at_name +:+ ": " +:+ err_msg e))) <$> e)
  end.

Definition setFailedState (namespace name msg : string) : IO unit :=
  updateCephDeploymentSecretStatus namespace name (buildCephDeploymentSecretStatus None [msg]) ;;; ret tt.

(** The owner, and the secrets. *)
Definition secret_checks (r : request) (cdSecret : CephDeploymentSecret) (cephDpl : CephDeployment) : IO reconcile_result :=
  let again := mkResult secretRequeueAfterInterval None in
  match GetObjectOwnerRef w_gvk_dpl (cdp_Name cephDpl) (cdp_UID cephDpl) with
  | (_, Some e) =>
      setFailedState (req_Namespace r) (req_Name r)
        ("failed to get ownerRefs for CephDeploymentSecret '" +:+ cdx_Namespace cdSecret +:+ "/" +:+ cdx_Name cdSecret +:+
         "' associated with CephDeployment '" +:+ cdp_Namespace cephDpl +:+ "/" +:+ cdp_Name cephDpl +:+ "': " +:+ err_msg e) ;;;
      ret again
  | (ownerRefs, None) =>
      if decide (ownerRefs = cdx_OwnerReferences cdSecret) then
        let* info := getSecretsStatusInfo cephDpl in
        updateCephDeploymentSecretStatus (req_Namespace r) (req_Name r) (buildCephDeploymentSecretStatus info.1 info.2) ;;;
        ret again
      else
        let* e := apply_resource objectUpdate (RDplSecret (set_cdx_OwnerReferences ownerRefs cdSecret)) in
        match e with
        | Some e => setFailedState (req_Namespace r) (req_Name r) ("failed to update CephDeploymentSecret: " +:+ err_msg e) ;;; ret again
        | None => ret (mkResult DefaultImmediateRequeueInterval None)
        end
  end.

(** [None]: no parameters of the deployment controller. *)
Definition secret_Reconcile (r : request) : IO (option reconcile_result) :=
  let ns := req_Namespace r in
  let name := req_Name r in
  match lc_DeployParams lcmConfig with
  | None => ret None
  | Some _ =>
      let* g := read "CephDeploymentSecret" ns name (λ h, w_dplsecret_get h ns name) in
      match g with
      | (_, Some e) =>
          ret (Some (if is_not_found e then mkResult 0 None
                     else mkResult secretRequeueAfterInterval (Some (wrap_err ("failed to get CephDeploymentSecret " +:+ ns +:+ "/" +:+ name) e))))
      | (cdSecret, None) =>
          let* g := read "CephDeployment" ns name (λ h, w_dpl_get h ns name) in
          match g with
          | (_, Some e) =>
              setFailedState ns name ("failed to get CephDeployment " +:+ ns +:+ "/" +:+ name +:+ ": " +:+ err_msg e) ;;;
              ret (Some (if is_not_found e then mkResult 0 None else mkResult secretRequeueAfterInterval None))
          | (cephDpl, None) => let* res := secret_checks r cdSecret cephDpl in ret (Some res)
          end
      end
  end.
End secrets.

(** ** The status tells what is there *)

Section status.
Context `{World} `{HealthWorld} `{DeployWorld} `{SpecDecoder} `{ResourceWorld} `{SecretWorld}.
Variable lcmConfig : LcmConfig.
Let rookNs : string := lc_RookNamespace lcmConfig.

(** The secret that the status of an object names. *)
Definition named_secret (o : string * option (gmap string string)) : option string :=
  let name := value_of (default ∅ o.2) "secretName" in if decide (name = EmptyString) then None else Some name.

Lemma secret_steps_exact object_name issue acc objects :
  foldl (secret_step lcmConfig object_name issue) acc objects =
  (acc.1 ++ omap (λ o, (λ name, mkSecretInfo (object_name o.1) name rookNs) <$> named_secret o) objects,
   acc.2 ++ omap (λ o, match named_secret o with None => Some (issue o.1) | Some _ => None end) objects).
Proof.
  revert acc. induction objects as [|o objects IH]; intros [infos issues]; simpl; [by rewrite !app_nil_r|].
  rewrite IH. unfold secret_step, named_secret. destruct (decide _); simpl; by rewrite <-!(assoc_L (++)).
Qed.

(** Every client of a cluster that is listed is in the status with the secret that Rook has
    made for it, or it is an issue that there is none. *)
Theorem clients_reported (isExternal : bool) (h : history) clients :
  let asked_first := if isExternal then [] else [EvRead "Secret" rookNs cephAdminKeyringSecret] in
  w_client_infos (h ++ asked_first) rookNs = (clients, None) →
  let '(infos, issues) := (getClientSecrets lcmConfig isExternal h).1 in
  ∀ o, o ∈ clients →
    match named_secret o with
    | Some name => mkSecretInfo ("client." +:+ o.1) name rookNs ∈ infos
    | None => "client " +:+ o.1 +:+ " secret is not ready" ∈ issues
    end.
Proof.
  intros first Hc.
  assert (Hr : ∃ acc, (getClientSecrets lcmConfig isExternal h).1 =
    foldl (secret_step lcmConfig (λ name, "client." +:+ name) (λ name, "client " +:+ name +:+ " secret is not ready")) acc clients).
  { subst first. unfold getClientSecrets, mbind', data_get, read, call. destruct isExternal; simpl; fold rookNs; rewrite Hc; by eexists. }
  destruct Hr as [acc ->]. rewrite secret_steps_exact. intros o Ho.
  destruct (named_secret o) as [name|] eqn:Hn; apply elem_of_app; right; apply list_elem_of_omap; exists o; by rewrite Hn.
Qed.

(** What a status says, without the times. *)
Definition status_content (s : CephDeploymentSecretStatus) : string * option CephDeploymentSecretsInfo * list string :=
  (css_State s, css_SecretsInfo s, css_Messages s).

(** The status is written with the time of the check; the time of the last update is the one
    that was there exactly if the content is the one that was there. *)
Theorem secret_status_times namespace name status (h : history) secret written :
  w_dplsecret_cached h namespace name = (secret, None) →
  EvApply objectUpdate (RDplSecretStatus written) ∈ (updateCephDeploymentSecretStatus namespace name status h).2 →
  let now := (GetCurrentTimeString (h ++ [EvRead "CephDeploymentSecret" namespace name])).1 in
  ∃ s, cdx_Status written = Some s ∧ status_content s = status_content status ∧ css_LastSecretCheck s = now ∧
    css_LastSecretUpdate s =
      match cdx_Status secret with
      | Some old => if decide (status_content old = status_content status) then css_LastSecretUpdate old else now
      | None => now
      end.
Proof.
  intros Hg Hin now. unfold updateCephDeploymentSecretStatus, mbind', read, call, apply_resource in Hin. cbn [fst snd] in Hin.
  rewrite Hg in Hin. cbn [fst snd] in Hin. fold now in Hin. clearbody now. rewrite !elem_of_app in Hin.
  destruct Hin as [Hin|[Hin|[Hin|Hin]]]; [by apply list_elem_of_singleton in Hin| | |by apply elem_of_nil in Hin].
  { unfold GetCurrentTimeString, call in Hin. by apply list_elem_of_singleton in Hin. }
  apply list_elem_of_singleton in Hin. injection Hin as ->. eexists. split; [done|]. clear Hg.
  destruct (cdx_Status secret) as [old|]; [|by rewrite decide_False].
  destruct (decide (status_content old = status_content status)) as [Heq|Hne].
  - destruct old, status. unfold status_content in *. simpl in *. injection Heq as -> -> ->. by rewrite decide_True.
  - rewrite decide_False; [done|]. intros [= Heq]. destruct Hne. by rewrite Heq.
Qed.
End status.

(** ** Package encoding/base64 *)

Definition base64_alphabet : string := "ABCDEFGHIJKLMNOPQRSTUVWXYZabcdefghijklmnopqrstuvwxyz0123456789+/".
Definition base64_char (n : N) : ascii := default "A"%char (String.get (N.to_nat n) base64_alphabet).
Fixpoint char_index (a : ascii) (s : string) (n : N) : option N :=
  match s with
  | EmptyString => None
  | String b s' => if decide (a = b) then Some n else char_index a s' (n + 1)
  end.
Definition base64_digit (a : ascii) : option N := char_index a base64_alphabet 0.

(** Three bytes as four digits, and back. *)
Definition digits_of (a b c : ascii) : N * N * N * N :=
  let n := (N_of_ascii a * 65536 + N_of_ascii b * 256 + N_of_ascii c)%N in
  (n / 262144, n / 4096 mod 64, n / 64 mod 64, n mod 64)%N.
Definition bytes_of (d1 d2 d3 d4 : N) : ascii * ascii * ascii :=
  let n := (d1 * 262144 + d2 * 4096 + d3 * 64 + d4)%N in
  (ascii_of_N (n / 65536), ascii_of_N (n / 256 mod 256), ascii_of_N (n mod 256)).

(** [base64.StdEncoding.EncodeToString]: padded with [=]. *)
Fixpoint EncodeToString (s : string) : string :=
  match s with
  | EmptyString => EmptyString
  | String a EmptyString =>
      let '(d1, d2, _, _) := digits_of a zero zero in String (base64_char d1) (String (base64_char d2) "==")
  | String a (String b EmptyString) =>
      let '(d1, d2, d3, _) := digits_of a b zero in String (base64_char d1) (String (base64_char d2) (String (base64_char d3) "="))
  | String a (String b (String c s')) =>
      let '(d1, d2, d3, d4) := digits_of a b c in
      String (base64_char d1) (String (base64_char d2) (String (base64_char d3) (String (base64_char d4) (EncodeToString s'))))
  end.

(** [DecodeString], which the API server applies to the data of a secret. *)
Fixpoint DecodeString (s : string) : option string :=
  match s with
  | EmptyString => Some EmptyString
  | String w (String x (String y (String z s'))) =>
      d1 ← base64_digit w; d2 ← base64_digit x;
      match base64_digit y, base64_digit z with
      | Some d3, Some d4 =>
          let '(a, b, c) := bytes_of d1 d2 d3 d4 in (λ rest, String a (String b (String c rest))) <$> DecodeString s'
      | Some d3, None =>
          if decide (z = "="%char ∧ s' = EmptyString) then let '(a, b, _) := bytes_of d1 d2 d3 0 in Some (String a (String b EmptyString)) else None
      | None, None =>
          if decide (y = "="%char ∧ z = "="%char ∧ s' = EmptyString) then let '(a, _, _) := bytes_of d1 d2 0 0 in Some (String a EmptyString) else None
      | None, Some _ => None
      end
  | _ => None
  end.

Lemma base64_digit_char d : (d < 64)%N → base64_digit (base64_char d) = Some d.
Proof.
  intros Hd. assert (Hall : Forall (λ d, base64_digit (base64_char d) = Some d) (N.of_nat <$> seq 0 64)).
  { apply (bool_decide_unpack _). vm_compute. exact I. }
  rewrite Forall_forall in Hall. apply Hall, list_elem_of_fmap. exists (N.to_nat d). split; [lia|]. apply elem_of_seq. lia.
Qed.

Lemma group_digits (x y z : N) :
  (x < 256 → y < 256 → z < 256 →
   let n := x * 65536 + y * 256 + z in
   (n / 262144 < 64 ∧ n / 4096 mod 64 < 64 ∧ n / 64 mod 64 < 64 ∧ n mod 64 < 64) ∧
   n / 262144 * 262144 + n / 4096 mod 64 * 4096 + n / 64 mod 64 * 64 + n mod 64 = n ∧
   n / 65536 = x ∧ n / 256 mod 256 = y ∧ n mod 256 = z)%N.
Proof. intros Hx Hy Hz n. subst n. zify. Z.to_euclidean_division_equations. lia. Qed.

Lemma bytes_digits a b c :
  let '(d1, d2, d3, d4) := digits_of a b c in
  (d1 < 64 ∧ d2 < 64 ∧ d3 < 64 ∧ d4 < 64)%N ∧ bytes_of d1 d2 d3 d4 = (a, b, c).
Proof.
  unfold digits_of, bytes_of. cbv zeta beta iota.
  destruct (group_digits _ _ _ (N_ascii_bounded a) (N_ascii_bounded b) (N_ascii_bounded c)) as (Hd & Hn & Ha & Hb & Hc).
  split; [exact Hd|]. by rewrite Hn, Ha, Hb, Hc, !ascii_N_embedding.
Qed.

Lemma last_digits a b : (digits_of a b zero).2 = 0%N ∧ (digits_of a zero zero).1.2 = 0%N.
Proof.
  pose proof (N_ascii_bounded a). pose proof (N_ascii_bounded b). unfold digits_of. simpl. split; zify; Z.to_euclidean_division_equations; lia.
Qed.

Theorem base64_roundtrip s : DecodeString (EncodeToString s) = Some s.
Proof.
  induction s as [s IH] using (induction_ltof1 _ String.length). unfold ltof in IH. destruct s as [|a [|b [|c s]]]; [done|..].
  - cbn [EncodeToString]. pose proof (bytes_digits a zero zero) as Hb. pose proof (last_digits a zero) as [H4 H3].
    destruct (digits_of a zero zero) as [[[d1 d2] d3] d4]. simpl in H3, H4. subst d3 d4. destruct Hb as ((H1 & H2 & _) & Hb).
    cbn [DecodeString]. rewrite (base64_digit_char d1 H1), (base64_digit_char d2 H2).
    change (base64_digit "="%char) with (@None N). cbn [mbind option_bind]. rewrite decide_True by done. by rewrite Hb.
  - cbn [EncodeToString]. pose proof (bytes_digits a b zero) as Hb. pose proof (last_digits a b) as [H4 _].
    destruct (digits_of a b zero) as [[[d1 d2] d3] d4]. simpl in H4. subst d4. destruct Hb as ((H1 & H2 & H3 & _) & Hb).
    cbn [DecodeString]. rewrite (base64_digit_char d1 H1), (base64_digit_char d2 H2), (base64_digit_char d3 H3).
    change (base64_digit "="%char) with (@None N). cbn [mbind option_bind]. rewrite decide_True by done. by rewrite Hb.
  - cbn [EncodeToString]. pose proof (bytes_digits a b c) as Hb.
    destruct (digits_of a b c) as [[[d1 d2] d3] d4]. destruct Hb as ((H1 & H2 & H3 & H4) & Hb).
    cbn [DecodeString].
    rewrite (base64_digit_char d1 H1), (base64_digit_char d2 H2), (base64_digit_char d3 H3), (base64_digit_char d4 H4). cbn -[bytes_of DecodeString]. rewrite Hb, IH by (simpl; lia). done.
Qed.

(** ** The connector *)

Record Opts := mkOpts {
  opt_RookNamespace : string;
  opt_AuthClient : string;
  opt_UseRBD : bool;
  opt_UseCephFS : bool;
  opt_UseRgw : bool;
  opt_RgwUserName : string;
  opt_RgwRealm : string;
  opt_EncodedBase64 : bool;
}.

Section connector.
Context `{World} `{HealthWorld} `{ResourceWorld} `{SecretWorld}.

Definition getClusterFSID (rookNamespace : string) : IO (string + err) :=
  let* r := read "CephClusterList" rookNamespace EmptyString (λ h, w_cluster_list h rookNamespace) in
  ret (match r with
       | (_, Some e) => inr (wrap_err ("failed to check CephCluster object in namespace '" +:+ rookNamespace +:+ "'") e)
       | ([], None) => inr (new_err ("no CephCluster objects found in namespace '" +:+ rookNamespace +:+ "'"))
       | ([cluster], None) =>
           let at_name := "CephCluster '" +:+ cc_Namespace cluster +:+ "/" +:+ cc_Name cluster +:+ "'" in
           match cls_CephStatus (cc_Status cluster) with
           | None => inr (new_err ("status is not present for " +:+ at_name))
           | Some status =>
               if decide (cst_FSID status = EmptyString) then inr (new_err ("cluster fsid is empty in " +:+ at_name +:+ " status"))
               else inl (cst_FSID status)
           end
       | (_, None) => inr (new_err ("multiple CephCluster objects found in namespace '" +:+ rookNamespace +:+ "'"))
       end).

Definition getClusterMonEndpoints (rookNamespace : string) : IO (string + err) :=
  let* r := data_get "ConfigMap" rookNamespace rookCephMonEndpointsMapName in
  ret (match r with
       | (_, Some e) => inr (wrap_err ("failed to get ConfigMap '" +:+ rookNamespace +:+ "/" +:+ rookCephMonEndpointsMapName +:+ "'") e)
       | (monMap, None) =>
           let endpoints := value_of (dob_Data monMap) "data" in
           if decide (endpoints = EmptyString) then
             inr (new_err ("mon endpoints are empty in ConfigMap '" +:+ dob_Namespace monMap +:+ "/" +:+ dob_Name monMap +:+ "'"))
           else inl endpoints
       end).

(** A command in the toolbox. *)
Definition toolbox_cmd (rookNamespace cmd : string) : IO (string * option err) :=
  let* r := RunPodCmdAndCheckError cmd EmptyString (call (EvCeph rookNamespace cmd) (λ h, w_exec_ceph h rookNamespace cmd)) in
  ret (r.1.1, r.2).

Definition getClusterClientKeyring (rookNamespace clientName : string) : IO (string + err) :=
  let* r := toolbox_cmd rookNamespace ("ceph auth get-key client." +:+ clientName) in
  ret (match r with
       | (_, Some e) => inr (wrap_err "failed to get keyring for client" e)
       | (keyring, None) =>
           if decide (keyring = EmptyString) then inr (new_err ("client." +:+ clientName +:+ " has empty keyring")) else inl keyring
       end).

(** User and key. *)
Definition getCephKeyringFromSecret (rookNamespace keyringSecretName : string) : IO ((string * string) + err) :=
  let* r := data_get "Secret" rookNamespace keyringSecretName in
  let at_name := "Secret '" +:+ rookNamespace +:+ "/" +:+ keyringSecretName +:+ "'" in
  ret (match r with
       | (_, Some e) => inr (wrap_err ("failed to get " +:+ at_name) e)
       | (secret, None) =>
           let keyring := value_of (dob_Data secret) "userKey" in
           let user := value_of (dob_Data secret) "userID" in
           if decide (keyring = EmptyString ∨ user = EmptyString) then inr (new_err (at_name +:+ " has empty userKey or userID"))
           else inl (user, keyring)
       end).

Definition getRgwKeys (rookNamespace username realm : string) : IO (RgwUserKeys + err) :=
  let cmd := "radosgw-admin user info --uid " +:+ username in
  let cmd := if decide (realm = EmptyString) then cmd else cmd +:+ " --rgw-realm=" +:+ realm in
  let* r := toolbox_cmd rookNamespace cmd in
  ret (match r with
       | (_, Some e) => inr (wrap_err "failed to get rgw user keys" e)
       | (out, None) =>
           match json_UserInfo out with
           | (_, Some e) => inr (wrap_err ("failed to parse '" +:+ cmd +:+ "' output") e)
           | ((userID, keys), None) =>
               match list_find (λ key, key.1.1 = userID) keys with
               | Some (_, (_, access, secret)) => inl (mkRgwUserKeys access secret)
               | None => inr (new_err ("failed to find RGW '" +:+ username +:+ "' user keys"))
               end
           end
       end).

(** The keys of the nodes and of the provisioner of a CSI driver. *)
Definition csi_keyring (rookNamespace node provisioner : string) : IO (CSIKeyring + err) :=
  let* r := getCephKeyringFromSecret rookNamespace ("rook-" +:+ node) in
  match r with
  | inr e => ret (inr e)
  | inl (nodeUser, nodeKey) =>
      let* r := getCephKeyringFromSecret rookNamespace ("rook-" +:+ provisioner) in
      ret (match r with inr e => inr e | inl (user, key) => inl (mkCSIKeyring nodeUser nodeKey user key) end)
  end.

(** Something that may not be asked for. *)
Definition when_asked {A} (b : bool) (m : IO (A + err)) : IO (option A + err) :=
  if b then let* r := m in ret (match r with inr e => inr e | inl a => inl (Some a) end) else ret (inl None).

(** Steps of which the first error is the result. *)
Definition bind_err {A B} (m : IO (A + err)) (f : A → IO (B + err)) : IO (B + err) :=
  let* r := m in match r with inr e => ret (inr e) | inl a => f a end.

Definition getConnectionInfo (opts : Opts) : IO (CephConnection + err) :=
  let ns := opt_RookNamespace opts in
  let csi b := negb (bool_decide (opt_AuthClient opts = "admin")) && b in
  bind_err (getClusterFSID ns) (λ fsid,
  bind_err (getClusterMonEndpoints ns) (λ monEndpoints,
  bind_err (getClusterClientKeyring ns (opt_AuthClient opts)) (λ clientKeyring,
  bind_err (when_asked (csi (opt_UseRBD opts)) (csi_keyring ns CephCSIRBDNodeClientName CephCSIRBDProvisionerClientName)) (λ rbd,
  bind_err (when_asked (csi (opt_UseCephFS opts)) (csi_keyring ns CephCSICephFSNodeClientName CephCSICephFSProvisionerClientName)) (λ cephfs,
  bind_err (when_asked (opt_UseRgw opts) (getRgwKeys ns (opt_RgwUserName opts) (opt_RgwRealm opts))) (λ keys,
  ret (inl (mkConnection (opt_AuthClient opts) clientKeyring fsid monEndpoints rbd cephfs keys)))))))).

Definition PrepareConnectionString (opts : Opts) : IO (string + err) :=
  let* r := getConnectionInfo opts in
  ret (match r with
       | inr e => inr (wrap_err "failed to prepare connection info" e)
       | inl info => inl (let s := json_of_Connection info in if opt_EncodedBase64 opts then EncodeToString s else s)
       end).
End connector.

(** ** What the connector writes, [External] reads *)

Section roundtrip.
Context `{World} `{HealthWorld} `{ResourceWorld} `{SecretWorld}.
Variables (opts : Opts) (h0 : history).
Let ns : string := opt_RookNamespace opts.

(** What a step that succeeds has established, for runs after [h0]. *)
Definition gives {A} (m : IO (A + err)) (R : A → history → Prop) : Prop :=
  ∀ h a, h0 `prefix_of` h → (m h).1 = inl a → R a (h ++ (m h).2).

Lemma gives_bind {A B} (m : IO (A + err)) (f : A → IO (B + err)) (R : A → history → Prop) (Q : B → history → Prop) :
  (∀ a, lasting (R a)) → gives m R → (∀ a, gives (f a) (λ b h, R a h → Q b h)) → gives (bind_err m f) Q.
Proof.
  intros Hl Hm Hf h b Hh. unfold bind_err, mbind'. destruct (m h) as [[a|e] evs] eqn:Hr; simpl; [|done]. intros Hb.
  pose proof (Hm h a Hh) as HR. rewrite Hr in HR. rewrite (assoc_L (++)).
  apply (Hf a _ b (prefix_app_r _ _ _ Hh) Hb). by apply Hl, HR.
Qed.

Lemma gives_asked {A} (b : bool) (m : IO (A + err)) (R : A → history → Prop) :
  gives m R → gives (when_asked b m) (λ o h, if b then ∃ a, o = Some a ∧ R a h else o = None).
Proof.
  intros Hm h o Hh. unfold when_asked. destruct b; [|by intros [= <-]].
  unfold mbind'. destruct (m h) as [[a|e] evs] eqn:Hr; simpl; [|done]. intros [= <-]. exists a. split; [done|].
  pose proof (Hm h a Hh) as HR. rewrite Hr in HR. rewrite app_nil_r. by apply HR.
Qed.

(** User and key of a secret of the cluster that was read. *)
Definition key_of (name user key : string) (h : history) : Prop :=
  ∃ source, asked h0 (EvRead "Secret" ns name) (λ h, w_data_get h "Secret" ns name) (source, None) h ∧
    user = value_of (dob_Data source) "userID" ∧ key = value_of (dob_Data source) "userKey" ∧ user ≠ EmptyString ∧ key ≠ EmptyString.
Definition keys_of (node provisioner : string) (keyring : CSIKeyring) (h : history) : Prop :=
  key_of ("rook-" +:+ node) (ckr_NodeUser keyring) (ckr_NodeKey keyring) h ∧
  key_of ("rook-" +:+ provisioner) (ckr_ProvisionerUser keyring) (ckr_ProvisionerKey keyring) h.

Lemma key_of_lasting name user key : lasting (key_of name user key).
Proof. apply exists_lasting. intros source. apply and_lasting; [apply asked_lasting|apply pure_lasting]. Qed.

(** A question of the run from [h0] on. *)
Lemma just_asked {A} (e : event) (f : history → A) (h : history) : h0 `prefix_of` h → asked h0 e f (f h) (h ++ [e]).
Proof. intros Hh. by exists h. Qed.

Lemma secret_gives name : gives (getCephKeyringFromSecret ns name) (λ uk, key_of name uk.1 uk.2).
Proof.
  intros h [user key] Hh. unfold getCephKeyringFromSecret, data_get, read, mbind', call. simpl.
  pose proof (just_asked (EvRead "Secret" ns name) (λ h, w_data_get h "Secret" ns name) h Hh) as Ha. simpl in Ha.
  destruct (w_data_get h "Secret" ns name) as [source [e|]]; simpl; [done|].
  destruct (decide _) as [?|Hne]; [done|]. intros [= <- <-]. exists source. split_and!; [done|done|done|naive_solver..].
Qed.

Lemma csi_gives node provisioner : gives (csi_keyring ns node provisioner) (keys_of node provisioner).
Proof.
  intros h k Hh. unfold csi_keyring, mbind'. pose proof (secret_gives ("rook-" +:+ node) h) as Hn.
  destruct (getCephKeyringFromSecret ns ("rook-" +:+ node) h) as [[[u v]|e] evs]; cbn [fst snd] in *; [|done].
  pose proof (secret_gives ("rook-" +:+ provisioner) (h ++ evs)) as Hp. unfold gives in Hp. revert Hp.
  destruct (getCephKeyringFromSecret ns ("rook-" +:+ provisioner) (h ++ evs)) as [[[u' v']|e'] evs']; cbn [fst snd]; [|done].
  intros Hp [= <-]. rewrite app_nil_r, (assoc_L (++)). split; simpl.
  - apply key_of_lasting. by apply (Hn (u, v)).
  - apply (Hp (u', v')); [by apply prefix_app_r|done].
Qed.

(** The monitors and the identity of the cluster. *)
Definition endpoints_of (endpoints : string) (h : history) : Prop :=
  ∃ source, asked h0 (EvRead "ConfigMap" ns rookCephMonEndpointsMapName) (λ h, w_data_get h "ConfigMap" ns rookCephMonEndpointsMapName) (source, None) h ∧
    dob_Data source !! "data" = Some endpoints ∧ endpoints ≠ EmptyString.
Definition fsid_of (fsid : string) (h : history) : Prop :=
  ∃ cluster status, asked h0 (EvRead "CephClusterList" ns EmptyString) (λ h, w_cluster_list h ns) ([cluster], None) h ∧
    cls_CephStatus (cc_Status cluster) = Some status ∧ cst_FSID status = fsid ∧ fsid ≠ EmptyString.

Lemma endpoints_give : gives (getClusterMonEndpoints ns) endpoints_of.
Proof.
  intros h v Hh. unfold getClusterMonEndpoints, data_get, read, mbind', call. simpl.
  pose proof (just_asked (EvRead "ConfigMap" ns rookCephMonEndpointsMapName) (λ h, w_data_get h "ConfigMap" ns rookCephMonEndpointsMapName) h Hh) as Ha. simpl in Ha.
  destruct (w_data_get h "ConfigMap" ns rookCephMonEndpointsMapName) as [source [e|]]; simpl; [done|].
  destruct (decide _) as [?|Hne]; [done|]. intros [= <-]. exists source. split_and!; [done| |done].
  unfold value_of in *. by destruct (dob_Data source !! "data").
Qed.

Lemma fsid_gives : gives (getClusterFSID ns) fsid_of.
Proof.
  intros h v Hh. unfold getClusterFSID, read, mbind', call. simpl.
  pose proof (just_asked (EvRead "CephClusterList" ns EmptyString) (λ h, w_cluster_list h ns) h Hh) as Ha. simpl in Ha.
  destruct (w_cluster_list h ns) as [[|cluster [|c l]] [e|]]; simpl; try done.
  destruct (cls_CephStatus (cc_Status cluster)) as [status|] eqn:Hs; simpl; [|done].
  destruct (decide _) as [?|Hne]; simpl; [done|]. intros [= <-]. by exists cluster, status.
Qed.

(** The keys for a driver, if they are asked for. *)
Definition asked_keys (b : bool) (node provisioner : string) (o : option CSIKeyring) (h : history) : Prop :=
  if b then ∃ k, o = Some k ∧ keys_of node provisioner k h else o = None.

(** The connection holds what was read, and what was not asked for is missing. *)
Definition as_read (con : CephConnection) (h : history) : Prop :=
  cco_ClientName con = opt_AuthClient opts ∧ fsid_of (cco_FSID con) h ∧ endpoints_of (cco_MonEndpoints con) h ∧
  asked_keys (opt_UseRBD opts) CephCSIRBDNodeClientName CephCSIRBDProvisionerClientName (cco_RBDKeyring con) h ∧
  asked_keys (opt_UseCephFS opts) CephCSICephFSNodeClientName CephCSICephFSProvisionerClientName (cco_CephFSKeyring con) h.

Lemma fsid_lasting fsid : lasting (fsid_of fsid).
Proof. apply exists_lasting. intros cluster. apply exists_lasting. intros status. apply and_lasting; [apply asked_lasting|apply pure_lasting]. Qed.
Lemma endpoints_lasting endpoints : lasting (endpoints_of endpoints).
Proof. apply exists_lasting. intros source. apply and_lasting; [apply asked_lasting|apply pure_lasting]. Qed.
Lemma keyring_lasting b node provisioner o : lasting (asked_keys b node provisioner o).
Proof.
  unfold asked_keys. destruct b; [|apply pure_lasting]. apply exists_lasting. intros k. apply and_lasting; [apply pure_lasting|].
  apply and_lasting; apply key_of_lasting.
Qed.
Lemma gives_skip {A B} (m : IO (A + err)) (f : A → IO (B + err)) (Q : B → history → Prop) :
  (∀ a, gives (f a) Q) → gives (bind_err m f) Q.
Proof.
  intros Hf. apply (gives_bind m f (λ _ _, True)); [by intros a h evs|done|]. intros a h b Hh Hb _. by apply Hf.
Qed.

Lemma connection_read : opt_AuthClient opts ≠ "admin" → gives (getConnectionInfo opts) as_read.
Proof.
  intros Hadmin. unfold getConnectionInfo. rewrite (bool_decide_eq_false_2 _ Hadmin). cbn [negb andb]. fold ns.
  eapply gives_bind; [apply fsid_lasting|apply fsid_gives|intros fsid].
  eapply gives_bind; [apply endpoints_lasting|apply endpoints_give|intros endpoints].
  apply gives_skip. intros keyring.
  eapply gives_bind; [apply keyring_lasting|exact (gives_asked _ _ _ (csi_gives _ _))|intros rbd].
  eapply gives_bind; [apply keyring_lasting|exact (gives_asked _ _ _ (csi_gives _ _))|intros cephfs].
  apply gives_skip. intros keys.
  intros h con _ [= <-]. simpl. by intros ? ? ? ?.
Qed.

(** A secret of the connected cluster with user and key of the secret of this name here. *)
Definition carried (copies : list DataObject) (client : string) (h : history) : Prop :=
  ∃ copy user key, copy ∈ copies ∧ dob_Name copy = "rook-" +:+ client ∧ dob_Data copy = {["userID" := user; "userKey" := key]} ∧
    key_of ("rook-" +:+ client) user key h.

Lemma csi_carried targetNs owners node provisioner keyring copies h :
  csi_secrets targetNs owners node provisioner keyring ⊆ copies → keys_of node provisioner keyring h →
  carried copies node h ∧ carried copies provisioner h.
Proof.
  intros Hsub [Hn Hp]. split.
  - eexists _, _, _. split_and!; [apply Hsub; left|done|done|exact Hn].
  - eexists _, _, _. split_and!; [apply Hsub; right; left|done|done|exact Hp].
Qed.
End roundtrip.

Section connected.
Context `{World} `{HealthWorld} `{ResourceWorld} `{SecretWorld}.
Variables (opts : Opts) (h : history) (s : string) (secret : DataObject).
Variables (namespace targetNs : string) (dpl : CephDeployment) (owners : list OwnerReference).
Let h' : history := h ++ (PrepareConnectionString opts h).2.

(** What the API server stores for a string that was put into the data of a secret, where it
    has to be encoded, or into its string data. *)
Definition stored : option string := if opt_EncodedBase64 opts then DecodeString s else Some s.

(** C30: A connection string of the connector for a client that is not the admin, put into the
    secret of another deployment (into its data if it was made with --base64, else into its string
    data), is read there without an error, if the decoder of JSON undoes the encoder for it.
    The monitors are those of the config map that the connector has read, the fsid that of the only
    CephCluster.  If the string was made for RBD and for CephFS, the secrets of the CSI drivers are
    copies of those of this cluster, those for CephFS if the deployment has a shared filesystem; if
    it was not made for both, reading it is a nil dereference. *)
Theorem connector_roundtrip :
  (∀ con, (getConnectionInfo opts h).1 = inl con →
     json_of_Connection con ≠ EmptyString ∧ json_CephConnection (json_of_Connection con) = (con, None)) →
  opt_AuthClient opts ∉ ["admin"; "client.admin"] →
  (PrepareConnectionString opts h).1 = inl s → dob_Data secret !! "connection" = stored →
  ∃ con, connection_data namespace secret = inl con ∧
    endpoints_of opts h (value_of (dob_Data (mon_endpoints targetNs owners con)) "data") h' ∧
    fsid_of opts h (value_of (dob_Data (client_secret targetNs owners con)) "fsid") h' ∧
    match driver_secrets targetNs dpl owners con with
    | None => opt_UseRBD opts && opt_UseCephFS opts = false
    | Some copies =>
        opt_UseRBD opts && opt_UseCephFS opts = true ∧
        carried opts h copies CephCSIRBDNodeClientName h' ∧ carried opts h copies CephCSIRBDProvisionerClientName h' ∧
        (is_Some (dsp_SharedFilesystem (cdp_Spec dpl)) →
         carried opts h copies CephCSICephFSNodeClientName h' ∧ carried opts h copies CephCSICephFSProvisionerClientName h')
    end.
Proof.
  intros Hjson Hadmin Hrun Hsecret. apply not_elem_of_cons in Hadmin as [Ha Hc]. apply not_elem_of_cons in Hc as [Hc _].
  pose proof (connection_read opts h Ha h) as Hread.
  assert (Hevs : (PrepareConnectionString opts h).2 = (getConnectionInfo opts h).2).
  { unfold PrepareConnectionString, mbind'. simpl. by rewrite app_nil_r. }
  unfold h'. rewrite Hevs. unfold PrepareConnectionString, mbind' in Hrun. cbn [fst snd] in Hrun.
  destruct (getConnectionInfo opts h) as [[con|e] evs]; [|done]. cbn [fst snd] in *. injection Hrun as Hs.
  assert (Hst : stored = Some (json_of_Connection con)).
  { unfold stored. rewrite <-Hs. destruct (opt_EncodedBase64 opts); [apply base64_roundtrip|done]. }
  destruct (Hjson con eq_refl) as [Hne Hdec]. destruct (Hread con (reflexivity h) eq_refl) as (Hname & Hfsid & Hmon & Hrbd & Hfs).
  exists con. split_and!.
  - unfold connection_data. rewrite Hsecret, Hst, Hdec. by destruct (json_of_Connection con).
  - exact Hmon.
  - exact Hfsid.
  - unfold driver_secrets. rewrite Hname, (bool_decide_eq_false_2 _ Ha), (bool_decide_eq_false_2 _ Hc). cbn [orb].
    destruct (opt_UseRBD opts); [destruct Hrbd as (k & -> & Hk)|by rewrite Hrbd].
    destruct (opt_UseCephFS opts); [destruct Hfs as (k' & -> & Hk')|by rewrite Hfs]. simpl.
    split; [done|]. rewrite (assoc and). split.
    + apply (csi_carried opts h targetNs owners _ _ k); [set_solver|done].
    + intros [fs Hsfs]. rewrite Hsfs. pose proof Hk' as [(? & _ & _ & _ & _ & Hn1) (? & _ & _ & _ & _ & Hn2)].
      rewrite (bool_decide_eq_false_2 _ Hn1), (bool_decide_eq_false_2 _ Hn2), bool_decide_eq_true_2 by done.
      apply (csi_carried opts h targetNs owners _ _ k'); [set_solver|done].
Qed.
End connected.
