(* ===== verification/ServiceFacts.v ===== *)
(** * What the services of a deployment write

    The drivers of the CSI operator ([csi_writes_safe]), the secret with the keys for OpenStack
    ([openstack_keys_current]) and the pools Ceph makes for itself ([builtin_overrides]): what
    was read before something is written. *)

From S2P Require Import Prelude GoTime Types HealthTypes DeployTypes World HealthWorld Extensions Validate Trace DeployWorld Resources Pools Clients StorageClasses NodeLabels CephConfig StoreWorld Rgw ObjectStorage CsiOperator Openstack ClusterState.
Open Scope Z_scope.

(** ** Drivers *)

Section csi.
Context `{DeployWorld} `{SpecDecoder} `{ResourceWorld} `{ServiceWorld} `{MapRange}.
Variables (rookNs : string) (params : DeployParams) (c : deployConfig) (h0 : history).

Definition driver_read (name : string) := asked h0 (EvRead "Driver" rookNs name) (λ h, w_driver_get h rookNs name).
Definition config_read := asked h0 (EvRead "OperatorConfig" rookNs cephCsiOperatorConfigName) (λ h, w_opconfig_get h rookNs cephCsiOperatorConfigName).
Definition drivers_read := asked h0 (EvRead "DriverList" rookNs EmptyString) (λ h, w_driver_list h rookNs).

(** A driver that is to be had. *)
Definition wanted (name : string) (driver : option CephCSIDriver) : Prop :=
  ∃ driverType, name = driver_name rookNs driverType ∧ drivers_to_have params c !! driverType = Some driver.

(** What the spec says of a driver. *)
Definition own_spec (driver : option CephCSIDriver) : DriverSpec :=
  match driver with Some d => (CSIDriver_GetSpec d).1 | None => zero_DriverSpec end.

(** A setting keeps its value unless the spec has one for it; the policy for snapshots of CephFS
    follows from what the cluster offers. *)
Definition kept (keys : list string) (own old new : gmap string driver_value) : Prop :=
  ∀ k v, k ∈ keys → old !! k = Some v →
    (own !! k = None ∧ k ≠ "SnapshotPolicy" → new !! k = Some v) ∧ is_Some (new !! k).
Definition plugin_kept (keys : list string) (own old new : option (gmap string driver_value)) : Prop :=
  ∀ p, old = Some p → ∃ p', new = Some p' ∧ kept keys (default ∅ own) p p'.

(** The settings of a driver, and of the pods of its plugins. *)
Definition driver_settings : list string :=
  ["Log"; "ImageSet"; "ClusterName"; "GRpcTimeout"; "SnapshotPolicy"; "GenerateOMapInfo"; "EnableFencing"; "FsGroupPolicy"; "Encryption";
   "AttachRequired"; "Liveness"; "LeaderElection"; "DeployCsiAddons"; "KernelMountOptions"; "FuseMountOptions"; "CephFsClientType"].
Definition plugin_settings : list string :=
  ["ServiceAccountName"; "PrioritylClassName"; "Labels"; "Annotations"; "Affinity"; "Tolerations"; "Volumes"; "ImagePullPolicy";
   "Resources.Liveness"; "Resources.Plugin"; "Resources.LogRotator"; "Resources.Addons"; "ContainerExtraArgs"].
Definition node_settings : list string :=
  plugin_settings ++ ["UpdateStrategy"; "KubeletDirPath"; "EnableSeLinuxHostMount"; "Resources.Registrar"].
Definition controller_settings : list string :=
  plugin_settings ++ ["Replicas"; "Privileged"; "Resources.Attacher"; "Resources.Snapshotter"; "Resources.Resizer"; "Resources.Provisioner";
                      "Resources.OMapGenerator"].

(** No setting is lost. *)
Definition settings_kept (own old new : DriverSpec) : Prop :=
  kept driver_settings (drs_Fields own) (drs_Fields old) (drs_Fields new) ∧
  plugin_kept node_settings (drs_NodePlugin own) (drs_NodePlugin old) (drs_NodePlugin new) ∧
  plugin_kept controller_settings (drs_ControllerPlugin own) (drs_ControllerPlugin old) (drs_ControllerPlugin new).

Definition csi_write_ok (h : history) (e : event) : Prop :=
  match e with
  | EvRead _ _ _ => True
  | EvApply objectCreate (RCsiDriver d) => ∃ driver old e, wanted (cdv_Name d) driver ∧ driver_read (cdv_Name d) (old, Some e) h ∧ is_not_found e = true
  | EvApply objectUpdate (RCsiDriver d) =>
      ∃ name driver old, wanted name driver ∧ driver_read name (old, None) h ∧ cdv_Name d = cdv_Name old ∧
        (foreign params (cdv_Labels old) = true → is_Some driver) ∧
        (∀ s, driver = Some s → cdr_FullOverride s = false → settings_kept (own_spec driver) (cdv_Spec old) (cdv_Spec d))
  | EvApply objectCreate (RCsiConfig _) => ∃ old e, config_read (old, Some e) h ∧ is_not_found e = true
  | EvApply objectUpdate (RCsiConfig cfg) =>
      ∃ old, config_read (old, None) h ∧ cof_Name cfg = cof_Name old ∧ (foreign params (cof_Labels old) = true → is_Some (spec_config c))
  | EvDelete kind _ name =>
      kind = "Driver" ∧ ∃ items d, drivers_read (items, None) h ∧ d ∈ items ∧ name = cdv_Name d ∧ foreign params (cdv_Labels d) = false ∧
        ∀ driver, ¬ wanted name driver
  | _ => False
  end.

Abbreviation since := (λ h, h0 `prefix_of` h).
Abbreviation csi_traced Pre m := (traced csi_write_ok Pre m (λ _, since)).

Lemma since_ret {A} Pre (a : A) : (∀ h, Pre h → h0 `prefix_of` h) → csi_traced Pre (ret a).
Proof. intros Hp. by apply traced_ret. Qed.

Lemma csi_apply Pre process r : (∀ h, Pre h → h0 `prefix_of` h) → (∀ h, Pre h → csi_write_ok h (EvApply process r)) → csi_traced Pre (apply_resource process r).
Proof. intros Hp Hw. apply traced_call. intros h Hh. split; [by apply Hw|]. apply prefix_app_r, Hp, Hh. Qed.

(** The spec that is written before it is merged: that of the deployment, but for snapshots. *)
Definition wanted_of (own dest : DriverSpec) : Prop :=
  (∀ k, k ≠ "SnapshotPolicy" → drs_Fields dest !! k = drs_Fields own !! k) ∧
  drs_NodePlugin dest = drs_NodePlugin own ∧ drs_ControllerPlugin dest = drs_ControllerPlugin own.

Lemma fields_kept settings keys own dest src :
  Forall (λ k, k ∈ keys) settings → (∀ k, k ≠ "SnapshotPolicy" → dest !! k = own !! k) → kept settings own src (merge_fields keys dest src).
Proof.
  intros Hsub Hd k v Hk Hv. rewrite Forall_forall in Hsub. specialize (Hsub k Hk). unfold merge_fields.
  assert (Hf : filter (λ '(k, _), k ∈ keys) src !! k = Some v) by by apply map_lookup_filter_Some_2.
  split.
  - intros [Ho Hne]. rewrite <-Hd in Ho by done. by rewrite lookup_union_r.
  - destruct (dest !! k) as [w|] eqn:Hw; [exists w; by apply lookup_union_Some_l|exists v; by rewrite lookup_union_r].
Qed.

Lemma plugins_kept settings keys own src :
  Forall (λ k, k ∈ keys) settings → plugin_kept settings own src (merge_plugin keys own src).
Proof.
  intros Hsub p ->. unfold merge_plugin. destruct own as [own|]; simpl; eexists; (split; [done|]).
  - by apply fields_kept.
  - intros k v Hk Hv. split; [done|by eexists].
Qed.

Lemma merged_kept own dest src : wanted_of own dest → settings_kept own src (mergeDriverSpecs dest src).
Proof.
  intros (Hf & Hn & Hc). unfold mergeDriverSpecs, settings_kept. simpl. rewrite Hn, Hc. split_and!.
  - apply fields_kept; [|done]. apply (bool_decide_unpack _). vm_compute. exact I.
  - apply plugins_kept. apply (bool_decide_unpack _). vm_compute. exact I.
  - apply plugins_kept. apply (bool_decide_unpack _). vm_compute. exact I.
Qed.

Lemma wanted_driver_spec t driver acc : spec (λ _, True) (wanted_driver t driver acc) (λ r, wanted_of (own_spec driver) r.1).
Proof.
  unfold wanted_driver. fold (own_spec driver). assert (Hown : wanted_of (own_spec driver) (own_spec driver)) by done.
  destruct (decide _) as [Ht|Ht]; [|by apply spec_ret]. apply spec_bind_any; [apply spec_triv|]. intros [err|]; apply spec_ret; [done|].
  split_and!; [|done|done]. intros k Hk. simpl. by rewrite lookup_insert_ne.
Qed.

Lemma wanted_driver_traced Pre t driver acc :
  lasting Pre → traced csi_write_ok Pre (wanted_driver t driver acc) (λ r h, wanted_of (own_spec driver) r.1 ∧ Pre h).
Proof.
  intros Hl. eapply traced_and_spec; [apply wanted_driver_spec|]. unfold wanted_driver. destruct (decide _) as [Ht|Ht]; [|by apply traced_ret].
  apply (traced_bind _ _ _ _ (λ _, Pre)); [apply traced_call; intros h Hh; split; [done|by apply Hl]|]. intros [e|]; by apply traced_ret.
Qed.

Lemma driver_traced acc driverType driver :
  drivers_to_have params c !! driverType = Some driver → csi_traced since (driver_step rookNs params acc (driverType, driver)).
Proof.
  intros Hin. unfold driver_step. set (name := driver_name rookNs driverType).
  assert (Hw : wanted name driver) by by exists driverType.
  eapply traced_bind; [apply (traced_ask _ _ h0); [apply prefix_lasting|done|done]|]. intros [old [e|]]; cbv beta iota.
  - destruct (is_not_found e) eqn:He; [|apply since_ret; by intros h []].
    eapply traced_bind; [apply wanted_driver_traced; eauto with lasting|]. intros [spec acc']. apply traced_pure. intros Hown. simpl in Hown. cbv beta iota.
    eapply traced_bind; [apply csi_apply; [by intros h []|]|intros [e'|]; by apply since_ret].
    intros h [Ha _]. exists driver, old, e. done.
  - destruct (foreign params (cdv_Labels old) && bool_decide (driver = None)) eqn:Hf; [apply since_ret; by intros h []|].
    assert (Hfor : foreign params (cdv_Labels old) = true → is_Some driver).
    { intros Hx. rewrite Hx in Hf. destruct driver; [by eexists|done]. }
    eapply traced_bind; [apply wanted_driver_traced; eauto with lasting|]. intros [spec acc']. apply traced_pure. intros Hown. simpl in Hown. cbv beta iota.
    unfold write_driver. destruct (AlignBaseLabels _ _) as [labels lu]. destruct (_ || _); [|apply since_ret; by intros h []].
    eapply traced_bind; [apply csi_apply; [by intros h []|]|intros [e'|]; by apply since_ret].
    intros h [Ha _]. exists name, driver, old. split_and!; [done|done|done|done|].
    intros s -> Hs. simpl. rewrite Hs. by apply merged_kept.
Qed.

Lemma drop_traced items acc driver :
  driver ∈ items →
  traced csi_write_ok (λ h, drivers_read (items, None) h ∧ h0 `prefix_of` h)
    (drop_driver params ((λ '(t, _), driver_name rookNs t) <$> map_to_list (drivers_to_have params c)) acc driver)
    (λ _ h, drivers_read (items, None) h ∧ h0 `prefix_of` h).
Proof.
  intros Hin. unfold drop_driver. destruct (decide _) as [|Hn]; [by apply traced_ret|].
  destruct (foreign params (cdv_Labels driver)) eqn:Hf; [by apply traced_ret|].
  apply (traced_bind _ _ _ _ (λ _ h, drivers_read (items, None) h ∧ h0 `prefix_of` h)); [|intros [e|]; by apply traced_ret].
  apply traced_call. intros h Hh. split; [|by apply and_lasting; [apply asked_lasting|apply prefix_lasting|]].
  split; [done|]. exists items, driver. split_and!; [apply Hh|done|done|done|].
  intros d (t & Ht & Hd). apply Hn. rewrite Ht. apply list_elem_of_fmap. exists (t, d). split; [done|]. by apply elem_of_map_to_list.
Qed.

Lemma drivers_traced : csi_traced since (ensureCsiDrivers rookNs params c).
Proof.
  unfold ensureCsiDrivers. eapply traced_bind.
  { apply (traced_foldM_inv _ _ (λ _, since)). intros [t d] acc Hd%elem_of_range. by apply driver_traced. }
  intros acc. eapply traced_bind; [apply (traced_ask _ _ h0); [apply prefix_lasting|done|done]|]. intros [items [e|]].
  { apply traced_bind_ret. apply since_ret. by intros h []. }
  eapply traced_bind; [apply (traced_foldM_inv _ _ (λ _ h, drivers_read (items, None) h ∧ h0 `prefix_of` h)); intros d acc' Hd; by apply drop_traced|].
  intros acc'. apply since_ret. by intros h [].
Qed.

Lemma config_traced : csi_traced since (ensureCsiOperatorConfig rookNs params c).
Proof.
  unfold ensureCsiOperatorConfig. eapply traced_bind; [apply (traced_ask _ _ h0); [apply prefix_lasting|done|done]|].
  intros [old [e|]]; cbv beta iota.
  - destruct (is_not_found e) eqn:He; [|apply since_ret; by intros h []]. unfold write_config.
    destruct (wanted_config _ _ _) as [spec|]; [|apply since_ret; by intros h []].
    eapply traced_bind; [apply csi_apply; [by intros h []|]|intros [e'|]; by apply since_ret]. intros h [Ha _]. by exists old, e.
  - destruct (foreign params (cof_Labels old) && bool_decide (spec_config c = None)) eqn:Hf; [apply since_ret; by intros h []|].
    unfold write_config. destruct (wanted_config _ _ _) as [spec|]; [|apply since_ret; by intros h []].
    destruct (AlignBaseLabels _ _) as [labels lu]. destruct (_ || _); [|apply since_ret; by intros h []].
    eapply traced_bind; [apply csi_apply; [by intros h []|]|intros [e'|]; by apply since_ret]. intros h [Ha _]. exists old.
    split_and!; [done|done|]. intros Hx. rewrite Hx in Hf. destruct (spec_config c); [by eexists|done].
Qed.

End csi.

(** ** The keys for OpenStack *)

(** A client that serves a role now. *)
Definition serves (c : deployConfig) (role : string) (client : RookClient) : Prop :=
  let labels := default ∅ (rcl_Labels client) in
  labels !! cephDeploymentClientRoleLabel = Some role ∧
  match labels !! cephDeploymentClientRotationLabel with
  | Some rotation => rotation = pretty (current_rotation c)
  | None => labels !! cephDeploymentClientLatestLabel = Some "true"
  end.

Lemma scan_dom rotation services client : dom (scan_step rotation services client) = dom services.
Proof.
  unfold scan_step. destruct (_ !! cephDeploymentClientRoleLabel) as [role|]; [|done]. case_bool_decide as Hr; [|done].
  destruct (match _ with Some _ => _ | None => _ end); [|done]. apply elem_of_dom in Hr. set_solver.
Qed.

Lemma scanned c clients services :
  (∀ role client, services !! role = Some (Some client) → False) →
  dom (foldl (scan_step (current_rotation c)) services clients) = dom services ∧
  (∀ role client, foldl (scan_step (current_rotation c)) services clients !! role = Some (Some client) → client ∈ clients ∧ serves c role client).
Proof.
  intros Hnone. induction clients as [|client clients [IHd IHs]] using rev_ind; [split; [done|]; intros role client Hr; by destruct (Hnone role client)|].
  rewrite foldl_app. simpl. split; [by rewrite scan_dom|]. intros role client' Hr.
  assert (Hold : foldl (scan_step (current_rotation c)) services clients !! role = Some (Some client') → client' ∈ clients ++ [client] ∧ serves c role client').
  { intros Ho. destruct (IHs role client' Ho). split; [apply elem_of_app; by left|done]. }
  unfold scan_step in Hr. destruct (_ !! cephDeploymentClientRoleLabel) as [r|] eqn:Hl; [|by apply Hold].
  case_bool_decide as Hin; [|by apply Hold].
  destruct (match _ with Some _ => _ | None => _ end) eqn:Hcur; [|by apply Hold].
  destruct (decide (role = r)) as [->|Hne]; [|rewrite lookup_insert_ne in Hr by done; by apply Hold].
  rewrite lookup_insert_eq in Hr. injection Hr as ->. split; [apply elem_of_app; right; left|]. unfold serves. rewrite Hl. split; [done|].
  destruct (_ !! cephDeploymentClientRotationLabel); by apply bool_decide_eq_true in Hcur.
Qed.

Lemma services_open c role client : openstack_services c !! role = Some (Some client) → False.
Proof.
  unfold openstack_services. destruct (dsp_SharedFilesystem _) as [[|fs l]|]; rewrite ?lookup_insert_Some; setoid_rewrite lookup_singleton_Some;
    naive_solver.
Qed.

Lemma ready_names c clients names :
  let services := foldl (scan_step (current_rotation c)) (openstack_services c) clients in
  names = omap ready_client services → dom names = dom services →
  ∀ role, is_Some (openstack_services c !! role) →
    ∃ client, client ∈ clients ∧ serves c role client ∧ rcl_Phase client = Some "Ready" ∧ names !! role = Some (cls_Name (rcl_Spec client)).
Proof.
  intros services Hn Hd role Hr. destruct (scanned c clients (openstack_services c)) as [Hdom Hs]; [apply services_open|].
  apply elem_of_dom in Hr. fold services in Hdom, Hs. rewrite <-Hdom, <-Hd in Hr. apply elem_of_dom in Hr as [name Hname].
  pose proof Hname as Ho. rewrite Hn in Ho. apply lookup_omap_Some in Ho as ([client|] & Hready & Hserv); [|done].
  destruct (Hs role client Hserv) as [Hc Hcur]. exists client. simpl in Hready. destruct (decide _) as [Hp|]; [|done]. injection Hready as ->. done.
Qed.

(** The description of a client, up to its pools. *)
Definition same_client (info info' : OpenstackClientInfo) : Prop :=
  oci_Name info' = oci_Name info ∧ oci_ID info' = oci_ID info ∧ oci_Keyring info' = oci_Keyring info.

Definition same_clients (cs cs' : openstack_clients) : Prop :=
  same_client (opc_nova cs) (opc_nova cs') ∧ same_client (opc_glance cs) (opc_glance cs') ∧ same_client (opc_cinder cs) (opc_cinder cs').

Lemma role_clients role description cs : same_clients cs (add_role role description cs).
Proof. unfold add_role. repeat destruct (decide _); repeat split. Qed.

Lemma described `{SpecDecoder} pools names cs cs' : describe_pools pools names cs = Some cs' → same_clients cs cs'.
Proof.
  revert names cs. induction pools as [|pool pools IH]; intros names cs; simpl; [intros [= <-]; repeat split|].
  destruct names as [|name names]; [done|]. intros Hd%IH. pose proof (role_clients (pool_role pool)
    (name +:+ ":" +:+ pool_role pool +:+ ":" +:+ ps_DeviceClass (CephPool_GetSpec pool).1) cs) as Hr.
  unfold same_clients, same_client in *. intuition congruence.
Qed.

(** What the gateways add leaves the clients alone. *)
Definition client_keys : list string := ["nova"; "glance"; "cinder"; "manila"].
Definition same_keys (data data' : gmap string string) : Prop := ∀ k, k ∈ client_keys → data' !! k = data !! k.

Lemma same_insert data data' k v : k ∉ client_keys → same_keys data data' → same_keys data (<[k := v]> data').
Proof. intros Hk Hs k' Hk'. rewrite lookup_insert_ne; [by apply Hs|]. by intros ->. Qed.

Ltac client_data := repeat (apply same_insert; [by vm_compute; set_solver|]); try done.

Section openstack.
Context `{World} `{HealthWorld} `{DeployWorld} `{SpecDecoder} `{ResourceWorld} `{StoreWorld} `{ServiceWorld} `{MapRange}.
Variables (rookNs : string) (params : DeployParams) (c : deployConfig) (h0 : history).
Let sharedNs : string := dp_OpenstackCephSharedNamespace params.

Abbreviation keeps_keys data := (λ r, ∀ data', r = Some data' → same_keys data data').

(** Nothing is written meanwhile. *)
Definition only_reads (e : event) : Prop := match e with EvRead _ _ _ | EvCeph _ _ => True | _ => False end.

Lemma public_keys d storage rgw data : spec only_reads (public_endpoint rookNs c d storage rgw data) (keeps_keys data).
Proof.
  unfold public_endpoint. destruct (cos_GatewayHTTPRoutes storage) as [|route routes].
  - assert (Hd : spec only_reads (match osd_rgwSecret d with Some s => ret (Some (domain_endpoint s rgw data)) | None => ret (Some data) end) (keeps_keys data)).
    { destruct (osd_rgwSecret d); apply spec_ret; intros data' [= <-]; [|done]. unfold domain_endpoint. destruct (decide (_ = EmptyString)); client_data. }
    destruct (getIngressTLS _) as [tls|]; [|exact Hd]. destruct (cp_KeepIngress _); [|exact Hd].
    eapply (spec_bind _ _ _ (λ data', same_keys data data')); [|intros data' Hs; apply spec_ret; by intros ? [= <-]].
    unfold ingress_endpoint. destruct (itc_TLSCerts tls) as [[[ca ?] ?]|]; [apply spec_ret; client_data|].
    destruct (decide _) as [|]; [apply spec_ret; client_data|]. apply spec_bind_any; [by apply spec_call|].
    intros [secret [e|]]; apply spec_ret; [client_data|]. destruct (_ !! _); client_data.
  - apply spec_ret. unfold route_endpoint. destruct (list_find _ _) as [[? r]|]; [|by intros ? [= <-]].
    destruct (hrs_Hostnames _); [done|]. intros ? [= <-]. client_data.
Qed.

Lemma endpoint_keys d storage data : spec only_reads (rgw_endpoints rookNs c d storage data) (keeps_keys data).
Proof.
  unfold rgw_endpoints. destruct (list_find _ _) as [[? rgw]|]; [|apply spec_ret; by intros ? [= <-]].
  eapply (spec_bind _ _ _ (keeps_keys data)).
  - destruct (external_cluster c).
    + apply spec_ret. intros ? [= <-]. unfold external_endpoint. destruct (decide _); [done|]. destruct (_ ≫= _); client_data.
    + assert (Hi : same_keys data (internal_endpoint rookNs d rgw (CephObjectStore_GetSpec rgw).1 data)).
      { unfold internal_endpoint. destruct (osd_rgwInternalCert d); client_data. }
      eapply spec_post; [apply public_keys|]. intros r Hr data' ->. intros k Hk. rewrite (Hr data' eq_refl k Hk). by apply Hi.
  - intros r Hr. apply spec_ret. intros data' Hd. apply fmap_Some in Hd as (data1 & -> & ->). specialize (Hr data1 eq_refl).
    destruct (osd_rgwMetricsSecret d); client_data.
Qed.

(** The secret has the keys of the clients. *)
Definition has_key (d : openstackSecretData) (secret : DataObject) (role : string) : Prop :=
  ∀ info, osd_clientsInfo d !! role = Some info → ∃ info', same_client info info' ∧ dob_Data secret !! role = Some (json_of_ClientInfo info').

Lemma generated_keys d :
  spec only_reads (generateOpenstackSecret rookNs params c d) (λ r, ∀ secret, r = Some secret → ∀ role, role ∈ client_keys → has_key d secret role).
Proof.
  unfold generateOpenstackSecret. destruct (_ ≫= _) as [cs|] eqn:Hp; [|by apply spec_ret].
  apply bind_Some in Hp as (pools & _ & Hp%described). set (data0 := match osd_clientsInfo d !! "manila" with Some _ => _ | None => _ end).
  eapply (spec_bind _ _ _ (keeps_keys data0)).
  { destruct (dsp_ObjectStorage _) as [storage|]; [apply endpoint_keys|apply spec_ret; by intros ? [= <-]]. }
  intros r Hr. apply spec_ret. intros secret Hs role Hrole info Hinfo. apply fmap_Some in Hs as (data & -> & ->). simpl.
  rewrite (Hr data eq_refl role Hrole). destruct Hp as (Hn & Hg & Hc). cbn [opc_nova opc_glance opc_cinder] in Hn, Hg, Hc. unfold client_info in Hn, Hg, Hc.
  unfold client_keys in Hrole. rewrite !elem_of_cons in Hrole.
  destruct Hrole as [->|[->|[->|[->|?%elem_of_nil]]]]; try done; unfold data0.
  - rewrite Hinfo in Hn. exists (opc_nova cs). split; [done|]. destruct (osd_clientsInfo d !! "manila"); by simplify_map_eq.
  - rewrite Hinfo in Hg. exists (opc_glance cs). split; [done|]. destruct (osd_clientsInfo d !! "manila"); by simplify_map_eq.
  - rewrite Hinfo in Hc. exists (opc_cinder cs). split; [done|]. destruct (osd_clientsInfo d !! "manila"); by simplify_map_eq.
  - exists info. rewrite Hinfo. split; [done|by rewrite lookup_insert_eq].
Qed.

(** *** What was read before the secret is written *)

Definition pool_read (name : string) := asked h0 (EvRead "CephBlockPool" rookNs name) (λ h, w_blockpool_get h rookNs name).
Definition clients_read :=
  asked h0 (EvRead "CephClientList" rookNs cephDeploymentClientRoleLabel) (λ h, w_client_labelled h rookNs cephDeploymentClientRoleLabel).

Definition key_read (name key : string) (h : history) : Prop :=
  key ≠ EmptyString ∧ passed h0 (RunCephToolboxCLI rookNs ("ceph auth get-key client." +:+ name)) (key, None) h.

(** The pools OpenStack uses were ready. *)
Definition pool_ok (name : string) (h : history) : Prop := ∃ p, pool_read name (p, None) h ∧ bpo_Phase p = Some "Ready".
Definition pools_ok (pools : list CephPool) (names : list string) (h : history) : Prop :=
  ∀ i pool, pools !! i = Some pool → openstack_role pool = true → ∃ name, names !! i = Some name ∧ pool_ok name h.

(** Every service has the key of the client that serves it now. *)
Definition keys_ok (secret : DataObject) (h : history) : Prop :=
  ∃ clients, clients_read (clients, None) h ∧ ∀ role, is_Some (openstack_services c !! role) →
    ∃ client key info, client ∈ clients ∧ serves c role client ∧ rcl_Phase client = Some "Ready" ∧
      key_read (cls_Name (rcl_Spec client)) key h ∧ dob_Data secret !! role = Some (json_of_ClientInfo info) ∧
      oci_ID info = cls_Name (rcl_Spec client) ∧ oci_Name info = "client." +:+ cls_Name (rcl_Spec client) ∧ oci_Keyring info = key.

Definition shared_write_ok (h : history) (e : event) : Prop :=
  match e with
  | EvApply process (RSecret secret) =>
      keys_disabled c = false ∧ dc_openstackSetup c = true ∧
      (∃ pools, dsp_BlockStorage (cdp_Spec (dc_cephDpl c)) = Some pools ∧ pools_ok pools (dc_pools c) h) ∧ keys_ok secret h
  | EvRead _ _ _ | EvCeph _ _ => True
  | _ => False
  end.

Abbreviation since := (λ h, h0 `prefix_of` h).
Hint Resolve prefix_lasting : core.

Lemma reads_ok h e : only_reads e → shared_write_ok h e.
Proof. by destruct e. Qed.

Lemma pool_ok_lasting name : lasting (pool_ok name).
Proof. intros h evs (p & Hp & Hr). exists p. split; [by apply asked_lasting|done]. Qed.

Lemma pools_ok_lasting pools names : lasting (pools_ok pools names).
Proof. intros h evs Hp i pool Hi Ho. destruct (Hp i pool Hi Ho) as (name & Hn & Hok). exists name. split; [done|by apply pool_ok_lasting]. Qed.

Lemma key_read_lasting name key : lasting (key_read name key).
Proof. intros h evs [Hk Hp]. split; [done|by apply passed_lasting]. Qed.

Lemma pool_ready_traced name :
  traced shared_write_ok since (isCephPoolReady rookNs name) (λ ready h, (ready = true → pool_ok name h) ∧ h0 `prefix_of` h).
Proof.
  unfold isCephPoolReady. eapply traced_bind; [apply (traced_ask _ _ h0); done|]. intros [p [e|]]; apply traced_ret; intros h [Ha Hs]; [done|].
  split; [|done]. intros Hr%bool_decide_eq_true. by exists p.
Qed.

Lemma unready_traced pools names acc :
  traced shared_write_ok since (unready_pools rookNs pools names acc) (λ r h, (r = Some [] → acc = [] ∧ pools_ok pools names h) ∧ h0 `prefix_of` h).
Proof.
  revert names acc. induction pools as [|pool pools IH]; intros names acc; simpl.
  { apply traced_ret. intros h Hh. split; [|done]. intros [= ->]. by split. }
  destruct (openstack_role pool) eqn:Hrole.
  - destruct names as [|name names]; [by apply traced_ret|]. eapply traced_bind; [apply pool_ready_traced|]. intros ready.
    eapply traced_weaken; [apply (traced_frame _ (λ h, ready = true → pool_ok name h)), IH; apply impl_lasting, pool_ok_lasting|done|].
    intros r h (Hok & Hr & Hs). split; [|done]. intros Hnil. destruct (Hr Hnil) as [Hacc Hp].
    destruct ready; [|by destruct acc]. split; [done|]. intros [|i] p Hi Ho; [exists name; by split; [|apply Hok]|exact (Hp i p Hi Ho)].
  - eapply traced_weaken; [apply IH|done|]. intros r h (Hr & Hs). split; [|done]. intros Hnil. destruct (Hr Hnil) as [Hacc Hp].
    split; [done|]. intros [|i] p Hi Ho; [injection Hi as ->; congruence|]. destruct (Hp i p Hi Ho) as (name & Hn & Hok).
    exists name. split; [|done]. by destruct names.
Qed.

Lemma names_traced :
  traced shared_write_ok since (getOpenstackClientNames rookNs c) (λ r h,
    (∀ names, r = inl names → ∃ clients, clients_read (clients, None) h ∧ ∀ role, is_Some (openstack_services c !! role) →
       ∃ client, client ∈ clients ∧ serves c role client ∧ rcl_Phase client = Some "Ready" ∧ names !! role = Some (cls_Name (rcl_Spec client))) ∧
    h0 `prefix_of` h).
Proof.
  unfold getOpenstackClientNames. eapply traced_bind; [apply (traced_ask _ _ h0); done|]. intros [clients [e|]]; apply traced_ret; intros h [Ha Hs]; [done|].
  split; [|done]. intros names. destruct (decide _) as [Hd|]; [|done]. intros [= <-]. exists clients. split; [done|]. by apply ready_names.
Qed.

(** The keys that were read, for the services looked at. *)
Definition keys_read (names : gmap string string) (done : list (string * string)) (infos : gmap string OpenstackClientInfo) (h : history) : Prop :=
  ∀ role name, (role, name) ∈ done → names !! role = Some name ∧
    ∃ key, infos !! role = Some (mkClientInfo ("client." +:+ name) name key []) ∧ key_read name key h.

Lemma keys_read_lasting names don infos : lasting (keys_read names don infos).
Proof.
  intros h evs Hk role name Hin. destruct (Hk role name Hin) as [Hn (key & Hi & Hr)]. split; [done|]. exists key. split; [done|by apply key_read_lasting].
Qed.

Lemma keys_read_insert names don infos role name key h :
  names !! role = Some name → key_read name key h → keys_read names don infos h →
  keys_read names (don ++ [(role, name)]) (<[role := mkClientInfo ("client." +:+ name) name key []]> infos) h.
Proof.
  intros Hn Hkey Hk role' name' [Hin|[= -> ->]%list_elem_of_singleton]%elem_of_app.
  - destruct (Hk role' name' Hin) as [Hn' (key' & Hi & Hr)]. split; [done|]. destruct (decide (role' = role)) as [->|Hne].
    + assert (name' = name) as -> by congruence. exists key. by rewrite lookup_insert_eq.
    + exists key'. by rewrite lookup_insert_ne.
  - split; [done|]. exists key. by rewrite lookup_insert_eq.
Qed.

Lemma command_reads cmd : spec only_reads (RunCephToolboxCLI rookNs cmd) (λ _, True).
Proof.
  unfold RunCephToolboxCLI, RunPodCmdAndCheckError. apply spec_bind_any; [apply spec_bind_any; [by apply spec_call|]|].
  - intros [[o e] [err|]]; by apply spec_ret.
  - intros [[o e] [err|]]; by apply spec_ret.
Qed.

Lemma keys_traced names :
  traced shared_write_ok since (getCephClientAuthKeys rookNs names) (λ r h,
    (∀ infos, r = inl infos → ∀ role name, names !! role = Some name →
       ∃ key, infos !! role = Some (mkClientInfo ("client." +:+ name) name key []) ∧ key_read name key h) ∧ h0 `prefix_of` h).
Proof.
  unfold getCephClientAuthKeys. eapply traced_bind.
  - eapply traced_weaken; [apply (traced_foldM _ _ (λ don acc h, (acc.2 = [] → keys_read names don acc.1 h) ∧ h0 `prefix_of` h))| |].
    2: { intros h Hh. split; [|done]. intros _ role name []%not_elem_of_nil. }
    2: { intros a h Hh. exact Hh. }
    intros don [role name] [infos errs] Hin%elem_of_range. unfold key_step. simpl.
    eapply traced_bind; [apply (traced_passed _ _ only_reads h0 (RunCephToolboxCLI rookNs ("ceph auth get-key client." +:+ name)))|].
    + apply and_lasting; [apply impl_lasting, keys_read_lasting|done].
    + by intros h [].
    + apply command_reads.
    + intros h e _. apply reads_ok.
    + intros [key [e|]]; apply traced_ret; intros h (Hp & Hk & Hs); simpl; [split; [by intros [_ ?]%app_nil|done]|].
      destruct (decide _) as [|Hne]; simpl; (split; [|done]); [by intros [_ ?]%app_nil|]. intros He. apply keys_read_insert; [done|by split|by apply Hk].
  - intros [infos errs]. apply traced_ret. intros h [Hk Hs]. split; [|done]. intros infos' Hr role name Hn. simpl in Hr, Hk.
    destruct errs; [|done]. injection Hr as <-. apply Hk; [done|]. by apply elem_of_range.
Qed.

(** Everything that is known when the secret is made. *)
Definition keys_known (infos : gmap string OpenstackClientInfo) (h : history) : Prop :=
  ∃ clients, clients_read (clients, None) h ∧ ∀ role, is_Some (openstack_services c !! role) →
    ∃ client key, client ∈ clients ∧ serves c role client ∧ rcl_Phase client = Some "Ready" ∧ key_read (cls_Name (rcl_Spec client)) key h ∧
      infos !! role = Some (mkClientInfo ("client." +:+ cls_Name (rcl_Spec client)) (cls_Name (rcl_Spec client)) key []).

Lemma keys_known_lasting infos : lasting (keys_known infos).
Proof.
  intros h evs (clients & Hc & Hk). exists clients. split; [by apply asked_lasting|]. intros role Hr.
  destruct (Hk role Hr) as (client & key & Hin & Hs & Hp & Hkey & Hi). exists client, key. split_and!; try done. by apply key_read_lasting.
Qed.

Lemma services_keys role : is_Some (openstack_services c !! role) → role ∈ client_keys.
Proof.
  unfold openstack_services, client_keys. intros [x Hx]. destruct (dsp_SharedFilesystem _) as [[|fs l]|];
    rewrite ?lookup_insert_Some, lookup_singleton_Some in Hx; set_solver.
Qed.

Lemma known_ok infos secret h :
  keys_known infos h → (∀ role, role ∈ client_keys → ∀ info, infos !! role = Some info →
    ∃ info', same_client info info' ∧ dob_Data secret !! role = Some (json_of_ClientInfo info')) → keys_ok secret h.
Proof.
  intros (clients & Hc & Hk) Hd. exists clients. split; [done|]. intros role Hr. destruct (Hk role Hr) as (client & key & Hin & Hs & Hp & Hkey & Hi).
  destruct (Hd role (services_keys role Hr) _ Hi) as (info & (Hname & Hid & Hring) & Hdata). exists client, key, info. done.
Qed.

Lemma metrics_reads : spec only_reads (getRgwMetricsUserSecrets rookNs) (λ _, True).
Proof.
  unfold getRgwMetricsUserSecrets. apply spec_bind_any; [by apply spec_call|]. intros [user [e|]]; [by apply spec_ret|].
  destruct (decide (rus_Phase user = _)); [|by apply spec_ret]. destruct (decide (_ = EmptyString)); [by apply spec_ret|].
  apply spec_bind_any; [by apply spec_call|]. intros [secret [e'|]]; by apply spec_ret.
Qed.

Lemma rgw_reads infos monMap adminSecret :
  spec only_reads (rgw_secrets rookNs params c infos monMap adminSecret) (λ d, osd_clientsInfo d = infos).
Proof.
  unfold rgw_secrets. destruct (_ ≫= _) as [[? rgw]|]; [|by apply spec_ret].
  do 2 (apply spec_bind_any; [by apply spec_call|]; intros ?). apply spec_bind_any; [apply metrics_reads|]. intros r. by apply spec_ret.
Qed.

Lemma shared_secret_traced Pre secret :
  lasting Pre → (∀ h s process, Pre h → dob_Data s = dob_Data secret → shared_write_ok h (EvApply process (RSecret s))) →
  traced shared_write_ok Pre (write_shared_secret params secret) (λ _, Pre).
Proof.
  intros Hl Hw. unfold write_shared_secret. apply (traced_bind _ _ _ _ (λ _, Pre)); [apply traced_call; intros h Hh; split; [done|by apply Hl]|].
  assert (Ha : ∀ s process, dob_Data s = dob_Data secret → traced shared_write_ok Pre (apply_resource process (RSecret s)) (λ _, Pre)).
  { intros s process Hd. apply traced_call. intros h Hh. split; [by apply Hw|by apply Hl]. }
  intros [current [e|]].
  - destruct (is_not_found e); [|by apply traced_ret]. eapply traced_bind; [by apply Ha|]. intros [e'|]; by apply traced_ret.
  - destruct (AlignBaseLabels _ _) as [labels lu]. destruct (negb _ || lu) eqn:Hd; [|by apply traced_ret].
    eapply traced_bind; [apply Ha|intros [e'|]; by apply traced_ret]. case_bool_decide as Hb; simpl; [done|done].
Qed.

(** Reading keeps what is known. *)
Lemma reads_traced {A} (Pre : history → Prop) (m : IO A) (Q : A → Prop) :
  lasting Pre → spec only_reads m Q → traced shared_write_ok Pre m (λ a h, Q a ∧ Pre h).
Proof. intros Hl Hm. apply (traced_spec _ _ only_reads); [done|done|]. intros h e _. apply reads_ok. Qed.

Lemma share_rest (Pre : history → Prop) infos monMap adminSecret :
  lasting Pre → (∀ h s process, Pre h → (∀ role, role ∈ client_keys → ∀ info, infos !! role = Some info →
    ∃ info', same_client info info' ∧ dob_Data s !! role = Some (json_of_ClientInfo info')) → shared_write_ok h (EvApply process (RSecret s))) →
  traced shared_write_ok Pre
    (let* d := rgw_secrets rookNs params c infos monMap adminSecret in
     let* osSecret := generateOpenstackSecret rookNs params c d in
     match osSecret with
     | None => ret None
     | Some osSecret => let* r := write_shared_secret params osSecret in ret (Some r)
     end) (λ _, Pre).
Proof.
  intros Hl Hw. eapply traced_bind; [apply reads_traced; [done|apply rgw_reads]|]. intros d. apply traced_pure. intros <-.
  eapply traced_bind; [apply reads_traced; [done|apply generated_keys]|]. intros osSecret. apply traced_pure. intros Hk.
  destruct osSecret as [secret|]; [|by apply traced_ret]. eapply traced_bind; [apply shared_secret_traced; [done|]|intros r; by apply traced_ret].
  intros h s process Hh Hd. apply Hw; [done|]. rewrite Hd. intros role Hrole. by apply (Hk secret).
Qed.

Lemma share_traced (Pre : history → Prop) :
  lasting Pre → (∀ h, Pre h → h0 `prefix_of` h) → (∀ h s process, Pre h → keys_ok s h → shared_write_ok h (EvApply process (RSecret s))) →
  traced shared_write_ok Pre (share_keys rookNs params c) (λ _ _, True).
Proof.
  intros Hl Hs Hw. unfold share_keys.
  eapply traced_bind; [eapply (traced_weaken _ (λ h, Pre h ∧ h0 `prefix_of` h)); [apply traced_frame, names_traced; done|auto|]|].
  { intros a h Hh. exact Hh. }
  intros [names|e]; [|apply traced_ret; auto]. cbv beta.
  eapply traced_bind; [eapply (traced_weaken _ (λ h, (Pre h ∧ ∃ clients, clients_read (clients, None) h ∧ ∀ role, is_Some (openstack_services c !! role) →
       ∃ client, client ∈ clients ∧ serves c role client ∧ rcl_Phase client = Some "Ready" ∧ names !! role = Some (cls_Name (rcl_Spec client))) ∧ h0 `prefix_of` h));
       [apply traced_frame, (keys_traced names)| |]|].
  { apply and_lasting; [done|]. unfold clients_read. auto with lasting. }
  { intros h (Hp & Hn & Hpre). split; [split; [done|by apply Hn]|done]. }
  { intros a h Hh. exact Hh. }
  intros [infos|e]; [|apply traced_ret; auto]. cbv beta.
  apply (traced_weaken _ (λ h, Pre h ∧ keys_known infos h) _ _ (λ _ _, True)).
  2: { intros h ((Hp & clients & Hc & Hserv) & Hk & Hpre). split; [done|]. exists clients. split; [done|]. intros role Hr.
       destruct (Hserv role Hr) as (client & Hin & Hsv & Hph & Hn). destruct (Hk infos eq_refl role _ Hn) as (key & Hi & Hkey).
       exists client, key. done. }
  2: { done. }
  assert (Hlk : lasting (λ h, Pre h ∧ keys_known infos h)) by (apply and_lasting; [done|apply keys_known_lasting]).
  eapply traced_bind; [apply (reads_traced _ _ (λ _, True) Hlk); apply spec_bind_any; [by apply spec_call|]; intros r; by apply spec_ret|].
  intros [monMap|e]; [|apply traced_ret; auto]. apply traced_pure. intros _.
  eapply traced_bind; [apply (reads_traced _ _ (λ _, True) Hlk); apply spec_bind_any; [by apply spec_call|]; intros r; by apply spec_ret|].
  intros [adminSecret|e]; [|apply traced_ret; auto]. apply traced_pure. intros _.
  eapply traced_weaken; [apply (share_rest _ infos monMap adminSecret Hlk)|done|done].
  intros h s process [Hp Hk] Hd. apply Hw; [done|]. by eapply known_ok.
Qed.

(** C27: The secret with the keys of Ceph for OpenStack is written only on a deployment for
    OpenStack whose keys are not disabled, and nothing else is written meanwhile: every pool of
    the spec with one of the roles of OpenStack was read and ready, and for every service (nova,
    glance, cinder, and manila if there are shared file systems) the secret has the key, read
    from Ceph and not empty, of a client that was listed, is ready and serves now: the one of
    the current rotation, or without rotations the one marked as the latest. *)
Theorem openstack_keys_current evs1 e evs2 :
  (ensureOpenstackSecret rookNs params c h0).2 = evs1 ++ e :: evs2 → shared_write_ok (h0 ++ evs1) e.
Proof.
  intros Hev. assert (Ht : traced shared_write_ok since (ensureOpenstackSecret rookNs params c) (λ _ _, True)).
  { unfold ensureOpenstackSecret. destruct (_ || _) eqn:Hc; [by apply traced_ret|].
    apply orb_false_iff in Hc as [[_ Hdis]%orb_false_iff Hset%negb_false_iff].
    destruct (dsp_BlockStorage _) as [pools|] eqn:Hpools; [|by apply traced_ret].
    eapply traced_bind; [apply unready_traced|]. intros [[|name names]|]; try by apply traced_ret.
    eapply (traced_weaken _ (λ h, pools_ok pools (dc_pools c) h ∧ h0 `prefix_of` h)); [apply share_traced| |done].
    - apply and_lasting; [apply pools_ok_lasting|done].
    - by intros h [].
    - intros h s process [Hp _] Hk. split_and!; [done|done|by exists pools|done].
    - intros h [Hp Hh]. split; [by apply Hp|done]. }
  destruct (Ht h0) as [_ HP]; [done|]. by eapply HP.
Qed.
End openstack.

(** ** The state of the cluster *)

Section state.
Context `{World} `{HealthWorld} `{DeployWorld} `{SpecDecoder} `{ResourceWorld} `{ServiceWorld} `{MapRange}.
Variables (rookNs : string) (c : deployConfig) (h0 : history).

(** A pool Ceph has made for itself, and the spec says nothing about. *)
Definition overrides (names : list string) (pool : BlockPool) : Prop :=
  bpo_SpecName pool ∈ names ∧ bpo_SpecName pool ∈ builtinCephPools ∧
  ∀ p, p ∈ default [] (dsp_BlockStorage (cdp_Spec (dc_cephDpl c))) → pl_Name p ≠ bpo_SpecName pool.

Lemma builtin_name name spec : Contains builtinCephPools name = true → bpo_SpecName (builtin_pool rookNs name spec) = name.
Proof. intros Hc. unfold builtin_pool, generatePool. cbn [set_bpo_spec bpo_SpecName pl_Name]. by rewrite Hc. Qed.

Lemma ratio_name pool : bpo_SpecName (without_ratio pool) = bpo_SpecName pool.
Proof. unfold without_ratio. by destruct (_ && _). Qed.

Lemma processed_one names name pool : name ∈ names → pool_to_process rookNs c name = inl (Some pool) → overrides names pool.
Proof.
  intros Hin. unfold pool_to_process. destruct (negb _ || _) eqn:Hc; [done|]. apply orb_false_iff in Hc as [Hb%negb_false_iff Hspec].
  assert (Hok : bpo_SpecName pool = name → overrides names pool).
  { intros Hn. unfold overrides. rewrite Hn. split_and!; [done|by apply Contains_spec|]. intros p Hp He.
    apply Bool.not_true_iff_false in Hspec. apply Hspec, existsb_exists. exists p. split; [by apply list_elem_of_In|by apply bool_decide_eq_true]. }
  destruct (decide _).
  - destruct (rgw_root_spec _) as [[spec|]|]; simpl; [|done..]. intros [= <-]. apply Hok. by apply builtin_name.
  - destruct (list_find _ _) as [[i p]|]; simpl; [|done]. intros [= <-]. apply Hok. rewrite ratio_name. by apply builtin_name.
Qed.

Lemma processed_all names cephPools news :
  (∀ name, name ∈ cephPools → name ∈ names) → pools_to_process rookNs c cephPools = inl news → ∀ new, new ∈ news → overrides names new.
Proof.
  revert news. induction cephPools as [|name cephPools IH]; intros news Hsub; simpl; [intros [= <-] new []%not_elem_of_nil|].
  destruct (pool_to_process _ _ _) as [pool|] eqn:Hp; [|done]. destruct (pools_to_process _ _ _) as [pools|] eqn:Hps; [|done]. intros [= <-] new.
  intros [Hnew|Hnew]%elem_of_app; [|eapply IH; [|done|done]; intros; apply Hsub; by right].
  destruct pool as [pool|]; [|by apply elem_of_nil in Hnew]. apply list_elem_of_singleton in Hnew as ->.
  eapply processed_one; [|done]. apply Hsub. left.
Qed.

Lemma matched_name new items items' updated differs :
  match_pool new items = Some (items', updated, differs) → bpo_SpecName updated = bpo_SpecName new.
Proof.
  revert items'. induction items as [|p items IH]; intros items'; simpl; [done|]. destruct (decide _) as [Hn|].
  - unfold aligned_pool. destruct (AlignBaseLabels _ _) as [labels lc]. intros [= _ <- _]. by destruct (negb _).
  - destruct (match_pool new items) as [[[items1 u] d]|]; [|done]. intros [= _ -> ->]. by eapply IH.
Qed.

Definition pool_names_cmd : IO (list string * option err) := RunAndParseCephToolboxCLI [] json_PoolNames rookNs "ceph osd pool ls -f json".

(** The commands: what the spec asks for, and queries. *)
Definition state_commands : list string :=
  ["ceph mgr module ls -f json"; "ceph mgr module enable prometheus"; "ceph config get mgr " +:+ progress_option; "ceph osd pool ls -f json";
   "ceph config set mgr " +:+ progress_option +:+ " " +:+
     (if match dsp_ExtraOpts (cdp_Spec (dc_cephDpl c)) with Some opts => eo_EnableProgressEvents opts | None => false end then "true" else "false")].

Definition state_write_ok (h : history) (e : event) : Prop :=
  match e with
  | EvRead _ _ _ => True
  | EvCeph ns cmd => cmd ∈ state_commands ∧ passed h0 (isCephDeployed rookNs) true h
  | EvApply process (RBlockPool pool) =>
      process ≠ objectDelete ∧ passed h0 (isCephDeployed rookNs) true h ∧ ∃ names, passed h0 pool_names_cmd (names, None) h ∧ overrides names pool
  | _ => False
  end.

Abbreviation deployed := (λ h, passed h0 (isCephDeployed rookNs) true h ∧ h0 `prefix_of` h).

Lemma deployed_lasting : lasting deployed.
Proof. apply and_lasting; [apply passed_lasting|apply prefix_lasting]. Qed.
Hint Resolve deployed_lasting : core.

Definition state_asks (e : event) : Prop := match e with EvRead _ _ _ => True | EvCeph _ cmd => cmd ∈ state_commands | _ => False end.

Lemma asks_ok h e : deployed h → state_asks e → state_write_ok h e.
Proof. intros [Hd _]. by destruct e. Qed.

Lemma state_command cmd : cmd ∈ state_commands → spec state_asks (RunCephToolboxCLI rookNs cmd) (λ _, True).
Proof.
  intros Hc. unfold RunCephToolboxCLI, RunPodCmdAndCheckError. apply spec_bind_any; [apply spec_bind_any; [by apply spec_call|]|].
  - intros [[o e] [err|]]; by apply spec_ret.
  - intros [[o e] [err|]]; by apply spec_ret.
Qed.

Lemma state_parsed {A} (zero : A) decode cmd : cmd ∈ state_commands → spec state_asks (RunAndParseCephToolboxCLI zero decode rookNs cmd) (λ _, True).
Proof.
  intros Hc. unfold RunAndParseCephToolboxCLI. apply spec_bind_any; [by apply state_command|]. intros [o [e|]]; [by apply spec_ret|].
  destruct (decode o) as [a [e|]]; by apply spec_ret.
Qed.

Ltac state_cmd := unfold state_commands; mem.

Lemma prometheus_asks : spec state_asks (verifyPrometheusEnabled rookNs) (λ _, True).
Proof.
  unfold verifyPrometheusEnabled. apply spec_bind_any; [apply state_parsed; state_cmd|]. intros [[on enabled] [e|]]; [by apply spec_ret|].
  destruct (Contains _ _); [by apply spec_ret|]. apply spec_bind_any; [apply state_command; state_cmd|]. intros [o [e|]]; by apply spec_ret.
Qed.

Lemma progress_asks : spec state_asks (verifyProgressEvents rookNs c) (λ _, True).
Proof.
  unfold verifyProgressEvents. apply spec_bind_any; [apply state_command; state_cmd|]. intros [o [e|]]; [by apply spec_ret|].
  destruct (decide _); [|by apply spec_ret]. apply spec_bind_any; [apply state_command; state_cmd|]. intros [o' [e'|]]; by apply spec_ret.
Qed.

Lemma override_traced names acc new :
  overrides names new →
  traced state_write_ok (λ h, passed h0 pool_names_cmd (names, None) h ∧ deployed h) (builtin_step acc new)
    (λ _ h, passed h0 pool_names_cmd (names, None) h ∧ deployed h).
Proof.
  intros Hn. set (Pre := λ h, passed h0 pool_names_cmd (names, None) h ∧ deployed h).
  assert (Hl : lasting Pre) by (apply and_lasting; [apply passed_lasting|done]).
  assert (Ha : ∀ process pool, process ≠ objectDelete → bpo_SpecName pool = bpo_SpecName new → traced state_write_ok Pre (processBlockPools process pool) (λ _, Pre)).
  { intros process pool Hp Hname. unfold processBlockPools, process_object. apply (traced_bind _ _ _ _ (λ _, Pre)); [|intros [e|]; [destruct (_ && _)|]; by apply traced_ret].
    destruct process; [| |done]; (apply traced_call; intros h Hh; split; [|by apply Hl]);
      (split_and!; [done|apply Hh|]); exists names; (split; [apply Hh|]); unfold overrides; by rewrite Hname. }
  unfold builtin_step. destruct acc as [items [errs changed]]. destruct (match_pool new items) as [[[items' updated] [|]]|] eqn:Hm.
  - eapply traced_bind; [apply Ha; [done|by eapply matched_name]|]. intros e. by apply traced_ret.
  - by apply traced_ret.
  - eapply traced_bind; [by apply Ha|]. intros e. by apply traced_ret.
Qed.

Lemma builtin_traced : traced state_write_ok deployed (verifyBuiltinPools rookNs c) (λ _ _, True).
Proof.
  unfold verifyBuiltinPools. eapply traced_bind.
  { apply (traced_passed _ _ state_asks h0 pool_names_cmd); [done|by intros h []|apply state_parsed; state_cmd|apply asks_ok]. }
  intros [names [e|]]; [by apply traced_ret|]. destruct (pools_to_process _ _ _) as [[|new news]|e] eqn:Hn; try by apply traced_ret.
  assert (Hov := processed_all names names _ ltac:(done) Hn).
  assert (Hl : lasting (λ h, passed h0 pool_names_cmd (names, None) h ∧ deployed h)) by (apply and_lasting; [apply passed_lasting|done]).
  apply (traced_bind _ _ _ _ (λ _ h, passed h0 pool_names_cmd (names, None) h ∧ deployed h)).
  { apply traced_call. intros h Hh. split; [done|by apply Hl]. }
  intros [items [e|]]; [by apply traced_ret|].
  eapply traced_bind; [apply (traced_foldM_inv _ _ (λ _ h, passed h0 pool_names_cmd (names, None) h ∧ deployed h))|].
  { intros pool acc Hp. apply override_traced. by apply Hov. }
  intros [items' [[|e errs] changed]]; by apply traced_ret.
Qed.

(** The check of the cluster's state does nothing before the monitors are there.  Then it
    runs no commands but queries, the one that turns the module for prometheus on and the one
    that sets the events about progress as the spec says; and it writes nothing but
    CephBlockPools for pools that Ceph has just listed, that are among those Ceph makes for
    itself, and that the spec does not describe. *)
Theorem state_writes_safe evs1 e evs2 :
  (ensureClusterState rookNs c h0).2 = evs1 ++ e :: evs2 → state_write_ok (h0 ++ evs1) e.
Proof.
  intros Hev. assert (Ht : traced state_write_ok (λ h, h0 `prefix_of` h) (ensureClusterState rookNs c) (λ _ _, True)).
  { unfold ensureClusterState. eapply traced_bind.
    { apply (traced_passed _ _ (λ e, match e with EvRead _ _ _ => True | _ => False end) h0 (isCephDeployed rookNs)); [apply prefix_lasting|done| |].
      - unfold isCephDeployed. apply spec_bind_any; [by apply spec_call|]. intros r. by apply spec_ret.
      - intros h e' _. by destruct e'. }
    intros [|]; [|by apply traced_ret].
    eapply traced_bind; [apply (traced_spec _ _ state_asks); [done|apply prometheus_asks|apply asks_ok]|]. intros [b [e'|]]; [by apply traced_ret|].
    apply traced_pure. intros _.
    eapply traced_bind; [apply (traced_spec _ _ state_asks); [done|apply progress_asks|apply asks_ok]|]. intros [b' [e'|]]; [by apply traced_ret|].
    apply traced_pure. intros _. eapply traced_bind; [apply builtin_traced|]. intros [b'' [e'|]]; by apply traced_ret. }
  destruct (Ht h0) as [_ HP]; [done|]. by eapply HP.
Qed.
End state.
