(* ===== verification/DeployEvents.v ===== *)
(** * Interactions of the operations

    What the operations on resources do to the outside: they keep the promises of the
    interface [ResourceOps], and those that prepare the CephCluster do not write it. *)

From S2P Require Import Prelude GoTime Types HealthTypes DeployTypes World HealthWorld TaskUtils Controller Config Extensions Validate ValidateFacts Trace DeployWorld Resources Pools Clients StorageClasses CastSpec NodeLabels CsiEvict SharedFilesystem Versions NetworkPolicies CephConfig External StoreWorld Multisite Rgw ObjectStorage CsiOperator RbdMirror Openstack IngressProxy DeployController DeployFacts Cluster ClusterState.
Open Scope Z_scope.

Create HintDb op_events.

Section events.
Context `{World} `{HealthWorld} `{DeployWorld} `{SpecDecoder} `{ResourceWorld} `{StoreWorld} `{ServiceWorld} `{RookLib} `{MapRange}.

Ltac ev_step :=
  match goal with
  | |- spec _ (mret' _) _ => by apply spec_ret
  | |- spec _ (call _ _) _ => by apply spec_call
  | |- spec _ (read _ _ _ _) _ => by apply spec_call
  | |- spec _ (mbind' _ _) _ => apply spec_bind_any; [|intros ?]
  | |- spec _ (foldM _ _ _) _ => apply (spec_foldM_inv _ _ (λ _, True)); [done|intros ? ? _ _]
  | |- spec _ (let '(_, _) := ?x in _) _ => destruct x
  | |- spec _ (match ?x with _ => _ end) _ => destruct x
  | |- spec _ (if ?x then _ else _) _ => destruct x
  | |- spec _ _ _ => first [assumption|solve [eauto with op_events]]
  end.
Ltac ev := repeat ev_step.

Abbreviation quiet_op m := (spec resource_event m (λ _, True)).

Lemma object_events kind process r ns name : kind ≠ "CephCluster" → quiet_op (process_object kind process r ns name).
Proof. intros Hk. unfold process_object. destruct process; ev. Qed.

Lemma sync_events_quiet {O} kind ns o_name o_namespace o_phase inj align acc (new : O) :
  kind ≠ "CephCluster" → quiet_op (sync_step kind ns o_name o_namespace o_phase inj align acc new).
Proof. intros Hk. unfold sync_step, sync_process. ev; by apply object_events. Qed.

Lemma drop_events_quiet {O} kind o_name o_namespace inj keep acc (entry : string * O) :
  kind ≠ "CephCluster" → quiet_op (sync_drop kind o_name o_namespace inj keep acc entry).
Proof. intros Hk. unfold sync_drop, sync_process. ev; by apply object_events. Qed.

Hint Extern 1 (spec resource_event (process_object _ _ _ _ _) _) => apply object_events; done : op_events.
Hint Extern 1 (spec resource_event (sync_step _ _ _ _ _ _ _ _ _) _) => apply sync_events_quiet; done : op_events.
Hint Extern 1 (spec resource_event (sync_drop _ _ _ _ _ _ _) _) => apply drop_events_quiet; done : op_events.

Lemma pools_events ns c : quiet_op (ensurePools ns c).
Proof. unfold ensurePools, pool_step, drop_step. ev. Qed.

Lemma pools_removed_events ns : quiet_op (deletePools ns).
Proof. unfold deletePools, delete_step, processBlockPools. ev. Qed.

Lemma pool_check_events ns client names : quiet_op (check_pool_names ns client names).
Proof. induction names as [|n names IH]; simpl; ev. Qed.

Lemma pools_check_events ns pools client types : quiet_op (checkPoolsFn ns pools client types).
Proof.
  induction types as [|t types IH]; simpl; [by apply spec_ret|]. destruct (default [] _) as [|n names]; [by apply spec_ret|].
  apply spec_bind_any; [apply (pool_check_events ns client (n :: names))|]. intros [e|]; [by apply spec_ret|done].
Qed.

Hint Resolve pools_check_events : op_events.

Lemma clients_events ns c : quiet_op (ensureCephClients ns c).
Proof.
  unfold ensureCephClients, expected_clients, defaultOpenstackClients, service_step, generateOpenStackClient, client_step.
  ev.
Qed.

Lemma clients_removed_events ns : quiet_op (deleteCephClients ns).
Proof. unfold deleteCephClients, delete_client. ev. Qed.

Lemma remove_classes_events ns m : quiet_op (removeStorageClasses ns m).
Proof. unfold removeStorageClasses, getStorageClassesUsage, remove_class. ev. Qed.

Hint Resolve remove_classes_events : op_events.

Lemma classes_events ns c : quiet_op (ensureStorageClasses ns c).
Proof.
  unfold ensureStorageClasses, storageclass_list, createStorageClasses, create_class, class_blocked, isCephPoolReady, isCephFsReady,
    updateStorageClasses, update_class, apply_class. ev.
Qed.

Lemma classes_removed_events ns : quiet_op (deleteStorageClasses ns).
Proof. unfold deleteStorageClasses, storageclass_list. ev. Qed.

Lemma command_events ns cmd : quiet_op (RunCephToolboxCLI ns cmd).
Proof. unfold RunCephToolboxCLI, RunPodCmdAndCheckError. ev. Qed.
Hint Resolve command_events : op_events.

Lemma group_events ns op name : quiet_op (cephFSSubvolumegroupCommand ns op name).
Proof. unfold cephFSSubvolumegroupCommand. ev. Qed.
Hint Resolve group_events : op_events.

Lemma remove_fs_events ns ts name : quiet_op (removeCephFilesystem ns ts name).
Proof. unfold removeCephFilesystem, remove_group, cephFsPresent. ev. Qed.
Hint Resolve remove_fs_events : op_events.

Lemma fs_removed_events ns ts : quiet_op (deleteSharedFilesystems ns ts).
Proof. unfold deleteSharedFilesystems, filesystem_list, delete_fs_step. ev. Qed.
Hint Resolve fs_removed_events : op_events.

Lemma fs_events ns c ts : quiet_op (ensureSharedFilesystem ns c ts).
Proof. unfold ensureSharedFilesystem, ensureCephFS, filesystem_list, fs_step, ensure_group, apply_fs, drop_fs_step. ev. Qed.

Lemma stamps_events : quiet_op get_stamps.
Proof. intros h. by split. Qed.
Hint Resolve stamps_events : op_events.

Lemma policies_removed_events ns : quiet_op (cleanupNetworkPolicy ns).
Proof. unfold cleanupNetworkPolicy, cleanup_step, deleteNetworkPolicy. ev. Qed.
Hint Resolve policies_removed_events : op_events.

Lemma policies_events ns params c : quiet_op (ensureNetworkPolicy ns params c).
Proof. unfold ensureNetworkPolicy, policy_step, manageNetworkPolicy, deleteNetworkPolicy, apply_resource. ev. Qed.

(** Operations that leave the CephCluster alone. *)
Definition aside_event (e : event) : Prop :=
  match e with
  | EvClusterUpdate _ | EvApply _ (RCluster _) => False
  | _ => resource_event e
  end.
Abbreviation aside m := (spec aside_event m (λ _, True)).

Lemma aside_quiet {A} (m : IO A) : aside m → quiet_op m.
Proof. intros Hm. eapply spec_weaken; [exact Hm| |done]. by intros []. Qed.

Lemma data_events kind ns name : aside (data_get kind ns name).
Proof. by apply spec_call. Qed.
Hint Resolve data_events : op_events.

Lemma external_events ns dpl refs : aside (addExternalResources ns dpl refs).
Proof. unfold addExternalResources, manageConfigMap, manageSecrets, secret_step, manage_secret, apply_resource. ev. Qed.
Hint Resolve external_events : op_events.

Lemma external_removed_events ns dpl : aside (deleteExternalConnectionSecret ns dpl).
Proof. unfold deleteExternalConnectionSecret. ev. Qed.

Lemma rgws_events ns params c rgws base : aside (rgws_options ns params c rgws base).
Proof. revert base. induction rgws as [|rgw rgws IH]; intros base; simpl; [by apply spec_ret|]. unfold gateway_options, openstack_options. ev; apply IH. Qed.
Hint Resolve rgws_events : op_events.

Lemma stamps_aside : aside get_stamps.
Proof. intros h. by split. Qed.
Lemma command_aside ns cmd : aside (RunCephToolboxCLI ns cmd).
Proof. unfold RunCephToolboxCLI, RunPodCmdAndCheckError. ev. Qed.
Hint Resolve stamps_aside command_aside : op_events.

Lemma runtime_loop_events ns dump entries b : aside (runtime_loop ns dump entries b).
Proof.
  revert b. induction entries as [|[k v] entries IH]; intros b; simpl; [by apply spec_ret|].
  unfold runtime_stamp, GetCurrentTimeString, put_stamps. ev; apply IH.
Qed.
Hint Resolve runtime_loop_events : op_events.

Lemma config_events ns params c cs present : aside (ensureCephConfig ns params c cs present).
Proof.
  unfold ensureCephConfig, buildCephConfig, base_config, GetCurrentTimeString, create_config_map, updateRuntimeParameters, getCephConfigDump,
    RunAndParseCephToolboxCLI, update_config_map, apply_resource, put_stamps. ev.
Qed.
Hint Resolve config_events aside_quiet : op_events.

Lemma resources_aside ns params c cs found : aside (cluster_resources ns params c cs found).
Proof. unfold cluster_resources, isCephDeployed. ev. Qed.
Hint Resolve resources_aside : op_events.

Lemma cluster_events ns params c : quiet_op (ensureCluster ns params c).
Proof.
  unfold ensureCluster, ensure_found, cluster_get, statusCluster, cluster_get, write_cluster, create_cluster, with_restart,
    GetCurrentTimeString, update_cluster, apply_resource. ev.
Qed.

(** Object storage. *)
Lemma foldMo_events {A S} (f : S → A → IO (option S)) l s : (∀ s a, quiet_op (f s a)) → quiet_op (foldMo f l s).
Proof. intros Hf. revert s. induction l as [|a l IH]; intros s; simpl; ev. Qed.

Lemma apply_events process r : quiet_op (apply_resource process r).
Proof. by apply spec_call. Qed.
Lemma delete_events kind ns name : kind ≠ "CephCluster" → quiet_op (object_delete kind ns name).
Proof. intros Hk. by apply spec_call. Qed.
Lemma drop_object_events ns kind name : kind ≠ "CephCluster" → quiet_op (delete_object ns kind name).
Proof. intros Hk. unfold delete_object. ev. Qed.
Hint Extern 1 (spec resource_event (object_delete _ _ _) _) => apply delete_events; done : op_events.
Hint Extern 1 (spec resource_event (delete_object _ _ _) _) => apply drop_object_events; done : op_events.
Hint Resolve apply_events : op_events.

Lemma admin_events ns name cmd msg present : quiet_op (admin_remove ns name cmd msg present).
Proof. induction present as [|p present IH]; simpl; ev. Qed.
Hint Resolve admin_events : op_events.

Lemma realm_removed_events ns realm : quiet_op (deleteRealm ns realm).
Proof. unfold deleteRealm, delete_realm, RunAndParseCephToolboxCLI. ev. Qed.
Lemma zonegroup_removed_events ns group : quiet_op (deleteZoneGroup ns group).
Proof. unfold deleteZoneGroup, RunAndParseCephToolboxCLI. ev. Qed.
Lemma zone_removed_events ns zone : quiet_op (deleteZone ns zone).
Proof. unfold deleteZone. ev. Qed.
Hint Resolve realm_removed_events zonegroup_removed_events zone_removed_events : op_events.

Lemma sites_events {C O} kind ns c_name o_name o_labels set_labels inj check align make remove inUse (items : list O) (specs : list C) :
  (∀ new, quiet_op (check new)) → (∀ name, quiet_op (remove name)) →
  quiet_op (ensure_sites kind ns c_name o_name o_labels set_labels inj check align make remove inUse items specs).
Proof. intros Hc Hr. unfold ensure_sites, spec_step, match_step, write_step, leftover_step. ev. Qed.
Hint Resolve sites_events : op_events.

Lemma multisite_events ns storage : quiet_op (ensureRgwMultiSite ns storage).
Proof.
  unfold ensureRgwMultiSite, ensureRealms, ensureZoneGroups, ensureZones, getZonesInUse, realm_list, zonegroup_list, zone_list, store_list. ev;
    apply sites_events; intros ?; unfold check_realm; ev.
Qed.
Lemma multisite_removed_events ns : quiet_op (deleteMultiSite ns).
Proof.
  unfold deleteMultiSite, delete_sites, remove_step, getZonesInUse, realm_list, zonegroup_list, zone_list, store_list. ev.
Qed.
Hint Resolve multisite_events multisite_removed_events : op_events.

Lemma update_stamps_events f : quiet_op (update_stamps f).
Proof. unfold update_stamps, put_stamps. ev. Qed.
Hint Resolve update_stamps_events : op_events.
Lemma when_events b m : quiet_op m → quiet_op (when' b m).
Proof. intros Hm. unfold when'. ev. Qed.
Hint Resolve when_events : op_events.

Lemma self_signed_events ns rgw name present : quiet_op (self_signed ns rgw name present).
Proof. unfold self_signed, set_cert_time, GetCurrentTimeString. ev. Qed.
Hint Resolve self_signed_events : op_events.
Lemma backend_cert_events ns rgw ref : quiet_op (ensureRgwBackendSSLCert ns rgw ref).
Proof. unfold ensureRgwBackendSSLCert, VerifyCertificateExpireDate, keep_cert, set_cert_time, drop_cert_time. ev. Qed.
Hint Resolve backend_cert_events : op_events.
Lemma bundle_events ns params c rgw ref caref b1 b2 : quiet_op (ensureRgwCaBundleCert ns params c rgw ref caref b1 b2).
Proof.
  unfold ensureRgwCaBundleCert, public_cacert, openstack_cacert, given_bundle, update_bundle, set_cert_time, GetCurrentTimeString. ev.
Qed.
Hint Resolve bundle_events : op_events.
Lemma cert_events ns params c rgw : quiet_op (ensureRgwSslCert ns params c rgw).
Proof. unfold ensureRgwSslCert, ensure_bundle, drop_cert_time. ev. Qed.
Lemma delete_certs_events ns present secrets b : quiet_op (delete_certs ns present secrets b).
Proof. revert b. induction secrets as [|secret secrets IH]; intros b; simpl; ev; apply IH. Qed.
Hint Resolve delete_certs_events cert_events : op_events.
Lemma certs_removed_events ns present : quiet_op (deleteSelfSignedCerts ns present).
Proof. unfold deleteSelfSignedCerts. ev. Qed.
Hint Resolve certs_removed_events : op_events.

Lemma rgw_removed_events ns external name : quiet_op (deleteRgw ns external name).
Proof.
  unfold deleteRgw, user_list, drop_user, processRgwUsers, drop_bucket, drop_stores, store_list, drop_store, forget_store. ev.
Qed.
Hint Resolve rgw_removed_events : op_events.

Lemma odd_events ns external names zones stores b : quiet_op (odd_stores ns external names zones stores b).
Proof. revert b. induction stores as [|store stores IH]; intros b; simpl; ev; apply IH. Qed.
Hint Resolve odd_events : op_events.

Lemma users_events ns storage rgw : quiet_op (ensureRgwUsers ns storage rgw).
Proof. unfold ensureRgwUsers, user_list, user_step. ev. Qed.
Lemma service_events ns common rgw : quiet_op (ensureExternalService ns common rgw).
Proof. unfold ensureExternalService, served_otherwise, route_list, drop_service. ev. Qed.
Lemma bucket_class_events ns rgw : quiet_op (ensureRgwStorageClass ns rgw).
Proof. unfold ensureRgwStorageClass. ev. Qed.
Lemma store_events ns c storage external rgw : quiet_op (ensureRgwObject ns c storage external rgw).
Proof. unfold ensureRgwObject, wanted_store, store_get. ev. Qed.
Hint Resolve users_events service_events bucket_class_events store_events : op_events.

Lemma rgw_events ns params c storage external : quiet_op (ensureRgw ns params c storage external).
Proof.
  unfold ensureRgw, ensureRgwConsistence, store_list. ev. apply foldMo_events. intros s rgw.
  unfold rgw_step, statusRgw, store_get, rgw_object, rgw_parts. ev.
Qed.
Hint Resolve rgw_events : op_events.

Lemma openstack_routes_events params rgws acc : quiet_op (openstack_routes params rgws acc).
Proof. revert acc. induction rgws as [|rgw rgws IH]; intros acc; simpl; ev; apply IH. Qed.
Hint Resolve openstack_routes_events : op_events.
Lemma routes_events ns params common storage : quiet_op (ensureGatewayHTTPRoutes ns params common storage).
Proof. unfold ensureGatewayHTTPRoutes, route_list, routes_to_manage, route_step, drop_route. ev. Qed.
Lemma routes_removed_events ns common : quiet_op (deleteGatewayHTTPRoutes ns common).
Proof. unfold deleteGatewayHTTPRoutes, route_list, delete_route. ev. Qed.
Hint Resolve routes_events routes_removed_events : op_events.

Lemma storage_events ns params c : quiet_op (ensureObjectStorage ns params c).
Proof. unfold ensureObjectStorage, ensure_unused, deleteRgwAdminOpsSecret, deleteRgwBuiltInPool. ev. Qed.
Lemma storage_removed_events ns c : quiet_op (deleteObjectStorage ns c).
Proof. unfold deleteObjectStorage, delete_rest, deleteRgwAdminOpsSecret, deleteRgwBuiltInPool. ev. Qed.

(** The CSI operator, mirroring, OpenStack, ingress and the state of the cluster. *)
Lemma listed_removed_events kind ns absent_ends failed names removed :
  kind ≠ "CephCluster" → quiet_op (delete_listed kind ns absent_ends failed names removed).
Proof. intros Hk. revert removed. induction names as [|name names IH]; intros removed; simpl; ev; apply IH. Qed.
Hint Extern 1 (spec resource_event (delete_listed _ _ _ _ _ _) _) => apply listed_removed_events; done : op_events.

Lemma csi_events ns params c : quiet_op (ensureCsiResources ns params c).
Proof.
  unfold ensureCsiResources, ensureCsiOperatorConfig, write_config, ensureCsiDrivers, driver_step, wanted_driver, write_driver, driver_list, drop_driver.
  ev.
Qed.
Lemma csi_removed_events ns params : quiet_op (deleteCsiOperatorResources ns params).
Proof.
  unfold deleteCsiOperatorResources, with_errors, deleteCsiClientProfile, deleteCsiCephConnection, deleteCsiDrivers, deleteCsiOperatorConfig, driver_list.
  ev.
Qed.
Lemma snapshot_events ns params : quiet_op (ensureVSCResources ns params).
Proof. unfold ensureVSCResources, vsclass_step. ev. Qed.
Lemma snapshot_removed_events params : quiet_op (deleteVolumeSnapshotClasses params).
Proof. unfold deleteVolumeSnapshotClasses. ev. Qed.

Lemma peers_events ns pairs changed : quiet_op (peer_secrets ns pairs changed).
Proof. revert changed. induction pairs as [|[peer pool] pairs IH]; intros changed; simpl; unfold ensure_peer_secret; ev; apply IH. Qed.
Lemma scan_mirrors_events ns name mirrors acc : quiet_op (scan_mirrors ns name mirrors acc).
Proof. revert acc. induction mirrors as [|mirror mirrors IH]; intros acc; simpl; ev; apply IH. Qed.
Lemma peers_removed_events ns : quiet_op (deleteRBDSecrets ns).
Proof. unfold deleteRBDSecrets. ev. Qed.
Hint Resolve peers_events scan_mirrors_events peers_removed_events : op_events.
Lemma mirror_removed_events ns c : quiet_op (deleteRBDMirroring ns c).
Proof. unfold deleteRBDMirroring. ev. Qed.
Hint Resolve mirror_removed_events : op_events.
Lemma mirror_events ns c : quiet_op (ensureRBDMirroring ns c).
Proof. unfold ensureRBDMirroring, ensure_mirror, ensureRBDSecrets, update_mirror. ev. Qed.

Lemma unready_events ns pools names acc : quiet_op (unready_pools ns pools names acc).
Proof. revert names acc. induction pools as [|pool pools IH]; intros names acc; simpl; unfold isCephPoolReady; ev; apply IH. Qed.
Hint Resolve unready_events : op_events.
Lemma openstack_events ns params c : quiet_op (ensureOpenstackSecret ns params c).
Proof.
  unfold ensureOpenstackSecret, share_keys, getOpenstackClientNames, getCephClientAuthKeys, key_step, getMonMapConfigmap, getAdminSecret, rgw_secrets,
    getRgwMetricsUserSecrets, generateOpenstackSecret, rgw_endpoints, public_endpoint, ingress_endpoint, write_shared_secret. ev.
Qed.
Lemma openstack_removed_events params : quiet_op (deleteOpenstackSecret params).
Proof. unfold deleteOpenstackSecret. ev. Qed.

Lemma plan_events ns hostName ref resource name toDelete entries : quiet_op (plan_tls ns hostName ref resource name toDelete entries).
Proof.
  revert toDelete. induction entries as [|[hosts secret] entries IH]; intros toDelete; simpl; [by apply spec_ret|].
  unfold match_secret. destruct (Contains _ _); [ev|apply IH].
Qed.
Lemma drop_ingresses_events ns names removed : quiet_op (drop_ingresses ns names removed).
Proof. revert removed. induction names as [|name names IH]; intros removed; simpl; ev; apply IH. Qed.
Hint Resolve plan_events drop_ingresses_events : op_events.
Lemma ingress_removed_events ns : quiet_op (deleteIngressProxy ns).
Proof. unfold deleteIngressProxy. ev. Qed.
Lemma ingress_turn_events ns params c name config ingress changed : quiet_op (ensure_ingress ns params c name config ingress changed).
Proof. unfold ensure_ingress, with_tls, tls_secret, GetCurrentUnixTimeString, write_ingress, update_ingress. ev. Qed.
Hint Resolve ingress_removed_events ingress_turn_events : op_events.
Lemma ingress_loop_events ns params c rgws config changed : quiet_op (ingress_loop ns params c rgws config changed).
Proof. revert config changed. induction rgws as [|rgw rgws IH]; intros config changed; simpl; ev; apply IH. Qed.
Hint Resolve ingress_loop_events : op_events.
Lemma ingress_events ns params c : quiet_op (ensureIngressProxy ns params c).
Proof. unfold ensureIngressProxy, canDeployIngressProxy, openstack_tls. ev. Qed.

Lemma state_events ns c : quiet_op (ensureClusterState ns c).
Proof.
  unfold ensureClusterState, isCephDeployed, verifyPrometheusEnabled, verifyProgressEvents, verifyBuiltinPools, builtin_step, processBlockPools,
    RunAndParseCephToolboxCLI. ev.
Qed.

(** The nodes of the CSI driver. *)
Abbreviation nodes_op m := (spec daemonset_event m (λ _, True)).

Lemma poll_events {A} n (condition : IO (option A)) : nodes_op condition → nodes_op (poll n condition).
Proof. intros Hc. induction n as [|n IH]; simpl; ev. Qed.

Lemma poll_until_events {A} (condition : IO (option A)) : nodes_op condition → nodes_op (PollUntil condition).
Proof. intros Hc. apply spec_bind_any; [by apply spec_call|]. intros n. by apply poll_events. Qed.

Lemma csi_pod_events ns name : nodes_op (getCSIPodForNode ns name).
Proof. unfold getCSIPodForNode, csi_pods. ev. Qed.

Lemma pod_cmd_events ns pod cmd : nodes_op (pod_cmd ns pod cmd).
Proof. unfold pod_cmd, RunPodCmdAndCheckError. ev. Qed.
Hint Resolve poll_until_events csi_pod_events pod_cmd_events : op_events.

Lemma check_volumes_events ns name b : nodes_op (checkCSIVolumes ns name b).
Proof.
  unfold checkCSIVolumes. apply spec_bind_any; [|intros [f|]; by apply spec_ret]. apply poll_until_events.
  unfold volumes_attempt, verifyRBDVolumesMounts, verifyRBDVolumeAttachments. ev.
  - apply poll_until_events. unfold mounts_attempt, umount. ev.
  - apply poll_until_events. unfold attachments_attempt, delete_attachment. ev.
Qed.
Hint Resolve check_volumes_events : op_events.

Lemma update_node_events name b : nodes_op (updateNode name b).
Proof. unfold updateNode, GetNode, node_update. ev. Qed.

Lemma drain_events ns params node : nodes_op (drain_node ns params node).
Proof.
  unfold drain_node, release_node, verifyCSIPodEvicted, waitForDaemonsetsPods, mark_ready, GetNode, node_update. ev.
  - apply poll_until_events. unfold delete_attempt. ev.
  - apply poll_until_events. unfold pods_attempt, csi_pods. ev.
Qed.
Hint Resolve update_node_events drain_events : op_events.

Lemma daemonsets_events ns params : nodes_op (ensureDaemonsetLabels ns params).
Proof.
  unfold ensureDaemonsetLabels. apply spec_bind_any; [by apply spec_call|]. intros [nodes [e|]]; [by apply spec_ret|].
  induction nodes as [|node nodes IH]; simpl; [by apply spec_ret|].
  apply spec_bind_any; [unfold daemonset_node, exclude_node, label_node; ev|]. intros [u|]; [done|by apply spec_ret].
Qed.
End events.
