(* ===== verification/ClusterFacts.v ===== *)
(** * The CephCluster: what is generated and when it is written

    The generated spec ([generated_cluster]), the conditions under which the CephCluster is
    created or updated ([cluster_written]), and what it is when the operation finds nothing to do
    ([cluster_settled]). *)

From S2P Require Import Prelude GoTime Types HealthTypes DeployTypes World HealthWorld Extensions Validate Config Trace DeployWorld Resources CastSpec NodeLabels Versions CephConfig External DeployController Cluster DeployEvents.
Open Scope Z_scope.

(** ** The generated spec *)

Definition has_role (role : string) (node : CephDeploymentNode) : Prop := Contains (dn_Roles node) role = true.
#[global] Instance has_role_dec role node : Decision (has_role role node).
Proof. unfold has_role. apply _. Defined.
Definition nodes_with (role : string) (nodes : list CephDeploymentNode) : Z := Z.of_nat (length (filter (has_role role) nodes)).

Lemma nodes_with_cons role node nodes :
  nodes_with role (node :: nodes) = (if Contains (dn_Roles node) role then 1 else 0) + nodes_with role nodes.
Proof. unfold nodes_with. rewrite filter_cons. unfold has_role at 1. case_decide as Hr; [rewrite Hr; simpl; lia|]. by destruct (Contains _ _). Qed.

Lemma count_nodes nodes mons mgrs :
  mgrs ≤ 2 → foldl count_step (mons, mgrs) nodes = (mons + nodes_with "mon" nodes, Z.min 2 (mgrs + nodes_with "mgr" nodes)).
Proof.
  revert mons mgrs. induction nodes as [|node nodes IH]; intros mons mgrs Hm; simpl; [f_equal; unfold nodes_with; simpl; lia|].
  rewrite IH; [|destruct (Contains (dn_Roles node) "mgr"), (bool_decide_reflect (mgrs < 2)); simpl; lia].
  rewrite !nodes_with_cons. f_equal; [destruct (Contains (dn_Roles node) "mon"); lia|].
  assert (0 ≤ nodes_with "mgr" nodes) by (unfold nodes_with; lia).
  destruct (Contains (dn_Roles node) "mgr"); simpl; [|lia]. destruct (bool_decide_reflect (mgrs < 2)); lia.
Qed.

Lemma added_modules (modules : list (string * bool)) name enabled :
  (name, enabled) ∈ (λ name, (name, true)) <$> filter (λ name, name ∉ modules.*1) ["balancer"; "pg_autoscaler"] ↔
  enabled = true ∧ name ∈ ["balancer"; "pg_autoscaler"] ∧ name ∉ modules.*1.
Proof.
  rewrite list_elem_of_fmap. split; [intros (? & [= -> ->] & Hn)|intros (-> & Hi & Hn); exists name; split; [done|]].
  - apply list_elem_of_filter in Hn as [Hn Hi]. done.
  - by apply list_elem_of_filter.
Qed.

Section probes.
Context `{RookLib}.

Lemma with_probes_lookup probes daemon p :
  with_probes probes !! daemon = Some p ↔
  probes !! daemon = Some p ∨ probes !! daemon = None ∧ daemon ∈ ["mgr"; "mon"; "osd"] ∧ p = DefaultCephProbe.
Proof.
  unfold with_probes. generalize ["mgr"; "mon"; "osd"]. intros daemons. revert probes.
  induction daemons as [|d daemons IH]; intros probes; simpl; [set_solver|]. rewrite IH. rewrite elem_of_cons.
  destruct (decide (d = daemon)) as [->|Hd].
  - destruct (probes !! daemon) eqn:Hp; [rewrite Hp; naive_solver|]. rewrite lookup_insert_eq. naive_solver.
  - destruct (probes !! d) eqn:Hp; [naive_solver|]. rewrite lookup_insert_ne by done. naive_solver.
Qed.
End probes.

(** ** The storage nodes *)

(** A node that is to store data. *)
Definition stores_data (node : CephDeploymentNode) : Prop :=
  cn_Devices (dn_Node node) ≠ [] ∨ cn_DeviceFilter (dn_Node node) ≠ "" ∨ cn_DevicePathFilter (dn_Node node) ≠ "".
#[global] Instance stores_data_dec node : Decision (stores_data node).
Proof. unfold stores_data. apply _. Defined.

Lemma osd_node_stores node : IsCephOsdNode (dn_Node node) = true ↔ stores_data node.
Proof.
  unfold IsCephOsdNode, stores_data. destruct (cn_Devices (dn_Node node)); [|naive_solver].
  rewrite orb_true_iff, !negb_true_iff, !bool_decide_eq_false. naive_solver.
Qed.

(** A device given by a link under by-id is a name for Rook, any other device stays as it is. *)
Definition device_as (dev stored : CephDevice) : Prop :=
  cd_Config stored = cd_Config dev ∧
  if HasPrefix (cd_FullPath dev) "/dev/disk/by-id"
  then cd_Name stored = cd_FullPath dev ∧ cd_FullPath stored = ""
  else cd_Name stored = cd_Name dev ∧ cd_FullPath stored = cd_FullPath dev.

Definition node_as (node stored : CephNode) : Prop :=
  cn_Name stored = cn_Name node ∧ cn_Config stored = cn_Config node ∧ cn_DeviceFilter stored = cn_DeviceFilter node ∧
  cn_DevicePathFilter stored = cn_DevicePathFilter node ∧ cn_UseAllDevices stored = cn_UseAllDevices node ∧
  cn_VolumeClaimTemplates stored = cn_VolumeClaimTemplates node ∧ Forall2 device_as (cn_Devices node) (cn_Devices stored).

(** The last node of a name that is to store data. *)
Definition last_storing (nodes : list CephDeploymentNode) (name : string) (node : CephDeploymentNode) : Prop :=
  ∃ before after, nodes = before ++ node :: after ∧ stores_data node ∧ dn_Name node = name ∧
    ∀ other, other ∈ after → stores_data other → dn_Name other ≠ name.

Definition storage_described (nodes : list CephDeploymentNode) (storage : StorageScope) : Prop :=
  sts_UseAllNodes storage = false ∧ sts_UseAllDevices storage = Some false ∧ sts_Rest storage = "" ∧
  Sorted String.le (cn_Name <$> sts_Nodes storage) ∧ cn_Name <$> sts_Nodes storage ≡ₚ dn_Name <$> filter stores_data nodes ∧
  ∀ stored, stored ∈ sts_Nodes storage → ∃ node, last_storing nodes (cn_Name stored) node ∧ node_as (dn_Node node) stored.

Definition osd_nodes (nodes : list CephDeploymentNode) : list CephDeploymentNode :=
  filter (λ n, IsCephOsdNode (dn_Node n) = true) nodes.
Definition node_map (nodes : list CephDeploymentNode) : gmap string CephNode :=
  foldl (λ m n, <[dn_Name n := dn_Node n]> m) ∅ (osd_nodes nodes).

Lemma node_map_snoc nodes node :
  node_map (nodes ++ [node]) = if decide (stores_data node) then <[dn_Name node := dn_Node node]> (node_map nodes) else node_map nodes.
Proof.
  unfold node_map, osd_nodes. rewrite filter_app, foldl_app, filter_cons. pose proof (osd_node_stores node).
  case_decide as Ho; case_decide as Hd; simpl; naive_solver.
Qed.

Lemma node_map_last nodes name n : node_map nodes !! name = Some n → ∃ node, dn_Node node = n ∧ last_storing nodes name node.
Proof.
  induction nodes as [|node nodes IH] using rev_ind; [done|]. rewrite node_map_snoc.
  assert (Hold : ¬ (stores_data node ∧ dn_Name node = name) → node_map nodes !! name = Some n →
    ∃ node0, dn_Node node0 = n ∧ last_storing (nodes ++ [node]) name node0).
  { intros Hne (node0 & <- & before & after & -> & Hs & Hn & Hafter)%IH. exists node0. split; [done|].
    exists before, (after ++ [node]). rewrite <-app_assoc. split_and!; [done|done|done|].
    intros other [Ho| ->%list_elem_of_singleton]%elem_of_app; [by apply Hafter|]. intros Hso Hno. by apply Hne. }
  case_decide as Hs; [|intros Hl; apply Hold; [by intros []|done]].
  destruct (decide (dn_Name node = name)) as [<-|Hn]; [rewrite lookup_insert_eq; intros [= <-]|].
  - exists node. split; [done|]. exists nodes, []. split_and!; [done|done|done|by intros ? []%elem_of_nil].
  - rewrite lookup_insert_ne by done. intros Hl. apply Hold; [by intros []|done].
Qed.

Lemma node_map_is_Some nodes name : name ∈ dn_Name <$> osd_nodes nodes → ∃ n, node_map nodes !! name = Some n ∧ cn_Name n = name.
Proof.
  unfold node_map. induction (osd_nodes nodes) as [|node l IH] using rev_ind; simpl; [by intros []%elem_of_nil|].
  rewrite fmap_app, foldl_app, elem_of_app. simpl. rewrite list_elem_of_singleton.
  destruct (decide (dn_Name node = name)) as [<-|Hn].
  - intros _. exists (dn_Node node). by rewrite lookup_insert_eq.
  - rewrite lookup_insert_ne by done. intros [Hl|He]; [by apply IH|by subst name].
Qed.

Lemma stored_device dev : device_as dev (storage_device dev).
Proof. unfold device_as, storage_device. by destruct (HasPrefix _ _). Qed.

Lemma stored_node n : node_as n (set_cn_Devices (storage_device <$> cn_Devices n) n).
Proof.
  unfold node_as. split_and!; try done. simpl. induction (cn_Devices n); simpl; constructor; [apply stored_device|done].
Qed.

Lemma storage_names nodes : cn_Name <$> buildStorageNodes nodes = SortStrings (dn_Name <$> osd_nodes nodes).
Proof.
  unfold buildStorageNodes. change (foldl _ _ _) with (node_map nodes). change (filter _ nodes) with (osd_nodes nodes).
  assert (Hall : Forall (λ name, name ∈ dn_Name <$> osd_nodes nodes) (SortStrings (dn_Name <$> osd_nodes nodes))).
  { apply Forall_forall. intros name. by rewrite SortStrings_perm. }
  induction Hall as [|name names Hname _ IH]; simpl; [done|].
  destruct (node_map_is_Some _ _ Hname) as (n & Hn & Heq). rewrite Hn. simpl. f_equal; [done|exact IH].
Qed.

Lemma storage_nodes_described nodes : storage_described nodes (mkStorageScope false (Some false) (buildStorageNodes nodes) EmptyString).
Proof.
  unfold storage_described. cbn [sts_UseAllNodes sts_UseAllDevices sts_Rest sts_Nodes]. split_and!; [done|done|done|..].
  - rewrite storage_names. apply Sorted_merge_sort. intros x y. apply String.le_total.
  - rewrite storage_names, SortStrings_perm. unfold osd_nodes. erewrite list_filter_iff; [done|]. intros node. apply osd_node_stores.
  - intros stored (name & _ & Hl)%list_elem_of_omap. apply fmap_Some in Hl as (n & Hn & ->).
    apply node_map_last in Hn as (node & <- & Hlast). exists node. split; [|apply stored_node].
    destruct Hlast as (before & after & -> & Hs & <- & Hafter). by exists before, after.
Qed.

(** ** Placement and annotations *)

Section generated.
Context `{RookLib}.

Definition tolerations_of (placement : gmap string Placement) (key : string) : list toleration :=
  from_option plc_Tolerations [] (placement !! key).

(** Monitors and managers run on the nodes with the label of the role, which they tolerate
    beside what the spec says; OSDs, their preparation and cleanup tolerate what the spec says
    for OSDs; nothing else of the placement is taken over. *)
Definition placed (old new : gmap string Placement) : Prop :=
  (∀ role, role ∈ ["mon"; "mgr"] → ∃ p, new !! role = Some p ∧ plc_NodeAffinity p = Some (AffinityLabel (CephNodeLabel role)) ∧
     plc_Tolerations p = TolerationExists (CephNodeLabel role) :: tolerations_of old role) ∧
  (∀ key p, key ∈ ["osd"; "prepareosd"; "cleanup"] →
     (new !! key = Some p ↔ tolerations_of old "osd" ≠ [] ∧ p = tolerating (tolerations_of old "osd"))) ∧
  (∀ p, new !! "all" = Some p ↔ plc_Tolerations (Placement_All old) ≠ [] ∧ p = tolerating (plc_Tolerations (Placement_All old))) ∧
  (∀ key, key ∉ ["mon"; "mgr"; "osd"; "prepareosd"; "cleanup"; "all"] → new !! key = None).

Lemma generated_placed old : placed old (generated_placement old).
Proof.
  unfold placed, generated_placement, KeyMon, KeyMgr, KeyOSD, KeyOSDPrepare, KeyCleanup, KeyAll.
  change (match old !! "mon" with Some p => plc_Tolerations p | None => [] end) with (tolerations_of old "mon").
  change (match old !! "mgr" with Some p => plc_Tolerations p | None => [] end) with (tolerations_of old "mgr").
  change (match old !! "osd" with Some p => plc_Tolerations p | None => [] end) with (tolerations_of old "osd").
  set (osd := tolerations_of old "osd"). set (all := plc_Tolerations (Placement_All old)). clearbody osd all.
  split_and!.
  - intros role Hr. exists (labelled_placement role (tolerations_of old role)). split_and!; [|reflexivity|reflexivity].
    rewrite !elem_of_cons, elem_of_nil in Hr. destruct Hr as [->|[->|[]]]; case_decide; case_decide; simplify_map_eq; reflexivity.
  - intros key p Hk. rewrite !elem_of_cons, elem_of_nil in Hk. destruct Hk as [->|[->|[->|[]]]];
      case_decide; case_decide; simplify_map_eq; (split; [by intros [= <-]|by intros [? ->]]).
  - intros p. case_decide; case_decide; simplify_map_eq; (split; [by intros [= <-]|by intros [? ->]]).
  - intros key Hk. rewrite !not_elem_of_cons in Hk. destruct Hk as (Hmon & Hmgr & Hosd & Hpre & Hcl & Hall & _).
    case_decide; case_decide; by rewrite ?lookup_insert_ne, lookup_singleton_ne by congruence.
Qed.

(** The times a daemon is restarted for: the last changes of its section and of the global one. *)
Definition restart_times (ts : gmap string string) (daemon : string) (times : gmap string string) : Prop :=
  times !! cephConfigParametersUpdateTimestampLabel "global" = Some (value_of ts "global") ∧
  (value_of ts daemon ≠ "" → times !! cephConfigParametersUpdateTimestampLabel daemon = Some (value_of ts daemon)) ∧
  ∀ key, is_Some (times !! key) →
    key = cephConfigParametersUpdateTimestampLabel "global" ∨ value_of ts daemon ≠ "" ∧ key = cephConfigParametersUpdateTimestampLabel daemon.

Lemma daemon_times ts daemon : daemon ∈ ["mon"; "mgr"] → restart_times ts daemon (daemon_annotations ts daemon).
Proof.
  intros Hd. assert (Hne : cephConfigParametersUpdateTimestampLabel daemon ≠ cephConfigParametersUpdateTimestampLabel "global").
  { rewrite !elem_of_cons, elem_of_nil in Hd. by destruct Hd as [->|[->|[]]]. }
  unfold restart_times, daemon_annotations. split_and!.
  - case_decide; simplify_map_eq; done.
  - intros Hv. rewrite decide_False by done. by simplify_map_eq.
  - intros key Hk. case_decide as Hv.
    + apply lookup_singleton_is_Some in Hk. by left.
    + destruct (decide (key = cephConfigParametersUpdateTimestampLabel daemon)) as [->|Hkd]; [by right|].
      rewrite lookup_insert_ne in Hk by done. apply lookup_singleton_is_Some in Hk. by left.
Qed.

(** The annotations of the monitors and managers get these times, the others stay. *)
Definition annotated (ts : gmap string string) (old new : gmap string (gmap string string)) : Prop :=
  (∀ key, key ∉ ["mon"; "mgr"] → new !! key = old !! key) ∧
  ∃ mon mgr, restart_times ts "mon" mon ∧ restart_times ts "mgr" mgr ∧
    new !! "mon" = Some (Annotations_Merge (GetMonAnnotations old) mon) ∧
    new !! "mgr" = Some (Annotations_Merge (GetMgrAnnotations (<["mon" := Annotations_Merge (GetMonAnnotations old) mon]> old)) mgr).

Lemma generated_annotated ts old :
  let with_mon := <[KeyMon := Annotations_Merge (GetMonAnnotations old) (daemon_annotations ts "mon")]> old in
  annotated ts old (<[KeyMgr := Annotations_Merge (GetMgrAnnotations with_mon) (daemon_annotations ts "mgr")]> with_mon).
Proof.
  cbv zeta. unfold KeyMon, KeyMgr. split.
  - intros key Hk. rewrite !not_elem_of_cons in Hk. destruct Hk as (? & ? & _). by rewrite !lookup_insert_ne by done.
  - exists (daemon_annotations ts "mon"), (daemon_annotations ts "mgr").
    split_and!; [apply daemon_times; set_solver|apply daemon_times; set_solver|by simplify_map_eq|by simplify_map_eq].
Qed.

(** What is kept, and the defaults of what the spec leaves open. *)
Definition rest_kept (few : bool) (old new : ClusterSpec) : Prop :=
  csp_External new = csp_External old ∧ csp_CephX new = csp_CephX old ∧ csp_Rest new = csp_Rest old ∧
  csp_CleanupConfirmation new = csp_CleanupConfirmation old ∧
  csp_AllowUninstallWithVolumes new = csp_AllowUninstallWithVolumes old ∧
  csp_DataDirHostPath new = (if decide (csp_DataDirHostPath old = "") then DefaultDataDirHostPath else csp_DataDirHostPath old) ∧
  csp_SkipUpgradeChecks new = few || csp_SkipUpgradeChecks old ∧ csp_ContinueUpgrade new = few || csp_ContinueUpgrade old ∧
  csp_Network new = (if decide (ns_Provider (csp_Network old) = "") then set_ns_Provider "host" (csp_Network old) else csp_Network old).

(** C21: The spec generated for a cluster of its own has the image of the round, one monitor
    per node with that role and one manager per node with that role but at most two. Its storage
    nodes are, sorted by name, those nodes of the spec that name devices or a filter, each with
    its own settings and devices (a device given by its by-id link by name; of two such nodes with
    one name the last, twice) and no others. The
    modules balancer and pg_autoscaler are switched on unless the spec has them already, the
    probes of managers, monitors and OSDs are the default ones unless the spec has them; no other
    module or probe appears. Monitors and managers are placed on the nodes with the label of the
    role, and of the placement of the spec only tolerations stay; the annotations of the two get
    the times of the last changes of their configuration, all other annotations stay. Upgrade
    checks are switched off for at most three nodes, the data directory and the network provider
    have a default, and the rest of the spec is kept as it is. *)
Theorem generated_cluster ts cs image nodes :
  csp_External cs = false →
  let spec := generateCephClusterSpec ts cs image nodes in
  csp_Image spec = image ∧
  csp_MonCount spec = nodes_with "mon" nodes ∧ csp_MgrCount spec = Z.min 2 (nodes_with "mgr" nodes) ∧
  storage_described nodes (csp_Storage spec) ∧
  (∃ added, csp_Modules spec = csp_Modules cs ++ added ∧ ∀ name enabled, (name, enabled) ∈ added ↔
     enabled = true ∧ name ∈ ["balancer"; "pg_autoscaler"] ∧ name ∉ (csp_Modules cs).*1) ∧
  (∀ daemon p, csp_LivenessProbe spec !! daemon = Some p ↔ csp_LivenessProbe cs !! daemon = Some p ∨
     csp_LivenessProbe cs !! daemon = None ∧ daemon ∈ ["mgr"; "mon"; "osd"] ∧ p = DefaultCephProbe) ∧
  placed (csp_Placement cs) (csp_Placement spec) ∧ annotated ts (csp_Annotations cs) (csp_Annotations spec) ∧
  rest_kept (bool_decide (length nodes ≤ 3)%nat) cs spec.
Proof.
  intros Hext. cbv zeta. unfold generateCephClusterSpec, generate_internal. rewrite count_nodes by lia.
  destruct (decide (csp_DataDirHostPath cs = EmptyString)) as [Hd|Hd], (decide (length nodes ≤ 3)%nat) as [Hf|Hf],
    (decide (ns_Provider (csp_Network cs) = EmptyString)) as [Hp|Hp]; simpl; rewrite Hext; simpl; rewrite ?decide_True, ?decide_False by done; simpl;
    (split_and!; [done|done|done|apply storage_nodes_described|eexists; split; [reflexivity|apply added_modules]|apply with_probes_lookup
      |apply generated_placed|apply generated_annotated|]);
    unfold rest_kept; simpl; rewrite ?(decide_True _ _ Hd), ?(decide_False _ _ Hd), ?(decide_True _ _ Hp), ?(decide_False _ _ Hp),
      ?(bool_decide_true _ Hf), ?(bool_decide_false _ Hf), ?Hext; split_and!; done.
Qed.
End generated.

(** ** Writing the CephCluster *)

Section written.
Context `{World} `{HealthWorld} `{DeployWorld} `{SpecDecoder} `{ResourceWorld} `{RookLib} `{MapRange}.
Variables (rookNs : string) (params : DeployParams) (c : deployConfig) (h0 : history).
Let name : string := cdp_Name (dc_cephDpl c).

Definition same_but_annotations (spec1 spec2 : ClusterSpec) : Prop := set_csp_Annotations ∅ spec1 = set_csp_Annotations ∅ spec2.

(** The spec that is wanted, up to annotations. *)
Definition wanted_spec (cs spec : ClusterSpec) : Prop :=
  same_but_annotations spec (generateCephClusterSpec ∅ cs (dc_currentCephImage c) (dc_nodesListExpanded c)).

Lemma generated_wanted ts cs : wanted_spec cs (generateCephClusterSpec ts cs (dc_currentCephImage c) (dc_nodesListExpanded c)).
Proof.
  unfold wanted_spec, same_but_annotations, generateCephClusterSpec, generate_internal.
  destruct (foldl count_step (0, 0) (dc_nodesListExpanded c)).
  destruct (decide (csp_DataDirHostPath cs = EmptyString)), (decide (length _ ≤ 3)%nat); simpl; destruct (csp_External cs); simpl; try done;
    by case_decide.
Qed.

Lemma restart_wanted cs cluster spec spec' : wanted_spec cs spec → restart_annotations cluster spec = Some spec' → wanted_spec cs spec'.
Proof.
  unfold restart_annotations. intros Hw. destruct (_ !! _) as [reason|]; [|by intros [= <-]]. case_decide; [done|]. by intros [= <-].
Qed.

(** The status of the cluster was read and allows an update; so does a cluster that is not
    there or has no status yet. *)
Definition update_allowed (h : history) : Prop :=
  ∃ answer, asked h0 (EvClusterGet rookNs name) (λ h, w_rookcluster_get h rookNs name) answer h ∧
    match answer with
    | (cluster, None) => not_ready_to_update rookNs name cluster = None
    | (_, Some _) => True
    end.

(** The first answer of the operation, and what came before the CephCluster. *)
Definition prepared (cs : ClusterSpec) (found : option RookCluster) (h : history) : Prop :=
  (∃ answer, cluster_found answer = inl found ∧
     asked h0 (EvClusterGet rookNs name) (λ h, w_rookcluster_get h rookNs name) answer h) ∧
  ∃ changed, passed h0 (cluster_resources rookNs params c cs found) (Some (changed, None)) h.

Definition cluster_write (h : history) (e : event) : Prop :=
  match e with
  | EvApply process (RCluster cluster) =>
      ∃ cs, dc_clusterSpec c = Some cs ∧ prepared cs None h ∧ update_allowed h ∧
        process = objectCreate ∧ rkc_Name cluster = name ∧ wanted_spec cs (rkc_Spec cluster)
  | EvClusterUpdate cluster =>
      ∃ cs current, dc_clusterSpec c = Some cs ∧ prepared cs (Some current) h ∧ update_allowed h ∧
        rkc_Name cluster = rkc_Name current ∧ wanted_spec cs (rkc_Spec cluster) ∧
        (is_Some (rkc_Labels current !! aes256kApplied) → is_Some (cdp_Labels (dc_cephDpl c) !! aes256kApplied))
  | _ => True
  end.

Lemma aside_write h e : aside_event e → cluster_write h e.
Proof. destruct e; simpl; try done. by case_match. Qed.

Abbreviation begun := (λ h : history, h0 `prefix_of` h).
Lemma begun_last : lasting begun.
Proof. apply prefix_lasting. Qed.

Lemma cluster_get_traced (Pre : history → Prop) :
  lasting Pre → (∀ h, Pre h → begun h) →
  traced cluster_write Pre (cluster_get rookNs name) (λ a h, asked h0 (EvClusterGet rookNs name) (λ h, w_rookcluster_get h rookNs name) a h ∧ Pre h).
Proof. intros Hl Hpre. by apply traced_ask. Qed.

Lemma status_allows (Pre : history → Prop) :
  lasting Pre → (∀ h, Pre h → begun h) →
  traced cluster_write Pre (statusCluster rookNs name) (λ e h, (e = None → update_allowed h) ∧ Pre h).
Proof.
  intros Hl Hpre. eapply traced_bind; [by apply cluster_get_traced|].
  intros [cluster [e|]]; apply traced_ret; intros h [Ha Hh]; (split; [|done]); intros He; by eexists; split; [exact Ha|].
Qed.

(** What is known when the CephCluster is written. *)
Definition writing (cs : ClusterSpec) (found : option RookCluster) (h : history) : Prop :=
  dc_clusterSpec c = Some cs ∧ prepared cs found h ∧ update_allowed h.

Lemma writing_lasting cs found : lasting (writing cs found).
Proof.
  unfold writing, prepared, update_allowed. apply and_lasting; [auto with lasting|]. apply and_lasting; [apply and_lasting|];
    apply exists_lasting; intros ?; auto with lasting.
Qed.

Lemma cluster_create_traced cs spec :
  wanted_spec cs spec → traced cluster_write (writing cs None) (create_cluster rookNs c spec) (λ _ _, True).
Proof.
  intros Hw. eapply traced_bind; [|by intros [e|]; apply traced_ret]. apply (traced_call _ _ _ _ (λ _ _, True)).
  intros h (Hc & Hp & Hu). split; [|done]. by exists cs.
Qed.

Lemma update_labels cluster :
  is_Some (rkc_Labels cluster !! aes256kApplied) → is_Some ((AlignBaseLabels (Some (rkc_Labels cluster)) baseResourceLabels).1 !! aes256kApplied).
Proof.
  unfold AlignBaseLabels. generalize (rkc_Labels cluster) as labels, false as b, (range 84 baseResourceLabels) as l. intros labels b l. revert labels b.
  induction l as [|[k v] l IH]; intros labels b Hs; simpl; [done|]. case_decide; apply IH; [done|].
  destruct (decide (k = aes256kApplied)) as [->|Hk]; [rewrite lookup_insert_eq; by eexists|by rewrite lookup_insert_ne].
Qed.

Lemma cluster_update_traced cs current cluster spec changed :
  wanted_spec cs spec → rkc_Name cluster = rkc_Name current → rkc_Labels cluster = rkc_Labels current →
  traced cluster_write (writing cs (Some current)) (update_cluster rookNs c cluster spec changed) (λ _ _, True).
Proof.
  intros Hw Hn Hl. unfold update_cluster. pose proof (update_labels cluster) as Hlab. destruct (AlignBaseLabels _ _) as [labels updated]. simpl in Hlab.
  destruct (_ && _) eqn:Hwait; [by apply traced_ret|]. destruct (_ || _); [|by apply traced_ret].
  eapply traced_bind; [|by intros [e|]; apply traced_ret]. apply (traced_call _ _ _ _ (λ _ _, True)).
  intros h (Hc & Hp & Hu). split; [|done]. exists cs, current. split_and!; [done|done|done|by case_match| |].
  - destruct (bool_decide_reflect (rkc_Spec cluster = spec)) as [Heq|]; simpl; [by rewrite Heq|done].
  - rewrite <-Hl. intros Hs%Hlab. rewrite (bool_decide_eq_true_2 _ Hs) in Hwait. simpl in Hwait. apply bool_decide_eq_false in Hwait.
    by destruct (cdp_Labels _ !! _).
Qed.

Lemma cluster_write_traced cs found spec changed :
  wanted_spec cs spec → traced cluster_write (writing cs found) (write_cluster rookNs c found spec changed) (λ _ _, True).
Proof.
  intros Hw. destruct found as [current|]; simpl.
  - apply (traced_bind _ _ _ _ (λ cluster h, (rkc_Name cluster = rkc_Name current ∧ rkc_Labels cluster = rkc_Labels current) ∧ writing cs (Some current) h)).
    { unfold with_restart. do 2 (case_decide; [by apply traced_ret|]).
      eapply traced_bind; [apply (traced_call _ _ _ _ (λ _ h, writing cs (Some current) h))|intros now; by apply traced_ret].
      intros h Hh. split; [done|by apply writing_lasting]. }
    intros cluster. apply traced_pure. intros [Hn Hl]. destruct (restart_annotations cluster spec) as [spec'|] eqn:Hr; [|by apply traced_ret].
    eapply traced_bind; [apply (cluster_update_traced cs current); [by eapply restart_wanted|done|done]|]. intros r. by apply traced_ret.
  - eapply traced_bind; [by apply (cluster_create_traced cs)|]. intros r. by apply traced_ret.
Qed.

Lemma stamps_traced (Pre : history → Prop) : traced cluster_write Pre get_stamps (λ _ h, Pre h).
Proof. intros h Hh. split; [simpl; by rewrite app_nil_r|]. by intros [|e1 evs1] e evs2 He. Qed.

Lemma cluster_ensure_traced : traced cluster_write (λ h, h = h0) (ensureCluster rookNs params c) (λ _ _, True).
Proof.
  eapply (traced_weaken _ begun _ _ (λ _ _, True)); [|by intros h ->|done]. unfold ensureCluster. fold name.
  eapply traced_bind; [apply (cluster_get_traced begun); [apply begun_last|done]|]. intros answer.
  destruct (cluster_found answer) as [found|e] eqn:Hf; [|by apply traced_ret].
  destruct (dc_clusterSpec c) as [cs|] eqn:Hcs; [|by apply traced_ret]. unfold ensure_found. fold name.
  set (Pre := λ h, asked h0 (EvClusterGet rookNs name) (λ h, w_rookcluster_get h rookNs name) answer h ∧ begun h).
  assert (Hl : lasting Pre) by (apply and_lasting; auto with lasting).
  eapply traced_bind; [apply (traced_passed _ Pre aside_event); [done|by intros h []|apply resources_aside|by intros h e _; apply aside_write]|].
  intros [[changed [e|]]|]; [by apply traced_ret| |by apply traced_ret].
  set (Pre' := λ h, passed h0 (cluster_resources rookNs params c cs found) (Some (changed, None)) h ∧ Pre h).
  assert (Hl' : lasting Pre') by (apply and_lasting; auto with lasting).
  eapply traced_bind; [apply (status_allows Pre'); [done|by intros h (_ & _ & Hh)]|]. intros [e|]; [by apply traced_ret|].
  eapply traced_bind; [apply stamps_traced|]. intros stamps.
  eapply traced_weaken; [apply (cluster_write_traced cs), generated_wanted| |done].
  intros h (Hu & Hp & Ha & _). split_and!; [done| |by apply Hu]. split; [by exists answer|by exists changed].
Qed.

(** C10: The CephCluster is created only when it was found to be missing, and updated only
    when it was found; in both cases only after the configuration of Ceph (or the connection
    data of an external cluster) was ensured without an error, after its status was read and
    does not say that it is being changed, and with the spec that is generated from the
    deployment (up to annotations); while new keys are rolled out, no update is made before the
    deployment has taken them over. *)
Theorem cluster_written evs1 e evs2 :
  (ensureCluster rookNs params c h0).2 = evs1 ++ e :: evs2 → cluster_write (h0 ++ evs1) e.
Proof. intros Hev. destruct (cluster_ensure_traced h0 eq_refl) as [_ Hall]. by apply (Hall evs1 e evs2). Qed.

(** When there is nothing to do, the CephCluster is there and as wanted, unless it waits for
    the deployment to take over new keys. *)
Definition settled (cs : ClusterSpec) (cluster : RookCluster) : Prop :=
  wanted_spec cs (rkc_Spec cluster) ∨
  (is_Some ((AlignBaseLabels (Some (rkc_Labels cluster)) baseResourceLabels).1 !! aes256kApplied) ∧
   cdp_Labels (dc_cephDpl c) !! aes256kApplied = None).

Abbreviation value m Q := (spec (λ _ : event, True) m Q).

Lemma update_value cs cluster spec changed :
  wanted_spec cs spec → value (update_cluster rookNs c cluster spec changed) (λ r, r.1 = (false, None) → settled cs cluster).
Proof.
  intros Hw. unfold update_cluster, settled. destruct (AlignBaseLabels _ _) as [labels updated]. simpl.
  destruct (_ && _) eqn:Hwait.
  { apply andb_true_iff in Hwait as [Ha%bool_decide_eq_true Hb%bool_decide_eq_true]. apply spec_ret. by right. }
  destruct (_ || _) eqn:Hch; [apply spec_bind_any; [apply spec_triv|]; intros [e|]; by apply spec_ret|].
  apply spec_ret. intros _. left. apply orb_false_iff in Hch as [[Hs%negb_false_iff _]%orb_false_iff _].
  apply bool_decide_eq_true in Hs. by rewrite Hs.
Qed.

Lemma write_value cs found spec changed :
  wanted_spec cs spec → value (write_cluster rookNs c found spec changed)
    (λ r, ∀ keys, r = Some ((false, None), keys) → ∃ cluster, found = Some cluster ∧ settled cs cluster).
Proof.
  intros Hw. destruct found as [current|]; simpl.
  - apply (spec_bind _ _ _ (λ cluster, rkc_Spec cluster = rkc_Spec current ∧ rkc_Labels cluster = rkc_Labels current)).
    { unfold with_restart. do 2 (case_decide; [by apply spec_ret|]). apply spec_bind_any; [apply spec_triv|]. intros now. by apply spec_ret. }
    intros cluster [Hs Hl]. destruct (restart_annotations _ _) as [spec'|] eqn:Hr; [|by apply spec_ret].
    eapply spec_bind; [apply (update_value cs); by eapply restart_wanted|]. intros r Hset. apply spec_ret. intros keys [= ->].
    exists current. split; [done|]. destruct (Hset eq_refl) as [Hset'|Hset']; [left; by rewrite <-Hs|right; by rewrite <-Hl].
  - apply (spec_bind _ _ _ (λ r, r ≠ (false, None))).
    { apply spec_bind_any; [apply spec_triv|]. intros [e|]; by apply spec_ret. }
    intros r Hr. apply spec_ret. by intros keys [= ->].
Qed.

Lemma found_value cs found :
  value (ensure_found rookNs params c cs found) (λ r, ∀ keys, r = Some ((false, None), keys) → ∃ cluster, found = Some cluster ∧ settled cs cluster).
Proof.
  unfold ensure_found. apply spec_bind_any; [apply spec_triv|]. intros [[changed [e|]]|]; [by apply spec_ret| |by apply spec_ret].
  apply spec_bind_any; [apply spec_triv|]. intros [e|]; [by apply spec_ret|]. apply spec_bind_any; [apply spec_triv|]. intros stamps.
  apply write_value, generated_wanted.
Qed.

Lemma cluster_settled cs keys :
  dc_clusterSpec c = Some cs → (ensureCluster rookNs params c h0).1 = Some ((false, None), keys) →
  ∃ cluster, w_rookcluster_get h0 rookNs name = (cluster, None) ∧ settled cs cluster.
Proof.
  intros Hcs. unfold ensureCluster. fold name. rewrite Hcs. unfold mbind' at 1. simpl.
  destruct (w_rookcluster_get h0 rookNs name) as [cluster [e|]] eqn:Hget; simpl.
  - destruct (is_not_found e); [|done]. intros Hr.
    by destruct (proj1 (found_value cs None (h0 ++ [EvClusterGet rookNs name])) keys Hr) as (? & ? & _).
  - intros Hr. destruct (proj1 (found_value cs (Some cluster) (h0 ++ [EvClusterGet rookNs name])) keys Hr) as (cl & [= <-] & Hset). by exists cluster.
Qed.
End written.
