(* ===== verification/DeployCompose.v ===== *)
(** * The deployment controller with its operations

    The operations on all resources of a deployment keep the promises of the interface
    [ResourceOps] ([pelagia_ops]).  With them the theorems about the reconcile loop say what a
    ready deployment has, what is left of a destroyed one, and where a round may panic. *)

From S2P Require Import Prelude GoTime Types HealthTypes DeployTypes World HealthWorld TaskUtils Controller Config Extensions Validate ValidateFacts Trace DeployWorld Resources Pools Clients StorageClasses CastSpec NodeLabels CsiEvict SharedFilesystem Versions NetworkPolicies CephConfig External StoreWorld ObjectStorage CsiOperator RbdMirror Openstack IngressProxy ObjectStorageFacts DeployController DeployFacts Cluster ClusterState DeployEvents ClusterFacts.
Open Scope Z_scope.

(** ** The operations *)

Section operations.
Context `{World} `{HealthWorld} `{DeployWorld} `{SpecDecoder} `{ResourceWorld} `{StoreWorld} `{ServiceWorld} `{RookLib} `{MapRange}.

(** An operation on the times at which sections of the configuration were changed. *)
Definition on_stamps {A} (op : timestamps → IO (A * timestamps)) : IO A :=
  let* stamps := get_stamps in
  let* r := op (ut_cephConfigMap stamps) in
  put_stamps (set_ut_cephConfigMap r.2 stamps) ;;; ret r.1.

Lemma on_stamps_result {A} (op : timestamps → IO (A * timestamps)) h :
  (on_stamps op h).1 = (op (ut_cephConfigMap (current_stamps h)) h).1.1.
Proof. unfold on_stamps, mbind'. simpl. by rewrite !app_nil_r. Qed.

Lemma on_stamps_events {A} (op : timestamps → IO (A * timestamps)) :
  (∀ ts, spec resource_event (op ts) (λ _, True)) → spec resource_event (on_stamps op) (λ _, True).
Proof.
  intros Ho. apply spec_bind_any; [apply stamps_events|]. intros s. apply spec_bind_any; [apply Ho|]. intros r.
  apply spec_bind_any; [by apply spec_call|]. intros u. by apply spec_ret.
Qed.

(** An operation that does not panic. *)
Definition total {A} (op : IO A) : IO (option A) := let* r := op in ret (Some r).

Lemma total_result {A} (op : IO A) h a : (total op h).1 = Some a → (op h).1 = a.
Proof. unfold total, mbind'. simpl. by intros [= ->]. Qed.

Lemma total_events {A} (P : event → Prop) (op : IO A) : spec P op (λ _, True) → spec P (total op) (λ _, True).
Proof. intros Ho. apply spec_bind_any; [done|]. intros r. by apply spec_ret. Qed.

(** The operation [applyConfiguration] reports under a name, and the one [cleanCephDeployment]
    does; there are no other names.  The alignment of the spec with new keys rewrites raw JSON: its
    answer is one of the environment. *)
Definition modelled_ensure (ns : string) (params : DeployParams) (c : deployConfig) (what : string) : IO (option (bool * option err)) :=
  if decide (what = "network policies") then total (ensureNetworkPolicy ns params c)
  else if decide (what = "cephcsi") then ensureCsiResources ns params c
  else if decide (what = "volumesnapshotclass") then total (ensureVSCResources ns params)
  else if decide (what = "cephblockpools") then total (ensurePools ns c)
  else if decide (what = "shared filesystems") then total (on_stamps (ensureSharedFilesystem ns c))
  else if decide (what = "storageclasses") then total (ensureStorageClasses ns c)
  else if decide (what = "cephclients") then total (ensureCephClients ns c)
  else if decide (what = "ceph object storage") then ensureObjectStorage ns params c
  else if decide (what = "RBD Mirroring") then ensureRBDMirroring ns c
  else if decide (what = "Openstack secret") then ensureOpenstackSecret ns params c
  else if decide (what = "ingress proxy") then ensureIngressProxy ns params c
  else if decide (what = "cluster state") then total (ensureClusterState ns c)
  else if decide (what = "aes256k spec") then (λ h, (w_align_aes256k h (dc_cephDpl c), []))
  else ret (Some (false, None)).

Definition modelled_remove (ns : string) (params : DeployParams) (c : deployConfig) (what : string) : IO (bool * option err) :=
  if decide (what = "openstack shared secret") then deleteOpenstackSecret params
  else if decide (what = "ingress proxy") then deleteIngressProxy ns
  else if decide (what = "rbd mirror") then deleteRBDMirroring ns c
  else if decide (what = "ceph block pools") then deletePools ns
  else if decide (what = "ceph shared filesystem") then on_stamps (deleteSharedFilesystems ns)
  else if decide (what = "external resources") then deleteExternalConnectionSecret ns (dc_cephDpl c)
  else if decide (what = "network policies") then cleanupNetworkPolicy ns
  else if decide (what = "storage classes") then deleteStorageClasses ns
  else if decide (what = "ceph clients") then deleteCephClients ns
  else if decide (what = "object storage") then deleteObjectStorage ns c
  else if decide (what = "ceph csi operator resources") then deleteCsiOperatorResources ns params
  else if decide (what = "volumesnapshotclasses resources") then deleteVolumeSnapshotClasses params
  else ret (false, None).

Lemma modelled_ensure_events ns params c what : spec resource_event (modelled_ensure ns params c what) (λ _, True).
Proof.
  unfold modelled_ensure. repeat destruct (decide _); try apply total_events;
    [apply policies_events|apply csi_events|apply snapshot_events|apply pools_events| |apply classes_events|apply clients_events
    |apply storage_events|apply mirror_events|apply openstack_events|apply ingress_events|apply state_events|by intros h; split|by apply spec_ret].
  apply on_stamps_events. intros ts. apply fs_events.
Qed.

Lemma modelled_remove_events ns params c what : spec resource_event (modelled_remove ns params c what) (λ _, True).
Proof.
  unfold modelled_remove.
  repeat destruct (decide _); [apply openstack_removed_events|apply ingress_removed_events|apply mirror_removed_events|apply pools_removed_events|
    |apply aside_quiet, external_removed_events|apply policies_removed_events|apply classes_removed_events|apply clients_removed_events
    |apply storage_removed_events|apply csi_removed_events|apply snapshot_removed_events|by apply spec_ret].
  apply on_stamps_events. intros ts. apply fs_removed_events.
Qed.

#[export] Instance pelagia_ops : ResourceOps := {|
  op_ensure := modelled_ensure;
  op_cluster := ensureCluster;
  op_remove := modelled_remove;
  op_daemonsets := ensureDaemonsetLabels;
  op_ensure_events := modelled_ensure_events;
  op_cluster_events := cluster_events;
  op_remove_events := modelled_remove_events;
  op_daemonsets_events := daemonsets_events;
|}.

(** ** What the results of the operations mean *)

Lemma pools_listed ns c h : (ensurePools ns c h).1 = (false, None) → ∃ items, w_blockpool_list h ns = (items, None).
Proof. unfold ensurePools, read, mbind'. simpl. destruct (w_blockpool_list h ns) as [items [e|]]; [done|by eexists]. Qed.

Lemma classes_settled ns c h :
  (ensureStorageClasses ns c h).1 = (false, None) →
  ∃ items, w_storageclass_list h EmptyString = (items, None) ∧
    (∀ class, class ∈ spec_classes ns c → sto_Name class ∈ sto_Name <$> items) ∧
    (∀ k, is_Some (listed_classes items !! k) → k ∈ sto_Name <$> spec_classes ns c).
Proof.
  unfold ensureStorageClasses, storageclass_list, read, mbind'. simpl.
  destruct (w_storageclass_list h EmptyString) as [items [e|]]; [done|]. simpl. intros Hr.
  exists items. split; [done|]. destruct (changes_compared ns c items) as (_ & Hd & Hc & _).
  assert (Hq : sc_create (class_changes ns c items) = [] ∧ sc_delete (class_changes ns c items) = ∅).
  { revert Hr. destruct (collected_error _ _); simpl; [done|]. intros [= Hu]. apply orb_false_iff in Hu as [Hu Hdel].
    apply orb_false_iff in Hu as [Hcr _]. by apply negb_false_iff, bool_decide_eq_true in Hcr, Hdel. }
  destruct Hq as [Hcr Hdel]. rewrite Hcr in Hc. rewrite Hdel in Hd. split.
  - intros class Hin. destruct (decide (sto_Name class ∈ sto_Name <$> items)) as [|Hn]; [done|].
    assert (class ∈ @nil StorageClass) as []%elem_of_nil by by apply Hc.
  - intros k [b Hk]. destruct (decide (k ∈ sto_Name <$> spec_classes ns c)) as [|Hn]; [done|].
    assert ((∅ : gmap string bool) !! k = Some b) by by apply Hd. done.
Qed.

Lemma pools_gone ns h : (deletePools ns h).1 = (true, None) → w_blockpool_list h ns = ([], None).
Proof.
  unfold deletePools, read, mbind'. simpl. destruct (w_blockpool_list h ns) as [[|p items] [e|]]; try done. simpl.
  by destruct (foldM _ _ _ _).1.
Qed.

Lemma clients_gone ns h : (deleteCephClients ns h).1 = (true, None) → w_client_list h ns = ([], None).
Proof.
  unfold deleteCephClients, read, mbind'. simpl. destruct (w_client_list h ns) as [[|p items] [e|]]; try done. simpl.
  by destruct (foldM _ _ _ _).1.
Qed.

Lemma filesystems_gone ns ts h : (deleteSharedFilesystems ns ts h).1.1 = (true, None) → w_filesystem_list h ns = ([], None).
Proof.
  unfold deleteSharedFilesystems, filesystem_list, read, mbind'. simpl. destruct (w_filesystem_list h ns) as [[|p items] [e|]]; try done. simpl.
  by destruct (foldM _ _ _ _).1 as [[|n] ts'].
Qed.

Lemma classes_gone ns h : (deleteStorageClasses ns h).1 = (true, None) → w_storageclass_list h rookStorageClassLabelKey = ([], None).
Proof.
  unfold deleteStorageClasses, storageclass_list, read, mbind'. simpl.
  destruct (w_storageclass_list h rookStorageClassLabelKey) as [items [e|]]; [done|]. simpl. destruct (decide _) as [He|]; [|done].
  intros _. destruct items as [|class items] using rev_ind; [done|]. rewrite foldl_app in He. simpl in He. by apply insert_non_empty in He.
Qed.
End operations.

(** ** The composed controller *)

Section steps.
Context `{World} `{HealthWorld} `{DeployWorld} `{SpecDecoder} `{ResourceWorld} `{StoreWorld} `{ServiceWorld} `{RookLib} `{MapRange}.
Variables (rookNs : string) (params : DeployParams) (h0 : history).

(** At some point of the round, before [h]. *)
Definition during (h : history) (Q : history → Prop) : Prop := ∃ h1, h0 `prefix_of` h1 ∧ h1 `prefix_of` h ∧ Q h1.

(** A step that was run, and something that holds within it. *)
Lemma ran_within {A} e (m : IO A) a h (Q : history → Prop) :
  ran h0 e m a h → (∀ h1, (m h1).1 = a → ∃ evs evs', (m h1).2 = evs ++ evs' ∧ Q (h1 ++ evs)) → during h Q.
Proof.
  intros (h1 & Hh1 & Hpre & Ha) HQ. destruct (HQ _ Ha) as (evs & evs' & Hevs & Hq). exists ((h1 ++ [e]) ++ evs).
  split_and!; [by do 2 apply prefix_app_r| |done]. etrans; [|exact Hpre]. exists evs'. rewrite Hevs, <-!(assoc_L (++)). done.
Qed.

Lemma ran_during {A} e (m : IO A) a h (Q : history → Prop) :
  ran h0 e m a h → (∀ h1, (m h1).1 = a → Q h1) → during h Q.
Proof.
  intros Hran HQ. eapply ran_within; [exact Hran|]. intros h1 Ha. exists [], (m h1).2. rewrite app_nil_r. auto.
Qed.

Lemma ran_asked {A B} e (m : IO A) a h e' (f : history → B) b :
  ran h0 e m a h → (∀ h1, (m h1).1 = a → asked h1 e' f b (h1 ++ (m h1).2)) → during h (λ h1, f h1 = b).
Proof.
  intros Hran Hm. eapply ran_within; [exact Hran|]. intros h1 Ha. destruct (Hm h1 Ha) as (h2 & [evs ->] & [evs' Hpre] & Hf).
  exists evs, (e' :: evs'). split; [|done]. rewrite <-!(assoc_L (++)) in Hpre. by apply (inj (app h1)) in Hpre.
Qed.

(** The block pools of a deployment are as its spec says. *)
Definition pools_as_specified (dpl : CephDeployment) (items : list BlockPool) : Prop :=
  let pools := default [] (dsp_BlockStorage (cdp_Spec dpl)) in
  NoDup (bpo_Name <$> items) → NoDup (buildPoolName <$> pools) ∧
  (∀ pool, pool ∈ pools → ∃ p, p ∈ items ∧ bpo_Name p = buildPoolName pool ∧
     ready "CephBlockPool" rookNs bpo_Name bpo_Phase p ∧ pool_as_specified rookNs pool p) ∧
  (∀ p, p ∈ items → bpo_Name p ∈ buildPoolName <$> pools ∨ bpo_Name p ∈ builtin_names ∨ preserved p = true).

Lemma pools_ok dpl h :
  resource_ok rookNs params dpl h0 "cephblockpools" h →
  during h (λ h1, ∃ items, w_blockpool_list h1 rookNs = (items, None) ∧ pools_as_specified dpl items).
Proof.
  intros (c & Hc & _ & Hran). destruct (about_fields _ _ _ Hc) as (_ & _ & _ & _ & Hspec). eapply ran_during; [exact Hran|]. intros h1 Hr.
  change ((total (ensurePools rookNs c) h1).1 = Some (false, None)) in Hr. apply total_result in Hr. destruct (pools_listed rookNs c h1 Hr) as [items Hl].
  exists items. split; [done|]. intros Hi. pose proof (pools_distinct rookNs c h1 Hr) as Hn.
  pose proof (pools_converged rookNs c h1 items Hl Hi Hn) as Hconv. apply Hconv in Hr. rewrite Hspec in Hn, Hr. by split.
Qed.

Lemma classes_ok dpl h :
  resource_ok rookNs params dpl h0 "storageclasses" h →
  ∃ c, about dpl h0 c ∧ decided rookNs params dpl h0 c h ∧ during h (λ h1, ∃ items, w_storageclass_list h1 EmptyString = (items, None) ∧
    (∀ class, class ∈ spec_classes rookNs c → sto_Name class ∈ sto_Name <$> items) ∧
    (∀ k, is_Some (listed_classes items !! k) → k ∈ sto_Name <$> spec_classes rookNs c)).
Proof.
  intros (c & Hc & Hdec & Hran). exists c. split_and!; [done|done|]. eapply ran_during; [exact Hran|]. intros h1 Hr.
  apply (classes_settled rookNs c h1). exact (total_result _ _ _ Hr).
Qed.

Lemma cluster_settles dpl h :
  cluster_ok rookNs params dpl h0 h →
  ∃ c, about dpl h0 c ∧ decided rookNs params dpl h0 c h ∧
    during h (λ h1, ∃ cluster, w_rookcluster_get h1 rookNs (cdp_Name dpl) = (cluster, None) ∧ settled c (cluster_spec dpl) cluster).
Proof.
  intros (c & keys & Hc & Hdec & Hran). exists c. split_and!; [done|done|].
  destruct (about_fields _ _ _ Hc) as (Hname & _). destruct Hc as (_ & Hspec & _).
  eapply ran_during; [exact Hran|]. intros h1 Hr. rewrite <-Hname. by apply (cluster_settled rookNs params c h1 _ keys).
Qed.

(** Nothing is listed any more. *)
Lemma list_gone dpl what (Q : history → Prop) h :
  resource_gone rookNs params dpl h0 what h → (∀ c h1, (modelled_remove rookNs params c what h1).1 = (true, None) → Q h1) → during h Q.
Proof. intros (c & _ & Hran) HQ. eapply ran_during; [exact Hran|]. intros h1 Hr. by apply (HQ c). Qed.

Lemma storage_unlisted dpl h :
  resource_gone rookNs params dpl h0 "object storage" h →
  during h (λ h, w_user_list h rookNs = ([], None)) ∧ during h (λ h, w_bucket_list h rookNs = ([], None)) ∧
  during h (λ h, w_store_list h rookNs = ([], None)).
Proof.
  intros (c & _ & Hran).
  assert (Hd : ∀ h1, (deleteObjectStorage rookNs c h1).1 = (true, None) → stores_gone rookNs h1 (h1 ++ (deleteObjectStorage rookNs c h1).2)).
  { intros h1 Hr. destruct (storage_deleted rookNs h1 c h1) as [Hs _]; [done|]. rewrite Hr in Hs. by apply Hs. }
  split_and!; (eapply ran_asked; [exact Hran|]); intros h1 Hr; by apply Hd.
Qed.

Lemma extra_elem dpl external what :
  what ∈ ["ceph clients"; "storage classes"; "object storage"] ++ (if (external : bool) then [] else ["ceph block pools"; "ceph shared filesystem"]) →
  what ∈ extra_resources external (disableOsKeys dpl).
Proof. unfold extra_resources. destruct external, (disableOsKeys dpl); vm_compute; set_solver. Qed.

(** The operations that may panic: all others always have a result. *)
Definition known_panics : list string :=
  ["cephcsi"; "ceph object storage"; "RBD Mirroring"; "Openstack secret"; "ingress proxy"; "aes256k spec"].

Lemma total_some {A} (op : IO A) h : (total op h).1 ≠ None.
Proof. done. Qed.

Lemma panic_known c what h : what ∈ may_panic → (modelled_ensure rookNs params c what h).1 = None → what ∈ known_panics.
Proof.
  intros Hw. unfold may_panic, later_resources in Hw. simpl in Hw. unfold known_panics. mem_inv Hw; subst what; intros Hn; first [mem|by destruct (total_some _ _ Hn)].
Qed.

(** A panic of the composed controller. *)
Definition panicked_within (dpl : CephDeployment) (h : history) : Prop :=
  (∃ c what, about dpl h0 c ∧ decided rookNs params dpl h0 c h ∧ what ∈ known_panics ∧
     ran h0 (EvEnsure what) (modelled_ensure rookNs params c what) None h) ∨
  (∃ c, about dpl h0 c ∧ decided rookNs params dpl h0 c h ∧ ran h0 (EvEnsure "cephcluster") (ensureCluster rookNs params c) None h) ∨
  ran h0 (EvEnsure "daemonset labels") (ensureDaemonsetLabels rookNs params) None h ∨
  rook_unset rookNs h0 h.

Lemma panicked_known dpl h : panicked rookNs params dpl h0 h → panicked_within dpl h.
Proof.
  intros [(c & what & Hc & Hdec & Hw & Hran)|Hrest]; [left|by right].
  exists c, what. split_and!; [done|done| |done]. destruct Hran as (h1 & _ & _ & Hn). exact (panic_known c what _ Hw Hn).
Qed.
End steps.

Section composed.
Context `{World} `{HealthWorld} `{DeployWorld} `{SpecDecoder} `{ResourceWorld} `{StoreWorld} `{ServiceWorld} `{RookLib} `{MapRange}.
Variables (lcmConfigs : lcm_configs) (r : request) (tries : Z) (h0 : history).
Let rookNs : string := lc_RookNamespace (GetConfiguration (req_Namespace r) lcmConfigs).
Let params : DeployParams := default defaultDeployParams (lc_DeployParams (GetConfiguration (req_Namespace r) lcmConfigs)).
Abbreviation within := (during (listed r h0)).

(** C8: When a round turns a deployment with its own cluster into a ready one, then in this
    round the CephCluster was read and has the spec generated from that of the deployment, with
    the image decided on in this round and the nodes the deployment stands for (up to annotations,
    and unless the cluster is waiting for the deployment to take over new keys); the block pools
    were listed and, the names of the listed ones being distinct as the API server guarantees,
    those of the spec have distinct names too and are there, ready and with its settings, beside
    builtin and preserved ones only; and the storage classes were listed, those the spec asks for
    (with its pools, file systems and cluster) are there and no class that was made for Rook and
    need not be kept is left over. *)
Theorem ready_means_applied dpl evs1 ns name status evs2 :
  w_dpl_list h0 (req_Namespace r) = ([dpl], None) →
  (ReconcileCephDeployment lcmConfigs r tries h0).2 = evs1 ++ EvDplStatusUpdate ns name status :: evs2 →
  dst_Phase status = PhaseReady → dst_Phase (cdp_Status dpl) ≠ PhaseReady → is_external dpl = false →
  within (h0 ++ evs1) (λ h, ∃ items, w_blockpool_list h rookNs = (items, None) ∧ pools_as_specified rookNs dpl items) ∧
  (∃ c, about dpl (listed r h0) c ∧ decided rookNs params dpl (listed r h0) c (h0 ++ evs1) ∧
     within (h0 ++ evs1) (λ h, ∃ cluster,
       w_rookcluster_get h rookNs (cdp_Name dpl) = (cluster, None) ∧ settled c (cluster_spec dpl) cluster)) ∧
  ∃ c, about dpl (listed r h0) c ∧ decided rookNs params dpl (listed r h0) c (h0 ++ evs1) ∧
    within (h0 ++ evs1) (λ h, ∃ items, w_storageclass_list h EmptyString = (items, None) ∧
      (∀ class, class ∈ spec_classes rookNs c → sto_Name class ∈ sto_Name <$> items) ∧
      (∀ k, is_Some (listed_classes items !! k) → k ∈ sto_Name <$> spec_classes rookNs c)).
Proof.
  intros Hl Hev Hready Hnot Hext. pose proof (round_events lcmConfigs r tries h0 dpl evs1 _ evs2 Hl Hev) as [_ Hr].
  destruct (Hr Hready) as [|(_ & Hres & Hcl)]; [done|]. rewrite Hext in Hres.
  split_and!; [apply (pools_ok rookNs params), Hres|by apply cluster_settles|apply classes_ok, Hres]; vm_compute; set_solver.
Qed.


(** C9: The CephCluster is deleted only in a round for a deployment that is being deleted, in
    which the clients of Ceph, the storage classes, and the users, buckets and object stores of
    object storage were listed and none was left, and, for a cluster of its own, neither a block
    pool nor a shared file system. *)
Theorem destroyed_when_unused dpl evs1 ns name evs2 :
  w_dpl_list h0 (req_Namespace r) = ([dpl], None) →
  (ReconcileCephDeployment lcmConfigs r tries h0).2 = evs1 ++ EvDelete "CephCluster" ns name :: evs2 →
  deleting dpl ∧
  within (h0 ++ evs1) (λ h, w_client_list h rookNs = ([], None)) ∧
  within (h0 ++ evs1) (λ h, w_storageclass_list h rookStorageClassLabelKey = ([], None)) ∧
  (within (h0 ++ evs1) (λ h, w_user_list h rookNs = ([], None)) ∧ within (h0 ++ evs1) (λ h, w_bucket_list h rookNs = ([], None)) ∧
   within (h0 ++ evs1) (λ h, w_store_list h rookNs = ([], None))) ∧
  (is_external dpl = false →
   within (h0 ++ evs1) (λ h, w_blockpool_list h rookNs = ([], None)) ∧
   within (h0 ++ evs1) (λ h, w_filesystem_list h rookNs = ([], None))).
Proof.
  intros Hl Hev. pose proof (round_events lcmConfigs r tries h0 dpl evs1 _ evs2 Hl Hev) as Hu.
  destruct (proj1 Hu eq_refl) as (Hdel & _ & _ & Hres). assert (Hgone := λ what Hw, Hres what (extra_elem dpl (is_external dpl) what Hw)).
  assert (Hst := storage_unlisted rookNs params _ dpl _ (Hgone "object storage" ltac:(apply elem_of_app; left; mem))).
  split; [done|split; [|split; [|split; [exact Hst|intros Hext; split]]]].
  - apply (list_gone rookNs params _ dpl "ceph clients"); [apply Hgone; apply elem_of_app; left; mem|]. intros c h1 Hr. by apply clients_gone.
  - apply (list_gone rookNs params _ dpl "storage classes"); [apply Hgone; apply elem_of_app; left; mem|]. intros c h1 Hr. by apply (classes_gone rookNs).
  - apply (list_gone rookNs params _ dpl "ceph block pools"); [apply Hgone; rewrite Hext; simpl; mem|]. intros c h1 Hr. by apply pools_gone.
  - apply (list_gone rookNs params _ dpl "ceph shared filesystem"); [apply Hgone; rewrite Hext; simpl; mem|]. intros c h1 Hr.
    apply (filesystems_gone rookNs (ut_cephConfigMap (current_stamps h1))). by rewrite <-on_stamps_result.
Qed.
End composed.
