(* ===== verification/DeployDemo.v ===== *)
(** * A CephDeployment and its controller at work

    A cluster with one node, one disk and one pool, an API server that answers for it, and
    runs of the deployment controller: applying, holding, deleting.  The runs are the inputs
    at which the theorems of the deployment controller are applied. *)

From Stdlib Require Import QArith.
From S2P Require Import Prelude GoTime Types HealthTypes DeployTypes World HealthWorld TaskUtils Demo SpecHandler Controller Config HealthDemo Extensions Validate ValidateFacts Trace DeployWorld CastSpec NodeLabels Versions DeployController DeployFacts.
Open Scope Z_scope.

(** ** The objects *)

Definition hdd : CephDevice := mkCephDevice "sda" "" {["deviceClass" := "hdd"]}.

Definition dpl_node : CephDeploymentNode :=
  mkDplNode (mkCephNode "node-1" ∅ [hdd] "" "" false []) ["mon"; "mgr"] {["rack" := "r1"]} [] "" "".

Definition dpl_pool : CephPool :=
  mkCephPool "kubernetes" false "kubernetes" false (mkStorageClassSpec true false "" "" "" "" false)
    (mkRaw None (Some (Some (mkPoolSpec "host" "hdd" 3%N 0%N 0%N 0%Q None "")))).

Definition dpl_cluster : ClusterSpec :=
  mkClusterSpec false (mkNetworkSpec "host" (Some (["10.0.0.0/24"], ["10.0.1.0/24"])) ∅ false) "" "" false false ∅ 0 0 []
    (mkStorageScope false None [] "") ∅ ∅ zero_CephX "" false "".

Definition dpl_spec : CephDeploymentSpec :=
  mkDplSpec (Some (mkRaw None (Some (Some dpl_cluster)))) (Some [dpl_pool]) [] None [dpl_node] None None ∅ None None [] None.

Definition accepted : CephDeploymentValidation := mkValidation ValidationSucceed 1 [].

(** The deployment in a phase; deleted or not. *)
Definition demo_dpl (phase : CephDeploymentPhase) (deleted : bool) : CephDeployment :=
  mkDpl "cephcluster" "pelagia" 1 ∅ [deploy_finalizer] (if deleted then Some 1 else None) dpl_spec
    (mkDplStatus phase "" accepted "v19.2.3" "" []) "uid-0".

Definition rook_cluster (nodes : list CephNode) : RookCluster :=
  mkRookCluster "cephcluster" "rook-ceph" "uid-1" ∅ ∅
    (set_csp_Image "ceph:v19.2.3" (set_csp_Storage (mkStorageScope false None nodes "") dpl_cluster))
    None "" None "" "".
Definition demo_rook : RookCluster := rook_cluster [mkCephNode "node-1" ∅ [hdd] "" "" false []].

(** ** The API server *)

Definition demo_decoder : SpecDecoder := {|
  json_ClusterSpec := λ _, (dpl_cluster, None);
  json_PoolSpec := λ _, (mkPoolSpec "host" "hdd" 3%N 0%N 0%N 0%Q None "", None);
  json_ClientSpec := λ s, (mkClientSpec s ∅ "", None);
  json_FilesystemSpec := λ _, (zero_FilesystemSpec, None);
  json_RealmSpec := λ s, (mkRealmSpec s false, None);
  json_ZoneGroupSpec := λ s, (s, None);
  json_ZoneSpec := λ _, (zero_ZoneSpec, None);
  json_StoreSpec := λ _, (zero_StoreSpec, None);
  json_StoreUserSpec := λ s, (mkStoreUserSpec s "" ∅ "", None);
  json_HTTPRouteSpec := λ s, (mkRouteSpec [] [s] [], None);
  json_OperatorConfigSpec := λ s, (mkOperatorConfigSpec (Some zero_DriverSpec) s, None);
  json_DriverSpec := λ _, (zero_DriverSpec, None);
|}.

Definition absent : option err := Some (Err ErrNotFound "not found").

(** [cluster] is the CephCluster, if there is one; every operation on another resource finds
    its work done. *)
Definition demo_deploy_world (dpl : CephDeployment) (cluster : option RookCluster) : DeployWorld := {|
  w_node_update := λ _ _, None;
  w_nodes_selected := λ _ _, ([], None);
  labels_parses := λ _, true;
  w_deployments_selected := λ _ _ _, (O, None);
  w_deployment_image := λ _ _ _, ((ready_deployment, Some "rook:v1"), None);
  w_daemonset_image := λ _ _ _, ((mkDaemonSet 1 1 1 1 1, Some "rook:v1"), None);
  w_image_update := λ _ _ _ _ _, None;
  w_rookcluster_get := λ _ _ _, match cluster with Some c => (c, None) | None => (demo_rook, absent) end;
  w_rookcluster_update := λ _ _, None;
  w_dpl_list := λ _ _, ([dpl], None);
  w_dpl_cached := λ _ _ _, (dpl, None);
  w_dpl_update := λ _ _, None;
  w_dpl_status_update := λ _ _ _ _, None;
  w_gvk_dpl := ("lcm.mirantis.com/v1alpha1", "CephDeployment", None);
  w_object_labels := λ _ _ _ _, (Some baseResourceLabels, None);
  w_object_create := λ _ _ _ _, None;
  w_object_update := λ _ _ _ _ _, None;
  w_object_delete := λ _ kind _ _, if decide (kind = "CephCluster") then None else absent;
  w_version_dpl_get := λ _ _, (("ceph:v19.2.3", true), None);
  w_poll_attempts := λ _, 1%nat;
  w_exec_version := λ _ _ _, ("ceph version 19.2.3 (0) squid (stable)", "", None);
  json_CephVersions := λ _, ({["ceph version 19.2.3 (0) squid (stable)" := 3]}, None);
  w_openstack_status := λ _, ([], None);
  w_env := λ _, None;
|}.

(** Operations that find their work done. *)
Definition idle_ops : ResourceOps.
Proof.
  refine {| op_ensure := λ _ _ _ _, ret (Some (false, None)); op_cluster := λ _ _ _, ret (Some ((false, None), None));
            op_remove := λ _ _ _ _, ret (true, None); op_daemonsets := λ _ _, ret (Some tt) |}; intros; by apply spec_ret.
Defined.

(** Removal tasks and the labels of the node. *)
Definition deploy_cluster (tasks : list CephOsdRemoveTask) (labels : gmap string string) : demo_cluster :=
  mkDemo false 0 [] [] [] [mkK8sNode "node-1" labels ∅ []] (demo_node_report "/dev/vg/lv") tasks (mkJobStatus 0 0 0 []).

(** The labels before and after the node is used. *)
Definition plain_labels : gmap string string := {["topology.kubernetes.io/zone" := "z"]}.
Definition ceph_labels : gmap string string :=
  (@buildNodeLabels default_range plain_labels ["mon"; "mgr"; "osd"] {["rack" := "r1"]}).1.

Definition deploy_params (image : string) : DeployParams :=
  set_dp_RookImage "rook:v1" (set_dp_CephRelease "Squid" (set_dp_CephImage image defaultDeployParams)).

Definition deploy_lcm : lcm_configs :=
  {["pelagia" := set_lc_DeployParams (Some (deploy_params "ceph:v19.2.3")) (GetConfiguration "pelagia" ∅)]}.

Definition deploy_request : request := mkRequest "pelagia" "cephcluster".

Definition deploy_run (dpl : CephDeployment) (cluster : option RookCluster) (tasks : list CephOsdRemoveTask)
    (labels : gmap string string) : option round * list event :=
  @ReconcileCephDeployment (demo_world (deploy_cluster tasks labels)) demo_health_world (demo_deploy_world dpl cluster)
    idle_ops demo_decoder default_range deploy_lcm deploy_request 0 [].

(** ** Runs *)

Definition phases (evs : list event) : list CephDeploymentPhase :=
  omap (λ e, match e with EvDplStatusUpdate _ _ s => Some (dst_Phase s) | _ => None end) evs.

(** A round that changes the labels of the node is in progress, the next one is ready. *)
Example labelling_round :
  phases (deploy_run (demo_dpl PhaseDeploying false) (Some demo_rook) [] plain_labels).2 = [PhaseDeploying; PhaseDeploying].
Proof. vm_compute. reflexivity. Qed.

Example ready_round :
  phases (deploy_run (demo_dpl PhaseDeploying false) (Some demo_rook) [] ceph_labels).2 = [PhaseDeploying; PhaseReady].
Proof. vm_compute. reflexivity. Qed.

(** A task that waits for its approval holds the deployment, although a task that failed is
    listed first; behind a task that is being validated, with the CephCluster outdated, it is
    not seen. *)
Definition task_in (phase : TaskPhase) : CephOsdRemoveTask :=
  set_task_Status (Some (mkTaskStatus phase "" None [] [])) demo_task.

Example approval_holds :
  phases (deploy_run (demo_dpl PhaseDeploying false) (Some demo_rook)
            [task_in TaskPhaseFailed; task_in TaskPhaseApproveWaiting] ceph_labels).2 = [PhaseOnHold].
Proof. vm_compute. reflexivity. Qed.

Example validating_hides :
  phases (deploy_run (demo_dpl PhaseDeploying false) (Some (rook_cluster []))
            [task_in TaskPhaseValidating; task_in TaskPhaseProcessing] ceph_labels).2 = [PhaseDeploying; PhaseReady].
Proof. vm_compute. reflexivity. Qed.

(** A node that brings no devices makes any device class acceptable. *)
Definition bare_node (name : string) : CephDeploymentNode :=
  mkDplNode (mkCephNode name ∅ [] "" "" false []) ["mon"] ∅ [] "" "".

Example unknown_class_accepted :
  validateDeviceClass "nvme" [dpl_node] ≠ None ∧ validateDeviceClass "nvme" [dpl_node; bare_node "node-2"] = None.
Proof. vm_compute. done. Qed.

(** Two entries for one node: the roles are those of the last one, the topology stays. *)
Example node_listed_twice :
  nodesRoles [dpl_node; bare_node "node-1"] !! "node-1" = Some ["mon"] ∧
  is_Some (nodesCrushTopology [dpl_node; bare_node "node-1"] !! "node-1").
Proof. vm_compute. by split; [|eexists]. Qed.

(** ** Witnesses *)

Lemma split_at {A} (l : list A) n e : l !! n = Some e → l = take n l ++ e :: drop (S n) l.
Proof. intros Hn. symmetry. by apply take_drop_middle. Qed.

(** The run of the round that is ready, the one that destroys the cluster and the one that
    finds it gone. *)
Definition ready_run : list event := (deploy_run (demo_dpl PhaseDeploying false) (Some demo_rook) [] ceph_labels).2.
Definition destroying_run : list event := (deploy_run (demo_dpl PhaseDeleting true) (Some demo_rook) [] ceph_labels).2.
Definition gone_run : list event := (deploy_run (demo_dpl PhaseDeleting true) None [] plain_labels).2.

(** The status written last. *)
Definition last_status (evs : list event) : CephDeploymentStatus :=
  match last evs with
  | Some (EvDplStatusUpdate _ _ s) => s
  | _ => mkDplStatus PhaseFailed "" accepted "" "" []
  end.

Lemma not_deleting phase : ¬ deleting (demo_dpl phase false).
Proof. by intros [[t Ht] _]. Qed.


Lemma cluster_destroyed_last_witness :
  @cluster_unused (demo_deploy_world (demo_dpl PhaseDeleting true) (Some demo_rook)) idle_ops demo_decoder "rook-ceph" (deploy_params "ceph:v19.2.3")
    (demo_dpl PhaseDeleting true) (listed deploy_request []) (take 14 destroying_run).
Proof.
  apply (@cluster_destroyed_last (demo_world (deploy_cluster [] ceph_labels)) demo_health_world
    (demo_deploy_world (demo_dpl PhaseDeleting true) (Some demo_rook)) idle_ops demo_decoder default_range deploy_lcm deploy_request 0 []
    (demo_dpl PhaseDeleting true) (take 14 destroying_run) (drop 15 destroying_run) "rook-ceph" "cephcluster"); [reflexivity|].
  apply split_at. vm_compute. reflexivity.
Defined.

Lemma finalizer_kept_witness :
  @cluster_gone (demo_deploy_world (demo_dpl PhaseDeleting true) None) idle_ops demo_decoder "rook-ceph" (deploy_params "ceph:v19.2.3")
    (demo_dpl PhaseDeleting true) (listed deploy_request []) (take 20 gone_run).
Proof.
  apply (@finalizer_kept (demo_world (deploy_cluster [] plain_labels)) demo_health_world
    (demo_deploy_world (demo_dpl PhaseDeleting true) None) idle_ops demo_decoder default_range deploy_lcm deploy_request 0 []
    (demo_dpl PhaseDeleting true) (take 20 gone_run) (set_cdp_Finalizers [] (demo_dpl PhaseDeleting true)) (drop 21 gone_run));
    [reflexivity| |by left|by apply not_elem_of_nil].
  apply split_at. vm_compute. reflexivity.
Defined.

Lemma phases_written_witness :
  @all_applied (demo_world (deploy_cluster [] ceph_labels)) demo_health_world
    (demo_deploy_world (demo_dpl PhaseDeploying false) (Some demo_rook)) idle_ops demo_decoder default_range "rook-ceph" (deploy_params "ceph:v19.2.3")
    (demo_dpl PhaseDeploying false) (listed deploy_request []) (take 37 ready_run).
Proof.
  destruct (@phases_written (demo_world (deploy_cluster [] ceph_labels)) demo_health_world
    (demo_deploy_world (demo_dpl PhaseDeploying false) (Some demo_rook)) idle_ops demo_decoder default_range deploy_lcm deploy_request 0 []
    (demo_dpl PhaseDeploying false) (take 37 ready_run) "pelagia" "cephcluster" (last_status ready_run) (drop 38 ready_run))
    as [_ Hready]; [reflexivity|apply split_at; vm_compute; reflexivity|].
  destruct Hready as [Hp|Ha]; [vm_compute; reflexivity|discriminate Hp|exact Ha].
Defined.

(** A label pass: the node gets the labels of its roles. *)
Definition label_config : deployConfig :=
  mkDeployConfig (demo_dpl PhaseDeploying false) (Some dpl_cluster) false [] [dpl_node] None "" false None (lc_CommonParams defaultLcmConfig).
Definition label_run : list event :=
  (@ensureLabelNodes (demo_world (deploy_cluster [] plain_labels)) (demo_deploy_world (demo_dpl PhaseDeploying false) None)
     default_range "rook-ceph" label_config []).2.

Lemma label_updates_safe_witness :
  @label_event (demo_deploy_world (demo_dpl PhaseDeploying false) None) [] "rook-ceph" [mkK8sNode "node-1" plain_labels ∅ []]
    (take 1 label_run) (EvNodeUpdate (mkK8sNode "node-1" ceph_labels ∅ [])).
Proof.
  apply (@label_updates_safe (demo_world (deploy_cluster [] plain_labels)) (demo_deploy_world (demo_dpl PhaseDeploying false) None)
    default_range "rook-ceph" label_config [] ltac:(apply NoDup_singleton)) with (evs1 := take 1 label_run) (evs2 := drop 2 label_run).
  - apply Forall_singleton. intros k Hk. apply elem_of_dom in Hk. unfold dpl_node in Hk. cbn [dn_Crush] in Hk.
    rewrite dom_singleton_L, elem_of_singleton in Hk. subst k. by eexists.
  - apply split_at. vm_compute. reflexivity.
Defined.

(** The configuration has another image with the version of the cluster. *)
Definition version_check : (versions + err) * list event :=
  @verifyCephVersions (demo_world (deploy_cluster [] plain_labels)) demo_health_world
    (demo_deploy_world (demo_dpl PhaseReady false) (Some demo_rook)) default_range "rook-ceph" (deploy_params "mirror/ceph:v19.2.3")
    (demo_dpl PhaseReady false) [].

Lemma version_step_safe_witness :
  ∃ vs, vs_image vs = "mirror/ceph:v19.2.3" ∧
    @image_decision (demo_world (deploy_cluster [] plain_labels)) demo_health_world (demo_deploy_world (demo_dpl PhaseReady false) (Some demo_rook))
      "rook-ceph" (deploy_params "mirror/ceph:v19.2.3") (demo_dpl PhaseReady false) [] vs version_check.2.
Proof.
  assert (Hv : version_check.1 = inl (mkVersions (Some (mkVersion "Squid" "v19.2" 3 19 [])) "mirror/ceph:v19.2.3" "v19.2.3" false)).
  { vm_compute. reflexivity. }
  eexists. split; [|exact (@version_step_safe _ _ _ _ _ _ _ _ _ Hv)]. reflexivity.
Defined.
