(* ===== verification/ResourceDemo.v ===== *)
(** * Resources of the deployment controller at work

    An API server that lists given objects, and passes of the operations on pools, clients,
    storage classes, nodes of the CSI driver and file systems against it: the inputs at which
    their theorems are applied, and runs that show limits of the code. *)

From Stdlib Require Import QArith.
From Stdlib Require Import Ascii.
From S2P Require Import Prelude GoTime Types HealthTypes DeployTypes World HealthWorld TaskUtils Controller Demo Config HealthDemo Extensions Validate DeployWorld Resources Pools Clients StorageClasses CsiEvict NodeLabels SharedFilesystem Versions CephConfig External StoreWorld CsiOperator DeployController DeployFacts Cluster DeployCompose DeployDemo.
Open Scope Z_scope.

(** What the API server lists. *)
Record listing := mkListing {
  ls_pools : list BlockPool;
  ls_classes : list StorageClass;
  ls_filesystems : list Filesystem;
  ls_clients : list RookClient;
  ls_claims : list (string * string * option string);
  (** config maps and secrets *)
  ls_data : list (string * DataObject);
}.

(** Connection data as a string: lists of strings, as the bits of a number. *)
Fixpoint bits (p : positive) : string :=
  match p with
  | xH => EmptyString
  | xO p => String "0"%char (bits p)
  | xI p => String "1"%char (bits p)
  end.
Fixpoint of_bits (s : string) : positive :=
  match s with
  | EmptyString => xH
  | String c s => if decide (c = "0"%char) then xO (of_bits s) else xI (of_bits s)
  end.
Definition keyring_list (k : CSIKeyring) : list string := [ckr_NodeUser k; ckr_NodeKey k; ckr_ProvisionerUser k; ckr_ProvisionerKey k].
Definition connection_lists (con : CephConnection) : list (list string) :=
  [[cco_ClientName con; cco_ClientKeyring con; cco_FSID con; cco_MonEndpoints con];
   default [] (keyring_list <$> cco_RBDKeyring con); default [] (keyring_list <$> cco_CephFSKeyring con);
   default [] ((λ k, [ruk_AccessKey k; ruk_SecretKey k]) <$> cco_RgwAdminUserKeys con)].
Definition keyring_of (l : list string) : option CSIKeyring :=
  match l with [a; b; c; d] => Some (mkCSIKeyring a b c d) | _ => None end.
Definition connection_of (l : list (list string)) : option CephConnection :=
  match l with
  | [[name; keyring; fsid; endpoints]; rbd; cephfs; keys] =>
      Some (mkConnection name keyring fsid endpoints (keyring_of rbd) (keyring_of cephfs)
              (match keys with [a; b] => Some (mkRgwUserKeys a b) | _ => None end))
  | _ => None
  end.
Definition write_connection (con : CephConnection) : string := String "B"%char (bits (encode (connection_lists con))).
Definition read_connection (s : string) : CephConnection * option err :=
  match s with
  | String "B" s =>
      match decode (of_bits s) ≫= connection_of with
      | Some con => (con, None)
      | None => (mkConnection "" "" "" "" None None None, Some (new_err "no connection"))
      end
  | _ => (mkConnection "" "" "" "" None None None, Some (new_err "no connection"))
  end.

Lemma read_bits p : of_bits (bits p) = p.
Proof. induction p as [p IH|p IH|]; simpl; [by rewrite IH..|done]. Qed.
Lemma read_written con : read_connection (write_connection con) = (con, None).
Proof.
  unfold read_connection, write_connection. rewrite read_bits, decode_encode. simpl.
  by destruct con as [name keyring fsid endpoints [[]|] [[]|] [[]|]].
Qed.

Definition listing_world (l : listing) : ResourceWorld := {|
  w_blockpool_list := λ _ _, (ls_pools l, None);
  w_blockpool_get := λ _ ns name, (mkBlockPool name ns None ∅ "" zero_PoolSpec (Some "Ready"), None);
  w_storageclass_list := λ _ _, (ls_classes l, None);
  w_filesystem_list := λ _ _, (ls_filesystems l, None);
  w_filesystem_get := λ _ ns name, (mkFilesystem name ns None zero_FilesystemSpec None, absent);
  w_client_list := λ _ _, (ls_clients l, None);
  w_apply := λ _ _ _, None;
  w_pvc_list := λ _ _, (ls_claims l, None);
  w_pv_list := λ _, ([], None);
  w_csi_pods := λ _ _, ([], None);
  w_pod_exec := λ _ _ _ _, ("", "", None);
  w_attachments := λ _, ([], None);
  w_gvk_cluster := ("ceph.rook.io/v1", "CephCluster", None);
  w_data_get := λ _ kind ns name,
    match list_find (λ '(k, o), k = kind ∧ dob_Name o = name) (ls_data l) with
    | Some (_, (_, o)) => (o, None)
    | None => (mkDataObject name ns None ∅ [] ∅, absent)
    end;
  w_netpol_get := λ _ ns name, (mkNetworkPolicy name ns None (mkNetworkPolicySpec [] "" ""), absent);
  w_netpol_list := λ _ _, ([], None);
  w_random_name := λ _ name, name +:+ "-x1y2z";
  json_FsLs := λ _, (fso_Name <$> ls_filesystems l, None);
  json_SubvolumeGroups := λ _, ([{["name" := "csi"]}], None);
  json_ConfigDump := λ _, ([("osd", "bdev_enable_discard", "true"); ("osd", "bdev_async_discard_threads", "1")], None);
  json_CephConnection := read_connection;
  GetStringSha256 := λ s, s;
|}.

Definition resource_world (pools : list BlockPool) (clients : list RookClient) : ResourceWorld :=
  listing_world (mkListing pools [] [] clients [] []).

(** A configuration with pools; OpenStack with a rotation of its keys. *)
Definition config_with (pools : list CephPool) (rotation : option (Z * Z)) : deployConfig :=
  let spec := mkDplSpec (Some (mkRaw None (Some (Some dpl_cluster)))) (Some pools) []
    (Some (mkExtraOpts None false false "" false rotation)) [dpl_node] None None ∅ None None [] None in
  let dpl := mkDpl "cephcluster" "pelagia" 1 ∅ [] None spec (mkDplStatus PhaseDeploying "" accepted "" "" []) "uid-0" in
  mkDeployConfig dpl (Some dpl_cluster) (bool_decide (is_Some rotation)) ((λ p, pl_Name p +:+ "-hdd") <$> pools) [dpl_node] None "" false None (lc_CommonParams defaultLcmConfig).

Definition role_pool (role : string) : CephPool :=
  mkCephPool role true role false (mkStorageClassSpec false false "" "" "" "" false)
    (mkRaw None (Some (Some (mkPoolSpec "host" "hdd" 3%N 0%N 0%N 0%Q None "")))).

(** ** Pools *)

Definition a_pool (name : string) (annotations : gmap string string) : BlockPool :=
  mkBlockPool name "rook-ceph" (Some baseResourceLabels) annotations "" (mkPoolSpec "host" "hdd" 3%N 0%N 0%N 0%Q None "") (Some "Ready").

Definition keep_annotation : gmap string string := {[poolPreserveOnDeleteAnnotation := "true"]}.

(** One pool as specified, one that is not in the spec, one of those to be preserved. *)
Definition some_pools : list BlockPool := [a_pool "kubernetes-hdd" ∅; a_pool "old-hdd" ∅; a_pool "kept-hdd" keep_annotation].

Definition ensure_pools (spec : list CephPool) (pools : list BlockPool) : (bool * option err) * list event :=
  @ensurePools demo_decoder (demo_deploy_world (demo_dpl PhaseDeploying false) None) (resource_world pools []) default_range
    "rook-ceph" (config_with spec None) [].

Example surplus_removed :
  ensure_pools [dpl_pool] some_pools =
  ((true, None), [EvRead "CephBlockPoolList" "rook-ceph" ""; EvDelete "CephBlockPool" "rook-ceph" "old-hdd"]).
Proof. vm_compute. reflexivity. Qed.

(** Two entries of one name: the second one is created again in every pass. *)
Example twin_recreated :
  (ensure_pools [dpl_pool; dpl_pool] [a_pool "kubernetes-hdd" ∅]).1 = (true, None) ∧
  EvApply objectCreate (RBlockPool (@generatePool demo_decoder dpl_pool "rook-ceph"))
    ∈ (ensure_pools [dpl_pool; dpl_pool] [a_pool "kubernetes-hdd" ∅]).2.
Proof. split; [vm_compute; reflexivity|]. apply list_elem_of_lookup. exists 1%nat. vm_compute. reflexivity. Qed.

(** Asking to preserve a pool that is there already changes nothing. *)
Definition kept_pool : CephPool :=
  mkCephPool "kubernetes" false "kubernetes" true (mkStorageClassSpec true false "" "" "" "" false) (pl_PoolSpec dpl_pool).

Example preserve_ignored : (ensure_pools [kept_pool] [a_pool "kubernetes-hdd" ∅]).1 = (false, None).
Proof. vm_compute. reflexivity. Qed.

(** The removal of a deployment does not look at the annotation. *)
Example preserved_deleted :
  (@deletePools (demo_deploy_world (demo_dpl PhaseDeleting true) None) (resource_world [a_pool "kept-hdd" keep_annotation] [])
     "rook-ceph" []).2 = [EvRead "CephBlockPoolList" "rook-ceph" ""; EvDelete "CephBlockPool" "rook-ceph" "kept-hdd"].
Proof. vm_compute. reflexivity. Qed.

Lemma some_pools_distinct : NoDup (bpo_Name <$> some_pools).
Proof. vm_compute. repeat constructor; set_solver. Qed.

Lemma pool_changes_witness : EvDelete "CephBlockPool" "rook-ceph" "old-hdd" ∈ (ensure_pools [dpl_pool] some_pools).2.
Proof.
  apply (@pool_changes demo_decoder (demo_deploy_world (demo_dpl PhaseDeploying false) None) (resource_world some_pools []) default_range
    "rook-ceph" (config_with [dpl_pool] None) [] some_pools eq_refl some_pools_distinct); [by apply NoDup_singleton|].
  right; right; right. exists (a_pool "old-hdd" ∅). split_and!; [by right; left| | |reflexivity|reflexivity].
  - vm_compute. set_solver.
  - vm_compute. set_solver.
Defined.

Lemma pools_converged_witness : (ensure_pools [dpl_pool] [a_pool "kubernetes-hdd" ∅; a_pool "kept-hdd" keep_annotation]).1 = (false, None).
Proof.
  apply (@pools_converged demo_decoder (demo_deploy_world (demo_dpl PhaseDeploying false) None)
    (resource_world [a_pool "kubernetes-hdd" ∅; a_pool "kept-hdd" keep_annotation] []) default_range "rook-ceph" (config_with [dpl_pool] None) []
    [a_pool "kubernetes-hdd" ∅; a_pool "kept-hdd" keep_annotation] eq_refl); [vm_compute; repeat constructor; set_solver|by apply NoDup_singleton|].
  split.
  - intros pool ->%list_elem_of_singleton. exists (a_pool "kubernetes-hdd" ∅). split_and!; [by left|reflexivity|reflexivity|].
    split_and!; [reflexivity|reflexivity|]. by eexists.
  - intros p [->|[->|?%elem_of_nil]%elem_of_cons]%elem_of_cons; [left; vm_compute; left|right; right; reflexivity|done].
Defined.

(** ** Clients *)

(** A client of glance with a rotation. *)
Definition glance_client (rotation : Z) (phase : string) : RookClient :=
  mkRookClient ("glance-" +:+ pretty rotation) "rook-ceph"
    (Some (<[cephDeploymentClientRotationLabel := pretty rotation]> (<[cephDeploymentClientRoleLabel := "glance"]> baseResourceLabels)))
    (mkClientSpec ("glance-" +:+ pretty rotation) ∅ "") (Some phase).

(** Rotation 2 is asked for and not ready yet; no earlier one is to be kept, but the key of
    rotation 1 still serves. *)
Definition glance_clients : list RookClient := [glance_client 0 "Ready"; glance_client 1 "Ready"; glance_client 2 "Progressing"].

Definition rotating : deployConfig := config_with (role_pool <$> ["images"; "vms"; "volumes"; "backup"]) (Some (2, 0)).

Definition client_pass : (bool * option err) * list event :=
  @ensureCephClients demo_decoder (demo_deploy_world (demo_dpl PhaseDeploying false) None) (resource_world [] glance_clients) default_range
    "rook-ceph" rotating [].

Example oldest_key_removed :
  omap (λ e, match e with EvDelete _ _ name => Some name | _ => None end) client_pass.2 = ["glance-0"].
Proof. vm_compute. reflexivity. Qed.

Lemma glance_rotation r phase : 0 ≤ r ≤ 2 → has_rotation "glance" (glance_client r phase) r.
Proof. intros Hr. assert (r = 0 ∨ r = 1 ∨ r = 2) as [->|[->| ->]] by lia; (split_and!; [reflexivity|reflexivity|lia]). Qed.

Lemma glance_regular : regular rotating glance_clients "glance".
Proof.
  split.
  - intros client [->|[->|[->|?%elem_of_nil]%elem_of_cons]%elem_of_cons]%elem_of_cons [He _]; vm_compute in He; done.
  - assert (Hx : ∀ client, client ∈ glance_clients → has_rotation "glance" client (rotation_params rotating).1 → client = glance_client 2 "Progressing").
    { intros client [->|[->|[->|?%elem_of_nil]%elem_of_cons]%elem_of_cons]%elem_of_cons (_ & Hr & _); [| |done|done]; vm_compute in Hr; discriminate. }
    intros c1 c2 Hc1 Hc2 Hr1%Hx Hr2%Hx; [by subst|done..].
Qed.

Lemma rotation_keeps_keys_witness :
  ∃ other r', other ∈ glance_clients ∧ has_rotation "glance" other r' ∧ is_ready other = true ∧
    ¬ @removed demo_decoder (demo_deploy_world (demo_dpl PhaseDeploying false) None) (resource_world [] glance_clients) default_range
        "rook-ceph" rotating [] (rcl_Name other).
Proof.
  apply (@rotation_keeps_keys demo_decoder (demo_deploy_world (demo_dpl PhaseDeploying false) None) (resource_world [] glance_clients)
    default_range "rook-ceph" rotating [] glance_clients eq_refl) with (client := glance_client 0 "Ready") (r := 0).
  - vm_compute. repeat constructor; set_solver.
  - split_and!; [by eexists|reflexivity|by eexists].
  - apply glance_regular.
  - by left.
  - apply glance_rotation. lia.
  - reflexivity.
Defined.

(** ** Storage classes *)

Definition labelled_class (name : string) : StorageClass :=
  mkStorageClass name (Some {[rookStorageClassLabelKey := "true"]}) None rookRBDProvisionerName ∅ None None.

(** A class that nothing uses, one with a bound claim; the class of the pool is missing. *)
Definition class_listing : listing := mkListing [] [labelled_class "unused"; labelled_class "busy"] [] [] [("claim", "Bound", Some "busy")] [].

Definition class_pass : (bool * option err) * list event :=
  @ensureStorageClasses demo_decoder (demo_deploy_world (demo_dpl PhaseDeploying false) None) (listing_world class_listing) default_range
    "rook-ceph" (config_with [dpl_pool] None) [].

Example classes_written :
  omap (λ e, match e with
             | EvApply _ (RStorageClass class) => Some ("+" +:+ sto_Name class)
             | EvDelete _ _ name => Some ("-" +:+ name)
             | _ => None end) class_pass.2 = ["+kubernetes-hdd"; "-unused"] ∧
  err_msg <$> class_pass.1.2 = Some "failed to delete storageclasses: delete storageclass(es) failed".
Proof. vm_compute. done. Qed.

Lemma class_writes_safe_witness :
  @class_write_ok demo_decoder (listing_world class_listing) "rook-ceph" (config_with [dpl_pool] None) [] (ls_classes class_listing)
    (take 5 class_pass.2) (EvDelete "StorageClass" "" "unused").
Proof.
  apply (@class_writes_safe demo_decoder (demo_deploy_world (demo_dpl PhaseDeploying false) None) (listing_world class_listing) default_range
    "rook-ceph" (config_with [dpl_pool] None) [] (ls_classes class_listing) (take 5 class_pass.2) (EvDelete "StorageClass" "" "unused") (drop 6 class_pass.2));
    [reflexivity|]. apply split_at. vm_compute. reflexivity.
Defined.

(** ** Nodes of the CSI driver *)

(** A node that is asked to be drained; the driver does not run there any more. *)
Definition drain_params : DeployParams := defaultDeployParams.
Definition drain_request : gmap string string := {[dp_DrainRequestLabelKey drain_params := "true"]}.
Definition draining : K8sNode := mkK8sNode "node-1" {[cephDaemonsetLabel := "true"]} drain_request [].
Definition draining_cluster : demo_cluster := mkDemo false 0 [] [] [] [draining] (demo_node_report "/dev/vg/lv") [] (mkJobStatus 0 0 0 []).

Definition drain_pass : option unit * list event :=
  @ensureDaemonsetLabels (demo_world draining_cluster) (health_world_nodes drain_request)
    (demo_deploy_world (demo_dpl PhaseDeploying false) None) (resource_world [] []) "rook-ceph" drain_params [].

(** What is written to the node. *)
Definition node_writes (evs : list event) : list (gmap string string * gmap string string) :=
  omap (λ e, match e with EvNodeUpdate n => Some (kn_Labels n, kn_Annotations n) | _ => None end) evs.

(** First the label goes, then the node is marked as ready. *)
Example node_drained :
  node_writes drain_pass.2 = [({["role" := "osd"]}, drain_request);
                              ({["role" := "osd"]}, <[dp_DrainReadyLabelKey drain_params := "true"]> drain_request)].
Proof. vm_compute. reflexivity. Qed.

(** The node whose annotations are gone by the time it is marked: writing to the nil map. *)
Example annotations_gone :
  (@ensureDaemonsetLabels (demo_world draining_cluster) (health_world_nodes ∅)
     (demo_deploy_world (demo_dpl PhaseDeploying false) None) (resource_world [] []) "rook-ceph" drain_params []).1 = None.
Proof. vm_compute. reflexivity. Qed.

Definition released_node : K8sNode := mkK8sNode "node-1" {["role" := "osd"]} drain_request [].

Lemma drain_order_witness :
  ∃ node, node ∈ [draining] ∧
    @node_written (health_world_nodes drain_request) (resource_world [] []) "rook-ceph" drain_params [] node (take 4 drain_pass.2) released_node.
Proof.
  apply (@drain_order (demo_world draining_cluster) (health_world_nodes drain_request)
    (demo_deploy_world (demo_dpl PhaseDeploying false) None) (resource_world [] []) "rook-ceph" drain_params [] [draining]
    (take 4 drain_pass.2) released_node (drop 5 drain_pass.2)); [reflexivity|]. apply split_at. vm_compute. reflexivity.
Defined.

(** ** File systems *)

(** A file system that is not in the spec any more. *)
Definition fs_listing : listing := mkListing [] [] [mkFilesystem "old-fs" "rook-ceph" None zero_FilesystemSpec (Some "Ready")] [] [] [].

Definition fs_pass : ((bool * option err) * timestamps) * list event :=
  @ensureSharedFilesystem (demo_world (deploy_cluster [] plain_labels)) demo_decoder
    (demo_deploy_world (demo_dpl PhaseDeploying false) None) (listing_world fs_listing) default_range
    "rook-ceph" (config_with [dpl_pool] None) {["mds.old-fs" := "t"]} [].

(** Its subvolume group is removed first, and the time of its configuration is forgotten. *)
Example filesystem_removed :
  fs_pass.2 = [EvRead "CephFilesystemList" "rook-ceph" ""; EvCeph "rook-ceph" "ceph fs ls -f json";
               EvCeph "rook-ceph" "ceph fs subvolumegroup -f json ls old-fs";
               EvCeph "rook-ceph" "ceph fs subvolumegroup -f json rm old-fs csi"; EvDelete "CephFilesystem" "rook-ceph" "old-fs"] ∧
  fs_pass.1.2 = ∅.
Proof. vm_compute. done. Qed.

Lemma filesystem_removal_witness :
  @group_gone (demo_world (deploy_cluster [] plain_labels)) (listing_world fs_listing) "rook-ceph" [] "old-fs" (take 4 fs_pass.2).
Proof.
  apply (@filesystem_removal (demo_world (deploy_cluster [] plain_labels)) demo_decoder
    (demo_deploy_world (demo_dpl PhaseDeploying false) None) (listing_world fs_listing) default_range
    "rook-ceph" (config_with [dpl_pool] None) {["mds.old-fs" := "t"]} [] (ls_filesystems fs_listing)
    (take 4 fs_pass.2) "CephFilesystem" "rook-ceph" "old-fs" (drop 5 fs_pass.2)); [reflexivity|].
  apply split_at. vm_compute. reflexivity.
Defined.

(** ** The controller with its operations *)

(** Rook's library: networks are separated by commas, annotations are merged. *)
Definition demo_rook_lib : RookLib := {|
  CIDRList_String := λ nets, Join nets ",";
  GetMonAnnotations := λ m, default ∅ (m !! "mon");
  GetMgrAnnotations := λ m, default ∅ (m !! "mgr");
  Annotations_Merge := λ a b, a ∪ b;
  Placement_All := λ m, default (tolerating []) (m !! "all");
|}.

(** Object storage: what the API server lists of it. *)
Record storage_listing := mkStorageListing {
  sl_realms : list RookRealm;
  sl_groups : list RookZoneGroup;
  sl_zones : list RookZone;
  sl_stores : list RookStore;
  sl_users : list RookUser;
  sl_buckets : list (string * string);
  sl_certs : list DataObject;
  sl_routes : list HTTPRoute;
}.
Definition nothing_stored : storage_listing := mkStorageListing [] [] [] [] [] [] [] [].

Definition store_world (l : storage_listing) : StoreWorld := {|
  w_realm_list := λ _ _, (sl_realms l, None);
  w_zonegroup_list := λ _ _, (sl_groups l, None);
  w_zone_list := λ _ _, (sl_zones l, None);
  w_store_list := λ _ _, (sl_stores l, None);
  w_store_get := λ _ ns name,
    match list_find (λ store, rst_Name store = name) (sl_stores l) with
    | Some (_, store) => (store, None)
    | None => (mkRookStore name ns None zero_StoreSpec None, absent)
    end;
  w_user_list := λ _ _, (sl_users l, None);
  w_bucket_list := λ _ _, (sl_buckets l, None);
  w_storageclass_get := λ _ name, (mkStorageClass name None None "" ∅ None None, absent);
  w_service_get := λ _ ns name, (mkService name ns None [] ∅ "" "", absent);
  w_secret_list := λ _ _ _, (sl_certs l, None);
  w_route_list := λ _ _ _, (sl_routes l, None);
  w_ingress_list := λ _ _ _, ([], None);
  json_ZoneGroupNames := λ _, (rzg_Name <$> sl_groups l, None);
  json_RealmNames := λ _, (rrm_Name <$> sl_realms l, None);
  ParseToLabelSelector := λ label, {[label := ""]};
  pem_Decode := Some;
  x509_NotAfter := λ _, inl 0;
  w_self_signed := λ _ ca _ _, (("key", "cert", ca), None);
|}.

(** Mirrors, objects of the CSI operator, snapshot classes and ingresses: those that were made
    and not deleted since. *)
Definition kept {A} (kind : string) (pick : resource → option A) (named : A → string) (h : history) : list A :=
  foldl (λ items e, match e with
                    | EvApply _ r => match pick r with Some a => List.filter (λ b, negb (bool_decide (named b = named a))) items ++ [a] | None => items end
                    | EvDelete k _ name => if decide (k = kind) then List.filter (λ b, negb (bool_decide (named b = name))) items else items
                    | _ => items
                    end) [] h.

Definition find_named {A} (named : A → string) (name : string) (none : A) (items : list A) : A * option err :=
  match list_find (λ a, named a = name) items with Some (_, a) => (a, None) | None => (none, absent) end.

Definition kept_mirrors : history → list RookMirror := kept "CephRBDMirror" (λ r, match r with RMirror m => Some m | _ => None end) rmi_Name.
Definition kept_peers : history → list DataObject := kept "Secret" (λ r, match r with RPeerSecret s => Some s | _ => None end) dob_Name.
Definition kept_drivers : history → list CsiDriver := kept "Driver" (λ r, match r with RCsiDriver d => Some d | _ => None end) cdv_Name.
Definition kept_configs : history → list CsiOperatorConfig := kept "OperatorConfig" (λ r, match r with RCsiConfig d => Some d | _ => None end) cof_Name.
Definition kept_snapshots : history → list SnapshotClass := kept "VolumeSnapshotClass" (λ r, match r with RSnapshotClass d => Some d | _ => None end) vsc_Name.
Definition kept_ingresses : history → list Ingress := kept "Ingress" (λ r, match r with RIngress i => Some i | _ => None end) ing_Name.

(** With the clients that carry a role, and the pools of Ceph. *)
Definition services_with (clients : list RookClient) (pools : list string) : ServiceWorld := {|
  w_mirror_list := λ h _, (kept_mirrors h, None);
  w_peer_secrets := λ h _, (dob_Name <$> kept_peers h, None);
  w_vsclass_get := λ h name, find_named vsc_Name name (mkSnapshotClass name None "" ∅ "") (kept_snapshots h);
  w_vsclass_list := λ h _, (vsc_Name <$> kept_snapshots h, None);
  w_driver_get := λ h ns name, find_named cdv_Name name (mkCsiDriver name ns None zero_DriverSpec) (kept_drivers h);
  w_driver_list := λ h _, (kept_drivers h, None);
  w_opconfig_get := λ h ns name, find_named cof_Name name (mkCsiOperatorConfig name ns None (mkOperatorConfigSpec None "")) (kept_configs h);
  w_opconfig_list := λ h _, (kept_configs h, None);
  w_profile_list := λ _ _, ([], None);
  w_connection_list := λ _ _, ([], None);
  w_crd_get := λ _ _, absent;
  w_ingress_get := λ h ns name, find_named ing_Name name (mkIngress name ns None ∅ (mkIngressSpec [] [] EmptyString)) (kept_ingresses h);
  w_ingress_labelled := λ h _ _, (ing_Name <$> kept_ingresses h, None);
  w_client_labelled := λ _ _ _, (clients, None);
  w_user_get := λ _ ns name, (mkRookUser name ns None (mkStoreUserSpec "" "" ∅ "") None ∅, absent);
  json_PoolNames := λ _, (pools, None);
  json_MgrModules := λ _, ((["prometheus"], []), None);
  w_align_aes256k := λ _ _, Some (true, None);
  json_of_ClientInfo := λ info, Join (oci_Name info :: oci_ID info :: oci_Keyring info :: oci_Pools info) ",";
|}.
Definition service_world : ServiceWorld := services_with [] ["kubernetes-hdd"].

Definition composed_run (dpl : CephDeployment) (cluster : option RookCluster) (l : listing) (h : history) : option round * list event :=
  @ReconcileCephDeployment (demo_world (deploy_cluster [] ceph_labels)) (health_world_nodes drain_request) (demo_deploy_world dpl cluster)
    (@pelagia_ops (demo_world (deploy_cluster [] ceph_labels)) (health_world_nodes drain_request) (demo_deploy_world dpl cluster)
       demo_decoder (listing_world l) (store_world nothing_stored) service_world demo_rook_lib default_range)
    demo_decoder default_range deploy_lcm deploy_request 0 h.

(** The storage class of the pool, as it is made. *)
Definition pool_class_there : StorageClass :=
  generateStorageClassPoolBased "rook-ceph" "kubernetes-hdd" (pl_StorageClassOpts dpl_pool) "rook-ceph" false.

(** The first round makes the configuration and the CephCluster. *)
Definition ready_dpl : CephDeployment := demo_dpl PhaseDeploying false.
Definition pool_listing (config : option DataObject) : listing :=
  mkListing [a_pool "kubernetes-hdd" ∅] [pool_class_there] [] [] [] (pair "ConfigMap" <$> option_list config).
Definition new_dpl : CephDeployment := set_cdp_Status (set_dst_ClusterVersion "" (cdp_Status ready_dpl)) ready_dpl.
Definition first_run : list event := (composed_run new_dpl None (pool_listing None) []).2.
Definition made_cluster : option RookCluster :=
  head (omap (λ e, match e with EvApply objectCreate (RCluster cluster) => Some cluster | _ => None end) first_run).
Definition made_config : option DataObject :=
  head (omap (λ e, match e with EvApply objectCreate (RConfigMap cm) => Some cm | _ => None end) first_run).

(** Everything is there; the pool is still missing. *)
Definition applied_listing : listing := pool_listing made_config.
Definition missing_listing : listing := mkListing [] [pool_class_there] [] [] [] (pair "ConfigMap" <$> option_list made_config).
Definition applied_run : list event := (composed_run ready_dpl made_cluster applied_listing first_run).2.

Example ready_when_applied :
  phases first_run = [PhaseDeploying; PhaseDeploying] ∧
  phases applied_run = [PhaseDeploying; PhaseReady] ∧
  phases (composed_run ready_dpl made_cluster missing_listing first_run).2 = [PhaseDeploying; PhaseDeploying].
Proof. vm_compute. done. Qed.

(** The round that deletes the cluster. *)
Definition deleted_dpl : CephDeployment := demo_dpl PhaseDeleting true.
Definition no_listing : listing := mkListing [] [] [] [] [] [].
Definition deleted_run : list event := (composed_run deleted_dpl (Some demo_rook) no_listing []).2.

Lemma ready_means_applied_witness :
  during (listed deploy_request first_run) (first_run ++ take 81 applied_run) (λ h, ∃ items,
    @w_blockpool_list (listing_world applied_listing) h "rook-ceph" = (items, None) ∧ @pools_as_specified demo_decoder "rook-ceph" ready_dpl items).
Proof.
  apply (@ready_means_applied (demo_world (deploy_cluster [] ceph_labels)) (health_world_nodes drain_request)
    (demo_deploy_world ready_dpl made_cluster) demo_decoder (listing_world applied_listing) (store_world nothing_stored) service_world demo_rook_lib default_range
    deploy_lcm deploy_request 0 first_run ready_dpl (take 81 applied_run) "pelagia" "cephcluster" (last_status applied_run) (drop 82 applied_run)).
  - reflexivity.
  - apply split_at. vm_compute. reflexivity.
  - vm_compute. reflexivity.
  - discriminate.
  - reflexivity.
Defined.

Lemma destroyed_when_unused_witness :
  deleting deleted_dpl ∧ during (listed deploy_request []) (take 34 deleted_run) (λ h, @w_client_list (listing_world no_listing) h "rook-ceph" = ([], None)).
Proof.
  destruct (@destroyed_when_unused (demo_world (deploy_cluster [] ceph_labels)) (health_world_nodes drain_request)
    (demo_deploy_world deleted_dpl (Some demo_rook)) demo_decoder (listing_world no_listing) (store_world nothing_stored) service_world demo_rook_lib default_range deploy_lcm deploy_request 0 []
    deleted_dpl (take 34 deleted_run) "rook-ceph" "cephcluster" (drop 35 deleted_run)) as (Hd & Hc & _).
  - reflexivity.
  - apply split_at. vm_compute. reflexivity.
  - exact (conj Hd Hc).
Defined.

