(* ===== verification/ClusterDemo.v ===== *)
(** * The CephCluster, the configuration of Ceph, object storage and services at work

    The inputs at which the theorems about ceph_config.go, cluster.go, object storage, the CSI
    operator, the keys for OpenStack and the state of the cluster are applied, and runs that
    show limits of the code. *)

From S2P Require Import Prelude GoTime Types HealthTypes DeployTypes World TaskUtils Demo Controller Config HealthWorld HealthDemo Extensions Validate Trace DeployWorld Resources Pools StorageClasses Clients NodeLabels Versions CephConfig CephConfigFacts External StoreWorld Multisite Rgw ObjectStorage CsiOperator RbdMirror Openstack IngressProxy ObjectStorageFacts DeployController Cluster ClusterState Infra Secrets ServiceFacts ClusterFacts DeployCompose DeployDemo ResourceDemo.
Open Scope Z_scope.

(** ** The target of the configuration *)

(** A spec that changes the general options: one at run time, a fixed one, and one of its own. *)
Definition some_options : gmap string string :=
  {["osd|bdev-enable-discard" := "false"; "global|public_network" := "0.0.0.0/0"; "mon_max_pg_per_osd" := "500"]}.
Definition some_base : gmap string configOption :=
  mergeConfig (mergeConfig ∅ [static_option "global" "public_network" "10.0.0.0/24"]) generalConfigOptions.

Lemma some_base_keyed : well_keyed some_base.
Proof.
  apply merge_keyed; [apply merge_keyed; [apply map_Forall_empty|]|]; repeat (apply Forall_cons; split); try apply Forall_nil;
    (apply (bool_decide_unpack _); vm_compute; exact I).
Qed.

Lemma some_asks s k v :
  @asks default_range some_base some_options s k v →
  (s, k, v) ∈ [("osd", "bdev_enable_discard", "false"); ("global", "public_network", "0.0.0.0/0"); ("global", "mon_max_pg_per_osd", "500")].
Proof.
  intros (param & Hp & Hk). apply elem_of_map_to_list in Hp. vm_compute in Hp.
  repeat (apply elem_of_cons in Hp as [[= -> ->]|Hp]; [vm_compute in Hk; injection Hk as <- <-; set_solver|]). by apply elem_of_nil in Hp.
Qed.

Lemma some_unambiguous : @unambiguous default_range some_base some_options.
Proof.
  intros s k v v' Hv%some_asks Hv'%some_asks.
  repeat (apply elem_of_cons in Hv as [He|Hv]; [|]); try by apply elem_of_nil in Hv.
  all: repeat (apply elem_of_cons in Hv' as [He'|Hv']; [by simplify_eq|]); by apply elem_of_nil in Hv'.
Qed.

Lemma target_exact_witness :
  let target := @getTargetConfigAndRuntime default_range zero_CephVersion some_options some_base in
  configured true target "osd" "bdev_enable_discard" = Some "false" ∧
  configured false target "global" "public_network" = Some "10.0.0.0/24".
Proof.
  split.
  - apply (proj1 (@target_exact default_range zero_CephVersion some_base some_options some_base_keyed "osd" "bdev_enable_discard"
      ltac:(apply (bool_decide_unpack _); vm_compute; exact I) some_unambiguous) "false"); [|reflexivity].
    exists "osd|bdev-enable-discard". split; reflexivity.
  - apply (proj2 (@target_exact default_range zero_CephVersion some_base some_options some_base_keyed "global" "public_network"
      ltac:(apply (bool_decide_unpack _); vm_compute; exact I) some_unambiguous) false). left. reflexivity.
Defined.

(** ** The first round *)

(** The configuration with which the CephCluster is ensured. *)
Definition first_config : deployConfig := config_with [dpl_pool] None.
Definition cluster_run : list event :=
  (@ensureCluster (demo_world (deploy_cluster [] ceph_labels)) (health_world_nodes drain_request) (demo_deploy_world new_dpl None)
     demo_decoder (listing_world (pool_listing None)) demo_rook_lib default_range "rook-ceph" defaultDeployParams first_config []).2.
Definition config_run : list event :=
  (@ensureCephConfig (demo_world (deploy_cluster [] ceph_labels)) demo_decoder (listing_world (pool_listing None)) demo_rook_lib default_range "rook-ceph" defaultDeployParams first_config dpl_cluster false []).2.

Definition new_config : DataObject :=
  default (mkDataObject "" "" None ∅ [] ∅) (head (omap (λ e, match e with EvApply _ (RConfigMap cm) => Some cm | _ => None end) config_run)).
Definition new_cluster : RookCluster := default demo_rook (head (omap (λ e, match e with EvApply _ (RCluster cluster) => Some cluster | _ => None end) cluster_run)).

(** The cluster is written once, after its configuration. *)
Example cluster_made :
  omap (λ e, match e with
             | EvApply objectCreate (RCluster cluster) => Some ("+" +:+ rkc_Name cluster)
             | EvApply objectCreate (RConfigMap cm) => Some ("+" +:+ dob_Name cm)
             | EvClusterGet _ name => Some ("?" +:+ name)
             | _ => None end) cluster_run = ["?cephcluster"; "+rook-config-override"; "?cephcluster"; "+cephcluster"].
Proof. vm_compute. reflexivity. Qed.

Lemma passwords_hidden_witness :
  ∃ file runtime, dob_Data new_config = {["config" := (@sections_text default_range file).1; "runtime" := @runtime_text default_range runtime]} ∧
    (∀ s k, k ∈ passwordKeys → option_at file s k = None).
Proof.
  destruct (@passwords_hidden (demo_world (deploy_cluster [] ceph_labels)) demo_decoder (listing_world (pool_listing None)) demo_rook_lib default_range
    "rook-ceph" defaultDeployParams first_config dpl_cluster false [] objectCreate new_config) as (file & runtime & Hd & Hp & _).
  - apply list_elem_of_lookup. exists 2%nat. vm_compute. reflexivity.
  - exact (ex_intro _ file (ex_intro _ runtime (conj Hd Hp))).
Defined.

Lemma cluster_written_witness :
  @cluster_write (demo_world (deploy_cluster [] ceph_labels)) (health_world_nodes drain_request) (demo_deploy_world new_dpl None)
    demo_decoder (listing_world (pool_listing None)) demo_rook_lib default_range "rook-ceph" defaultDeployParams first_config []
    (take 7 cluster_run) (EvApply objectCreate (RCluster new_cluster)).
Proof.
  apply (@cluster_written (demo_world (deploy_cluster [] ceph_labels)) (health_world_nodes drain_request) (demo_deploy_world new_dpl None)
    demo_decoder (listing_world (pool_listing None)) demo_rook_lib default_range "rook-ceph" defaultDeployParams first_config []
    (take 7 cluster_run) (EvApply objectCreate (RCluster new_cluster)) (drop 8 cluster_run)).
  apply split_at. vm_compute. reflexivity.
Defined.

Lemma generated_cluster_witness :
  let spec := @generateCephClusterSpec demo_rook_lib ∅ dpl_cluster "ceph:v19.2.3" [dpl_node] in
  csp_Image spec = "ceph:v19.2.3" ∧ csp_MonCount spec = nodes_with "mon" [dpl_node] ∧ storage_described [dpl_node] (csp_Storage spec).
Proof.
  destruct (@generated_cluster demo_rook_lib ∅ dpl_cluster "ceph:v19.2.3" [dpl_node] eq_refl) as (Hi & Hm & _ & Hs & _).
  exact (conj Hi (conj Hm Hs)).
Defined.

(** A device given by its link gets this name, another one keeps its path. *)
Example by_id_renamed :
  cn_Devices <$> buildStorageNodes
    [mkDplNode (mkCephNode "node-1" ∅ [mkCephDevice "" "/dev/disk/by-id/x" ∅; mkCephDevice "" "/dev/disk/by-path/y" ∅] "" "" false []) [] ∅ [] "" ""] =
  [[mkCephDevice "/dev/disk/by-id/x" "" ∅; mkCephDevice "" "/dev/disk/by-path/y" ∅]].
Proof. vm_compute. reflexivity. Qed.

(** ** Object storage at work

    The inputs at which the theorems about multisite.go, rgw.go and object_storage.go are
    applied: a gateway that is in the spec beside one that is left over, and sites of which one
    zone is not used any more. *)

Definition demo_gateway (name : string) : DplObjectStore := mkDplObjectStore name false false false (mkRaw None (Some (Some zero_StoreSpec))).
Definition demo_store (name : string) : RookStore := mkRookStore name "rook-ceph" (Some baseResourceLabels) zero_StoreSpec (Some "Ready").
Definition demo_group (name realm : string) : RookZoneGroup := mkRookZoneGroup name "rook-ceph" (Some baseResourceLabels) realm.
Definition demo_zone (name group : string) : RookZone :=
  mkRookZone name "rook-ceph" (Some baseResourceLabels) (mkZoneSpec group zero_SharedPools zero_PoolSpec zero_PoolSpec "").

(** The spec has one gateway and no sites. *)
Definition demo_storage : CephObjectStorage := mkObjectStorage [demo_gateway "store"] [] [] [] [] [].

(** Sites: the store uses the zone of its name, the zone group is used by both zones. *)
Definition sites_listing : storage_listing :=
  mkStorageListing [] [demo_group "group" "realm"] [demo_zone "store" "group"; demo_zone "old" "group"]
    [demo_store "store"] [] [] [] [].
Definition ensure_demo_sites (h : history) :=
  @ensureRgwMultiSite (demo_world (deploy_cluster [] ceph_labels)) (demo_deploy_world ready_dpl None) demo_decoder (listing_world no_listing)
    (store_world sites_listing) default_range "rook-ceph" demo_storage h.

(** Only the zone that no store uses is removed. *)
Example unused_zone_removed :
  omap (λ e, match e with EvDelete kind _ name => Some (kind, name) | _ => None end) (ensure_demo_sites []).2 = [("CephObjectZone", "old")].
Proof. vm_compute. reflexivity. Qed.

Lemma multisite_removal_safe_witness :
  let evs := (ensure_demo_sites []).2 in
  @zone_removable (store_world sites_listing) "rook-ceph" demo_storage [] "old" (take 6 evs).
Proof.
  destruct (@multisite_removal_safe (demo_world (deploy_cluster [] ceph_labels)) (demo_deploy_world ready_dpl None) demo_decoder (listing_world no_listing)
    (store_world sites_listing) default_range "rook-ceph" demo_storage []) as [Hsafe _].
  destruct (Hsafe (take 6 (ensure_demo_sites []).2) (EvDelete "CephObjectZone" "rook-ceph" "old") (drop 7 (ensure_demo_sites []).2))
    as [Hq|[(name & Heq & Hr)|[(name & [Heq|Heq] & _)|(name & [Heq|[Heq|Heq]] & _)]]].
  - apply split_at. vm_compute. reflexivity.
  - destruct Hq.
  - injection Heq as <-. exact Hr.
  - discriminate Heq.
  - discriminate Heq.
  - discriminate Heq.
  - discriminate Heq.
  - discriminate Heq.
Defined.

(** ** A store that is left over *)

Definition stores_listing (users : list RookUser) : storage_listing :=
  mkStorageListing [] [] [] [demo_store "store"; demo_store "old"] users [] [] [].
Definition ensure_consistence (users : list RookUser) (h : history) :=
  @ensureRgwConsistence (demo_deploy_world ready_dpl None) demo_decoder (listing_world no_listing)
    (store_world (stores_listing users)) "rook-ceph" demo_storage false h.
Definition old_user : RookUser := mkRookUser "reader" "rook-ceph" (Some baseResourceLabels) (mkStoreUserSpec "old" "reader" ∅ "") None ∅.

(** With a user left, only the user is removed. *)
Example user_removed_first :
  omap (λ e, match e with EvDelete kind _ name => Some (kind, name) | _ => None end) (ensure_consistence [old_user] []).2 =
    [("CephObjectStoreUser", "reader")] ∧
  omap (λ e, match e with EvDelete kind _ name => Some (kind, name) | _ => None end) (ensure_consistence [] []).2 =
    [("Service", "rook-ceph-rgw-old-external"); ("StorageClass", "old-bucket"); ("CephObjectStore", "old")].
Proof. vm_compute. done. Qed.

Lemma store_removed_last_witness :
  @deserted (store_world (stores_listing [])) "rook-ceph" [] "old" (take 6 (ensure_consistence [] []).2).
Proof.
  destruct (@store_removed_last (demo_deploy_world ready_dpl None) demo_decoder
    (listing_world no_listing) (store_world (stores_listing [])) "rook-ceph" demo_storage false []
    [demo_store "store"; demo_store "old"] (take 6 (ensure_consistence [] []).2) "rook-ceph" "old" (drop 7 (ensure_consistence [] []).2))
    as (_ & _ & _ & Hd & _).
  - reflexivity.
  - intros store Hs. apply elem_of_cons in Hs as [->|Hs]; [discriminate|]. apply list_elem_of_singleton in Hs as ->. discriminate.
  - apply split_at. vm_compute. reflexivity.
  - exact Hd.
Defined.

(** ** Deletion without the Gateway API *)

Definition no_gateway_config : deployConfig :=
  mkDeployConfig deleted_dpl (Some dpl_cluster) false [] [dpl_node] None "" false None (set_cp_GatewayAPIEnabled false (lc_CommonParams defaultLcmConfig)).

Lemma deletion_needs_gateway_witness :
  (@deleteObjectStorage (demo_world (deploy_cluster [] ceph_labels)) (demo_deploy_world ready_dpl None) (listing_world no_listing)
     (store_world nothing_stored) "rook-ceph" no_gateway_config []).1.1 = false.
Proof. apply deletion_needs_gateway; reflexivity. Defined.

(** ** Drivers *)

(** Somebody else's driver for RBD, and one the controller has made and nobody asks for. *)
Definition foreign_driver : CsiDriver := mkCsiDriver "rook-ceph.rbd.csi.ceph.com" "rook-ceph" None zero_DriverSpec.
Definition old_driver : CsiDriver := mkCsiDriver "rook-ceph.nfs.csi.ceph.com" "rook-ceph" (Some baseResourceLabels) zero_DriverSpec.
Definition driver_history : history := [EvApply objectCreate (RCsiDriver foreign_driver); EvApply objectCreate (RCsiDriver old_driver)].
Definition csi_run : list event :=
  (@ensureCsiResources (demo_deploy_world ready_dpl None) demo_decoder (listing_world no_listing) service_world default_range
     "rook-ceph" defaultDeployParams label_config driver_history).2.

(** What is written. *)
Definition csi_writes (evs : list event) : list (string * string) :=
  omap (λ e, match e with
             | EvApply process (RCsiDriver d) => Some (objectProcess_str process, cdv_Name d)
             | EvApply process (RCsiConfig d) => Some (objectProcess_str process, cof_Name d)
             | EvDelete _ _ name => Some ("delete", name)
             | _ => None end) evs.

Example foreign_driver_kept :
  csi_writes csi_run = [("create", "ceph-csi-operator-config"); ("create", "rook-ceph.cephfs.csi.ceph.com"); ("delete", "rook-ceph.nfs.csi.ceph.com")].
Proof. vm_compute. reflexivity. Qed.


(** ** Keys for OpenStack *)

Definition os_client (role : string) (rotation : Z) : RookClient :=
  mkRookClient (role +:+ "-" +:+ pretty rotation) "rook-ceph"
    (Some {[cephDeploymentClientRoleLabel := role; cephDeploymentClientRotationLabel := pretty rotation]})
    (mkClientSpec (role +:+ "-" +:+ pretty rotation) ∅ "") (Some "Ready").

(** The keys of rotation 2 are those to be shared; those of rotation 1 are still there. *)
Definition os_clients : list RookClient :=
  flat_map (λ role, [os_client role 2; os_client role 1]) ["nova"; "glance"; "cinder"].
Definition openstack_params : DeployParams := set_dp_OpenstackCephSharedNamespace "openstack-ceph-shared" defaultDeployParams.
Definition openstack_listing : listing :=
  mkListing [] [] [] [] [] [("ConfigMap", mkDataObject MonMapConfigMapName "rook-ceph" None ∅ [] {["data" := "b=10.0.0.2:6789,a=10.0.0.1:6789"]});
                            ("Secret", mkDataObject adminSecretName "rook-ceph" None ∅ [] {["ceph-secret" := "admin"]})].
Definition openstack_run : list event :=
  (@ensureOpenstackSecret (demo_world (deploy_cluster [] ceph_labels)) demo_decoder (listing_world openstack_listing)
     (services_with os_clients []) default_range "rook-ceph" openstack_params rotating []).2.

Definition shared_secret : DataObject :=
  default (mkDataObject "" "" None ∅ [] ∅) (head (omap (λ e, match e with EvApply _ (RSecret s) => Some s | _ => None end) openstack_run)).

(** The names of monitors are left out, and the addresses sorted. *)
Example shared_endpoints :
  dob_Data shared_secret !! "mon_endpoints" = Some "10.0.0.1:6789,10.0.0.2:6789" ∧
  dob_Data shared_secret !! "glance" = Some "client.glance-2,glance-2,ceph auth get-key client.glance-2,images-hdd:images:hdd".
Proof. vm_compute. done. Qed.

Lemma openstack_keys_current_witness :
  @keys_ok (demo_world (deploy_cluster [] ceph_labels)) (services_with os_clients []) "rook-ceph" rotating [] shared_secret (take 11 openstack_run).
Proof.
  apply (@openstack_keys_current (demo_world (deploy_cluster [] ceph_labels)) demo_decoder (listing_world openstack_listing)
    (services_with os_clients []) default_range "rook-ceph" openstack_params rotating [] (take 11 openstack_run)
    (EvApply objectCreate (RSecret shared_secret)) (drop 12 openstack_run)).
  apply split_at. vm_compute. reflexivity.
Defined.

(** ** The state of the cluster *)

(** The pool of the managers is made by Ceph. *)
Definition state_run : list event :=
  (@ensureClusterState (demo_world (deploy_cluster [] ceph_labels)) (health_world_nodes ∅) (demo_deploy_world ready_dpl None) demo_decoder
     (listing_world no_listing) (services_with [] [".mgr"; "kubernetes-hdd"]) default_range "rook-ceph" label_config []).2.
Definition mgr_pool : BlockPool := @builtin_pool demo_decoder "rook-ceph" ".mgr" (pl_PoolSpec dpl_pool).

Lemma state_writes_safe_witness :
  @state_write_ok (demo_world (deploy_cluster [] ceph_labels)) (health_world_nodes ∅) (services_with [] [".mgr"; "kubernetes-hdd"]) "rook-ceph"
    label_config [] (take 5 state_run) (EvApply objectCreate (RBlockPool mgr_pool)).
Proof.
  apply (@state_writes_safe (demo_world (deploy_cluster [] ceph_labels)) (health_world_nodes ∅) (demo_deploy_world ready_dpl None) demo_decoder
    (listing_world no_listing) (services_with [] [".mgr"; "kubernetes-hdd"]) default_range "rook-ceph" label_config [] (take 5 state_run)
    (EvApply objectCreate (RBlockPool mgr_pool)) (drop 6 state_run)).
  apply split_at. vm_compute. reflexivity.
Defined.

(** ** A host that is renamed *)

(** The ingress was made with the secret the settings name; with another host the secret is
    deleted, and the ingress still refers to it. *)
Definition tls_settings (host : string) : CephDeploymentIngressConfig :=
  mkIngressConfig "nginx" ∅ (Some (mkIngressTLS "my-tls" "example.com" None host)).
Definition tls_listing : listing :=
  mkListing [] [] [] [] [] [("Secret", mkDataObject "my-tls" "rook-ceph" None ∅ [] {["tls.crt" := "crt"; "tls.key" := "key"; "ca.crt" := "ca"]})].
Definition first_ingress : Ingress :=
  @generateIngress (store_world nothing_stored) "rook-ceph" "store" "my-tls" (tls_settings "old") (mkIngressTLS "my-tls" "example.com" None "old") "label".
Definition renamed_run : list event :=
  (@ensure_ingress (demo_world (deploy_cluster [] ceph_labels)) (demo_deploy_world ready_dpl None) (listing_world tls_listing) (store_world nothing_stored) default_range
     "rook-ceph" defaultDeployParams label_config "store" (Some (tls_settings "new")) (Some first_ingress) false []).2.

Example named_secret_deleted :
  omap (λ e, match e with
             | EvApply _ (RIngress i) => Some ("ingress with", (ins_TLS (ing_Spec i)).*2)
             | EvDelete kind _ name => Some ("deleted", [kind; name])
             | _ => None end) renamed_run = [("ingress with", ["my-tls"]); ("deleted", ["Secret"; "my-tls"])].
Proof. vm_compute. reflexivity. Qed.

(** ** The operator of Rook *)

(** A task is processed: the operator has to stop. *)
Definition busy_world : World := demo_world (deploy_cluster [task_in TaskPhaseProcessing] ceph_labels).
Definition own_ceph : infraConfig := mkInfraConfig "cephcluster" "pelagia" [] [] false [] "ceph:v19.2.3" "pelagia:v1".

Definition infra_world : InfraWorld := {|
  w_workload_get := λ _ kind ns name, (mkWorkload name ns None [] (mkWorkloadSpec ∅ None None 0 None "" ∅ ∅ (mkPodSpec "" "" "" None "" None [] [] ∅ [] [] "" "") ""), absent);
  ConvertSelectorToLabelsMap := λ _, ∅;
|}.

Lemma operator_replicas_exact_witness :
  @operator_right busy_world (health_world_nodes ∅) "rook-ceph" "pelagia" "cephcluster" [] false
    (@checkRookOperatorReplicas busy_world (health_world_nodes ∅) "rook-ceph" own_ceph []).2.
Proof.
  apply (proj2 (@operator_replicas_exact busy_world (health_world_nodes ∅) (demo_deploy_world ready_dpl None) (listing_world no_listing)
    (store_world nothing_stored) infra_world defaultLcmConfig deploy_request []) own_ceph); reflexivity.
Defined.

(** The operator is stopped. *)
Example operator_stopped :
  EvDeployScale "rook-ceph" RookCephOperatorName 0 ∈ (@checkRookOperatorReplicas busy_world (health_world_nodes ∅) "rook-ceph" own_ceph []).2.
Proof. vm_compute. set_solver. Qed.

(** ** A cluster that is connected to another one *)

Definition source_secret (client user key : string) : string * DataObject :=
  ("Secret", mkDataObject ("rook-" +:+ client) "rook-ceph" None ∅ [] {["userID" := user; "userKey" := key]}).
Definition source_listing : listing :=
  mkListing [] [] [] [] []
    [("ConfigMap", mkDataObject rookCephMonEndpointsMapName "rook-ceph" None ∅ [] {["data" := "a=1.1.1.1:6789"]});
     source_secret CephCSIRBDNodeClientName "rn" "k1"; source_secret CephCSIRBDProvisionerClientName "rp" "k2";
     source_secret CephCSICephFSNodeClientName "fn" "k3"; source_secret CephCSICephFSProvisionerClientName "fp" "k4"].
Definition secret_world : SecretWorld := {|
  w_dplsecret_get := λ _ ns name, (mkDplSecret name ns [] None, None);
  w_dplsecret_cached := λ _ ns name, (mkDplSecret name ns [] None, None);
  w_dpl_get := λ _ _ _, (ready_dpl, None);
  w_client_infos := λ _ _, ([], None);
  w_user_infos := λ _ _, ([], None);
  w_cluster_list := λ _ _, ([mkCephCluster "cephcluster" "rook-ceph" 1 "1" false [] "" 3 2 ∅ demo_cluster_status], None);
  json_UserInfo := λ _, (("user", [("user", "access", "secret")]), None);
  json_of_Connection := write_connection;
|}.
Definition both_drivers : Opts := mkOpts "rook-ceph" "k8s" true true true "user" "" true.
Definition connection_run : (string + err) * list event :=
  @PrepareConnectionString (demo_world calm) (listing_world source_listing) secret_world both_drivers [].
Definition connection_string : string := match connection_run.1 with inl s => s | inr _ => EmptyString end.
Definition connection_secret : DataObject := mkDataObject externalStringSecretName "pelagia" None ∅ [] {["connection" := default EmptyString (DecodeString connection_string)]}.

Lemma connector_roundtrip_witness :
  ∃ con copies, @connection_data (listing_world no_listing) "pelagia" connection_secret = inl con ∧ driver_secrets "rook-ceph" ready_dpl [] con = Some copies ∧
    @carried (listing_world source_listing) both_drivers [] copies CephCSIRBDNodeClientName connection_run.2.
Proof.
  destruct (@connector_roundtrip (demo_world calm) (listing_world source_listing) secret_world both_drivers [] connection_string connection_secret
    "pelagia" "rook-ceph" ready_dpl []) as (con & Hcon & _ & _ & Hd).
  - intros con _. split; [discriminate|apply read_written].
  - apply (bool_decide_unpack _). vm_compute. exact I.
  - vm_compute. reflexivity.
  - vm_compute. reflexivity.
  - destruct (driver_secrets "rook-ceph" ready_dpl [] con) as [copies|] eqn:He; [|discriminate Hd].
    exact (ex_intro _ con (ex_intro _ copies (conj Hcon (conj He (proj1 (proj2 Hd)))))).
Defined.

(** The keys of a driver are missing: the deployment that reads the string panics. *)
Definition only_rbd : Opts := mkOpts "rook-ceph" "k8s" true false false "" "" false.
Example one_driver_panics :
  match (@getConnectionInfo (demo_world calm) (listing_world source_listing) secret_world only_rbd []).1 with
  | inl con => driver_secrets "rook-ceph" ready_dpl [] con = None
  | inr _ => False
  end.
Proof. vm_compute. reflexivity. Qed.
